(* ===== verification/_CoqProject ===== *)
-Q . S2P
Prelude.v
Text.v
Fsm.v
Footprint.v
Json.v
EventChain.v
EventLog.v
Review.v
Usage.v
UsageLaws.v
Db.v
Auth.v
Budget.v
TxLogic.v
AuditTrail.v
Claimability.v
Threads.v
Deps.v
Tokens.v
OAuthStore.v
OAuthClients.v
Attributes.v
Gates.v
LandGate.v
Packets.v
Landing.v
Reviews.v
Closing.v
FootprintStore.v
Ledger.v
Creation.v
Dispatch.v
Access.v
TokenRoutes.v
OAuthServer.v
Sweeper.v
Governance.v
StoreRels.v
FlowLogic.v
StoreOps.v
Outbox.v
Samples.v
ClaimLaws.v
BudgetLaws.v
AuditLaws.v
DepsLaws.v
AuthLaws.v
OAuthLaws.v
LedgerLaws.v
StoreLaws.v
LandingLaws.v
ReviewLaws.v
ClosingLaws.v
GovernanceLaws.v
CreationLaws.v
EvidenceLaws.v
NextLaws.v
DispatchLaws.v
ReaperLaws.v
OutboxLaws.v
Seal.v
SealLaws.v
Events.v
Broadcast.v
BroadcastLaws.v
NotifyFloor.v
FloorLaws.v
Delivery.v
DeliveryLaws.v
Subscribe.v
SubscribeLaws.v
Agui.v
AguiLaws.v
Keys.v
KeysLaws.v
