(* ===== verification/Prelude.v ===== *)
(** * Maidan: the claim queue, reviews and closes, the event log, its relay and its subscribers

    Maidan coordinates people and agents over threads of work. A thread lives
    in a channel of a workspace; a worker pulls the next thread from a queue
    and holds it under a lease, fenced by a token; finished work is handed to
    reviewers as a packet of evidence, and a thread closes only through its
    gates; what happens is appended to a log that is hash-chained per
    workspace, and every appended event is queued in a transactional outbox
    that relays drain to a bus, from which subscribers are sent what they may
    hear. This development models that core of the SQLite store, of the types
    it is written over, of two workers of the server, of the authority a caller
    acts with (capabilities, tokens, delegation and the OAuth authorization
    server), and of the way from the log to a subscriber: the bus, the listener
    of the Postgres bus, the streams, and who is admitted to them; from the
    sources under [src/crates/].

    ** The parts and their files

    Types and texts:
    - [Prelude]: results, the ordering and limiting of rows, generic lemmas on
      lists, maps and booleans, the setters of records and the tactics
      ([bool_simpl], [field_setter]) shared by all files.
    - [Text]: Rust strings as lists of code points, with the methods the
      sources use ([trim], [split_once], [strip_prefix], cases).
    - [Fsm]: [maidan-fsm/src/lib.rs] and [hsm.rs], the states of a thread, the
      actions on it and the rule between a parent and its child.
    - [Footprint]: [maidan-types/src/footprint.rs], what part of a repository
      a thread touches: validation, normalization and keys.
    - [Json]: [maidan-types/src/signed_export.rs] and the number rules of
      [event_chain.rs]: JSON values, canonical text, secret scan, hex.
    - [EventChain]: [maidan-types/src/event_chain.rs], links, commitments and
      the verifier of a chain of events.
    - [Review]: [maidan-types/src/review.rs], [land_gate.rs] and [waiter.rs]
      with [maidan-store/src/attestation.rs]: decisions, the evidence manifest
      and its root, the standing of a land gate, the results of review agents.
    - [Usage]: [maidan-types/src/usage_ledger.rs] and
      [maidan-store/src/usage_sql.rs], token counts, prices and the charge, the
      GenAI attributes a report is read from, rollups and seat costs.

    The store, one file per part, each operation the transaction the source
    runs:
    - [EventLog]: [sqlite/events.rs] and [retention.rs], the table of events:
      appends, reads, paged verification, pruning.
    - [Db]: the rows the store's operations read and write, one [gmap], [gset]
      or list per table, and [Tx], the state and error monad of a transaction.
      [commit] undoes the tables on an error; the wall clock and the fresh ids
      are readings of the environment [Env], numbered in the order a call
      makes them.
    - [Budget]: [sqlite/budget.rs] with [ThreadBudget::exceeded], the limits,
      the usage and the stop of a run; [dlq.rs] for its dead letter.
    - [Ledger]: [sqlite/usage_ledger.rs] and the accounted report of
      [sqlite/budget.rs]: a report is reserved by its id, charged to the budget
      and finished in one transaction; the reads and rollups over it.
    - [AuditTrail]: [sqlite/audit.rs] and [audit_scope.rs].
    - [Claimability]: the backend-neutral SQL of the queue as functions of the
      tables: [claim_grace.rs], [claimability.rs], [footprints.rs],
      [thread_access.rs], [review_family.rs], [claim_next.rs],
      [queue_counts.rs].
    - [Threads]: [sqlite/threads.rs], [thread_workers.rs] and [wip.rs], every
      operation that takes, renews, acknowledges, releases, reaps or reports a
      claim.
    - [Deps]: [sqlite/thread_deps.rs], edges between threads under the cycle
      guard, and readiness.
    - [FootprintStore]: [sqlite/footprints.rs], declaring a footprint, the
      reads over live claims, pauses of repositories and capacities of slots.
    - [Attributes]: [sqlite/thread_attributes.rs], the attributes of a task,
      those a workspace keeps unique, and the workspace's defaults.
    - [Creation]: the ways a thread is created ([sqlite/threads.rs]), its
      fingerprint ([task_fingerprints.rs]) and the spawn budget ([spawn.rs]).
    - [Gates]: [sqlite/approval_gates.rs], questions to a person, their
      decision and the confirmation links.
    - [LandGate]: [sqlite/land_gate.rs]; [Packets]: [review_packets.rs], what
      a review was handed and whether it is unchanged.
    - [Landing]: [sqlite/thread_transitions.rs], the gates of a close and the
      move between states, with the review children of [review_family.rs].
    - [Reviews]: [sqlite/reviews.rs], requirements, verdicts, send-backs and
      the cap on rounds.
    - [Closing]: the transitions as callers see them, closing as abandoned,
      and what a close owes the plans above it ([plans.rs]).
    - [Dispatch]: blocks, waits, parks, priorities, skills, declared status,
      results, references and links of artifacts, one Rust file each.
    - [Governance]: freezes, cancels and the audited settings.
    - [Auth]: [maidan-auth/src/capability.rs], [capability_set.rs] and
      [context.rs], what a caller may do and how it is passed on; [Tokens]:
      [sqlite/tokens.rs], [token_quotas.rs], [delegation_grants.rs] and
      [maidan-auth/src/resolve.rs], from a bearer secret to a caller; [Access]:
      [access.rs] and [event_visibility.rs]; [TokenRoutes]: the handlers of
      [maidan-server/src/routes/token.rs]. What runs outside one transaction is
      a [Req], store calls in sequence with an error type of its own.
    - [OAuthStore]: [sqlite/oauth_as.rs], clients, consent requests, codes,
      grants and refresh tokens; [OAuthClients]: the checks of
      [maidan-server/src/oauth/] that read no table; [OAuthServer]: its
      endpoints, from the authorization request to revocation and dynamic
      registration. URL parsing, encodings and the fetch of a document are the
      class [Web], the settings the class [OAuthConfig], and the secrets an
      endpoint draws are arguments.
    - [Outbox]: [sqlite/outbox.rs] and [maidan-server/src/outbox_relay.rs], the
      outbox's rows and the calls of a relay's turn, one by one ([turn_step]). The
      bus is the class [Bus], the opening of claimed rows the class [OutboxKeys].
    - [Sweeper]: [maidan-server/src/wait_sweeper.rs], one tick over due waits.

    From the log to a subscriber:
    - [Seal]: [maidan-types/src/content_seal.rs], sealing the words of a message
      and opening them again. The cipher is the class [SealEnv].
    - [Keys]: the rest of [content_seal.rs], [maidan-store/src/content_keys.rs] and
      [sqlite/content_keys.rs]: data keys under workspace keys under a custody,
      sealing and shredding in an append, rotation and the rewrap pass. Wrapping
      and a custody other than the local one are parameters.
    - [Events]: [maidan-types/src/events.rs] and [cursor.rs], the kinds and
      variants of events with their scopes, opening a stored event, the filter of
      a subscription, projector shapes.
    - [Broadcast]: [maidan-bus/src/sharded.rs] and [inmem.rs], the fan-out
      sharded by workspace, as operations and as the interleaved steps of
      publishers and subscribers. tokio's channel is the class
      [BroadcastChannel].
    - [NotifyFloor]: [maidan-bus/src/notify_floor.rs] and [postgres.rs], the
      listener's mark, its drains of the log, and the notifications. The log is
      the class [EventLog] with [PgEventLog] as an instance.
    - [Delivery]: [maidan-server/src/event_stream.rs] and [delivery.rs], replay,
      the live stream, the at-least-once loop, durable cursors, and the backfill
      of a shape. What happens around a stream is the class [StreamEnv].
    - [Subscribe]: [maidan-auth/src/subscribe.rs], [subscribe_grants.rs], and
      the admission in [ws.rs] and [mcp_stream.rs].
    - [Agui]: [agui.rs], [agui_stream.rs] and [maidan-store/src/lag_resume.rs].

    The proof theory: [TxLogic]'s [keeps n R m] carries a relation between
    worlds through a transaction. [StoreOps]'s [Op] and [exec] are the
    operations as one type, and [row_step] says which rows of the thread table
    each may write; the classes [ClaimRel] and [StoreRel] ([StoreRels]) are the
    relations that survive the writes to the other tables, and [FlowLogic]
    does the same for the flow of states, parents and channels. [Op] has every
    modelled operation that writes threads or events; retention, which deletes
    events, and the outbox's own operations are outside it. A law is proved
    against this interface by looking at row steps only. [Samples] holds small
    stores on which the laws are evaluated.

    ** What the theorems show

    Closes ([LandingLaws], [ReviewLaws], [ClosingLaws]): a close goes through
    exactly when every gate passes, and every close that reports success was
    justified by the tables it started from: enough distinct approvers outside
    the work, unchanged evidence, no refutation, a qualifying land-gate pass.
    Whoever held a thread never counts as its approver, whatever happens in
    between. (Cancelling, and abandoning a thread that has no result, pass no
    gate.) A send-back resets the approvals and stays within the cap on
    rounds or waits on a person. The standings shown to reviewers and
    operators agree with the gates. States move only along the lifecycle, a
    finished thread stays finished, and the loop over the plans above a closed
    thread ends even if the plan table is cyclic.

    Claims ([ClaimLaws], [StoreLaws]): the claim columns are consistent after
    any sequence of operations; a live claim is kept by every operation not
    entitled to end it; a token that left its thread is refused for ever;
    heartbeat and acknowledgement are characterized exactly; the boot grace
    shields lapsed claims; the worker record never forgets a holder.

    The queue ([NextLaws], [ReaperLaws]): [claim_next] returns the first
    eligible thread in the order the query asks for, returns nothing exactly
    when none is eligible, never fails, and keeps live footprints disjoint and
    slots within capacity; the counts partition the open threads and agree
    with the queue; the reaper clears exactly what it selected. A heartbeat is
    outside that guard: it can revive a lapsed claim over an overlapping live
    one ([renewal_can_overlap]).

    Creation ([CreationLaws], [EvidenceLaws]): a fingerprint stands for a
    brief and an evidence root for a manifest, unless SHA-256 collides on the
    two inputs; parents form a forest, so depth is well defined. The checks of a
    create are made before its transaction, and other operations may run in
    between: a created child is within the spawn budget but for the children its
    parent gained meanwhile.

    Governance ([GovernanceLaws], [DispatchLaws]): a thread at its round cap
    and a frozen member get no work; requirements are loosened only with the
    authority to; gates are decided once and confirmation links work once; a
    tick of the wait sweeper fires what is due and decides nothing.

    Dependencies ([DepsLaws]): the guard's recursive query is reachability, so
    no sequence of operations closes a cycle, only cycles are refused, a
    waiting thread waits in the end on one that can be worked, and readiness
    means the same to the dependency table and to the queue.

    Authority ([AuthLaws]): whatever the store and the token routes do, a
    derived token never allows more than its maker could, nor longer; a
    revocation is final for the token, all derived from it and all under a
    grant; the access rule of the routes is the reading rule of the queue, and
    over one state of the tables the remembered answers of an event reader are the
    fresh ones. The binding of
    an OAuth token to its resource is the exception ([oauth_binding_shed]).

    OAuth ([OAuthLaws]): an invariant of the store, kept by every operation,
    token route and OAuth endpoint in any order, bounds an OAuth token by the
    scope, member and workspace of a live grant; a refresh token and a code work
    once, and presenting one again, a code while it is stored, ends its lineage for
    good. A code can outlive
    the grant it was issued under ([code_outlives_its_grant]).

    Usage ([UsageLaws], [LedgerLaws]): the charge of a report and the rollup's
    SQL are the same number; a report is charged once, however often it is sent;
    the token tiers of a budget are the sums of the ledger's entries, whatever
    the store does, and a sum beyond 64 bits fails its report. Two rules of the sources part from each other
    ([lane_rules_differ], [uncached_may_overflow]).

    Budgets and audit ([BudgetLaws], [AuditLaws]): a usage report stops a run
    exactly when a limit binds, and the queue then holds the thread back;
    operators' writes commit with one audit record of the right workspace or
    not at all.

    The log: canonical text is equal exactly for equal values; the verifier
    accepts exactly the suffixes of hash chains; two logs with the same head
    are the same log unless the hash collides on an input it was given; any
    interleaving of appends and retention keeps every chain verifying when
    events are appended in the order of their occurrence, and need not when
    they are not ([retention_can_break_chain]). Every operation of the store
    appends to the log and to the outbox together ([StoreLaws]).

    The relay ([OutboxLaws]): any number of relays, moving by [turn_step], crashes,
    producers and operators are interleaved at the grain of store calls and
    publishes;
    nothing is marked published that the bus did not accept; claims within a
    lease are disjoint; a turn ends, and turns drain the backlog 64 rows at a time.

    The bus ([BroadcastLaws], [FloorLaws]): with publishes, subscriptions and
    drops interleaved step by step, a live subscriber is offered every event
    whose publish looked its channel up after it subscribed, and pruning strands
    nobody; one operation after the other, sharding offers a subscriber what one
    channel would. The listener's
    mark passes no committed event it has not handed on, and one reconnect
    without faults ends any backlog; an id that commits late and whose
    notification is lost is the gap the module names
    ([late_commit_without_notify_is_missed]).

    Streams ([DeliveryLaws], [AguiLaws]): the at-least-once loop moves no cursor
    over what it has not sent, as long as insert times follow ids (a skewed
    clock strands a row: [skewed_row_is_stranded]); replay and live stream send
    ids in strictly increasing order; the backfill is the first matching rows;
    the AG-UI door shows only frames of events whose own thread was readable, in
    order. The stored cursor of a
    live stream can be ahead of what was sent ([cursor_ahead_of_delivery]), and
    the AG-UI door forgets its filter on a lag, leaves a gap behind a long replay
    and repeats itself after a failed resume ([lag_ignores_the_filter],
    [replay_leaves_a_gap], [failed_resume_sends_again]).

    Subscriptions ([SubscribeLaws], [SealLaws]): an admitted subscription hears
    its caller's workspace, threads it may read and private channels it is in;
    the channel of direct messages is the exception
    ([dm_grant_hears_every_dm]), and the channels denied are those of the moment
    ([later_private_channel_is_heard]). Resume tokens and sealed payloads round
    trip, and a sealed payload has its words in the ciphertext alone.

    Keys ([KeysLaws]): a key a sealing used survives whatever the store does until
    it is shredded; a shred is final; a rewrap pass ends and, when it skipped
    nothing, leaves every live key where it belongs.

    Types: the language of lifecycle actions, the parent rule and its limits,
    validation of footprints and spellings of repositories, the secret scan,
    number normalization and its one exception, and hex.

    ** Parameters, bounds and fuel

    Code outside the repository is a class: the text of JSON strings and
    floats ([JsonText], with the laws of an injective printer), SHA-256
    ([Sha256], with the shape of a digest; collision freedom is asked only of
    the inputs a statement names), the clock, the identifiers, the request's
    principal, the sealing of message words and the serialized form of an event
    ([Env]; freshness of identifiers is the hypothesis that [uuid] is
    injective, or that it does not give out one identifier again), SQLite's
    floating-point sums ([SqlReal]), the crates the OAuth server calls ([Web])
    and the bus ([Bus]), the keys and the custody ([OutboxKeys] and the classes of
    [Keys]), the cipher and the JSON parser ([SealEnv]), the codecs of events,
    frames, notifications and resume tokens ([EventCodec], [FrameText],
    [NotifyCodec], [ResumeCodec]) and tokio's channel ([BroadcastChannel]). Every
    class has an instance and every theorem with hypotheses a witness. The loops
    that are not structural have fuel, and each
    bound is shown to be enough: the paging of [EventLog.verify_chain] has one
    page per row of the table and one more ([verify_chain_paged]); the
    recursive query of the cycle guard one turn per edge and one more
    ([elem_of_reachable]); the walk up to a thread's root one step per thread
    ([thread_forest]); the loop over the plans above a close one turn per row
    of the plan table and one more ([after_close_returns]); a tick of the
    sweeper the thousand firings the source itself allows; the drains of the
    listener, of the at-least-once loop and of a lag one page per id up to the
    log's head and one more ([drain_returns], [reconcile_drain_total],
    [resume_total]), the backfill one page per row and one more
    ([backfill_exact]), a relay's turn three calls per row and two more
    ([run_once_returns]), the rewrap pass one page per key and one more
    ([rewrap_completes]). Times are
    nanoseconds since the epoch, and SQLite's time functions read them at the
    resolution they have. Counters are integers; where the source saturates or
    truncates to 64 bits, or a sum beyond them fails to be read back, the definitions
    say so.

    ** What is not modelled

    The Postgres twin of the store, but for the reads of its bus listener, and the
    dispatch between the two; presence and the resource notifiers; the sweep of
    stray custody keys and the deletion of queued copies at a shred; submitting,
    amending and releasing plans, recipes and schedules; the report of stalled
    claims and the listings of boards; evidence records; usage meters and
    allowances; peers and sessions; the pages and discovery documents of the
    OAuth server; messages beyond the notices the modelled operations post,
    channels, members and notifications; search, artifacts, the MCP, A2A
    and HTTP layers, which are protocol glue over the store, and the remaining
    workers, which are timers around store calls and outbound I/O. The
    serialized form of an event is a parameter, since its text is derived by a
    library; the scopes of events are modelled. *)

From stdpp Require Import prelude gmap list sorting.
From stdpp Require Export prelude gmap list sorting.

(** ** Results

    Rust's [Result<A, E>]: every fallible function of the source returns one,
    with an inductive type of its refusals in place of the message strings. *)

Inductive result (E A : Type) : Type :=
| Ok (a : A)
| Err (e : E).
Global Arguments Ok {E A} _.
Global Arguments Err {E A} _.

Global Instance Ok_inj {E A} : Inj (=) (=) (@Ok E A).
Proof. by intros ?? [= ->]. Qed.

Definition is_ok {E A} (r : result E A) : bool :=
  match r with Ok _ => true | Err _ => false end.

Definition rbind {E A B} (r : result E A) (f : A -> result E B) : result E B :=
  match r with Ok a => f a | Err e => Err e end.

Declare Scope result_scope.
Delimit Scope result_scope with res.
(** [let*? x := r in k] is the source's [let x = r?; k]. *)
Notation "'let*?' x ':=' r 'in' k" := (rbind r (fun x => k))
  (at level 10, x pattern, r at level 100, k at level 200) : result_scope.
(** [r ;? k] is the source's [r?; k]. *)
Notation "r ';?' k" := (rbind r (fun _ => k))
  (at level 100, k at level 200, right associativity) : result_scope.

Lemma rbind_ok {E A B} (r : result E A) (f : A -> result E B) b :
  rbind r f = Ok b <-> exists a, r = Ok a /\ f a = Ok b.
Proof. destruct r; naive_solver. Qed.

(** [for x in l { … f(x)? … }], collecting what each call returns. *)
Fixpoint rmapM {E A B} (f : A -> result E B) (l : list A) : result E (list B) :=
  match l with
  | [] => Ok []
  | x :: l => rbind (f x) (fun y => rbind (rmapM f l) (fun ys => Ok (y :: ys)))
  end.

Lemma rmapM_ok {E A B} (f : A -> result E B) l ys :
  rmapM f l = Ok ys <-> Forall2 (fun x y => f x = Ok y) l ys.
Proof.
  revert ys. induction l as [|x l IH]; intros ys; simpl.
  - split; [by intros [= <-]|]. by inversion 1.
  - rewrite rbind_ok. setoid_rewrite rbind_ok. setoid_rewrite IH. split.
    + intros (y & Hy & ys' & Hys & [= <-]). by constructor.
    + inversion 1; subst. eauto 10.
Qed.

Lemma rmapM_err {E A B} (f : A -> result E B) l e :
  rmapM f l = Err e <->
  exists l1 x l2, l = l1 ++ x :: l2 /\ (forall a, a ∈ l1 -> exists b, f a = Ok b) /\ f x = Err e.
Proof.
  induction l as [|y l IH]; simpl.
  - split; [done|]. intros (l1 & x & l2 & H & _). by destruct l1.
  - destruct (f y) as [b|e'] eqn:Ey; simpl.
    + transitivity (rmapM f l = Err e); [by destruct (rmapM f l)|]. rewrite IH. split.
      * intros (l1 & x & l2 & -> & Hl & Hx). exists (y :: l1), x, l2.
        split; [done|]. split; [|done]. intros a [->|Ha]%elem_of_cons; eauto.
      * intros ([|z l1] & x & l2 & Heq & Hl & Hx); simplify_eq/=; [congruence|].
        exists l1, x, l2. split; [done|]. split; [|done]. intros a Ha. apply Hl. by right.
    + split.
      * intros [= ->]. exists [], y, l. split; [done|]. split; [set_solver|done].
      * intros ([|z l1] & x & l2 & Heq & Hl & Hx); simplify_eq/=; [congruence|].
        destruct (Hl z) as [b ?]; [left|]; congruence.
Qed.

Global Instance result_eq_dec `{EqDecision E, EqDecision A} : EqDecision (result E A).
Proof. solve_decision. Defined.

(** ** Record updates

    [field_setter eta f] builds the function that applies an update to the
    field [f] and keeps the others, from the record's eta expansion [eta]. *)

Ltac field_setter eta f :=
  let e := eval cbv delta [eta] in eta in
  lazymatch (eval pattern f in e) with
  | ?rebuild _ =>
      let t := constr:(fun upd r => rebuild (fun x => upd (f x)) r) in
      let t' := eval cbv beta in t in
      exact t'
  end.

(** ** Automation *)

Create HintDb maidan.

(** Turn the boolean guards of the executable definitions into propositions. *)
Ltac bool_simpl :=
  repeat match goal with
  | H : _ && _ = true |- _ => apply andb_true_iff in H as [??]
  | H : negb _ = true |- _ => apply negb_true_iff in H
  | H : negb _ = false |- _ => apply negb_false_iff in H
  | H : _ || _ = false |- _ => apply orb_false_iff in H as [??]
  | H : bool_decide _ = true |- _ => apply bool_decide_eq_true in H
  | H : bool_decide _ = false |- _ => apply bool_decide_eq_false in H
  | H : (_ =? _)%Z = true |- _ => apply Z.eqb_eq in H
  | H : (_ =? _)%Z = false |- _ => apply Z.eqb_neq in H
  | H : (_ <? _)%Z = true |- _ => apply Z.ltb_lt in H
  | H : (_ <? _)%Z = false |- _ => apply Z.ltb_ge in H
  | H : (_ <=? _)%Z = true |- _ => apply Z.leb_le in H
  | H : (_ <=? _)%Z = false |- _ => apply Z.leb_gt in H
  | H : (_ =? _)%N = true |- _ => apply N.eqb_eq in H
  | H : (_ =? _)%N = false |- _ => apply N.eqb_neq in H
  | H : (_ <? _)%N = true |- _ => apply N.ltb_lt in H
  | H : (_ <? _)%N = false |- _ => apply N.ltb_ge in H
  | H : (_ <=? _)%N = true |- _ => apply N.leb_le in H
  | H : (_ <=? _)%N = false |- _ => apply N.leb_gt in H
  end.

(** The same, splitting disjunctive guards into cases. *)
Ltac bool_cases :=
  repeat (bool_simpl; match goal with
  | H : _ || _ = true |- _ => apply orb_true_iff in H as [?|?]
  | H : _ && _ = false |- _ => apply andb_false_iff in H as [?|?]
  end); bool_simpl.

(** Split every [match] and [if] of the hypotheses and of the goal. *)
Ltac split_matches :=
  repeat (case_match; simplify_eq/=; bool_simpl).

(** ** Lists *)

Lemma existsb_true {A} (f : A -> bool) (l : list A) :
  existsb f l = true <-> exists x, x ∈ l /\ f x = true.
Proof.
  rewrite existsb_exists. setoid_rewrite <- list_elem_of_In. done.
Qed.

Lemma existsb_false {A} (f : A -> bool) (l : list A) :
  existsb f l = false <-> forall x, x ∈ l -> f x = false.
Proof.
  split.
  - intros H x Hx. destruct (f x) eqn:E; [|done].
    assert (existsb f l = true) by (apply existsb_true; eauto). congruence.
  - intros H. destruct (existsb f l) eqn:E; [|done].
    apply existsb_true in E as (x & Hx & Hf). rewrite H in Hf; done.
Qed.

Lemma forallb_true {A} (f : A -> bool) (l : list A) :
  forallb f l = true <-> forall x, x ∈ l -> f x = true.
Proof.
  rewrite forallb_forall. setoid_rewrite <- list_elem_of_In. done.
Qed.

(** [List.filter] keeps exactly the members that pass. *)
Lemma elem_of_bfilter {A} (f : A -> bool) (l : list A) x :
  x ∈ List.filter f l <-> x ∈ l /\ f x = true.
Proof. rewrite !list_elem_of_In, filter_In. done. Qed.

Lemma last_drop {A} (l : list A) k : k < length l -> last (drop k l) = last l.
Proof.
  intros Hk. rewrite !last_lookup, lookup_drop, length_drop. f_equal. lia.
Qed.

Lemma elem_of_take_in {A} (l : list A) n x : x ∈ take n l -> x ∈ l.
Proof. rewrite <- (take_drop n l) at 2. rewrite elem_of_app. by left. Qed.

Lemma StronglySorted_bfilter {A} (R : A -> A -> Prop) (p : A -> bool) l :
  StronglySorted R l -> StronglySorted R (List.filter p l).
Proof.
  induction 1 as [|x l Hl IH Hx]; simpl; [constructor|]. destruct (p x); [|done].
  constructor; [done|]. rewrite Forall_forall in *. intros y [Hy _]%elem_of_bfilter. by apply Hx.
Qed.

Lemma bfilter_all {A} (p : A -> bool) l : (forall x, x ∈ l -> p x = true) -> List.filter p l = l.
Proof.
  induction l as [|x l IH]; intros Hp; [done|]. simpl. rewrite (Hp x) by (left). f_equal.
  apply IH. intros y Hy. apply Hp. by right.
Qed.

Lemma bfilter_perm {A} (p : A -> bool) (l l' : list A) : l ≡ₚ l' -> List.filter p l ≡ₚ List.filter p l'.
Proof. induction 1; cbn; repeat case_match; eauto using Permutation_swap, Permutation_trans. Qed.

Lemma bfilter_none {A} (p : A -> bool) l : (forall x, x ∈ l -> p x = false) -> List.filter p l = [].
Proof.
  induction l as [|x l IH]; intros Hp; [done|]. simpl. rewrite (Hp x) by (left).
  apply IH. intros y Hy. apply Hp. by right.
Qed.

Lemma NoDup_fmap_inj_elem {A B} (f : A -> B) (l : list A) x y :
  NoDup (f <$> l) -> x ∈ l -> y ∈ l -> f x = f y -> x = y.
Proof.
  intros Hnd Hx Hy Hf. apply list_elem_of_lookup in Hx as [i Hi], Hy as [j Hj].
  assert (i = j) as ->; [|congruence].
  eapply (NoDup_lookup (f <$> l)); [done|by rewrite list_lookup_fmap, Hi|by rewrite list_lookup_fmap, Hj, Hf].
Qed.

(** A decidable fact of every number below a bound, by evaluation. *)
Lemma N_below (P : N -> bool) (k : nat) :
  forallb P (N.of_nat <$> seq 0 k) = true -> forall n, (n < N.of_nat k)%N -> P n = true.
Proof.
  rewrite forallb_true. intros H n Hn. apply H, list_elem_of_fmap.
  exists (N.to_nat n). split; [by rewrite N2Nat.id|]. apply elem_of_seq. lia.
Qed.

(** [LIMIT ?]: SQLite reads a negative limit as none. *)
Definition limit_rows {A} (limit : Z) (l : list A) : nat :=
  if (limit <? 0)%Z then length l else Z.to_nat limit.
Definition sql_limit {A} (limit : Z) (l : list A) : list A := take (limit_rows limit l) l.

Lemma sql_limit_in {A} limit (l : list A) x : x ∈ sql_limit limit l -> x ∈ l.
Proof. apply elem_of_take_in. Qed.

(** ** The first row of an ordered query

    [first_by lt rows] is what [SELECT … ORDER BY … LIMIT 1] returns: the row
    no other row precedes, [lt] being the query's ordering. *)

Fixpoint first_by {A} (lt : A -> A -> bool) (rows : list A) : option A :=
  match rows with
  | [] => None
  | x :: rest =>
      match first_by lt rest with
      | None => Some x
      | Some y => if lt y x then Some y else Some x
      end
  end.

Section first_by.
Context {A : Type} (lt : A -> A -> bool).

Lemma first_by_None rows : first_by lt rows = None <-> rows = [].
Proof. destruct rows; simpl; [done|]. split_matches; naive_solver. Qed.

Lemma first_by_elem rows x : first_by lt rows = Some x -> x ∈ rows.
Proof.
  revert x. induction rows as [|y rows IH]; simpl; intros x H; [done|].
  split_matches; set_solver.
Qed.

(** For a strict weak ordering, no row of the result set precedes it. *)
Lemma first_by_least rows x :
  (forall a, lt a a = false) ->
  (forall a b c, lt a b = true -> lt b c = true -> lt a c = true) ->
  (forall a b c, lt a b = false -> lt b c = false -> lt a c = false) ->
  first_by lt rows = Some x -> forall y, y ∈ rows -> lt y x = false.
Proof.
  intros Hirr Htr Hntr. revert x.
  induction rows as [|z rows IH]; simpl; intros x H y Hy; [set_solver|].
  destruct (first_by lt rows) as [w|] eqn:E.
  - destruct (lt w z) eqn:Ewz; simplify_eq.
    + apply elem_of_cons in Hy as [->|Hy]; [|eauto].
      destruct (lt z x) eqn:Ezx; [|done].
      pose proof (Htr _ _ _ Ezx Ewz) as Hzz. by rewrite Hirr in Hzz.
    + apply elem_of_cons in Hy as [->|Hy]; [done|eauto].
  - apply first_by_None in E as ->. simplify_eq. set_solver.
Qed.
End first_by.
