(* ===== verification/Text.v ===== *)
(** * Rust's [str]

    A [str] is the list of its Unicode scalar values. These are the operations
    of the Rust standard library the modelled sources use on text, with the
    white-space and control classes of the [char] documentation. *)

From stdpp Require Import strings.
From S2P Require Import Prelude.

Abbreviation str := (list N).

(** A literal of the source. *)
Definition lit (s : string) : str := Ascii.N_of_ascii <$> String.list_ascii_of_string s.

(** ** Character classes *)

Definition in_range (lo hi c : N) : bool := (lo <=? c)%N && (c <=? hi)%N.

(** [char::is_whitespace]: the Unicode White_Space property. *)
Definition is_whitespace (c : N) : bool :=
  in_range 9 13 c || (c =? 32)%N || (c =? 133)%N || (c =? 160)%N || (c =? 5760)%N
  || in_range 8192 8202 c || (c =? 8232)%N || (c =? 8233)%N || (c =? 8239)%N
  || (c =? 8287)%N || (c =? 12288)%N.

(** [char::is_control]: the general category Cc. *)
Definition is_control (c : N) : bool := (c <=? 31)%N || in_range 127 159 c.

Definition is_ascii_uppercase (c : N) : bool := in_range 65 90 c.
Definition is_ascii_alphanumeric (c : N) : bool :=
  in_range 48 57 c || in_range 65 90 c || in_range 97 122 c.
Definition is_ascii_hexdigit (c : N) : bool :=
  in_range 48 57 c || in_range 65 70 c || in_range 97 102 c.

Definition char_to_lower (c : N) : N := if is_ascii_uppercase c then (c + 32)%N else c.
Definition to_ascii_lowercase (s : str) : str := char_to_lower <$> s.

(** ** Trimming, prefixes and suffixes *)

Fixpoint trim_start_by (p : N -> bool) (s : str) : str :=
  match s with
  | c :: rest => if p c then trim_start_by p rest else s
  | [] => []
  end.
Definition trim_end_by (p : N -> bool) (s : str) : str := reverse (trim_start_by p (reverse s)).
Definition trim_start (s : str) : str := trim_start_by is_whitespace s.
Definition trim (s : str) : str := trim_end_by is_whitespace (trim_start s).
Definition trim_end_matches (c : N) (s : str) : str := trim_end_by (N.eqb c) s.

Fixpoint strip_prefix (pre s : str) : option str :=
  match pre, s with
  | [], _ => Some s
  | p :: pre', c :: s' => if (p =? c)%N then strip_prefix pre' s' else None
  | _ :: _, [] => None
  end.
Definition starts_with (s pre : str) : bool := bool_decide (is_Some (strip_prefix pre s)).
Definition strip_suffix (suf s : str) : option str :=
  reverse <$> strip_prefix (reverse suf) (reverse s).

(** ** Splitting *)

Fixpoint split_once (c : N) (s : str) : option (str * str) :=
  match s with
  | [] => None
  | x :: rest =>
      if (x =? c)%N then Some ([], rest)
      else match split_once c rest with
           | Some (a, b) => Some (x :: a, b)
           | None => None
           end
  end.

(** [str::split(c)]: always at least one part. *)
Fixpoint split_on (c : N) (s : str) : list str :=
  match s with
  | [] => [[]]
  | x :: rest =>
      if (x =? c)%N then [] :: split_on c rest
      else match split_on c rest with
           | part :: parts => (x :: part) :: parts
           | [] => [[x]]
           end
  end.

(** The prefix before the first character in a class ([&s[..s.find(p)]]). *)
Fixpoint take_until (p : N -> bool) (s : str) : str :=
  match s with
  | [] => []
  | c :: rest => if p c then [] else c :: take_until p rest
  end.

(** ** UTF-8 *)

Definition utf8_char (c : N) : list N :=
  if (c <? 128)%N then [c]
  else if (c <? 2048)%N then [192 + c / 64; 128 + c mod 64]%N
  else if (c <? 65536)%N then [224 + c / 4096; 128 + (c / 64) mod 64; 128 + c mod 64]%N
  else [240 + c / 262144; 128 + (c / 4096) mod 64; 128 + (c / 64) mod 64; 128 + c mod 64]%N.
Definition as_bytes (s : str) : list N := s ≫= utf8_char.
(** [str::len] counts bytes. *)
Definition byte_len (s : str) : nat := length (as_bytes s).

(** ** Lemmas *)

Global Instance lit_inj : Inj (=) (=) lit.
Proof.
  intros a b H. unfold lit in H. apply list_fmap_eq_inj in H.
  - apply (f_equal String.string_of_list_ascii) in H.
    by rewrite !String.string_of_list_ascii_of_string in H.
  - intros x y Hxy. rewrite <- (Ascii.ascii_N_embedding x), <- (Ascii.ascii_N_embedding y).
    by rewrite Hxy.
Qed.

Lemma strip_prefix_Some pre s rest : strip_prefix pre s = Some rest <-> s = pre ++ rest.
Proof.
  revert s. induction pre as [|p pre IH]; intros s; simpl; [naive_solver|].
  destruct s as [|c s]; [naive_solver|].
  destruct (N.eqb_spec p c) as [->|]; [rewrite IH|]; naive_solver.
Qed.

Lemma starts_with_spec s pre : starts_with s pre = true <-> pre `prefix_of` s.
Proof.
  unfold starts_with. rewrite bool_decide_eq_true. unfold is_Some, prefix.
  setoid_rewrite strip_prefix_Some. done.
Qed.

Lemma strip_suffix_Some suf s rest : strip_suffix suf s = Some rest <-> s = rest ++ suf.
Proof.
  unfold strip_suffix. rewrite fmap_Some. setoid_rewrite strip_prefix_Some. split.
  - intros (r & Hr & ->). apply (f_equal reverse) in Hr.
    rewrite reverse_involutive, reverse_app, reverse_involutive in Hr. done.
  - intros ->. exists (reverse rest). rewrite reverse_app, reverse_involutive. done.
Qed.

Lemma trim_start_by_suffix p s : exists pre, s = pre ++ trim_start_by p s /\ Forall (fun c => p c = true) pre.
Proof.
  induction s as [|c s (pre & Hs & Hp)]; simpl; [by exists []|].
  destruct (p c) eqn:E; [|by exists []].
  exists (c :: pre). split; [by rewrite Hs at 1|]. by constructor.
Qed.

Lemma trim_start_by_head p s c rest : trim_start_by p s = c :: rest -> p c = false.
Proof.
  induction s as [|x s IH]; simpl; [done|]. destruct (p x) eqn:E; [done|]. naive_solver.
Qed.

Lemma trim_start_by_id p s : (forall c rest, s = c :: rest -> p c = false) -> trim_start_by p s = s.
Proof. destruct s as [|c s]; simpl; [done|]. intros H. by rewrite (H c s). Qed.

Lemma trim_start_by_idemp p s : trim_start_by p (trim_start_by p s) = trim_start_by p s.
Proof. apply trim_start_by_id. intros c rest. apply trim_start_by_head. Qed.

Lemma trim_end_by_idemp p s : trim_end_by p (trim_end_by p s) = trim_end_by p s.
Proof. unfold trim_end_by. by rewrite reverse_involutive, trim_start_by_idemp. Qed.

Lemma trim_end_by_last p s c : last (trim_end_by p s) = Some c -> p c = false.
Proof.
  unfold trim_end_by. rewrite last_reverse. intros H.
  destruct (trim_start_by p (reverse s)) eqn:E; simplify_eq/=.
  by apply trim_start_by_head in E.
Qed.

Lemma trim_end_by_id p s : (forall c, last s = Some c -> p c = false) -> trim_end_by p s = s.
Proof.
  intros H. unfold trim_end_by. rewrite trim_start_by_id, reverse_involutive; [done|].
  intros c rest Hr. apply H. by rewrite <- head_reverse, Hr.
Qed.

Lemma trim_end_by_prefix p s : trim_end_by p s `prefix_of` s.
Proof.
  unfold trim_end_by. destruct (trim_start_by_suffix p (reverse s)) as (pre & Hs & _).
  exists (reverse pre). apply (f_equal reverse) in Hs.
  by rewrite reverse_involutive, reverse_app in Hs.
Qed.

Lemma trim_idemp s : trim (trim s) = trim s.
Proof.
  unfold trim, trim_start.
  rewrite (trim_start_by_id _ (trim_end_by _ _)); [apply trim_end_by_idemp|].
  intros c rest H. destruct (trim_end_by_prefix is_whitespace (trim_start_by is_whitespace s)) as [k Hk].
  rewrite H in Hk. by apply trim_start_by_head in Hk.
Qed.

Lemma to_ascii_lowercase_idemp s : to_ascii_lowercase (to_ascii_lowercase s) = to_ascii_lowercase s.
Proof.
  unfold to_ascii_lowercase. rewrite <- list_fmap_compose. apply list_fmap_ext.
  intros _ c _. unfold char_to_lower, compose, is_ascii_uppercase, in_range.
  repeat case_match; bool_cases; lia.
Qed.

Lemma take_until_prefix p s : take_until p s `prefix_of` s.
Proof.
  induction s as [|c s IH]; simpl; [done|]. case_match; [apply prefix_nil|by apply prefix_cons].
Qed.

Lemma take_until_none p s c : c ∈ take_until p s -> p c = false.
Proof. induction s as [|x s IH]; simpl; [set_solver|]. destruct (p x) eqn:E; set_solver. Qed.

Lemma take_until_id p s : Forall (fun c => p c = false) s -> take_until p s = s.
Proof. induction 1 as [|c s Hc _ IH]; simpl; [done|]. by rewrite Hc, IH. Qed.

Lemma as_bytes_cons c s : as_bytes (c :: s) = utf8_char c ++ as_bytes s.
Proof. done. Qed.

Lemma as_bytes_app s1 s2 : as_bytes (s1 ++ s2) = as_bytes s1 ++ as_bytes s2.
Proof. unfold as_bytes. apply bind_app. Qed.

Lemma as_bytes_ascii s : Forall (fun c => (c < 128)%N) s -> as_bytes s = s.
Proof.
  induction 1 as [|c s Hc _ IH]; [done|].
  rewrite as_bytes_cons, IH. unfold utf8_char. by rewrite (proj2 (N.ltb_lt c 128)).
Qed.

Lemma trim_start_by_app_all p pre s :
  Forall (fun c => p c = true) pre -> trim_start_by p (pre ++ s) = trim_start_by p s.
Proof. induction 1 as [|c pre Hc _ IH]; simpl; [done|]. by rewrite Hc. Qed.

Lemma trim_end_by_app_all p s suf :
  Forall (fun c => p c = true) suf -> trim_end_by p (s ++ suf) = trim_end_by p s.
Proof.
  intros H. unfold trim_end_by. rewrite reverse_app, trim_start_by_app_all; [done|].
  by apply Forall_reverse.
Qed.

(** Trimming undoes white space put around a text that has none at its ends. *)
Lemma trim_surrounded ws1 s ws2 :
  Forall (fun c => is_whitespace c = true) ws1 -> Forall (fun c => is_whitespace c = true) ws2 ->
  (forall c, head s = Some c -> is_whitespace c = false) ->
  (forall c, last s = Some c -> is_whitespace c = false) ->
  s <> [] -> trim (ws1 ++ s ++ ws2) = s.
Proof.
  intros H1 H2 Hh Hl Hne. unfold trim, trim_start.
  rewrite trim_start_by_app_all, trim_start_by_id by
    (first [done | intros c rest Hc; apply Hh; destruct s; simplify_eq/=; done]).
  by rewrite trim_end_by_app_all, trim_end_by_id.
Qed.

Lemma char_to_lower_whitespace c : is_whitespace (char_to_lower c) = is_whitespace c.
Proof.
  unfold char_to_lower. destruct (is_ascii_uppercase c) eqn:E; [|done].
  unfold is_ascii_uppercase, in_range in E. bool_simpl.
  unfold is_whitespace, in_range.
  repeat (match goal with
          | |- context [(?a <=? ?b)%N] => destruct (N.leb_spec a b); [try (exfalso; lia)|try (exfalso; lia)]
          | |- context [(?a =? ?b)%N] => destruct (N.eqb_spec a b); [exfalso; lia|]
          end; simpl); done.
Qed.

Lemma trim_start_by_fmap p f (s : str) :
  (forall c, p (f c) = p c) -> trim_start_by p (f <$> s) = f <$> trim_start_by p s.
Proof.
  intros H. induction s as [|c s IH]; [done|]. simpl. rewrite H. by case_match.
Qed.

Lemma trim_to_ascii_lowercase s : trim (to_ascii_lowercase s) = to_ascii_lowercase (trim s).
Proof.
  unfold trim, trim_start, trim_end_by, to_ascii_lowercase.
  rewrite trim_start_by_fmap by apply char_to_lower_whitespace.
  rewrite <- fmap_reverse, trim_start_by_fmap by apply char_to_lower_whitespace.
  by rewrite fmap_reverse.
Qed.

Lemma split_once_Some c s a b : split_once c s = Some (a, b) <-> s = a ++ c :: b /\ c ∉ a.
Proof.
  revert a b. induction s as [|x s IH]; intros a b; simpl.
  - split; [done|]. intros [H _]. by destruct a.
  - destruct (N.eqb_spec x c) as [->|Hne].
    + split; [intros [= <- <-]; split; [done|set_solver]|].
      intros [H Hn]. destruct a; simplify_eq/=; [done|set_solver].
    + destruct (split_once c s) as [[a' b']|] eqn:E; split.
      * intros [= <- <-]. destruct (proj1 (IH a' b') eq_refl) as [-> ?]. split; [done|set_solver].
      * intros [H Hn]. destruct a as [|y a]; simplify_eq/=.
        assert (Some (a', b') = Some (a, b)) as [= <- <-]; [|done].
        apply IH. split; [done|set_solver].
      * done.
      * intros [H Hn]. destruct a as [|y a]; simplify_eq/=.
        assert (None = Some (a, b)) as [=]. apply IH. split; [done|set_solver].
Qed.

Lemma strip_prefix_elem p s rest c : strip_prefix p s = Some rest -> c ∈ p -> c ∈ s.
Proof. intros ->%strip_prefix_Some. set_solver. Qed.

Lemma strip_suffix_None suf s : strip_suffix suf s = None <-> ~ suf `suffix_of` s.
Proof.
  rewrite eq_None_not_Some. unfold is_Some, suffix. setoid_rewrite strip_suffix_Some.
  split; intros H ?; apply H; naive_solver.
Qed.
