(* ===== verification/Fsm.v ===== *)
(** * The thread lifecycle

    [crates/maidan-fsm]: the transition function of a thread and the rule that
    holds a child thread behind its parent. *)

From stdpp Require Import strings.
From S2P Require Import Prelude.

(** ** [maidan-fsm/src/lib.rs] and [maidan-types/src/models.rs] *)

Inductive ThreadState := Open | InReview | Closed | Archived.

Global Instance ThreadState_eq_dec : EqDecision ThreadState.
Proof. solve_decision. Defined.

Inductive ThreadAction := StartReview | Close | Archive | RequestChanges.

Global Instance ThreadAction_eq_dec : EqDecision ThreadAction.
Proof. solve_decision. Defined.

(** A state with no further work: done for dependency readiness. *)
Definition is_terminal (s : ThreadState) : bool :=
  match s with Closed | Archived => true | _ => false end.

Definition as_str (a : ThreadAction) : string :=
  match a with
  | StartReview => "start_review"
  | Close => "close"
  | Archive => "archive"
  | RequestChanges => "request_changes"
  end.

(** The actions a caller may name directly on a transition route. *)
Definition parse (s : string) : option ThreadAction :=
  if decide (s = "start_review") then Some StartReview
  else if decide (s = "close") then Some Close
  else if decide (s = "archive") then Some Archive
  else None.

Record InvalidTransition := { it_from : ThreadState; it_action : ThreadAction }.

Definition apply (from : ThreadState) (action : ThreadAction)
  : result InvalidTransition ThreadState :=
  match from, action with
  | Open, StartReview => Ok InReview
  | InReview, Close => Ok Closed
  | Closed, Archive => Ok Archived
  | InReview, RequestChanges => Ok Open
  | from, action => Err {| it_from := from; it_action := action |}
  end.

(** ** [maidan-fsm/src/hsm.rs] *)

Inductive HsmError := ParentArchived | ChildAheadOfParent.

Definition state_rank (s : ThreadState) : N :=
  match s with Open => 0 | InReview => 1 | Closed => 2 | Archived => 3 end.

Definition parent_allows_transition (parent child_to : ThreadState) : result HsmError unit :=
  if decide (parent = Archived) then Err ParentArchived
  else if (state_rank parent <? state_rank child_to)%N then Err ChildAheadOfParent
  else Ok tt.

(** ** Runs of actions *)

(** The state after a sequence of actions, each applied to the result of the
    one before; the first refusal ends the run. *)
Fixpoint run (s : ThreadState) (actions : list ThreadAction)
  : result InvalidTransition ThreadState :=
  match actions with
  | [] => Ok s
  | a :: rest => (let*? s' := apply s a in run s' rest)%res
  end.

(** [n] review rounds that each sent the work back. *)
Fixpoint sent_back (n : nat) : list ThreadAction :=
  match n with O => [] | S n => StartReview :: RequestChanges :: sent_back n end.

(** The action sequences that end in a state, as a language: rounds sent back,
    then as far along the lifecycle as the state is. *)
Definition path_to (s : ThreadState) : list ThreadAction :=
  match s with
  | Open => []
  | InReview => [StartReview]
  | Closed => [StartReview; Close]
  | Archived => [StartReview; Close; Archive]
  end.

Lemma run_app s l1 l2 : run s (l1 ++ l2) = (let*? s' := run s l1 in run s' l2)%res.
Proof.
  revert s. induction l1 as [|a l1 IH]; intros s; simpl; [done|].
  destruct (apply s a); simpl; [apply IH|done].
Qed.

Lemma run_sent_back n : run Open (sent_back n) = Ok Open.
Proof. induction n; simpl; done. Qed.

Lemma run_from_terminal acts s s' :
  is_terminal s = true -> run s acts = Ok s' -> is_terminal s' = true.
Proof.
  revert s. induction acts as [|a acts IH]; intros s Ht H; simplify_eq/=; [done|].
  destruct s, a; simplify_eq/=; by eapply IH; [|eauto].
Qed.

Lemma run_Open_inv acts s :
  run Open acts = Ok s -> exists n, acts = sent_back n ++ path_to s.
Proof.
  remember (length acts) as k eqn:Hk. revert acts s Hk.
  induction (lt_wf k) as [k _ IH]; intros acts s -> H.
  destruct acts as [|[] acts]; simplify_eq/=; [by exists 0| ].
  destruct acts as [|[] acts]; simplify_eq/=; [by exists 0| |].
  - exists 0. destruct acts as [|[] [|[] acts]]; by simplify_eq/=.
  - destruct (IH (length acts) ltac:(lia) acts s eq_refl H) as [n ->].
    by exists (S n).
Qed.

(** The whole lifecycle of a thread. A sequence of actions takes a new
    thread to [s] exactly when it is some number of review rounds that were
    sent back followed by the direct way to [s]; so nothing closes without
    passing review after its last send-back, nothing is archived before it is
    closed, and a thread is never reopened once closed. *)
Theorem lifecycle_language acts s :
  run Open acts = Ok s <-> exists n, acts = sent_back n ++ path_to s.
Proof.
  split; [apply run_Open_inv|]. intros [n ->].
  rewrite run_app, run_sent_back. by destruct s.
Qed.

(** ** Parent and child *)

(** A parent and its child, each moved by the calls that move threads: the
    parent by [apply] alone, the child by [apply] and the parent's consent. *)
Inductive family_step (strict : bool) : ThreadState * ThreadState -> ThreadState * ThreadState -> Prop :=
| parent_moves p c a p' :
    (strict = true -> a <> RequestChanges) ->
    apply p a = Ok p' -> family_step strict (p, c) (p', c)
| child_moves p c a c' :
    apply c a = Ok c' -> parent_allows_transition p c' = Ok tt ->
    family_step strict (p, c) (p, c').

Definition child_behind (f : ThreadState * ThreadState) : Prop :=
  (state_rank f.2 <= state_rank f.1)%N.

Lemma parent_allows_transition_ok p c :
  parent_allows_transition p c = Ok tt <-> p <> Archived /\ (state_rank c <= state_rank p)%N.
Proof. unfold parent_allows_transition. split_matches; split; naive_solver lia. Qed.

Lemma apply_rank s a s' :
  a <> RequestChanges -> apply s a = Ok s' -> state_rank s' = (state_rank s + 1)%N.
Proof. by destruct s, a; intros; simplify_eq/=. Qed.

Lemma family_step_behind f f' : family_step true f f' -> child_behind f -> child_behind f'.
Proof.
  unfold child_behind. destruct 1 as [p c a p' Ha Hp|p c a c' Hc Hallow]; simpl; intros H.
  - rewrite (apply_rank _ _ _ (Ha eq_refl) Hp). lia.
  - by apply parent_allows_transition_ok in Hallow as [_ ?].
Qed.

(** As long as the parent is not sent back from review, a child that starts
    open never gets ahead of its parent, whatever the order in which the two
    are moved. *)
Theorem child_never_ahead p c :
  rtc (family_step true) (Open, Open) (p, c) -> (state_rank c <= state_rank p)%N.
Proof.
  intros H. cut (child_behind (p, c)); [done|].
  remember (Open, Open) as f0. remember (p, c) as f1. clear Heqf1.
  assert (child_behind f0) as H0 by (by subst).
  clear Heqf0. induction H; [done|]. eauto using family_step_behind.
Qed.

Lemma child_never_ahead_witness :
  rtc (family_step true) (Open, Open) (InReview, InReview) /\
  (state_rank InReview <= state_rank InReview)%N.
Proof.
  assert (rtc (family_step true) (Open, Open) (InReview, InReview)) as H.
  { eapply rtc_l; [by eapply (parent_moves true _ _ StartReview)|].
    eapply rtc_l; [by eapply (child_moves true _ _ StartReview)|]. apply rtc_refl. }
  split; [exact H|]. exact (child_never_ahead _ _ H).
Defined.

(** The rule is one of each move, not of the pair. Sending a parent back
    from review leaves a child that had followed it ahead: a reachable family
    has an open parent and a child in review. *)
Theorem child_left_ahead :
  exists p c, rtc (family_step false) (Open, Open) (p, c) /\ (state_rank p < state_rank c)%N.
Proof.
  exists Open, InReview. split; [|done].
  eapply rtc_l; [by eapply (parent_moves false _ _ StartReview)|].
  eapply rtc_l; [by eapply (child_moves false _ _ StartReview)|].
  eapply rtc_l; [by eapply (parent_moves false _ _ RequestChanges)|]. apply rtc_refl.
Qed.
