(* ===== verification/Footprint.v ===== *)
(** * Claim footprints

    [crates/maidan-types/src/footprint.rs]: what part of a repository the work
    on a thread touches. This file has the declared data, its validation and
    the key an item is compared by; which live footprints conflict is decided
    by the claim queue's SQL, modelled in [Claimability]. *)

From stdpp Require Import strings.
From S2P Require Import Prelude Text.

Definition FOOTPRINT_MAX_ITEMS : nat := 200.
Definition VALUE_MAX_CHARS : nat := 512.
Definition REPO_MAX_CHARS : nat := 200.

Inductive FootprintMode := Exclusive | Shared.
Inductive FootprintKind := Path | Glob | Crate | Lane | Branch | Slot.

Global Instance FootprintMode_eq_dec : EqDecision FootprintMode.
Proof. solve_decision. Defined.
Global Instance FootprintKind_eq_dec : EqDecision FootprintKind.
Proof. solve_decision. Defined.

Definition mode_as_str (m : FootprintMode) : string :=
  match m with Exclusive => "exclusive" | Shared => "shared" end.
Definition mode_parse (s : string) : option FootprintMode :=
  if decide (s = "exclusive") then Some Exclusive
  else if decide (s = "shared") then Some Shared
  else None.

Definition kind_as_str (k : FootprintKind) : string :=
  match k with
  | Path => "path" | Glob => "glob" | Crate => "crate"
  | Lane => "lane" | Branch => "branch" | Slot => "slot"
  end.
Definition kind_parse (s : string) : option FootprintKind :=
  if decide (s = "path") then Some Path
  else if decide (s = "glob") then Some Glob
  else if decide (s = "crate") then Some Crate
  else if decide (s = "lane") then Some Lane
  else if decide (s = "branch") then Some Branch
  else if decide (s = "slot") then Some Slot
  else None.
(** Paths and globs are compared in one namespace. *)
Definition namespace (k : FootprintKind) : string :=
  match k with Path | Glob => "path" | other => kind_as_str other end.

Record FootprintItem := { kind : FootprintKind; value : str }.

Global Instance FootprintItem_eq_dec : EqDecision FootprintItem.
Proof. solve_decision. Defined.

Definition SLASH : N := 47.
Definition DOT : N := 46.

(** Leading [./] and [/], however many. *)
Fixpoint strip_root (value : str) : str :=
  match value with
  | [] => []
  | c :: rest =>
      if (c =? SLASH)%N then strip_root rest
      else if (c =? DOT)%N then
        match rest with
        | d :: rest' => if (d =? SLASH)%N then strip_root rest' else value
        | [] => value
        end
      else value
  end.

(** [*], [?], [[] and [{]. *)
Definition is_wildcard (c : N) : bool :=
  (c =? 42)%N || (c =? 63)%N || (c =? 91)%N || (c =? 123)%N.

Definition key (item : FootprintItem) : str :=
  match kind item with
  | Path => strip_root (value item)
  | Glob => take_until is_wildcard (strip_root (value item))
  | _ => value item
  end.

Record Footprint := { repo : str; mode : FootprintMode; items : list FootprintItem }.

Inductive FootprintError :=
| RepoMalformed
| TooManyItems
| ValueTooLong
| ValueControl
| NeedsValue (k : FootprintKind)
| OutsideRepository
| SlotNeedsName
| SlotMalformed.

(** The URL forms a repository may be written in, tried in this order. *)
Definition repo_prefixes : list str :=
  [ lit "https://github.com/"; lit "http://github.com/"; lit "ssh://git@github.com/";
    lit "git@github.com:"; lit "github.com/" ].

Fixpoint strip_first_prefix (prefixes : list str) (s : str) : str :=
  match prefixes with
  | [] => s
  | p :: rest =>
      match strip_prefix p s with
      | Some s' => s'
      | None => strip_first_prefix rest s
      end
  end.

(** [c.is_whitespace() || c.is_control() || matches!(c, '?' | '#' | ':')] *)
Definition repo_bad_char (c : N) : bool :=
  is_whitespace c || is_control c || (c =? 63)%N || (c =? 35)%N || (c =? 58)%N.

Definition repo_valid (repo : str) : bool :=
  negb (bool_decide (repo = []))
  && (length repo <=? REPO_MAX_CHARS)%nat
  && match split_once SLASH repo with
     | Some (owner, name) =>
         negb (bool_decide (owner = [])) && negb (bool_decide (name = []))
         && negb (existsb (N.eqb SLASH) name)
     | None => false
     end
  && negb (existsb repo_bad_char repo).

Definition normalize_repo (raw : str) : result FootprintError str :=
  let repo := strip_first_prefix repo_prefixes (to_ascii_lowercase (trim raw)) in
  let repo := trim_end_matches SLASH repo in
  let repo := default repo (strip_suffix (lit ".git") repo) in
  if repo_valid repo then Ok repo else Err RepoMalformed.

(** One turn of the loop of [Footprint::validated]. *)
Definition validate_item (item : FootprintItem) : result FootprintError FootprintItem :=
  let v := trim (value item) in
  let v := if decide (kind item = Slot) then to_ascii_lowercase v else v in
  let item := {| kind := kind item; value := v |} in
  if (VALUE_MAX_CHARS <? length v)%nat then Err ValueTooLong
  else if existsb is_control v then Err ValueControl
  else if bool_decide (v = [])
          || (negb (bool_decide (kind item = Glob)) && bool_decide (key item = []))
  then Err (NeedsValue (kind item))
  else if (bool_decide (kind item = Path) || bool_decide (kind item = Glob))
          && existsb (fun part => bool_decide (part = lit "..")) (split_on SLASH v)
  then Err OutsideRepository
  else Ok item.

(** [retain(|item| seen.insert(item.clone()))]: the first of each item. *)
Fixpoint retain_first (seen : list FootprintItem) (items : list FootprintItem)
  : list FootprintItem :=
  match items with
  | [] => []
  | i :: rest =>
      if decide (i ∈ seen) then retain_first seen rest
      else i :: retain_first (i :: seen) rest
  end.

Definition validated (fp : Footprint) : result FootprintError Footprint :=
  (let*? r := normalize_repo (repo fp) in
   if (FOOTPRINT_MAX_ITEMS <? length (items fp))%nat then Err TooManyItems
   else let*? checked := rmapM validate_item (items fp) in
        Ok {| repo := r; mode := mode fp; items := retain_first [] checked |})%res.

(** A slot's name as it is stored and compared. *)
Definition normalize_slot (raw : str) : result FootprintError str :=
  let slot := to_ascii_lowercase (trim raw) in
  if decide (slot = []) then Err SlotNeedsName
  else if (VALUE_MAX_CHARS <? length slot)%nat || existsb is_control slot
  then Err SlotMalformed
  else Ok slot.

(** ** Repositories *)

(** [owner/name], short, with none of the characters the check refuses. *)
Definition repo_wf (r : str) : Prop :=
  exists owner name,
    r = owner ++ SLASH :: name /\ owner <> [] /\ name <> [] /\
    (SLASH ∉ owner) /\ (SLASH ∉ name) /\ length r <= REPO_MAX_CHARS /\
    Forall (fun c => repo_bad_char c = false) r.

Lemma repo_valid_spec r : repo_valid r = true <-> repo_wf r.
Proof.
  unfold repo_valid, repo_wf. rewrite !andb_true_iff, !negb_true_iff. split.
  - intros [[[Hne Hlen] Hs] Hbad].
    destruct (split_once SLASH r) as [[owner name]|] eqn:E; [|done]. bool_simpl.
    apply split_once_Some in E as [-> Hslash].
    exists owner, name. repeat split; try done.
    + intros Hin. match goal with H : existsb _ name = false |- _ =>
        rewrite existsb_false in H; specialize (H _ Hin) end.
      by rewrite N.eqb_refl in *.
    + by apply Nat.leb_le in Hlen.
    + rewrite existsb_false in Hbad. by apply Forall_forall.
  - intros (owner & name & -> & Ho & Hn & Hso & Hsn & Hlen & Hbad).
    rewrite (proj2 (split_once_Some SLASH _ owner name)) by done.
    repeat split.
    + apply bool_decide_eq_false. by destruct owner.
    + by apply Nat.leb_le.
    + rewrite !andb_true_iff, !negb_true_iff, !bool_decide_eq_false. repeat split; try done.
      apply existsb_false. intros x Hx. apply N.eqb_neq. set_solver.
    + apply existsb_false. by apply Forall_forall.
Qed.

Lemma normalize_repo_Ok raw r :
  normalize_repo raw = Ok r -> repo_wf r.
Proof.
  unfold normalize_repo. destruct (repo_valid _) eqn:E; [|done].
  intros [= <-]. by apply repo_valid_spec.
Qed.

Definition is_lower (s : str) : Prop := Forall (fun c => is_ascii_uppercase c = false) s.

Lemma is_lower_fixed s : is_lower s <-> to_ascii_lowercase s = s.
Proof.
  unfold is_lower, to_ascii_lowercase. induction s as [|c s IH]; [done|].
  rewrite Forall_cons, fmap_cons, IH.
  assert (char_to_lower c = c <-> is_ascii_uppercase c = false) as Hc.
  { unfold char_to_lower. destruct (is_ascii_uppercase c); split; [lia|done..]. }
  rewrite <- Hc. split; [by intros [-> ->]|]. by intros [= ? ?].
Qed.

Lemma normalize_repo_lower raw r : normalize_repo raw = Ok r -> is_lower r.
Proof.
  assert (forall (s : str) t, is_lower (s ++ t) <-> is_lower s /\ is_lower t) as Happ
    by (intros; apply Forall_app).
  unfold normalize_repo. destruct (repo_valid _) eqn:Hv; [|done].
  intros <-%(inj Ok). clear Hv.
  assert (is_lower (to_ascii_lowercase (trim raw))) as Hl
    by (apply is_lower_fixed, to_ascii_lowercase_idemp).
  assert (forall ps s, is_lower s -> is_lower (strip_first_prefix ps s)) as Hpre.
  { clear. induction ps as [|p ps IH]; intros s Hs; simpl; [done|].
    destruct (strip_prefix p s) eqn:E; [|by apply IH].
    apply strip_prefix_Some in E as ->. by apply Forall_app in Hs as [_ ?]. }
  apply (Hpre repo_prefixes) in Hl. clear Hpre.
  set (s := strip_first_prefix _ _) in *. clearbody s.
  destruct (trim_end_by_prefix (N.eqb SLASH) s) as [k Hk].
  rewrite Hk in Hl. apply Happ in Hl as [Hl _].
  change (trim_end_by (N.eqb SLASH) s) with (trim_end_matches SLASH s) in Hl.
  destruct (strip_suffix _ _) eqn:E; [|exact Hl].
  apply strip_suffix_Some in E. rewrite E in Hl. by apply Happ in Hl as [? _].
Qed.

Lemma strip_first_prefix_none ps s :
  Forall (fun p => strip_prefix p s = None) ps -> strip_first_prefix ps s = s.
Proof. induction 1 as [|p ps Hp _ IH]; simpl; [done|]. by rewrite Hp. Qed.

(** The first slash of a text is where it is. *)
Lemma first_slash_inj a1 b1 a2 b2 :
  SLASH ∉ a1 -> SLASH ∉ a2 -> a1 ++ SLASH :: b1 = a2 ++ SLASH :: b2 -> a1 = a2.
Proof.
  intros H1 H2 H.
  assert (split_once SLASH (a1 ++ SLASH :: b1) = Some (a1, b1)) as E1 by (by apply split_once_Some).
  rewrite H in E1. apply split_once_Some in E1 as [E1 _].
  assert (split_once SLASH (a2 ++ SLASH :: b2) = Some (a2, b2)) as E2 by (by apply split_once_Some).
  rewrite E1 in E2. assert (split_once SLASH (a1 ++ SLASH :: b1) = Some (a1, b1)) as E3
    by (by apply split_once_Some). congruence.
Qed.

Section spellings.
Context (owner name : str).
Let r : str := owner ++ SLASH :: name.
Context (Hwf : repo_wf r) (Hso : SLASH ∉ owner).
Context (Howner : owner <> lit "github.com") (Hgit : ~ lit ".git" `suffix_of` r).

Lemma spelling_body suf k c :
  suf ∈ [[]; lit ".git"] -> c ∈ r ++ suf ++ replicate k SLASH -> repo_bad_char c = false.
Proof.
  destruct Hwf as (? & ? & _ & _ & _ & _ & _ & _ & Hbad). rewrite Forall_forall in Hbad.
  intros Hsuf. rewrite !elem_of_app. intros [?|[Hc|Hc]]; [eauto| |].
  - rewrite !elem_of_cons, elem_of_nil in Hsuf. destruct Hsuf as [->|[->|[]]]; [set_solver|].
    revert c Hc. apply Forall_forall. repeat constructor.
  - apply elem_of_replicate in Hc as [-> _]. done.
Qed.

Lemma spelling_prefix_free suf k p :
  suf ∈ [[]; lit ".git"] -> p ∈ repo_prefixes ->
  strip_prefix p (r ++ suf ++ replicate k SLASH) = None.
Proof.
  intros Hsuf Hp. destruct (strip_prefix p _) as [rest|] eqn:E; [exfalso|done].
  assert (58%N ∈ p -> False) as Hcolon.
  { intros H. eapply strip_prefix_elem in E; [|exact H].
    by apply (spelling_body _ _ _ Hsuf) in E. }
  unfold repo_prefixes in Hp. rewrite !elem_of_cons, elem_of_nil in Hp.
  destruct Hp as [->|[->|[->|[->|[->|[]]]]]];
    [apply Hcolon, (bool_decide_unpack _); exact I..|].
  apply strip_prefix_Some in E. apply Howner.
  apply (first_slash_inj owner (name ++ suf ++ replicate k SLASH) _ rest); [done| |].
  - apply (bool_decide_unpack _). exact I.
  - unfold r in E. rewrite <- app_assoc in E. exact E.
Qed.

Lemma spelling_strip pre suf k :
  pre ∈ [] :: repo_prefixes -> suf ∈ [[]; lit ".git"] ->
  strip_first_prefix repo_prefixes (pre ++ r ++ suf ++ replicate k SLASH)
  = r ++ suf ++ replicate k SLASH.
Proof.
  intros Hpre Hsuf. apply elem_of_cons in Hpre as [->|Hpre].
  - apply strip_first_prefix_none, Forall_forall. intros p Hp.
    by apply spelling_prefix_free.
  - generalize (r ++ suf ++ replicate k SLASH). intros body.
    unfold repo_prefixes in Hpre. rewrite !elem_of_cons, elem_of_nil in Hpre.
    destruct Hpre as [->|[->|[->|[->|[->|[]]]]]]; reflexivity.
Qed.

Lemma spelling_last_r c : last r = Some c -> repo_bad_char c = false /\ c <> SLASH.
Proof.
  destruct Hwf as (o & n & Heq & _ & Hn & _ & Hsn & _ & Hbad). intros Hl.
  rewrite Forall_forall in Hbad. split.
  - apply Hbad, list_elem_of_lookup. rewrite last_lookup in Hl. eauto.
  - intros ->. apply Hsn. rewrite Heq, last_app in Hl. simpl in Hl.
    destruct n as [|x n]; [done|]. rewrite last_cons in Hl.
    destruct (last (x :: n)) eqn:E; [|by apply last_None in E].
    simplify_eq. rewrite last_lookup in E. apply list_elem_of_lookup. eauto.
Qed.

Lemma last_Forall {A} (P : A -> Prop) (l : list A) x : Forall P l -> last l = Some x -> P x.
Proof.
  intros H. rewrite last_lookup. intros Hx. rewrite Forall_lookup in H. eauto.
Qed.

Lemma spelling_last suf k c :
  suf ∈ [[]; lit ".git"] -> last (r ++ suf ++ replicate k SLASH) = Some c ->
  repo_bad_char c = false.
Proof.
  intros Hsuf Hl. apply (last_Forall _ _ _ (proj2 (Forall_forall _ _) (fun c => spelling_body suf k c Hsuf)) Hl).
Qed.

Lemma spelling_trim_slashes suf k :
  suf ∈ [[]; lit ".git"] ->
  trim_end_matches SLASH (r ++ suf ++ replicate k SLASH) = r ++ suf.
Proof.
  intros Hsuf. unfold trim_end_matches. rewrite app_assoc, trim_end_by_app_all.
  - apply trim_end_by_id. intros c Hc. apply N.eqb_neq. intros <-.
    rewrite !elem_of_cons, elem_of_nil in Hsuf. destruct Hsuf as [->|[->|[]]].
    + rewrite app_nil_r in Hc. by apply spelling_last_r in Hc as [_ ?].
    + by rewrite last_app in Hc.
  - apply Forall_forall. intros c [-> _]%elem_of_replicate. done.
Qed.

Lemma spelling_head pre suf k c :
  pre ∈ [] :: repo_prefixes -> suf ∈ [[]; lit ".git"] ->
  head (pre ++ r ++ suf ++ replicate k SLASH) = Some c -> is_whitespace c = false.
Proof.
  intros Hpre Hsuf Hh.
  assert (c ∈ r ++ suf ++ replicate k SLASH \/ (exists p, p ∈ repo_prefixes /\ head p = Some c)) as [Hc|Hc].
  { apply elem_of_cons in Hpre as [->|Hpre]; [left|right].
    - rewrite head_lookup in Hh. apply list_elem_of_lookup. eauto.
    - exists pre. split; [done|]. revert Hh. clear - Hpre.
      unfold repo_prefixes in Hpre. rewrite !elem_of_cons, elem_of_nil in Hpre.
      destruct Hpre as [->|[->|[->|[->|[->|[]]]]]]; done. }
  - apply (spelling_body _ _ _ Hsuf) in Hc. unfold repo_bad_char in Hc. by bool_simpl.
  - destruct Hc as (p & Hp & Hpc). clear - Hp Hpc.
    unfold repo_prefixes in Hp. rewrite !elem_of_cons, elem_of_nil in Hp.
    destruct Hp as [->|[->|[->|[->|[->|[]]]]]]; by simplify_eq/=.
Qed.

Lemma spelling_normalizes raw ws1 pre suf k ws2 :
  Forall (fun c => is_whitespace c = true) ws1 -> Forall (fun c => is_whitespace c = true) ws2 ->
  pre ∈ [] :: repo_prefixes -> suf ∈ [[]; lit ".git"] ->
  to_ascii_lowercase raw = ws1 ++ (pre ++ r ++ suf ++ replicate k SLASH) ++ ws2 ->
  normalize_repo raw = Ok r.
Proof.
  intros H1 H2 Hpre Hsuf Hraw. unfold normalize_repo.
  rewrite <- trim_to_ascii_lowercase, Hraw, trim_surrounded; [|done..| | |].
  - rewrite spelling_strip, spelling_trim_slashes by done.
    assert (default (r ++ suf) (strip_suffix (lit ".git") (r ++ suf)) = r) as ->.
    { rewrite !elem_of_cons, elem_of_nil in Hsuf. destruct Hsuf as [->|[->|[]]].
      - rewrite app_nil_r, (proj2 (strip_suffix_None _ _) Hgit). done.
      - rewrite (proj2 (strip_suffix_Some _ _ r) eq_refl). done. }
    by rewrite (proj2 (repo_valid_spec r) Hwf).
  - intros c. by apply spelling_head.
  - intros c. rewrite last_app. destruct (last (r ++ suf ++ replicate k SLASH)) eqn:E.
    + intros [= <-]. apply spelling_last in E; [|done]. unfold repo_bad_char in E. by bool_simpl.
    + apply last_None in E. unfold r in E. by destruct owner.
  - intros E. apply app_eq_nil in E as [_ E]. unfold r in E. by destruct owner.
Qed.
End spellings.

(** Producers that write a repository differently still compare equal. A
    text that lower-cases to [owner/name], with or without one of the clone
    URL prefixes, a [.git] suffix, trailing slashes and surrounding white
    space, is reduced to [owner/name]. *)
Theorem normalize_repo_spellings raw ws1 pre owner name suf k ws2 :
  repo_wf (owner ++ SLASH :: name) -> SLASH ∉ owner ->
  owner <> lit "github.com" -> ~ lit ".git" `suffix_of` (owner ++ SLASH :: name) ->
  Forall (fun c => is_whitespace c = true) ws1 -> Forall (fun c => is_whitespace c = true) ws2 ->
  pre ∈ [] :: repo_prefixes -> suf ∈ [[]; lit ".git"] ->
  to_ascii_lowercase raw
  = ws1 ++ (pre ++ (owner ++ SLASH :: name) ++ suf ++ replicate k SLASH) ++ ws2 ->
  normalize_repo raw = Ok (owner ++ SLASH :: name).
Proof. intros. by apply (spelling_normalizes owner name) with ws1 pre suf k ws2. Qed.

Lemma normalize_repo_spellings_witness :
  normalize_repo (lit " HTTPS://GitHub.com/Acme/Widget.git/ ") = Ok (lit "acme/widget").
Proof.
  apply (normalize_repo_spellings _ (lit " ") (lit "https://github.com/") (lit "acme")
           (lit "widget") (lit ".git") 1 (lit " ")).
  - apply repo_valid_spec. reflexivity.
  - apply (bool_decide_unpack _). exact I.
  - done.
  - apply strip_suffix_None. reflexivity.
  - repeat constructor.
  - repeat constructor.
  - apply (bool_decide_unpack _). vm_compute. exact I.
  - apply (bool_decide_unpack _). vm_compute. exact I.
  - reflexivity.
Defined.

(** ** Items *)

(** An item as a stored footprint holds it. *)
Record item_wf (i : FootprintItem) : Prop := {
  item_trimmed : trim (value i) = value i;
  item_nonempty : value i <> [];
  item_short : length (value i) <= VALUE_MAX_CHARS;
  item_printable : Forall (fun c => is_control c = false) (value i);
  item_keyed : kind i <> Glob -> key i <> [];
  item_inside : kind i = Path \/ kind i = Glob -> lit ".." ∉ split_on SLASH (value i);
  item_slot_lower : kind i = Slot -> to_ascii_lowercase (value i) = value i
}.

Lemma validate_item_wf i i' : validate_item i = Ok i' -> item_wf i' /\ kind i' = kind i.
Proof.
  unfold validate_item. set (v := if decide _ then _ else _).
  assert (trim v = v) as Htrim.
  { unfold v. case_decide; [by rewrite trim_to_ascii_lowercase, trim_idemp|apply trim_idemp]. }
  assert (kind i = Slot -> to_ascii_lowercase v = v) as Hslot.
  { unfold v. intros ->. rewrite decide_True by done. apply to_ascii_lowercase_idemp. }
  clearbody v. intros H. repeat case_match; try done. apply (inj Ok) in H as <-. bool_simpl.
  split; [|done]. constructor; simpl; try done.
  - by match goal with H : (_ <? _)%nat = false |- _ => apply Nat.ltb_ge in H end.
  - match goal with H : existsb is_control v = false |- _ => rewrite existsb_false in H end.
    by apply Forall_forall.
  - intros Hk Hkey. bool_cases; simplify_eq/=; done.
  - intros Hk Hin. bool_cases; try naive_solver;
    match goal with H : existsb _ _ = false |- _ => rewrite existsb_false in H; specialize (H _ Hin) end;
    by bool_simpl.
Qed.

Lemma validate_item_fixed i : item_wf i -> validate_item i = Ok i.
Proof.
  intros [Htrim Hne Hlen Hctl Hkey Hin Hslot]. unfold validate_item. rewrite Htrim.
  assert ((if decide (kind i = Slot) then to_ascii_lowercase (value i) else value i) = value i) as ->
    by (case_decide; auto).
  assert ({| kind := kind i; value := value i |} = i) as -> by (by destruct i).
  rewrite (proj2 (Nat.ltb_ge _ _) Hlen).
  assert (existsb is_control (value i) = false) as ->
    by (apply existsb_false; by apply Forall_forall).
  rewrite (bool_decide_eq_false_2 _ Hne). simpl.
  assert (negb (bool_decide (kind i = Glob)) && bool_decide (key i = []) = false) as ->.
  { case_bool_decide; [done|]. simpl. apply bool_decide_eq_false. auto. }
  destruct (existsb _ (split_on SLASH (value i))) eqn:E; [|by rewrite andb_false_r].
  apply existsb_true in E as (part & Hpart & ->%bool_decide_eq_true).
  rewrite !bool_decide_eq_false_2; [done|intros Hk; apply Hin; [|exact Hpart]; auto..].
Qed.

(** ** Footprints *)

Lemma retain_first_spec seen l i :
  i ∈ retain_first seen l <-> i ∈ l /\ i ∉ seen.
Proof.
  revert seen. induction l as [|x l IH]; intros seen; simpl; [set_solver|].
  case_decide; [rewrite IH; set_solver|].
  rewrite !elem_of_cons, IH. destruct (decide (i = x)); set_solver.
Qed.

Lemma retain_first_NoDup seen l : NoDup (retain_first seen l).
Proof.
  revert seen. induction l as [|x l IH]; intros seen; simpl; [constructor|].
  case_decide; [done|]. constructor; [|done]. rewrite retain_first_spec. set_solver.
Qed.

Lemma retain_first_length seen l : length (retain_first seen l) <= length l.
Proof.
  revert seen. induction l as [|x l IH]; intros seen; simpl; [lia|].
  pose proof (IH seen). pose proof (IH (x :: seen)). case_decide; simpl; lia.
Qed.

Lemma retain_first_id seen l :
  NoDup l -> (forall i, i ∈ l -> i ∉ seen) -> retain_first seen l = l.
Proof.
  revert seen. induction l as [|x l IH]; intros seen; simpl; [done|].
  intros [Hx Hnd]%NoDup_cons Hs. rewrite decide_False by (apply Hs; left).
  f_equal. apply IH; [done|]. intros i Hi. rewrite elem_of_cons.
  intros [->|?]; [done|]. apply (Hs i); [by right|done].
Qed.

(** What the store relies on: the repository, the bound on the items, no item
    twice (the stored key), and each item in its normal form. *)
Record footprint_wf (fp : Footprint) : Prop := {
  fp_repo : repo_wf (repo fp) /\ is_lower (repo fp);
  fp_bounded : length (items fp) <= FOOTPRINT_MAX_ITEMS;
  fp_nodup : NoDup (items fp);
  fp_items : Forall item_wf (items fp)
}.

(** C40: a footprint that passes validation is well formed: a lowercase
    [owner/name], at most the bound of items, none twice, and every item
    trimmed, printable, keyed and inside the repository. *)
Theorem validated_wf fp fp' : validated fp = Ok fp' -> footprint_wf fp'.
Proof.
  unfold validated. intros (r & Hr & H)%rbind_ok. case_match eqn:Hlen; [done|].
  apply rbind_ok in H as (checked & Hc & <-%(inj Ok)).
  apply rmapM_ok in Hc. apply Nat.ltb_ge in Hlen. constructor; simpl.
  - eauto using normalize_repo_Ok, normalize_repo_lower.
  - etrans; [apply retain_first_length|]. by rewrite <- (Forall2_length _ _ _ Hc).
  - apply retain_first_NoDup.
  - apply Forall_forall. intros i [Hi _]%retain_first_spec.
    apply list_elem_of_lookup in Hi as [k Hk].
    destruct (Forall2_lookup_r _ _ _ _ _ Hc Hk) as (i0 & _ & H).
    by apply validate_item_wf in H as [? _].
Qed.

Lemma validated_wf_witness :
  footprint_wf {| repo := lit "acme/widget"; mode := Exclusive;
                  items := [{| kind := Path; value := lit "src/a.rs" |};
                            {| kind := Slot; value := lit "rust-build" |}] |}.
Proof.
  apply (validated_wf {| repo := lit "git@github.com:Acme/Widget.git"; mode := Exclusive;
    items := [{| kind := Path; value := lit " src/a.rs" |};
              {| kind := Slot; value := lit "Rust-Build" |};
              {| kind := Path; value := lit "src/a.rs" |}] |}).
  vm_compute. reflexivity.
Defined.

(** Validation is stable. A well-formed footprint whose repository is
    already in its normal form comes back as it is, so a stored footprint that
    is read, sent back and validated again is the same footprint. *)
Theorem validated_stable fp :
  footprint_wf fp -> normalize_repo (repo fp) = Ok (repo fp) -> validated fp = Ok fp.
Proof.
  intros [_ Hlen Hnd Hi] Hr. unfold validated. rewrite Hr. simpl.
  rewrite (proj2 (Nat.ltb_ge _ _) Hlen).
  assert (rmapM validate_item (items fp) = Ok (items fp)) as ->.
  { apply rmapM_ok, Forall_Forall2_diag. eapply Forall_impl; [exact Hi|].
    apply validate_item_fixed. }
  simpl. rewrite retain_first_id; [by destruct fp|done|set_solver].
Qed.

Lemma validated_stable_witness :
  validated {| repo := lit "acme/widget"; mode := Shared;
               items := [{| kind := Glob; value := lit "**" |}] |}
  = Ok {| repo := lit "acme/widget"; mode := Shared;
          items := [{| kind := Glob; value := lit "**" |}] |}.
Proof.
  apply validated_stable; [|vm_compute; reflexivity].
  constructor; simpl.
  - split; [by apply repo_valid_spec|by apply is_lower_fixed].
  - unfold FOOTPRINT_MAX_ITEMS; lia.
  - apply (bool_decide_unpack _). exact I.
  - constructor; [|constructor].
    apply (validate_item_wf {| kind := Glob; value := lit "**" |}). reflexivity.
Defined.

(** A footprint item names a slot exactly as the operator's capacity
    setting does: both refuse the same spellings and reduce the others to the
    same name, so a declared slot always meets its capacity. *)
Theorem slot_names_agree raw s :
  validate_item {| kind := Slot; value := raw |} = Ok {| kind := Slot; value := s |}
  <-> normalize_slot raw = Ok s.
Proof.
  unfold validate_item, normalize_slot, key. simpl.
  set (v := to_ascii_lowercase (trim raw)).
  destruct (decide (v = [])) as [->|Hne]; simpl; [done|].
  rewrite (bool_decide_eq_false_2 (v = [])) by done. simpl.
  destruct (VALUE_MAX_CHARS <? length v)%nat; simpl; [done|].
  destruct (existsb is_control v); simpl; [done|]. naive_solver.
Qed.

Lemma strip_root_rootless v c rest :
  strip_root v = c :: rest -> c <> SLASH /\ (c = DOT -> head rest <> Some SLASH).
Proof.
  remember (length v) as n eqn:Hn. revert v Hn c rest.
  induction (lt_wf n) as [n _ IH]. intros [|x v] -> c rest; simpl; [done|].
  destruct (N.eqb_spec x SLASH); [by apply (IH (length v)); [simpl; lia|]|].
  destruct (N.eqb_spec x DOT) as [->|].
  - destruct v as [|d v]; [by intros [= <- <-]|].
    destruct (N.eqb_spec d SLASH); [by apply (IH (length v)); [simpl; lia|]|].
    intros [= <- <-]. split; [done|]. intros _ [= ->]. done.
  - intros [= <- <-]. done.
Qed.
