(* ===== verification/Json.v ===== *)
(** * Canonical JSON and hexadecimal

    [crates/maidan-types/src/signed_export.rs] (the canonical form every hash
    and signature is taken over, the secret scan and the hexadecimal codec) and
    [normalize_payload_numbers] of [crates/maidan-types/src/event_chain.rs].

    How serde_json prints a string and a floating-point number is not code of
    this repository: [JsonText] is what the model takes of it. *)

From stdpp Require Import strings pretty sorting.
From Stdlib Require Import SpecFloat.
From S2P Require Import Prelude Text.

(** ** Values *)

(** [serde_json::Number]: an integer of the [u64] or [i64] range, or an [f64]. *)
Inductive Number :=
| Int (z : Z)
| Float (f : spec_float).

#[warnings="-register-all"]
Inductive Value :=
| Null
| Bool (b : bool)
| Num (n : Number)
| Str (s : str)
| Array (l : list Value)
| Object (m : list (str * Value)).

Section value_ind.
Context (P : Value -> Prop)
  (Hnull : P Null) (Hbool : forall b, P (Bool b)) (Hnum : forall n, P (Num n))
  (Hstr : forall s, P (Str s)) (Harr : forall l, Forall P l -> P (Array l))
  (Hobj : forall m, Forall (fun e => P e.2) m -> P (Object m)).

(** Induction that reaches the elements of arrays and objects. *)
Fixpoint Value_deep_ind (v : Value) : P v :=
  match v with
  | Null => Hnull
  | Bool b => Hbool b
  | Num n => Hnum n
  | Str s => Hstr s
  | Array l =>
      Harr l ((fix go l : Forall P l :=
                 match l with
                 | [] => @List.Forall_nil _ P
                 | v :: l => @List.Forall_cons _ P v l (Value_deep_ind v) (go l)
                 end) l)
  | Object m =>
      Hobj m ((fix go m : Forall (fun e => P e.2) m :=
                 match m with
                 | [] => @List.Forall_nil _ (fun e => P e.2)
                 | e :: m => @List.Forall_cons _ (fun e => P e.2) e m (Value_deep_ind e.2) (go m)
                 end) m)
  end.
End value_ind.

(** ** The order of object keys *)

(** [Ord for str]: Unicode code points by their position in the code charts. *)
Fixpoint str_leb (a b : str) : bool :=
  match a, b with
  | [], _ => true
  | _ :: _, [] => false
  | x :: a', y :: b' => (x <? y)%N || ((x =? y)%N && str_leb a' b')
  end.
Definition str_le (a b : str) : Prop := str_leb a b = true.

Global Instance str_le_dec a b : Decision (str_le a b).
Proof. unfold str_le. apply _. Defined.
Global Instance str_le_total : Total str_le.
Proof.
  intros a. induction a as [|x a IH]; intros [|y b]; unfold str_le in *; simpl; [by left..|by right|].
  destruct (N.lt_trichotomy x y) as [H|[->|H]].
  - left. by rewrite (proj2 (N.ltb_lt _ _) H).
  - rewrite N.eqb_refl, N.ltb_irrefl. simpl. apply IH.
  - right. by rewrite (proj2 (N.ltb_lt _ _) H).
Qed.
Global Instance str_le_trans : Transitive str_le.
Proof.
  intros a. induction a as [|x a IH]; intros [|y b] [|z c]; unfold str_le in *; simpl; try done.
  intros H1 H2. apply orb_true_iff in H1 as [H1|H1], H2 as [H2|H2]; bool_simpl; subst;
    apply orb_true_iff.
  - left. apply N.ltb_lt. lia.
  - left. by apply N.ltb_lt.
  - left. by apply N.ltb_lt.
  - right. rewrite N.eqb_refl. simpl. eauto.
Qed.
Global Instance str_le_antisymm : AntiSymm (=) str_le.
Proof.
  intros a. induction a as [|x a IH]; intros [|y b]; unfold str_le in *; simpl; try done.
  intros H1 H2. apply orb_true_iff in H1 as [H1|H1], H2 as [H2|H2]; bool_simpl; subst; try lia.
  f_equal. by apply IH.
Qed.

Definition sort_strs (l : list str) : list str := merge_sort str_le l.

Lemma sort_strs_perm l l' : l ≡ₚ l' -> sort_strs l = sort_strs l'.
Proof.
  intros H. unfold sort_strs. apply (Sorted_unique str_le); try apply Sorted_merge_sort, _.
  by rewrite !merge_sort_Permutation.
Qed.

(** [map[key]]: the value of a key that is present. *)
Fixpoint assoc {A} (d : A) (k : str) (m : list (str * A)) : A :=
  match m with
  | [] => d
  | (k', v) :: m => if decide (k = k') then v else assoc d k m
  end.

Lemma assoc_fmap {A B} (f : A -> B) d k (m : list (str * A)) :
  assoc (f d) k (prod_map id f <$> m) = f (assoc d k m).
Proof. induction m as [|[k' v] m IH]; simpl; [done|]. by case_decide. Qed.

Lemma assoc_perm {A} (d : A) k m m' :
  NoDup m.*1 -> m ≡ₚ m' -> assoc d k m = assoc d k m'.
Proof.
  intros Hnd Hp. revert Hnd. induction Hp as [|[k1 v1] m m' Hp IH|[k1 v1] [k2 v2] m|m1 m2 m3 H1 IH1 H2 IH2];
    simpl; intros Hnd; [done| | |].
  - apply NoDup_cons in Hnd as [_ Hnd]. by rewrite IH.
  - repeat case_decide; subst; try done.
    apply NoDup_cons in Hnd as [Hnd _]. set_solver.
  - rewrite IH1, IH2; [done| |done]. by rewrite <- H1.
Qed.

(** ** Printing *)

(** What the model takes of serde_json and the standard library's printing of
    an [f64]: bytes. *)
Class JsonText := {
  json_string : str -> list N;
  print_f64 : spec_float -> list N
}.

(** [i64::to_string] and [u64::to_string]. *)
Definition print_int (z : Z) : list N := lit (pretty z).

Fixpoint join (sep : list N) (l : list (list N)) : list N :=
  match l with
  | [] => []
  | [x] => x
  | x :: l => x ++ sep ++ join sep l
  end.

Inductive SignedExportError := ForbiddenField (k : str) | InvalidHex.

Global Instance SignedExportError_eq_dec : EqDecision SignedExportError.
Proof. solve_decision. Defined.

Section canonical.
Context `{JsonText}.

Definition number_to_string (n : Number) : list N :=
  match n with Int z => print_int z | Float f => print_f64 f end.

Fixpoint write_canonical (value : Value) : list N :=
  match value with
  | Null => lit "null"
  | Bool true => lit "true"
  | Bool false => lit "false"
  | Num n => number_to_string n
  | Str s => json_string s
  | Array items =>
      lit "[" ++ join (lit ",") (write_canonical <$> items) ++ lit "]"
  | Object map =>
      let written := (fun e : str * Value => (e.1, write_canonical e.2)) <$> map in
      let keys := sort_strs written.*1 in
      lit "{"
      ++ join (lit ",") ((fun k => json_string k ++ lit ":" ++ assoc [] k written) <$> keys)
      ++ lit "}"
  end.

Definition canonical_json (value : Value) : result SignedExportError (list N) :=
  Ok (write_canonical value).
End canonical.

(** ** Secrets *)

Definition FORBIDDEN_PAYLOAD_KEYS : list str :=
  lit <$> ["api_token"; "api_tokens"; "client_secret"; "encryption_key"; "fsm_hook_secret";
           "oidc_client_secret"; "password"; "peer_secret"; "private_key"; "secret";
           "session_secret"; "slash_secret"; "token_hash"; "token_secret"; "tokens";
           "vapid_private_key"; "webhook_secret"]%string.

Fixpoint walk_reject (value : Value) : result SignedExportError unit :=
  match value with
  | Object map =>
      (fix go (map : list (str * Value)) : result SignedExportError unit :=
         match map with
         | [] => Ok tt
         | (key, child) :: rest =>
             if decide (key ∈ FORBIDDEN_PAYLOAD_KEYS) then Err (ForbiddenField key)
             else rbind (walk_reject child) (fun _ => go rest)
         end) map
  | Array items =>
      (fix go (items : list Value) : result SignedExportError unit :=
         match items with
         | [] => Ok tt
         | item :: rest => rbind (walk_reject item) (fun _ => go rest)
         end) items
  | _ => Ok tt
  end.
Definition reject_export_secrets (payload : Value) := walk_reject payload.

(** ** Hexadecimal *)

Definition HEX : list N := lit "0123456789abcdef".
Definition hex_digit (n : N) : N := nth (N.to_nat n) HEX 0%N.

Definition hex_encode (bytes : list N) : str :=
  bytes ≫= fun b => [hex_digit (N.shiftr b 4); hex_digit (N.land b 15)].

Definition hex_nibble (b : N) : result SignedExportError N :=
  if in_range 48 57 b then Ok (b - 48)%N
  else if in_range 97 102 b then Ok (b - 97 + 10)%N
  else if in_range 65 70 b then Ok (b - 65 + 10)%N
  else Err InvalidHex.

(** [for chunk in bytes.chunks(2)]; the caller has checked the length is even. *)
Fixpoint decode_chunks (bytes : list N) : result SignedExportError (list N) :=
  match bytes with
  | hi :: lo :: rest =>
      (let*? hi := hex_nibble hi in
       let*? lo := hex_nibble lo in
       let*? out := decode_chunks rest in
       Ok (N.lor (N.shiftl hi 4) lo :: out))%res
  | _ => Ok []
  end.

Definition hex_decode (s : str) : result SignedExportError (list N) :=
  let trimmed := trim s in
  if negb (Nat.even (byte_len trimmed)) || bool_decide (trimmed = []) then Err InvalidHex
  else if negb (forallb is_ascii_hexdigit trimmed) then Err InvalidHex
  else decode_chunks (as_bytes trimmed).

(** ** Integral floating-point numbers *)

(** [f64::is_finite]. *)
Definition is_finite (f : spec_float) : bool :=
  match f with S754_zero _ | S754_finite _ _ _ => true | _ => false end.

(** The integer part of a finite [f64] ([f64::trunc]). *)
Definition f64_trunc (f : spec_float) : Z :=
  match f with
  | S754_finite s m e =>
      let magnitude := if (0 <=? e)%Z then (Z.pos m * 2 ^ e)%Z else (Z.pos m / 2 ^ (- e))%Z in
      if s then (- magnitude)%Z else magnitude
  | _ => 0%Z
  end.

(** [f.fract() == 0.0] for a finite [f64]. *)
Definition fract_is_zero (f : spec_float) : bool :=
  match f with
  | S754_finite _ m e => (0 <=? e)%Z || (Z.pos m mod 2 ^ (- e) =? 0)%Z
  | _ => true
  end.

Definition clamp (lo hi z : Z) : Z := Z.max lo (Z.min hi z).
Definition U64_MAX : Z := 2 ^ 64 - 1.
Definition I64_MIN : Z := - 2 ^ 63.
Definition I64_MAX : Z := 2 ^ 63 - 1.
(** [f as u64] and [f as i64] saturate. *)
Definition f64_as_u64 (f : spec_float) : Z := clamp 0 U64_MAX (f64_trunc f).
Definition f64_as_i64 (f : spec_float) : Z := clamp I64_MIN I64_MAX (f64_trunc f).

(** The number arm. [u64::MAX as f64] is 2^64, the nearest [f64], so for an
    integral [f] the comparison [f <= u64::MAX as f64] is [f64_trunc f <= 2^64]. *)
Definition normalize_number (n : Number) : Number :=
  match n with
  | Int z => Int z
  | Float f =>
      if negb (is_finite f) || negb (fract_is_zero f) then Float f
      else if (0 <=? f64_trunc f)%Z && (f64_trunc f <=? 2 ^ 64)%Z then Int (f64_as_u64 f)
      else if (I64_MIN <=? f64_trunc f)%Z && (f64_trunc f <? 0)%Z then Int (f64_as_i64 f)
      else Float f
  end.

Fixpoint normalize_payload_numbers (payload : Value) : Value :=
  match payload with
  | Num n => Num (normalize_number n)
  | Array items => Array (normalize_payload_numbers <$> items)
  | Object map =>
      Object ((fun e : str * Value => (e.1, normalize_payload_numbers e.2)) <$> map)
  | other => other
  end.

(** ** Theorems: hexadecimal *)

Lemma hex_digit_nibble n : (n < 16)%N -> hex_nibble (hex_digit n) = Ok n.
Proof.
  intros H. apply (bool_decide_eq_true_1 _). revert n H.
  by apply (N_below (fun n => bool_decide (hex_nibble (hex_digit n) = Ok n)) 16).
Qed.

Lemma hex_digit_class n : (n < 16)%N -> is_ascii_hexdigit (hex_digit n) = true.
Proof.
  revert n. by apply (N_below (fun n => is_ascii_hexdigit (hex_digit n)) 16).
Qed.

Lemma hex_class_ascii c : is_ascii_hexdigit c = true -> (c < 128)%N /\ is_whitespace c = false.
Proof.
  unfold is_ascii_hexdigit, in_range. intros Hc.
  assert ((48 <= c <= 57) \/ (65 <= c <= 70) \/ (97 <= c <= 102))%N as Hr by (bool_cases; lia).
  clear Hc. split; [lia|]. unfold is_whitespace, in_range.
  repeat match goal with
  | |- context [(?a <=? c)%N] => destruct (N.leb_spec a c); simpl; try (exfalso; lia)
  | |- context [(c <=? ?a)%N] => destruct (N.leb_spec c a); simpl; try (exfalso; lia)
  | |- context [(c =? ?a)%N] => destruct (N.eqb_spec c a); simpl; try (exfalso; lia)
  end; done.
Qed.

Lemma byte_nibbles b : (b < 256)%N -> (N.shiftr b 4 < 16)%N /\ (N.land b 15 < 16)%N.
Proof.
  intros H. rewrite N.shiftr_div_pow2. change 15%N with (N.ones 4). rewrite N.land_ones.
  split; [apply N.Div0.div_lt_upper_bound; simpl; lia|by apply N.mod_lt].
Qed.

Lemma hex_encode_class bytes :
  Forall (fun b => (b < 256)%N) bytes -> Forall (fun c => is_ascii_hexdigit c = true) (hex_encode bytes).
Proof.
  unfold hex_encode. intros Hb. apply Forall_bind. eapply Forall_impl; [exact Hb|].
  intros b [??]%byte_nibbles. repeat constructor; by apply hex_digit_class.
Qed.

Lemma hex_encode_length bytes : length (hex_encode bytes) = 2 * length bytes.
Proof.
  unfold hex_encode. induction bytes as [|b bytes IH]; [done|].
  rewrite bind_cons, length_app, IH. simpl. lia.
Qed.

Lemma trim_no_space s : Forall (fun c => is_whitespace c = false) s -> trim s = s.
Proof.
  intros H. unfold trim, trim_start. rewrite trim_start_by_id.
  - apply trim_end_by_id. intros c. rewrite last_lookup. intros Hc.
    by apply (Forall_lookup_1 _ _ _ _ H Hc).
  - intros c rest ->. by inversion H.
Qed.

Lemma decode_chunks_encode bytes :
  Forall (fun b => (b < 256)%N) bytes -> decode_chunks (hex_encode bytes) = Ok bytes.
Proof.
  induction 1 as [|b bytes Hb _ IH]; [done|].
  change (decode_chunks (hex_digit (N.shiftr b 4) :: hex_digit (N.land b 15) :: hex_encode bytes)
          = Ok (b :: bytes)).
  cbn [decode_chunks].
  destruct (byte_nibbles b Hb).
  rewrite !hex_digit_nibble, IH by done. simpl. do 2 f_equal.
  rewrite <- N.ldiff_ones_r. change 15%N with (N.ones 4). apply N.lor_ldiff_and.
Qed.

Lemma decode_hex_encode bytes :
  bytes <> [] -> Forall (fun b => (b < 256)%N) bytes -> hex_decode (hex_encode bytes) = Ok bytes.
Proof.
  intros Hne Hb. pose proof (hex_encode_class _ Hb) as Hc. unfold hex_decode.
  assert (Forall (fun c => (c < 128)%N) (hex_encode bytes)) as Hascii
    by (eapply Forall_impl; [exact Hc|]; intros c ?; by apply hex_class_ascii).
  rewrite trim_no_space by (eapply Forall_impl; [exact Hc|]; intros c ?; by apply hex_class_ascii).
  unfold byte_len. rewrite as_bytes_ascii, hex_encode_length, Nat.even_mul by done. simpl.
  rewrite bool_decide_eq_false_2 by (by destruct bytes).
  rewrite (proj2 (forallb_true _ _)) by (by apply Forall_forall).
  by apply decode_chunks_encode.
Qed.

(** What is encoded decodes to itself: for every non-empty byte string,
    [hex_decode] inverts [hex_encode]. *)
Theorem hex_roundtrip bytes :
  bytes <> [] -> Forall (fun b => (b < 256)%N) bytes -> hex_decode (hex_encode bytes) = Ok bytes.
Proof. apply decode_hex_encode. Qed.

Lemma hex_roundtrip_witness : hex_decode (hex_encode [0; 171; 255]%N) = Ok [0; 171; 255]%N.
Proof. apply hex_roundtrip; [done|]. repeat constructor. Defined.

(** ** Theorems: numbers *)

(** The value of an integral finite [f64]. *)
Definition integral (f : spec_float) : bool := is_finite f && fract_is_zero f.

Lemma normalize_number_idemp n : normalize_number (normalize_number n) = normalize_number n.
Proof.
  destruct n as [z|f]; [done|].
  destruct (normalize_number (Float f)) as [z|g] eqn:E; [done|].
  assert (g = f) as -> by (simpl in E; repeat case_match; congruence). done.
Qed.

Lemma normalize_payload_numbers_idemp v :
  normalize_payload_numbers (normalize_payload_numbers v) = normalize_payload_numbers v.
Proof.
  induction v as [| | | |l IH|m IH] using Value_deep_ind; simpl; try done.
  - by rewrite normalize_number_idemp.
  - f_equal. rewrite <- list_fmap_compose. apply list_fmap_ext. intros i v Hv.
    eapply (Forall_lookup_1 _ _ _ _ IH) in Hv. done.
  - f_equal. rewrite <- list_fmap_compose. apply list_fmap_ext. intros i [k v] Hv.
    eapply (Forall_lookup_1 _ _ _ _ IH) in Hv. simpl in *. by rewrite Hv.
Qed.

(** What a number becomes. An integral float of the [u64] or [i64] range,
    2^64 itself excepted, becomes the integer of the same value; every other
    number is kept as it is. *)
Theorem normalize_number_exact f :
  f64_trunc f <> (2 ^ 64)%Z ->
  normalize_number (Float f)
  = if integral f && (I64_MIN <=? f64_trunc f)%Z && (f64_trunc f <=? U64_MAX)%Z
    then Int (f64_trunc f) else Float f.
Proof.
  intros Hne. unfold normalize_number, integral, f64_as_u64, f64_as_i64, clamp.
  unfold I64_MIN, I64_MAX, U64_MAX in *.
  destruct (is_finite f), (fract_is_zero f); simpl; try done.
  generalize dependent (f64_trunc f). intros z Hne.
  destruct (Z.leb_spec 0 z), (Z.leb_spec z (2 ^ 64)), (Z.leb_spec (- 2 ^ 63) z), (Z.ltb_spec z 0),
    (Z.leb_spec z (2 ^ 64 - 1)); simpl; try done; try (exfalso; lia); f_equal; lia.
Qed.

Lemma normalize_number_exact_witness :
  normalize_number (Float (S754_finite false 25 2)) = Int 100.
Proof. rewrite (normalize_number_exact (S754_finite false 25 2)); [reflexivity|done]. Defined.

(** The exception. The float 2^64 passes the bound [u64::MAX as f64], which
    rounds up to it, and the saturating cast stores 2^64 - 1: the number of the
    event is changed, and it hashes as a different number does. *)
Theorem normalize_number_saturates :
  exists f, f64_trunc f = (2 ^ 64)%Z /\ integral f = true /\
    normalize_number (Float f) = Int U64_MAX /\
    forall J : JsonText, write_canonical (normalize_payload_numbers (Num (Float f)))
                        = write_canonical (normalize_payload_numbers (Num (Int U64_MAX))).
Proof. exists (S754_finite false (2 ^ 52) 12). by repeat split. Qed.

(** ** Theorems: the canonical form *)

(** Decimal digits, signs, the point and the exponent mark. *)
Definition number_char (c : N) : bool :=
  in_range 48 57 c || (c =? 43)%N || (c =? 45)%N || (c =? 46)%N || (c =? 101)%N.

(** A finite [f64] in its one representation. *)
Definition f64_wf (f : spec_float) : bool := is_finite f && valid_binary 53 1024 f.

(** What the canonical form relies on of the printers: a string literal starts
    with its quote and says where it ends; a float prints as a number with a
    point or an exponent, and distinct floats print differently. *)
Class JsonTextLaws `{JsonText} : Prop := {
  json_string_quote s : head (json_string s) = Some 34%N;
  json_string_decodes s1 s2 r1 r2 :
    json_string s1 ++ r1 = json_string s2 ++ r2 -> s1 = s2 /\ r1 = r2;
  print_f64_chars f : f64_wf f = true -> Forall (fun c => number_char c = true) (print_f64 f);
  print_f64_point f : f64_wf f = true -> exists c, c ∈ print_f64 f /\ (c = 46%N \/ c = 101%N);
  print_f64_inj f g : f64_wf f = true -> f64_wf g = true -> print_f64 f = print_f64 g -> f = g
}.

(** The values a parsed or built payload has: no key twice in an object, every
    float finite. *)
#[warnings="-register-all"]
Inductive value_wf : Value -> Prop :=
| wf_null : value_wf Null
| wf_bool b : value_wf (Bool b)
| wf_int z : value_wf (Num (Int z))
| wf_float f : f64_wf f = true -> value_wf (Num (Float f))
| wf_str s : value_wf (Str s)
| wf_array l : Forall value_wf l -> value_wf (Array l)
| wf_object m : NoDup m.*1 -> Forall (fun e => value_wf e.2) m -> value_wf (Object m).

(** The same value with the keys of every object in order. *)
Fixpoint sort_keys (v : Value) : Value :=
  match v with
  | Array l => Array (sort_keys <$> l)
  | Object m =>
      let m' := (fun e : str * Value => (e.1, sort_keys e.2)) <$> m in
      Object ((fun k => (k, assoc Null k m')) <$> sort_strs m'.*1)
  | other => other
  end.

Lemma fmap_fst {A B} (f : A -> B) (m : list (str * A)) :
  ((fun e : str * A => (e.1, f e.2)) <$> m).*1 = m.*1.
Proof. rewrite <- list_fmap_compose. by apply list_fmap_ext. Qed.

Lemma sort_strs_elem k l : k ∈ sort_strs l <-> k ∈ l.
Proof. unfold sort_strs. by rewrite merge_sort_Permutation. Qed.

Lemma assoc_elem {A} (d : A) k m : k ∈ m.*1 -> (k, assoc d k m) ∈ m.
Proof.
  induction m as [|[k' v] m IH]; simpl; [set_solver|]. intros Hk.
  case_decide; subst; [by left|]. right. apply IH. set_solver.
Qed.

(** Objects that list the same entries in another order have one sorted form. *)
Lemma sort_keys_perm m m' : NoDup m.*1 -> m ≡ₚ m' -> sort_keys (Object m) = sort_keys (Object m').
Proof.
  intros Hnd Hp. simpl. f_equal.
  assert (forall (e : list (str * Value)), ((fun e => (e.1, sort_keys e.2)) <$> e).*1 = e.*1) as Hfst
    by (intros; apply fmap_fst).
  rewrite !Hfst, (sort_strs_perm m.*1 m'.*1) by (by rewrite Hp).
  apply list_fmap_ext. intros _ k _. f_equal. apply assoc_perm; [by rewrite Hfst|by rewrite Hp].
Qed.

(** Integers print as an optional sign and digits. *)
Definition int_char (c : N) : bool := in_range 48 57 c || (c =? 45)%N.

Lemma pretty_N_go_digits x s :
  Forall (fun c => int_char c = true) (lit s) -> Forall (fun c => int_char c = true) (lit (pretty_N_go x s)).
Proof.
  revert s. induction (N.lt_wf_0 x) as [x _ IH]. intros s Hs.
  destruct (decide (x = 0)%N) as [->|Hx]; [by rewrite pretty_N_go_0|].
  rewrite pretty_N_go_step by lia. apply IH; [apply N.div_lt; lia|].
  change (lit (String ?a s)) with (Ascii.N_of_ascii a :: lit s). constructor; [|done].
  unfold pretty_N_char. by repeat case_match.
Qed.

Lemma pretty_N_digits (x : N) : Forall (fun c => int_char c = true) (lit (pretty x)).
Proof.
  unfold pretty, pretty_N. case_decide; [by repeat constructor|]. by apply pretty_N_go_digits.
Qed.

Lemma print_int_chars z : Forall (fun c => int_char c = true) (print_int z).
Proof.
  unfold print_int, pretty, pretty_Z. destruct z.
  - by repeat constructor.
  - apply pretty_N_digits.
  - change (Forall (fun c => int_char c = true) (45%N :: lit (pretty (N.pos p)))).
    constructor; [done|apply pretty_N_digits].
Qed.

Global Instance print_int_inj : Inj (=) (=) print_int.
Proof. intros x y H. unfold print_int in H. by apply (inj lit), (inj pretty) in H. Qed.

Lemma print_int_nonempty z : print_int z <> [].
Proof.
  intros H. assert (print_int z = lit "") as H' by done. unfold print_int in H'. apply (inj lit) in H'.
  assert (forall x s, s <> ""%string -> pretty_N_go x s <> ""%string) as Hgo.
  { intros x. induction (N.lt_wf_0 x) as [x _ IH]. intros s Hs.
    destruct (decide (x = 0)%N) as [->|Hx]; [by rewrite pretty_N_go_0|].
    rewrite pretty_N_go_step by lia. apply IH; [apply N.div_lt; lia|done]. }
  assert (forall p, pretty (N.pos p) <> ""%string) as Hp.
  { intros p. unfold pretty, pretty_N. rewrite decide_False by done.
    rewrite pretty_N_go_step by lia. by apply Hgo. }
  destruct z; unfold pretty, pretty_Z in H'; [done|by apply Hp in H'|done].
Qed.

Section canonical_theorems.
Context `{JsonTextLaws}.

(** The bytes of a value whose objects are listed in the order to print. *)
Fixpoint write_plain (v : Value) : list N :=
  match v with
  | Null => lit "null"
  | Bool true => lit "true"
  | Bool false => lit "false"
  | Num n => number_to_string n
  | Str s => json_string s
  | Array l => lit "[" ++ join (lit ",") (write_plain <$> l) ++ lit "]"
  | Object m =>
      lit "{"
      ++ join (lit ",") ((fun e : str * Value => json_string e.1 ++ lit ":" ++ write_plain e.2) <$> m)
      ++ lit "}"
  end.

Lemma assoc_map {A B} (f : A -> B) (dA : A) (dB : B) k (m : list (str * A)) :
  k ∈ m.*1 -> assoc dB k ((fun e => (e.1, f e.2)) <$> m) = f (assoc dA k m).
Proof.
  induction m as [|[k' v] m IH]; simpl; [set_solver|]. intros Hk.
  case_decide; [done|]. apply IH. set_solver.
Qed.

Lemma write_canonical_sorted v : write_canonical v = write_plain (sort_keys v).
Proof.
  induction v as [|[]| | |l IH|m IH] using Value_deep_ind; simpl; try done.
  - do 2 f_equal. f_equal. rewrite <- list_fmap_compose. apply list_fmap_ext.
    intros i v Hv. by apply (Forall_lookup_1 _ _ _ _ IH Hv).
  - do 2 f_equal. f_equal. rewrite !fmap_fst, <- list_fmap_compose. apply list_fmap_ext.
    intros i k Hk. apply list_elem_of_lookup_2, (proj1 (sort_strs_elem _ _)) in Hk.
    simpl. do 2 f_equal. rewrite !(assoc_map _ Null) by done.
    apply (assoc_elem Null) in Hk. rewrite Forall_forall in IH. by apply IH in Hk.
Qed.

(** Which construct a value's first byte says it is. *)
Definition lead (c : N) : nat :=
  if (c =? 110)%N then 0 else if (c =? 116)%N then 1 else if (c =? 102)%N then 2
  else if (c =? 34)%N then 4 else if (c =? 91)%N then 5 else if (c =? 123)%N then 6 else 3.
Definition shape (v : Value) : nat :=
  match v with
  | Null => 0 | Bool true => 1 | Bool false => 2 | Num _ => 3
  | Str _ => 4 | Array _ => 5 | Object _ => 6
  end.

Lemma number_chars n : value_wf (Num n) -> Forall (fun c => number_char c = true) (number_to_string n).
Proof.
  inversion 1; subst; simpl; [|by apply print_f64_chars].
  eapply Forall_impl; [apply print_int_chars|]. unfold int_char, number_char.
  intros c Hc. apply orb_true_iff in Hc as [->| ->]; [done|]. by rewrite !orb_true_r.
Qed.

Lemma number_nonempty n : value_wf (Num n) -> number_to_string n <> [].
Proof.
  inversion 1; subst; simpl; [apply print_int_nonempty|].
  destruct (print_f64_point f) as (c & Hc & _); [done|]. by destruct (print_f64 f); [set_solver|].
Qed.

Lemma number_char_lead c : number_char c = true -> lead c = 3.
Proof.
  unfold number_char, lead, in_range. intros Hc.
  assert (c <> 110 /\ c <> 116 /\ c <> 102 /\ c <> 34 /\ c <> 91 /\ c <> 123)%N as Hne
    by (bool_cases; lia).
  destruct Hne as (?&?&?&?&?&?).
  repeat match goal with |- context [(c =? ?n)%N] => destruct (N.eqb_spec c n); [done|] end. done.
Qed.

Lemma write_plain_lead v r :
  value_wf v -> exists c, head (write_plain v ++ r) = Some c /\ lead c = shape v.
Proof.
  destruct v as [|[]|n|s|l|m]; intros Hwf; try by eexists.
  - simpl. pose proof (number_chars n Hwf) as Hc. pose proof (number_nonempty n Hwf) as Hne.
    destruct (number_to_string n) as [|c t]; [done|]. exists c. split; [done|].
    apply number_char_lead. by inversion Hc.
  - simpl. pose proof (json_string_quote s) as Hq. destruct (json_string s); [done|].
    exists 34%N. by simplify_eq/=.
Qed.

(** What may follow a value: nothing a number could go on with. *)
Definition delimited (r : list N) : Prop := forall c, head r = Some c -> number_char c = false.

Lemma number_split a1 r1 a2 r2 :
  Forall (fun c => number_char c = true) a1 -> Forall (fun c => number_char c = true) a2 ->
  delimited r1 -> delimited r2 -> a1 ++ r1 = a2 ++ r2 -> a1 = a2 /\ r1 = r2.
Proof.
  intros H1. revert a2. induction H1 as [|c a1 Hc _ IH]; intros [|d a2] H2 Hd1 Hd2 Heq; simpl in *.
  - done.
  - inversion H2; subst. specialize (Hd1 d eq_refl). congruence.
  - subst. specialize (Hd2 c eq_refl). congruence.
  - inversion H2; subst. injection Heq as -> Heq.
    destruct (IH a2) as [-> ->]; done.
Qed.

Lemma number_to_string_inj n1 n2 :
  value_wf (Num n1) -> value_wf (Num n2) -> number_to_string n1 = number_to_string n2 -> n1 = n2.
Proof.
  assert (forall z f, f64_wf f = true -> print_int z <> print_f64 f) as Hmix.
  { intros z f Hf Heq. destruct (print_f64_point f Hf) as (c & Hc & Hcc).
    rewrite <- Heq in Hc. pose proof (print_int_chars z) as Hz. rewrite Forall_forall in Hz.
    apply Hz in Hc. by destruct Hcc as [-> | ->]. }
  inversion 1; inversion 1; subst; simpl; intros Heq.
  - by apply (inj print_int) in Heq as ->.
  - by apply Hmix in Heq.
  - by symmetry in Heq; apply Hmix in Heq.
  - f_equal. by apply print_f64_inj.
Qed.

(** Items with their separators, as the loop writes all but the first. *)
Definition rest_items (l : list (list N)) : list N := l ≫= fun x => 44%N :: x.

Lemma join_cons x l : join (lit ",") (x :: l) = x ++ rest_items l.
Proof.
  revert x. induction l as [|y l IH]; intros x; simpl; [by rewrite app_nil_r|].
  f_equal. f_equal. apply IH.
Qed.

Section sequences.
Context {A : Type} (enc : A -> list N) (ok : A -> Prop) (t : N).
Hypothesis (Ht : t <> 44%N) (Hnum : number_char t = false).
Hypothesis (Hhead : forall x r, ok x -> exists c, head (enc x ++ r) = Some c /\ c <> t).

Definition decodes (x : A) : Prop :=
  forall y r1 r2, ok y -> delimited r1 -> delimited r2 ->
    enc x ++ r1 = enc y ++ r2 -> x = y /\ r1 = r2.

Lemma rest_items_delimited l r : delimited (rest_items l ++ t :: r).
Proof. intros c. destruct l; simpl; by intros [= <-]. Qed.

Lemma rest_items_inj l1 l2 r1 r2 :
  Forall decodes l1 -> Forall ok l2 ->
  rest_items (enc <$> l1) ++ t :: r1 = rest_items (enc <$> l2) ++ t :: r2 ->
  l1 = l2 /\ r1 = r2.
Proof.
  intros H1. revert l2. induction H1 as [|x l1 Hx H1 IH]; intros [|y l2] H2 Heq.
  - by injection Heq.
  - injection Heq as Heq _. done.
  - injection Heq as Heq _. done.
  - inversion H2; subst. cbn in Heq. injection Heq as Heq.
    rewrite <- !app_assoc in Heq.
    apply Hx in Heq as [-> Heq]; [|done|apply rest_items_delimited..].
    apply IH in Heq as [-> ->]; done.
Qed.

Lemma join_inj l1 l2 r1 r2 :
  Forall decodes l1 -> Forall ok l1 -> Forall ok l2 ->
  join (lit ",") (enc <$> l1) ++ t :: r1 = join (lit ",") (enc <$> l2) ++ t :: r2 ->
  l1 = l2 /\ r1 = r2.
Proof.
  destruct l1 as [|x l1], l2 as [|y l2]; intros Hd H1 H2 Heq.
  - by injection Heq.
  - rewrite fmap_cons, join_cons, <- app_assoc in Heq. inversion H2; subst.
    destruct (Hhead y (rest_items (enc <$> l2) ++ t :: r2)) as (c & Hc & Hct); [done|].
    rewrite <- Heq in Hc. by injection Hc.
  - rewrite fmap_cons, join_cons, <- app_assoc in Heq. inversion H1; subst.
    destruct (Hhead x (rest_items (enc <$> l1) ++ t :: r1)) as (c & Hc & Hct); [done|].
    rewrite Heq in Hc. by injection Hc.
  - rewrite !fmap_cons, !join_cons, <- !app_assoc in Heq. 
    apply Forall_cons in Hd as [Hx Hd], H2 as [Hy H2].
    apply Hx in Heq as [-> Heq]; [|done|apply rest_items_delimited..].
    apply rest_items_inj in Heq as [-> ->]; done.
Qed.
End sequences.

Lemma write_plain_not (t : N) v r :
  value_wf v -> lead t = 3 -> number_char t = false ->
  exists c, head (write_plain v ++ r) = Some c /\ c <> t.
Proof.
  intros Hwf Hl Hn. destruct (write_plain_lead v r Hwf) as (c & Hc & Hlead).
  exists c. split; [done|]. intros ->. rewrite Hl in Hlead.
  destruct v as [|[]|n| | |]; simplify_eq/=.
  pose proof (number_chars n Hwf) as Hch. pose proof (number_nonempty n Hwf).
  destruct (number_to_string n); [done|]. simplify_eq/=. inversion Hch; congruence.
Qed.

Lemma write_plain_inj v1 : value_wf v1 -> decodes write_plain value_wf v1.
Proof.
  induction v1 as [|b|n|s|l IH|m IH] using Value_deep_ind; intros Hwf v2 r1 r2 Hwf2 Hd1 Hd2 Heq;
    destruct (write_plain_lead _ r1 Hwf) as (c & Hc & Hl1);
    destruct (write_plain_lead _ r2 Hwf2) as (c' & Hc' & Hl2);
    rewrite Heq, Hc' in Hc; simplify_eq; rewrite Hl2 in Hl1; clear Hl2 Hc';
    destruct v2 as [|[]|n2|s2|l2|m2]; try (by destruct b); simplify_eq/=; try done.
  - destruct b; by simplify_eq/=.
  - destruct b; by simplify_eq/=.
  - apply number_split in Heq as [Heq ->]; try done; try by apply number_chars.
    by apply number_to_string_inj in Heq as ->.
  - by apply json_string_decodes in Heq as [-> ->].
  - rewrite <- !app_assoc in Heq. inversion Hwf; inversion Hwf2; subst.
    apply (join_inj _ value_wf) in Heq as [-> ->]; try done.
    + intros x r Hx. by apply write_plain_not.
    + rewrite Forall_forall in *. eauto.
  - rewrite <- !app_assoc in Heq.
    inversion Hwf as [| | | | | |? _ Hvs]; inversion Hwf2 as [| | | | | |? _ Hvs2]; subst.
    apply (join_inj _ (fun e => value_wf e.2)) in Heq as [-> ->]; try done.
    + intros [k v] r Hx. exists 34%N. split; [|done]. simpl. pose proof (json_string_quote k) as Hq.
      destruct (json_string k); by simplify_eq/=.
    + rewrite Forall_forall in *. intros [k v] Hin [k2 v2] s1 s2 Hv Hs1 Hs2 Hkv. simpl in *.
      rewrite <- !app_assoc in Hkv. apply json_string_decodes in Hkv as [-> Hkv].
      injection Hkv as Hkv. apply (IH _ Hin) in Hkv as [? ->]; simpl in *; [by subst|by apply (Hvs _ Hin)|done..].
Qed.

Lemma sort_keys_wf v : value_wf v -> value_wf (sort_keys v).
Proof.
  induction v as [| | | |l IH|m IH] using Value_deep_ind; intros Hwf; simpl; try done.
  - constructor. inversion Hwf; subst. apply Forall_fmap. rewrite Forall_forall in *. simpl. eauto.
  - inversion Hwf as [| | | | | |? Hnd Hvs]; subst. constructor.
    + rewrite <- list_fmap_compose. unfold compose. simpl. rewrite list_fmap_id, fmap_fst.
      unfold sort_strs. by rewrite merge_sort_Permutation.
    + apply Forall_fmap, Forall_forall. intros k Hk.
      apply (proj1 (sort_strs_elem _ _)) in Hk. rewrite fmap_fst in Hk. simpl. rewrite (assoc_map sort_keys Null Null k m) by exact Hk. apply (assoc_elem Null) in Hk.
      rewrite Forall_forall in *. by apply (IH _ Hk), (Hvs _ Hk).
Qed.

Lemma sort_keys_of_canonical v1 v2 :
  value_wf v1 -> value_wf v2 -> write_canonical v1 = write_canonical v2 -> sort_keys v1 = sort_keys v2.
Proof.
  intros H1%sort_keys_wf H2%sort_keys_wf. rewrite !write_canonical_sorted. intros Heq.
  apply (write_plain_inj _ H1 _ [] []); [done|by intros ? [=]..|by rewrite !app_nil_r].
Qed.

(** The canonical form says exactly the value. Two payloads have the same
    canonical bytes, and so the same hash preimage, if and only if they are
    the same value up to the order of the keys in their objects. *)
Theorem canonical_json_exact v1 v2 :
  value_wf v1 -> value_wf v2 ->
  canonical_json v1 = canonical_json v2 <-> sort_keys v1 = sort_keys v2.
Proof.
  intros H1 H2. unfold canonical_json. split.
  - intros Heq%(inj Ok). by apply sort_keys_of_canonical.
  - intros Heq. by rewrite !write_canonical_sorted, Heq.
Qed.
End canonical_theorems.

(** ** An instance

    Printers that satisfy the laws: a quoted string that escapes the quote and
    the backslash, and a float as its sign, mantissa and exponent. *)
Module SampleText.
Definition escape (c : N) : list N :=
  if (c =? 34)%N || (c =? 92)%N then [92%N; c] else [c].
Definition quoted (s : str) : list N := 34%N :: (s ≫= escape) ++ [34%N].
Definition printed (f : spec_float) : list N :=
  match f with
  | S754_finite s m e => (if s then 45 else 43)%N :: print_int (Z.pos m) ++ 46%N :: print_int e
  | S754_zero s => [if s then 45 else 43; 46]%N
  | _ => []
  end.

#[global] Instance text : JsonText := {| json_string := quoted; print_f64 := printed |}.

Lemma escape_inj s1 s2 r1 r2 :
  (s1 ≫= escape) ++ 34%N :: r1 = (s2 ≫= escape) ++ 34%N :: r2 -> s1 = s2 /\ r1 = r2.
Proof.
  revert s2. induction s1 as [|c s1 IH]; intros [|d s2]; simpl; try unfold escape at 1.
  - by intros [= ->].
  - destruct (N.eqb_spec d 34), (N.eqb_spec d 92); simpl; intros; simplify_eq.
  - destruct (N.eqb_spec c 34), (N.eqb_spec c 92); simpl; intros; simplify_eq.
  - unfold escape at 2.
    destruct (N.eqb_spec d 34), (N.eqb_spec d 92), (N.eqb_spec c 34), (N.eqb_spec c 92);
      simpl; intros Heq; simplify_eq;
      match goal with H : _ ++ _ = _ ++ _ |- _ => by apply IH in H as [-> ->] end.
Qed.

Lemma int_char_not_point z : 46%N ∉ print_int z.
Proof. pose proof (print_int_chars z) as Hz. rewrite Forall_forall in Hz. by intros H%Hz. Qed.

#[global] Instance laws : JsonTextLaws.
Proof.
  constructor.
  - done.
  - intros s1 s2 r1 r2 [= Heq]. rewrite <- !app_assoc in Heq. by apply escape_inj.
  - assert (forall z, Forall (fun c => number_char c = true) (print_int z)) as Hz.
    { intros z. eapply Forall_impl; [apply print_int_chars|]. unfold int_char, number_char.
      intros c Hc. apply orb_true_iff in Hc as [->| ->]; [done|]. by rewrite !orb_true_r. }
    intros [[]| | |[] m e] Hf; simpl; try done; repeat constructor.
    all: apply Forall_app; split; [apply Hz|]; constructor; [done|apply Hz].
  - intros [[]| | |[] m e] Hf; simpl; try done; exists 46%N; set_solver.
  - intros [s1| | |s1 m1 e1] [s2| | |s2 m2 e2] Hf Hg; simpl; try done; intros Heq.
    + destruct s1, s2; simplify_eq; done.
    + injection Heq as _ Heq. pose proof (print_int_nonempty (Z.pos m2)) as Hne.
      pose proof (int_char_not_point (Z.pos m2)).
      destruct (print_int (Z.pos m2)); [done|]. injection Heq as <- _. set_solver.
    + injection Heq as _ Heq. pose proof (print_int_nonempty (Z.pos m1)) as Hne.
      pose proof (int_char_not_point (Z.pos m1)).
      destruct (print_int (Z.pos m1)); [done|]. injection Heq as -> _. set_solver.
    + injection Heq as Hs Heq.
      assert (split_once 46 (print_int (Z.pos m1) ++ 46%N :: print_int e1)
              = Some (print_int (Z.pos m1), print_int e1)) as H1
        by (apply split_once_Some; split; [done|apply int_char_not_point]).
      rewrite Heq, (proj2 (split_once_Some 46 _ (print_int (Z.pos m2)) (print_int e2))) in H1
        by (split; [done|apply int_char_not_point]).
      injection H1 as Hm He. apply (inj print_int) in Hm, He. simplify_eq.
      by destruct s1, s2.
Qed.
End SampleText.

Lemma canonical_json_exact_witness :
  canonical_json (H := SampleText.text) (Object [(lit "b", Num (Int 1)); (lit "a", Null)])
  = canonical_json (H := SampleText.text) (Object [(lit "a", Null); (lit "b", Num (Int 1))])
  /\ canonical_json (H := SampleText.text) (Object [(lit "b", Num (Int 1)); (lit "a", Null)])
  <> canonical_json (H := SampleText.text) (Object [(lit "a", Num (Int 1)); (lit "b", Null)]).
Proof.
  assert (forall k1 v1 k2 v2, k1 <> k2 -> value_wf v1 -> value_wf v2 ->
            value_wf (Object [(k1, v1); (k2, v2)])) as Hwf.
  { intros k1 v1 k2 v2 Hne H1 H2. constructor; [|by repeat constructor].
    apply NoDup_cons. split; [set_solver|]. apply NoDup_singleton. }
  split.
  - apply (canonical_json_exact (H := SampleText.text)); [apply Hwf; [done|constructor..]..|].
    reflexivity.
  - intros Heq. apply (canonical_json_exact (H := SampleText.text)) in Heq;
      [|apply Hwf; [done|constructor..]..]. by vm_compute in Heq.
Defined.

(** ** Theorems: secrets *)

(** A key of an object at any depth of the value. *)
Inductive key_in (k : str) : Value -> Prop :=
| key_here m : k ∈ m.*1 -> key_in k (Object m)
| key_below_object m e : e ∈ m -> key_in k e.2 -> key_in k (Object m)
| key_below_array l v : v ∈ l -> key_in k v -> key_in k (Array l).

Lemma walk_reject_object_cons k v m :
  walk_reject (Object ((k, v) :: m)) = Ok tt <->
  (k ∉ FORBIDDEN_PAYLOAD_KEYS) /\ walk_reject v = Ok tt /\ walk_reject (Object m) = Ok tt.
Proof.
  cbn [walk_reject]. case_decide; [naive_solver|]. rewrite rbind_ok. split.
  - intros ([] & ? & ?). done.
  - intros (? & ? & ?). eauto.
Qed.

Lemma walk_reject_array_cons v l :
  walk_reject (Array (v :: l)) = Ok tt <-> walk_reject v = Ok tt /\ walk_reject (Array l) = Ok tt.
Proof.
  cbn [walk_reject]. rewrite rbind_ok. split; [intros ([] & ? & ?); done|intros [? ?]; eauto].
Qed.

(** The secret scan is complete: a payload passes exactly when no object
    at any depth has a credential field. *)
Theorem reject_export_secrets_spec v :
  reject_export_secrets v = Ok tt <-> forall k, k ∈ FORBIDDEN_PAYLOAD_KEYS -> ~ key_in k v.
Proof.
  unfold reject_export_secrets.
  induction v as [| | | |l IH|m IH] using Value_deep_ind; try (split; [by inversion 3|done]).
  - induction IH as [|v l Hv _ IHl]; [split; [inversion 3; set_solver|done]|].
    rewrite walk_reject_array_cons, Hv, IHl. split.
    + intros [H1 H2] k Hk Hin. inversion Hin as [| |? v' Hv' Hkv]; subst.
      apply elem_of_cons in Hv' as [->|Hv']; [by eapply H1|].
      apply (H2 k Hk). by eapply key_below_array.
    + intros H. split; intros k Hk Hin; apply (H k Hk).
      * eapply key_below_array; [by left|done].
      * inversion Hin; subst. eapply key_below_array; [by right|done].
  - induction IH as [|[k0 v] m Hv _ IHm].
    { split; [|done]. intros _ k _ Hin. inversion Hin; set_solver. }
    rewrite walk_reject_object_cons, IHm. simpl in Hv. rewrite Hv. split.
    + intros (H0 & H1 & H2) k Hk Hin. inversion Hin as [? Hk0|? e He Hke|]; subst;
        [|apply elem_of_cons in He as [->|He]].
      * simpl in Hk0. apply elem_of_cons in Hk0 as [->|Hk0]; [done|].
        apply (H2 k Hk). by constructor.
      * by eapply H1.
      * apply (H2 k Hk). by eapply key_below_object.
    + intros H. split; [|split]; [intros Hk|intros k Hk Hin..].
      * apply (H k0 Hk). constructor. by left.
      * apply (H k Hk). eapply key_below_object; [by left|done].
      * apply (H k Hk). inversion Hin; subst; [constructor; by right|].
        eapply key_below_object; [by right|done].
Qed.
