(* ===== verification/EventChain.v ===== *)
(** * The hash chain of the event log

    [crates/maidan-types/src/event_chain.rs]: how an event row is linked to its
    predecessor and how a chain is verified, one row at a time or as a slice.
    SHA-256 is the [sha2] crate: [Sha256] is what the model takes of it. *)

From stdpp Require Import strings pretty.
From S2P Require Import Prelude Text Json.

(** [Sha256::digest] on bytes. *)
Class Sha256 := { digest : list N -> list N }.

Class Sha256Laws `{Sha256} : Prop := {
  digest_length b : length (digest b) = 32;
  digest_bytes b : Forall (fun c => (c < 256)%N) (digest b)
}.

Definition EVENT_CHAIN_ALG : str := lit "sha256".
Definition HASH_PREFIX : str := lit "sha256:".
Definition GENESIS_DOMAIN : list N := lit "maidan.event-log.genesis/1".

Record EventLink := { id : Z; lsn : Z; prev_hash : str; content_hash_ : str }.

Global Instance EventLink_eq_dec : EqDecision EventLink.
Proof. solve_decision. Defined.

Inductive ChainBreakReason := ContentHashMismatch | PrevHashMismatch | MalformedHash | IdNotIncreasing.

Record ChainVerifyReport := {
  ok : bool;
  algorithm : str;
  genesis : str;
  checked : N;
  head : option EventLink;
  from_genesis : bool;
  break_at : option Z;
  reason : option ChainBreakReason
}.

Inductive EventChainError := ChainMalformedHash | ChainJson.

(** The error conversion of [From<SignedExportError>]. *)
Definition from_signed_export (e : SignedExportError) : EventChainError :=
  match e with InvalidHex => ChainMalformedHash | _ => ChainJson end.
Definition map_err {E F A} (f : E -> F) (r : result E A) : result F A :=
  match r with Ok a => Ok a | Err e => Err (f e) end.

(** [u32] addition as the release build has it. *)
Definition u32_succ (n : N) : N := ((n + 1) mod 2 ^ 32)%N.

Section chain.
Context `{JsonText, Sha256}.

Definition encode_digest (d : list N) : str := HASH_PREFIX ++ hex_encode d.
Definition hash_bytes (bytes : list N) : str := encode_digest (digest bytes).

Definition is_well_formed_hash (s : str) : bool :=
  match strip_prefix HASH_PREFIX s with
  | None => false
  | Some hex => (byte_len hex =? 64)%nat && is_ok (hex_decode hex)
  end.

Definition genesis_hash : str := encode_digest (digest GENESIS_DOMAIN).

Definition content_hash (payload : Value) : result EventChainError str :=
  (let*? bytes := map_err from_signed_export (canonical_json payload) in
   Ok (hash_bytes bytes))%res.

(** The bytes [chain_hash] feeds to the hasher. *)
Definition chain_preimage (prev content : str) (i : Z) : list N :=
  as_bytes prev ++ [10%N] ++ as_bytes content ++ [10%N] ++ print_int i.
Definition chain_hash (prev content : str) (i : Z) : str :=
  encode_digest (digest (chain_preimage prev content i)).

Definition next_prev_hash (previous : option EventLink) : str :=
  match previous with
  | None => genesis_hash
  | Some link => chain_hash (prev_hash link) (content_hash_ link) (id link)
  end.

Definition link_for (i : Z) (payload : Value) (previous : option EventLink)
  : result EventChainError EventLink :=
  (let*? content := content_hash payload in
   Ok {| id := i; lsn := i; prev_hash := next_prev_hash previous; content_hash_ := content |})%res.

Definition verify_link (link : EventLink) (payload : Value) (previous : option EventLink)
    (from_genesis : bool) : result ChainBreakReason unit :=
  if negb (is_well_formed_hash (prev_hash link)) || negb (is_well_formed_hash (content_hash_ link))
  then Err MalformedHash
  else
    rbind
      match previous with
      | Some prev =>
          if (id link <=? id prev)%Z then Err IdNotIncreasing
          else if negb (bool_decide (prev_hash link = chain_hash (prev_hash prev) (content_hash_ prev) (id prev)))
          then Err PrevHashMismatch
          else Ok tt
      | None =>
          if from_genesis && negb (bool_decide (prev_hash link = genesis_hash))
          then Err PrevHashMismatch
          else Ok tt
      end
      (fun _ =>
         match content_hash payload with
         | Ok expected =>
             if decide (expected = content_hash_ link) then Ok tt else Err ContentHashMismatch
         | Err _ => Err MalformedHash
         end).

Record ChainVerifier := {
  v_genesis : str;
  v_from_genesis : bool;
  v_previous : option EventLink;
  v_checked : N;
  v_started : bool
}.

Definition new : ChainVerifier :=
  {| v_genesis := genesis_hash; v_from_genesis := true; v_previous := None;
     v_checked := 0; v_started := false |}.

(** Check one row: the report of a break, or the verifier to go on with. *)
Definition push (v : ChainVerifier) (link : EventLink) (payload : Value)
  : ChainVerifyReport + ChainVerifier :=
  let from := if v_started v then v_from_genesis v
              else bool_decide (prev_hash link = v_genesis v) in
  let floor_genesis := from && (v_checked v =? 0)%N in
  match verify_link link payload (v_previous v) floor_genesis with
  | Err why =>
      inl {| ok := false; algorithm := EVENT_CHAIN_ALG; genesis := v_genesis v;
             checked := v_checked v; head := v_previous v; from_genesis := from;
             break_at := Some (id link); reason := Some why |}
  | Ok _ =>
      inr {| v_genesis := v_genesis v; v_from_genesis := from; v_previous := Some link;
             v_checked := u32_succ (v_checked v); v_started := true |}
  end.

Definition finish (v : ChainVerifier) : ChainVerifyReport :=
  {| ok := true; algorithm := EVENT_CHAIN_ALG; genesis := v_genesis v; checked := v_checked v;
     head := v_previous v; from_genesis := v_from_genesis v; break_at := None; reason := None |}.

(** [for … { if let Some(report) = verifier.push(…) { return report } }]. *)
Fixpoint push_all (v : ChainVerifier) (rows : list (EventLink * Value))
  : ChainVerifyReport + ChainVerifier :=
  match rows with
  | [] => inr v
  | (link, payload) :: rest =>
      match push v link payload with
      | inl report => inl report
      | inr v' => push_all v' rest
      end
  end.

Definition verify_chain (links : list EventLink) (payloads : list Value) : ChainVerifyReport :=
  if negb (length links =? length payloads)%nat then
    {| ok := false; algorithm := EVENT_CHAIN_ALG; genesis := genesis_hash; checked := 0;
       head := None; from_genesis := true; break_at := id <$> list.head links;
       reason := Some MalformedHash |}
  else if bool_decide (links = []) then
    {| ok := true; algorithm := EVENT_CHAIN_ALG; genesis := genesis_hash; checked := 0;
       head := None; from_genesis := true; break_at := None; reason := None |}
  else
    match push_all new (zip links payloads) with
    | inl report => report
    | inr v => finish v
    end.

Definition verify_peer_link (link : EventLink) (payload : Value) (previous : option EventLink)
  : result ChainBreakReason unit :=
  let from := bool_decide (previous = None) && bool_decide (prev_hash link = genesis_hash) in
  verify_link link payload previous from.
End chain.

(** ** Specification

    A chain as a relation: every row's hashes are well formed, its content hash
    is its payload's, its id is above its predecessor's and its [prev_hash]
    commits to the predecessor ([genesis_hash] when there is none). *)
Section spec.
Context `{JsonText, Sha256}.

Record row_ok (row : EventLink * Value) : Prop := {
  row_prev_wf : is_well_formed_hash (prev_hash row.1) = true;
  row_content_wf : is_well_formed_hash (content_hash_ row.1) = true;
  row_content : content_hash row.2 = Ok (content_hash_ row.1)
}.

Definition above (previous : option EventLink) (link : EventLink) : Prop :=
  match previous with Some prev => (id prev < id link)%Z | None => True end.

Inductive linked : option EventLink -> list (EventLink * Value) -> Prop :=
| linked_nil previous : linked previous []
| linked_cons previous row rest :
    row_ok row -> above previous row.1 -> prev_hash row.1 = next_prev_hash previous ->
    linked (Some row.1) rest -> linked previous (row :: rest).

(** A retained suffix: the oldest row need not commit to anything. *)
Definition linked_floor (rows : list (EventLink * Value)) : Prop :=
  match rows with
  | [] => True
  | row :: rest => row_ok row /\ linked (Some row.1) rest
  end.

Definition last_link (previous : option EventLink) (rows : list (EventLink * Value)) : option EventLink :=
  match last rows with Some row => Some row.1 | None => previous end.

Lemma last_link_cons previous row rest :
  last_link previous (row :: rest) = last_link (Some row.1) rest.
Proof. unfold last_link. rewrite last_cons. by destruct (last rest). Qed.

Lemma verify_link_ok link payload previous fg :
  verify_link link payload previous fg = Ok tt <->
  row_ok (link, payload) /\ above previous link /\
  (previous <> None \/ fg = true -> prev_hash link = next_prev_hash previous).
Proof.
  unfold verify_link. split.
  - intros Hv. destruct (is_well_formed_hash (prev_hash link)) eqn:E1; [|done].
    destruct (is_well_formed_hash (content_hash_ link)) eqn:E2; [|done].
    cbn [negb orb] in Hv.
    apply rbind_ok in Hv as ([] & Hp & Hc).
    destruct (content_hash payload) as [e|] eqn:E3; [|done]. case_decide; [|done].
    split; [constructor; cbn [fst snd]; congruence|]. destruct previous as [prev|].
    + repeat case_match; simplify_eq; bool_simpl. split; [simpl; lia|done].
    + split; [done|]. intros [?| ->]; [done|]. simpl in Hp. by case_bool_decide.
  - intros ([Hp Hc Hr] & Ha & Hprev). cbn [fst snd] in *. rewrite Hp, Hc, Hr, decide_True by done. cbn [negb orb].
    destruct previous as [prev|]; cbn [above next_prev_hash] in *.
    + rewrite (proj2 (Z.leb_gt _ _) Ha), bool_decide_eq_true_2 by (apply Hprev; by left). done.
    + destruct fg; [|done]. rewrite bool_decide_eq_true_2 by (apply Hprev; by right).
      done.
Qed.

(** The verifier once it has taken a row: it goes on exactly along a chain. *)
Lemma push_all_started v rows prev :
  v_started v = true -> v_previous v = Some prev ->
  match push_all v rows with
  | inr v' =>
      linked (Some prev) rows /\
      v' = {| v_genesis := v_genesis v; v_from_genesis := v_from_genesis v;
              v_previous := last_link (Some prev) rows;
              v_checked := Nat.iter (length rows) u32_succ (v_checked v); v_started := true |}
  | inl report => ok report = false /\ ~ linked (Some prev) rows
  end.
Proof.
  revert v prev. induction rows as [|[link payload] rows IH]; intros v prev Hs Hp; simpl.
  - split; [constructor|]. destruct v; by simplify_eq/=.
  - unfold push. rewrite Hs, Hp. destruct (verify_link _ _ _ _) as [[]|why] eqn:E; simpl.
    + apply verify_link_ok in E as (Hrow & Ha & Hprev).
      assert (prev_hash link = next_prev_hash (Some prev)) by (apply Hprev; by left).
      match goal with |- context [push_all ?x rows] => set (v1 := x) end.
      specialize (IH v1 link eq_refl eq_refl).
      destruct (push_all v1 rows); destruct IH as [IH1 IH2]; split; try done.
      * intros Hl. inversion Hl; subst. by apply IH2.
      * by constructor.
      * rewrite IH2, last_link_cons. simpl. f_equal. by rewrite <- Nat.iter_swap.
    + split; [done|]. intros Hl. inversion Hl as [|? ? ? Hrow Ha Hprev]; subst.
      assert (verify_link link payload (Some prev) (v_from_genesis v && (v_checked v =? 0)%N) = Ok tt)
        by (apply verify_link_ok; split_and!; done). congruence.
Qed.

Lemma push_all_new row rows :
  match push_all new (row :: rows) with
  | inr v' =>
      linked_floor (row :: rows) /\
      v' = {| v_genesis := genesis_hash; v_from_genesis := bool_decide (prev_hash row.1 = genesis_hash);
              v_previous := last_link None (row :: rows);
              v_checked := Nat.iter (S (length rows)) u32_succ 0%N; v_started := true |}
  | inl report => ok report = false /\ ~ linked_floor (row :: rows)
  end.
Proof.
  destruct row as [link payload]. cbn [push_all]. unfold push. cbn [v_started new v_genesis v_checked v_previous].
  rewrite andb_true_r. destruct (verify_link _ _ _ _) as [[]|why] eqn:E.
  - apply verify_link_ok in E as (Hrow & _ & _).
    match goal with |- context [push_all ?x rows] => set (v1 := x) end.
    pose proof (push_all_started v1 rows link eq_refl eq_refl) as Hp.
    destruct (push_all v1 rows); destruct Hp as [Hp1 Hp2]; split; try done.
    + intros [_ Hl]. done.
    + rewrite last_link_cons. rewrite Hp2. simpl. f_equal. by rewrite <- Nat.iter_swap.
  - split; [done|]. intros [Hrow _].
    assert (verify_link link payload None (bool_decide (prev_hash link = genesis_hash)) = Ok tt).
    { apply verify_link_ok. split_and!; [done..|]. by intros [?| ?%bool_decide_eq_true]. }
    congruence.
Qed.

Lemma verify_chain_rows rows :
  verify_chain rows.*1 rows.*2
  = match rows with
    | [] => finish new
    | _ => match push_all new rows with inl report => report | inr v => finish v end
    end.
Proof.
  unfold verify_chain. rewrite !length_fmap, Nat.eqb_refl. destruct rows as [|row rows]; [done|].
  rewrite bool_decide_eq_false_2 by done. cbn [negb]. by rewrite zip_fst_snd.
Qed.
End spec.

(** ** Theorems *)

Section theorems.
Context `{JsonTextLaws, Sha256Laws}.

Lemma encode_digest_wf b : is_well_formed_hash (encode_digest (digest b)) = true.
Proof.
  unfold is_well_formed_hash, encode_digest.
  rewrite (proj2 (strip_prefix_Some HASH_PREFIX _ (hex_encode (digest b))) eq_refl).
  pose proof (digest_length b) as Hlen. pose proof (digest_bytes b) as Hb.
  unfold byte_len. rewrite as_bytes_ascii, hex_encode_length, Hlen.
  - rewrite decode_hex_encode; [done| |done]. intros Hnil. by rewrite Hnil in Hlen.
  - eapply Forall_impl; [by apply hex_encode_class|]. intros c ?. by apply hex_class_ascii.
Qed.

Lemma content_hash_wf payload h : content_hash payload = Ok h -> is_well_formed_hash h = true.
Proof. unfold content_hash. simpl. intros <-%(inj Ok). apply encode_digest_wf. Qed.

Lemma next_prev_hash_wf previous : is_well_formed_hash (next_prev_hash previous) = true.
Proof. destruct previous; apply encode_digest_wf. Qed.

(** The rows a log gets from appends with these ids, in order. *)
Fixpoint append_all (previous : option EventLink) (events : list (Z * Value))
  : result EventChainError (list (EventLink * Value)) :=
  match events with
  | [] => Ok []
  | (i, payload) :: rest =>
      (let*? link := link_for i payload previous in
       let*? rows := append_all (Some link) rest in
       Ok ((link, payload) :: rows))%res
  end.

(** Ids above the previous link's and increasing. *)
Fixpoint ids_above (previous : option EventLink) (ids : list Z) : Prop :=
  match ids with
  | [] => True
  | i :: rest =>
      match previous with Some prev => (id prev < i)%Z | None => True end
      /\ ids_above (Some {| id := i; lsn := i; prev_hash := []; content_hash_ := [] |}) rest
  end.

Lemma ids_above_id p p' ids : id p = id p' -> ids_above (Some p) ids -> ids_above (Some p') ids.
Proof. intros Hid. destruct ids; simpl; [done|]. by rewrite Hid. Qed.

Lemma link_for_row_ok i payload previous link :
  link_for i payload previous = Ok link ->
  row_ok (link, payload) /\ id link = i /\ prev_hash link = next_prev_hash previous.
Proof.
  unfold link_for. intros (h & Hh & <-%(inj Ok))%rbind_ok. split; [|done].
  constructor; cbn [fst snd prev_hash content_hash_]; [apply next_prev_hash_wf| |done].
  by eapply content_hash_wf.
Qed.

Lemma append_all_linked previous events rows :
  ids_above previous events.*1 -> append_all previous events = Ok rows -> linked previous rows.
Proof.
  revert previous rows. induction events as [|[i payload] events IH]; intros previous rows Hids.
  - intros <-%(inj Ok). constructor.
  - intros (link & Hl & (rows' & Hr & <-%(inj Ok))%rbind_ok)%rbind_ok.
    apply link_for_row_ok in Hl as (Hrow & <- & Hprev). destruct Hids as [Ha Hids].
    constructor; [done|by destruct previous|done|]. apply IH; [|done].
    by eapply ids_above_id; [|exact Hids].
Qed.

Lemma append_all_total previous events : exists rows, append_all previous events = Ok rows.
Proof.
  revert previous. induction events as [|[i payload] events IH]; intros previous; [by eexists|].
  simpl. destruct (IH (Some {| id := i; lsn := i; prev_hash := next_prev_hash previous;
                               content_hash_ := hash_bytes (write_canonical payload) |})) as [rows ->].
  by eexists.
Qed.

Lemma linked_floor_linked previous rows : linked previous rows -> linked_floor rows.
Proof. by inversion 1. Qed.

Lemma linked_drop previous rows k : linked previous rows -> linked_floor (drop k rows).
Proof.
  revert previous rows. induction k as [|k IH]; intros previous rows Hl.
  - rewrite drop_0. by eapply linked_floor_linked.
  - inversion Hl as [|? ? ? _ _ _ Hrest]; subst; [done|]. simpl. by eapply IH.
Qed.

Lemma verify_chain_linked_floor rows :
  linked_floor rows <-> ok (verify_chain rows.*1 rows.*2) = true.
Proof.
  rewrite verify_chain_rows. destruct rows as [|row rows]; [done|].
  pose proof (push_all_new row rows) as Hp. destruct (push_all new (row :: rows)).
  - destruct Hp as [Hok Hn]. rewrite Hok. naive_solver.
  - naive_solver.
Qed.

Lemma u32_iter k n : Nat.iter k u32_succ (n mod 2 ^ 32)%N = ((n + N.of_nat k) mod 2 ^ 32)%N.
Proof.
  induction k as [|k IH]; [simpl; by rewrite N.add_0_r|]. simpl Nat.iter. rewrite IH.
  unfold u32_succ. rewrite N.Div0.add_mod_idemp_l. f_equal. lia.
Qed.

(** Verification is exact. [verify_chain] accepts exactly the retained
    suffixes of chains: as many payloads as links, and from the oldest row on
    every hash well formed, every content hash its payload's, ids increasing
    and every [prev_hash] the commitment to the row before. *)
Theorem verify_chain_exact links payloads :
  ok (verify_chain links payloads) = true <->
  length links = length payloads /\ linked_floor (zip links payloads).
Proof.
  split.
  - intros Hok. destruct (decide (length links = length payloads)) as [Hlen|Hlen].
    + split; [done|]. apply verify_chain_linked_floor. by rewrite fst_zip, snd_zip by lia.
    + unfold verify_chain in Hok. by rewrite (proj2 (Nat.eqb_neq _ _) Hlen) in Hok.
  - intros [Hlen Hl]. apply verify_chain_linked_floor in Hl. by rewrite fst_zip, snd_zip in Hl by lia.
Qed.

(** An untouched log verifies. Events appended under increasing ids give
    rows whose verification reports the whole chain from genesis, and after
    any prefix is pruned the retained suffix still verifies to the same
    head. *)
Theorem appended_chain_verifies events :
  ids_above None events.*1 ->
  exists rows, append_all None events = Ok rows /\
    verify_chain rows.*1 rows.*2
    = {| ok := true; algorithm := EVENT_CHAIN_ALG; genesis := genesis_hash;
         checked := (N.of_nat (length rows) mod 2 ^ 32)%N; head := last rows.*1;
         from_genesis := true; break_at := None; reason := None |} /\
    forall k, k < length rows ->
      ok (verify_chain (drop k rows).*1 (drop k rows).*2) = true /\
      head (verify_chain (drop k rows).*1 (drop k rows).*2) = last rows.*1.
Proof.
  intros Hids. destruct (append_all_total None events) as [rows Hrows]. exists rows.
  pose proof (append_all_linked _ _ _ Hids Hrows) as Hl. split; [done|].
  assert (forall l, ok (verify_chain l.*1 l.*2) = true -> l <> [] ->
            head (verify_chain l.*1 l.*2) = last l.*1) as Hhead.
  { intros [|row l] Hok Hne; [done|]. pose proof (push_all_new row l) as Hp.
    rewrite verify_chain_rows in *. destruct (push_all new (row :: l)); [destruct Hp; congruence|].
    destruct Hp as [_ ->]. simpl. unfold last_link. rewrite <- fmap_cons, fmap_last. by destruct (last _). }
  split.
  - rewrite verify_chain_rows.
    inversion Hl as [|? row rows' Hrow _ Hprev Hl']; subst; [done|].
    rename rows' into rows.
    pose proof (push_all_new row rows) as Hp.
    destruct (push_all new (row :: rows)) as [report|v].
    { destruct Hp as [_ Hp]. destruct Hp. split; done. }
    destruct Hp as [_ ->].
    unfold finish. cbn [v_genesis v_checked v_previous v_from_genesis]. f_equal.
    + exact (u32_iter (S (length rows)) 0).
    + unfold last_link. rewrite fmap_last. by destruct (last _).
    + by apply (bool_decide_eq_true_2 _).
  - intros k Hk. assert (ok (verify_chain (drop k rows).*1 (drop k rows).*2) = true) as Hok
      by (apply verify_chain_linked_floor; by eapply linked_drop).
    split; [done|]. rewrite Hhead; [|done|].
    + by rewrite !fmap_last, last_drop.
    + intros Hnil. apply (f_equal length) in Hnil. rewrite length_drop in Hnil. simpl in Hnil. lia.
Qed.

Lemma encode_digest_inj b1 b2 :
  encode_digest (digest b1) = encode_digest (digest b2) -> digest b1 = digest b2.
Proof.
  unfold encode_digest. intros Heq%app_inv_head.
  assert (Ok (E := SignedExportError) (digest b1) = Ok (digest b2)) as ?%(inj Ok); [|done].
  assert (forall b, digest b <> []) as Hne by (intros b Hn; pose proof (digest_length b); by rewrite Hn in *).
  rewrite <- !decode_hex_encode by (try apply digest_bytes; apply Hne). by rewrite Heq.
Qed.

Lemma encode_digest_ascii b : as_bytes (encode_digest (digest b)) = encode_digest (digest b).
Proof.
  apply as_bytes_ascii. unfold encode_digest. apply Forall_app. split; [by repeat constructor|].
  eapply Forall_impl; [apply hex_encode_class, digest_bytes|]. intros c ?. by apply hex_class_ascii.
Qed.

Lemma encode_digest_length b : length (encode_digest (digest b)) = 71.
Proof. unfold encode_digest. rewrite length_app, hex_encode_length, digest_length. done. Qed.

(** The text of a digest: ASCII, and always as long. *)
Definition hash_text (s : str) : Prop := as_bytes s = s /\ length s = 71.

Lemma encode_digest_text b : hash_text (encode_digest (digest b)).
Proof. split; [apply encode_digest_ascii|apply encode_digest_length]. Qed.

Lemma chain_preimage_inj p1 c1 i1 p2 c2 i2 :
  hash_text p1 -> hash_text p2 -> hash_text c1 -> hash_text c2 ->
  chain_preimage p1 c1 i1 = chain_preimage p2 c2 i2 -> p1 = p2 /\ c1 = c2 /\ i1 = i2.
Proof.
  intros [Hp1 Lp1] [Hp2 Lp2] [Hc1 Lc1] [Hc2 Lc2]. unfold chain_preimage.
  rewrite Hp1, Hp2, Hc1, Hc2. intros Heq.
  apply app_inj_1 in Heq as [-> Heq]; [|congruence]. injection Heq as Heq.
  apply app_inj_1 in Heq as [-> Heq]; [|congruence]. injection Heq as Heq.
  by apply (inj print_int) in Heq as ->.
Qed.

Lemma genesis_not_chain p c i : GENESIS_DOMAIN <> chain_preimage p c i.
Proof.
  intros Heq. assert (10%N ∈ GENESIS_DOMAIN) as Hin.
  { rewrite Heq. unfold chain_preimage. set_solver. }
  by apply (bool_decide_eq_true_2 _) in Hin.
Qed.

(** Everything hashed for a chain: the genesis domain, each payload's
    canonical bytes and each row's commitment. *)
Definition preimages (rows : list (EventLink * Value)) : list (list N) :=
  GENESIS_DOMAIN ::
  (rows ≫= fun row => [write_canonical row.2;
                        chain_preimage (prev_hash row.1) (content_hash_ row.1) (id row.1)]).

Definition no_collision (inputs : list (list N)) : Prop :=
  forall x y, x ∈ inputs -> y ∈ inputs -> digest x = digest y -> x = y.

(** What a row commits to: its position, its predecessor and its payload. *)
Definition committed (row : EventLink * Value) : Z * str * str * list N :=
  (id row.1, prev_hash row.1, content_hash_ row.1, write_canonical row.2).

Lemma linked_snoc previous rows row :
  linked previous (rows ++ [row]) ->
  linked previous rows /\ row_ok row /\ prev_hash row.1 = next_prev_hash (last_link previous rows).
Proof.
  revert previous. induction rows as [|r rows IH]; intros previous Hl; simpl in *.
  - inversion Hl; subst. split; [constructor|done].
  - inversion Hl as [|? ? ? Hr Ha Hp Hrest]; subst. apply IH in Hrest as (Hrest & ? & Heq).
    rewrite last_link_cons. split; [by constructor|done].
Qed.

Lemma next_prev_hash_text previous : hash_text (next_prev_hash previous).
Proof. destruct previous; apply encode_digest_text. Qed.

Lemma row_content_digest row : row_ok row ->
  content_hash_ row.1 = encode_digest (digest (write_canonical row.2)).
Proof. intros [_ _ Hc]. by apply (inj Ok) in Hc. Qed.

Lemma preimages_snoc rows row x :
  x ∈ preimages (rows ++ [row]) <->
  x ∈ preimages rows \/ x = write_canonical row.2 \/
  x = chain_preimage (prev_hash row.1) (content_hash_ row.1) (id row.1).
Proof.
  unfold preimages. rewrite !elem_of_cons, bind_app, elem_of_app. simpl. set_solver.
Qed.

Lemma no_collision_sub l l' : (forall x, x ∈ l -> x ∈ l') -> no_collision l' -> no_collision l.
Proof. intros Hsub Hn x y Hx Hy. apply Hn; auto. Qed.

Lemma head_commitment_step rows1 rows2 :
  linked None rows1 -> linked None rows2 ->
  no_collision (preimages rows1 ++ preimages rows2) ->
  next_prev_hash (last_link None rows1) = next_prev_hash (last_link None rows2) ->
  committed <$> rows1 = committed <$> rows2.
Proof.
  revert rows2. induction rows1 as [|row1 rows1 IH] using rev_ind;
    intros rows2 H1' H2' Hn Heq; destruct rows2 as [|row2 rows2 _] using rev_ind; [done|..].
  - exfalso. unfold last_link in Heq. rewrite last_snoc in Heq. apply encode_digest_inj in Heq.
    apply Hn in Heq; [by apply genesis_not_chain in Heq| |].
    + apply elem_of_app. left. left.
    + apply elem_of_app. right. apply preimages_snoc. by right; right.
  - exfalso. unfold last_link in Heq. rewrite last_snoc in Heq. apply encode_digest_inj in Heq.
    symmetry in Heq. apply Hn in Heq; [by apply genesis_not_chain in Heq| |].
    + apply elem_of_app. left. left.
    + apply elem_of_app. left. apply preimages_snoc. by right; right.
  - apply linked_snoc in H1' as (Hl1 & Hrow1 & Hp1), H2' as (Hl2 & Hrow2 & Hp2).
    unfold last_link in Heq. rewrite !last_snoc in Heq. apply encode_digest_inj in Heq.
    apply Hn in Heq; [|rewrite elem_of_app, !preimages_snoc; auto..].
    pose proof (row_content_digest _ Hrow1) as Hc1. pose proof (row_content_digest _ Hrow2) as Hc2.
    apply chain_preimage_inj in Heq as (Hp & Hc & Hi);
      [|rewrite ?Hp1, ?Hp2, ?Hc1, ?Hc2; first [apply next_prev_hash_text|apply encode_digest_text]..].
    assert (write_canonical row1.2 = write_canonical row2.2) as Hw.
    { rewrite Hc1, Hc2 in Hc. apply encode_digest_inj, Hn in Hc; [done|..];
        rewrite elem_of_app, !preimages_snoc; auto. }
    rewrite !fmap_app, (IH rows2); [|done|done| |congruence].
    + simpl. unfold committed. by rewrite Hp, Hc, Hi, Hw.
    + eapply no_collision_sub; [|exact Hn]. intros x. rewrite !elem_of_app, !preimages_snoc. tauto.
Qed.

Lemma verified_from_genesis rows :
  ok (verify_chain rows.*1 rows.*2) = true -> from_genesis (verify_chain rows.*1 rows.*2) = true ->
  linked None rows /\ head (verify_chain rows.*1 rows.*2) = last_link None rows.
Proof.
  rewrite verify_chain_rows. destruct rows as [|row rows]; [split; [constructor|done]|].
  pose proof (push_all_new row rows) as Hp. destruct (push_all new (row :: rows)).
  - destruct Hp as [Hok _]. by rewrite Hok.
  - destruct Hp as [[Hrow Hl] ->]. simpl. intros _ Hg%bool_decide_eq_true. split; [|done].
    by constructor.
Qed.

Lemma committed_same rows1 rows2 :
  Forall value_wf rows1.*2 -> Forall value_wf rows2.*2 ->
  committed <$> rows1 = committed <$> rows2 ->
  Forall2 (fun r1 r2 => id r1.1 = id r2.1 /\ prev_hash r1.1 = prev_hash r2.1 /\
                        content_hash_ r1.1 = content_hash_ r2.1 /\
                        sort_keys r1.2 = sort_keys r2.2) rows1 rows2.
Proof.
  revert rows2. induction rows1 as [|r1 rows1 IH]; intros [|r2 rows2] Hw1 Hw2 Hc; try done.
  rewrite !fmap_cons in *. unfold committed in Hc at 1 3. injection Hc as Hi Hp Hh Hw Hc.
  apply Forall_cons in Hw1 as [Hr1 Hw1], Hw2 as [Hr2 Hw2].
  constructor; [|by apply IH]. split_and!; [done..|]. by apply sort_keys_of_canonical.
Qed.

(** C16: tampering is evident. Two logs that verify from genesis and whose
    heads commit to the same hash hold the same events: as many rows, with the
    same ids and hashes and with payloads that are equal up to key order,
    unless two different inputs hashed for them collide under SHA-256. *)
Theorem tamper_evident rows1 rows2 :
  let report1 := verify_chain rows1.*1 rows1.*2 in
  let report2 := verify_chain rows2.*1 rows2.*2 in
  ok report1 = true -> from_genesis report1 = true ->
  ok report2 = true -> from_genesis report2 = true ->
  Forall value_wf rows1.*2 -> Forall value_wf rows2.*2 ->
  no_collision (preimages rows1 ++ preimages rows2) ->
  next_prev_hash (head report1) = next_prev_hash (head report2) ->
  Forall2 (fun r1 r2 => id r1.1 = id r2.1 /\ prev_hash r1.1 = prev_hash r2.1 /\
                        content_hash_ r1.1 = content_hash_ r2.1 /\
                        sort_keys r1.2 = sort_keys r2.2) rows1 rows2.
Proof.
  intros report1 report2 Hok1 Hg1 Hok2 Hg2 Hw1 Hw2 Hn Heq.
  apply verified_from_genesis in Hok1 as [Hl1 Hh1]; [|done].
  apply verified_from_genesis in Hok2 as [Hl2 Hh2]; [|done].
  unfold report1, report2 in Heq. rewrite Hh1, Hh2 in Heq.
  pose proof (head_commitment_step _ _ Hl1 Hl2 Hn Heq) as Hc.
  by apply committed_same.
Qed.
End theorems.

(** ** An instance

    A digest of the right shape to evaluate chains with. *)
Module SampleSha.
Fixpoint bytes_of (k : nat) (n : N) : list N :=
  match k with O => [] | S k => N.land n (N.ones 8) :: bytes_of k (N.shiftr n 8) end.
Definition sample (b : list N) : list N :=
  bytes_of 32 (foldl (fun acc c => N.land (N.shiftl acc 8 + acc + c + 1) (N.ones 256))%N 7%N b).

#[global] Instance sha : Sha256 := {| digest := sample |}.

Lemma bytes_of_spec k n : length (bytes_of k n) = k /\ Forall (fun c => (c < 256)%N) (bytes_of k n).
Proof.
  revert n. induction k as [|k IH]; intros n; simpl; [done|]. destruct (IH (N.shiftr n 8)) as [-> ?].
  split; [done|]. constructor; [|done]. rewrite N.land_ones. by apply N.mod_lt.
Qed.

#[global] Instance laws : Sha256Laws.
Proof. constructor; intros; apply bytes_of_spec. Qed.

Lemma no_collision_eval inputs :
  forallb (fun x => forallb (fun y => negb (bool_decide (sample x = sample y)) || bool_decide (x = y)) inputs) inputs = true ->
  no_collision inputs.
Proof.
  rewrite forallb_true. intros Hall x y Hx Hy Hd. specialize (Hall x Hx).
  rewrite forallb_true in Hall. specialize (Hall y Hy). apply orb_true_iff in Hall as [Hf|?]; bool_simpl; done.
Qed.
End SampleSha.

Module Sample.
Definition payload (ks : list str) : Value := Object ((fun k => (k, Null)) <$> ks).
Definition events1 : list (Z * Value) :=
  [(4%Z, payload [lit "kind"; lit "at"]); (9%Z, Num (Int 1))].
Definition events2 : list (Z * Value) :=
  [(4%Z, payload [lit "at"; lit "kind"]); (9%Z, Num (Int 1))].
Definition rows_of (events : list (Z * Value)) : list (EventLink * Value) :=
  match append_all None events with Ok rows => rows | Err _ => [] end.
End Sample.

Lemma verify_chain_exact_witness :
  ok (verify_chain (Sample.rows_of Sample.events1).*1 (Sample.rows_of Sample.events1).*2) = true.
Proof.
  apply verify_chain_exact. rewrite !length_fmap, zip_fst_snd. split; [done|].
  apply verify_chain_linked_floor. vm_compute. reflexivity.
Defined.

Lemma appended_chain_verifies_witness :
  exists rows, append_all None Sample.events1 = Ok rows /\
    ok (verify_chain rows.*1 rows.*2) = true /\
    ok (verify_chain (drop 1 rows).*1 (drop 1 rows).*2) = true.
Proof.
  destruct (appended_chain_verifies Sample.events1) as (rows & Hr & Hv & Hk); [simpl; lia|].
  exists rows. split; [done|]. rewrite Hv. split; [done|]. apply Hk.
  vm_compute in Hr. injection Hr as <-. simpl. lia.
Defined.

Lemma tamper_evident_witness :
  Forall2 (fun r1 r2 => id r1.1 = id r2.1 /\ prev_hash r1.1 = prev_hash r2.1 /\
                        content_hash_ r1.1 = content_hash_ r2.1 /\ sort_keys r1.2 = sort_keys r2.2)
          (Sample.rows_of Sample.events1) (Sample.rows_of Sample.events2).
Proof.
  assert (forall k1 k2, k1 <> k2 -> value_wf (Sample.payload [k1; k2])) as Hwf.
  { intros k1 k2 Hne. constructor; [|by repeat constructor]. simpl.
    apply NoDup_cons. split; [set_solver|]. apply NoDup_singleton. }
  apply tamper_evident.
  - vm_compute. reflexivity.
  - vm_compute. reflexivity.
  - vm_compute. reflexivity.
  - vm_compute. reflexivity.
  - constructor; [by apply Hwf|]. constructor; [constructor|constructor].
  - constructor; [by apply Hwf|]. constructor; [constructor|constructor].
  - apply SampleSha.no_collision_eval. vm_compute. reflexivity.
  - vm_compute. reflexivity.
Defined.
