(* ===== verification/EventLog.v ===== *)
(** * The stored event log

    [crates/maidan-store/src/sqlite/events.rs] and the event half of
    [crates/maidan-store/src/sqlite/retention.rs]: the [maidan_events] table,
    the append that links each row to its workspace's head, the paged reads, the
    store's chain verification and the two retention deletes.

    The table is the list of its rows in the order of its primary key, which is
    the order they were inserted in ([AUTOINCREMENT]); [ORDER BY id] reads it
    forwards or backwards. A payload is kept as a value: the text in the column
    is its serde_json rendering. *)

From stdpp Require Import strings.
From S2P Require Import Prelude Text Json EventChain.

Record EventRow := {
  e_id : Z;
  e_kind : str;
  e_ws : option N;
  e_channel : option N;
  e_thread : option N;
  e_payload : Value;
  e_occurred : Z;
  e_inserted : Z;
  e_prev : str;
  e_content : str
}.

Record Log := {
  rows : list EventRow;
  (** [sqlite_sequence]: the largest id ever given. *)
  seq : Z
}.

Definition empty_log : Log := {| rows := []; seq := 0 |}.

(** An event as the append sees it: [serde_json::to_value] of it, with the
    delegation the request acts under attached, and its indexed columns. *)
Record NewEvent := {
  n_kind : str;
  n_ws : option N;
  n_channel : option N;
  n_thread : option N;
  n_occurred : Z;
  n_value : Value
}.

Definition link (r : EventRow) : EventLink :=
  {| id := e_id r; lsn := e_id r; prev_hash := e_prev r; content_hash_ := e_content r |}.

(** [WHERE workspace_id IS NOT DISTINCT FROM ?]. *)
Definition in_ws (ws : option N) (r : EventRow) : bool := bool_decide (e_ws r = ws).
Definition ws_rows (l : Log) (ws : option N) : list EventRow := List.filter (in_ws ws) (rows l).

Definition chain_head_in_tx (l : Log) (ws : option N) : option EventLink :=
  link <$> last (ws_rows l ws).

Definition head_link (l : Log) (ws : N) : option EventLink := link <$> last (ws_rows l (Some ws)).
Definition floor_link (l : Log) (ws : N) : option EventLink := link <$> list.head (ws_rows l (Some ws)).
Definition link_at_or_before (l : Log) (ws : N) (at_ : Z) : option EventLink :=
  link <$> last (List.filter (fun r => (e_id r <=? at_)%Z) (ws_rows l (Some ws))).

(** [seal] is [content_keys::prepare_in_tx]: it replaces a message's words in
    the payload by their ciphertext before the payload is hashed. *)
Definition append_with_keys_in_tx `{JsonText, Sha256} (seal : Value -> Value) (now : Z) (ev : NewEvent)
    (l : Log) : result EventChainError (EventRow * Log) :=
  let payload := seal (normalize_payload_numbers (n_value ev)) in
  let previous := chain_head_in_tx l (n_ws ev) in
  (let*? content := content_hash payload in
   let row := {| e_id := (seq l + 1)%Z; e_kind := n_kind ev; e_ws := n_ws ev;
                 e_channel := n_channel ev; e_thread := n_thread ev; e_payload := payload;
                 e_occurred := n_occurred ev; e_inserted := now;
                 e_prev := next_prev_hash previous; e_content := content |} in
   Ok (row, {| rows := rows l ++ [row]; seq := (seq l + 1)%Z |}))%res.

(** The first rows of the workspace above [after_id]. *)
Definition list_after (l : Log) (ws : N) (after_id limit : Z) : list EventRow :=
  sql_limit limit (List.filter (fun r => (after_id <? e_id r)%Z) (ws_rows l (Some ws))).

Definition list_after_stable (l : Log) (ws : N) (after_id stable_before limit : Z) : list EventRow :=
  sql_limit limit
    (List.filter (fun r => (after_id <? e_id r)%Z && (e_inserted r <=? stable_before)%Z) (ws_rows l (Some ws))).

Definition list_after_global (l : Log) (after_id limit : Z) : list EventRow :=
  sql_limit limit (List.filter (fun r => (after_id <? e_id r)%Z) (rows l)).

Definition list_matching (l : Log) (ws : N) (channel thread : option N) (kinds : list str)
    (after_id limit : Z) : list EventRow :=
  sql_limit limit
    (List.filter
       (fun r => (after_id <? e_id r)%Z
                 && match channel with Some c => bool_decide (e_channel r = Some c) | None => true end
                 && match thread with Some t => bool_decide (e_thread r = Some t) | None => true end
                 && (bool_decide (kinds = []) || bool_decide (e_kind r ∈ kinds)))
       (ws_rows l (Some ws))).

(** A thread's events up to an id. *)
Definition list_through (l : Log) (thread : N) (through_id : Z) : list EventRow :=
  List.filter (fun r => bool_decide (e_thread r = Some thread) && (e_id r <=? through_id)%Z) (rows l).

Definition min_event_id (l : Log) (ws : N) : option Z := e_id <$> list.head (ws_rows l (Some ws)).
Definition max_event_id (l : Log) : Z := default 0%Z (e_id <$> last (rows l)).

Definition PAGE : Z := 256.

(** The paging loop; the fuel bounds its turns. *)
Fixpoint verify_pages `{JsonText, Sha256} (fuel : nat) (l : Log) (ws : N) (after : Z) (v : ChainVerifier)
  : option ChainVerifyReport :=
  match fuel with
  | O => None
  | S fuel =>
      let page := list_after l ws after PAGE in
      if bool_decide (e_id <$> page = []) then Some (finish v)
      else
        let after := default after (e_id <$> last page) in
        match push_all v ((fun r => (link r, e_payload r)) <$> page) with
        | inl report => Some report
        | inr v => verify_pages fuel l ws after v
        end
  end.
Definition verify_chain `{JsonText, Sha256} (l : Log) (ws : N) : option ChainVerifyReport :=
  verify_pages (S (length (ws_rows l (Some ws)))) l ws 0 new.

(** ** Retention *)

(** The rows [prune_events] may delete; [holds] are the workspaces under a legal
    hold. *)
Definition prunable (holds : list N) (cutoff max_id : Z) (r : EventRow) : bool :=
  (e_id r <=? max_id)%Z && (e_occurred r <? cutoff)%Z
  && match e_ws r with None => true | Some ws => negb (bool_decide (ws ∈ holds)) end.

(** [DELETE … WHERE id IN (SELECT id … ORDER BY id ASC LIMIT ?)]. *)
Fixpoint delete_first (p : EventRow -> bool) (limit : nat) (l : list EventRow) : list EventRow :=
  match l, limit with
  | [], _ => []
  | _, O => l
  | r :: rest, S limit' =>
      if p r then delete_first p limit' rest else r :: delete_first p limit rest
  end.

Definition prune_events (holds : list N) (cutoff max_id limit : Z) (l : Log) : Log :=
  {| rows := delete_first (prunable holds cutoff max_id) (limit_rows limit (rows l)) (rows l); seq := seq l |}.

(** [cursors] are the (workspace, last delivered id, updated at) rows of
    [maidan_delivery_cursor]. *)
Definition workspace_floor (cursors : list (N * Z * Z)) (ws : N) (cutoff : Z) : Z :=
  let mine := List.filter (fun c => bool_decide (c.1.1 = ws) && (cutoff <=? c.2)%Z) cursors in
  match mine with
  | [] => 9223372036854775807%Z
  | c :: rest => foldr (fun c m => Z.min c.1.2 m) c.1.2 rest
  end.
Definition prune_workspace_events (holds : list N) (cursors : list (N * Z * Z)) (ws : N)
    (cutoff limit : Z) (l : Log) : Log :=
  {| rows := delete_first
               (fun r => in_ws (Some ws) r && (e_occurred r <? cutoff)%Z
                         && (e_id r <=? workspace_floor cursors ws cutoff)%Z
                         && negb (bool_decide (ws ∈ holds)))
               (limit_rows limit (rows l)) (rows l);
     seq := seq l |}.

(** ** Lemmas: ordered tables *)

Definition id_sorted (l : list EventRow) : Prop := StronglySorted (fun a b => (e_id a < e_id b)%Z) l.

(** Paging by the last id of a page goes on right after it. *)
Lemma after_page (l : list EventRow) n r :
  id_sorted l -> last (take n l) = Some r ->
  List.filter (fun x => (e_id r <? e_id x)%Z) l = drop n l.
Proof.
  revert n. induction l as [|x l IH]; intros n Hs Hl; [by destruct n|].
  destruct n as [|n]; [done|]. inversion Hs as [|? ? Hs' Hx]; subst. rewrite Forall_forall in Hx.
  cbn [take drop List.filter] in *. destruct (last (take n l)) as [r'|] eqn:E.
  - assert (r' = r) as ->. { rewrite last_cons, E in Hl. congruence. }
    assert (r ∈ l) as Hr.
    { rewrite last_lookup in E. apply list_elem_of_lookup_2 in E. by apply elem_of_take_in in E. }
    rewrite (proj2 (Z.ltb_ge _ _)) by (specialize (Hx _ Hr); lia). by apply IH.
  - assert (x = r) as ->. { rewrite last_cons, E in Hl. congruence. }
    rewrite Z.ltb_irrefl. apply last_None in E. rewrite bfilter_all.
    + destruct n; [done|]. destruct l; [done|]. done.
    + intros y Hy. apply Z.ltb_lt. by apply Hx.
Qed.

Lemma delete_first_none p n (l : list EventRow) q :
  (forall r, r ∈ l -> q r = true -> p r = false) ->
  List.filter q (delete_first p n l) = List.filter q l.
Proof.
  revert n. induction l as [|r l IH]; intros n Hp; [done|]. destruct n as [|n]; [done|].
  cbn [delete_first]. destruct (p r) eqn:E.
  - simpl. destruct (q r) eqn:Eq.
    + rewrite (Hp r) in E; [done|left|done].
    + apply IH. intros x Hx. apply Hp. by right.
  - simpl. rewrite IH; [done|]. intros x Hx. apply Hp. by right.
Qed.

(** A batched delete whose condition holds of a prefix of the rows of one
    workspace removes a prefix of them. *)
Lemma delete_first_prefix p n (l : list EventRow) q :
  StronglySorted (fun a b => p b = true -> p a = true) (List.filter q l) ->
  exists k, List.filter q (delete_first p n l) = drop k (List.filter q l).
Proof.
  revert n. induction l as [|r l IH]; intros n Hs; [by exists 0|]. destruct n as [|n]; [by exists 0|].
  cbn [delete_first]. simpl in Hs. destruct (q r) eqn:Eq.
  - inversion Hs as [|? ? Hs' Hr]; subst. destruct (p r) eqn:Ep.
    + destruct (IH n Hs') as [k Hk]. exists (S k). rewrite Hk. simpl. by rewrite Eq.
    + exists 0. simpl. rewrite Eq, delete_first_none; [done|].
      intros x Hx Hqx. rewrite Forall_forall in Hr. destruct (p x) eqn:Epx; [|done].
      symmetry. apply (Hr x); [by apply elem_of_bfilter|done].
  - destruct (p r) eqn:Ep; simpl; rewrite Eq; by apply IH.
Qed.

Lemma delete_first_elem p n l (r : EventRow) : r ∈ delete_first p n l -> r ∈ l.
Proof.
  revert n. induction l as [|x l IH]; intros n; [by destruct n|]. destruct n as [|n]; [done|].
  cbn [delete_first]. destruct (p x); rewrite ?elem_of_cons; naive_solver.
Qed.

Lemma delete_first_sorted (R : EventRow -> EventRow -> Prop) p n l :
  StronglySorted R l -> StronglySorted R (delete_first p n l).
Proof.
  intros Hs. revert n. induction Hs as [|x l Hl IH Hx]; intros n; [destruct n; constructor|].
  destruct n as [|n]; [by constructor|]. cbn [delete_first]. destruct (p x); [done|].
  constructor; [done|]. rewrite Forall_forall in *. intros y Hy. by eapply Hx, delete_first_elem.
Qed.

(** ** The store's verification is the slice's *)

Section verify.
Context `{JsonText, Sha256}.

Definition pairs (l : list EventRow) : list (EventLink * Value) := (fun r => (link r, e_payload r)) <$> l.

Lemma push_all_app v l1 l2 :
  push_all v (l1 ++ l2) = match push_all v l1 with inl r => inl r | inr v' => push_all v' l2 end.
Proof.
  revert v. induction l1 as [|[lk pl] l1 IH]; intros v; [done|]. simpl. by destruct (push v lk pl).
Qed.

Lemma verify_pages_spec fuel l ws after v :
  id_sorted (rows l) ->
  length (List.filter (fun r => (after <? e_id r)%Z) (ws_rows l (Some ws))) < fuel ->
  verify_pages fuel l ws after v
  = Some match push_all v (pairs (List.filter (fun r => (after <? e_id r)%Z) (ws_rows l (Some ws)))) with
         | inl report => report
         | inr v' => finish v'
         end.
Proof.
  intros Hs. revert after v. induction fuel as [|fuel IH]; intros after v Hlen; [lia|].
  cbn [verify_pages]. unfold list_after, sql_limit.
  replace (limit_rows PAGE _) with 256 by done.
  set (rest := List.filter _ (ws_rows l (Some ws))) in *.
  assert (id_sorted rest) as Hrest by (by apply StronglySorted_bfilter, StronglySorted_bfilter).
  destruct (last (take 256 rest)) as [r|] eqn:El.
  - rewrite bool_decide_eq_false_2
      by (intros Hn; apply fmap_nil_inv in Hn; by rewrite Hn in El).
    assert (pairs rest = pairs (take 256 rest) ++ pairs (drop 256 rest)) as Hsplit
      by (unfold pairs; by rewrite <- fmap_app, take_drop).
    rewrite Hsplit, push_all_app.
    change ((fun r => (link r, e_payload r)) <$> take 256 rest) with (pairs (take 256 rest)).
    destruct (push_all v (pairs (take 256 rest))) as [report|v']; [done|].
    pose proof (after_page _ _ _ Hrest El) as Hdrop.
    assert (after < e_id r)%Z as Hr.
    { rewrite last_lookup in El. apply list_elem_of_lookup_2, elem_of_take_in in El.
      unfold rest in El. apply elem_of_bfilter in El as [_ El]. by apply Z.ltb_lt. }
    assert (List.filter (fun x => (e_id r <? e_id x)%Z) (ws_rows l (Some ws)) = drop 256 rest) as Heq.
    { rewrite <- Hdrop. unfold rest. clear - Hr.
      induction (ws_rows l (Some ws)) as [|x xs IH]; [done|]. simpl.
      destruct (Z.ltb_spec (e_id r) (e_id x)), (Z.ltb_spec after (e_id x)); simpl; try lia; try done.
      - rewrite (proj2 (Z.ltb_lt _ _)) by done. by f_equal.
      - rewrite (proj2 (Z.ltb_ge _ _)) by done. done. }
    change (default after (e_id <$> Some r)) with (e_id r).
    rewrite IH; [by rewrite Heq|]. rewrite Heq. rewrite length_drop.
    assert (length rest <> 0) by (intros ->%nil_length_inv; by rewrite take_nil in El). lia.
  - apply last_None in El. assert (rest = []) as ->.
    { destruct rest; [done|]. simpl in El. done. }
    done.
Qed.
End verify.

(** ** Invariant and steps *)

Section steps.
Context `{JsonTextLaws, Sha256Laws}.

(** What every log keeps: ids increase, above zero and up to the sequence, and
    each workspace's rows are a retained suffix of a chain. *)
Record log_wf (l : Log) : Prop := {
  log_sorted : id_sorted (rows l);
  log_seq : (0 <= seq l)%Z;
  log_ids : Forall (fun r => 0 < e_id r <= seq l)%Z (rows l);
  log_chained : forall ws, linked_floor (pairs (ws_rows l ws))
}.

(** The order retention relies on: in a workspace, no event occurred before
    one that is ahead of it in the log. *)
Definition in_occurrence_order (l : Log) : Prop :=
  forall ws, StronglySorted (fun a b => e_occurred a <= e_occurred b)%Z (ws_rows l ws).

(** The operations that change the log. [ordered] asks of an append that its
    event did not occur before the workspace's events already in the log. *)
Inductive log_step (ordered : bool) : Log -> Log -> Prop :=
| step_append seal now ev row l l' :
    (ordered = true -> forall r, r ∈ ws_rows l (n_ws ev) -> (e_occurred r <= n_occurred ev)%Z) ->
    append_with_keys_in_tx seal now ev l = Ok (row, l') -> log_step ordered l l'
| step_prune holds cutoff max_id limit l :
    log_step ordered l (prune_events holds cutoff max_id limit l)
| step_prune_workspace holds cursors ws cutoff limit l :
    log_step ordered l (prune_workspace_events holds cursors ws cutoff limit l).

Lemma linked_floor_snoc l row :
  linked_floor (pairs l) -> row_ok (link row, e_payload row) ->
  above (link <$> last l) (link row) ->
  (l <> [] -> e_prev row = next_prev_hash (link <$> last l)) ->
  linked_floor (pairs (l ++ [row])).
Proof.
  intros Hl Hrow Ha Hp. destruct l as [|x l]; [by split; [|constructor]|].
  specialize (Hp ltac:(done)). destruct Hl as [Hx Hl]. split; [exact Hx|].
  assert (last (x :: l) = Some (default x (last l))) as Hlast by (rewrite last_cons; by destruct (last l)).
  rewrite Hlast in Ha, Hp. simpl in Ha, Hp. clear Hlast Hx.
  change (linked (Some (link x)) (pairs (l ++ [row]))).
  revert x Hl Ha Hp. induction l as [|y l IH]; intros x Hl Ha Hp.
  - constructor; [done..|constructor].
  - inversion Hl as [|? ? ? Hy Hay Hpy Hl']; subst. constructor; [done..|]. simpl in *.
    rewrite last_cons in Ha, Hp. apply IH; [done|..]; by destruct (last l).
Qed.

Lemma ws_rows_append l row sq ws :
  ws_rows {| rows := rows l ++ [row]; seq := sq |} ws
  = ws_rows l ws ++ (if in_ws ws row then [row] else []).
Proof. unfold ws_rows. simpl. rewrite List.filter_app. simpl. by destruct (in_ws ws row). Qed.

Lemma ws_row_last_id l ws r : log_wf l -> last (ws_rows l ws) = Some r -> (e_id r <= seq l)%Z.
Proof.
  intros [_ _ Hids _] Hr. rewrite last_lookup in Hr. apply list_elem_of_lookup_2 in Hr.
  apply elem_of_bfilter in Hr as [Hr _]. rewrite Forall_forall in Hids. by apply Hids in Hr as [_ ?].
Qed.

Lemma append_wf seal now ev l row l' :
  log_wf l -> append_with_keys_in_tx seal now ev l = Ok (row, l') -> log_wf l'.
Proof.
  intros Hwf. unfold append_with_keys_in_tx. intros (h & Hh & Heq)%rbind_ok.
  set (r := {| e_prev := _ |}) in Heq. apply (inj Ok) in Heq. injection Heq as <- <-.
  destruct Hwf as [Hs Hseq Hids Hc]. constructor; simpl.
  - unfold id_sorted in *. clear Hc. revert Hs Hids. generalize (rows l). intros xs Hs.
    induction Hs as [|x xs Hxs IH Hx]; intros Hids; simpl; [constructor; [constructor|done]|].
    apply Forall_cons in Hids as [Hx0 Hids]. constructor; [by apply IH|].
    apply Forall_app. split; [done|]. constructor; [simpl; lia|done].
  - lia.
  - apply Forall_app. split; [eapply Forall_impl; [exact Hids|]; simpl; lia|].
    constructor; [simpl; lia|constructor].
  - intros ws. rewrite ws_rows_append. destruct (in_ws ws r) eqn:Ews; [|by rewrite app_nil_r].
    unfold in_ws in Ews. bool_simpl. subst ws. simpl. apply linked_floor_snoc; [done|..].
    + constructor; cbn; [apply next_prev_hash_wf|by eapply content_hash_wf|done].
    + unfold above. destruct (last (ws_rows l (n_ws ev))) as [x|] eqn:E; [|done].
      apply ws_row_last_id in E; [simpl; lia|by constructor].
    + done.
Qed.

Lemma linked_floor_drop rows k : linked_floor rows -> linked_floor (drop k rows).
Proof.
  destruct rows as [|row rows]; [by rewrite drop_nil|]. destruct k as [|k]; [done|].
  intros [_ Hl]. simpl. by eapply linked_drop.
Qed.

Lemma append_occurrence seal now ev l row l' :
  in_occurrence_order l ->
  (forall r, r ∈ ws_rows l (n_ws ev) -> (e_occurred r <= n_occurred ev)%Z) ->
  append_with_keys_in_tx seal now ev l = Ok (row, l') -> in_occurrence_order l'.
Proof.
  intros Ho Hev. unfold append_with_keys_in_tx. intros (h & Hh & Heq)%rbind_ok.
  set (r := {| e_prev := _ |}) in Heq. apply (inj Ok) in Heq. injection Heq as <- <-.
  intros ws. rewrite ws_rows_append. destruct (in_ws ws r) eqn:Ews; [|rewrite app_nil_r; apply Ho].
  unfold in_ws in Ews. bool_simpl. subst ws. simpl in *. specialize (Ho (n_ws ev)). revert Ho Hev.
  generalize (ws_rows l (n_ws ev)). intros xs Ho.
  induction Ho as [|x xs Hxs IH Hx]; intros Hev; simpl; [repeat constructor|].
  constructor; [apply IH; intros y Hy; apply Hev; by right|].
  apply Forall_app. split; [done|]. constructor; [apply Hev; left|done].
Qed.

(** A batched delete keeps the log well formed and ordered, when its condition
    is one of position in a workspace ordered by occurrence. *)
Lemma delete_first_wf p n l :
  (forall ws a b, in_ws ws a = true -> in_ws ws b = true -> (e_id a < e_id b)%Z ->
     (e_occurred a <= e_occurred b)%Z -> p b = true -> p a = true) ->
  log_wf l -> in_occurrence_order l ->
  log_wf {| rows := delete_first p n (rows l); seq := seq l |} /\
  in_occurrence_order {| rows := delete_first p n (rows l); seq := seq l |}.
Proof.
  intros Hp [Hs Hseq Hids Hc] Ho.
  assert (forall ws, exists k, ws_rows {| rows := delete_first p n (rows l); seq := seq l |} ws
                               = drop k (ws_rows l ws)) as Hdrop.
  { intros ws. apply delete_first_prefix. fold (ws_rows l ws).
    assert (StronglySorted (fun a b => e_id a < e_id b)%Z (ws_rows l ws)) as Hid
      by (by apply StronglySorted_bfilter).
    assert (Forall (fun r => in_ws ws r = true) (ws_rows l ws)) as Hin
      by (apply Forall_forall; intros r [_ ?]%elem_of_bfilter; done).
    specialize (Ho ws). induction Hid as [|x xs Hxs IH Hx]; [constructor|].
    inversion Ho as [|? ? Ho' Hox]; subst. apply Forall_cons in Hin as [Hinx Hin].
    constructor; [by apply IH|]. rewrite Forall_forall in *. intros y Hy. by apply (Hp ws); auto. }
  split.
  - constructor; simpl.
    + by apply delete_first_sorted.
    + done.
    + rewrite Forall_forall in *. intros r Hr. by eapply Hids, delete_first_elem.
    + intros ws. destruct (Hdrop ws) as [k ->]. unfold pairs. rewrite fmap_drop.
      by apply linked_floor_drop.
  - intros ws. destruct (Hdrop ws) as [k ->]. specialize (Ho ws).
    rewrite <- (take_drop k (ws_rows l ws)) in Ho. by apply StronglySorted_app_1_r in Ho.
Qed.

Lemma log_step_wf l l' :
  log_step true l l' -> log_wf l /\ in_occurrence_order l -> log_wf l' /\ in_occurrence_order l'.
Proof.
  intros Hstep [Hwf Ho]. destruct Hstep as [seal now ev row l l' Hord Happ|holds cutoff max_id limit l|holds cursors ws0 cutoff limit l].
  - split; [by eapply append_wf|]. eapply append_occurrence; [done| |done]. by apply Hord.
  - apply delete_first_wf; [|done..]. unfold prunable, in_ws. intros ws a b Ha Hb Hid Hocc Hb'. bool_simpl.
    assert (e_ws a = e_ws b) as -> by congruence.
    rewrite !andb_true_iff, Z.leb_le, Z.ltb_lt. split; [split; lia|done].
  - apply delete_first_wf; [|done..]. unfold in_ws. intros ws a b Ha Hb Hid Hocc Hb'. bool_simpl.
    assert (e_ws a = Some ws0) as -> by congruence.
    rewrite !andb_true_iff, Z.leb_le, Z.ltb_lt. split; [split; [split|]|].
    + by apply (bool_decide_eq_true_2 _).
    + lia.
    + lia.
    + apply negb_true_iff. by apply (bool_decide_eq_false_2 _).
Qed.

Lemma ws_rows_all_after l ws :
  log_wf l -> List.filter (fun r => (0 <? e_id r)%Z) (ws_rows l ws) = ws_rows l ws.
Proof.
  intros [_ _ Hids _]. apply bfilter_all. intros r [Hr _]%elem_of_bfilter.
  rewrite Forall_forall in Hids. apply Z.ltb_lt. by apply Hids in Hr as [? _].
Qed.

(** The store's paged fold reports what the slice version would. *)
Lemma verify_chain_slice l ws :
  log_wf l ->
  verify_chain l ws
  = Some (EventChain.verify_chain (link <$> ws_rows l (Some ws)) (e_payload <$> ws_rows l (Some ws))).
Proof.
  intros Hwf. unfold verify_chain. pose proof (ws_rows_all_after l (Some ws) Hwf) as Hall.
  rewrite verify_pages_spec; [|apply Hwf|rewrite Hall; lia]. rewrite Hall. f_equal.
  assert (link <$> ws_rows l (Some ws) = (pairs (ws_rows l (Some ws))).*1) as ->
    by (unfold pairs; by rewrite <- list_fmap_compose).
  assert (e_payload <$> ws_rows l (Some ws) = (pairs (ws_rows l (Some ws))).*2) as ->
    by (unfold pairs; by rewrite <- list_fmap_compose).
  rewrite verify_chain_rows. by destruct (ws_rows l (Some ws)).
Qed.

(** The store's verification, which folds over pages of 256 rows and
    keeps one link, ends for every log and reports exactly what verifying the
    workspace's rows as one slice reports. *)
Theorem verify_chain_paged l ws :
  log_wf l ->
  verify_chain l ws
  = Some (EventChain.verify_chain (link <$> ws_rows l (Some ws)) (e_payload <$> ws_rows l (Some ws))).
Proof. apply verify_chain_slice. Qed.

Lemma log_wf_empty : log_wf empty_log.
Proof. split; [constructor|done|constructor|done]. Qed.

Lemma log_wf_verifies l ws :
  log_wf l ->
  exists report, verify_chain l ws = Some report /\ ok report = true /\
                 (head_link l ws = None \/ head report = head_link l ws).
Proof.
  intros Hwf. rewrite verify_chain_slice by done. eexists. split; [done|].
  pose proof (log_chained l Hwf (Some ws)) as Hc. unfold head_link.
  assert (link <$> ws_rows l (Some ws) = (pairs (ws_rows l (Some ws))).*1) as ->
    by (unfold pairs; by rewrite <- list_fmap_compose).
  assert (e_payload <$> ws_rows l (Some ws) = (pairs (ws_rows l (Some ws))).*2) as ->
    by (unfold pairs; by rewrite <- list_fmap_compose).
  split; [by apply verify_chain_linked_floor|].
  destruct (ws_rows l (Some ws)) as [|r rest]; [by left|right].
  rewrite verify_chain_rows. pose proof (push_all_new (link r, e_payload r) (pairs rest)) as Hp.
  change ((link r, e_payload r) :: pairs rest) with (pairs (r :: rest)) in *.
  destruct (pairs (r :: rest)) eqn:Ep; [done|]. rewrite <- Ep in *.
  destruct (push_all new (pairs (r :: rest))); [destruct Hp; done|]. destruct Hp as [_ ->].
  unfold finish, last_link, pairs. cbn [head v_previous]. rewrite fmap_last. by destruct (last (r :: rest)).
Qed.

(** An untouched log always verifies. Whatever the appends, of whatever
    workspaces, and the retention deletes between them, when events are
    appended in the order they occurred every workspace's chain verifies, up
    to the workspace's head. *)
Theorem log_always_verifies l ws :
  rtc (log_step true) empty_log l ->
  exists report, verify_chain l ws = Some report /\ ok report = true /\
                 (head_link l ws = None \/ head report = head_link l ws).
Proof.
  intros Hsteps. apply log_wf_verifies. apply (proj1 (B := in_occurrence_order l)).
  assert (log_wf empty_log /\ in_occurrence_order empty_log) as Hinit
    by (split; [apply log_wf_empty|intros ?; constructor]).
  revert Hinit. induction Hsteps as [|? ? ? Hs _ IH]; [done|]. eauto using log_step_wf.
Qed.

(** Three appends to one workspace, the second of an event that occurred
    before the first (as a federated event does, which keeps its origin's
    time). *)
Definition late_event (occurred : Z) (v : Value) : NewEvent :=
  {| n_kind := lit "message_posted"; n_ws := Some 1%N; n_channel := None; n_thread := None;
     n_occurred := occurred; n_value := v |}.
Definition append1 (occurred : Z) (v : Value) (l : Log) : Log :=
  match append_with_keys_in_tx (fun p => p) 0 (late_event occurred v) l with
  | Ok (_, l') => l'
  | Err _ => l
  end.
Definition late_log (v1 v2 v3 : Value) : Log :=
  append1 20 v3 (append1 5 v2 (append1 10 v1 empty_log)).

Lemma append1_spec occurred v l :
  exists row, append_with_keys_in_tx (fun p => p) 0 (late_event occurred v) l
              = Ok (row, append1 occurred v l).
Proof. by eexists. Qed.

Lemma append1_step occurred v l : log_step false l (append1 occurred v l).
Proof. destruct (append1_spec occurred v l) as [row Hrow]. by eapply step_append. Qed.

Lemma append1_wf occurred v l : log_wf l -> log_wf (append1 occurred v l).
Proof. intros Hwf. destruct (append1_spec occurred v l) as [row Hrow]. by eapply append_wf. Qed.

Lemma gap_breaks_link (a b c : EventRow) :
  log_wf {| rows := [a; b; c]; seq := 3 |} -> e_ws a = Some 1%N -> e_ws b = Some 1%N -> e_ws c = Some 1%N ->
  e_prev a = genesis_hash -> no_collision (preimages (pairs [a; b; c])) ->
  verify_link (link c) (e_payload c) (Some (link a)) false = Err PrevHashMismatch.
Proof.
  intros [Hs _ _ Hc] Ha Hb Hcw Hg Hn. specialize (Hc (Some 1%N)). unfold ws_rows in Hc. simpl in Hc.
  unfold in_ws in Hc. rewrite Ha, Hb, Hcw in Hc. simpl in Hc. destruct Hc as [Hrow_a Hl].
  inversion Hl as [|? ? ? Hrow_b Hab Hpb Hl']; subst. inversion Hl' as [|? ? ? Hrow_c Hbc Hpc _]; subst.
  pose proof (row_prev_wf _ Hrow_c) as W1. pose proof (row_content_wf _ Hrow_c) as W2.
  cbn [fst] in W1, W2. unfold verify_link. rewrite W1, W2. cbn [negb orb].
  simpl in Hab, Hbc. rewrite (proj2 (Z.leb_gt _ _)) by (simpl; lia). simpl in Hpc, Hpb.
  rewrite bool_decide_eq_false_2; [done|]. simpl. rewrite Hpc. intros Heq.
  apply encode_digest_inj, Hn in Heq; [|unfold preimages; simpl; set_solver..].
  pose proof (row_content_digest _ Hrow_a) as Da. pose proof (row_content_digest _ Hrow_b) as Db.
  simpl in Da, Db. apply chain_preimage_inj in Heq as (_ & _ & Hid); [lia|..].
  - rewrite Hpb. apply encode_digest_text.
  - rewrite Hg. apply encode_digest_text.
  - rewrite Db. apply encode_digest_text.
  - rewrite Da. apply encode_digest_text.
Qed.

(** Retention can break a chain nobody touched. The deletes choose rows
    by when their events occurred, not by position, so an event that was
    appended after one that occurred later is deleted first: the log then has
    a hole, and verification reports a [PrevHashMismatch] at the row after
    it, unless SHA-256 collides on the log's own inputs. *)
Theorem retention_can_break_chain v1 v2 v3 :
  let pruned := prune_events [] 7 I64_MAX 100 (late_log v1 v2 v3) in
  no_collision (preimages (pairs (rows (late_log v1 v2 v3)))) ->
  rtc (log_step false) empty_log pruned /\
  exists report, verify_chain pruned 1 = Some report /\ ok report = false /\
                 break_at report = Some 3%Z /\ reason report = Some PrevHashMismatch.
Proof.
  intros pruned Hn. split.
  - eapply rtc_l; [apply append1_step|]. eapply rtc_l; [apply append1_step|].
    eapply rtc_l; [apply append1_step|]. eapply rtc_l; [apply step_prune|]. apply rtc_refl.
  - pose proof (append1_wf 20 v3 _ (append1_wf 5 v2 _ (append1_wf 10 v1 _ log_wf_empty))) as Hwf.
    fold (late_log v1 v2 v3) in Hwf.
    destruct (rows (late_log v1 v2 v3)) as [|a [|b [|c [|]]]] eqn:Er; try discriminate Er.
    assert (e_ws a = Some 1%N /\ e_ws b = Some 1%N /\ e_ws c = Some 1%N /\ e_prev a = genesis_hash /\ e_id c = 3%Z
            /\ rows pruned = [a; c] /\ e_id a = 1%Z) as (Ha & Hb & Hc & Hg & Hid & Hp & Hida).
    { unfold pruned, prune_events. cbn [rows]. rewrite Er.
      unfold late_log in Er. injection Er as <- <- <-. done. }
    assert (log_wf {| rows := [a; b; c]; seq := 3 |}) as Hwf3.
    { rewrite <- Er. exact Hwf. }
    pose proof (gap_breaks_link a b c Hwf3 Ha Hb Hc Hg Hn) as Hgap.
    pose proof (log_chained _ Hwf3 (Some 1%N)) as Hch. unfold ws_rows in Hch. simpl in Hch.
    unfold in_ws in Hch. rewrite Ha, Hb, Hc in Hch. simpl in Hch. destruct Hch as [Hrow _].
    assert (ws_rows pruned (Some 1%N) = [a; c]) as Hws.
    { unfold ws_rows. rewrite Hp. simpl. unfold in_ws. by rewrite Ha, Hc. }
    unfold verify_chain. rewrite verify_pages_spec, Hws.
    2:{ rewrite Hp. repeat constructor; lia. }
    2:{ rewrite Hws. simpl. rewrite Hida, Hid. simpl. lia. }
    simpl. rewrite Hida, Hid. simpl. unfold push. simpl.
    rewrite (proj2 (verify_link_ok _ _ _ _)); [|split; [exact Hrow|split; [done|intros _; exact Hg]]].
    simpl. rewrite andb_false_r, Hgap. simpl. eexists.
    split_and!; [reflexivity|reflexivity|simpl; by rewrite Hid|reflexivity].
Qed.
End steps.

(** ** Witnesses *)

Module SampleLog.
Definition v (n : Z) : Value := Object [(lit "n", Num (Int n))].
Definition two : Log := append1 20 (v 2) (append1 10 (v 1) empty_log).
End SampleLog.

Lemma verify_chain_paged_witness :
  verify_chain SampleLog.two 1
  = Some (EventChain.verify_chain (link <$> ws_rows SampleLog.two (Some 1%N))
                                  (e_payload <$> ws_rows SampleLog.two (Some 1%N))).
Proof. apply verify_chain_paged. apply append1_wf, append1_wf, log_wf_empty. Defined.

Lemma log_always_verifies_witness :
  exists report, verify_chain (prune_events [] 15 I64_MAX 100 SampleLog.two) 1 = Some report /\ ok report = true.
Proof.
  destruct (log_always_verifies (prune_events [] 15 I64_MAX 100 SampleLog.two) 1) as (report & Hv & Hok & _);
    [|exact (ex_intro _ report (conj Hv Hok))].
  destruct (append1_spec 10 (SampleLog.v 1) empty_log) as [r1 H1].
  destruct (append1_spec 20 (SampleLog.v 2) (append1 10 (SampleLog.v 1) empty_log)) as [r2 H2].
  eapply rtc_l; [eapply step_append; [|exact H1]; intros _; apply Forall_forall; constructor|].
  eapply rtc_l; [eapply step_append; [|exact H2]; intros _; apply Forall_forall|].
  - vm_compute. constructor; [intros ?; discriminate|constructor].
  - eapply rtc_l; [apply step_prune|]. apply rtc_refl.
Defined.

Lemma retention_can_break_chain_witness :
  exists report,
    verify_chain (prune_events [] 7 I64_MAX 100 (late_log (SampleLog.v 1) (SampleLog.v 2) (SampleLog.v 3))) 1
    = Some report /\ ok report = false.
Proof.
  destruct (retention_can_break_chain (SampleLog.v 1) (SampleLog.v 2) (SampleLog.v 3))
    as (_ & report & Hv & Hok & _); [|exact (ex_intro _ report (conj Hv Hok))].
  apply SampleSha.no_collision_eval. vm_compute. reflexivity.
Defined.
