(* ===== verification/Review.v ===== *)
(** * Reviews, land gates and evidence: the rules

    The pure half of the close gates. [crates/maidan-types/src/review.rs]: a
    reviewer's decision, the review-round cap and the evidence a thread hands to
    its reviewers; [crates/maidan-types/src/land_gate.rs]: the land-gate pointer
    and its standing; [crates/maidan-store/src/attestation.rs]: how far each
    piece of evidence is trusted; and from [crates/maidan-types/src/waiter.rs]
    the change request a critical finding becomes. *)

From stdpp Require Import strings.
From S2P Require Import Prelude Text Json EventChain.

(** ** Identifiers and values as text *)

(** The 16 bytes of an identifier, first byte first, and [Uuid]'s hyphenated
    form of them. *)
Fixpoint be_bytes (k : nat) (n : N) : list N :=
  match k with
  | O => []
  | S k => N.land (N.shiftr n (8 * N.of_nat k)) 255 :: be_bytes k n
  end.
Definition uuid_text (n : N) : str :=
  let h := hex_encode (be_bytes 16 n) in
  take 8 h ++ lit "-" ++ take 4 (drop 8 h) ++ lit "-" ++ take 4 (drop 12 h) ++ lit "-"
  ++ take 4 (drop 16 h) ++ lit "-" ++ drop 20 h.

(** [Value::get], [as_str] and [as_array]. *)
Definition value_get (k : str) (v : Value) : option Value :=
  match v with Object m => snd <$> List.find (fun e => bool_decide (e.1 = k)) m | _ => None end.
Definition as_str_value (v : Value) : option str := match v with Str s => Some s | _ => None end.
Definition as_array (v : Value) : option (list Value) := match v with Array l => Some l | _ => None end.

(** ** Decisions and the review-round cap ([review.rs]) *)

Inductive ReviewDecision := Approve | RequestChangesDecision.
Global Instance ReviewDecision_eq_dec : EqDecision ReviewDecision.
Proof. solve_decision. Defined.

Definition REVIEW_SKILL : str := lit "review".
Definition DEFAULT_MAX_REVIEW_ROUNDS : Z := 3.
Definition REVIEW_ROUND_HELD_REASON : str :=
  lit "A person declined another round of review, so this task stays off the queue.".

Definition max_rounds_loosens (current next : Z) : bool :=
  ((next =? 0) && negb (current =? 0) || (0 <? current) && (current <? next))%Z.

Definition truncate_chars (s : str) (max : nat) : str :=
  if length s <=? max then s else take max s ++ [8230%N].

Definition review_round_cap_prompt (send_backs : Z) (note : option str) : str :=
  let rest := lit "Accept to return this task to the queue for another round, or decline to keep it off the queue." in
  match (n ← note; if decide (trim n = []) then None else Some (trim n)) with
  | Some note =>
      lit "Sent back " ++ print_int send_backs ++ lit " times in review (latest note: "
      ++ truncate_chars note 160 ++ lit "). " ++ rest
  | None => lit "Sent back " ++ print_int send_backs ++ lit " times in review. " ++ rest
  end.

(** ** The land gate ([land_gate.rs]) *)

Definition LAND_GATE_SKILL : str := lit "land_gate".

Inductive LandGateStatus := Pass | Fail_.
Inductive LandColor := Green | Amber | Red.
Global Instance LandGateStatus_eq_dec : EqDecision LandGateStatus.
Proof. solve_decision. Defined.
Global Instance LandColor_eq_dec : EqDecision LandColor.
Proof. solve_decision. Defined.

Definition land_status_as_str (s : LandGateStatus) : string := match s with Pass => "pass" | Fail_ => "fail" end.
Definition land_status_parse (s : string) : option LandGateStatus :=
  if String.eqb s "pass" then Some Pass else if String.eqb s "fail" then Some Fail_ else None.
Definition land_color_as_str (c : LandColor) : string :=
  match c with Green => "green" | Amber => "amber" | Red => "red" end.
Definition land_color_parse (s : string) : option LandColor :=
  if String.eqb s "green" then Some Green
  else if String.eqb s "amber" then Some Amber
  else if String.eqb s "red" then Some Red else None.

Record LandGatePointer := { lp_status : LandGateStatus; lp_artifact_sha : option str; lp_land : LandColor }.

Record RecordedLandGate := { rl_pointer : LandGatePointer; rl_by : N; rl_at : Z }.

Record LandGateStanding := {
  ls_required : bool;
  ls_pointer : option LandGatePointer;
  ls_recorded_by : option N;
  ls_recorded_at : option Z;
  ls_land : LandColor;
  ls_landable : bool
}.

Definition resolve_land (status : LandGateStatus) (requested : option LandColor) : LandColor :=
  match status with
  | Fail_ => Red
  | Pass => match requested with
            | Some Amber => Amber
            | Some Red => Red
            | Some Green | None => Green
            end
  end.

Definition is_qualifying_pass (status : LandGateStatus) (land : LandColor) (recorded_by : N)
    (owner assignee : option N) (recorder_worked recorder_has_skill : bool) : bool :=
  bool_decide (status = Pass) && bool_decide (land = Green) && recorder_has_skill
  && negb (bool_decide (owner = Some recorded_by)) && negb (bool_decide (assignee = Some recorded_by))
  && negb recorder_worked.

Definition standing_land (pointer : option LandGatePointer) (recorded_by owner assignee : option N)
    (recorder_worked recorder_has_skill required : bool) : LandColor :=
  if negb required then Green else
  match pointer with
  | None => Red
  | Some p =>
      match recorded_by with
      | None => Red
      | Some by_ =>
          if is_qualifying_pass (lp_status p) (lp_land p) by_ owner assignee recorder_worked recorder_has_skill
          then Green
          else if bool_decide (lp_status p = Pass) && bool_decide (lp_land p = Amber) && recorder_has_skill
                  && negb (bool_decide (owner = Some by_)) && negb (bool_decide (assignee = Some by_))
                  && negb recorder_worked
          then Amber else Red
      end
  end.

Definition land_gate_standing (required : bool) (recorded : option RecordedLandGate) (owner assignee : option N)
    (recorder_worked recorder_has_skill : bool) : LandGateStanding :=
  let pointer := rl_pointer <$> recorded in
  let recorded_by := rl_by <$> recorded in
  let land := standing_land pointer recorded_by owner assignee recorder_worked recorder_has_skill required in
  {| ls_required := required; ls_pointer := pointer; ls_recorded_by := recorded_by;
     ls_recorded_at := rl_at <$> recorded; ls_land := land; ls_landable := bool_decide (land = Green) |}.

(** ** Evidence ([review.rs]) *)

Inductive AttestationTier := Verified | Attached | SelfReported.
Inductive EvidenceKind := KindResult | KindArtifact | KindLandGate.
Global Instance AttestationTier_eq_dec : EqDecision AttestationTier.
Proof. solve_decision. Defined.
Global Instance EvidenceKind_eq_dec : EqDecision EvidenceKind.
Proof. solve_decision. Defined.

Record ResultEvidence := { re_sha256 : str; re_produced_by : N }.
Record EvidenceAttestation := {
  ea_kind : EvidenceKind; ea_sha256 : option str; ea_tier : AttestationTier; ea_by : N
}.
Record EvidenceManifest := {
  em_thread : N;
  em_result : option ResultEvidence;
  em_artifacts : list str;
  em_attestations : list EvidenceAttestation
}.
Global Instance ResultEvidence_eq_dec : EqDecision ResultEvidence.
Proof. solve_decision. Defined.

Definition tier_as_str (t : AttestationTier) : str :=
  match t with
  | Verified => lit "verified"
  | Attached => lit "attached"
  | SelfReported => lit "self_reported"
  end.
(** [#[serde(rename_all = "snake_case")]]. *)
Definition evidence_kind_str (k : EvidenceKind) : str :=
  match k with KindResult => lit "result" | KindArtifact => lit "artifact" | KindLandGate => lit "land_gate" end.

(** [serde_json::to_value] of a manifest. *)
Definition result_value (r : option ResultEvidence) : Value :=
  match r with
  | None => Null
  | Some r => Object [(lit "sha256", Str (re_sha256 r)); (lit "produced_by", Str (uuid_text (re_produced_by r)))]
  end.
Definition attestation_value_of (a : EvidenceAttestation) : Value :=
  Object ((lit "kind", Str (evidence_kind_str (ea_kind a)))
          :: match ea_sha256 a with None => [] | Some s => [(lit "sha256", Str s)] end
          ++ [(lit "tier", Str (tier_as_str (ea_tier a))); (lit "attested_by", Str (uuid_text (ea_by a)))]).
Definition manifest_value (m : EvidenceManifest) : Value :=
  Object ([(lit "thread_id", Str (uuid_text (em_thread m))); (lit "result", result_value (em_result m));
           (lit "artifacts", Array (Str <$> em_artifacts m))]
          ++ match em_attestations m with
             | [] => []
             | l => [(lit "attestations", Array (attestation_value_of <$> l))]
             end).

Section hashed.
Context `{JsonText, Sha256}.

Definition sha256_hex (bytes : list N) : str := hex_encode (digest bytes).

(** [EvidenceManifest::root] and [result_sha256]. *)
Definition root (m : EvidenceManifest) : result SignedExportError str :=
  (let*? bytes := canonical_json (manifest_value m) in Ok (sha256_hex bytes))%res.
Definition result_sha256 (v : Value) : result SignedExportError str :=
  (let*? bytes := canonical_json v in Ok (sha256_hex bytes))%res.
End hashed.

Definition same_evidence (a b : EvidenceManifest) : bool :=
  bool_decide (em_thread a = em_thread b) && bool_decide (em_result a = em_result b)
  && bool_decide (em_artifacts a = em_artifacts b).

Definition self_reported_only (l : list EvidenceAttestation) : bool :=
  match l with [] => false | _ => true end
  && forallb (fun a => bool_decide (ea_tier a = SelfReported)) l.

(** ** Attestation tiers ([attestation.rs]) *)

Record Author := { by_member : N; by_actor : option N; by_unknown : bool }.

Definition author_is_worker (workers : gset N) (a : Author) : bool :=
  by_unknown a || bool_decide (by_member a ∈ workers)
  || match by_actor a with Some x => bool_decide (x ∈ workers) | None => false end.
Definition author_tier (workers : gset N) (a : Author) : AttestationTier :=
  if author_is_worker workers a then SelfReported else Attached.

Record RecordedPass := {
  rp_status : LandGateStatus;
  rp_land : LandColor;
  rp_by : N;
  rp_artifact_sha : option str;
  rp_owner : option N;
  rp_assignee : option N;
  rp_worked : bool;
  rp_skilled : bool
}.
Definition qualifies (p : RecordedPass) : bool :=
  is_qualifying_pass (rp_status p) (rp_land p) (rp_by p) (rp_owner p) (rp_assignee p) (rp_worked p) (rp_skilled p).

Inductive GateReading := Unarmed | PendingPass | Recorded (p : RecordedPass).

Definition attest (m : EvidenceManifest) (result_author : option Author) (link_authors : list (str * Author))
    (workers : gset N) (gate : GateReading) : list EvidenceAttestation :=
  match em_result m, result_author with
  | Some r, Some a =>
      [{| ea_kind := KindResult; ea_sha256 := Some (re_sha256 r); ea_tier := author_tier workers a;
          ea_by := by_member a |}]
  | _, _ => []
  end
  ++ (em_artifacts m ≫= fun sha =>
        match List.find (fun e => bool_decide (e.1 = sha)) link_authors with
        | Some (_, a) =>
            [{| ea_kind := KindArtifact; ea_sha256 := Some sha; ea_tier := author_tier workers a;
                ea_by := by_member a |}]
        | None => []
        end)
  ++ match gate with
     | Recorded p =>
         if qualifies p
         then [{| ea_kind := KindLandGate; ea_sha256 := rp_artifact_sha p; ea_tier := Verified; ea_by := rp_by p |}]
         else []
     | _ => []
     end.

(** ** A critical finding asks for changes ([waiter.rs]) *)

Definition WAITER_RESULT_SCHEMA : str := lit "maidan.waiter.result/1".
Definition EXAMPLE_REVIEW_RESULT_KIND : str := lit "example.review.result/1".
Definition CRITICAL_REVIEW_NOTE : str := lit "critical finding in example.review.result/1".

Definition waiter_schema_matches (obj : Value) : bool :=
  match value_get (lit "schema") obj ≫= as_str_value, value_get (lit "$type") obj ≫= as_str_value with
  | Some s, Some t => bool_decide (s = WAITER_RESULT_SCHEMA) && bool_decide (t = WAITER_RESULT_SCHEMA)
  | Some s, None => bool_decide (s = WAITER_RESULT_SCHEMA)
  | None, Some t => bool_decide (t = WAITER_RESULT_SCHEMA)
  | None, None => false
  end.

(** [parse_waiter_result], to the two fields the review decision reads; the
    others never make it [None]. *)
Definition parse_waiter_result (value : Value) : option (str * str) :=
  match value with
  | Object _ =>
      if waiter_schema_matches value then
        kind ← (value_get (lit "result_kind") value ≫= as_str_value);
        status ← (value_get (lit "status") value ≫= as_str_value);
        Some (kind, status)
      else None
  | _ => None
  end.

Definition findings_contain_critical (value : Value) : bool :=
  match value_get (lit "findings") value ≫= as_array with
  | Some entries =>
      existsb (fun e => bool_decide ((value_get (lit "severity") e ≫= as_str_value) = Some (lit "critical"))) entries
  | None => false
  end.

Definition review_decision_from_waiter (value : Value) : option ReviewDecision :=
  match parse_waiter_result value with
  | Some (kind, status) =>
      if negb (bool_decide (kind = EXAMPLE_REVIEW_RESULT_KIND)) || negb (bool_decide (status = lit "reviewed"))
      then None
      else if findings_contain_critical value then Some RequestChangesDecision else None
  | None => None
  end.

(** ** Lemmas *)

Lemma length_be_bytes k n : length (be_bytes k n) = k.
Proof. induction k as [|k IH]; [done|]. cbn. by rewrite IH. Qed.

Lemma be_byte k n : N.land (N.shiftr n (8 * N.of_nat k)) 255 = ((n / 2 ^ (8 * N.of_nat k)) mod 256)%N.
Proof. rewrite N.shiftr_div_pow2. by change 255%N with (N.ones 8); rewrite N.land_ones. Qed.

Lemma be_bytes_mod k n n' : be_bytes k n = be_bytes k n' -> (n mod 2 ^ (8 * N.of_nat k) = n' mod 2 ^ (8 * N.of_nat k))%N.
Proof.
  induction k as [|k IH]; [by rewrite !N.mod_1_r|]. cbn [be_bytes]. rewrite !be_byte. intros [= Hb Hr%IH].
  replace (8 * N.of_nat (S k))%N with (8 * N.of_nat k + 8)%N by lia. rewrite N.pow_add_r.
  rewrite !N.Div0.mod_mul_r. change (2 ^ 8)%N with 256%N. by rewrite Hb, Hr.
Qed.

Lemma be_bytes_inj k n n' :
  (n < 2 ^ (8 * N.of_nat k))%N -> (n' < 2 ^ (8 * N.of_nat k))%N -> be_bytes k n = be_bytes k n' -> n = n'.
Proof. intros Hn Hn' Hb%be_bytes_mod. by rewrite !N.mod_small in Hb. Qed.

Section digests.
Context `{!Sha256, !Sha256Laws}.

Lemma digest_nonempty b : digest b <> [].
Proof. intros E. pose proof (digest_length b) as Hl. by rewrite E in Hl. Qed.

Lemma sha256_hex_inj x y : no_collision [x; y] -> sha256_hex x = sha256_hex y -> x = y.
Proof.
  intros Hn Heq%(f_equal hex_decode). unfold sha256_hex in Heq.
  rewrite !decode_hex_encode in Heq by (apply digest_bytes || apply digest_nonempty).
  apply Hn; [set_solver..|]. by injection Heq.
Qed.
End digests.

(** The hyphenated form determines the identifier. *)
Lemma hyphenated_inj (h h' : str) :
  length h = 32 -> length h' = 32 ->
  take 8 h ++ lit "-" ++ take 4 (drop 8 h) ++ lit "-" ++ take 4 (drop 12 h) ++ lit "-" ++ take 4 (drop 16 h) ++ lit "-" ++ drop 20 h
  = take 8 h' ++ lit "-" ++ take 4 (drop 8 h') ++ lit "-" ++ take 4 (drop 12 h') ++ lit "-" ++ take 4 (drop 16 h') ++ lit "-" ++ drop 20 h' ->
  h = h'.
Proof.
  intros Hl Hl' Heq.
  do 4 (apply app_inj_1 in Heq as [? Heq]; [|rewrite !length_take, ?length_drop; lia];
        apply app_inj_1 in Heq as [_ Heq]; [|done]).
  rewrite <- (take_drop 8 h), <- (take_drop 8 h'). f_equal; [done|].
  rewrite <- (take_drop 4 (drop 8 h)), <- (take_drop 4 (drop 8 h')), !drop_drop. f_equal; [done|].
  rewrite <- (take_drop 4 (drop (8 + 4) h)), <- (take_drop 4 (drop (8 + 4) h')), !drop_drop. f_equal; [done|].
  rewrite <- (take_drop 4 (drop (8 + 4 + 4) h)), <- (take_drop 4 (drop (8 + 4 + 4) h')), !drop_drop. by f_equal.
Qed.

Lemma be_bytes_small k n : Forall (fun b => (b < 256)%N) (be_bytes k n).
Proof. induction k as [|k IH]; constructor; [|done]. rewrite be_byte. by apply N.mod_lt. Qed.

Lemma uuid_text_inj n n' : (n < 2 ^ 128)%N -> (n' < 2 ^ 128)%N -> uuid_text n = uuid_text n' -> n = n'.
Proof.
  intros Hn Hn' Heq. unfold uuid_text in Heq.
  assert (forall m, length (hex_encode (be_bytes 16 m)) = 32) as Hl by (intros m; by rewrite hex_encode_length, length_be_bytes).
  apply hyphenated_inj in Heq; [|done..]. apply (f_equal hex_decode) in Heq.
  rewrite !decode_hex_encode in Heq by (done || apply be_bytes_small). apply (inj Ok) in Heq. by apply (be_bytes_inj 16) in Heq.
Qed.
