(* ===== verification/Usage.v ===== *)
(** * Model usage: quantities, prices and reports

    [crates/maidan-types/src/usage_ledger.rs] and [usage_meter.rs], with the
    row charge of [crates/maidan-store/src/usage_sql.rs]: what a report counts
    and costs, the checks it passes, the normalization of provider telemetry,
    and the rollups and meters computed from what was accepted. Counts are
    [i64]; where the source checks for overflow the definitions do. *)

From stdpp Require Import strings.
From S2P Require Import Prelude Text Json EventChain Review.
Local Open Scope Z_scope.

(** ** Checked arithmetic *)

Definition in_i64 (z : Z) : bool := (I64_MIN <=? z) && (z <=? I64_MAX).
Definition I128_MAX : Z := 2 ^ 127 - 1.
Definition in_i128 (z : Z) : bool := (- 2 ^ 127 <=? z) && (z <=? I128_MAX).

(** [i64::checked_add], [checked_sub]. *)
Definition checked (z : Z) : option Z := if in_i64 z then Some z else None.
Definition checked_add (a b : Z) : option Z := checked (a + b).
Definition checked_sub (a b : Z) : option Z := checked (a - b).

(** [try_fold(0, i64::checked_add)]. *)
Definition checked_sum (l : list Z) : option Z := foldl (fun acc z => acc ≫= fun a => checked_add a z) (Some 0) l.

(** What a refusal says. *)
Inductive UsageError :=
| NegativeTokens
| TokenOverflow
| NegativeRate
| PriceOverflow
| ChargeOverflow
| BadField (name : string) (max : nat)
| LongField (max : nat)
| TooManyPacks
| BadPack
| NotInLane
| BadModel
| NegativeTurns
| NegativeUsd
| UsdMismatch (actual computed : Z)
| StandardPrice (e : UsageError)
| StandardBelow (at_standard actual : Z)
| BothScopes
| NegativeCompleted
| SavedOverflow
| LaneSavedOverflow
| LaneInconsistent
| RateOverflow
| SeatLimit
| SeatWindow
| SeatRows
| SeatOverflow
| NoModel
| NotAString (key : string)
| NotAnInteger (key : string)
| NegativeAttr (key : string)
| InputBelowTiers
| BadCacheDetails
| BadTtl
| BadPackList.

Definition or_err {E A} (o : option A) (e : E) : result E A := match o with Some a => Ok a | None => Err e end.

Local Open Scope result_scope.

(** ** Tokens and prices *)

Record TokenUsage := { tu_input : Z; tu_output : Z; tu_cache_read : Z; tu_write_5m : Z; tu_write_1h : Z }.
Global Instance TokenUsage_eq_dec : EqDecision TokenUsage.
Proof. solve_decision. Defined.
Definition no_tokens : TokenUsage :=
  {| tu_input := 0; tu_output := 0; tu_cache_read := 0; tu_write_5m := 0; tu_write_1h := 0 |}.

Definition quantities (t : TokenUsage) : list Z :=
  [tu_input t; tu_output t; tu_cache_read t; tu_write_5m t; tu_write_1h t].

Definition tokens_checked (t : TokenUsage) : result UsageError unit :=
  if existsb (fun v => v <? 0) (quantities t) then Err NegativeTokens else Ok tt.

Definition fresh (t : TokenUsage) : result UsageError Z :=
  let*? _ := tokens_checked t in
  or_err (checked_sum [tu_input t; tu_output t; tu_write_5m t; tu_write_1h t]) TokenOverflow.

Definition prompt (t : TokenUsage) : result UsageError Z :=
  let*? _ := tokens_checked t in
  or_err (checked_sum [tu_input t; tu_cache_read t; tu_write_5m t; tu_write_1h t]) TokenOverflow.

Record PriceSnapshot := { ps_input : Z; ps_output : Z; ps_cache_read : Z; ps_write_5m : Z; ps_write_1h : Z }.
Global Instance PriceSnapshot_eq_dec : EqDecision PriceSnapshot.
Proof. solve_decision. Defined.
Definition rates (p : PriceSnapshot) : list Z :=
  [ps_input p; ps_output p; ps_cache_read p; ps_write_5m p; ps_write_1h p].

(** The products and their sum are checked in [i128]; the division truncates. *)
Definition charge (qs rs : list Z) : result UsageError Z :=
  let*? numerator := or_err (foldl (fun acc qr =>
                               acc ≫= fun total =>
                               if in_i128 (qr.1 * qr.2) && in_i128 (total + qr.1 * qr.2)
                               then Some (total + qr.1 * qr.2) else None) (Some 0) (zip qs rs)) PriceOverflow in
  let*? padded := or_err (if in_i128 (numerator + 999999) then Some (numerator + 999999) else None) PriceOverflow in
  or_err (checked (Z.quot padded 1000000)) ChargeOverflow.

Definition charge_usd_micros (p : PriceSnapshot) (t : TokenUsage) : result UsageError Z :=
  if existsb (fun r => r <? 0) (rates p) then Err NegativeRate
  else
    let*? _ := tokens_checked t in
    charge (quantities t) (rates p).

Definition uncached_charge_usd_micros (p : PriceSnapshot) (t : TokenUsage) : result UsageError Z :=
  let*? input := prompt t in
  charge_usd_micros p {| tu_input := input; tu_output := tu_output t; tu_cache_read := 0; tu_write_5m := 0; tu_write_1h := 0 |}.

(** ** Evidence *)

Record UsageEvidence := {
  ev_provider : option str; ev_service_tier : option str; ev_batch : bool; ev_harness : option str;
  ev_harness_version : option str; ev_effort : option str; ev_cache_key : option str;
  ev_cache_miss_reason : option str; ev_packs : list str; ev_standard_price : option PriceSnapshot
}.
Global Instance UsageEvidence_eq_dec : EqDecision UsageEvidence.
Proof. solve_decision. Defined.
Definition no_evidence : UsageEvidence :=
  {| ev_provider := None; ev_service_tier := None; ev_batch := false; ev_harness := None; ev_harness_version := None;
     ev_effort := None; ev_cache_key := None; ev_cache_miss_reason := None; ev_packs := []; ev_standard_price := None |}.

Definition check_len (name : string) (value : option str) (max : nat) : result UsageError unit :=
  match value with
  | Some text => if (max <? byte_len text)%nat || bool_decide (trim text = []) then Err (BadField name max) else Ok tt
  | None => Ok tt
  end.

Definition lane_tier (tier : str) : bool := bool_decide (tier = lit "batch") || bool_decide (tier = lit "flex").
Definition in_lane (e : UsageEvidence) : bool :=
  ev_batch e || match ev_service_tier e with
                | Some tier => lane_tier (to_ascii_lowercase (trim tier))
                | None => false
                end.

Definition evidence_validate (e : UsageEvidence) : result UsageError unit :=
  let*? _ := check_len "provider" (ev_provider e) 64 in
  let*? _ := check_len "service_tier" (ev_service_tier e) 64 in
  let*? _ := check_len "harness" (ev_harness e) 64 in
  let*? _ := check_len "harness_version" (ev_harness_version e) 64 in
  let*? _ := check_len "effort" (ev_effort e) 32 in
  let*? _ := check_len "cache_key" (ev_cache_key e) 256 in
  let*? _ := check_len "cache_miss_reason" (ev_cache_miss_reason e) 512 in
  if (32 <? length (ev_packs e))%nat then Err TooManyPacks
  else if existsb (fun sha => negb (byte_len sha =? 64)%nat || negb (forallb is_ascii_hexdigit sha)) (ev_packs e)
  then Err BadPack
  else
    match ev_standard_price e with
    | Some standard =>
        if negb (in_lane e) then Err NotInLane
        else let*? _ := charge_usd_micros standard no_tokens in Ok tt
    | None => Ok tt
    end.

(** An explicit field wins. *)
Definition overlay (explicit e : UsageEvidence) : UsageEvidence :=
  let pick {A} (x y : option A) := match x with Some _ => x | None => y end in
  {| ev_provider := pick (ev_provider explicit) (ev_provider e);
     ev_service_tier := pick (ev_service_tier explicit) (ev_service_tier e);
     ev_batch := ev_batch explicit || ev_batch e;
     ev_harness := pick (ev_harness explicit) (ev_harness e);
     ev_harness_version := pick (ev_harness_version explicit) (ev_harness_version e);
     ev_effort := pick (ev_effort explicit) (ev_effort e);
     ev_cache_key := pick (ev_cache_key explicit) (ev_cache_key e);
     ev_cache_miss_reason := pick (ev_cache_miss_reason explicit) (ev_cache_miss_reason e);
     ev_packs := match ev_packs explicit with [] => ev_packs e | packs => packs end;
     ev_standard_price := pick (ev_standard_price explicit) (ev_standard_price e) |}.

Definition tidy (value : option str) (max : nat) : result UsageError (option str) :=
  match value with
  | None => Ok None
  | Some value =>
      let trimmed := trim value in
      if decide (trimmed = []) then Ok None
      else if (max <? byte_len trimmed)%nat then Err (LongField max) else Ok (Some trimmed)
  end.

(** ** A report *)

Record NewUsageLedgerEntry := {
  nu_report : N; nu_thread : N; nu_reporter : N; nu_lease : N; nu_model : str; nu_tokens : TokenUsage;
  nu_usd_micros : Z; nu_prices : PriceSnapshot; nu_turns : Z; nu_evidence : UsageEvidence
}.

Definition usage_validate (new : NewUsageLedgerEntry) : result UsageError unit :=
  let model := trim (nu_model new) in
  if bool_decide (model = []) || (255 <? byte_len model)%nat then Err BadModel
  else if nu_turns new <? 0 then Err NegativeTurns
  else if nu_usd_micros new <? 0 then Err NegativeUsd
  else
    let*? _ := evidence_validate (nu_evidence new) in
    let*? computed := charge_usd_micros (nu_prices new) (nu_tokens new) in
    if negb (computed =? nu_usd_micros new) then Err (UsdMismatch (nu_usd_micros new) computed)
    else
      match ev_standard_price (nu_evidence new) with
      | Some standard =>
          match charge_usd_micros standard (nu_tokens new) with
          | Err e => Err (StandardPrice e)
          | Ok at_standard =>
              if at_standard <? nu_usd_micros new then Err (StandardBelow at_standard (nu_usd_micros new)) else Ok tt
          end
      | None => Ok tt
      end.

Record PayerStamp := {
  py_payer : N; py_reporter : N; py_lease : N; py_model : str; py_tokens : TokenUsage; py_usd_micros : Z;
  py_prices : PriceSnapshot
}.

(** ** The charge of a row in SQL ([usage_sql.rs])

    [None] when an intermediate value leaves the 64-bit integers, where SQLite
    goes on in floating point. *)

Definition int_op (f : Z -> Z -> Z) (a b : option Z) : option Z :=
  match a, b with Some a, Some b => checked (f a b) | _, _ => None end.
Definition M : Z := 1000000.

(** The term of one pair: quantity times whole part, and the millions of the
    quantity times the remainder. *)
Definition whole_terms (qr : Z * Z) : list (option Z) :=
  [int_op Z.mul (Some qr.1) (Some (Z.quot qr.2 M)); int_op Z.mul (Some (Z.quot qr.1 M)) (Some (Z.rem qr.2 M))].
Definition rest_term (qr : Z * Z) : option Z := int_op Z.mul (Some (Z.rem qr.1 M)) (Some (Z.rem qr.2 M)).
(** A chain of [+], from the left. *)
Definition sql_plus (l : list (option Z)) : option Z :=
  match l with [] => Some 0 | x :: l => foldl (int_op Z.add) x l end.
Definition ceil_micros (terms : list (Z * Z)) : option Z :=
  int_op Z.add (sql_plus (terms ≫= whole_terms))
    (int_op Z.quot (int_op Z.add (sql_plus (rest_term <$> terms)) (Some 999999)) (Some M)).

(** Every input-side token at the input rate. *)
Definition uncached_row (t : TokenUsage) (p : PriceSnapshot) : option Z :=
  input ← sql_plus [Some (tu_input t); Some (tu_cache_read t); Some (tu_write_5m t); Some (tu_write_1h t)];
  ceil_micros [(input, ps_input p); (tu_output t, ps_output p)].
(** The row at its standard rates. *)
Definition lane_standard_row (t : TokenUsage) (standard : PriceSnapshot) : option Z :=
  ceil_micros (zip (quantities t) (rates standard)).

(** The lane rule of the rollup's SQL: SQLite's [TRIM] removes spaces only, and
    its [LOWER] changes ASCII letters only. *)
Definition lane_sql (e : UsageEvidence) : bool :=
  ev_batch e || match ev_service_tier e with
                | Some tier => lane_tier (to_ascii_lowercase (trim_end_by (N.eqb 32) (trim_start_by (N.eqb 32) tier)))
                | None => false
                end.

(** ** Rollups *)

Record UsageRollupQuery := { rq_ws : N; rq_thread : option N; rq_member : option N }.

Inductive ScopeName := ScopeThread | ScopeMember | ScopeWorkspaceUsage.
Definition scope_name (q : UsageRollupQuery) : result UsageError ScopeName :=
  match rq_thread q, rq_member q with
  | Some _, Some _ => Err BothScopes
  | Some _, None => Ok ScopeThread
  | None, Some _ => Ok ScopeMember
  | None, None => Ok ScopeWorkspaceUsage
  end.

Record UsageSums := {
  us_reports : Z; us_input : Z; us_output : Z; us_cache_read : Z; us_write_5m : Z; us_write_1h : Z;
  us_usd : Z; us_uncached : Z; us_lane_reports : Z; us_lane_usd : Z; us_lane_priced_reports : Z;
  us_lane_priced_usd : Z; us_lane_standard : Z
}.

Record UsageRollup := {
  ro_scope : ScopeName; ro_query : UsageRollupQuery; ro_sums : UsageSums; ro_saved : Z; ro_lane_saved : Z;
  ro_lane_unpriced : Z; ro_hit_rate_ppm : option Z; ro_write_share_ppm : option Z; ro_completed_tasks : Z;
  ro_completed_usd : Z; ro_cost_per_task : option Z
}.

Definition ppm (part whole : Z) : result UsageError (option Z) :=
  if whole =? 0 then Ok None
  else
    let*? scaled := or_err (if in_i128 (part * 1000000) then Some (part * 1000000) else None) RateOverflow in
    let*? value := or_err (checked (Z.quot scaled whole)) RateOverflow in
    Ok (Some value).

Definition from_sums (q : UsageRollupQuery) (s : UsageSums) (completed_tasks completed_usd : Z) :
    result UsageError UsageRollup :=
  let*? scope := scope_name q in
  if (completed_tasks <? 0) || (completed_usd <? 0) then Err NegativeCompleted
  else
    let*? prompt := or_err (checked_sum [us_input s; us_cache_read s; us_write_5m s; us_write_1h s]) TokenOverflow in
    let*? saved := or_err (checked_sub (us_uncached s) (us_usd s)) SavedOverflow in
    let*? lane_saved := or_err (checked_sub (us_lane_standard s) (us_lane_priced_usd s)) LaneSavedOverflow in
    let*? lane_unpriced := or_err (n ← checked_sub (us_lane_reports s) (us_lane_priced_reports s);
                                   if 0 <=? n then Some n else None) LaneInconsistent in
    let cost := if completed_tasks =? 0 then None else Some (Z.quot completed_usd completed_tasks) in
    let*? hit := ppm (us_cache_read s) prompt in
    let*? writes := or_err (checked_add (us_write_5m s) (us_write_1h s)) TokenOverflow in
    let*? share := ppm writes prompt in
    Ok {| ro_scope := scope; ro_query := q; ro_sums := s; ro_saved := saved; ro_lane_saved := lane_saved;
          ro_lane_unpriced := lane_unpriced; ro_hit_rate_ppm := hit; ro_write_share_ppm := share;
          ro_completed_tasks := completed_tasks; ro_completed_usd := completed_usd; ro_cost_per_task := cost |}.

(** ** Seats *)

Record SeatCostQuery := { sq_ws : N; sq_since : option Z; sq_until : option Z; sq_limit : Z }.
Definition SEAT_MAX_LIMIT : Z := 1000.
Definition seat_validate (q : SeatCostQuery) : result UsageError unit :=
  if negb ((1 <=? sq_limit q) && (sq_limit q <=? SEAT_MAX_LIMIT)) then Err SeatLimit
  else match sq_since q, sq_until q with
       | Some since, Some until => if until <=? since then Err SeatWindow else Ok tt
       | _, _ => Ok tt
       end.

Record SeatCost := { se_member : N; se_handle : str; se_reports : Z; se_threads : Z; se_usd : Z; se_first : Z; se_last : Z }.
Record SeatCosts := { sc_query : SeatCostQuery; sc_seats : list SeatCost; sc_usd : Z; sc_truncated : bool }.

(** The dearest first, then by member. *)
Definition seat_le (a b : SeatCost) : Prop :=
  se_usd b < se_usd a \/ (se_usd a = se_usd b /\ (se_member a <= se_member b)%N).
Global Instance seat_le_dec : RelDecision seat_le.
Proof. intros a b. apply _. Defined.

Definition from_rows (q : SeatCostQuery) (rows : list SeatCost) : result UsageError SeatCosts :=
  let*? _ := seat_validate q in
  if existsb (fun r => (se_reports r <? 1) || (se_threads r <? 1) || (se_usd r <? 0)) rows then Err SeatRows
  else
    let sorted := merge_sort seat_le rows in
    let kept := take (Z.to_nat (sq_limit q)) sorted in
    let*? usd := or_err (checked_sum (se_usd <$> kept)) SeatOverflow in
    Ok {| sc_query := q; sc_seats := kept; sc_usd := usd;
          sc_truncated := (Z.to_nat (sq_limit q) <? length sorted)%nat |}.

(** ** Telemetry *)

(** [str::parse::<i64>]. *)
Definition is_digit (c : N) : bool := in_range 48 57 c.
Definition digits_value (s : str) : Z := foldl (fun acc c => acc * 10 + (Z.of_N c - 48)) 0 s.
Definition parse_i64 (s : str) : option Z :=
  let (negative, ds) := match s with
                        | 45%N :: ds => (true, ds)
                        | 43%N :: ds => (false, ds)
                        | ds => (false, ds)
                        end in
  if bool_decide (ds = []) || negb (forallb is_digit ds) then None
  else checked (if negative : bool then - digits_value ds else digits_value ds).

Abbreviation Attrs := (list (str * Value)).
Definition attr_get (k : string) (attrs : Attrs) : option Value := value_get (lit k) (Object attrs).

Fixpoint attr_string (attrs : Attrs) (keys : list string) : result UsageError (option str) :=
  match keys with
  | [] => Ok None
  | key :: keys =>
      match attr_get key attrs with
      | Some (Str text) => Ok (Some (trim text))
      | Some Null | None => attr_string attrs keys
      | Some _ => Err (NotAString key)
      end
  end.

Fixpoint attr_i64 (attrs : Attrs) (keys : list string) : result UsageError (option Z) :=
  match keys with
  | [] => Ok None
  | key :: keys =>
      match attr_get key attrs with
      | None | Some Null => attr_i64 attrs keys
      | Some v =>
          let*? parsed := or_err (match v with
                                  | Num (Int z) => checked z
                                  | Str text => parse_i64 (trim text)
                                  | _ => None
                                  end) (NotAnInteger key) in
          if parsed <? 0 then Err (NegativeAttr key) else Ok (Some parsed)
      end
  end.

(** One [{ttl, inputTokens}] per tier written. *)
Fixpoint add_details (items : list Value) (five hour : Z) : result UsageError (Z * Z) :=
  match items with
  | [] => Ok (five, hour)
  | Object detail :: items =>
      let*? tokens := attr_i64 detail ["inputTokens"%string] in
      let tokens := default 0 tokens in
      let ttl := attr_get "ttl" detail ≫= as_str_value in
      if decide (ttl = Some (lit "5m")) then
        let*? five := or_err (checked_add five tokens) TokenOverflow in add_details items five hour
      else if decide (ttl = Some (lit "1h")) then
        let*? hour := or_err (checked_add hour tokens) TokenOverflow in add_details items five hour
      else Err BadTtl
  | _ :: _ => Err BadCacheDetails
  end.
Definition bedrock_cache_details (value : option Value) : result UsageError (Z * Z) :=
  match value with
  | None | Some Null => Ok (0, 0)
  | Some (Array items) => add_details items 0 0
  | Some _ => Err BadCacheDetails
  end.

Definition pack_shas (value : option Value) : result UsageError (list str) :=
  let*? raw := match value with
               | None | Some Null => Ok []
               | Some (Array items) => rmapM (fun item => or_err (as_str_value item) BadPackList) items
               | Some (Str text) => Ok (List.filter (fun part => negb (bool_decide (part = []))) (trim <$> split_on 44 text))
               | Some _ => Err BadPackList
               end in
  Ok (to_ascii_lowercase <$> raw).

Definition INCLUSIVE : list string :=
  ["openai"; "azure"; "azure.ai.openai"; "azure.ai.inference"; "openrouter"; "gemini"; "google"; "gcp.gemini"; "gcp.gen_ai";
   "mistral"; "mistral_ai"; "xai"; "x_ai"; "vllm"]%string.
Definition EXCLUSIVE : list string := ["anthropic"; "bedrock"; "aws.bedrock"; "amazon"; "deepseek"]%string.
Definition one_of (key : option str) (names : list string) : bool :=
  match key with Some k => bool_decide (k ∈ lit <$> names) | None => false end.

Definition or_zero (r : result UsageError (option Z)) : result UsageError Z := let*? o := r in Ok (default 0 o).

(** Cache writes by tier: the split names, else Bedrock's details, else a total
    on the five-minute tier. *)
Definition cache_writes (attrs : Attrs) : result UsageError (Z * Z) :=
  let*? details := bedrock_cache_details (attr_get "cacheDetails" attrs) in
  let*? five := or_zero (attr_i64 attrs ["gen_ai.usage.cache_creation.ephemeral_5m_input_tokens";
                                         "cache_creation.ephemeral_5m_input_tokens"; "ephemeral_5m_input_tokens"]%string) in
  let*? hour := or_zero (attr_i64 attrs ["gen_ai.usage.cache_creation.ephemeral_1h_input_tokens";
                                         "cache_creation.ephemeral_1h_input_tokens"; "ephemeral_1h_input_tokens"]%string) in
  let split := if (five =? 0) && (hour =? 0) then details else (five, hour) in
  if (split.1 =? 0) && (split.2 =? 0) then
    let*? five := or_zero (attr_i64 attrs ["gen_ai.usage.cache_creation.input_tokens"; "cache_creation_input_tokens";
                                           "cache_write_input_tokens"; "cacheWriteInputTokens";
                                           "prompt_tokens_details.cache_write_tokens";
                                           "input_tokens_details.cache_write_tokens";
                                           "gen_ai.usage.cache_write.input_tokens"]%string) in
    Ok (five, split.2)
  else Ok split.

(** The uncached input and the cache reads, by what the provider's total means. *)
Definition uncached_input (attrs : Attrs) (provider_key : option str) (raw cache_read five hour : Z) (miss : option Z) :
    result UsageError (Z * Z) :=
  match miss with
  | Some miss =>
      let*? hit := attr_i64 attrs ["prompt_cache_hit_tokens"; "gen_ai.usage.cache_read.input_tokens"]%string in
      Ok (miss, default cache_read hit)
  | None =>
      if one_of provider_key INCLUSIVE then
        let*? input := or_err (n ← checked_sub raw cache_read; n ← checked_sub n five; n ← checked_sub n hour;
                               if 0 <=? n then Some n else None) InputBelowTiers in
        Ok (input, cache_read)
      else if one_of provider_key EXCLUSIVE then Ok (raw, cache_read)
      else
        let*? writes := or_err (checked_add five hour) TokenOverflow in
        let*? cached := or_err (checked_add cache_read writes) TokenOverflow in
        Ok (if cached <=? raw then raw - cached else raw, cache_read)
  end.

(** Answer, thoughts and, for xAI, reasoning. *)
Definition output_tokens (attrs : Attrs) (provider_key : option str) (answer : Z) : result UsageError Z :=
  let*? thoughts := or_zero (attr_i64 attrs ["thoughtsTokenCount"%string]) in
  let*? reasoning := if one_of provider_key ["xai"; "x_ai"]%string
                     then or_zero (attr_i64 attrs ["completion_tokens_details.reasoning_tokens";
                                                   "output_tokens_details.reasoning_tokens"]%string)
                     else Ok 0 in
  or_err (n ← checked_add answer thoughts; checked_add n reasoning) TokenOverflow.

Definition batch_attr (attrs : Attrs) : result UsageError bool :=
  let attr := match attr_get "gen_ai.request.batch" attrs with Some v => Some v | None => attr_get "batch" attrs end in
  match attr with
  | Some (Bool b) => Ok b
  | Some (Str s) => Ok (bool_decide (to_ascii_lowercase s ∈ lit <$> ["1"; "true"; "yes"]%string))
  | _ => let*? name := attr_string attrs ["gen_ai.operation.name"%string] in
         Ok (match name with Some n => bool_decide (to_ascii_lowercase n = lit "batch") | None => false end)
  end.

Definition tidy_attr (attrs : Attrs) (keys : list string) (max : nat) : result UsageError (option str) :=
  let*? v := attr_string attrs keys in tidy v max.

Definition genai_evidence (attrs : Attrs) (provider : option str) (batch : bool) (packs : list str) :
    result UsageError UsageEvidence :=
  let*? provider := tidy provider 64 in
  let*? tier := tidy_attr attrs ["gen_ai.request.service_tier"; "service_tier"]%string 64 in
  let*? harness := tidy_attr attrs ["gen_ai.agent.name"; "harness"]%string 64 in
  let*? version := tidy_attr attrs ["gen_ai.agent.version"; "harness_version"]%string 64 in
  let*? effort := tidy_attr attrs ["gen_ai.request.reasoning_effort"; "reasoning_effort"; "effort"]%string 32 in
  let*? key := tidy_attr attrs ["gen_ai.conversation.id"; "session.id"; "cache_key"; "prompt_cache_key"]%string 256 in
  let*? reason := tidy_attr attrs ["gen_ai.usage.cache_miss_reason"; "cache_miss_reason"]%string 512 in
  Ok {| ev_provider := provider; ev_service_tier := tier; ev_batch := batch; ev_harness := harness;
        ev_harness_version := version; ev_effort := effort; ev_cache_key := key; ev_cache_miss_reason := reason;
        ev_packs := packs; ev_standard_price := None |}.

Definition token_usage_from_genai (attrs : Attrs) : result UsageError (TokenUsage * UsageEvidence * str) :=
  let*? provider := attr_string attrs ["gen_ai.provider.name"; "gen_ai.system"; "provider"]%string in
  let*? named := attr_string attrs ["gen_ai.response.model"; "gen_ai.request.model"; "model"]%string in
  let*? model := or_err (m ← named; if decide (m = []) then None else Some m) NoModel in
  if (255 <? byte_len model)%nat then Err BadModel
  else
    let*? cache_read := or_zero (attr_i64 attrs
      ["gen_ai.usage.cache_read.input_tokens"; "cache_read_input_tokens"; "gen_ai.usage.cached_tokens"; "cached_tokens";
       "prompt_tokens_details.cached_tokens"; "input_tokens_details.cached_tokens"; "prompt_cache_hit_tokens";
       "cachedContentTokenCount"; "cacheReadInputTokens"]%string) in
    let*? writes := cache_writes attrs in
    let*? raw := or_zero (attr_i64 attrs ["gen_ai.usage.input_tokens"; "input_tokens"; "inputTokens"; "prompt_tokens";
                                          "promptTokenCount"]%string) in
    let*? miss := attr_i64 attrs ["prompt_cache_miss_tokens"; "gen_ai.usage.prompt_cache_miss_tokens"]%string in
    let*? answer := or_zero (attr_i64 attrs ["gen_ai.usage.output_tokens"; "output_tokens"; "outputTokens";
                                             "completion_tokens"; "candidatesTokenCount"]%string) in
    let provider_key := to_ascii_lowercase <$> provider in
    let*? output := output_tokens attrs provider_key answer in
    let*? input := uncached_input attrs provider_key raw cache_read writes.1 writes.2 miss in
    let tokens := {| tu_input := input.1; tu_output := output; tu_cache_read := input.2; tu_write_5m := writes.1;
                     tu_write_1h := writes.2 |} in
    let*? _ := tokens_checked tokens in
    let*? batch := batch_attr attrs in
    let*? packs := pack_shas (attr_get "maidan.pack.sha256" attrs) in
    let*? evidence := genai_evidence attrs provider batch packs in
    let*? _ := evidence_validate evidence in
    Ok (tokens, evidence, model).

Record GenAiUsageReport := {
  ga_report : N; ga_lease : N; ga_attributes : Attrs; ga_prices : PriceSnapshot; ga_turns : Z; ga_evidence : UsageEvidence
}.

Definition genai_into_new (r : GenAiUsageReport) (thread reporter : N) : result UsageError NewUsageLedgerEntry :=
  let*? parsed := token_usage_from_genai (ga_attributes r) in
  let tokens := parsed.1.1 in
  let e := overlay (ga_evidence r) parsed.1.2 in
  let e := {| ev_provider := ev_provider e; ev_service_tier := ev_service_tier e; ev_batch := ev_batch e;
              ev_harness := ev_harness e; ev_harness_version := ev_harness_version e; ev_effort := ev_effort e;
              ev_cache_key := ev_cache_key e; ev_cache_miss_reason := ev_cache_miss_reason e;
              ev_packs := to_ascii_lowercase <$> ev_packs e; ev_standard_price := ev_standard_price e |} in
  let*? usd := charge_usd_micros (ga_prices r) tokens in
  Ok {| nu_report := ga_report r; nu_thread := thread; nu_reporter := reporter; nu_lease := ga_lease r;
        nu_model := parsed.2; nu_tokens := tokens; nu_usd_micros := usd; nu_prices := ga_prices r; nu_turns := ga_turns r;
        nu_evidence := e |}.

Record AccountedUsageRequest := {
  ar_report : N; ar_lease : N; ar_model : str; ar_tokens : TokenUsage; ar_usd_micros : Z; ar_prices : PriceSnapshot;
  ar_turns : Z; ar_evidence : UsageEvidence
}.
Definition accounted_into_new (r : AccountedUsageRequest) (thread reporter : N) : NewUsageLedgerEntry :=
  {| nu_report := ar_report r; nu_thread := thread; nu_reporter := reporter; nu_lease := ar_lease r;
     nu_model := ar_model r; nu_tokens := ar_tokens r; nu_usd_micros := ar_usd_micros r; nu_prices := ar_prices r;
     nu_turns := ar_turns r; nu_evidence := ar_evidence r |}.
