(* ===== verification/UsageLaws.v ===== *)
(** * Laws of usage reports

    The charge of a report and the charge the rollup's SQL computes are the same
    number, the SQL never leaving 64 bits where the charge fits; provider
    telemetry is normalized without losing or double-counting a token; and the
    rates of a rollup are rates. *)

From stdpp Require Import strings.
From S2P Require Import Prelude Text Json EventChain Review Usage.
Local Open Scope Z_scope.

(** ** Sums of counts *)

Definition total (l : list Z) : Z := foldr Z.add 0 l.
Definition count (z : Z) : Prop := 0 <= z <= I64_MAX.

Lemma total_nonneg l : Forall (fun z => 0 <= z) l -> 0 <= total l.
Proof. induction 1; simpl; lia. Qed.

Lemma total_app a b : total (a ++ b) = total a + total b.
Proof. induction a; simpl; lia. Qed.

Lemma checked_count z : 0 <= z -> checked z = if z <=? I64_MAX then Some z else None.
Proof. intros Hz. unfold checked, in_i64. replace (I64_MIN <=? z) with true; [done|]. symmetry. unfold I64_MIN. lia. Qed.

Lemma checked_Some z z' : checked z = Some z' <-> z' = z /\ I64_MIN <= z <= I64_MAX.
Proof. unfold checked, in_i64. destruct (_ && _) eqn:E; [|split; [done|]; lia]. split; [intros [= <-]; lia|]. by intros [-> _]. Qed.

Lemma checked_sum_from l a :
  Forall (fun z => 0 <= z) l -> count a ->
  foldl (fun acc z => acc ≫= fun a => checked_add a z) (Some a) l
  = if a + total l <=? I64_MAX then Some (a + total l) else None.
Proof.
  intros Hl. revert a. induction Hl as [|z l Hz Hl IH]; intros a Ha; cbn [foldl total foldr].
  - unfold count in Ha. rewrite Z.add_0_r. destruct (a <=? I64_MAX) eqn:E; [done|lia].
  - cbn [mbind option_bind]. unfold checked_add. unfold count in *. rewrite checked_count by lia.
    pose proof (total_nonneg l Hl). destruct (a + z <=? I64_MAX) eqn:E.
    + rewrite IH by lia. by rewrite Z.add_assoc.
    + replace (a + (z + foldr Z.add 0 l) <=? I64_MAX) with false by (unfold total in *; lia). clear. by induction l.
Qed.

Lemma checked_sum_exact l s :
  Forall (fun z => 0 <= z) l -> checked_sum l = Some s -> s = total l /\ count s.
Proof.
  intros Hl. unfold checked_sum. rewrite checked_sum_from by (done || (unfold count; lia)).
  destruct (_ <=? _) eqn:E; [|done]. intros [= <-]. pose proof (total_nonneg l Hl). unfold count. lia.
Qed.

(** A chain of [+] over checked terms. *)
Lemma sql_plus_from l a :
  Forall (fun z => 0 <= z) l -> count a ->
  foldl (int_op Z.add) (Some a) (checked <$> l) = if a + total l <=? I64_MAX then Some (a + total l) else None.
Proof.
  intros Hl. revert a. induction Hl as [|z l Hz Hl IH]; intros a Ha; cbn [fmap list_fmap foldl total foldr].
  - unfold count in Ha. rewrite Z.add_0_r. destruct (a <=? I64_MAX) eqn:E; [done|lia].
  - pose proof (total_nonneg l Hl) as Hn. fold (total l) in *. rewrite checked_count by done. unfold count in *.
    assert (forall l, foldl (int_op Z.add) None l = None) as Hnone by (intros l'; by induction l').
    destruct (z <=? I64_MAX) eqn:Ez; cbn [int_op].
    + rewrite checked_count by lia. destruct (a + z <=? I64_MAX) eqn:E.
      * fold (total l). rewrite IH by lia. by rewrite Z.add_assoc.
      * rewrite Hnone. replace (a + (z + total l) <=? I64_MAX) with false by lia. done.
    + rewrite Hnone. replace (a + (z + total l) <=? I64_MAX) with false by lia. done.
Qed.

Lemma sql_plus_exact l :
  Forall (fun z => 0 <= z) l -> sql_plus (checked <$> l) = if total l <=? I64_MAX then Some (total l) else None.
Proof.
  intros Hl. destruct Hl as [|z l Hz Hl]; [done|]. cbn [sql_plus fmap list_fmap total foldr]. fold (total l).
  pose proof (total_nonneg l Hl). rewrite checked_count by done. destruct (z <=? I64_MAX) eqn:E.
  - apply sql_plus_from; [done|]. unfold count. lia.
  - replace (z + total l <=? I64_MAX) with false by lia.
    change (foldl (int_op Z.add) None (checked <$> l) = None). generalize (checked <$> l) as l'. intros l'. by induction l'.
Qed.

(** ** The charge *)

(** Quantities and rates a column holds. *)
Definition priced (terms : list (Z * Z)) : Prop := Forall (fun qr => count qr.1 /\ count qr.2) terms.
Definition worth (terms : list (Z * Z)) : Z := total ((fun qr : Z * Z => qr.1 * qr.2) <$> terms).
(** Micro-dollars, a fraction rounded up. *)
Definition ceil_charge (terms : list (Z * Z)) : Z := (worth terms + 999999) / M.

Lemma worth_nonneg terms : priced terms -> 0 <= worth terms.
Proof.
  intros Hp. apply total_nonneg, Forall_fmap. eapply Forall_impl; [exact Hp|]. intros [q r] [? ?]. unfold count in *. cbn in *. nia.
Qed.

Lemma in_i128_true z : 0 <= z <= I128_MAX -> in_i128 z = true.
Proof. unfold in_i128, I128_MAX. lia. Qed.

Lemma charge_fold terms a :
  priced terms -> 0 <= a -> a + worth terms <= I128_MAX ->
  foldl (fun acc qr => acc ≫= fun total =>
           if in_i128 (qr.1 * qr.2) && in_i128 (total + qr.1 * qr.2) then Some (total + qr.1 * qr.2) else None)
    (Some a) terms = Some (a + worth terms).
Proof.
  intros Hp. revert a. induction Hp as [|[q r] terms [Hq Hr] Hp IH]; intros a Ha Hle; cbn [foldl].
  - unfold worth. cbn. by rewrite Z.add_0_r.
  - pose proof (worth_nonneg terms Hp). unfold worth in Hle. cbn [fmap list_fmap total foldr fst snd] in Hle.
    fold (total ((fun qr : Z * Z => qr.1 * qr.2) <$> terms)) (worth terms) in Hle. unfold count in *. cbn [fst snd] in *.
    assert (0 <= q * r) by nia. cbn [mbind option_bind fst snd]. rewrite !in_i128_true by lia. cbn [andb].
    rewrite IH by lia. f_equal. unfold worth. cbn. fold (total ((fun qr : Z * Z => qr.1 * qr.2) <$> terms)). lia.
Qed.

Lemma charge_fold_total terms a s :
  foldl (fun acc qr => acc ≫= fun total =>
           if in_i128 (qr.1 * qr.2) && in_i128 (total + qr.1 * qr.2) then Some (total + qr.1 * qr.2) else None)
    (Some a) terms = Some s -> s = a + worth terms.
Proof.
  revert a. induction terms as [|[q r] terms IH]; intros a; cbn [foldl].
  - intros [= <-]. unfold worth. cbn. lia.
  - cbn [mbind option_bind fst snd]. destruct (_ && _); [|clear; intros Hn; exfalso; revert Hn; by induction terms].
    intros Hs%IH. rewrite Hs. unfold worth. cbn. fold (total ((fun qr : Z * Z => qr.1 * qr.2) <$> terms)). lia.
Qed.

Lemma charge_exact qs rs c :
  length qs = length rs -> priced (zip qs rs) ->
  charge qs rs = Ok c <-> c = ceil_charge (zip qs rs) /\ c <= I64_MAX.
Proof.
  intros Hlen Hp. pose proof (worth_nonneg _ Hp) as Hw. unfold charge, or_err, ceil_charge, M.
  assert (forall n, 0 <= n -> Z.quot n 1000000 = n / 1000000) as Hq by (intros; by apply Z.quot_div_nonneg).
  split.
  - destruct (foldl _ _ _) as [s|] eqn:E; [|done]. apply charge_fold_total in E as ->. cbn [rbind].
    destruct (in_i128 _); [|done]. cbn [rbind]. rewrite Hq by lia.
    destruct (checked _) eqn:Ec; [|done]. intros [= <-]. apply checked_Some in Ec as [-> ?]. split; [done|lia].
  - intros [-> Hle]. assert (worth (zip qs rs) + 999999 < (I64_MAX + 1) * 1000000) as Hb.
    { pose proof (Z.mod_pos_bound (worth (zip qs rs) + 999999) 1000000). pose proof (Z.div_mod (worth (zip qs rs) + 999999) 1000000). lia. }
    assert (worth (zip qs rs) + 999999 <= I128_MAX) as Hb' by (unfold I64_MAX, I128_MAX in *; lia). clear Hb.
    rewrite charge_fold; [|done|lia|lia]. rewrite Z.add_0_l. cbn [rbind]. rewrite in_i128_true by lia. cbn [rbind].
    rewrite Hq by lia.
    rewrite checked_count by (apply Z.div_pos; lia). by rewrite (proj2 (Z.leb_le _ _) Hle).
Qed.

(** ** The same charge in SQL *)

Lemma int_op_count f a b : int_op f (Some a) (Some b) = checked (f a b).
Proof. done. Qed.

(** Whole part and remainder of every term. *)
Definition wholes (terms : list (Z * Z)) : list Z := terms ≫= fun qr => [qr.1 * (qr.2 / M); (qr.1 / M) * (qr.2 mod M)].
Definition rests (terms : list (Z * Z)) : list Z := (fun qr : Z * Z => (qr.1 mod M) * (qr.2 mod M)) <$> terms.

Lemma terms_split terms :
  priced terms ->
  (terms ≫= whole_terms) = checked <$> wholes terms /\ rest_term <$> terms = checked <$> rests terms
  /\ Forall (fun z => 0 <= z) (wholes terms) /\ Forall (fun z => 0 <= z <= 999999 * 999999) (rests terms)
  /\ worth terms = M * total (wholes terms) + total (rests terms).
Proof.
  unfold wholes, rests, worth, priced. induction 1 as [|[q r] terms [Hq Hr] Hp (IH1 & IH2 & IH3 & IH4 & IH5)]; [by split_and!|].
  unfold count in *. cbn [fst snd] in *. rewrite !bind_cons, !fmap_cons. cbn [fst snd].
  set (W := terms ≫= _) in *. set (S := (fun qr : Z * Z => _) <$> terms) in *.
  assert (q = M * (q / M) + q mod M /\ r = M * (r / M) + r mod M /\ 0 <= q mod M < M /\ 0 <= r mod M < M
          /\ 0 <= q / M /\ 0 <= r / M) as (Eq & Er & Bq & Br & Dq & Dr).
  { unfold M. split_and!; [by apply Z.div_mod|by apply Z.div_mod| | | | | |]; try (by apply Z.mod_pos_bound); apply Z.div_pos; lia. }
  assert (forall n, 0 <= n -> Z.quot n M = n / M) as Hqd by (intros; apply Z.quot_div_nonneg; unfold M; lia).
  assert (forall n, 0 <= n -> Z.rem n M = n mod M) as Hrm by (intros; apply Z.rem_mod_nonneg; unfold M; lia).
  split_and!.
  - rewrite IH1, fmap_app. unfold whole_terms. cbn [fst snd]. by rewrite !int_op_count, !Hqd, !Hrm by lia.
  - rewrite IH2. f_equal. unfold rest_term. cbn [fst snd]. by rewrite int_op_count, !Hrm by lia.
  - apply Forall_app. split; [|done]. repeat constructor; nia.
  - constructor; [|done]. unfold M in Bq, Br. cbn beta. unfold M. nia.
  - cbn [total foldr]. fold (total ((fun qr : Z * Z => qr.1 * qr.2) <$> terms)). rewrite IH5, total_app. cbn [total foldr].
    fold (total S). nia.
Qed.

Lemma total_le l b : Forall (fun z => 0 <= z <= b) l -> 0 <= total l <= b * Z.of_nat (length l).
Proof. induction 1; cbn [total foldr length]; [lia|]. fold (total l). lia. Qed.

Lemma ceil_micros_exact terms c :
  (length terms <= 1000)%nat -> priced terms ->
  ceil_micros terms = Some c <-> c = ceil_charge terms /\ c <= I64_MAX.
Proof.
  intros Hlen Hp. destruct (terms_split terms Hp) as (E1 & E2 & F1 & F2 & Ew).
  assert (Forall (fun z => 0 <= z) (rests terms)) as F2' by (eapply Forall_impl; [exact F2|]; cbn; lia).
  apply total_le in F2. replace (length (rests terms)) with (length terms) in F2 by (unfold rests; by rewrite length_fmap).
  unfold ceil_micros. rewrite E1, E2, !sql_plus_exact by done. pose proof (total_nonneg _ F1).
  replace (total (rests terms) <=? I64_MAX) with true by (unfold I64_MAX; lia). rewrite int_op_count, checked_count by lia.
  replace (total (rests terms) + 999999 <=? I64_MAX) with true by (unfold I64_MAX; lia).
  assert (ceil_charge terms = total (wholes terms) + (total (rests terms) + 999999) / M) as Hc.
  { unfold ceil_charge. rewrite Ew. replace (M * _ + _ + 999999) with (total (wholes terms) * M + (total (rests terms) + 999999)) by lia.
    by rewrite Z.div_add_l. }
  rewrite int_op_count, Z.quot_div_nonneg by (unfold M; lia).
  assert (0 <= (total (rests terms) + 999999) / M <= total (rests terms) + 999999) as Hd
    by (unfold M; split; [apply Z.div_pos; lia|apply Z.div_le_upper_bound; lia]).
  rewrite (checked_count ((_ + _) / M)) by lia.
  replace ((total (rests terms) + 999999) / M <=? I64_MAX) with true by (unfold I64_MAX; lia).
  destruct (total (wholes terms) <=? I64_MAX) eqn:Ewh; cbn [int_op].
  - rewrite checked_count by lia. rewrite <- Hc. destruct (ceil_charge terms <=? I64_MAX) eqn:Ec; split; try done.
    + intros [= <-]. lia.
    + by intros [-> _].
    + lia.
  - split; [done|]. intros [-> ?]. lia.
Qed.

(** A snapshot's columns. *)
Definition counts (t : TokenUsage) : Prop := Forall count (quantities t).
Definition prices (p : PriceSnapshot) : Prop := Forall count (rates p).

Lemma priced_zip t p : counts t -> prices p -> priced (zip (quantities t) (rates p)).
Proof.
  unfold counts, prices, priced, quantities, rates. intros Ht Hp. cbn [zip zip_with].
  repeat (apply Forall_cons in Ht as [? Ht]; apply Forall_cons in Hp as [? Hp]).
  repeat (apply Forall_cons; split; [by split|]). by apply Forall_nil.
Qed.

Lemma no_negative l : Forall count l -> existsb (fun v => v <? 0) l = false.
Proof. intros Hl. apply existsb_false. intros x Hx. rewrite Forall_forall in Hl. destruct (Hl x Hx). lia. Qed.

Lemma tokens_ok t : counts t -> tokens_checked t = Ok tt.
Proof. intros Ht. unfold tokens_checked. by rewrite no_negative. Qed.

Lemma charge_usd_exact p t c :
  counts t -> prices p ->
  charge_usd_micros p t = Ok c <-> c = ceil_charge (zip (quantities t) (rates p)) /\ c <= I64_MAX.
Proof.
  intros Ht Hp. unfold charge_usd_micros. rewrite no_negative, tokens_ok by done. cbn [rbind].
  by apply charge_exact, priced_zip.
Qed.

(** C34: the price of a report is one number. For any token counts and prices a column can hold, the charge a report is checked against and the expression the rollup evaluates in SQL are the same micro-dollars, a fraction rounded up: whenever the charge fits 64 bits no intermediate value of the SQL leaves them, and when it does not, neither answers. The same holds of the comparison rows: at a standard price, and with every input token at the uncached rate, where the number of input tokens itself fits. *)
Theorem ledger_charge_exact t p c :
  counts t -> prices p ->
  (charge_usd_micros p t = Ok c <-> lane_standard_row t p = Some c)
  /\ (uncached_charge_usd_micros p t = Ok c <-> uncached_row t p = Some c)
  /\ (charge_usd_micros p t = Ok c -> c = ceil_charge (zip (quantities t) (rates p)) /\ count c).
Proof.
  intros Ht Hp. assert (forall c, charge_usd_micros p t = Ok c -> count c) as Hcount.
  { intros c' [-> Hle]%charge_usd_exact; [|done..]. split; [|done]. apply Z.div_pos; [|done].
    pose proof (worth_nonneg _ (priced_zip t p Ht Hp)). lia. }
  split_and!.
  - rewrite charge_usd_exact by done. unfold lane_standard_row.
    rewrite ceil_micros_exact; [done|cbn; lia|by apply priced_zip].
  - unfold uncached_charge_usd_micros, prompt, uncached_row. rewrite tokens_ok by done. cbn [rbind].
    unfold counts, quantities in Ht. rewrite !Forall_cons in Ht. destruct Ht as (? & ? & ? & ? & ? & _).
    set (l := [tu_input t; tu_cache_read t; tu_write_5m t; tu_write_1h t]).
    assert (Forall (fun z => 0 <= z) l) as Hl by (unfold l; rewrite !Forall_cons, Forall_nil; unfold count in *; lia).
    assert (checked <$> l = [Some (tu_input t); Some (tu_cache_read t); Some (tu_write_5m t); Some (tu_write_1h t)]) as <-.
    { unfold l. cbn. unfold count in *. rewrite !checked_count by lia. repeat f_equal;
        match goal with |- (if ?b then _ else _) = _ => by replace b with true by lia end. }
    rewrite sql_plus_exact by done. unfold checked_sum. rewrite checked_sum_from by (done || unfold count, I64_MAX; lia).
    rewrite Z.add_0_l. pose proof (total_nonneg l Hl). destruct (total l <=? I64_MAX) eqn:El; [|done]. apply Z.leb_le in El.
    cbn [or_err rbind mbind option_bind].
    set (t' := {| tu_input := total l |}). assert (counts t') as Ht'.
    { unfold counts, quantities, t'. cbn [tu_input tu_output tu_cache_read tu_write_5m tu_write_1h].
      rewrite !Forall_cons, Forall_nil. split_and!; try done; unfold count in *; unfold I64_MAX; lia. }
    rewrite charge_usd_exact by done. rewrite ceil_micros_exact; [|cbn; lia|].
    + unfold ceil_charge, worth. cbn. by rewrite !Z.add_0_r.
    + unfold prices, rates in Hp. rewrite !Forall_cons in Hp. unfold priced. rewrite !Forall_cons, Forall_nil.
      cbn [fst snd]. unfold count in *. split_and!; lia || done.
  - intros Hc. split; [by apply charge_usd_exact in Hc as [-> _]|by apply Hcount].
Qed.

(** ** Telemetry *)

Ltac ok_step H := apply rbind_ok in H as (? & ? & H).

Lemma or_err_Ok {E A} (o : option A) (e : E) a : or_err o e = Ok a <-> o = Some a.
Proof. destruct o; naive_solver. Qed.

Definition INPUT_KEYS : list string :=
  ["gen_ai.usage.input_tokens"; "input_tokens"; "inputTokens"; "prompt_tokens"; "promptTokenCount"]%string.
Definition MISS_KEYS : list string := ["prompt_cache_miss_tokens"; "gen_ai.usage.prompt_cache_miss_tokens"]%string.

(** What an accepted report counts: every token of the provider's input total
    once, as uncached input or in its cache tier, for the providers whose total
    includes the tiers; the total itself as uncached input for those whose does
    not; and no negative count. *)
Lemma genai_counts_once attrs tokens e model provider :
  token_usage_from_genai attrs = Ok (tokens, e, model) ->
  attr_string attrs ["gen_ai.provider.name"; "gen_ai.system"; "provider"]%string = Ok provider ->
  attr_i64 attrs MISS_KEYS = Ok None ->
  exists raw, or_zero (attr_i64 attrs INPUT_KEYS) = Ok raw
    /\ let key := to_ascii_lowercase <$> provider in
       let tiers := tu_cache_read tokens + (tu_write_5m tokens + tu_write_1h tokens) in
       Forall (fun z => 0 <= z) (quantities tokens)
       /\ (one_of key INCLUSIVE = true -> tu_input tokens + tiers = raw)
       /\ (one_of key INCLUSIVE = false -> one_of key EXCLUSIVE = true -> tu_input tokens = raw)
       /\ (one_of key INCLUSIVE = false -> one_of key EXCLUSIVE = false ->
             tu_input tokens = if tiers <=? raw then raw - tiers else raw).
Proof.
  intros H Hprov Hmiss. unfold token_usage_from_genai in H. rewrite Hprov in H. cbn [rbind] in H.
  ok_step H. ok_step H. destruct (_ <? _)%nat; [done|]. ok_step H. ok_step H. ok_step H. rename H4 into Hraw.
  fold INPUT_KEYS in Hraw. fold MISS_KEYS in H. rewrite Hmiss in H. cbn [rbind] in H. ok_step H. ok_step H.
  apply rbind_ok in H as ([input read] & Hin & H). apply rbind_ok in H as (u & Hchk & H).
  do 4 (ok_step H). injection H as <- <- <-. exists x3. split; [done|].
  cbn [tu_input tu_output tu_cache_read tu_write_5m tu_write_1h fst snd]. split.
  { unfold tokens_checked in Hchk. destruct (existsb _ _) eqn:Hneg; [done|]. rewrite existsb_false in Hneg.
    apply Forall_forall. intros z Hz. specialize (Hneg z Hz). cbn in Hneg. lia. }
  unfold uncached_input in Hin. set (k := one_of _ INCLUSIVE) in *. destruct k.
  - split_and!; [|done..]. intros _. apply rbind_ok in Hin as (i & H7' & Hin). injection Hin as <- <-. apply or_err_Ok in H7'.
    destruct (checked_sub x3 x1) eqn:E1; [|done]. cbn [mbind option_bind] in H7'.
    destruct (checked_sub z x2.1) eqn:E2; [|done]. cbn [mbind option_bind] in H7'.
    destruct (checked_sub z0 x2.2) eqn:E3; [|done]. cbn [mbind option_bind] in H7'.
    destruct (0 <=? z1); [|done]. apply checked_Some in E1 as [-> _], E2 as [-> _], E3 as [-> _]. injection H7' as <-. lia.
  - set (k := one_of _ EXCLUSIVE) in *. destruct k.
    + split_and!; [done| |done]. intros _ _. by injection Hin as <- <-.
    + split_and!; [done..|]. intros _ _. apply rbind_ok in Hin as (ws & Hws & Hin). apply rbind_ok in Hin as (ca & Hca & Hin).
      injection Hin as <- <-. apply or_err_Ok, checked_Some in Hws as [-> _]. by apply or_err_Ok, checked_Some in Hca as [-> _].
Qed.

(** ** Rollups *)

(** What the sums of a scope's rows satisfy. *)
Definition sums_wf (s : UsageSums) : Prop :=
  (count (us_input s) /\ count (us_cache_read s) /\ count (us_write_5m s) /\ count (us_write_1h s))
  /\ (0 <= us_lane_priced_reports s <= us_lane_reports s /\ us_lane_reports s <= I64_MAX)
  /\ (0 <= us_lane_priced_usd s <= us_lane_standard s /\ us_lane_standard s <= I64_MAX).

Lemma ppm_rate part whole r : count part -> count whole -> part <= whole -> ppm part whole = Ok (Some r) -> 0 <= r <= 1000000.
Proof.
  unfold ppm, count. intros Hp Hw Hle. destruct (whole =? 0) eqn:E; [done|]. intros H. ok_step H. ok_step H. injection H as <-.
  apply or_err_Ok in H0, H1. destruct (in_i128 _); [|done]. injection H0 as <-. apply checked_Some in H1 as [-> _].
  rewrite Z.quot_div_nonneg by lia. split; [apply Z.div_pos; lia|]. apply Z.div_le_upper_bound; lia.
Qed.

(** The rates of a rollup are parts of a million of the prompt, no lane saving
    is negative, and the cost per task is the spend spread over the tasks. *)
Lemma rollup_rates q s tasks usd r :
  sums_wf s -> from_sums q s tasks usd = Ok r ->
  (forall x, ro_hit_rate_ppm r = Some x \/ ro_write_share_ppm r = Some x -> 0 <= x <= 1000000)
  /\ 0 <= ro_lane_saved r /\ 0 <= ro_lane_unpriced r <= us_lane_reports s
  /\ (ro_cost_per_task r = None <-> tasks = 0)
  /\ (forall c, ro_cost_per_task r = Some c -> c * tasks <= usd < (c + 1) * tasks).
Proof.
  intros ((Hi & Hc & H5 & Hh) & Hl & Hs) H. unfold from_sums in H. ok_step H.
  destruct ((tasks <? 0) || (usd <? 0)) eqn:Hneg; [done|]. ok_step H. ok_step H. ok_step H. ok_step H. cbv zeta in H.
  ok_step H. ok_step H. ok_step H. injection H as <-. cbn [ro_hit_rate_ppm ro_write_share_ppm ro_lane_saved ro_lane_unpriced ro_cost_per_task].
  apply or_err_Ok, checked_sum_exact in H1 as [Hp Hpc];
    [|rewrite !Forall_cons, Forall_nil; unfold count in *; lia]. cbn in Hp.
  apply or_err_Ok, checked_Some in H3 as [-> _]. apply or_err_Ok in H4.
  destruct (checked_sub _ _) eqn:E4 in H4; [|done]. apply checked_Some in E4 as [-> _]. cbn [mbind option_bind] in H4.
  destruct (0 <=? _) eqn:E5 in H4; [|done]. injection H4 as <-. apply or_err_Ok, checked_Some in H7 as [-> _].
  unfold count in *. split_and!.
  - intros y [->| ->]; [eapply (ppm_rate (us_cache_read s)); [..|eassumption]; unfold count; lia|].
    eapply (ppm_rate (us_write_5m s + us_write_1h s)); [..|eassumption]; unfold count; lia.
  - lia.
  - lia.
  - lia.
  - destruct (tasks =? 0) eqn:E; split; try done; lia.
  - destruct (tasks =? 0) eqn:E; [done|]. intros c [= <-]. rewrite Z.quot_div_nonneg by lia.
    pose proof (Z.mod_pos_bound usd tasks). pose proof (Z.div_mod usd tasks). nia.
Qed.

(** The rule of a report and the rule of the rollup's SQL part over white space
    that is not a space: a tier that ends in a tab is in a lane to the first and
    not to the second. *)
Lemma lane_rules_differ :
  exists e, evidence_validate e = Ok tt /\ in_lane e = true /\ lane_sql e = false.
Proof.
  exists {| ev_provider := None; ev_service_tier := Some (lit "batch" ++ [9%N]); ev_batch := false; ev_harness := None;
            ev_harness_version := None; ev_effort := None; ev_cache_key := None; ev_cache_miss_reason := None;
            ev_packs := []; ev_standard_price := None |}.
  by vm_compute.
Qed.

(** A report whose charge fits and whose uncached price does not: the rollup's
    expression leaves the integers for it. *)
Lemma uncached_may_overflow :
  exists new, usage_validate new = Ok tt /\ uncached_row (nu_tokens new) (nu_prices new) = None.
Proof.
  exists {| nu_report := 1; nu_thread := 1; nu_reporter := 1; nu_lease := 1; nu_model := lit "m";
            nu_tokens := {| tu_input := 0; tu_output := 0; tu_cache_read := I64_MAX; tu_write_5m := 0; tu_write_1h := 0 |};
            nu_usd_micros := 0;
            nu_prices := {| ps_input := 1000000000; ps_output := 0; ps_cache_read := 0; ps_write_5m := 0; ps_write_1h := 0 |};
            nu_turns := 0; nu_evidence := no_evidence |}.
  by vm_compute.
Qed.

Definition some_tokens : TokenUsage := {| tu_input := 3; tu_output := 1; tu_cache_read := 0; tu_write_5m := 0; tu_write_1h := 0 |}.
Definition some_prices : PriceSnapshot :=
  {| ps_input := 1500000; ps_output := 7; ps_cache_read := 0; ps_write_5m := 0; ps_write_1h := 0 |}.

Lemma ledger_charge_exact_witness :
  charge_usd_micros some_prices some_tokens = Ok 5 /\ lane_standard_row some_tokens some_prices = Some 5.
Proof.
  assert (charge_usd_micros some_prices some_tokens = Ok 5) as E by (vm_compute; reflexivity).
  destruct (ledger_charge_exact some_tokens some_prices 5) as [[H _] _].
  - unfold counts, quantities, some_tokens. cbn [tu_input tu_output tu_cache_read tu_write_5m tu_write_1h].
    rewrite !Forall_cons, Forall_nil. unfold count, I64_MAX. split_and!; lia || done.
  - unfold prices, rates, some_prices. cbn [ps_input ps_output ps_cache_read ps_write_5m ps_write_1h].
    rewrite !Forall_cons, Forall_nil. unfold count, I64_MAX. split_and!; lia || done.
  - split; [exact E|exact (H E)].
Defined.
