(* ===== verification/Db.v ===== *)
(** * The store's tables and transactions

    The rows of the SQLite store that the modelled operations read and write,
    and the monad they run in: [Tx] threads the database, the clock readings
    and the fresh ids of one call, and returns a [StoreError] or a value.

    A table with a primary key is a [gmap] from it, a table that is only ever
    asked whether a row is there is a [gset], and the two logs (transitions and
    the usage ledger) are lists in insertion order. Identifiers are the numbers
    of their 128 bits, times are nanoseconds since the epoch: the RFC 3339 text
    the columns hold sorts in the order of the times. *)

From stdpp Require Import strings.
From S2P Require Import Prelude Text Json EventChain EventLog Footprint Fsm Review Usage.

(** ** Task attributes ([maidan-types/src/task_attributes.rs]) *)

Inductive TaskKind := KChange | KPlan | KReview.
Inductive TaskEngine := EPi | ESession | EHuman.
Inductive TaskSize := SizeS | SizeM | SizeL.
Inductive TaskTier := TierA | TierB.
Inductive TaskLane := LBatch | LFlex.

Global Instance TaskKind_eq_dec : EqDecision TaskKind.
Proof. solve_decision. Defined.
Global Instance TaskEngine_eq_dec : EqDecision TaskEngine.
Proof. solve_decision. Defined.
Global Instance TaskLane_eq_dec : EqDecision TaskLane.
Proof. solve_decision. Defined.

(** A row of [maidan_thread_attributes], a [TaskAttributes]. *)
Record AttributeRow := {
  a_kind : TaskKind;
  a_engine : option TaskEngine;
  a_threat_model : bool;
  a_size : option TaskSize;
  a_acceptance : option str;
  a_linear_issue : option str;
  a_tier : option TaskTier;
  a_lane : option TaskLane;
  a_review_family : option str;
  a_author_family : option str;
  a_repo : option str
}.
(** [TaskAttributes::default()]. *)
Definition default_attributes : AttributeRow :=
  {| a_kind := KChange; a_engine := None; a_threat_model := false; a_size := None;
     a_acceptance := None; a_linear_issue := None; a_tier := None; a_lane := None;
     a_review_family := None; a_author_family := None; a_repo := None |}.

(** ** Rows *)

Record ThreadRow := {
  t_channel : N;
  t_parent : option N;
  t_title : option str;
  t_description : option str;
  t_state : ThreadState;
  t_created : Z;
  t_updated : Z;
  t_tombstoned : option Z;
  t_assignee : option N;
  t_expires : option Z;
  t_lease : option N;
  t_claimed : option Z;
  t_started : option Z;
  t_owner : option N;
  t_created_by : option N;
  t_unacknowledged : option N
}.

Record ChannelRow := {
  c_ws : N; c_name : str; c_topic : option str; c_private : bool;
  c_created : Z; c_updated : Z; c_tombstoned : option Z
}.

Inductive MemberKind := MHuman | MAgent.
Record MemberRow := {
  m_ws : N; m_handle : str; m_display_name : option str; m_kind : MemberKind;
  m_created : Z; m_updated : Z; m_tombstoned : option Z
}.

Record FootprintRow := {
  f_thread : N;
  f_ws : N;
  f_repo : str;
  f_mode : FootprintMode;
  f_kind : FootprintKind;
  f_value : str;
  f_namespace : string;
  f_key : str
}.

Record RepoPauseRow := { p_at : Z; p_by : N; p_reason : option str }.

Record FingerprintRow := {
  fp_ws : N;
  fp_fingerprint : str;
  fp_duplicate_of : option N;
  fp_created : Z;
  fp_cleared : option Z
}.

Inductive GateState := GPending | GAccepted | GDeclined | GCancelled.
Global Instance GateState_eq_dec : EqDecision GateState.
Proof. solve_decision. Defined.

(** [ApprovalRisk]: how much a decision at the gate puts at stake. *)
Inductive ApprovalRisk := RiskLow | RiskMedium | RiskHigh.

(** Who a model asked through ([GateDecisionVia]). *)
Inductive ClientIdentitySource := SourceCredential | SourceSelfReported | SourceNone.
Record GateDecisionVia := {
  via_client : option str; via_version : option str; via_client_id : option str;
  via_source : ClientIdentitySource; via_model_asked : bool
}.

(** A request of a model for a person's confirmation, by gate and member. *)
Record ConfirmationRow := {
  cf_ws : N; cf_actor : option N; cf_nonce : N; cf_token_hash : str;
  cf_client : option str; cf_version : option str; cf_client_id : option str; cf_source : ClientIdentitySource;
  cf_note : option str; cf_created : Z; cf_expires : Z; cf_used : option Z
}.

(** An approval gate; [g_round_cap] is [kind = 'review_round_cap']. *)
Record GateRow := {
  g_ws : N;
  g_thread : option N;
  g_requested_by : N;
  g_requested_actor : option N;
  g_prompt : str;
  g_schema : option Value;
  g_risk : ApprovalRisk;
  g_round_cap : bool;
  g_state : GateState;
  g_content : option Value;
  g_resolved_by : option N;
  g_resolved_actor : option N;
  g_via : option GateDecisionVia;
  g_created : Z;
  g_resolved : option Z
}.

Record BudgetRow := {
  max_tokens : option Z;
  max_usd_micros : option Z;
  max_turns : option Z;
  max_wall_secs : option Z;
  used_tokens : Z;
  used_usd_micros : Z;
  used_turns : Z;
  used_wall_secs : Z;
  used_input_tokens : Z;
  used_output_tokens : Z;
  used_cache_read_tokens : Z;
  used_cache_write_5m_tokens : Z;
  used_cache_write_1h_tokens : Z;
  b_created : Z;
  b_updated : Z
}.

Record TransitionRow := {
  tr_id : N;
  tr_thread : N;
  tr_from : ThreadState;
  tr_to : ThreadState;
  tr_actor : N;
  tr_at : Z
}.

(** What an accepted usage report led to: columns that are null together. *)
Record UsageOutcome := {
  uo_budget : BudgetRow; uo_stopped : bool; uo_reason : option string; uo_event : Z; uo_failed : option Z
}.
(** A row of the usage ledger, pending until its outcome is recorded. *)
Record UsageRow := {
  u_report : N;
  u_ws : N;
  u_thread : N;
  u_reporter : N;
  u_lease : N;
  u_model : str;
  u_tokens : TokenUsage;
  u_prices : PriceSnapshot;
  u_usd_micros : Z;
  u_turns : Z;
  u_evidence : UsageEvidence;
  u_accepted : Z;
  u_outcome : option UsageOutcome
}.
Definition u_provider (u : UsageRow) : option str := ev_provider (u_evidence u).

Inductive DeclaredStatus := Working | NeedsInput | NeedsReview | SBlocked | Done.
Global Instance DeclaredStatus_eq_dec : EqDecision DeclaredStatus.
Proof. solve_decision. Defined.

Record StatusRow := { s_status : DeclaredStatus; s_note : str; s_by : N; s_at : Z }.

Record DlqRow := {
  d_id : N; d_ws : N; d_channel : N; d_thread : N; d_member : N; d_reason : string;
  d_used_tokens : Z; d_used_usd_micros : Z; d_used_turns : Z; d_failed : Z
}.

(** A row of the audit table; [au_workspace] is [None] for an instance-wide row. *)
Record AuditRow := {
  au_id : Z;
  au_occurred : Z;
  au_actor : option N;
  au_subject : option N;
  au_grant : option N;
  au_action : str;
  au_target_kind : option str;
  au_target_id : option N;
  au_metadata : Value;
  au_workspace : option N
}.

(** A row of the transactional outbox, and the table with its [AUTOINCREMENT]
    sequence. *)
Record OutboxRow := {
  o_id : Z;
  o_log : Z;
  o_created : Z;
  o_published : option Z;
  o_attempts : Z;
  o_quarantined : option Z;
  o_claimed : option Z
}.
Record Outbox := { o_rows : list OutboxRow; o_seq : Z }.

(** ** Rows of the close gates *)

(** The settings of a workspace these operations read: whether a change
    entering review gets a review child, the engine a thread without one is
    routed to, and the attribute sets that are unique among its open threads. *)
Inductive UniqueAttributeKey := KeyLinearIssue | KeyRepo.
Global Instance UniqueAttributeKey_eq_dec : EqDecision UniqueAttributeKey.
Proof. solve_decision. Defined.
Record WorkspaceRow := {
  ws_review_children : bool;
  ws_default_engine : option TaskEngine;
  ws_unique : list (list UniqueAttributeKey)
}.

Record MessageRow := {
  mg_thread : N; mg_author : N; mg_body : str; mg_metadata : Value; mg_posted : Z
}.

Inductive BlockedReason := BDag | BGate | BHuman | BChild | BQuota | BUnclaimable.
Record BlockRow := { bl_reason : BlockedReason; bl_by : N; bl_at : Z; bl_note : option str }.
Record UnclaimableRow := { uc_reason : str; uc_by : N; uc_at : Z }.
Inductive CloseReason := CDuplicate | CAbandoned | CSuperseded.
Record UnlandedRow := { un_reason : CloseReason; un_by : N }.

Record ResultRow := {
  rs_result : Value; rs_by : N; rs_at : Z; rs_kind : option str; rs_actor : option N
}.

Record RequirementRow := {
  rq_count : Z; rq_max_rounds : Z; rq_created : Z; rq_updated : Z
}.
Record ReviewRow := {
  rv_decision : ReviewDecision;
  rv_note : option str;
  rv_actor : option N;
  rv_root : option str;
  rv_head : option str;
  rv_created : Z;
  rv_updated : Z;
  rv_dismissed : option Z
}.
Record VerdictRow := {
  vd_id : Z;
  vd_thread : N;
  vd_reviewer : N;
  vd_decision : ReviewDecision;
  vd_note : option str;
  vd_actor : option N;
  vd_recorded : Z;
  vd_root : option str;
  vd_head : option str
}.
Record PacketRow := {
  pk_id : N;
  pk_thread : N;
  pk_by : N;
  pk_version : Z;
  pk_manifest : EvidenceManifest;
  pk_root : str;
  pk_created : Z
}.
(** A recorded pass or fail: the columns the table's CHECK sets together. *)
Record LandVerdict := {
  lv_status : LandGateStatus;
  lv_land : LandColor;
  lv_sha : option str;
  lv_by : N;
  lv_actor : option N;
  lv_at : Z
}.
Record LandGateRow := { lg_verdict : option LandVerdict; lg_created : Z; lg_updated : Z }.
Record ArtifactLinkRow := { al_by : N; al_at : Z; al_actor : option N }.

(** A row of [maidan_references]; its five columns are unique together. *)
Inductive RefSide := SideThread | SideMessage.
Record RefKey := { rf_src_kind : RefSide; rf_src : N; rf_dst_kind : RefSide; rf_dst : N; rf_relation : str }.
Record RefRow := { rf_key : RefKey; rf_id : N; rf_created : Z }.
Global Instance RefSide_eq_dec : EqDecision RefSide.
Proof. solve_decision. Defined.
Global Instance RefKey_eq_dec : EqDecision RefKey.
Proof. solve_decision. Defined.

(** The row of [maidan_thread_plan_children] with this child. *)
Record PlanChildRow := { pc_parent : N; pc_key : str; pc_position : Z }.
(** A pull tracked on a change, and its last read head. *)
Record ChangePullRow := { cp_ws : N; cp_repo : str; cp_number : Z; cp_thread : N }.
Record PullCiRow := { ci_head : str; ci_updated : Z }.

Record SpawnBudgetRow := {
  max_children : option Z; max_depth : option Z; max_tools : option Z; sp_updated : Z
}.

Record PriorityRow := { pr_priority : Z; pr_by : N; pr_at : Z }.
Record FreezeRow := { fz_at : Z; fz_by : N; fz_reason : option str }.

(** What a wait's time-out does ([EscalationPolicy]). *)
Inductive EscalationPolicy := Notify | Park.
Record WaitRow := {
  wt_until : Z; wt_policy : EscalationPolicy; wt_reason : option str; wt_by : N; wt_created : Z; wt_fired : option Z
}.
Record CancellationRow := { cn_reason : str; cn_by : N; cn_at : Z }.

(** A row of [maidan_api_tokens]; the capabilities are stored as a JSON array of
    strings. *)
Record TokenRow := {
  tk_ws : N; tk_member : N; tk_app : option N; tk_hash : str; tk_label : option str;
  tk_capabilities : list str; tk_created : Z; tk_expires : option Z; tk_revoked : option Z;
  tk_parent : option N; tk_grant : option N; tk_oauth : option N
}.

(** A row of [maidan_delegation_grants]. *)
Record DelegationRow := {
  dg_ws : N; dg_subject : N; dg_delegate : N; dg_capabilities : list str; dg_purpose : str;
  dg_authorized_by : N; dg_expires : Z; dg_revoked : option Z; dg_created : Z
}.

(** The OAuth 2.1 authorization server: clients, consent requests that wait,
    authorization codes, grants and refresh tokens. *)
Record OAuthClientRow := {
  oc_id : N; oc_name : str; oc_redirects : list str; oc_secret : option str; oc_scopes : list str;
  oc_created : Z; oc_revoked : option Z; oc_metadata : option str; oc_registered : option Z;
  oc_authorized : option Z; oc_last_used : option Z
}.
Record OAuthPendingRow := {
  op_client : str; op_member : N; op_ws : N; op_redirect : str; op_challenge : str; op_scope : list str;
  op_resource : option str; op_state : str; op_created : Z; op_expires : Z
}.
Record OAuthCodeRow := {
  co_client : str; co_member : N; co_ws : N; co_redirect : str; co_challenge : str; co_scope : list str;
  co_resource : option str; co_created : Z; co_expires : Z; co_used : option Z; co_lineage : option N
}.
Record OAuthGrantRow := {
  og_client : str; og_member : N; og_ws : N; og_scope : list str; og_lineage : N; og_created : Z; og_revoked : option Z
}.
Record OAuthRefreshRow := {
  or_grant : N; or_lineage : N; or_client : str; or_resource : str; or_created : Z; or_expires : Z;
  or_used : option Z; or_revoked : option Z
}.

Record Db := {
  workspaces : gmap N WorkspaceRow;
  threads : gmap N ThreadRow;
  messages : gmap N MessageRow;
  channels : gmap N ChannelRow;
  members : gmap N MemberRow;
  channel_members : gset (N * N);
  dm_conversations : gmap N (N * N);
  group_dms : gmap N N;
  group_dm_members : gset (N * N);
  footprints : list FootprintRow;
  slot_capacities : gmap (N * str) Z;
  repo_pauses : gmap (N * str) RepoPauseRow;
  thread_unclaimable : gmap N UnclaimableRow;
  thread_blocks : gmap N BlockRow;
  (** When each (thread, thread it depends on) was added. *)
  thread_dependencies : gmap (N * N) Z;
  unlanded_closes : gmap N UnlandedRow;
  task_fingerprints : gmap N FingerprintRow;
  thread_attributes : gmap N AttributeRow;
  approval_gates : gmap N GateRow;
  approval_policies : gmap N (ApprovalRisk * Z);
  approval_confirmations : gmap (N * N) ConfirmationRow;
  thread_budgets : gmap N BudgetRow;
  thread_results : gmap N ResultRow;
  thread_transitions : list TransitionRow;
  thread_priorities : gmap N PriorityRow;
  (** When each (thread, required skill) and (member, skill) was added. *)
  required_skills : gmap (N * str) Z;
  member_skills : gmap (N * str) Z;
  member_freezes : gmap N FreezeRow;
  thread_waits : gmap N WaitRow;
  thread_cancellations : gmap N CancellationRow;
  thread_workers : gmap (N * N) (option Z);
  usage_ledger : list UsageRow;
  recipe_run_children : gmap N N;
  thread_status : gmap N StatusRow;
  spawn_budgets : gmap N SpawnBudgetRow;
  wip_limits : gmap N Z;
  review_reqs : gmap N RequirementRow;
  (** When each (thread, named reviewer) was added. *)
  reviewers : gmap (N * N) Z;
  (** The current review of each (thread, reviewer). *)
  reviews : gmap (N * N) ReviewRow;
  review_verdicts : list VerdictRow;
  review_packets : list PacketRow;
  land_gates : gmap N LandGateRow;
  land_verdicts : list (Z * N * LandVerdict);
  (** The artifacts each workspace holds, and the ones linked to a thread. *)
  artifact_refs : gset (N * str);
  thread_artifacts : gmap (N * str) ArtifactLinkRow;
  api_tokens : gmap N TokenRow;
  delegation_grants : gmap N DelegationRow;
  (** The ceiling a workspace set on the days of a grant, and when. *)
  delegation_policies : gmap N (Z * Z);
  (** The calls a window of seconds allows each (token, capability). *)
  token_quotas : gmap (N * str) (Z * Z);
  (** Whether each provisioned member is active, and when each app installation
      was revoked. *)
  scim_users : gmap N bool;
  app_installations : gmap N (option Z);
  (** Clients by [client_id], codes and refresh tokens by hash. *)
  oauth_clients : gmap str OAuthClientRow;
  oauth_pending : gmap N OAuthPendingRow;
  oauth_codes : gmap str OAuthCodeRow;
  oauth_grants : gmap N OAuthGrantRow;
  oauth_refresh : gmap str OAuthRefreshRow;
  workspace_suspensions : gset N;
  thread_versions : gmap N Z;
  references : list RefRow;
  (** The plan row of each child. *)
  plan_children : gmap N PlanChildRow;
  change_pulls : list ChangePullRow;
  pull_ci : gmap (N * str * Z) PullCiRow;
  dead_letters : list DlqRow;
  audit : list AuditRow;
  log : Log;
  outbox : Outbox
}.

Definition eta_Db (d : Db) : Db := {|
  workspaces := workspaces d;
  threads := threads d; messages := messages d; channels := channels d; members := members d;
  channel_members := channel_members d; dm_conversations := dm_conversations d;
  group_dms := group_dms d; group_dm_members := group_dm_members d; footprints := footprints d;
  slot_capacities := slot_capacities d; repo_pauses := repo_pauses d;
  thread_unclaimable := thread_unclaimable d; thread_blocks := thread_blocks d;
  thread_dependencies := thread_dependencies d; unlanded_closes := unlanded_closes d;
  task_fingerprints := task_fingerprints d; thread_attributes := thread_attributes d;
  approval_gates := approval_gates d; approval_policies := approval_policies d;
  approval_confirmations := approval_confirmations d; thread_budgets := thread_budgets d;
  thread_results := thread_results d; thread_transitions := thread_transitions d;
  thread_priorities := thread_priorities d; required_skills := required_skills d;
  member_skills := member_skills d; member_freezes := member_freezes d;
  thread_waits := thread_waits d; thread_cancellations := thread_cancellations d;
  thread_workers := thread_workers d; usage_ledger := usage_ledger d;
  recipe_run_children := recipe_run_children d; thread_status := thread_status d;
  spawn_budgets := spawn_budgets d; wip_limits := wip_limits d;
  review_reqs := review_reqs d;
  reviewers := reviewers d;
  reviews := reviews d;
  review_verdicts := review_verdicts d;
  review_packets := review_packets d;
  land_gates := land_gates d;
  land_verdicts := land_verdicts d;
  artifact_refs := artifact_refs d;
  thread_artifacts := thread_artifacts d;
  api_tokens := api_tokens d; delegation_grants := delegation_grants d;
  delegation_policies := delegation_policies d; token_quotas := token_quotas d;
  scim_users := scim_users d; app_installations := app_installations d;
  oauth_clients := oauth_clients d; oauth_pending := oauth_pending d; oauth_codes := oauth_codes d;
  oauth_grants := oauth_grants d; oauth_refresh := oauth_refresh d; workspace_suspensions := workspace_suspensions d;
  thread_versions := thread_versions d;
  references := references d;
  plan_children := plan_children d;
  change_pulls := change_pulls d;
  pull_ci := pull_ci d;
  dead_letters := dead_letters d; audit := audit d; log := log d; outbox := outbox d |}.

Definition upd_threads : (gmap N ThreadRow -> gmap N ThreadRow) -> Db -> Db := ltac:(field_setter eta_Db threads).
Definition upd_footprints : (list FootprintRow -> list FootprintRow) -> Db -> Db := ltac:(field_setter eta_Db footprints).
Definition upd_slot_capacities : (gmap (N * str) Z -> gmap (N * str) Z) -> Db -> Db := ltac:(field_setter eta_Db slot_capacities).
Definition upd_repo_pauses : (gmap (N * str) RepoPauseRow -> gmap (N * str) RepoPauseRow) -> Db -> Db := ltac:(field_setter eta_Db repo_pauses).
Definition upd_thread_dependencies : (gmap (N * N) Z -> gmap (N * N) Z) -> Db -> Db := ltac:(field_setter eta_Db thread_dependencies).
Definition upd_task_fingerprints : (gmap N FingerprintRow -> gmap N FingerprintRow) -> Db -> Db := ltac:(field_setter eta_Db task_fingerprints).
Definition upd_thread_attributes : (gmap N AttributeRow -> gmap N AttributeRow) -> Db -> Db := ltac:(field_setter eta_Db thread_attributes).
Definition upd_thread_budgets : (gmap N BudgetRow -> gmap N BudgetRow) -> Db -> Db := ltac:(field_setter eta_Db thread_budgets).
Definition upd_thread_priorities : (gmap N PriorityRow -> gmap N PriorityRow) -> Db -> Db := ltac:(field_setter eta_Db thread_priorities).
Definition upd_required_skills : (gmap (N * str) Z -> gmap (N * str) Z) -> Db -> Db := ltac:(field_setter eta_Db required_skills).
Definition upd_member_skills : (gmap (N * str) Z -> gmap (N * str) Z) -> Db -> Db := ltac:(field_setter eta_Db member_skills).
Definition upd_member_freezes : (gmap N FreezeRow -> gmap N FreezeRow) -> Db -> Db := ltac:(field_setter eta_Db member_freezes).
Definition upd_thread_waits : (gmap N WaitRow -> gmap N WaitRow) -> Db -> Db := ltac:(field_setter eta_Db thread_waits).
Definition upd_thread_cancellations : (gmap N CancellationRow -> gmap N CancellationRow) -> Db -> Db := ltac:(field_setter eta_Db thread_cancellations).
Definition upd_spawn_budgets : (gmap N SpawnBudgetRow -> gmap N SpawnBudgetRow) -> Db -> Db := ltac:(field_setter eta_Db spawn_budgets).
Definition upd_thread_workers : (gmap (N * N) (option Z) -> gmap (N * N) (option Z)) -> Db -> Db := ltac:(field_setter eta_Db thread_workers).
Definition upd_usage_ledger : (list UsageRow -> list UsageRow) -> Db -> Db := ltac:(field_setter eta_Db usage_ledger).
Definition upd_thread_status : (gmap N StatusRow -> gmap N StatusRow) -> Db -> Db := ltac:(field_setter eta_Db thread_status).
Definition upd_thread_transitions : (list TransitionRow -> list TransitionRow) -> Db -> Db := ltac:(field_setter eta_Db thread_transitions).
Definition upd_dead_letters : (list DlqRow -> list DlqRow) -> Db -> Db := ltac:(field_setter eta_Db dead_letters).
Definition upd_audit : (list AuditRow -> list AuditRow) -> Db -> Db := ltac:(field_setter eta_Db audit).
Definition upd_wip_limits : (gmap N Z -> gmap N Z) -> Db -> Db := ltac:(field_setter eta_Db wip_limits).
Definition upd_messages : (gmap N MessageRow -> gmap N MessageRow) -> Db -> Db := ltac:(field_setter eta_Db messages).
Definition upd_thread_unclaimable : (gmap N UnclaimableRow -> gmap N UnclaimableRow) -> Db -> Db := ltac:(field_setter eta_Db thread_unclaimable).
Definition upd_thread_blocks : (gmap N BlockRow -> gmap N BlockRow) -> Db -> Db := ltac:(field_setter eta_Db thread_blocks).
Definition upd_unlanded_closes : (gmap N UnlandedRow -> gmap N UnlandedRow) -> Db -> Db := ltac:(field_setter eta_Db unlanded_closes).
Definition upd_approval_gates : (gmap N GateRow -> gmap N GateRow) -> Db -> Db := ltac:(field_setter eta_Db approval_gates).
Definition upd_approval_policies : (gmap N (ApprovalRisk * Z) -> gmap N (ApprovalRisk * Z)) -> Db -> Db := ltac:(field_setter eta_Db approval_policies).
Definition upd_approval_confirmations : (gmap (N * N) ConfirmationRow -> gmap (N * N) ConfirmationRow) -> Db -> Db := ltac:(field_setter eta_Db approval_confirmations).
Definition upd_workspaces : (gmap N WorkspaceRow -> gmap N WorkspaceRow) -> Db -> Db := ltac:(field_setter eta_Db workspaces).
Definition upd_thread_results : (gmap N ResultRow -> gmap N ResultRow) -> Db -> Db := ltac:(field_setter eta_Db thread_results).
Definition upd_review_reqs : (gmap N RequirementRow -> gmap N RequirementRow) -> Db -> Db := ltac:(field_setter eta_Db review_reqs).
Definition upd_reviewers : (gmap (N * N) Z -> gmap (N * N) Z) -> Db -> Db := ltac:(field_setter eta_Db reviewers).
Definition upd_reviews : (gmap (N * N) ReviewRow -> gmap (N * N) ReviewRow) -> Db -> Db := ltac:(field_setter eta_Db reviews).
Definition upd_review_verdicts : (list VerdictRow -> list VerdictRow) -> Db -> Db := ltac:(field_setter eta_Db review_verdicts).
Definition upd_review_packets : (list PacketRow -> list PacketRow) -> Db -> Db := ltac:(field_setter eta_Db review_packets).
Definition upd_land_gates : (gmap N LandGateRow -> gmap N LandGateRow) -> Db -> Db := ltac:(field_setter eta_Db land_gates).
Definition upd_land_verdicts : (list (Z * N * LandVerdict) -> list (Z * N * LandVerdict)) -> Db -> Db := ltac:(field_setter eta_Db land_verdicts).
Definition upd_thread_artifacts : (gmap (N * str) ArtifactLinkRow -> gmap (N * str) ArtifactLinkRow) -> Db -> Db := ltac:(field_setter eta_Db thread_artifacts).
Definition upd_thread_versions : (gmap N Z -> gmap N Z) -> Db -> Db := ltac:(field_setter eta_Db thread_versions).
Definition upd_references : (list RefRow -> list RefRow) -> Db -> Db := ltac:(field_setter eta_Db references).
Definition upd_api_tokens : (gmap N TokenRow -> gmap N TokenRow) -> Db -> Db := ltac:(field_setter eta_Db api_tokens).
Definition upd_delegation_grants : (gmap N DelegationRow -> gmap N DelegationRow) -> Db -> Db := ltac:(field_setter eta_Db delegation_grants).
Definition upd_delegation_policies : (gmap N (Z * Z) -> gmap N (Z * Z)) -> Db -> Db := ltac:(field_setter eta_Db delegation_policies).
Definition upd_oauth_clients : (gmap str OAuthClientRow -> gmap str OAuthClientRow) -> Db -> Db := ltac:(field_setter eta_Db oauth_clients).
Definition upd_oauth_pending : (gmap N OAuthPendingRow -> gmap N OAuthPendingRow) -> Db -> Db := ltac:(field_setter eta_Db oauth_pending).
Definition upd_oauth_codes : (gmap str OAuthCodeRow -> gmap str OAuthCodeRow) -> Db -> Db := ltac:(field_setter eta_Db oauth_codes).
Definition upd_oauth_grants : (gmap N OAuthGrantRow -> gmap N OAuthGrantRow) -> Db -> Db := ltac:(field_setter eta_Db oauth_grants).
Definition upd_oauth_refresh : (gmap str OAuthRefreshRow -> gmap str OAuthRefreshRow) -> Db -> Db := ltac:(field_setter eta_Db oauth_refresh).
Definition upd_token_quotas : (gmap (N * str) (Z * Z) -> gmap (N * str) (Z * Z)) -> Db -> Db := ltac:(field_setter eta_Db token_quotas).
Definition upd_log : (Log -> Log) -> Db -> Db := ltac:(field_setter eta_Db log).
Definition upd_outbox : (Outbox -> Outbox) -> Db -> Db := ltac:(field_setter eta_Db outbox).

(** ** Errors *)

Inductive Refusal :=
| SameFamily (family : str)
| RoundCapped
| DuplicateTask
| BadTransition (from : ThreadState) (action : ThreadAction)
| SeparationOfDuties
| ReviewsMissing (approvals required : Z)
| Refuted
| NoResultPosted
| NothingHanded
| StaleEvidence (latest named : str)
| EvidenceChanged
| UnverifiedHead (named : str)
| StaleHead (named tracked : str)
| LandGateRequired
| LandGateIs (verdict : LandColor)
| ParentRefuses (e : HsmError)
| AuthorFamilySet (stored : str)
| NotClosable (state : ThreadState)
| MayNotClose
| NotSpokesman
| LowerRefused
| LoosenRefused
| ReferenceExists
| ArchivedParent
| TokenHashExists
| RotatesDelegated
| UsageUnreadable
| UsageIdReused
| UsageNotHolder
| UsagePending
| OAuthGrantExists.

(** What [TaskAttributes::validated] refuses. *)
Inductive AttributeError :=
| NotAnIssueKey (key : str)
| BadRepo (e : FootprintError)
| UnknownFamily (family : str)
| AcceptanceTooLong
| AcceptanceControl.

Inductive Invalid :=
| BadFootprint (e : FootprintError)
| NegativeCount
| NoLandGateSkill
| ArtifactShaTooLong
| GateElsewhere
| NotAReplacement
| ReplacementMissing
| ReplacesItself
| ReplacementUnreadable
| BadEvidence (e : SignedExportError)
| NoHolder
| CrossWorkspace
| AuditScopeMismatch
| SelfDependency
| DependencyCycle
| BadEvent (e : EventChainError)
| UnknownEventKind (kind : str)
| EmptySkill
| ParentElsewhere
| NoPriorityCaller
| BadAttributes (e : AttributeError)
| SelfDelegation
| GrantExpired
| BadPurpose
| BadDelegatedCapability
| NoDelegatedCapability
| GrantTooLong (max_days : Z)
| GrantMembers
| BadCeiling
| NoTokenExpiry
| BadTokenExpiry
| ExceedsGrant (capability : str)
| QuotaRange
| BadUsage (e : UsageError)
| RefreshElsewhere
| RefreshWidens.

Inductive SpawnAxis := Children | Depth.

Inductive StoreError :=
| NotFound
| Conflict (why : Refusal)
| SpawnRejected (axis : SpawnAxis) (limit observed : Z)
| CursorTooOld (after_id oldest_id : Z)
| InvalidInput (why : Invalid)
| AttributeHeld (held : list (UniqueAttributeKey * str)) (holder : N)
| ClaimLost
| Database
| Migration
| Serialization
| ContentKey
| OverAllowance.

(** ** Events ([maidan-types/src/events.rs]), the kinds these operations append *)

Inductive Event :=
| ThreadCreated (at_ : Z) (ws channel thread : N) (row : ThreadRow)
| ThreadAssignmentChanged (at_ : Z) (ws channel thread actor : N) (previous assignee : option N)
    (note : option str) (row : ThreadRow)
| ClaimExpired (at_ : Z) (ws channel thread member : N) (row : ThreadRow)
| ClaimFailed (at_ : Z) (ws channel thread member : N) (reason : string) (row : ThreadRow)
| ClaimUnacknowledged (at_ : Z) (ws channel thread member : N) (claimed : Z) (row : ThreadRow)
| WaitTimedOut (at_ : Z) (ws channel thread : N) (policy : str) (reason : option str)
| ThreadStateChanged (at_ : Z) (ws channel thread actor : N) (from to : ThreadState) (row : ThreadRow)
| ThreadAttributesSet (at_ : Z) (ws channel thread : N) (attributes : AttributeRow)
    (author_family : option str) (actor : N)
| ApprovalRequested (at_ : Z) (ws : N) (channel thread : option N) (gate requested_by : N)
| ThreadBlocked (at_ : Z) (ws channel thread : N) (reason : BlockedReason) (set_by : N) (note : option str)
| ThreadLanded (at_ : Z) (ws channel thread : N) (repo : str) (pr_number : Z)
| ReviewSubmitted (at_ : Z) (ws channel thread reviewer : N) (actor : option N) (decision : ReviewDecision)
    (sent_back : bool) (worker : option N)
| MessagePosted (at_ : Z) (ws channel thread id : N) (message : MessageRow)
| ReferenceAdded (at_ : Z) (reference : RefRow)
| BlockedResolved (at_ : Z) (ws channel thread : N) (reason : BlockedReason) (resolved_by : N)
| StatusDeclared (at_ : Z) (ws channel thread : N) (status : DeclaredStatus) (note : str) (declared_by : N)
| MemberFrozen (at_ : Z) (ws member frozen_by : N) (reason : option str) (released : Z)
| MemberUnfrozen (at_ : Z) (ws member unfrozen_by : N)
| ThreadCancelled (at_ : Z) (ws channel thread : N) (reason : str) (cancelled_by : N)
| UsageReported (at_ : Z) (ws channel thread report : N) (stamp : PayerStamp) (turns : Z) (budget : BudgetRow).

Definition event_kind (e : Event) : str :=
  match e with
  | ThreadCreated _ _ _ _ _ => lit "thread_created"
  | ThreadAssignmentChanged _ _ _ _ _ _ _ _ _ => lit "thread_assignment_changed"
  | ClaimExpired _ _ _ _ _ _ => lit "claim_expired"
  | ClaimFailed _ _ _ _ _ _ _ => lit "claim_failed"
  | ClaimUnacknowledged _ _ _ _ _ _ _ => lit "claim_unacknowledged"
  | WaitTimedOut _ _ _ _ _ _ => lit "wait_timed_out"
  | ThreadStateChanged _ _ _ _ _ _ _ _ => lit "thread_state_changed"
  | ThreadAttributesSet _ _ _ _ _ _ _ => lit "thread_attributes_set"
  | ApprovalRequested _ _ _ _ _ _ => lit "approval_requested"
  | ThreadBlocked _ _ _ _ _ _ _ => lit "thread_blocked"
  | ThreadLanded _ _ _ _ _ _ => lit "thread_landed"
  | ReviewSubmitted _ _ _ _ _ _ _ _ _ => lit "review_submitted"
  | MessagePosted _ _ _ _ _ _ => lit "message_posted"
  | ReferenceAdded _ _ => lit "reference_added"
  | BlockedResolved _ _ _ _ _ _ => lit "blocked_resolved"
  | StatusDeclared _ _ _ _ _ _ _ => lit "status_declared"
  | MemberFrozen _ _ _ _ _ _ => lit "member_frozen"
  | MemberUnfrozen _ _ _ _ => lit "member_unfrozen"
  | ThreadCancelled _ _ _ _ _ _ => lit "thread_cancelled"
  | UsageReported _ _ _ _ _ _ _ _ => lit "usage_reported"
  end.

(** [occurred_at], [workspace_id], [channel_id] and [thread_id] of an event. The
    last two have no arm for [ThreadBlocked], which falls in their [_]. *)
Definition event_scope (e : Event) : Z * option N * option N * option N :=
  match e with
  | ThreadCreated a w c t _ => (a, Some w, Some c, Some t)
  | ThreadAssignmentChanged a w c t _ _ _ _ _ => (a, Some w, Some c, Some t)
  | ClaimExpired a w c t _ _ => (a, Some w, Some c, Some t)
  | ClaimFailed a w c t _ _ _ => (a, Some w, Some c, Some t)
  | ClaimUnacknowledged a w c t _ _ _ => (a, Some w, Some c, Some t)
  | WaitTimedOut a w c t _ _ => (a, Some w, Some c, Some t)
  | ThreadStateChanged a w c t _ _ _ _ => (a, Some w, Some c, Some t)
  | ThreadAttributesSet a w c t _ _ _ => (a, Some w, Some c, Some t)
  | ApprovalRequested a w c t _ _ => (a, Some w, c, t)
  | ThreadBlocked a w _ _ _ _ _ => (a, Some w, None, None)
  | ThreadLanded a w c t _ _ => (a, Some w, Some c, Some t)
  | ReviewSubmitted a w c t _ _ _ _ _ => (a, Some w, Some c, Some t)
  | MessagePosted a w c t _ _ => (a, Some w, Some c, Some t)
  | ReferenceAdded a _ => (a, None, None, None)
  | BlockedResolved a w c t _ _ => (a, Some w, Some c, Some t)
  | StatusDeclared a w c t _ _ _ => (a, Some w, Some c, Some t)
  | MemberFrozen a w _ _ _ _ => (a, Some w, None, None)
  | MemberUnfrozen a w _ _ => (a, Some w, None, None)
  | ThreadCancelled a w c t _ _ => (a, Some w, Some c, Some t)
  | UsageReported a w c t _ _ _ _ => (a, Some w, Some c, Some t)
  end.

(** ** Transactions *)

(** The principal behind a request ([maidan-types/src/delegation.rs]). *)
Record Attribution := { actor_id : N; subject_id : N; grant_id : option N }.

(** What a call takes from outside: the wall clock's successive readings, fresh
    identifiers, the principal of the request it serves (none outside a
    request), the serialized form of an event and of a principal, and the sealing
    of a message's words under its content key. *)
Class Env := {
  clock : nat -> Z;
  uuid : nat -> N;
  current_attribution : option Attribution;
  event_value : Event -> Value;
  seal_words : Value -> Value;
  attribution_value : Attribution -> Value
}.

(** [attribution.rs]: the member acting in this request for [subject], when it is
    another member; who an audit row records; and the principal recorded on an
    event's payload. *)
Definition delegate_acting_for `{Env} (subject : N) : option N :=
  a ← current_attribution;
  if decide (subject_id a = subject /\ actor_id a <> subject) then Some (actor_id a) else None.

Definition audit_principal `{Env} (fallback_actor : option N) : option N * option N * option N :=
  match current_attribution with
  | Some a => (Some (actor_id a), Some (subject_id a), grant_id a)
  | None => (fallback_actor, fallback_actor, None)
  end.

Definition attach_to_payload `{Env} (payload : Value) : Value :=
  match current_attribution, payload with
  | Some a, Object fields =>
      Object (List.filter (fun e => negb (bool_decide (e.1 = lit "attribution"))) fields
              ++ [(lit "attribution", attribution_value a)])
  | _, _ => payload
  end.

Record World := { db : Db; ticks : nat; ids : nat }.

Definition Tx (A : Type) : Type := World -> result StoreError A * World.

Definition ret {A} (a : A) : Tx A := fun w => (Ok a, w).
Definition fail {A} (e : StoreError) : Tx A := fun w => (Err e, w).
Definition bind {A B} (m : Tx A) (f : A -> Tx B) : Tx B :=
  fun w => match m w with
           | (Ok a, w') => f a w'
           | (Err e, w') => (Err e, w')
           end.
Definition read {A} (f : Db -> A) : Tx A := fun w => (Ok (f (db w)), w).
Definition write (f : Db -> Db) : Tx unit :=
  fun w => (Ok tt, {| db := f (db w); ticks := ticks w; ids := ids w |}).

Declare Scope tx_scope.
Delimit Scope tx_scope with tx.
Notation "x <- m ;; k" := (bind m (fun x => k))
  (at level 100, m at next level, right associativity) : tx_scope.
Notation "m ;; k" := (bind m (fun _ => k)) (at level 100, right associativity) : tx_scope.
Local Open Scope tx_scope.

(** [.ok_or(e)?]. *)
Definition ok_or {A} (o : option A) (e : StoreError) : Tx A :=
  match o with Some a => ret a | None => fail e end.
Definition when (b : bool) (m : Tx unit) : Tx unit := if b then m else ret tt.
(** A pure [Result] in a transaction. *)
Definition lift {E A} (f : E -> StoreError) (r : result E A) : Tx A :=
  match r with Ok a => ret a | Err e => fail (f e) end.

Fixpoint for_each {A B} (f : A -> Tx B) (l : list A) : Tx (list B) :=
  match l with
  | [] => ret []
  | x :: l => y <- f x ;; ys <- for_each f l ;; ret (y :: ys)
  end.

Section env.
Context `{JsonText, Sha256, Env}.

(** [Utc::now()]. *)
Definition utc_now : Tx Z :=
  fun w => (Ok (clock (ticks w)), {| db := db w; ticks := S (ticks w); ids := ids w |}).
(** [Uuid::now_v7()] and the id types' [new]. *)
Definition new_uuid : Tx N :=
  fun w => (Ok (uuid (ids w)), {| db := db w; ticks := ticks w; ids := S (ids w) |}).

(** [pool.begin() … tx.commit()]: dropping the transaction on an error rolls
    the tables back. *)
Definition commit {A} (m : Tx A) : Tx A :=
  fun w => match m w with
           | (Ok a, w') => (Ok a, w')
           | (Err e, w') => (Err e, {| db := db w; ticks := ticks w'; ids := ids w' |})
           end.

(** The same where the code may also call [tx.rollback()] itself and return: the
    flag says whether it committed. *)
Definition transaction {A} (m : Tx (A * bool)) : Tx A :=
  fun w => match m w with
           | (Ok (a, true), w') => (Ok a, w')
           | (Ok (a, false), w') => (Ok a, {| db := db w; ticks := ticks w'; ids := ids w' |})
           | (Err e, w') => (Err e, {| db := db w; ticks := ticks w'; ids := ids w' |})
           end.

Definition new_event (e : Event) : NewEvent :=
  let '(at_, ws, ch, th) := event_scope e in
  {| n_kind := event_kind e; n_ws := ws; n_channel := ch; n_thread := th;
     n_occurred := at_; n_value := attach_to_payload (event_value e) |}.

(** [outbox::enqueue_in_tx]; the column's default reads the clock. *)
Definition enqueue_in_tx (log_id : Z) : Tx unit :=
  now <- utc_now ;;
  write (upd_outbox (fun o =>
    {| o_rows := o_rows o ++ [{| o_id := o_seq o + 1; o_log := log_id; o_created := now;
                                 o_published := None; o_attempts := 0; o_quarantined := None;
                                 o_claimed := None |}];
       o_seq := o_seq o + 1 |}))%Z.

(** [events::append_with_keys_in_tx]: the row is linked into its workspace's
    chain and queued in the outbox. *)
Definition append_event (seal : Value -> Value) (e : Event) : Tx EventRow :=
  now <- utc_now ;;
  l <- read log ;;
  match append_with_keys_in_tx seal now (new_event e) l with
  | Ok (row, l') =>
      write (upd_log (fun _ => l')) ;;
      enqueue_in_tx (e_id row) ;;
      ret row
  | Err e => fail (InvalidInput (BadEvent e))
  end.
(** [events::append_in_tx], for an event with no message words to seal, and the
    append of a message under its content key. *)
Definition append_in_tx (e : Event) : Tx EventRow := append_event (fun v => v) e.
Definition append_sealed_in_tx (e : Event) : Tx EventRow := append_event seal_words e.
End env.

(** [chrono::Duration::seconds] and [num_seconds]. *)
Definition secs (n : Z) : Z := (n * 1000000000)%Z.
Definition num_seconds (d : Z) : Z := (d ÷ 1000000000)%Z.

(** [clock::truncate_micros] and [clock::db_now]. *)
Definition truncate_micros (t : Z) : Z := (t - t mod 1000)%Z.
Definition db_now `{Env} : Tx Z := now <- utc_now ;; ret (truncate_micros now).

(** [events::thread_scope_in_tx]: a thread's workspace and channel. *)
Definition thread_scope (d : Db) (thread : N) : option (N * N) :=
  t ← threads d !! thread;
  c ← channels d !! t_channel t;
  Some (c_ws c, t_channel t).
Definition thread_scope_in_tx (thread : N) : Tx (N * N) :=
  s <- read (fun d => thread_scope d thread) ;; ok_or s NotFound.

(** A live thread with its workspace: [maidan_threads t JOIN maidan_channels c
    … WHERE t.id = ? AND t.tombstoned_at IS NULL]. *)
Definition live_thread (d : Db) (thread : N) : option (ThreadRow * N) :=
  t ← threads d !! thread;
  c ← channels d !! t_channel t;
  if decide (t_tombstoned t = None) then Some (t, c_ws c) else None.


(** [UPDATE maidan_threads SET … WHERE id = ? AND … RETURNING …]: the row as it
    was written, or nothing when no row matched. *)
Definition update_thread (id : N) (where_ : Db -> ThreadRow -> bool) (set : ThreadRow -> ThreadRow) :
    Tx (option ThreadRow) :=
  fun w =>
    match threads (db w) !! id with
    | Some t =>
        if where_ (db w) t
        then (Ok (Some (set t)),
              {| db := upd_threads (fun m => <[id := set t]> m) (db w);
                 ticks := ticks w; ids := ids w |})
        else (Ok None, w)
    | None => (Ok None, w)
    end.

(** The foreign key of a member column. *)
Definition member_fk (member : N) : Tx unit :=
  known <- read (fun d => bool_decide (is_Some (members d !! member))) ;;
  if known then ret tt else fail Database.

(** The foreign key of a thread column. *)
Definition thread_fk (thread : N) : Tx unit :=
  known <- read (fun d => bool_decide (is_Some (threads d !! thread))) ;;
  if known then ret tt else fail Database.

(** The foreign key of a workspace column. *)
Definition workspace_fk (ws : N) : Tx unit :=
  known <- read (fun d => bool_decide (is_Some (workspaces d !! ws))) ;;
  if known then ret tt else fail Database.

(** The triggers of migration 0144: a write to a thread's content counts in its
    version. *)
Definition bump_version (thread : N) : Tx unit :=
  known <- read (fun d => bool_decide (is_Some (threads d !! thread))) ;;
  when known (write (upd_thread_versions (fun m => <[thread := (default 0 (m !! thread) + 1)%Z]> m))).
