(* ===== verification/Auth.v ===== *)
(** * Capabilities and the caller's context

    [crates/maidan-auth/src/capability.rs], [capability_set.rs] and
    [context.rs]: the capability vocabulary, named sets and their attenuation,
    the expiry of derived tokens, and the resolved identity of a caller. An
    error message is a constructor that keeps what the message names. *)

From stdpp Require Import strings.
From S2P Require Import Prelude Text Json EventChain EventLog Db.

(** ** The vocabulary ([capability.rs]) *)

Definition WORKSPACE_READ : str := lit "workspace:read".
Definition WORKSPACE_WRITE : str := lit "workspace:write".
Definition MESSAGE_POST : str := lit "message:post".
Definition THREAD_TRANSITION : str := lit "thread:transition".
Definition ARTIFACT_UPLOAD : str := lit "artifact:upload".
Definition SEARCH_QUERY : str := lit "search:query".
Definition EVENT_SUBSCRIBE : str := lit "event:subscribe".
Definition TOKEN_ADMIN : str := lit "token:admin".
Definition FEDERATION_INGEST : str := lit "federation:ingest".
Definition FEDERATION_ADMIN : str := lit "federation:admin".
Definition AUDIT_READ_GLOBAL : str := lit "audit:read-global".
Definition CHANNEL_ADMIN : str := lit "channel:admin".
Definition SECRET_READ : str := lit "secret:read".
Definition SECRET_ADMIN : str := lit "secret:admin".
Definition OPERATOR_GLOBAL : str := lit "operator:global".
Definition APPROVAL_GRANT : str := lit "approval:grant".
Definition WORKSPACE_ADMIN : str := lit "workspace:admin".

Definition KNOWN : list str :=
  [WORKSPACE_READ; WORKSPACE_WRITE; MESSAGE_POST; THREAD_TRANSITION; ARTIFACT_UPLOAD; SEARCH_QUERY;
   EVENT_SUBSCRIBE; TOKEN_ADMIN; FEDERATION_INGEST; FEDERATION_ADMIN; AUDIT_READ_GLOBAL; OPERATOR_GLOBAL;
   CHANNEL_ADMIN; SECRET_READ; SECRET_ADMIN; APPROVAL_GRANT; WORKSPACE_ADMIN].

(** The capabilities that describe doing work, the only ones a grant carries. *)
Definition DELEGATABLE : list str :=
  [WORKSPACE_READ; WORKSPACE_WRITE; MESSAGE_POST; THREAD_TRANSITION; ARTIFACT_UPLOAD; SEARCH_QUERY;
   EVENT_SUBSCRIBE].

(** [slice::contains]. *)
Definition holds (caps : list str) (cap : str) : bool := bool_decide (cap ∈ caps).

Definition is_delegatable (cap : str) : bool := holds DELEGATABLE cap.
Definition delegatable : list str := DELEGATABLE.
Definition all : list str := KNOWN.
Definition default_minted : list str := [WORKSPACE_READ; WORKSPACE_WRITE; EVENT_SUBSCRIBE; SEARCH_QUERY].
Definition is_known (cap : str) : bool := holds KNOWN cap.

Inductive CapError :=
| UnknownCapability (cap : str)
| ExceedsInstallation (cap : str)
| ExceedsHolder (cap : str)
| ExceedsSet (cap : str)
| UnknownSet (name : str)
| EmptyAttenuation
| EmptyRequest
| NotInFuture
| OutlivesParent
| OutlivesHour
| OutlivesGrant
| OutlivesBearer.

Definition validate_list (caps : list str) : result CapError unit :=
  match List.find (fun c => negb (is_known c)) caps with
  | Some c => Err (UnknownCapability c)
  | None => Ok tt
  end.

(** The containment check. *)
Definition first_not_held (held requested : list str) : option str :=
  List.find (fun c => negb (holds held c)) requested.

Definition validate_subset (granted requested : list str) : result CapError unit :=
  match validate_list requested with
  | Err e => Err e
  | Ok _ =>
      match first_not_held granted requested with
      | Some c => Err (ExceedsInstallation c)
      | None => Ok tt
      end
  end.

(** ** Named sets and attenuation ([capability_set.rs]) *)

Definition AGENT_WORKER : str := lit "maidan.agent.worker".
Definition HUMAN_ADMIN : str := lit "maidan.human.admin".

Record CapabilitySet := { cs_name : str; cs_capabilities : list str }.

Definition worker_caps : list str :=
  [WORKSPACE_READ; WORKSPACE_WRITE; MESSAGE_POST; EVENT_SUBSCRIBE; SEARCH_QUERY; ARTIFACT_UPLOAD;
   THREAD_TRANSITION].
Definition admin_caps : list str :=
  worker_caps
  ++ [TOKEN_ADMIN; CHANNEL_ADMIN; SECRET_READ; SECRET_ADMIN; AUDIT_READ_GLOBAL; OPERATOR_GLOBAL;
      WORKSPACE_ADMIN].

Definition named_sets : list CapabilitySet :=
  [{| cs_name := AGENT_WORKER; cs_capabilities := worker_caps |};
   {| cs_name := HUMAN_ADMIN; cs_capabilities := admin_caps |}].

Definition is_named_set (name : str) : bool :=
  bool_decide (name = AGENT_WORKER) || bool_decide (name = HUMAN_ADMIN).

Definition expand_set (name : str) : result CapError (list str) :=
  match List.find (fun s => bool_decide (cs_name s = name)) named_sets with
  | Some s => Ok (cs_capabilities s)
  | None => Err (UnknownSet name)
  end.

Definition held_sets (held : list str) : list str :=
  cs_name <$> List.filter (fun s => forallb (holds held) (cs_capabilities s)) named_sets.

Definition validate_held (held requested : list str) : result CapError unit :=
  match validate_list requested with
  | Err e => Err e
  | Ok _ =>
      match first_not_held held requested with
      | Some c => Err (ExceedsHolder c)
      | None => Ok tt
      end
  end.

(** The loop keeps what it has not kept yet, in first-seen order. *)
Definition unique_strs (caps : list str) : list str :=
  foldl (fun out c => if holds out c then out else out ++ [c]) [] caps.
Definition unique_in_order (caps : list str) : list str := unique_strs caps.

Definition attenuate (held requested : list str) : result CapError (list str) :=
  match requested with
  | [] => Err EmptyAttenuation
  | _ =>
      match validate_held held requested with
      | Err e => Err e
      | Ok _ => Ok (unique_in_order requested)
      end
  end.

(** A request over the set is refused in the set's name. *)
Definition in_set (e : CapError) : CapError :=
  match e with ExceedsHolder c => ExceedsSet c | _ => e end.

Definition progressive_grant (held : list str) (set : option str) (requested : list str) :
    result CapError (list str) :=
  match set, requested with
  | Some name, [] =>
      match expand_set name with
      | Err e => Err e
      | Ok expanded =>
          match validate_held held expanded with Err e => Err e | Ok _ => Ok expanded end
      end
  | Some name, _ =>
      match expand_set name with
      | Err e => Err e
      | Ok expanded =>
          match validate_held expanded requested with
          | Err e => Err (in_set e)
          | Ok _ => attenuate held requested
          end
      end
  | None, [] => Err EmptyRequest
  | None, _ => attenuate held requested
  end.

(** ** Expiry *)

Definition attenuate_expiry (parent requested : option Z) (now : Z) : result CapError (option Z) :=
  match requested with
  | Some exp =>
      if (exp <=? now)%Z then Err NotInFuture
      else if match parent with Some p => (p <? exp)%Z | None => false end then Err OutlivesParent
      else Ok (Some exp)
  | None => Ok parent
  end.

Definition DELEGATED_TOKEN_DEFAULT_TTL_SECS : Z := 15 * 60.
Definition DELEGATED_TOKEN_MAX_TTL_SECS : Z := 60 * 60.

Definition delegated_expiry (grant_expires_at : Z) (parent_expires_at requested : option Z) (now : Z) :
    result CapError Z :=
  let default_expiry := (now + secs DELEGATED_TOKEN_DEFAULT_TTL_SECS)%Z in
  let expires_at :=
    match requested with
    | Some r => r
    | None =>
        let expiry := Z.min default_expiry grant_expires_at in
        match parent_expires_at with Some p => Z.min expiry p | None => expiry end
    end in
  if (expires_at <=? now)%Z then Err NotInFuture
  else if (now + secs DELEGATED_TOKEN_MAX_TTL_SECS <? expires_at)%Z then Err OutlivesHour
  else if (grant_expires_at <? expires_at)%Z then Err OutlivesGrant
  else if match parent_expires_at with Some p => (p <? expires_at)%Z | None => false end then Err OutlivesBearer
  else Ok expires_at.

(** ** The caller ([context.rs]) *)

Record AuthContext := {
  ac_token : option N;
  (** The member presenting authority, and the member actions are attributed to. *)
  ac_actor : N;
  ac_member : N;
  ac_workspace : N;
  ac_installation : option N;
  ac_grant : option N;
  ac_capabilities : list str;
  ac_bypass : bool;
  ac_anonymous : bool
}.

Definition from_token (token member workspace : N) (capabilities : list str) : AuthContext :=
  {| ac_token := Some token; ac_actor := member; ac_member := member; ac_workspace := workspace;
     ac_installation := None; ac_grant := None; ac_capabilities := capabilities; ac_bypass := false;
     ac_anonymous := false |}.
Definition from_app_token (token member workspace installation : N) (capabilities : list str) : AuthContext :=
  {| ac_token := Some token; ac_actor := member; ac_member := member; ac_workspace := workspace;
     ac_installation := Some installation; ac_grant := None; ac_capabilities := capabilities;
     ac_bypass := false; ac_anonymous := false |}.
Definition from_session (member workspace : N) (capabilities : list str) : AuthContext :=
  {| ac_token := None; ac_actor := member; ac_member := member; ac_workspace := workspace;
     ac_installation := None; ac_grant := None; ac_capabilities := capabilities; ac_bypass := false;
     ac_anonymous := false |}.
(** [Uuid::nil()] is zero. *)
Definition bypass_context : AuthContext :=
  {| ac_token := None; ac_actor := 0; ac_member := 0; ac_workspace := 0; ac_installation := None;
     ac_grant := None; ac_capabilities := []; ac_bypass := true; ac_anonymous := false |}.
Definition anonymous_reader (member workspace : N) : AuthContext :=
  {| ac_token := None; ac_actor := member; ac_member := member; ac_workspace := workspace;
     ac_installation := None; ac_grant := None; ac_capabilities := [WORKSPACE_READ]; ac_bypass := false;
     ac_anonymous := true |}.
(** The one place a borrowed context is built: authority is dropped here. *)
Definition from_delegated_token (token actor subject workspace grant : N) (capabilities : list str) : AuthContext :=
  {| ac_token := Some token; ac_actor := actor; ac_member := subject; ac_workspace := workspace;
     ac_installation := None; ac_grant := Some grant;
     ac_capabilities := List.filter is_delegatable capabilities; ac_bypass := false; ac_anonymous := false |}.

Definition attribution (auth : AuthContext) : option Attribution :=
  if ac_bypass auth then None
  else Some {| actor_id := ac_actor auth; subject_id := ac_member auth; grant_id := ac_grant auth |}.

Definition has_capability (auth : AuthContext) (cap : str) : bool :=
  ac_bypass auth || holds (ac_capabilities auth) cap.

Inductive Forbidding :=
| MissingCapability (cap : str)
| OtherWorkspace
| NotChannelMember
| NotDmParticipant
| WorkspaceSuspended.

Inductive AuthError :=
| Unauthorized
| Forbidden (why : Forbidding)
| AuthStore (e : StoreError).

Definition require_capability (auth : AuthContext) (cap : str) : result AuthError unit :=
  if has_capability auth cap then Ok tt else Err (Forbidden (MissingCapability cap)).
Definition ensure_workspace (auth : AuthContext) (workspace : N) : result AuthError unit :=
  if ac_bypass auth || bool_decide (ac_workspace auth = workspace) then Ok tt else Err (Forbidden OtherWorkspace).

(** ** Requests

    What runs outside one transaction: calls to the store in sequence, with an
    error type of its own. A failed store call has rolled its own tables back. *)

Definition Req (E A : Type) : Type := World -> result E A * World.

Definition rret {E A} (a : A) : Req E A := fun w => (Ok a, w).
Definition rfail {E A} (e : E) : Req E A := fun w => (Err e, w).
Definition rbind {E A B} (m : Req E A) (f : A -> Req E B) : Req E B :=
  fun w => match m w with (Ok a, w') => f a w' | (Err e, w') => (Err e, w') end.
Definition check_ {E F A} (into : E -> F) (r : result E A) : Req F A :=
  match r with Ok a => rret a | Err e => rfail (into e) end.
Definition call {E A} (into : StoreError -> E) (m : Tx A) : Req E A :=
  fun w => match m w with (Ok a, w') => (Ok a, w') | (Err e, w') => (Err (into e), w') end.

Declare Scope req_scope.
Delimit Scope req_scope with req.
Notation "x <- m ;; k" := (rbind m (fun x => k))
  (at level 100, m at next level, right associativity) : req_scope.
Notation "m ;; k" := (rbind m (fun _ => k)) (at level 100, right associativity) : req_scope.
