(* ===== verification/Budget.v ===== *)
(** * Thread budgets

    [ThreadBudget::exceeded] of [crates/maidan-types/src/models.rs] and
    [crates/maidan-store/src/sqlite/budget.rs]: limits, accumulated usage, the
    wall time a claim is charged, and the stop of a run that goes over. *)

From stdpp Require Import strings.
From S2P Require Import Prelude Text Json EventChain EventLog Db.
Local Open Scope tx_scope.

Inductive BudgetReason := Tokens | Usd | Turns | Wall.
Global Instance BudgetReason_eq_dec : EqDecision BudgetReason.
Proof. solve_decision. Defined.

Definition reason_as_str (r : BudgetReason) : string :=
  match r with Tokens => "tokens" | Usd => "usd" | Turns => "turns" | Wall => "wall" end.

(** [i64::saturating_add]. *)
Definition saturating_add (a b : Z) : Z := clamp I64_MIN I64_MAX (a + b).

(** The closure [bound]: a dimension binds at its limit, when it has one. *)
Definition bound (used : Z) (max : option Z) : bool :=
  match max with Some m => (0 <? m)%Z && (m <=? used)%Z | None => false end.

Definition exceeded (b : BudgetRow) (wall_secs_elapsed : option Z) : option BudgetReason :=
  if bound (used_tokens b) (max_tokens b) then Some Tokens
  else if bound (used_usd_micros b) (max_usd_micros b) then Some Usd
  else if bound (used_turns b) (max_turns b) then Some Turns
  else
    let worked := saturating_add (used_wall_secs b) (Z.max (default 0%Z wall_secs_elapsed) 0) in
    if bound worked (max_wall_secs b) then Some Wall else None.

Record BudgetLimits := {
  l_tokens : option Z; l_usd_micros : option Z; l_turns : option Z; l_wall_secs : option Z
}.
Definition no_limits : BudgetLimits :=
  {| l_tokens := None; l_usd_micros := None; l_turns := None; l_wall_secs := None |}.
Definition limits_of (b : BudgetRow) : BudgetLimits :=
  {| l_tokens := max_tokens b; l_usd_micros := max_usd_micros b;
     l_turns := max_turns b; l_wall_secs := max_wall_secs b |}.

(** A row inserted at [now], with the columns' defaults. *)
Definition empty_budget (now : Z) : BudgetRow :=
  {| max_tokens := None; max_usd_micros := None; max_turns := None; max_wall_secs := None;
     used_tokens := 0; used_usd_micros := 0; used_turns := 0; used_wall_secs := 0;
     used_input_tokens := 0; used_output_tokens := 0; used_cache_read_tokens := 0;
     used_cache_write_5m_tokens := 0; used_cache_write_1h_tokens := 0;
     b_created := now; b_updated := now |}.

Definition eta_BudgetRow (b : BudgetRow) : BudgetRow :=
  {| max_tokens := max_tokens b; max_usd_micros := max_usd_micros b; max_turns := max_turns b;
     max_wall_secs := max_wall_secs b; used_tokens := used_tokens b;
     used_usd_micros := used_usd_micros b; used_turns := used_turns b;
     used_wall_secs := used_wall_secs b; used_input_tokens := used_input_tokens b;
     used_output_tokens := used_output_tokens b; used_cache_read_tokens := used_cache_read_tokens b;
     used_cache_write_5m_tokens := used_cache_write_5m_tokens b;
     used_cache_write_1h_tokens := used_cache_write_1h_tokens b;
     b_created := b_created b; b_updated := b_updated b |}.

Definition upd_max_tokens : (option Z -> option Z) -> BudgetRow -> BudgetRow := ltac:(field_setter eta_BudgetRow max_tokens).
Definition upd_max_usd_micros : (option Z -> option Z) -> BudgetRow -> BudgetRow := ltac:(field_setter eta_BudgetRow max_usd_micros).
Definition upd_max_turns : (option Z -> option Z) -> BudgetRow -> BudgetRow := ltac:(field_setter eta_BudgetRow max_turns).
Definition upd_max_wall_secs : (option Z -> option Z) -> BudgetRow -> BudgetRow := ltac:(field_setter eta_BudgetRow max_wall_secs).
Definition upd_used_tokens : (Z -> Z) -> BudgetRow -> BudgetRow := ltac:(field_setter eta_BudgetRow used_tokens).
Definition upd_used_usd_micros : (Z -> Z) -> BudgetRow -> BudgetRow := ltac:(field_setter eta_BudgetRow used_usd_micros).
Definition upd_used_turns : (Z -> Z) -> BudgetRow -> BudgetRow := ltac:(field_setter eta_BudgetRow used_turns).
Definition upd_used_wall_secs : (Z -> Z) -> BudgetRow -> BudgetRow := ltac:(field_setter eta_BudgetRow used_wall_secs).
Definition upd_b_updated : (Z -> Z) -> BudgetRow -> BudgetRow := ltac:(field_setter eta_BudgetRow b_updated).

(** What each statement sets, the time apart. *)
Definition with_limits (l : BudgetLimits) (b : BudgetRow) : BudgetRow :=
  upd_max_tokens (fun _ => l_tokens l)
    (upd_max_usd_micros (fun _ => l_usd_micros l)
       (upd_max_turns (fun _ => l_turns l) (upd_max_wall_secs (fun _ => l_wall_secs l) b))).

Record UsageDelta := { d_tokens : Z; d_usd_micros : Z; d_turns : Z }.

Definition with_usage (u : UsageDelta) (b : BudgetRow) : BudgetRow :=
  upd_used_tokens (fun n => n + d_tokens u)%Z
    (upd_used_usd_micros (fun n => n + d_usd_micros u)%Z (upd_used_turns (fun n => n + d_turns u)%Z b)).

Definition with_wall (secs : Z) (b : BudgetRow) : BudgetRow := upd_used_wall_secs (fun n => n + secs)%Z b.

Section env.
Context `{JsonText, Sha256, Env}.

(** [INSERT … ON CONFLICT (thread_id) DO UPDATE … RETURNING]. The thread id is a
    foreign key. *)
Definition upsert_budget (thread : N) (f : BudgetRow -> BudgetRow) : Tx BudgetRow :=
  present <- read (fun d => bool_decide (is_Some (threads d !! thread))) ;;
  if negb present then fail Database
  else
    now <- utc_now ;;
    current <- read (fun d => default (empty_budget now) (thread_budgets d !! thread)) ;;
    let row := upd_b_updated (fun _ => now) (f current) in
    write (upd_thread_budgets (fun m => <[thread := row]> m)) ;;
    ret row.

(** [row_to_budget]: SQLite stores an integer sum beyond 64 bits as REAL, and
    reading such a column as an integer ends the call. *)
Definition row_fits (b : BudgetRow) : bool :=
  forallb (fun n => (I64_MIN <=? n)%Z && (n <=? I64_MAX)%Z)
    [used_tokens b; used_usd_micros b; used_turns b; used_wall_secs b; used_input_tokens b; used_output_tokens b;
     used_cache_read_tokens b; used_cache_write_5m_tokens b; used_cache_write_1h_tokens b].
Definition row_to_budget (b : BudgetRow) : Tx BudgetRow := if row_fits b then ret b else fail Database.

Definition set_budget (thread : N) (limits : BudgetLimits) : Tx BudgetRow :=
  row <- commit (upsert_budget thread (with_limits limits)) ;;
  row_to_budget row.

Definition get_budget (thread : N) : Tx (option BudgetRow) :=
  row <- read (fun d => thread_budgets d !! thread) ;;
  match row with
  | Some row => b <- row_to_budget row ;; ret (Some b)
  | None => ret None
  end.

(** [BudgetPatch]: only the dimensions a patch names. *)
Record BudgetPatch := {
  pt_tokens : option (option Z); pt_usd_micros : option (option Z);
  pt_turns : option (option Z); pt_wall_secs : option (option Z)
}.
Definition patch_apply (p : BudgetPatch) (l : BudgetLimits) : BudgetLimits :=
  {| l_tokens := default (l_tokens l) (pt_tokens p);
     l_usd_micros := default (l_usd_micros l) (pt_usd_micros p);
     l_turns := default (l_turns l) (pt_turns p);
     l_wall_secs := default (l_wall_secs l) (pt_wall_secs p) |}.
Definition patch_budget (thread : N) (p : BudgetPatch) : Tx BudgetRow :=
  row <- commit
    (current <- read (fun d => thread_budgets d !! thread) ;;
     let base := match current with Some row => limits_of row | None => no_limits end in
     upsert_budget thread (with_limits (patch_apply p base))) ;;
  row_to_budget row.

Definition add_usage_in_tx (thread : N) (delta : UsageDelta) : Tx BudgetRow :=
  row <- upsert_budget thread (with_usage delta) ;;
  row_to_budget row.
(** [add_usage] runs on the pool: its row is stored before it is read back, and a
    sum beyond 64 bits stays although the call fails. *)
Definition add_usage (thread : N) (delta : UsageDelta) : Tx BudgetRow :=
  row <- commit (upsert_budget thread (with_usage delta)) ;;
  row_to_budget row.

(** A claim's worked seconds, charged; [None] charges nothing and reads the
    budget. The seconds between two times of chrono are below [2^44], so their sum
    is taken not to reach [2^63]; a row whose sums [add_usage] already drove beyond
    64 bits is read here as it is, where the code ends the call. *)
Definition charge_wall_in_tx (thread : N) (worked_secs : option Z) : Tx (option BudgetRow) :=
  match worked_secs with
  | Some secs => row <- upsert_budget thread (with_wall secs) ;; ret (Some row)
  | None => read (fun d => thread_budgets d !! thread)
  end.

(** A stop records the wall time it measured. *)
Definition keep_stopped_wall (thread : N) (budget : BudgetRow) (wall : option Z) : Tx BudgetRow :=
  match wall with
  | Some s =>
      let s := Z.max s 0 in
      if (0 <? s)%Z then charged <- charge_wall_in_tx thread (Some s) ;; ret (default budget charged)
      else ret budget
  | None => ret budget
  end.

(** The claim columns of a row, cleared. *)
Definition clear_claim (now : Z) (t : ThreadRow) : ThreadRow :=
  {| t_channel := t_channel t; t_parent := t_parent t; t_title := t_title t;
     t_description := t_description t; t_state := t_state t; t_created := t_created t;
     t_updated := now; t_tombstoned := t_tombstoned t; t_assignee := None; t_expires := None;
     t_lease := None; t_claimed := None; t_started := None; t_owner := t_owner t;
     t_created_by := t_created_by t; t_unacknowledged := t_unacknowledged t |}.

(** [dlq::record_in_tx]; its references are those of the columns the ids were
    read from. *)
Definition dlq_record_in_tx (ws channel thread member : N) (reason : string) (budget : BudgetRow) : Tx DlqRow :=
  id <- new_uuid ;;
  now <- utc_now ;;
  let row := {| d_id := id; d_ws := ws; d_channel := channel; d_thread := thread; d_member := member;
                d_reason := reason; d_used_tokens := used_tokens budget;
                d_used_usd_micros := used_usd_micros budget; d_used_turns := used_turns budget;
                d_failed := now |} in
  write (upd_dead_letters (fun l => l ++ [row])) ;;
  ret row.

(** Append [ClaimFailed] and dead-letter the run. *)
Definition fail_claim_in_tx (ws channel thread : N) (row : ThreadRow) (holder : N)
    (reason : BudgetReason) (budget : BudgetRow) : Tx EventRow :=
  now <- utc_now ;;
  stored <- append_in_tx (ClaimFailed now ws channel thread holder (reason_as_str reason) row) ;;
  dlq_record_in_tx ws channel thread holder (reason_as_str reason) budget ;;
  ret stored.

Record UsageReport := { ur_budget : BudgetRow; ur_stopped : bool; ur_reason : option string }.

(** Report usage and enforce the budget. *)
Definition report_usage (thread : N) (delta : UsageDelta) : Tx (UsageReport * option EventRow) :=
  commit
    (budget <- add_usage_in_tx thread delta ;;
     ctx <- read (fun d => live_thread d thread) ;;
     tc <- ok_or ctx NotFound ;;
     let t := fst tc in let ws := snd tc in
     now <- utc_now ;;
     let wall := (fun w => num_seconds (now - w)) <$> t_started t in
     match exceeded budget wall, t_assignee t with
     | Some reason, Some member =>
         budget' <- keep_stopped_wall thread budget wall ;;
         now' <- utc_now ;;
         cleared <- update_thread thread (fun _ _ => true) (clear_claim now') ;;
         row <- ok_or cleared NotFound ;;
         stored <- fail_claim_in_tx ws (t_channel t) thread row member reason budget' ;;
         ret ({| ur_budget := budget'; ur_stopped := true; ur_reason := Some (reason_as_str reason) |},
              Some stored)
     | _, _ =>
         ret ({| ur_budget := budget; ur_stopped := false; ur_reason := None |}, None)
     end).
End env.
