(* ===== verification/TxLogic.v ===== *)
(** * Reasoning about transactions

    [wp m Q E w] says what a transaction returns and leaves behind: [Q] for a
    value, [E] for an error. [keeps n R m] says that every run of [m], from a
    world that has given out at least [n] identifiers, relates the worlds
    before and after it by [R], whatever it returns. A relation closed under
    rollback is a [TxRel]; the lemmas of the hint database [keeps] carry such
    a relation through an operation down to its [UPDATE]s. *)

From S2P Require Import Prelude Text Json EventChain EventLog Db Budget.
Local Open Scope tx_scope.

(** ** Weakest preconditions *)

Definition wp {A} (m : Tx A) (Q : A -> World -> Prop) (E : StoreError -> World -> Prop)
    (w : World) : Prop :=
  match m w with (Ok a, w') => Q a w' | (Err e, w') => E e w' end.

Lemma wp_bind {A B} (m : Tx A) (k : A -> Tx B) Q E w :
  wp m (fun a => wp (k a) Q E) E w -> wp (bind m k) Q E w.
Proof. unfold wp, bind. by destruct (m w) as [[a|e] w']. Qed.

Lemma bind_Ok {A B} (m : Tx A) (k : A -> Tx B) w a w' : m w = (Ok a, w') -> bind m k w = k a w'.
Proof. intros E. unfold bind. by rewrite E. Qed.

Lemma bind_Err {A B} (m : Tx A) (k : A -> Tx B) w e w' : m w = (Err e, w') -> bind m k w = (Err e, w').
Proof. intros E. unfold bind. by rewrite E. Qed.

Lemma bind_Ok_inv {A B} (m : Tx A) (k : A -> Tx B) w b w' :
  bind m k w = (Ok b, w') -> exists a w1, m w = (Ok a, w1) /\ k a w1 = (Ok b, w').
Proof. unfold bind. destruct (m w) as [[a|e] w1]; [eauto|done]. Qed.

Lemma bind_Err_inv {A B} (m : Tx A) (k : A -> Tx B) w e w' :
  bind m k w = (Err e, w') -> m w = (Err e, w') \/ exists a w1, m w = (Ok a, w1) /\ k a w1 = (Err e, w').
Proof. unfold bind. destruct (m w) as [[a|e1] w1]; [eauto|]. intros [= -> ->]. by left. Qed.

Lemma commit_Ok {A} (m : Tx A) w a w' : commit m w = (Ok a, w') -> m w = (Ok a, w').
Proof. unfold commit. destruct (m w) as [[a1|e] w1]; naive_solver. Qed.

Lemma commit_Err {A} (m : Tx A) w e w' : commit m w = (Err e, w') -> db w' = db w.
Proof. unfold commit. destruct (m w) as [[a1|e1] w1]; [done|]. by intros [= _ <-]. Qed.

Lemma lift_Ok {E A} (f : E -> StoreError) (x : result E A) w a w' : lift f x w = (Ok a, w') -> x = Ok a /\ w' = w.
Proof. destruct x; [|done]. by intros [= <- <-]. Qed.
Lemma ok_or_Ok {A} (o : option A) e w a w' : ok_or o e w = (Ok a, w') -> o = Some a /\ w' = w.
Proof. destruct o; [|done]. by intros [= <- <-]. Qed.

Lemma read_Ok {A} (f : Db -> A) w a w' : read f w = (Ok a, w') -> a = f (db w) /\ w' = w.
Proof. by intros [= <- <-]. Qed.

Lemma bind_read {A B} (f : Db -> A) (k : A -> Tx B) w : bind (read f) k w = k (f (db w)) w.
Proof. done. Qed.

Lemma ret_Ok {A} (a : A) w b w' : ret a w = (Ok b, w') -> b = a /\ w' = w.
Proof. by intros [= <- <-]. Qed.

Lemma update_thread_Ok id where_ set w r w' :
  update_thread id where_ set w = (Ok r, w') ->
  match r with
  | Some t' => exists t, threads (db w) !! id = Some t /\ where_ (db w) t = true /\ t' = set t
                         /\ w' = {| db := upd_threads (fun m => <[id := t']> m) (db w);
                                    ticks := ticks w; ids := ids w |}
  | None => w' = w /\ forall t, threads (db w) !! id = Some t -> where_ (db w) t = false
  end.
Proof.
  unfold update_thread. destruct (threads (db w) !! id) as [t|]; [|by intros [= <- <-]].
  destruct (where_ (db w) t) eqn:Ew; intros [= <- <-]; [by exists t|]. split; [done|]. by intros ? [= <-].
Qed.

Lemma wp_mono {A} (m : Tx A) (Q Q' : A -> World -> Prop) (E E' : StoreError -> World -> Prop) w :
  (forall a w', Q a w' -> Q' a w') -> (forall e w', E e w' -> E' e w') ->
  wp m Q E w -> wp m Q' E' w.
Proof. unfold wp. destruct (m w) as [[a|e] w']; auto. Qed.

(** Leave the tables as they were, keeping the readings taken. *)
Definition rolled_back (w w' : World) : World :=
  {| db := db w; ticks := ticks w'; ids := ids w' |}.

Lemma wp_commit {A} (m : Tx A) Q E w :
  wp m Q (fun e w' => E e (rolled_back w w')) w -> wp (commit m) Q E w.
Proof. unfold wp, commit. by destruct (m w) as [[a|e] w']. Qed.

Lemma wp_run {A} (m : Tx A) Q E w : wp m Q E w <->
  match (m w).1 with Ok a => Q a (m w).2 | Err e => E e (m w).2 end.
Proof. unfold wp. by destruct (m w) as [[a|e] w']. Qed.

(** ** Relations kept by every run *)

Class TxRel (R : World -> World -> Prop) : Prop := {
  tx_advance w t i : ids w <= i -> R w {| db := db w; ticks := t; ids := i |};
  tx_trans w1 w2 w3 : ids w1 <= ids w2 -> ids w2 <= ids w3 -> R w1 w2 -> R w2 w3 -> R w1 w3
}.

Definition kept_at {A} (R : World -> World -> Prop) (m : Tx A) (w : World) : Prop :=
  ids w <= ids (m w).2 /\ R w (m w).2.
Definition keeps {A} (n : nat) (R : World -> World -> Prop) (m : Tx A) : Prop :=
  forall w, n <= ids w -> kept_at R m w.

Create HintDb keeps.

Section keeps.
Context (R : World -> World -> Prop) `{!TxRel R}.

Lemma tx_same w : R w w.
Proof. destruct w as [d t i]. by apply (tx_advance (R:=R) {| db := d; ticks := t; ids := i |}). Qed.

Lemma keeps_ret {A} n (a : A) : keeps n R (ret a).
Proof. split; [done|apply tx_same]. Qed.

Lemma keeps_fail {A} n e : keeps n R (@fail A e).
Proof. split; [done|apply tx_same]. Qed.

Lemma keeps_read {A} n (f : Db -> A) : keeps n R (read f).
Proof. split; [done|apply tx_same]. Qed.

Lemma kept_at_bind {A B} (m : Tx A) (k : A -> Tx B) w :
  kept_at R m w -> (forall a, keeps (ids w) R (k a)) -> kept_at R (bind m k) w.
Proof.
  intros [Hi HR] Hk. unfold kept_at, bind. destruct (m w) as [[a|e] w'] eqn:E; simpl in *; [|done].
  destruct (Hk a w' Hi) as [Hi' HR']. split; [lia|]. by eapply tx_trans.
Qed.

Lemma keeps_bind {A B} n (m : Tx A) (k : A -> Tx B) :
  keeps n R m -> (forall a, keeps n R (k a)) -> keeps n R (bind m k).
Proof.
  intros Hm Hk w Hw. apply kept_at_bind; [by apply Hm|]. intros a w' Hw'. apply Hk. lia.
Qed.

Lemma keeps_write n f :
  (forall w, R w {| db := f (db w); ticks := ticks w; ids := ids w |}) -> keeps n R (write f).
Proof. intros H w _. split; [done|apply H]. Qed.

Lemma keeps_update n id where_ set :
  (forall w t, n <= ids w -> threads (db w) !! id = Some t -> where_ (db w) t = true ->
     R w {| db := upd_threads (fun m => <[id := set t]> m) (db w); ticks := ticks w; ids := ids w |}) ->
  keeps n R (update_thread id where_ set).
Proof.
  intros H w Hn. unfold kept_at, update_thread. destruct (threads (db w) !! id) as [t|] eqn:E.
  - destruct (where_ (db w) t) eqn:Ew; (split; [done|]); [by apply H|apply tx_same].
  - split; [done|apply tx_same].
Qed.

Lemma keeps_ok_or {A} n (o : option A) e : keeps n R (ok_or o e).
Proof. destruct o; [apply keeps_ret|apply keeps_fail]. Qed.

Lemma keeps_when n b m : keeps n R m -> keeps n R (when b m).
Proof. destruct b; [done|]. intros _. apply keeps_ret. Qed.

Lemma keeps_lift {E A} n (f : E -> StoreError) (r : result E A) : keeps n R (lift f r).
Proof. destruct r; [apply keeps_ret|apply keeps_fail]. Qed.

Lemma keeps_for_each {A B} n (f : A -> Tx B) l :
  (forall x, keeps n R (f x)) -> keeps n R (for_each f l).
Proof.
  intros Hf. induction l as [|x l IH]; simpl; [apply keeps_ret|].
  apply keeps_bind; [done|]. intros y. apply keeps_bind; [done|]. intros ys. apply keeps_ret.
Qed.

Lemma keeps_for_each_in {A B} n (f : A -> Tx B) l :
  (forall x, x ∈ l -> keeps n R (f x)) -> keeps n R (for_each f l).
Proof.
  intros Hf. induction l as [|x l IH]; simpl; [apply keeps_ret|].
  apply keeps_bind; [apply Hf; by left|]. intros y. apply keeps_bind; [apply IH; intros; apply Hf; by right|].
  intros ys. apply keeps_ret.
Qed.

(** A first call, whose answer the rest may use. *)
Lemma kept_at_bind_run {A B} (m : Tx A) (k : A -> Tx B) w :
  kept_at R m w -> (forall a w', m w = (Ok a, w') -> kept_at R (k a) w') -> kept_at R (bind m k) w.
Proof.
  intros [Hi HR] Hk. unfold kept_at, bind. destruct (m w) as [[a|e] w'] eqn:E; simpl in *; [|done].
  destruct (Hk a w' eq_refl) as [Hi' HR']. split; [lia|]. by eapply tx_trans.
Qed.

Lemma kept_at_read {A B} (f : Db -> A) (k : A -> Tx B) w :
  kept_at R (k (f (db w))) w -> kept_at R (bind (read f) k) w.
Proof. done. Qed.

Lemma kept_at_ok_or {A B} (o : option A) e (k : A -> Tx B) w :
  (forall a, o = Some a -> kept_at R (k a) w) -> kept_at R (bind (ok_or o e) k) w.
Proof. destruct o as [a|]; intros Hk; [by apply (Hk a)|]. split; [done|apply tx_same]. Qed.

Lemma kept_at_lift {E A B} (f : E -> StoreError) (r : result E A) (k : A -> Tx B) w :
  (forall a, r = Ok a -> kept_at R (k a) w) -> kept_at R (bind (lift f r) k) w.
Proof. destruct r as [a|e]; intros Hk; [by apply (Hk a)|]. split; [done|apply tx_same]. Qed.

Lemma kept_at_assert {A} (b : bool) e (k : unit -> Tx A) w :
  (b = true -> kept_at R (k tt) w) -> kept_at R (bind (if b then ret tt else fail e) k) w.
Proof. destruct b; intros Hk; [by apply Hk|]. split; [done|apply tx_same]. Qed.

Lemma kept_at_commit {A} (m : Tx A) w : kept_at R m w -> kept_at R (commit m) w.
Proof.
  intros [Hi HR]. unfold kept_at, commit.
  destruct (m w) as [[a|e] w']; simpl in *; [done|]. split; [done|]. by apply tx_advance.
Qed.

Lemma keeps_commit {A} n (m : Tx A) : keeps n R m -> keeps n R (commit m).
Proof. intros Hm w Hw. by apply kept_at_commit, Hm. Qed.

Lemma keeps_transaction {A} n (m : Tx (A * bool)) : keeps n R m -> keeps n R (transaction m).
Proof.
  intros Hm w Hw. unfold kept_at, transaction. destruct (Hm w Hw) as [Hi HR].
  destruct (m w) as [[[a []]|e] w']; simpl in *; [done| |]; (split; [done|]); by apply tx_advance.
Qed.

Section env.
Context `{Env}.

Lemma keeps_utc_now n : keeps n R utc_now.
Proof. intros w _. split; [done|]. by apply tx_advance. Qed.

Lemma keeps_new_uuid n : keeps n R new_uuid.
Proof. intros w _. split; [simpl; lia|]. apply tx_advance. lia. Qed.

(** A fresh identifier is one the world had not given out. *)
Lemma keeps_fresh {A} n (k : N -> Tx A) :
  (forall i, n <= i -> keeps (S i) R (k (uuid i))) -> keeps n R (bind new_uuid k).
Proof.
  intros Hk w Hw. unfold kept_at, bind, new_uuid.
  destruct (Hk (ids w) Hw {| db := db w; ticks := ticks w; ids := S (ids w) |}) as [Hi HR]; [done|].
  simpl in *. split; [lia|]. eapply tx_trans; [| |by apply (tx_advance w (ticks w) (S (ids w))); lia|exact HR];
    simpl; lia.
Qed.

Lemma keeps_db_now n : keeps n R db_now.
Proof. apply keeps_bind; [apply keeps_utc_now|]. intros. apply keeps_ret. Qed.

(** What follows the first reading sees the clock of the world it starts in. *)
Lemma kept_at_now {A} (k : Z -> Tx A) w :
  keeps (ids w) R (k (truncate_micros (clock (ticks w)))) -> kept_at R (bind db_now k) w.
Proof.
  intros Hk. unfold kept_at. rewrite (bind_Ok db_now k w (truncate_micros (clock (ticks w)))
    {| db := db w; ticks := S (ticks w); ids := ids w |}) by done.
  destruct (Hk {| db := db w; ticks := S (ticks w); ids := ids w |}) as [Hi HR]; [done|].
  split; [done|]. eapply tx_trans; [| |apply (tx_advance w (S (ticks w)) (ids w)); done|exact HR]; done.
Qed.

Lemma keeps_thread_scope n t : keeps n R (thread_scope_in_tx t).
Proof. apply keeps_bind; [apply keeps_read|]. intros. apply keeps_ok_or. Qed.

Lemma keeps_member_fk n m : keeps n R (member_fk m).
Proof. apply keeps_bind; [apply keeps_read|]. intros []; [apply keeps_ret|apply keeps_fail]. Qed.

Lemma keeps_thread_fk n t : keeps n R (thread_fk t).
Proof. apply keeps_bind; [apply keeps_read|]. intros []; [apply keeps_ret|apply keeps_fail]. Qed.

Lemma keeps_workspace_fk n ws : keeps n R (workspace_fk ws).
Proof. apply keeps_bind; [apply keeps_read|]. intros []; [apply keeps_ret|apply keeps_fail]. Qed.
End env.
End keeps.

#[export] Hint Resolve keeps_ret keeps_fail keeps_read keeps_ok_or keeps_lift keeps_utc_now
  keeps_new_uuid keeps_db_now keeps_thread_scope keeps_member_fk keeps_thread_fk
  keeps_workspace_fk : keeps.

(** One structural step of a [keeps] goal; the [UPDATE]s and writes stay. *)
Ltac keeps_step_plain :=
  lazymatch goal with
  | |- keeps _ _ (bind _ _) => apply keeps_bind; [try apply _| |intros ?]
  | |- keeps _ _ (commit _) => apply keeps_commit; [try apply _|]
  | |- keeps _ _ (transaction _) => apply keeps_transaction; [try apply _|]
  | |- keeps _ _ (when _ _) => apply keeps_when; [try apply _|]
  | |- keeps _ _ (for_each _ _) => apply keeps_for_each; [try apply _|intros ?]
  | |- keeps _ _ (match ?x with _ => _ end) => destruct x eqn:?
  | |- keeps _ _ (let _ := _ in _) => cbv zeta
  | |- keeps _ _ _ => solve [eauto 12 with keeps typeclass_instances]
  end.
Ltac keeps_plain := repeat keeps_step_plain.

(** The same where it matters that an identifier is new. *)
Ltac keeps_step :=
  lazymatch goal with
  | |- keeps _ _ (bind new_uuid _) => apply keeps_fresh; [try apply _|intros ? ?]
  | _ => keeps_step_plain
  end.
Ltac keeps_auto := repeat keeps_step.

(** Take a run that returned a value apart, one call at a time. *)
Ltac run_step H :=
  lazymatch type of H with
  | bind _ _ _ = (Ok _, _) =>
      let a := fresh "a" in let w := fresh "w" in let E := fresh "E" in
      apply bind_Ok_inv in H as (a & w & E & H)
  end.
