(* ===== verification/AuditTrail.v ===== *)
(** * The audit table

    [crates/maidan-store/src/audit_scope.rs] and [sqlite/audit.rs]: an audited
    change writes its record in its own transaction, through one guard that
    the record names the workspace of what was changed. *)

From S2P Require Import Prelude Text Json EventChain EventLog Db TxLogic.
Local Open Scope tx_scope.

Inductive AuditScope := ScopeWorkspace (ws : N) | ScopeInstance.
Definition scope_workspace_id (s : AuditScope) : option N :=
  match s with ScopeWorkspace ws => Some ws | ScopeInstance => None end.

Record NewAuditEvent := {
  na_scope : AuditScope;
  na_actor : option N;
  na_action : str;
  na_target_kind : option str;
  na_target_id : option N;
  na_metadata : Value
}.

(** What an audited write changed. *)
Inductive AuditOwner :=
| OwnerWorkspace (ws : N)
| OwnerInstance
| OwnerMember (m : N)
| OwnerChannel (c : N)
| OwnerThread (t : N)
| OwnerMessage (m : N).

Definition owner_workspace (d : Db) (o : AuditOwner) : option N :=
  match o with
  | OwnerWorkspace ws => Some ws
  | OwnerInstance => None
  | OwnerMember m => m_ws <$> members d !! m
  | OwnerChannel c => c_ws <$> channels d !! c
  | OwnerThread t => fst <$> thread_scope d t
  | OwnerMessage m => g ← messages d !! m; fst <$> thread_scope d (mg_thread g)
  end.

(** [audit_scope::check]. *)
Definition check (expected : option N) (event : NewAuditEvent) : result StoreError unit :=
  if decide (scope_workspace_id (na_scope event) = expected) then Ok tt
  else Err (InvalidInput AuditScopeMismatch).

(** The next [AUTOINCREMENT] id; rows are never deleted here. *)
Definition next_audit_id (rows : list AuditRow) : Z := (foldr (fun r m => Z.max (au_id r) m) 0 rows + 1)%Z.

Section env.
Context `{Env}.

Definition append_on (new : NewAuditEvent) : Tx AuditRow :=
  now <- utc_now ;;
  rows <- read audit ;;
  let '(actor, subject, grant) := audit_principal (na_actor new) in
  let row := {| au_id := next_audit_id rows; au_occurred := now; au_actor := actor;
                au_subject := subject; au_grant := grant; au_action := na_action new;
                au_target_kind := na_target_kind new; au_target_id := na_target_id new;
                au_metadata := na_metadata new;
                au_workspace := scope_workspace_id (na_scope new) |} in
  write (upd_audit (fun rows => rows ++ [row])) ;;
  ret row.

Definition append_scoped (owner : AuditOwner) (new : NewAuditEvent) : Tx AuditRow :=
  expected <- read (fun d => owner_workspace d owner) ;;
  lift (fun e => e) (check expected new) ;;
  append_on new.
End env.

(** [ORDER BY occurred_at DESC, id DESC LIMIT ?]. *)
Definition newest_first (a b : AuditRow) : Prop :=
  (au_occurred b < au_occurred a \/ (au_occurred a = au_occurred b /\ au_id b <= au_id a))%Z.
Global Instance newest_first_dec : RelDecision newest_first.
Proof. intros a b. unfold newest_first. apply _. Defined.
Definition list_audit_for_workspace (ws : N) (limit : Z) : Tx (list AuditRow) :=
  read (fun d => sql_limit limit
                   (merge_sort newest_first
                      (List.filter (fun r => bool_decide (au_workspace r = Some ws)) (audit d)))).
Definition list_audit (limit : Z) : Tx (list AuditRow) :=
  read (fun d => sql_limit limit (merge_sort newest_first (audit d))).
