(* ===== verification/Claimability.v ===== *)
(** * Which threads the claim queue hands out

    The backend-neutral SQL of the claim queue, as functions of the tables:
    [crates/maidan-store/src/claim_grace.rs], [claimability.rs],
    [footprints.rs], [thread_access.rs], [review_family.rs], [claim_next.rs] and
    [queue_counts.rs]. An [EXISTS] is [existsb] over the rows, a join is a
    lookup that drops the row when it finds nothing, a comparison with a NULL
    is false, and [ORDER BY … LIMIT 1] is [first_by]. *)

From stdpp Require Import strings.
From S2P Require Import Prelude Text Footprint Fsm Db Budget.

(** ** The boot grace ([claim_grace.rs]) *)

Record ClaimGrace := { until_micros : Z }.
Definition no_grace : ClaimGrace := {| until_micros := 0 |}.

Definition timestamp_micros (t : Z) : Z := (t / 1000)%Z.
Definition hold_until (until : Z) : ClaimGrace := {| until_micros := timestamp_micros until |}.
Definition held_until (g : ClaimGrace) : option Z :=
  if decide (until_micros g = 0%Z) then None else Some (until_micros g * 1000)%Z.
Definition holding (g : ClaimGrace) (now : Z) : bool := (timestamp_micros now <? until_micros g)%Z.
(** The time lease deadlines are compared with: the epoch during the grace. *)
Definition lease_clock (g : ClaimGrace) (now : Z) : Z := if holding g now then 0%Z else now.

(** ** Times in SQLite *)

(** [julianday] and [strftime('%s')] read a time at millisecond resolution. *)
Definition sql_ms (t : Z) : Z := ((t + 500000) / 1000000)%Z.
Definition sql_secs (t : Z) : Z := (sql_ms t / 1000)%Z.
(** The time ['now'] of a statement started at [t]: whole milliseconds. *)
Definition sql_now_ms (t : Z) : Z := (t / 1000000)%Z.

(** ** Footprints ([footprints.rs]) *)

(** [x >= now], where a missing deadline never lapses. *)
Definition not_lapsed (expires : option Z) (now : Z) : bool :=
  match expires with None => true | Some e => (now <=? e)%Z end.

Definition live_claim (t : ThreadRow) (now : Z) : bool :=
  bool_decide (is_Some (t_assignee t)) && bool_decide (t_state t = Open)
  && bool_decide (t_tombstoned t = None) && not_lapsed (t_expires t) now.

Definition live_claim_of (d : Db) (thread : N) (now : Z) : bool :=
  match threads d !! thread with Some t => live_claim t now | None => false end.

(** [substr(a, 1, length(b)) = b]: [b] is a prefix of [a]. *)
Definition sql_prefix (a b : str) : bool := bool_decide (take (length b) a = b).

Definition path_keys_overlap (a b : str) : bool := starts_with a b || starts_with b a.

(** The predicates that pair an item with another thread's item. *)
Definition items_overlap (mine theirs : FootprintRow) : bool :=
  bool_decide (f_ws theirs = f_ws mine) && bool_decide (f_repo theirs = f_repo mine)
  && bool_decide (f_namespace theirs = f_namespace mine)
  && negb (bool_decide (f_thread theirs = f_thread mine))
  && negb (bool_decide (f_namespace mine = "slot"))
  && (bool_decide (f_mode mine = Exclusive) || bool_decide (f_mode theirs = Exclusive)
      || bool_decide (f_namespace mine = "branch"))
  && (if decide (f_namespace mine = "path"%string)
      then sql_prefix (f_key mine) (f_key theirs) || sql_prefix (f_key theirs) (f_key mine)
      else bool_decide (f_key mine = f_key theirs)).

Definition footprint_of (d : Db) (thread : N) : list FootprintRow :=
  List.filter (fun f => bool_decide (f_thread f = thread)) (footprints d).

(** The items of other threads' live claims that [thread]'s items overlap. *)
Definition overlapping (d : Db) (thread : N) (now : Z) : list FootprintRow :=
  List.filter
    (fun theirs => existsb (fun mine => items_overlap mine theirs) (footprint_of d thread)
                   && live_claim_of d (f_thread theirs) now)
    (footprints d).

Definition conflicts_with_live_claims (d : Db) (thread : N) (now : Z) : bool :=
  negb (bool_decide (f_thread <$> overlapping d thread now = [])).

(** The threads other than [thread] that hold slot [key] under a live claim. *)
Definition slot_holders (d : Db) (ws : N) (key : str) (thread : N) (now : Z) : list FootprintRow :=
  List.filter
    (fun f => bool_decide (f_ws f = ws) && bool_decide (f_namespace f = "slot")
              && bool_decide (f_key f = key) && negb (bool_decide (f_thread f = thread))
              && live_claim_of d (f_thread f) now)
    (footprints d).
(** [COUNT(DISTINCT sf.thread_id)]. *)
Definition slot_in_use (d : Db) (ws : N) (key : str) (thread : N) (now : Z) : Z :=
  Z.of_nat (size (list_to_set (f_thread <$> slot_holders d ws key thread now) : gset N)).

(** A slot item whose capacity other live claims already fill. *)
Definition slot_at_capacity (d : Db) (now : Z) (slot : FootprintRow) : bool :=
  bool_decide (f_namespace slot = "slot")
  && match slot_capacities d !! (f_ws slot, f_key slot) with
     | Some cap => (cap <=? slot_in_use d (f_ws slot) (f_key slot) (f_thread slot) now)%Z
     | None => false
     end.
Definition full_slots (d : Db) (thread : N) (now : Z) : list FootprintRow :=
  List.filter (slot_at_capacity d now) (footprint_of d thread).
Definition slot_full (d : Db) (thread : N) (now : Z) : bool :=
  existsb (slot_at_capacity d now) (footprint_of d thread).

Definition repo_paused (d : Db) (thread : N) : bool :=
  existsb (fun f => bool_decide (is_Some (repo_pauses d !! (f_ws f, f_repo f)))) (footprint_of d thread).

Definition deferred (d : Db) (thread : N) (now : Z) : bool :=
  conflicts_with_live_claims d thread now || repo_paused d thread || slot_full d thread now.

(** The holders of the full slots of [thread]. *)
Definition full_slot_holders (d : Db) (thread : N) (now : Z) : list FootprintRow :=
  full_slots d thread now ≫=
    fun slot => slot_holders d (f_ws slot) (f_key slot) (f_thread slot) now.

(** The live-claim items that keep [thread] from its footprint. *)
Definition conflicts_select (d : Db) (thread : N) (now : Z) : list FootprintRow :=
  overlapping d thread now ++ full_slot_holders d thread now.

Inductive DeferralReason := Overlap | RepoPaused | SlotFull.

Definition deferral_reasons (overlap paused slot_full : bool) : list DeferralReason :=
  (if overlap then [Overlap] else []) ++ (if paused then [RepoPaused] else [])
  ++ (if slot_full then [SlotFull] else []).

(** ** Reading a thread ([thread_access.rs]) *)

Definition DM_CHANNEL_NAME : str := lit "__dm__".

(** [workspace] is an expression that may be NULL. *)
Definition readable_thread (d : Db) (thread : N) (workspace : option N) (member : N) : bool :=
  match threads d !! thread with
  | None => false
  | Some t =>
      match channels d !! t_channel t, members d !! member with
      | Some c, Some m =>
          bool_decide (m_ws m = c_ws c) && bool_decide (workspace = Some (c_ws c))
          && (if decide (c_name c = DM_CHANNEL_NAME) then
                match dm_conversations d !! thread with
                | Some (low, high) => bool_decide (member = low) || bool_decide (member = high)
                | None => false
                end
                || match group_dms d !! thread with
                   | Some g => bool_decide ((g, member) ∈ group_dm_members d)
                   | None => false
                   end
              else if c_private c then bool_decide ((t_channel t, member) ∈ channel_members d)
              else true)
      | _, _ => false
      end
  end.

Definition readable_by (d : Db) (thread member : N) : bool :=
  readable_thread d thread (m_ws <$> members d !! member) member.

(** ** Provider families ([task_attributes.rs], [review_family.rs]) *)

Definition PROVIDER_FAMILIES : list (str * list str * list str) :=
  [ (lit "anthropic", [lit "anthropic"; lit "claude"], []);
    (lit "openai", [lit "openai"; lit "gpt"; lit "codex"], [lit "o1"; lit "o3"; lit "o4"]);
    (lit "google", [lit "google"; lit "gemini"; lit "vertex"], []);
    (lit "xai", [lit "xai"; lit "grok"], []);
    (lit "deepseek", [lit "deepseek"], []) ].

Fixpoint contains (s word : str) : bool :=
  starts_with s word || match s with [] => false | _ :: s' => contains s' word end.

(** [LOWER] and [LIKE] fold the ASCII letters only. *)
Definition family_sql (provider : option str) (model : str) : option str :=
  let named := to_ascii_lowercase (default [] provider ++ [32%N] ++ model) in
  let model := to_ascii_lowercase model in
  let names e := existsb (contains named) e.1.2
                 || existsb (fun p => bool_decide (model = p) || starts_with model (p ++ [45%N])) e.2 in
  match List.find names PROVIDER_FAMILIES with Some e => Some e.1.1 | None => None end.

Definition review_family_for (author : option str) : option str :=
  match author with
  | None => None
  | Some a => List.find (fun f => negb (bool_decide (f = a))) ((fun e => e.1.1) <$> PROVIDER_FAMILIES)
  end.

(** The family [member] shares with the author of the change [thread] reviews. *)
Definition shared_family (d : Db) (member thread : N) : option str :=
  match thread_attributes d !! thread, thread_scope d thread with
  | Some a, Some (ws, _) =>
      match a_author_family a with
      | Some family =>
          if existsb (fun u => bool_decide (u_reporter u = member) && bool_decide (u_ws u = ws)
                               && bool_decide (family_sql (u_provider u) (u_model u) = Some family))
               (usage_ledger d)
          then Some family else None
      | None => None
      end
  | _, _ => None
  end.
Definition refused_to (d : Db) (member thread : N) : bool :=
  bool_decide (is_Some (shared_family d member thread)).

(** ** The thread's own rules ([claimability.rs]) *)

Definition held (t : ThreadRow) (now : Z) : bool :=
  bool_decide (is_Some (t_assignee t)) && not_lapsed (t_expires t) now.
Definition available (t : ThreadRow) (now : Z) : bool :=
  bool_decide (t_assignee t = None)
  || match t_expires t with Some e => (e <? now)%Z | None => false end.

Definition PARKED (d : Db) (cand : N) : bool := bool_decide (is_Some (thread_unclaimable d !! cand)).

(** [state IN ('open', 'in_review')] of a live thread. *)
Definition unfinished (t : ThreadRow) : bool :=
  bool_decide (t_tombstoned t = None) && (bool_decide (t_state t = Open) || bool_decide (t_state t = InReview)).

Definition DUPLICATE (d : Db) (cand : N) : bool :=
  match task_fingerprints d !! cand with
  | Some fp =>
      match fp_duplicate_of fp with
      | Some orig => match threads d !! orig with Some o => unfinished o | None => false end
      | None => false
      end
  | None => false
  end.

Definition fingerprint_cleared (d : Db) (cand : N) : bool :=
  match task_fingerprints d !! cand with
  | Some fp => bool_decide (is_Some (fp_cleared fp))
  | None => false
  end.

(** Another live change thread of the same issue and workspace is in review. *)
Definition ISSUE_IN_REVIEW (d : Db) (cand : N) (row : ThreadRow) : bool :=
  match thread_attributes d !! cand, channels d !! t_channel row with
  | Some ia, Some ich =>
      match a_linear_issue ia with
      | Some issue =>
          bool_decide (a_kind ia = KChange) && negb (fingerprint_cleared d cand)
          && existsb
               (fun e : N * AttributeRow =>
                  negb (bool_decide (e.1 = cand)) && bool_decide (a_linear_issue e.2 = Some issue)
                  && bool_decide (a_kind e.2 = KChange)
                  && match threads d !! e.1 with
                     | Some o =>
                         bool_decide (t_tombstoned o = None) && bool_decide (t_state o = InReview)
                         && match channels d !! t_channel o with
                            | Some och => bool_decide (c_ws och = c_ws ich)
                            | None => false
                            end
                     | None => false
                     end)
               (map_to_list (thread_attributes d))
      | None => false
      end
  | _, _ => false
  end.

Definition BLOCKED (d : Db) (cand : N) : bool := bool_decide (is_Some (thread_blocks d !! cand)).

Definition WAITING (d : Db) (cand : N) : bool :=
  existsb
    (fun e : N * N * Z =>
       bool_decide (e.1.1 = cand)
       && match threads d !! e.1.2 with
          | Some dep => negb (is_terminal (t_state dep)) || bool_decide (is_Some (unlanded_closes d !! e.1.2))
          | None => false
          end)
    (map_to_list (thread_dependencies d)).

Definition GATED (d : Db) (cand : N) : bool :=
  existsb (fun e : N * GateRow => bool_decide (g_thread e.2 = Some cand) && bool_decide (g_state e.2 = GPending))
    (map_to_list (approval_gates d)).

(** Seconds a lapsed claim worked ([LAPSED_WORKED_SECS]). *)
Definition lapsed_worked_secs (t : ThreadRow) : Z :=
  match t_assignee t, t_started t, t_expires t with
  | Some _, Some started, Some expires => Z.max 0 (sql_secs expires - sql_secs started)
  | _, _, _ => 0
  end.

Definition over_budget (d : Db) (cand : N) (row : ThreadRow) : bool :=
  match thread_budgets d !! cand with
  | Some bu =>
      bound (used_tokens bu) (max_tokens bu) || bound (used_usd_micros bu) (max_usd_micros bu)
      || bound (used_turns bu) (max_turns bu)
      || bound (used_wall_secs bu + lapsed_worked_secs row) (max_wall_secs bu)
  | None => false
  end.

(** [REQUEUED_AFTER_RESULT] compares julian days. *)
Definition finished (d : Db) (cand : N) : bool :=
  match thread_results d !! cand with
  | Some result =>
      negb (existsb (fun tr => bool_decide (tr_thread tr = cand) && bool_decide (tr_to tr = Open)
                               && (sql_ms (rs_at result) <=? sql_ms (tr_at tr))%Z)
              (thread_transitions d))
  | None => false
  end.

Definition withheld (d : Db) (cand : N) (row : ThreadRow) : bool :=
  PARKED d cand || DUPLICATE d cand || ISSUE_IN_REVIEW d cand row
  || over_budget d cand row || finished d cand.

Definition stalled (d : Db) (cand : N) (now : Z) : bool :=
  BLOCKED d cand || WAITING d cand || GATED d cand || deferred d cand now.

Definition claimable (d : Db) (cand : N) (row : ThreadRow) (now : Z) : bool :=
  bool_decide (t_tombstoned row = None) && bool_decide (t_state row = Open) && available row now
  && negb (withheld d cand row) && negb (stalled d cand now).

(** ** The claimer's rules ([claim_next.rs]) *)

Inductive ClaimScope := InChannel (c : N) | InWorkspace (w : N).

Definition in_scope (scope : ClaimScope) (row : ThreadRow) (ch : ChannelRow) : bool :=
  match scope with
  | InChannel c => bool_decide (t_channel row = c)
  | InWorkspace w => bool_decide (c_ws ch = w)
  end.

Definition served_by (d : Db) (cand : N) (repo : option str) (engine : option TaskEngine) : bool :=
  match repo with
  | None => true
  | Some r => existsb (fun f => bool_decide (f_repo f = r)) (footprint_of d cand)
  end
  && match engine with
     | None => true
     | Some e =>
         match thread_attributes d !! cand with
         | Some a => bool_decide (a_engine a = Some e)
         | None => false
         end
     end.

Definition has_skills (d : Db) (member cand : N) : bool :=
  forallb (fun e : N * str => negb (bool_decide (e.1 = cand)) || bool_decide (is_Some (member_skills d !! (member, e.2))))
    (map_to_list (required_skills d)).*1.

(** The largest [last_held_seq] of a thread's workers; NULLs do not count. *)
Definition max_held_seq (d : Db) (thread : N) : option Z :=
  foldr (fun (e : N * N * option Z) acc =>
           if decide (e.1.1 = thread) then
             match e.2, acc with
             | Some s, Some m => Some (Z.max s m)
             | Some s, None => Some s
             | None, _ => acc
             end
           else acc)
    None (map_to_list (thread_workers d)).

Definition warm_for (d : Db) (member cand : N) : bool :=
  match thread_workers d !! (cand, member), max_held_seq d cand with
  | Some (Some s), Some m => bool_decide (s = m)
  | _, _ => false
  end.

Definition WARM_HOLD_SECS : Z := 120.
Definition WARM_TTL_SECS : Z := 300.

(** Both children of one recipe run, or the same fingerprint. *)
Definition shares_prefix (d : Db) (cand sib : N) : bool :=
  match recipe_run_children d !! cand, recipe_run_children d !! sib with
  | Some rc, Some rs => bool_decide (rc = rs)
  | _, _ => false
  end
  || match task_fingerprints d !! cand, task_fingerprints d !! sib with
     | Some fc, Some fs =>
         bool_decide (fp_ws fs = fp_ws fc) && bool_decide (fp_fingerprint fs = fp_fingerprint fc)
     | _, _ => false
     end.

(** [julianday(col) > julianday(t)]. *)
Definition later_than (col t : Z) : bool := (sql_ms t <? sql_ms col)%Z.

Definition sibling_warming (d : Db) (cand : N) (row : ThreadRow) (now hold_since ttl_since : Z) : bool :=
  match t_parent row with
  | None => false
  | Some parent =>
      existsb
        (fun e : N * ThreadRow =>
           let sib := e.2 in
           bool_decide (t_parent sib = Some parent) && negb (bool_decide (e.1 = cand))
           && shares_prefix d cand e.1
           && bool_decide (is_Some (t_assignee sib)) && bool_decide (is_Some (t_lease sib))
           && not_lapsed (t_expires sib) now
           && match t_claimed sib with Some c => later_than c hold_since | None => false end
           && negb (existsb (fun u => bool_decide (u_thread u = e.1) && bool_decide (t_lease sib = Some (u_lease u)))
                      (usage_ledger d)))
        (map_to_list (threads d))
      && negb (existsb
                 (fun u => match threads d !! u_thread u with
                           | Some usib => bool_decide (t_parent usib = Some parent)
                                          && shares_prefix d cand (u_thread u)
                                          && later_than (u_accepted u) ttl_since
                           | None => false
                           end)
                 (usage_ledger d))
  end.

Definition lane_rank (d : Db) (cand : N) (lane : option TaskLane) : Z :=
  let cand_lane := thread_attributes d !! cand ≫= a_lane in
  if decide (cand_lane = lane) then 0
  else match cand_lane with None => 1 | Some _ => 2 end.

(** What one call asks for: the claimer, where it looks, the clocks it reads
    and its filters. *)
Record Ask := {
  q_member : N;
  q_scope : ClaimScope;
  q_now : Z;
  q_hold_since : Z;
  q_ttl_since : Z;
  q_sql_now : Z;
  q_repo : option str;
  q_engine : option TaskEngine;
  q_lane : option TaskLane
}.

(** The [WHERE] of [candidate_select]. *)
Definition eligible (d : Db) (q : Ask) (e : N * ThreadRow) : bool :=
  match channels d !! t_channel e.2 with
  | None => false
  | Some ch =>
      in_scope (q_scope q) e.2 ch && claimable d e.1 e.2 (q_now q)
      && has_skills d (q_member q) e.1
      && negb (bool_decide (is_Some (member_freezes d !! q_member q)))
      && served_by d e.1 (q_repo q) (q_engine q)
      && negb (refused_to d (q_member q) e.1)
      && readable_by d e.1 (q_member q)
      && negb (sibling_warming d e.1 e.2 (q_now q) (q_hold_since q) (q_ttl_since q))
  end.

Definition hours_waiting (row : ThreadRow) (sql_now : Z) : Z :=
  ((sql_now_ms sql_now / 1000 - sql_secs (t_created row)) ÷ 3600)%Z.

(** The columns of the [ORDER BY], each in ascending order. *)
Definition sort_key (d : Db) (q : Ask) (e : N * ThreadRow) : list Z :=
  [ - (from_option pr_priority 0 (thread_priorities d !! e.1) + hours_waiting e.2 (q_sql_now q));
    if warm_for d (q_member q) e.1 then -1 else 0;
    lane_rank d e.1 (q_lane q);
    t_created e.2;
    Z.of_N e.1 ]%Z.

Fixpoint lex_ltb (a b : list Z) : bool :=
  match a, b with
  | x :: a', y :: b' => (x <? y)%Z || ((x =? y)%Z && lex_ltb a' b')
  | [], _ :: _ => true
  | _, [] => false
  end.

(** [ORDER BY] over the columns of [key], each in ascending order. *)
Definition key_le {A} (key : A -> list Z) (a b : A) : Prop := lex_ltb (key b) (key a) = false.
Global Instance key_le_dec {A} (key : A -> list Z) : RelDecision (key_le key).
Proof. intros a b. unfold key_le. apply _. Defined.
Definition order_by {A} (key : A -> list Z) (rows : list A) : list A := merge_sort (key_le key) rows.

Lemma order_by_perm {A} (key : A -> list Z) l : order_by key l ≡ₚ l.
Proof. apply merge_sort_Permutation. Qed.

Lemma elem_of_order_by {A} (key : A -> list Z) l x : x ∈ order_by key l <-> x ∈ l.
Proof. by rewrite (order_by_perm key l). Qed.

Definition precedes (d : Db) (q : Ask) (a b : N * ThreadRow) : bool :=
  lex_ltb (sort_key d q a) (sort_key d q b).

Definition candidate_select (d : Db) (q : Ask) : option (N * ThreadRow) :=
  first_by (precedes d q) (List.filter (eligible d q) (map_to_list (threads d))).

(** ** The queue's counts ([queue_counts.rs]) *)

Definition open_threads (d : Db) (scope : ClaimScope) (reader : option N) (repo : option str)
    (engine : option TaskEngine) : list (N * ThreadRow) :=
  List.filter
    (fun e : N * ThreadRow =>
       match channels d !! t_channel e.2 with
       | None => false
       | Some ch =>
           in_scope scope e.2 ch && bool_decide (t_state e.2 = Open)
           && bool_decide (t_tombstoned e.2 = None)
           && match reader with None => true | Some m => readable_by d e.1 m end
           && served_by d e.1 repo engine
       end)
    (map_to_list (threads d)).

Definition count (p : N * ThreadRow -> bool) (l : list (N * ThreadRow)) : nat := length (List.filter p l).

Record QueueDepth := {
  qd_open : nat; qd_ready : nat; qd_assigned : nat; qd_blocked : nat; qd_unclaimable : nat
}.

Definition queue_depth_select (d : Db) (scope : ClaimScope) (reader : option N) (repo : option str)
    (engine : option TaskEngine) (now : Z) : QueueDepth :=
  let rows := open_threads d scope reader repo engine in
  {| qd_open := length rows;
     qd_assigned := count (fun e => held e.2 now) rows;
     qd_ready := count (fun e => available e.2 now && negb (withheld d e.1 e.2) && negb (stalled d e.1 now)) rows;
     qd_blocked := count (fun e => available e.2 now && negb (withheld d e.1 e.2) && stalled d e.1 now) rows;
     qd_unclaimable := count (fun e => available e.2 now && withheld d e.1 e.2) rows |}.

Record ChannelOccupancy := {
  oc_open : nat; oc_queued : nat; oc_claimed : nat; oc_working : nat; oc_blocked : nat
}.

Definition occupancy_columns (d : Db) (now : Z) (rows : list (N * ThreadRow)) : ChannelOccupancy :=
  let queued e := available (snd e) now && bool_decide (t_state (snd e) = Open)
                  && negb (withheld d (fst e) (snd e)) && negb (stalled d (fst e) now) in
  {| oc_open := length rows;
     oc_claimed := count (fun e => held e.2 now && bool_decide (t_started e.2 = None)) rows;
     oc_working := count (fun e => held e.2 now && bool_decide (is_Some (t_started e.2))) rows;
     oc_queued := count queued rows;
     oc_blocked := count (fun e => available e.2 now && negb (queued e)) rows |}.

Definition occupancy_select (d : Db) (scope : ClaimScope) (reader : option N) (now : Z) : ChannelOccupancy :=
  occupancy_columns d now (open_threads d scope reader None None).
