(* ===== verification/Threads.v ===== *)
(** * Claims and leases of threads

    [crates/maidan-store/src/sqlite/threads.rs] and [thread_workers.rs]: taking
    a thread (assign, claim, claim_next), the heartbeat, the acknowledgement
    and the release of a claim, the reaper, the time-outs and the reports, each
    as the transaction the source runs, with the budget charge, the worker
    record and the events it writes. *)

From stdpp Require Import strings.
From S2P Require Import Prelude Text Json EventChain EventLog Footprint Fsm Review Db Budget Claimability.
Local Open Scope tx_scope.

(** ** Column updates of a thread *)

Definition eta_ThreadRow (t : ThreadRow) : ThreadRow :=
  {| t_channel := t_channel t; t_parent := t_parent t; t_title := t_title t;
     t_description := t_description t; t_state := t_state t; t_created := t_created t;
     t_updated := t_updated t; t_tombstoned := t_tombstoned t; t_assignee := t_assignee t;
     t_expires := t_expires t; t_lease := t_lease t; t_claimed := t_claimed t;
     t_started := t_started t; t_owner := t_owner t; t_created_by := t_created_by t;
     t_unacknowledged := t_unacknowledged t |}.

Definition upd_title : (option str -> option str) -> ThreadRow -> ThreadRow := ltac:(field_setter eta_ThreadRow t_title).
Definition upd_updated : (Z -> Z) -> ThreadRow -> ThreadRow := ltac:(field_setter eta_ThreadRow t_updated).
Definition upd_expires : (option Z -> option Z) -> ThreadRow -> ThreadRow := ltac:(field_setter eta_ThreadRow t_expires).
Definition upd_started : (option Z -> option Z) -> ThreadRow -> ThreadRow := ltac:(field_setter eta_ThreadRow t_started).
Definition upd_owner : (option N -> option N) -> ThreadRow -> ThreadRow := ltac:(field_setter eta_ThreadRow t_owner).
Definition upd_unacknowledged : (option N -> option N) -> ThreadRow -> ThreadRow := ltac:(field_setter eta_ThreadRow t_unacknowledged).

(** The [SET] list of every statement that takes a thread. *)
Definition take_claim (member lease : N) (expires : option Z) (stamped : Z) (t : ThreadRow) : ThreadRow :=
  {| t_channel := t_channel t; t_parent := t_parent t; t_title := t_title t;
     t_description := t_description t; t_state := t_state t; t_created := t_created t;
     t_updated := stamped; t_tombstoned := t_tombstoned t; t_assignee := Some member;
     t_expires := expires; t_lease := Some lease; t_claimed := Some stamped; t_started := None;
     t_owner := t_owner t; t_created_by := t_created_by t; t_unacknowledged := t_unacknowledged t |}.

(** ** Guards *)

Definition live (t : ThreadRow) : bool := bool_decide (t_tombstoned t = None).
(** [state NOT IN ('closed', 'archived')]. *)
Definition not_finished (t : ThreadRow) : bool := negb (is_terminal (t_state t)).

(** [assignee_id = ? AND claim_lease_id = ? AND tombstoned_at IS NULL]. *)
Definition fenced (member lease : N) (t : ThreadRow) : bool :=
  bool_decide (t_assignee t = Some member) && bool_decide (t_lease t = Some lease) && live t.

(** A member of the workspace the thread's channel is in. *)
Definition member_of_thread_workspace (d : Db) (member : N) (t : ThreadRow) : bool :=
  match members d !! member, channels d !! t_channel t with
  | Some m, Some c => bool_decide (m_ws m = c_ws c)
  | _, _ => false
  end.

Section env.
Context `{JsonText, Sha256, Env}.

Definition get (thread : N) : Tx ThreadRow :=
  row <- read (fun d => threads d !! thread) ;; ok_or row NotFound.

(** ** The worker record ([thread_workers.rs]) *)

Definition insert_worker (thread worker : N) : Tx unit :=
  known <- read (fun d => bool_decide (is_Some (threads d !! thread))) ;;
  (if known then ret tt else fail Database) ;;
  member_fk worker ;;
  write (upd_thread_workers
           (fun m => match m !! (thread, worker) with Some _ => m | None => <[(thread, worker) := None]> m end)).

Definition record_in_tx (thread member : N) : Tx unit :=
  for_each (insert_worker thread)
    (member :: match delegate_acting_for member with Some actor => [actor] | None => [] end) ;;
  next <- read (fun d => default 0 (max_held_seq d thread) + 1)%Z ;;
  write (upd_thread_workers (alter (fun _ => Some next) (thread, member))).

Definition last_worker_in_tx (thread : N) : Tx (option N) :=
  read (fun d =>
          fmap (fun e : N * N * option Z => e.1.2)
            (list.head
               (order_by (fun e : N * N * option Z => [- default 0 e.2]%Z)
                  (List.filter (fun e : N * N * option Z =>
                                  bool_decide (e.1.1 = thread) && bool_decide (is_Some e.2))
                     (map_to_list (thread_workers d)))))).

Definition has_worked (thread member : N) : Tx bool :=
  read (fun d => bool_decide (is_Some (thread_workers d !! (thread, member)))).

(** ** Charging the wall clock *)

Definition worked_secs (started : option Z) (ended : Z) : option Z :=
  (fun start => Z.max (num_seconds (ended - start)) 0) <$> started.

Definition charge_open_claim_in_tx (thread : N) : Tx unit :=
  row <- get thread ;;
  now <- utc_now ;;
  charge_wall_in_tx thread (worked_secs (t_started row) now) ;;
  ret tt.

(** Every unfinished live claim of [member], charged and cleared. *)
Definition release_member_claims_in_tx (member : N) : Tx nat :=
  let mine (t : ThreadRow) := bool_decide (t_assignee t = Some member) && live t && not_finished t in
  ended <- utc_now ;;
  rows <- read (fun d => List.filter (fun e => mine e.2) (map_to_list (threads d))) ;;
  for_each (fun e : N * ThreadRow => charge_wall_in_tx e.1 (worked_secs (t_started e.2) ended)) rows ;;
  write (upd_threads (fun m => (fun t => if mine t then clear_claim ended t else t) <$> m)) ;;
  ret (length rows).

Definition clear_assignee_in_tx (thread : N) : Tx ThreadRow :=
  charge_open_claim_in_tx thread ;;
  now <- utc_now ;;
  row <- update_thread thread (fun _ _ => true) (clear_claim now) ;;
  ok_or row NotFound.

Definition release_fenced_in_tx (thread member lease : N) : Tx ThreadRow :=
  row <- read (fun d => t ← threads d !! thread; if fenced member lease t then Some t else None) ;;
  held <- ok_or row NotFound ;;
  now <- utc_now ;;
  charge_wall_in_tx thread (worked_secs (t_started held) now) ;;
  now' <- utc_now ;;
  cleared <- update_thread thread (fun _ => fenced member lease) (clear_claim now') ;;
  ok_or cleared NotFound.

(** ** Refusals of a named claim *)

Definition refuse_same_family_in_tx (thread member : N) : Tx unit :=
  family <- read (fun d => shared_family d member thread) ;;
  match family with Some f => fail (Conflict (SameFamily f)) | None => ret tt end.

(** [reviews::refuse_round_cap_claim]. *)
Definition round_capped (d : Db) (thread : N) : bool :=
  existsb (fun e : N * GateRow => bool_decide (g_thread e.2 = Some thread) && g_round_cap e.2
                                  && bool_decide (g_state e.2 = GPending))
    (map_to_list (approval_gates d))
  || bool_decide (uc_reason <$> thread_unclaimable d !! thread = Some REVIEW_ROUND_HELD_REASON).
Definition refuse_round_cap_claim (thread : N) : Tx unit :=
  capped <- read (fun d => round_capped d thread) ;;
  if capped then fail (Conflict RoundCapped) else ret tt.

(** [task_fingerprints::live_original_on]. *)
Definition live_original (d : Db) (thread : N) : option N :=
  fp ← task_fingerprints d !! thread;
  orig ← fp_duplicate_of fp;
  o ← threads d !! orig;
  if unfinished o then Some orig else None.
Definition refuse_duplicate_claim_on (thread : N) : Tx unit :=
  original <- read (fun d => live_original d thread) ;;
  match original with Some _ => fail (Conflict DuplicateTask) | None => ret tt end.

(** ** Events of the claim axis *)

Definition append_assignment_event (thread : N) (row : ThreadRow) (actor : N) (previous : option N)
    (note : option str) : Tx EventRow :=
  match t_assignee row with Some assignee => record_in_tx thread assignee | None => ret tt end ;;
  scope <- thread_scope_in_tx thread ;;
  now <- utc_now ;;
  append_in_tx (ThreadAssignmentChanged now scope.1 scope.2 thread actor previous (t_assignee row) note row).

Definition append_claim_expired_event (thread : N) (row : ThreadRow) (expired_member : N) : Tx EventRow :=
  scope <- thread_scope_in_tx thread ;;
  now <- utc_now ;;
  append_in_tx (ClaimExpired now scope.1 scope.2 thread expired_member row).

Definition end_lapsed_claim_in_tx (thread : N) (row : ThreadRow) (holder : N) (deadline : Z)
    (work_started : option Z) : Tx EventRow :=
  charged <- charge_wall_in_tx thread (worked_secs work_started deadline) ;;
  match (b ← charged; reason ← exceeded b None; Some (b, reason)) with
  | Some (budget, reason) =>
      scope <- thread_scope_in_tx thread ;;
      fail_claim_in_tx scope.1 scope.2 thread row holder reason budget
  | None => append_claim_expired_event thread row holder
  end.

(** Holder, deadline and working clock of the claim a row still carries. *)
Definition lapsed_claim (t : ThreadRow) : option (N * Z * option Z) :=
  holder ← t_assignee t; deadline ← t_expires t; Some (holder, deadline, t_started t).

(** ** Assigning *)

Definition assign (thread assignee : N) : Tx ThreadRow :=
  lease <- new_uuid ;;
  commit
    (refuse_same_family_in_tx thread assignee ;;
     refuse_round_cap_claim thread ;;
     charge_open_claim_in_tx thread ;;
     stamped <- db_now ;;
     row <- update_thread thread
              (fun d t => live t && member_of_thread_workspace d assignee t && negb (refused_to d assignee thread))
              (take_claim assignee lease None stamped) ;;
     row <- ok_or row NotFound ;;
     record_in_tx thread assignee ;;
     ret row).

Definition assign_with_event (thread assignee actor : N) (note : option str) : Tx (ThreadRow * EventRow) :=
  commit
    (refuse_same_family_in_tx thread assignee ;;
     refuse_round_cap_claim thread ;;
     previous <- read (fun d => t ← threads d !! thread; if live t then Some (t_assignee t) else None) ;;
     previous <- ok_or previous NotFound ;;
     charge_open_claim_in_tx thread ;;
     lease <- new_uuid ;;
     stamped <- db_now ;;
     row <- update_thread thread
              (fun d t => live t && member_of_thread_workspace d assignee t && negb (refused_to d assignee thread))
              (take_claim assignee lease None stamped) ;;
     row <- ok_or row NotFound ;;
     stored <- append_assignment_event thread row actor previous note ;;
     ret (row, stored)).

Definition set_owner (thread : N) (owner : option N) : Tx ThreadRow :=
  now <- utc_now ;;
  row <- update_thread thread
           (fun d t => live t && match owner with None => true | Some o => member_of_thread_workspace d o t end)
           (fun t => upd_updated (fun _ => now) (upd_owner (fun _ => owner) t)) ;;
  ok_or row NotFound.

Definition set_title (thread : N) (title : option str) : Tx ThreadRow :=
  before <- read (fun d => t_title <$> threads d !! thread) ;;
  row <- update_thread thread (fun _ => live) (upd_title (fun _ => title)) ;;
  row <- ok_or row NotFound ;;
  when (bool_decide (before <> Some title)) (bump_version thread) ;;
  ret row.

Definition unassign (thread : N) : Tx ThreadRow := commit (clear_assignee_in_tx thread).

Definition unassign_with_event (thread actor : N) : Tx (ThreadRow * EventRow) :=
  commit
    (previous <- get thread ;;
     row <- clear_assignee_in_tx thread ;;
     stored <- append_assignment_event thread row actor (t_assignee previous) None ;;
     ret (row, stored)).

(** ** Claiming a named thread *)

Record ThreadClaimResult := { cr_thread : ThreadRow; cr_claimed : bool }.

(** The compare-and-set: only an unassigned live thread is taken. *)
Definition claim_update (thread member lease : N) (stamped : Z) : Tx (option ThreadRow) :=
  row <- update_thread thread
           (fun d t => bool_decide (t_assignee t = None) && live t && negb (refused_to d member thread))
           (take_claim member lease None stamped) ;;
  match row with
  | Some r => member_fk member ;; ret (Some r)
  | None => ret None
  end.

Definition claim (thread member : N) : Tx ThreadClaimResult :=
  lease <- new_uuid ;;
  won <- commit
    (refuse_same_family_in_tx thread member ;;
     refuse_round_cap_claim thread ;;
     stamped <- db_now ;;
     row <- claim_update thread member lease stamped ;;
     match row with
     | Some r =>
         refuse_duplicate_claim_on thread ;;
         record_in_tx thread member ;;
         ret (Some r)
     | None => ret None
     end) ;;
  match won with
  | Some r => ret {| cr_thread := r; cr_claimed := true |}
  | None => t <- get thread ;; ret {| cr_thread := t; cr_claimed := false |}
  end.

Definition claim_with_event (thread member : N) : Tx (ThreadClaimResult * option EventRow) :=
  won <- commit
    (refuse_same_family_in_tx thread member ;;
     refuse_round_cap_claim thread ;;
     lease <- new_uuid ;;
     stamped <- db_now ;;
     row <- claim_update thread member lease stamped ;;
     match row with
     | Some r =>
         refuse_duplicate_claim_on thread ;;
         stored <- append_assignment_event thread r member None None ;;
         ret (Some (r, stored))
     | None => ret None
     end) ;;
  match won with
  | Some (r, stored) => ret ({| cr_thread := r; cr_claimed := true |}, Some stored)
  | None => t <- get thread ;; ret ({| cr_thread := t; cr_claimed := false |}, None)
  end.

(** A member's queue in a workspace, oldest first. *)
Definition list_assigned (ws member : N) : Tx (list (N * ThreadRow)) :=
  read (fun d =>
    order_by (fun e : N * ThreadRow => [t_created e.2; Z.of_N e.1])
      (List.filter
         (fun e : N * ThreadRow =>
            match channels d !! t_channel e.2 with
            | Some c => bool_decide (c_ws c = ws)
            | None => false
            end && bool_decide (t_assignee e.2 = Some member) && live e.2)
         (map_to_list (threads d)))).

(** ** Pulling the next task *)

Definition ask (member : N) (scope : ClaimScope) (now lease_clock sql_now : Z) (repo : option str)
    (engine : option TaskEngine) (lane : option TaskLane) : Ask :=
  {| q_member := member; q_scope := scope; q_now := lease_clock;
     q_hold_since := now - secs WARM_HOLD_SECS; q_ttl_since := now - secs WARM_TTL_SECS;
     q_sql_now := sql_now; q_repo := repo; q_engine := engine; q_lane := lane |}%Z.

Definition claim_next_candidate (scope : ClaimScope) (member : N) (now lease_clock : Z)
    (repo : option str) (engine : option TaskEngine) (lane : option TaskLane) : Tx (option (N * ThreadRow)) :=
  sql_now <- utc_now ;;
  read (fun d => candidate_select d (ask member scope now lease_clock sql_now repo engine lane)).

Definition take_candidate (candidate member : N) (now : Z) (lease_secs : option Z) : Tx ThreadRow :=
  let now := truncate_micros now in
  let expires := (fun s => now + secs s)%Z <$> lease_secs in
  lease <- new_uuid ;;
  row <- update_thread candidate (fun _ _ => true) (take_claim member lease expires now) ;;
  row <- ok_or row Database ;;
  member_fk member ;;
  ret row.

Definition claim_next (grace : ClaimGrace) (channel member : N) (lease_secs : option Z)
    (engine : option TaskEngine) : Tx (option (N * ThreadRow)) :=
  now <- db_now ;;
  commit
    (candidate <- claim_next_candidate (InChannel channel) member now (lease_clock grace now) None engine None ;;
     match candidate with
     | None => ret None
     | Some (id, before) =>
         thread <- take_candidate id member now lease_secs ;;
         record_in_tx id member ;;
         match lapsed_claim before with
         | Some (holder, deadline, started) =>
             end_lapsed_claim_in_tx id thread holder deadline started ;; ret tt
         | None => ret tt
         end ;;
         ret (Some (id, thread))
     end).

Definition claim_next_with_event (grace : ClaimGrace) (scope : ClaimScope) (member : N)
    (lease_secs : option Z) (repo : option str) (engine : option TaskEngine) (lane : option TaskLane) :
    Tx (option (N * ThreadRow) * list EventRow) :=
  commit
    (now <- db_now ;;
     candidate <- claim_next_candidate scope member now (lease_clock grace now) repo engine lane ;;
     match candidate with
     | None => ret (None, [])
     | Some (id, before) =>
         thread <- take_candidate id member now lease_secs ;;
         ended <- match lapsed_claim before with
                  | Some (holder, deadline, started) =>
                      ev <- end_lapsed_claim_in_tx id thread holder deadline started ;; ret [ev]
                  | None => ret []
                  end ;;
         ev <- append_assignment_event id thread member None None ;;
         ret (Some (id, thread), ended ++ [ev])
     end).

Definition queue_depth (grace : ClaimGrace) (scope : ClaimScope) (reader : option N) (repo : option str)
    (engine : option TaskEngine) : Tx QueueDepth :=
  now <- utc_now ;;
  read (fun d => queue_depth_select d scope reader repo engine (lease_clock grace now)).

Definition occupancy (grace : ClaimGrace) (scope : ClaimScope) (reader : option N) : Tx ChannelOccupancy :=
  now <- utc_now ;;
  read (fun d => occupancy_select d scope reader (lease_clock grace now)).

(** ** The reaper *)

(** Live unfinished claims whose deadline is before [now]. *)
Definition lapsed_before (now : Z) (t : ThreadRow) : bool :=
  bool_decide (is_Some (t_assignee t))
  && match t_expires t with Some e => (e <? now)%Z | None => false end
  && live t && not_finished t.

Definition lapsed_select (d : Db) (now limit : Z) : list (N * ThreadRow) :=
  sql_limit limit
    (order_by (fun e : N * ThreadRow => [default 0%Z (t_expires e.2); Z.of_N e.1])
       (List.filter (fun e : N * ThreadRow => lapsed_before now e.2) (map_to_list (threads d)))).

Definition reap_one (now : Z) (candidate : N * ThreadRow) : Tx (option EventRow) :=
  match lapsed_claim candidate.2 with
  | None => fail (InvalidInput NoHolder)
  | Some (holder, deadline, started) =>
      stamp <- utc_now ;;
      row <- update_thread candidate.1
               (fun _ t => bool_decide (t_assignee t = Some holder)
                           && match t_expires t with Some e => (e <? now)%Z | None => false end
                           && live t && not_finished t)
               (clear_claim stamp) ;;
      match row with
      | None => ret None
      | Some thread =>
          ev <- end_lapsed_claim_in_tx candidate.1 thread holder deadline started ;;
          ret (Some ev)
      end
  end.

Definition reap_expired_claims (grace : ClaimGrace) (now limit : Z) : Tx (list EventRow) :=
  if holding grace now then ret []
  else
    commit
      (lapsed <- read (fun d => lapsed_select d now limit) ;;
       events <- for_each (reap_one now) lapsed ;;
       ret (omap (fun e => e) events)).

(** ** Waits on a person that ran out *)

(** The status row a thread's own holder declared. *)
Definition holder_status (d : Db) (thread : N) (t : ThreadRow) : option StatusRow :=
  s ← thread_status d !! thread;
  if decide (t_assignee t = Some (s_by s)) then Some s else None.

Definition waits_on_person (now declared_before : Z) (t : ThreadRow) (s : StatusRow) : bool :=
  (bool_decide (s_status s = NeedsInput) || bool_decide (s_status s = NeedsReview))
  && (s_at s <? declared_before)%Z
  && bool_decide (is_Some (t_lease t)) && bool_decide (is_Some (t_started t))
  && match t_expires t with Some e => (now <=? e)%Z | None => false end
  && live t && bool_decide (t_state t = Open).

Definition human_timeout_select (d : Db) (now declared_before limit : Z) :
    list (N * ThreadRow * StatusRow) :=
  sql_limit limit
    (order_by (fun e : N * ThreadRow * StatusRow => [s_at e.2; Z.of_N e.1.1])
       (omap (fun e : N * ThreadRow =>
                s ← holder_status d e.1 e.2;
                if waits_on_person now declared_before e.2 s then Some (e, s) else None)
          (map_to_list (threads d)))).

Definition return_one (policy : str) (e : N * ThreadRow * StatusRow) : Tx EventRow :=
  match t_assignee e.1.2, t_lease e.1.2 with
  | Some holder, Some lease =>
      release_fenced_in_tx e.1.1 holder lease ;;
      write (upd_thread_status (delete e.1.1)) ;;
      scope <- thread_scope_in_tx e.1.1 ;;
      now <- utc_now ;;
      append_in_tx (WaitTimedOut now scope.1 scope.2 e.1.1 policy
                      (if bool_decide (trim (s_note e.2) = []) then None else Some (s_note e.2)))
  | _, _ => fail Database
  end.

Definition return_human_timeouts (now declared_before : Z) (policy : str) (limit : Z) : Tx (list EventRow) :=
  commit
    (candidates <- read (fun d => human_timeout_select d now declared_before limit) ;;
     for_each (return_one policy) candidates).

(** ** Claims nobody acknowledged *)

(** The fragment [STALE]. *)
Definition unacknowledged (now claimed_before : Z) (t : ThreadRow) : bool :=
  bool_decide (is_Some (t_lease t)) && bool_decide (t_started t = None)
  && bool_decide (is_Some (t_assignee t))
  && match t_claimed t with Some c => (c <? claimed_before)%Z | None => false end
  && match t_expires t with Some e => (now <=? e)%Z | None => false end
  && negb (bool_decide (t_unacknowledged t = t_lease t))
  && live t && bool_decide (t_state t = Open).

Definition append_claim_unacknowledged_event (thread : N) (row : ThreadRow) (claimed : Z) : Tx EventRow :=
  member <- ok_or (t_assignee row) (InvalidInput NoHolder) ;;
  scope <- thread_scope_in_tx thread ;;
  now <- utc_now ;;
  append_in_tx (ClaimUnacknowledged now scope.1 scope.2 thread member claimed row).

Definition report_one (now claimed_before : Z) (e : N * ThreadRow) : Tx (option EventRow) :=
  row <- update_thread e.1
           (fun _ t => bool_decide (is_Some (t_lease e.2)) && bool_decide (t_lease t = t_lease e.2)
                       && unacknowledged now claimed_before t)
           (fun t => upd_unacknowledged (fun _ => t_lease t) t) ;;
  match row with
  | None => ret None
  | Some thread =>
      claimed <- ok_or (t_claimed thread) Database ;;
      ev <- append_claim_unacknowledged_event e.1 thread claimed ;;
      ret (Some ev)
  end.

Definition report_unacknowledged_claims (now claimed_before limit : Z) : Tx (list EventRow) :=
  commit
    (candidates <- read (fun d =>
       sql_limit limit
         (order_by (fun e : N * ThreadRow => [default 0%Z (t_claimed e.2); Z.of_N e.1])
            (List.filter (fun e : N * ThreadRow => unacknowledged now claimed_before e.2)
               (map_to_list (threads d))))) ;;
     events <- for_each (report_one now claimed_before) candidates ;;
     ret (omap (fun e => e) events)).

(** ** The holder's own operations, fenced by its token *)

Definition renew_claim (thread member lease : N) (lease_secs : Z) : Tx ThreadRow :=
  now <- utc_now ;;
  row <- update_thread thread (fun _ => fenced member lease)
           (fun t => upd_updated (fun _ => now) (upd_expires (fun _ => Some (now + secs lease_secs)%Z) t)) ;;
  ok_or row NotFound.

Definition acknowledge_claim (thread member lease : N) : Tx ThreadRow :=
  now <- utc_now ;;
  row <- update_thread thread (fun _ => fenced member lease)
           (fun t => upd_updated (fun _ => now)
                       (upd_started (fun s => match s with Some s => Some s | None => Some now end) t)) ;;
  ok_or row NotFound.

Definition release_claim (thread member lease : N) : Tx ThreadRow :=
  commit (release_fenced_in_tx thread member lease).

Definition release_claim_with_event (thread member lease : N) : Tx (ThreadRow * EventRow) :=
  commit
    (row <- release_fenced_in_tx thread member lease ;;
     stored <- append_assignment_event thread row member (Some member) None ;;
     ret (row, stored)).

(** ** The work-in-progress limit ([wip.rs]); the column has [CHECK (wip_limit >= 0)] *)

Definition set_limit (ws : N) (limit : option Z) : Tx unit :=
  match limit with
  | Some n =>
      commit
        (workspace_fk ws ;;
         (if (0 <=? n)%Z then ret tt else fail Database) ;;
         utc_now ;;
         write (upd_wip_limits (fun m => <[ws := n]> m)))
  | None => write (upd_wip_limits (delete ws))
  end.

Definition get_limit (ws : N) : Tx (option Z) := read (fun d => wip_limits d !! ws).

Definition count_live_claims (grace : ClaimGrace) (member : N) : Tx nat :=
  now <- utc_now ;;
  read (fun d =>
          count (fun e => bool_decide (t_assignee e.2 = Some member) && live e.2 && not_finished e.2
                          && not_lapsed (t_expires e.2) (lease_clock grace now))
            (map_to_list (threads d))).
End env.
