(* ===== verification/Deps.v ===== *)
(** * Dependencies between threads

    [crates/maidan-store/src/sqlite/thread_deps.rs]: adding an edge under the
    cycle guard, removing one, and what is ready. The recursive query of the
    guard adds the targets of the edges that leave what it has found so far,
    until nothing is new. *)

From S2P Require Import Prelude Text Json EventChain EventLog Footprint Fsm Db TxLogic Claimability Threads.
Local Open Scope tx_scope.

(** The targets of the edges that leave [found]. *)
Definition targets (deps : gmap (N * N) Z) (found : gset N) : gset N :=
  list_to_set (snd <$> List.filter (fun e : N * N => bool_decide (e.1 ∈ found)) (map_to_list deps).*1).

(** [WITH RECURSIVE reachable … UNION …]. *)
Fixpoint recurse (fuel : nat) (deps : gmap (N * N) Z) (found : gset N) : gset N :=
  match fuel with
  | O => found
  | S fuel =>
      let next := found ∪ targets deps found in
      if decide (next = found) then found else recurse fuel deps next
  end.

(** A turn that goes on finds the target of an edge it had not found before. *)
Definition reachable (deps : gmap (N * N) Z) (from : N) : gset N :=
  recurse (S (size deps)) deps (targets deps {[from]}).

Record ThreadDependency := { dp_thread : N; dp_depends_on : N; dp_created : Z }.
Definition row_to_dep (e : N * N * Z) : ThreadDependency :=
  {| dp_thread := e.1.1; dp_depends_on := e.1.2; dp_created := e.2 |}.

(** The edges of a column's value, oldest first. *)
Definition edges_by (column : N * N -> N) (thread : N) (d : Db) : list ThreadDependency :=
  row_to_dep <$> order_by (fun e : N * N * Z => [e.2])
                   (List.filter (fun e : N * N * Z => bool_decide (column e.1 = thread))
                      (map_to_list (thread_dependencies d))).

Section env.
Context `{Env}.

(** Both ends are foreign keys. *)
Definition add (thread depends_on : N) : Tx unit :=
  if decide (thread = depends_on) then fail (InvalidInput SelfDependency)
  else
    commit
      (cycle <- read (fun d => bool_decide (thread ∈ reachable (thread_dependencies d) depends_on)) ;;
       if cycle : bool then fail (InvalidInput DependencyCycle)
       else
         now <- utc_now ;;
         known <- read (fun d => bool_decide (is_Some (threads d !! thread))
                                 && bool_decide (is_Some (threads d !! depends_on))) ;;
         if negb known then fail Database
         else
           write (upd_thread_dependencies
                    (fun m => match m !! (thread, depends_on) with
                              | Some _ => m
                              | None => <[(thread, depends_on) := now]> m
                              end))).

Definition remove (thread depends_on : N) : Tx bool :=
  removed <- read (fun d => bool_decide (is_Some (thread_dependencies d !! (thread, depends_on)))) ;;
  write (upd_thread_dependencies (delete (thread, depends_on))) ;;
  ret removed.

Definition list_dependencies (thread : N) : Tx (list ThreadDependency) := read (edges_by fst thread).
Definition list_dependents (thread : N) : Tx (list ThreadDependency) := read (edges_by snd thread).

(** How many dependencies are still pending. *)
Definition pending_dependencies (d : Db) (thread : N) : nat :=
  length (List.filter
    (fun e : N * N =>
       bool_decide (e.1 = thread)
       && match threads d !! e.2 with
          | Some t => not_finished t || bool_decide (is_Some (unlanded_closes d !! e.2))
          | None => false
          end)
    (map_to_list (thread_dependencies d)).*1).

Definition dependencies_satisfied (thread : N) : Tx bool :=
  read (fun d => bool_decide (pending_dependencies d thread = 0)).

Definition newly_ready_dependents (thread : N) : Tx (list (N * ThreadRow)) :=
  read (fun d =>
    order_by (fun e : N * ThreadRow => [t_created e.2])
      (List.filter
         (fun e : N * ThreadRow =>
            bool_decide (is_Some (thread_dependencies d !! (e.1, thread)))
            && not_finished e.2
            && negb (existsb
                       (fun dd : N * N =>
                          bool_decide (dd.1 = e.1)
                          && match threads d !! dd.2 with
                             | Some dep => not_finished dep || bool_decide (is_Some (unlanded_closes d !! dd.2))
                             | None => false
                             end)
                       (map_to_list (thread_dependencies d)).*1))
         (map_to_list (threads d)))).

(** What an accepted edge leaves. *)
Lemma add_run x y w :
  add x y w
  = if decide (x = y) then (Err (InvalidInput SelfDependency), w)
    else if decide (x ∈ reachable (thread_dependencies (db w)) y) then (Err (InvalidInput DependencyCycle), w)
    else if bool_decide (is_Some (threads (db w) !! x)) && bool_decide (is_Some (threads (db w) !! y))
    then (Ok tt, {| db := upd_thread_dependencies
                            (fun m => match m !! (x, y) with
                                      | Some _ => m
                                      | None => <[(x, y) := clock (ticks w)]> m
                                      end) (db w);
                    ticks := S (ticks w); ids := ids w |})
    else (Err Database, {| db := db w; ticks := S (ticks w); ids := ids w |}).
Proof.
  unfold add. case_decide; [done|]. unfold commit. erewrite bind_Ok by reflexivity.
  destruct (decide (x ∈ reachable (thread_dependencies (db w)) y)) as [Hc|Hc].
  - rewrite bool_decide_eq_true_2 by done. cbn. by destruct w.
  - rewrite bool_decide_eq_false_2 by done. erewrite bind_Ok by reflexivity. erewrite bind_Ok by reflexivity.
    cbn [db]. by destruct (bool_decide (is_Some (threads (db w) !! x)) && bool_decide (is_Some (threads (db w) !! y))).
Qed.
End env.
