(* ===== verification/Tokens.v ===== *)
(** * API tokens, delegation grants and bearer resolution

    [crates/maidan-store/src/sqlite/tokens.rs], [token_quotas.rs],
    [delegation_grants.rs] (with the backend-neutral checks of
    [maidan-store/src/delegation_grants.rs]) and
    [crates/maidan-auth/src/resolve.rs]: minting, deriving, delegating,
    rotating and revoking tokens, and who a bearer secret resolves to. *)

From stdpp Require Import strings sorting.
From S2P Require Import Prelude Text Json EventChain EventLog Footprint Fsm Review Db Auth TxLogic AuditTrail Claimability Threads Deps.
Local Open Scope tx_scope.

(** ** Grants: the checks both backends share *)

Record NewDelegationGrant := {
  gr_ws : N; gr_subject : N; gr_delegate : N; gr_capabilities : list str; gr_purpose : str;
  gr_authorized_by : N; gr_expires : Z
}.

Record NewApiToken := {
  nt_ws : N; nt_member : N; nt_app : option N; nt_hash : str; nt_label : option str;
  nt_capabilities : list str; nt_expires : option Z
}.

(** [BTreeSet]: each text once, in order. *)
Definition btree_set (l : list str) : list str := sort_strs (remove_dups l).

Definition validate_new (new : NewDelegationGrant) (now : Z) : result Invalid (list str * str) :=
  if decide (gr_subject new = gr_delegate new) then Err SelfDelegation
  else if (gr_expires new <=? now)%Z then Err GrantExpired
  else
    let purpose := trim (gr_purpose new) in
    if bool_decide (purpose = []) || (1000 <? byte_len purpose) then Err BadPurpose
    else
      let capabilities := trim <$> gr_capabilities new in
      if existsb (fun c => bool_decide (c = []) || (255 <? byte_len c)) capabilities then Err BadDelegatedCapability
      else if decide (capabilities = []) then Err NoDelegatedCapability
      else Ok (btree_set capabilities, purpose).

(** [chrono::Duration::days]. *)
Definition days (n : Z) : Z := secs (n * 86400).

Definition check_grant_ceiling (expires_at now max_grant_days : Z) : result Invalid unit :=
  if (now + days max_grant_days <? expires_at)%Z then Err (GrantTooLong max_grant_days) else Ok tt.

Definition DEFAULT_MAX_GRANT_DAYS : Z := 90.
Definition MAX_GRANT_DAYS_LIMIT : Z := 3650.
Definition validate_ceiling (n : Z) : result Invalid unit :=
  if (1 <=? n)%Z && (n <=? MAX_GRANT_DAYS_LIMIT)%Z then Ok tt else Err BadCeiling.

Definition validate_exchange (new : NewApiToken) (grant_capabilities : list str) (now : Z) : result Invalid Z :=
  match nt_expires new with
  | None => Err NoTokenExpiry
  | Some expires_at =>
      if (expires_at <=? now)%Z || (now + secs DELEGATED_TOKEN_MAX_TTL_SECS <? expires_at)%Z then Err BadTokenExpiry
      else if decide (nt_capabilities new = []) then Err NoDelegatedCapability
      else
        match List.find (fun c => negb (holds grant_capabilities c)) (nt_capabilities new) with
        | Some c => Err (ExceedsGrant c)
        | None => Ok expires_at
        end
  end.

Record DelegationPolicy := { dp_ws : N; dp_max_grant_days : Z; dp_is_default : bool }.

(** ** The derivation tree

    [WITH RECURSIVE subtree …]: the tokens under a set of tokens, through
    [parent_token_id]. *)

Definition child_edges (ts : gmap N TokenRow) : gmap (N * N) Z :=
  list_to_map (omap (fun e : N * TokenRow => (fun p => ((p, e.1), 0%Z)) <$> tk_parent e.2) (map_to_list ts)).
Definition subtree (ts : gmap N TokenRow) (roots : gset N) : gset N :=
  recurse (S (size (child_edges ts))) (child_edges ts) roots.

Definition upd_revoked (now : Z) (t : TokenRow) : TokenRow :=
  {| tk_ws := tk_ws t; tk_member := tk_member t; tk_app := tk_app t; tk_hash := tk_hash t;
     tk_label := tk_label t; tk_capabilities := tk_capabilities t; tk_created := tk_created t;
     tk_expires := tk_expires t; tk_revoked := Some now; tk_parent := tk_parent t; tk_grant := tk_grant t;
     tk_oauth := tk_oauth t |}.
Definition upd_parent (p : option N) (t : TokenRow) : TokenRow :=
  {| tk_ws := tk_ws t; tk_member := tk_member t; tk_app := tk_app t; tk_hash := tk_hash t;
     tk_label := tk_label t; tk_capabilities := tk_capabilities t; tk_created := tk_created t;
     tk_expires := tk_expires t; tk_revoked := tk_revoked t; tk_parent := p; tk_grant := tk_grant t;
     tk_oauth := tk_oauth t |}.

(** [UPDATE … SET revoked_at = ? WHERE id IN (…) AND revoked_at IS NULL]. *)
Definition revoke_all (ids : gset N) (now : Z) (ts : gmap N TokenRow) : gmap N TokenRow :=
  map_imap (fun id t => Some (if bool_decide (id ∈ ids) && bool_decide (tk_revoked t = None)
                              then upd_revoked now t else t)) ts.

(** ** When a bearer is live *)

(** A live member that provisioning has not deactivated. *)
Definition active_member (d : Db) (ws member : N) : bool :=
  match members d !! member with
  | Some m => bool_decide (m_ws m = ws) && bool_decide (m_tombstoned m = None)
              && negb (bool_decide (scim_users d !! member = Some false))
  | None => false
  end.

(** [datetime(…)] reads whole seconds. *)
Definition active_grant (d : Db) (now : Z) (grant : option N) : bool :=
  match grant with
  | None => true
  | Some g =>
      match delegation_grants d !! g with
      | Some g => bool_decide (dg_revoked g = None) && (sql_secs now <? sql_secs (dg_expires g))%Z
                  && active_member d (dg_ws g) (dg_delegate g)
      | None => false
      end
  end.

(** A column that names a row which must not be revoked. *)
Definition unrevoked (rows : gmap N (option Z)) (id : option N) : bool :=
  match id with None => true | Some i => bool_decide (rows !! i = Some None) end.

Definition active_token_row (d : Db) (now : Z) (t : TokenRow) : bool :=
  bool_decide (tk_revoked t = None)
  && match tk_expires t with None => true | Some e => (now <? e)%Z end
  && active_grant d now (tk_grant t)
  && unrevoked (og_revoked <$> oauth_grants d) (tk_oauth t)
  && active_member d (tk_ws t) (tk_member t)
  && unrevoked (app_installations d) (tk_app t).

Section env.
Context `{JsonText, Sha256, Env}.

(** ** Tokens in the store ([sqlite/tokens.rs]) *)

(** The foreign keys of the columns that may be NULL. *)
Definition known_fk {A} (table : Db -> gmap N A) (id : option N) : Tx unit :=
  match id with
  | None => ret tt
  | Some i =>
      known <- read (fun d => bool_decide (is_Some (table d !! i))) ;;
      if known : bool then ret tt else fail Database
  end.

(** The insert: the id and the hash are unique, the references exist. *)
Definition insert_token (id : N) (row : TokenRow) : Tx (N * TokenRow) :=
  clash <- read (fun d => bool_decide (is_Some (api_tokens d !! id))
                          || existsb (fun e : N * TokenRow => bool_decide (tk_hash e.2 = tk_hash row))
                               (map_to_list (api_tokens d))) ;;
  if clash : bool then fail (Conflict TokenHashExists)
  else
    workspace_fk (tk_ws row) ;;
    member_fk (tk_member row) ;;
    known_fk app_installations (tk_app row) ;;
    known_fk api_tokens (tk_parent row) ;;
    known_fk delegation_grants (tk_grant row) ;;
    known_fk oauth_grants (tk_oauth row) ;;
    write (upd_api_tokens (fun m => <[id := row]> m)) ;;
    ret (id, row).

Definition new_token_row (new : NewApiToken) (app : option N) (now : Z) (expires : option Z) (parent grant : option N) :
    TokenRow :=
  {| tk_ws := nt_ws new; tk_member := nt_member new; tk_app := app; tk_hash := nt_hash new;
     tk_label := nt_label new; tk_capabilities := nt_capabilities new; tk_created := now;
     tk_expires := expires; tk_revoked := None; tk_parent := parent; tk_grant := grant; tk_oauth := None |}.

Definition create_on (new : NewApiToken) : Tx (N * TokenRow) :=
  id <- new_uuid ;;
  now <- utc_now ;;
  insert_token id (new_token_row new (nt_app new) now (nt_expires new) None None).

(** The child is bound to its parent's grant. *)
Definition create_attenuated_on (new : NewApiToken) (parent : N) : Tx (N * TokenRow) :=
  id <- new_uuid ;;
  now <- utc_now ;;
  grant <- read (fun d => t ← api_tokens d !! parent; tk_grant t) ;;
  insert_token id (new_token_row new (nt_app new) now (nt_expires new) (Some parent) grant).

(** The parent of an exchange is a live token of the delegate that outlives the
    new one. *)
Definition live_parent (d : Db) (ws delegate : N) (expires_at : Z) (parent : option N) : bool :=
  match parent with
  | None => true
  | Some p =>
      match api_tokens d !! p with
      | Some t => bool_decide (tk_ws t = ws) && bool_decide (tk_member t = delegate)
                  && bool_decide (tk_revoked t = None)
                  && match tk_expires t with None => true | Some e => (sql_secs expires_at <=? sql_secs e)%Z end
      | None => false
      end
  end.

Definition grant_for (d : Db) (grant ws subject delegate : N) : option DelegationRow :=
  g ← delegation_grants d !! grant;
  if decide (dg_ws g = ws /\ dg_subject g = subject /\ dg_delegate g = delegate) then Some g else None.

Definition create_delegated_on (new : NewApiToken) (grant delegate : N) (parent : option N) : Tx (N * TokenRow) :=
  found <- read (fun d => grant_for d grant (nt_ws new) (nt_member new) delegate) ;;
  g <- ok_or found NotFound ;;
  at_ <- utc_now ;;
  expires_at <- lift InvalidInput (validate_exchange new (dg_capabilities g) at_) ;;
  id <- new_uuid ;;
  now <- utc_now ;;
  ok <- read (fun d => match grant_for d grant (nt_ws new) (nt_member new) delegate with
                       | Some g => bool_decide (dg_revoked g = None)
                                   && (sql_secs expires_at <=? sql_secs (dg_expires g))%Z
                                   && live_parent d (nt_ws new) delegate expires_at parent
                       | None => false
                       end) ;;
  if ok : bool
  then insert_token id (new_token_row new None now (Some expires_at) parent (Some grant))
  else fail NotFound.

Definition get_token (id : N) : Tx TokenRow :=
  row <- read (fun d => api_tokens d !! id) ;; ok_or row NotFound.

(** The hash column is unique. *)
Definition get_active_by_hash (token_hash : str) : Tx (N * TokenRow) :=
  now <- utc_now ;;
  row <- read (fun d => List.find (fun e : N * TokenRow => bool_decide (tk_hash e.2 = token_hash)
                                                         && active_token_row d now e.2)
                          (map_to_list (api_tokens d))) ;;
  ok_or row NotFound.

Definition list_tokens_for_member (ws member : N) : Tx (list (N * TokenRow)) :=
  read (fun d => order_by (fun e : N * TokenRow => [- tk_created e.2]%Z)
                   (List.filter (fun e : N * TokenRow => bool_decide (tk_ws e.2 = ws) && bool_decide (tk_member e.2 = member))
                      (map_to_list (api_tokens d)))).

(** The token and every token derived from it. *)
Definition revoke_on (id : N) : Tx (N * TokenRow) :=
  now <- utc_now ;;
  found <- read (fun d => t ← api_tokens d !! id; if decide (tk_revoked t = None) then Some t else None) ;;
  t <- ok_or found NotFound ;;
  let row := upd_revoked now t in
  write (upd_api_tokens (fun m => <[id := row]> m)) ;;
  write (upd_api_tokens (fun m => revoke_all (reachable (child_edges m) id) now m)) ;;
  ret (id, row).

Definition audit_on_tx (audit_for : N * TokenRow -> NewAuditEvent) (token : N * TokenRow) : Tx unit :=
  append_scoped (OwnerWorkspace (tk_ws token.2)) (audit_for token) ;; ret tt.

Definition audited_token (m : Tx (N * TokenRow)) (audit_for : N * TokenRow -> NewAuditEvent) : Tx (N * TokenRow) :=
  commit (token <- m ;; audit_on_tx audit_for token ;; ret token).
Definition create_audited (new : NewApiToken) (audit_for : N * TokenRow -> NewAuditEvent) : Tx (N * TokenRow) :=
  audited_token (create_on new) audit_for.
Definition create_attenuated_audited (new : NewApiToken) (parent : N) (audit_for : N * TokenRow -> NewAuditEvent) :
    Tx (N * TokenRow) :=
  audited_token (create_attenuated_on new parent) audit_for.
Definition create_delegated_audited (new : NewApiToken) (grant delegate : N) (parent : option N)
    (audit_for : N * TokenRow -> NewAuditEvent) : Tx (N * TokenRow) :=
  audited_token (create_delegated_on new grant delegate parent) audit_for.
Definition revoke_audited (id : N) (audit_for : N * TokenRow -> NewAuditEvent) : Tx (N * TokenRow) :=
  audited_token (revoke_on id) audit_for.

(** The successor's row: a new secret, the same limits. *)
Definition successor_row (token_hash : str) (now : Z) (t : TokenRow) : TokenRow :=
  {| tk_ws := tk_ws t; tk_member := tk_member t; tk_app := tk_app t; tk_hash := token_hash;
     tk_label := tk_label t; tk_capabilities := tk_capabilities t; tk_created := now;
     tk_expires := tk_expires t; tk_revoked := None; tk_parent := tk_parent t; tk_grant := None; tk_oauth := None |}.

(** [INSERT INTO maidan_token_quotas … SELECT ?2, … WHERE token_id = ?1]. *)
Definition copy_quotas (id successor : N) (m : gmap (N * str) (Z * Z)) : gmap (N * str) (Z * Z) :=
  list_to_map ((fun e : N * str * (Z * Z) => ((successor, e.1.2), e.2))
                 <$> List.filter (fun e : N * str * (Z * Z) => bool_decide (e.1.1 = id)) (map_to_list m)) ∪ m.

(** [UPDATE … SET parent_token_id = ?2 WHERE parent_token_id = ?1]. *)
Definition reparent (id successor : N) (ts : gmap N TokenRow) : gmap N TokenRow :=
  (fun t => if decide (tk_parent t = Some id) then upd_parent (Some successor) t else t) <$> ts.

Definition rotate_audited (id : N) (token_hash : str) (audit_for : N * TokenRow -> NewAuditEvent) : Tx (N * TokenRow) :=
  commit
    (found <- read (fun d => t ← api_tokens d !! id; if decide (tk_revoked t = None) then Some t else None) ;;
     t <- ok_or found NotFound ;;
     (match tk_grant t with Some _ => fail (Conflict RotatesDelegated) | None => ret tt end) ;;
     successor <- new_uuid ;;
     now <- utc_now ;;
     token <- insert_token successor (successor_row token_hash now t) ;;
     write (upd_token_quotas (copy_quotas id successor)) ;;
     write (upd_api_tokens (reparent id successor)) ;;
     at_ <- utc_now ;;
     write (upd_api_tokens (alter (upd_revoked at_) id)) ;;
     audit_on_tx audit_for token ;;
     ret token).

(** ** Quotas ([sqlite/token_quotas.rs]) *)

Record TokenQuota := { q_capability : str; q_max_per_window : Z; q_window_secs : Z }.

Definition insert_quota (token : N) (q : TokenQuota) : Tx unit :=
  (if (2 ^ 63 <=? q_window_secs q)%Z then fail (InvalidInput QuotaRange) else ret tt) ;;
  known_fk api_tokens (Some token) ;;
  there <- read (fun d => bool_decide (is_Some (token_quotas d !! (token, q_capability q)))) ;;
  if there || negb (0 <? q_max_per_window q)%Z || negb (0 <? q_window_secs q)%Z then fail Database
  else write (upd_token_quotas (fun m => <[(token, q_capability q) := (q_max_per_window q, q_window_secs q)]> m)).

Definition replace_quotas (token : N) (quotas : list TokenQuota) : Tx unit :=
  commit
    (write (upd_token_quotas (filter (fun e => e.1.1 <> token))) ;;
     for_each (insert_quota token) quotas ;;
     ret tt).

Definition row_to_quota (e : str * (Z * Z)) : result Invalid TokenQuota :=
  if (e.2.1 <=? 0)%Z || (e.2.2 <=? 0)%Z || (2 ^ 32 <=? e.2.1)%Z then Err QuotaRange
  else Ok {| q_capability := e.1; q_max_per_window := e.2.1; q_window_secs := e.2.2 |}.

Definition quota_rows (d : Db) (token : N) : list (str * (Z * Z)) :=
  merge_sort (fun a b => str_le a.1 b.1)
    ((fun e : N * str * (Z * Z) => (e.1.2, e.2))
       <$> List.filter (fun e : N * str * (Z * Z) => bool_decide (e.1.1 = token)) (map_to_list (token_quotas d))).
Definition list_quotas (token : N) : Tx (list TokenQuota) :=
  rows <- read (fun d => quota_rows d token) ;;
  for_each (fun e => lift InvalidInput (row_to_quota e)) rows.

(** ** Grants ([sqlite/delegation_grants.rs]) *)

Definition get_policy_on (ws : N) : Tx DelegationPolicy :=
  found <- read (fun d => fst <$> delegation_policies d !! ws) ;;
  ret {| dp_ws := ws; dp_max_grant_days := default DEFAULT_MAX_GRANT_DAYS found;
         dp_is_default := bool_decide (found = None) |}.

Definition set_policy_on (ws : N) (max_grant_days : option Z) : Tx DelegationPolicy :=
  (match max_grant_days with
   | Some n =>
       lift InvalidInput (validate_ceiling n) ;;
       now <- utc_now ;;
       workspace_fk ws ;;
       write (upd_delegation_policies (fun m => <[ws := (n, now)]> m))
   | None => write (upd_delegation_policies (delete ws))
   end) ;;
  get_policy_on ws.

(** A live member of the workspace. *)
Definition member_live (d : Db) (ws member : N) : bool :=
  match members d !! member with
  | Some m => bool_decide (m_ws m = ws) && bool_decide (m_tombstoned m = None)
  | None => false
  end.

Definition grant_create_on (new : NewDelegationGrant) : Tx (N * DelegationRow) :=
  now <- utc_now ;;
  valid <- lift InvalidInput (validate_new new now) ;;
  policy <- get_policy_on (gr_ws new) ;;
  lift InvalidInput (check_grant_ceiling (gr_expires new) now (dp_max_grant_days policy)) ;;
  scope <- read (fun d => member_live d (gr_ws new) (gr_subject new) && member_live d (gr_ws new) (gr_delegate new)
                          && member_live d (gr_ws new) (gr_authorized_by new)) ;;
  (if scope : bool then ret tt else fail (InvalidInput GrantMembers)) ;;
  id <- new_uuid ;;
  workspace_fk (gr_ws new) ;;
  created <- utc_now ;;
  let row := {| dg_ws := gr_ws new; dg_subject := gr_subject new; dg_delegate := gr_delegate new;
                dg_capabilities := valid.1; dg_purpose := valid.2; dg_authorized_by := gr_authorized_by new;
                dg_expires := gr_expires new; dg_revoked := None; dg_created := created |} in
  taken <- read (fun d => bool_decide (is_Some (delegation_grants d !! id))) ;;
  (if taken : bool then fail Database else ret tt) ;;
  write (upd_delegation_grants (fun m => <[id := row]> m)) ;;
  ret (id, row).

Definition get_grant (id : N) : Tx DelegationRow :=
  row <- read (fun d => delegation_grants d !! id) ;; ok_or row NotFound.
Definition list_grants (ws : N) : Tx (list (N * DelegationRow)) :=
  read (fun d => order_by (fun e : N * DelegationRow => [- dg_created e.2; - Z.of_N e.1]%Z)
                   (List.filter (fun e : N * DelegationRow => bool_decide (dg_ws e.2 = ws)) (map_to_list (delegation_grants d)))).

Definition revoke_grant_row (now : Z) (g : DelegationRow) : DelegationRow :=
  {| dg_ws := dg_ws g; dg_subject := dg_subject g; dg_delegate := dg_delegate g; dg_capabilities := dg_capabilities g;
     dg_purpose := dg_purpose g; dg_authorized_by := dg_authorized_by g; dg_expires := dg_expires g;
     dg_revoked := Some now; dg_created := dg_created g |}.

(** The tokens exchanged under a grant. *)
Definition grant_tokens (grant : N) (ts : gmap N TokenRow) : gset N :=
  dom (filter (fun e => tk_grant e.2 = Some grant) ts).

Definition grant_revoke_on (ws id : N) : Tx bool :=
  now <- utc_now ;;
  found <- read (fun d => g ← delegation_grants d !! id;
                          if decide (dg_ws g = ws /\ dg_revoked g = None) then Some g else None) ;;
  match found with
  | None => ret false
  | Some g =>
      write (upd_delegation_grants (fun m => <[id := revoke_grant_row now g]> m)) ;;
      write (upd_api_tokens (fun m => revoke_all (subtree m (grant_tokens id m)) now m)) ;;
      ret true
  end.

Definition grant_create_audited (new : NewDelegationGrant) (audit_for : N * DelegationRow -> NewAuditEvent) :
    Tx (N * DelegationRow) :=
  commit (grant <- grant_create_on new ;;
          append_scoped (OwnerWorkspace (dg_ws grant.2)) (audit_for grant) ;;
          ret grant).
Definition grant_revoke_audited (ws id : N) (new : NewAuditEvent) : Tx bool :=
  commit (revoked <- grant_revoke_on ws id ;;
          append_scoped (OwnerWorkspace ws) new ;;
          ret revoked).
Definition set_policy_audited (ws : N) (max_grant_days : option Z) (audit_for : DelegationPolicy -> NewAuditEvent) :
    Tx DelegationPolicy :=
  commit (policy <- set_policy_on ws max_grant_days ;;
          append_scoped (OwnerWorkspace ws) (audit_for policy) ;;
          ret policy).

(** ** Resolving a bearer ([maidan-auth/src/resolve.rs]) *)

Local Open Scope req_scope.

Definition MAX_BEARER_LEN : nat := 512.
Definition usable_bearer (bearer : str) : result AuthError unit :=
  if bool_decide (bearer = []) || (MAX_BEARER_LEN <? byte_len bearer) then Err Unauthorized else Ok tt.

Definition hash_secret (secret : str) : str := sha256_hex (as_bytes secret).
Definition hashes_equal (stored computed : str) : bool := bool_decide (as_bytes stored = as_bytes computed).

Definition active_token (bearer : str) : Req AuthError (N * TokenRow) :=
  check_ (fun e => e) (usable_bearer bearer) ;;
  let computed := hash_secret bearer in
  token <- call AuthStore (get_active_by_hash computed) ;;
  if hashes_equal (tk_hash token.2) computed then rret token else rfail Unauthorized.

Definition ensure_workspace_active (ws : N) : Req AuthError unit :=
  suspended <- call AuthStore (read (fun d => bool_decide (ws ∈ workspace_suspensions d))) ;;
  if suspended : bool then rfail (Forbidden WorkspaceSuspended) else rret tt.

Definition token_to_context (id : N) (t : TokenRow) : AuthContext :=
  match tk_app t with
  | Some installation => from_app_token id (tk_member t) (tk_ws t) installation (tk_capabilities t)
  | None => from_token id (tk_member t) (tk_ws t) (tk_capabilities t)
  end.

Definition active_token_context (token : N * TokenRow) : Req AuthError AuthContext :=
  ensure_workspace_active (tk_ws token.2) ;;
  match tk_grant token.2 with
  | Some g =>
      grant <- call AuthStore (get_grant g) ;;
      rret (from_delegated_token token.1 (dg_delegate grant) (tk_member token.2) (tk_ws token.2) g
              (tk_capabilities token.2))
  | None => rret (token_to_context token.1 token.2)
  end.

(** A token bound to the MCP resource is refused everywhere else. *)
Definition resolve_bearer (bearer : str) : Req AuthError AuthContext :=
  token <- active_token bearer ;;
  match tk_oauth token.2 with Some _ => rfail Unauthorized | None => active_token_context token end.
Definition resolve_resource_bearer (bearer : str) : Req AuthError AuthContext :=
  token <- active_token bearer ;;
  active_token_context token.
Definition resolve_token_id (id : N) : Req AuthError AuthContext :=
  token <- call AuthStore (get_token id) ;;
  active <- call AuthStore (get_active_by_hash (tk_hash token)) ;;
  if decide (active.1 = id) then active_token_context active else rfail Unauthorized.
End env.
