(* ===== verification/OAuthStore.v ===== *)
(** * The OAuth authorization server in the store

    [crates/maidan-store/src/sqlite/oauth_as.rs]: clients, consent requests that
    wait for a decision, single-use authorization codes, grants with their
    lineage, and refresh tokens that rotate. A code and a refresh token are kept
    by the hash of their secret. *)

From stdpp Require Import strings.
From S2P Require Import Prelude Text Json EventChain EventLog Footprint Fsm Review Db Auth TxLogic AuditTrail Claimability Threads Deps Tokens.
Local Open Scope tx_scope.

Record NewOAuthClient := {
  nk_client : str; nk_name : str; nk_redirects : list str; nk_secret : option str; nk_scopes : list str
}.
Record NewOAuthGrant := { nl_client : str; nl_member : N; nl_ws : N; nl_scope : list str; nl_lineage : N }.
Record NewOAuthRefreshToken := {
  nr_hash : str; nr_grant : N; nr_lineage : N; nr_client : str; nr_resource : str; nr_expires : Z
}.
Record NewOAuthCode := {
  nd_hash : str; nd_client : str; nd_member : N; nd_ws : N; nd_redirect : str; nd_challenge : str;
  nd_scope : list str; nd_resource : option str; nd_expires : Z; nd_lineage : option N
}.
Record NewOAuthPending := {
  np_client : str; np_member : N; np_ws : N; np_redirect : str; np_challenge : str; np_scope : list str;
  np_resource : option str; np_state : str; np_expires : Z
}.
Record OAuthRefreshRotation := {
  ro_presented : str; ro_access_hash : str; ro_access_label : option str; ro_access_caps : list str;
  ro_access_expires : Z; ro_refresh_hash : str; ro_refresh_expires : Z
}.
Record OAuthLineageRevocation := {
  lv_lineage : N; lv_ws : option N; lv_grants : nat; lv_access : nat; lv_refresh : nat
}.
Inductive OAuthRefreshOutcome :=
| Rotated (access : N * TokenRow) (refresh : str * OAuthRefreshRow)
| Reused (r : OAuthLineageRevocation)
| RefreshInvalid.

Section env.
Context `{JsonText, Sha256, Env}.

(** ** Clients *)

Definition client_row (id : N) (new : NewOAuthClient) (now : Z) (secret metadata : option str) (registered : option Z) :
    OAuthClientRow :=
  {| oc_id := id; oc_name := nk_name new; oc_redirects := nk_redirects new; oc_secret := secret;
     oc_scopes := nk_scopes new; oc_created := now; oc_revoked := None; oc_metadata := metadata;
     oc_registered := registered; oc_authorized := None; oc_last_used := registered |}.

(** [client_id] is unique. *)
Definition insert_client_row (client : str) (row : OAuthClientRow) : Tx OAuthClientRow :=
  taken <- read (fun d => bool_decide (is_Some (oauth_clients d !! client))) ;;
  if taken : bool then fail Database
  else write (upd_oauth_clients (fun m => <[client := row]> m)) ;; ret row.

Definition insert_client (new : NewOAuthClient) : Tx OAuthClientRow :=
  id <- new_uuid ;;
  now <- utc_now ;;
  insert_client_row (nk_client new) (client_row id new now (nk_secret new) None None).

Definition get_client_by_client_id (client : str) : Tx (option OAuthClientRow) :=
  read (fun d => c ← oauth_clients d !! client; if decide (oc_revoked c = None) then Some c else None).

(** The conflict path: a live row that a document made. *)
Definition refresh_client (new : NewOAuthClient) (c : OAuthClientRow) : OAuthClientRow :=
  {| oc_id := oc_id c; oc_name := nk_name new; oc_redirects := nk_redirects new; oc_secret := oc_secret c;
     oc_scopes := nk_scopes new; oc_created := oc_created c; oc_revoked := oc_revoked c; oc_metadata := oc_metadata c;
     oc_registered := oc_registered c; oc_authorized := oc_authorized c; oc_last_used := oc_last_used c |}.

Definition upsert_metadata_client (new : NewOAuthClient) (url : str) : Tx (option OAuthClientRow) :=
  id <- new_uuid ;;
  now <- utc_now ;;
  current <- read (fun d => oauth_clients d !! nk_client new) ;;
  match current with
  | None =>
      let row := client_row id new now (nk_secret new) (Some url) None in
      write (upd_oauth_clients (fun m => <[nk_client new := row]> m)) ;; ret (Some row)
  | Some c =>
      if bool_decide (oc_revoked c = None) && bool_decide (is_Some (oc_metadata c))
      then write (upd_oauth_clients (fun m => <[nk_client new := refresh_client new c]> m)) ;;
           ret (Some (refresh_client new c))
      else ret None
  end.

Definition insert_registered_client (new : NewOAuthClient) (now : Z) : Tx OAuthClientRow :=
  id <- new_uuid ;;
  insert_client_row (nk_client new) (client_row id new now None None (Some now)).

Definition count_unauthorized_registered_clients : Tx Z :=
  read (fun d => Z.of_nat (length (List.filter (fun e : str * OAuthClientRow =>
                   bool_decide (is_Some (oc_registered e.2)) && bool_decide (oc_authorized e.2 = None))
                   (map_to_list (oauth_clients d))))).

Definition used_client (now : Z) (c : OAuthClientRow) : OAuthClientRow :=
  match oc_registered c with
  | None => c
  | Some _ =>
      {| oc_id := oc_id c; oc_name := oc_name c; oc_redirects := oc_redirects c; oc_secret := oc_secret c;
         oc_scopes := oc_scopes c; oc_created := oc_created c; oc_revoked := oc_revoked c; oc_metadata := oc_metadata c;
         oc_registered := oc_registered c;
         oc_authorized := match oc_authorized c with Some a => Some a | None => Some now end; oc_last_used := Some now |}
  end.
Definition mark_registered_client_used (client : str) (now : Z) : Tx unit :=
  write (upd_oauth_clients (alter (used_client now) client)).

(** A client that registered itself and was never authorized since before
    [unauthorized_before], or was last used before [unused_before]; [julianday]
    is compared as the time. *)
Definition stale_client (unauthorized_before unused_before : Z) (c : OAuthClientRow) : bool :=
  match oc_registered c with
  | None => false
  | Some at_ =>
      (bool_decide (oc_authorized c = None) && (at_ <? unauthorized_before)%Z)
      || match oc_last_used c with Some u => (u <? unused_before)%Z | None => false end
  end.

(** [DELETE FROM oauth_clients] with its cascade: the codes and grants of the
    clients, the refresh tokens and access tokens of the grants, the quotas of
    the tokens; a token derived from one loses its parent. *)
Definition drop_clients (gone : str -> bool) (d : Db) : Db :=
  let gone_grant g := match oauth_grants d !! g with Some row => gone (og_client row) | None => false end in
  let gone_token (t : TokenRow) := match tk_oauth t with Some g => gone_grant g | None => false end in
  let gone_id i := match api_tokens d !! i with Some t => gone_token t | None => false end in
  upd_oauth_clients (filter (fun e => gone e.1 = false))
    (upd_oauth_codes (filter (fun e => gone (co_client e.2) = false))
       (upd_oauth_refresh (filter (fun e => gone_grant (or_grant e.2) = false))
          (upd_oauth_grants (filter (fun e => gone (og_client e.2) = false))
             (upd_token_quotas (filter (fun e => gone_id e.1.1 = false))
                (upd_api_tokens (fun ts =>
                   (fun t => match tk_parent t with
                             | Some p => if gone_id p : bool then upd_parent None t else t
                             | None => t
                             end) <$> filter (fun e => gone_token e.2 = false) ts) d))))).

Definition sweep_registered_clients (unauthorized_before unused_before : Z) : Tx nat :=
  swept <- read (fun d => filter (fun e => stale_client unauthorized_before unused_before e.2 = true) (oauth_clients d)) ;;
  write (drop_clients (fun c => bool_decide (is_Some (swept !! c)))) ;;
  ret (size swept).

(** The foreign key of a client column. *)
Definition client_fk (client : str) : Tx unit :=
  known <- read (fun d => bool_decide (is_Some (oauth_clients d !! client))) ;;
  if known : bool then ret tt else fail Database.

(** ** Codes *)

Definition insert_code (new : NewOAuthCode) : Tx unit :=
  swept <- utc_now ;;
  write (upd_oauth_codes (filter (fun e => (swept < co_expires e.2)%Z))) ;;
  now <- utc_now ;;
  taken <- read (fun d => bool_decide (is_Some (oauth_codes d !! nd_hash new))) ;;
  if taken : bool then fail Database
  else
    client_fk (nd_client new) ;;
    member_fk (nd_member new) ;;
    workspace_fk (nd_ws new) ;;
    write (upd_oauth_codes (fun m => <[nd_hash new :=
      {| co_client := nd_client new; co_member := nd_member new; co_ws := nd_ws new; co_redirect := nd_redirect new;
         co_challenge := nd_challenge new; co_scope := nd_scope new; co_resource := nd_resource new; co_created := now;
         co_expires := nd_expires new; co_used := None; co_lineage := nd_lineage new |}]> m)).

Definition get_code (hash : str) : Tx (option OAuthCodeRow) := read (fun d => oauth_codes d !! hash).

Definition spend_code (now : Z) (c : OAuthCodeRow) : OAuthCodeRow :=
  {| co_client := co_client c; co_member := co_member c; co_ws := co_ws c; co_redirect := co_redirect c;
     co_challenge := co_challenge c; co_scope := co_scope c; co_resource := co_resource c; co_created := co_created c;
     co_expires := co_expires c; co_used := Some now; co_lineage := co_lineage c |}.

(** Only a live code flips to used. *)
Definition consume_code (hash : str) : Tx (option OAuthCodeRow) :=
  now <- utc_now ;;
  found <- read (fun d => c ← oauth_codes d !! hash;
                          if decide (co_used c = None /\ (now < co_expires c)%Z) then Some c else None) ;;
  match found with
  | Some c => write (upd_oauth_codes (fun m => <[hash := spend_code now c]> m)) ;; ret (Some (spend_code now c))
  | None => ret None
  end.

(** ** Grants *)

Definition same_grant (client : str) (member ws : N) (scope : list str) (g : OAuthGrantRow) : bool :=
  bool_decide (og_client g = client) && bool_decide (og_member g = member) && bool_decide (og_ws g = ws)
  && bool_decide (og_scope g = scope) && bool_decide (og_revoked g = None).

(** The id is unique, and one grant of its client, member, workspace and scope is
    live. *)
Definition insert_grant_on (new : NewOAuthGrant) : Tx (N * OAuthGrantRow) :=
  id <- new_uuid ;;
  now <- utc_now ;;
  clash <- read (fun d => bool_decide (is_Some (oauth_grants d !! id))
                          || existsb (fun e : N * OAuthGrantRow => same_grant (nl_client new) (nl_member new) (nl_ws new) (nl_scope new) e.2)
                               (map_to_list (oauth_grants d))) ;;
  if clash : bool then fail (Conflict OAuthGrantExists)
  else
    client_fk (nl_client new) ;;
    member_fk (nl_member new) ;;
    workspace_fk (nl_ws new) ;;
    let row := {| og_client := nl_client new; og_member := nl_member new; og_ws := nl_ws new; og_scope := nl_scope new;
                  og_lineage := nl_lineage new; og_created := now; og_revoked := None |} in
    write (upd_oauth_grants (fun m => <[id := row]> m)) ;;
    ret (id, row).

Definition insert_grant_audited (new : NewOAuthGrant) (audit_for : N * OAuthGrantRow -> NewAuditEvent) :
    Tx (N * OAuthGrantRow) :=
  commit
    (grant <- insert_grant_on new ;;
     append_scoped (OwnerWorkspace (og_ws grant.2)) (audit_for grant) ;;
     ret grant).

Definition get_oauth_grant (id : N) : Tx (option OAuthGrantRow) :=
  read (fun d => g ← oauth_grants d !! id; if decide (og_revoked g = None) then Some g else None).

(** The latest live grant; the index keeps it the only one. *)
Definition find_grant (client : str) (member ws : N) (scope : list str) : Tx (option (N * OAuthGrantRow)) :=
  read (fun d => order_by (fun e : N * OAuthGrantRow => [- og_created e.2]%Z)
                   (List.filter (fun e : N * OAuthGrantRow => same_grant client member ws scope e.2)
                      (map_to_list (oauth_grants d))) !! 0).

Definition list_oauth_grants (ws member : N) : Tx (list (N * OAuthGrantRow)) :=
  read (fun d => order_by (fun e : N * OAuthGrantRow => [og_created e.2; Z.of_N e.1])
                   (List.filter (fun e : N * OAuthGrantRow => bool_decide (og_ws e.2 = ws) && bool_decide (og_member e.2 = member)
                                                           && bool_decide (og_revoked e.2 = None))
                      (map_to_list (oauth_grants d)))).

Definition end_grant (now : Z) (g : OAuthGrantRow) : OAuthGrantRow :=
  {| og_client := og_client g; og_member := og_member g; og_ws := og_ws g; og_scope := og_scope g;
     og_lineage := og_lineage g; og_created := og_created g; og_revoked := Some now |}.

Definition revoke_grant (id : N) : Tx unit :=
  now <- utc_now ;;
  write (upd_oauth_grants (alter (fun g => if decide (og_revoked g = None) then end_grant now g else g) id)).

(** ** Access tokens *)

Definition sanitized_capabilities (caps : list str) : list str :=
  List.filter (fun c => negb (bool_decide (c = APPROVAL_GRANT))) caps.

Definition mint_token_on (new : NewApiToken) (grant : N) : Tx (N * TokenRow) :=
  id <- new_uuid ;;
  now <- utc_now ;;
  insert_token id
    {| tk_ws := nt_ws new; tk_member := nt_member new; tk_app := nt_app new; tk_hash := nt_hash new;
       tk_label := nt_label new; tk_capabilities := sanitized_capabilities (nt_capabilities new); tk_created := now;
       tk_expires := nt_expires new; tk_revoked := None; tk_parent := None; tk_grant := None; tk_oauth := Some grant |}.

Definition mint_token_audited (new : NewApiToken) (grant : N) (audit_for : N * TokenRow -> NewAuditEvent) :
    Tx (N * TokenRow) :=
  audited_token (mint_token_on new grant) audit_for.

(** ** Consent requests *)

Definition create_pending_request (new : NewOAuthPending) : Tx (N * OAuthPendingRow) :=
  id <- new_uuid ;;
  now <- utc_now ;;
  taken <- read (fun d => bool_decide (is_Some (oauth_pending d !! id))) ;;
  if taken : bool then fail Database
  else
    let row := {| op_client := np_client new; op_member := np_member new; op_ws := np_ws new;
                  op_redirect := np_redirect new; op_challenge := np_challenge new; op_scope := np_scope new;
                  op_resource := np_resource new; op_state := np_state new; op_created := now;
                  op_expires := np_expires new |} in
    write (upd_oauth_pending (fun m => <[id := row]> m)) ;;
    ret (id, row).

Definition get_pending_request (id : N) : Tx (option OAuthPendingRow) := read (fun d => oauth_pending d !! id).
Definition delete_pending_request (id : N) : Tx unit := write (upd_oauth_pending (delete id)).

(** [DELETE … RETURNING]: of this member, in this workspace, and not expired. *)
Definition consume_pending_request (id member ws : N) (now : Z) : Tx (option OAuthPendingRow) :=
  found <- read (fun d => p ← oauth_pending d !! id;
                          if decide (op_member p = member /\ op_ws p = ws /\ (now < op_expires p)%Z) then Some p else None) ;;
  match found with
  | Some p => write (upd_oauth_pending (delete id)) ;; ret (Some p)
  | None => ret None
  end.

(** ** Refresh tokens *)

Definition insert_refresh_on (new : NewOAuthRefreshToken) : Tx (str * OAuthRefreshRow) :=
  now <- utc_now ;;
  taken <- read (fun d => bool_decide (is_Some (oauth_refresh d !! nr_hash new))) ;;
  if taken : bool then fail Database
  else
    known_fk oauth_grants (Some (nr_grant new)) ;;
    let row := {| or_grant := nr_grant new; or_lineage := nr_lineage new; or_client := nr_client new;
                  or_resource := nr_resource new; or_created := now; or_expires := nr_expires new; or_used := None;
                  or_revoked := None |} in
    write (upd_oauth_refresh (fun m => <[nr_hash new := row]> m)) ;;
    ret (nr_hash new, row).

Definition mint_token_pair_audited (access : NewApiToken) (grant : N) (refresh : NewOAuthRefreshToken)
    (audit_for : N * TokenRow -> NewAuditEvent) : Tx (N * TokenRow) :=
  if decide (nr_grant refresh <> grant) then fail (InvalidInput RefreshElsewhere)
  else
    commit
      (token <- mint_token_on access grant ;;
       insert_refresh_on refresh ;;
       append_scoped (OwnerWorkspace (tk_ws token.2)) (audit_for token) ;;
       ret token).

Definition get_refresh_token (hash : str) : Tx (option OAuthRefreshRow) := read (fun d => oauth_refresh d !! hash).

(** ** The end of a lineage *)

Definition end_refresh (now : Z) (r : OAuthRefreshRow) : OAuthRefreshRow :=
  {| or_grant := or_grant r; or_lineage := or_lineage r; or_client := or_client r; or_resource := or_resource r;
     or_created := or_created r; or_expires := or_expires r; or_used := or_used r; or_revoked := Some now |}.

(** [UPDATE … SET revoked_at = ? WHERE lineage_id = ? AND revoked_at IS NULL]. *)
Definition end_grants (lineage : N) (now : Z) (m : gmap N OAuthGrantRow) : gmap N OAuthGrantRow :=
  (fun g => if decide (og_lineage g = lineage /\ og_revoked g = None) then end_grant now g else g) <$> m.
Definition end_refreshes (lineage : N) (now : Z) (m : gmap str OAuthRefreshRow) : gmap str OAuthRefreshRow :=
  (fun r => if decide (or_lineage r = lineage /\ or_revoked r = None) then end_refresh now r else r) <$> m.
(** The access tokens of the lineage's grants. *)
Definition in_lineage (d : Db) (lineage : N) (t : TokenRow) : bool :=
  match tk_oauth t with
  | Some g => bool_decide (og_lineage <$> oauth_grants d !! g = Some lineage)
  | None => false
  end.
Definition end_tokens (d : Db) (lineage : N) (now : Z) (m : gmap N TokenRow) : gmap N TokenRow :=
  (fun t => if in_lineage d lineage t && bool_decide (tk_revoked t = None) then upd_revoked now t else t) <$> m.

Definition count_rows {K A} `{Countable K} (p : A -> bool) (m : gmap K A) : nat :=
  length (List.filter (fun e : K * A => p e.2) (map_to_list m)).

Definition revoke_lineage_on (lineage : N) : Tx OAuthLineageRevocation :=
  now <- utc_now ;;
  ws <- read (fun d => (fun e : N * OAuthGrantRow => og_ws e.2)
                         <$> List.find (fun e : N * OAuthGrantRow => bool_decide (og_lineage e.2 = lineage))
                               (map_to_list (oauth_grants d))) ;;
  grants <- read (fun d => count_rows (fun g => bool_decide (og_lineage g = lineage /\ og_revoked g = None)) (oauth_grants d)) ;;
  write (upd_oauth_grants (end_grants lineage now)) ;;
  access <- read (fun d => count_rows (fun t => in_lineage d lineage t && bool_decide (tk_revoked t = None)) (api_tokens d)) ;;
  d <- read (fun d => d) ;;
  write (upd_api_tokens (end_tokens d lineage now)) ;;
  refresh <- read (fun d => count_rows (fun r => bool_decide (or_lineage r = lineage /\ or_revoked r = None)) (oauth_refresh d)) ;;
  write (upd_oauth_refresh (end_refreshes lineage now)) ;;
  ret {| lv_lineage := lineage; lv_ws := ws; lv_grants := grants; lv_access := access; lv_refresh := refresh |}.

(** An owner known only when a grant of the lineage is. *)
Definition lineage_owner (r : OAuthLineageRevocation) : AuditOwner :=
  match lv_ws r with Some ws => OwnerWorkspace ws | None => OwnerInstance end.

Definition revoke_lineage_audited (lineage : N) (audit_for : OAuthLineageRevocation -> NewAuditEvent) :
    Tx OAuthLineageRevocation :=
  commit
    (revoked <- revoke_lineage_on lineage ;;
     append_scoped (lineage_owner revoked) (audit_for revoked) ;;
     ret revoked).

Definition spend_refresh (now : Z) (r : OAuthRefreshRow) : OAuthRefreshRow :=
  {| or_grant := or_grant r; or_lineage := or_lineage r; or_client := or_client r; or_resource := or_resource r;
     or_created := or_created r; or_expires := or_expires r; or_used := Some now; or_revoked := or_revoked r |}.

(** Live, under a live grant. *)
Definition claimable_refresh (d : Db) (now : Z) (hash : str) : option OAuthRefreshRow :=
  r ← oauth_refresh d !! hash;
  if decide (or_used r = None /\ or_revoked r = None /\ (now < or_expires r)%Z
             /\ (og_revoked <$> oauth_grants d !! or_grant r) = Some None)
  then Some r else None.

(** The second presenter of a token finds it used, and its lineage ends. *)
Definition refuse_rotation (rotation : OAuthRefreshRotation) (reuse_audit : OAuthLineageRevocation -> NewAuditEvent) :
    Tx OAuthRefreshOutcome :=
  presented <- read (fun d => oauth_refresh d !! ro_presented rotation) ;;
  match presented with
  | None => ret RefreshInvalid
  | Some r =>
      if decide (or_used r = None) then ret RefreshInvalid
      else
        revoked <- revoke_lineage_on (or_lineage r) ;;
        append_scoped (lineage_owner revoked) (reuse_audit revoked) ;;
        ret (Reused revoked)
  end.

Definition rotate_refresh_token (rotation : OAuthRefreshRotation) (mint_audit : N * TokenRow -> NewAuditEvent)
    (reuse_audit : OAuthLineageRevocation -> NewAuditEvent) : Tx OAuthRefreshOutcome :=
  now <- utc_now ;;
  commit
    (claimed <- read (fun d => claimable_refresh d now (ro_presented rotation)) ;;
     match claimed with
     | None => refuse_rotation rotation reuse_audit
     | Some r =>
         write (upd_oauth_refresh (fun m => <[ro_presented rotation := spend_refresh now r]> m)) ;;
         found <- read (fun d => oauth_grants d !! or_grant r) ;;
         grant <- ok_or found NotFound ;;
         if existsb (fun c => negb (holds (og_scope grant) c)) (ro_access_caps rotation)
         then fail (InvalidInput RefreshWidens)
         else
           access <- mint_token_on
                       {| nt_ws := og_ws grant; nt_member := og_member grant; nt_app := None;
                          nt_hash := ro_access_hash rotation; nt_label := ro_access_label rotation;
                          nt_capabilities := ro_access_caps rotation; nt_expires := Some (ro_access_expires rotation) |}
                       (or_grant r) ;;
           refresh <- insert_refresh_on
                        {| nr_hash := ro_refresh_hash rotation; nr_grant := or_grant r; nr_lineage := or_lineage r;
                           nr_client := or_client r; nr_resource := or_resource r;
                           nr_expires := ro_refresh_expires rotation |} ;;
           append_scoped (OwnerWorkspace (tk_ws access.2)) (mint_audit access) ;;
           ret (Rotated access refresh)
     end).

(** A used code names the lineage it was issued under. *)
Definition revoke_lineage_for_used_code (hash : str) (audit_for : OAuthLineageRevocation -> NewAuditEvent) :
    Tx (option OAuthLineageRevocation) :=
  commit
    (lineage <- read (fun d => c ← oauth_codes d !! hash; used ← co_used c; co_lineage c) ;;
     match lineage with
     | None => ret None
     | Some lineage =>
         revoked <- revoke_lineage_on lineage ;;
         append_scoped (lineage_owner revoked) (audit_for revoked) ;;
         ret (Some revoked)
     end).

(** A live token of one of the client's grants. *)
Definition revoke_access_token_audited (hash client : str) (audit_for : N * TokenRow -> NewAuditEvent) :
    Tx (option (N * TokenRow)) :=
  commit
    (now <- utc_now ;;
     found <- read (fun d => List.find (fun e : N * TokenRow =>
                bool_decide (tk_hash e.2 = hash) && bool_decide (tk_revoked e.2 = None)
                && match tk_oauth e.2 with
                   | Some g => bool_decide (og_client <$> oauth_grants d !! g = Some client)
                   | None => false
                   end) (map_to_list (api_tokens d))) ;;
     match found with
     | None => ret None
     | Some e =>
         let token := (e.1, upd_revoked now e.2) in
         write (upd_api_tokens (fun m => <[e.1 := upd_revoked now e.2]> m)) ;;
         append_scoped (OwnerWorkspace (tk_ws e.2)) (audit_for token) ;;
         ret (Some token)
     end).
End env.
