(* ===== verification/OAuthClients.v ===== *)
(** * OAuth clients: who may ask, and where an answer may go

    The checks of [crates/maidan-server/src/oauth/] that read no table:
    client credentials ([client_auth.rs]), redirect URIs and metadata hosts
    ([registry.rs]), dynamic registration ([register.rs]), the scope and resource
    of a token request ([token.rs]), the origin of a browser's request
    ([session/mod.rs]) and the error codes ([error.rs]). What the [url],
    [base64] and [urlencoding] crates compute is the class [Web]. *)

From stdpp Require Import strings sorting.
From S2P Require Import Prelude Text Json EventChain EventLog Review Db Auth TxLogic AuditTrail Claimability Threads Deps Tokens OAuthStore.
Local Open Scope result_scope.

(** ** Addresses and encodings *)

Inductive Host := Domain (name : str) | Ipv4 (a : N) | Ipv6 (a : N).
(** What [url::Url] says of an address it parsed; [url_port] is a port other than
    the scheme's own, and [url_portless] its text once [set_port(None)] removed it. *)
Record Url := {
  url_scheme : str; url_host : option Host; url_host_str : option str; url_port : option N; url_username : str;
  url_password : option str; url_fragment : option str; url_portless : str
}.

(** A client metadata document, and how fetching one may end. *)
Record ClientMetadataDocument := { cd_name : option str; cd_redirects : list str; cd_scope : option str }.
Inductive Fetched := FetchFailed | FetchStatus | FetchGarbled | FetchedDoc (doc : ClientMetadataDocument).

Class Web := {
  url_parse : str -> option Url;
  (** [STANDARD.decode] and [String::from_utf8]. *)
  base64_text : str -> option str;
  base64url_encode : list N -> str;
  percent_decode : str -> option str;
  percent_encode : str -> str;
  (** The document an address answers with at one moment. *)
  fetch_document : nat -> str -> Fetched
}.

(** The instance's settings: its public origin, dynamic registration with the
    hosts an [https] redirect may name, and the hosts documents come from. *)
Class OAuthConfig := {
  public_origin : option str;
  dynamic_registration : option (list str);
  metadata_hosts : list str
}.

(** ** Errors of the token and revocation endpoints ([error.rs]) *)

Inductive OAuthErrorCode :=
| InvalidRequest | InvalidClient | InvalidGrant | UnauthorizedClient | UnsupportedGrantType | InvalidScope
| InvalidTarget | ServerError.
Definition code_as_str (c : OAuthErrorCode) : string :=
  match c with
  | InvalidRequest => "invalid_request" | InvalidClient => "invalid_client" | InvalidGrant => "invalid_grant"
  | UnauthorizedClient => "unauthorized_client" | UnsupportedGrantType => "unsupported_grant_type"
  | InvalidScope => "invalid_scope" | InvalidTarget => "invalid_target" | ServerError => "server_error"
  end.
Definition status (c : OAuthErrorCode) : N :=
  match c with InvalidClient => 401 | ServerError => 500 | _ => 400 end.
(** The code, and whether the client tried HTTP Basic. *)
Record OAuthError := { oe_code : OAuthErrorCode; oe_basic : bool }.
Definition oauth_error (c : OAuthErrorCode) : OAuthError := {| oe_code := c; oe_basic := false |}.
Definition server_error (_ : StoreError) : OAuthError := oauth_error ServerError.

(** ** Requests from a browser ([session/mod.rs]) *)

(** Each header when present, [None] inside when it is not visible ASCII. *)
Record Headers := {
  h_authorization : option (option str); h_sec_fetch_site : option (option str); h_origin : option (option str);
  h_host : option (option str)
}.

Fixpoint split_once_str (pat s : str) : option (str * str) :=
  match strip_prefix pat s with
  | Some rest => Some ([], rest)
  | None => match s with
            | [] => None
            | c :: s => match split_once_str pat s with Some (a, b) => Some (c :: a, b) | None => None end
            end
  end.
Definition eq_ignore_ascii_case (a b : str) : bool := bool_decide (to_ascii_lowercase a = to_ascii_lowercase b).

Definition refuse_cross_origin (h : Headers) : bool :=
  match h_sec_fetch_site h with
  | Some site => match site with
                 | Some s => bool_decide (s = lit "same-origin") || bool_decide (s = lit "none")
                 | None => false
                 end
  | None =>
      match h_origin h with
      | None => true
      | Some origin =>
          match origin ≫= split_once_str (lit "://"), h_host h with
          | Some (_, authority), Some (Some host) => eq_ignore_ascii_case authority host
          | _, _ => false
          end
      end
  end.
Definition require_same_origin (h : Headers) : bool :=
  match h_sec_fetch_site h with
  | Some site => bool_decide (site = Some (lit "same-origin"))
  | None => match h_origin h with None => false | Some _ => refuse_cross_origin h end
  end.

(** ** Host names and redirects ([registry.rs]) *)

Definition host_label (label : str) : bool :=
  negb (bool_decide (label = [])) && negb (bool_decide (label !! 0 = Some 45%N))
  && negb (bool_decide (last label = Some 45%N)) && forallb (fun c => is_ascii_alphanumeric c || (c =? 45)%N) label.

(** [Err] is the entry that is no host name. *)
Fixpoint host_entries (entries : list str) : result str (list str) :=
  match entries with
  | [] => Ok []
  | entry :: rest =>
      let host := to_ascii_lowercase (trim entry) in
      if bool_decide (host = []) then host_entries rest
      else if negb (forallb host_label (split_on 46 host)) || (253 <? byte_len host) then Err entry
      else let*? hosts := host_entries rest in Ok (host :: hosts)
  end.
Definition parse_host_list (raw : str) : result str (list str) :=
  let*? hosts := host_entries (split_on 44 raw) in Ok (btree_set hosts).

(** [::1] is the number one; [127.0.0.1] is [0x7f000001]. *)
Definition is_loopback_host (u : Url) : bool :=
  match url_host u with
  | Some (Domain d) => bool_decide (d = lit "localhost")
  | Some (Ipv4 a) => bool_decide (a = 2130706433%N)
  | Some (Ipv6 a) => bool_decide (a = 1%N)
  | None => false
  end.

Section web.
Context `{Web}.

Definition allows_host (hosts : list str) (u : Url) : bool :=
  bool_decide (url_port u = None)
  && match url_host_str u with Some h => holds hosts (to_ascii_lowercase h) | None => false end.

Definition loopback_without_port (uri : str) : option str :=
  u ← url_parse uri;
  if negb (bool_decide (url_scheme u = lit "http")) || negb (is_loopback_host u)
     || negb (bool_decide (url_username u = [])) || bool_decide (is_Some (url_password u))
     || bool_decide (is_Some (url_fragment u))
  then None else Some (url_portless u).

Definition redirect_uri_matches (registered : list str) (given : str) : bool :=
  holds registered given
  || match loopback_without_port given with
     | None => false
     | Some g => existsb (fun uri => bool_decide (loopback_without_port uri = Some g)) registered
     end.

(** [validate_redirect_uris], of a document or of the operator's list. *)
Definition redirect_ok (uri : str) : bool :=
  match url_parse uri with
  | None => false
  | Some u =>
      bool_decide (url_scheme u = lit "https")
      || (bool_decide (url_scheme u = lit "http")
          && match url_host_str u with Some h => holds [lit "localhost"; lit "127.0.0.1"; lit "[::1]"] h | None => false end)
  end.
Definition validate_redirect_uris (uris : list str) : bool := forallb redirect_ok uris.

Definition words (s : option str) : list str :=
  List.filter (fun c => negb (bool_decide (c = []))) (split_on 32 (default [] s)).

Definition document_scopes (scope : option str) : list str :=
  match words scope with [] => delegatable | named => named end.

(** ** Dynamic registration ([register.rs]) *)

Definition MAX_REDIRECT_URIS : nat := 10.
Definition MAX_REDIRECT_URI_LEN : nat := 512.
Definition MAX_CLIENT_NAME_CHARS : nat := 100.
Definition MAX_SCOPE_LEN : nat := 1024.
Definition KNOWN_APP_SCHEMES : list str :=
  [lit "cursor"; lit "vscode"; lit "vscode-insiders"; lit "windsurf"; lit "zed"].
Definition FORBIDDEN_SCHEMES : list str :=
  [lit "javascript"; lit "vbscript"; lit "data"; lit "file"; lit "blob"; lit "filesystem"; lit "about";
   lit "view-source"; lit "ftp"; lit "ws"; lit "wss"; lit "mailto"; lit "tel"; lit "sms"; lit "intent";
   lit "content"; lit "jar"; lit "resource"; lit "chrome"; lit "chrome-extension"; lit "moz-extension";
   lit "ms-browser-extension"; lit "safari-extension"].

Record ClientRegistrationRequest := {
  cr_redirects : option (list str); cr_name : option str; cr_auth_method : option str;
  cr_grant_types : option (list str); cr_response_types : option (list str); cr_scope : option str
}.
Inductive RegistrationError := BadMetadata | BadRedirectUri.
Inductive RedirectVerdict := Accept | Skip.

Definition is_reverse_dns (scheme : str) : bool :=
  let labels := split_on 46 scheme in (2 <=? length labels) && forallb host_label labels.

Definition judge_redirect_uri (uri : str) (https_hosts : list str) : result RegistrationError RedirectVerdict :=
  if (MAX_REDIRECT_URI_LEN <? byte_len uri) then Err BadRedirectUri
  else if existsb (fun c => is_whitespace c || is_control c) uri then Err BadRedirectUri
  else
    match url_parse uri with
    | None => Err BadRedirectUri
    | Some u =>
        if bool_decide (is_Some (url_fragment u)) then Err BadRedirectUri
        else if negb (bool_decide (url_username u = [])) || bool_decide (is_Some (url_password u)) then Err BadRedirectUri
        else
          let scheme := url_scheme u in
          if bool_decide (scheme = lit "http") then if is_loopback_host u then Ok Accept else Err BadRedirectUri
          else if bool_decide (scheme = lit "https")
          then Ok (if bool_decide (url_port u = None)
                      && match url_host u with Some (Domain h) => holds https_hosts h | _ => false end
                   then Accept else Skip)
          else if holds FORBIDDEN_SCHEMES scheme then Err BadRedirectUri
          else if holds KNOWN_APP_SCHEMES scheme || is_reverse_dns scheme then Ok Accept
          else Err BadRedirectUri
    end.

(** Characters that show as nothing, or turn the text around them. *)
Definition invisible (c : N) : bool :=
  is_control c || (c =? 0xAD)%N || (c =? 0x61C)%N || (c =? 0x180E)%N || in_range 0x200B 0x200F c
  || in_range 0x202A 0x202E c || in_range 0x2060 0x2069 c || (c =? 0xFEFF)%N || in_range 0xFFF9 0xFFFB c.

Definition clean_client_name (raw : option str) : result RegistrationError str :=
  let name := default [] (trim <$> raw) in
  if bool_decide (name = []) then Ok (lit "Unnamed app")
  else if (MAX_CLIENT_NAME_CHARS <? length name) then Err BadMetadata
  else if existsb invisible name then Err BadMetadata
  else Ok name.

Definition requested_scopes (scope : option str) : result RegistrationError (list str) :=
  if (MAX_SCOPE_LEN <? byte_len (default [] scope)) then Err BadMetadata
  else match words scope with
       | [] => Ok delegatable
       | named => if forallb is_delegatable named then Ok (btree_set named) else Err BadMetadata
       end.

(** The loop over the requested URIs: accepted ones, each once, in order. *)
Fixpoint accepted_uris (hosts : list str) (requested kept : list str) : result RegistrationError (list str) :=
  match requested with
  | [] => Ok kept
  | uri :: rest =>
      let*? v := judge_redirect_uri uri hosts in
      match v with
      | Accept => accepted_uris hosts rest (if holds kept uri then kept else kept ++ [uri])
      | Skip => accepted_uris hosts rest kept
      end
  end.

(** The client to insert, less the id generated for it at the end. *)
Definition validate_registration (r : ClientRegistrationRequest) (hosts : list str) :
    result RegistrationError (str -> NewOAuthClient) :=
  if negb (match cr_auth_method r with None => true | Some m => bool_decide (m = lit "none") end) then Err BadMetadata
  else if match cr_grant_types r with
          | Some grants => negb (forallb (holds [lit "authorization_code"; lit "refresh_token"]) grants)
                           || negb (holds grants (lit "authorization_code"))
          | None => false
          end then Err BadMetadata
  else if match cr_response_types r with
          | Some rs => existsb (fun x => negb (bool_decide (x = lit "code"))) rs
          | None => false
          end then Err BadMetadata
  else
    let*? name := clean_client_name (cr_name r) in
    let*? scopes := requested_scopes (cr_scope r) in
    let requested := default [] (cr_redirects r) in
    if bool_decide (requested = []) || (MAX_REDIRECT_URIS <? length requested) then Err BadRedirectUri
    else
      let*? uris := accepted_uris hosts requested [] in
      if bool_decide (uris = []) then Err BadRedirectUri
      else Ok (fun client_id => {| nk_client := client_id; nk_name := name; nk_redirects := uris; nk_secret := None; nk_scopes := scopes |}).

(** ** Client credentials ([client_auth.rs]) *)

Inductive AuthMethod := MethodBasic | MethodPost | MethodNone.
Record ClientCredentials := { cc_client : str; cc_secret : option str; cc_method : AuthMethod }.
Definition invalid_client (creds : ClientCredentials) : OAuthError :=
  {| oe_code := InvalidClient; oe_basic := match cc_method creds with MethodBasic => true | _ => false end |}.

Definition form_decode (raw : str) : option str :=
  percent_decode ((fun c => if (c =? 43)%N then 32%N else c) <$> raw).

(** The two halves of a Basic header. *)
Definition basic_pair (value : option str) : option (str * str) :=
  v ← value;
  '(scheme, encoded) ← split_once 32 v;
  if negb (eq_ignore_ascii_case scheme (lit "basic")) then None
  else
    decoded ← base64_text (trim encoded);
    '(id, secret) ← split_once 58 decoded;
    id ← form_decode id;
    secret ← form_decode secret;
    if decide (id = []) then None else Some (id, secret).

Definition non_empty (s : option str) : option str := x ← s; if decide (x = []) then None else Some x.

Definition credentials (h : Headers) (form_client form_secret : option str) : result OAuthError ClientCredentials :=
  let form_client := non_empty form_client in
  let form_secret := non_empty form_secret in
  match h_authorization h with
  | None =>
      match form_client with
      | None => Err (oauth_error InvalidClient)
      | Some id => Ok {| cc_client := id; cc_secret := form_secret;
                         cc_method := match form_secret with Some _ => MethodPost | None => MethodNone end |}
      end
  | Some value =>
      match basic_pair value with
      | None => Err {| oe_code := InvalidClient; oe_basic := true |}
      | Some (id, secret) =>
          if bool_decide (is_Some form_secret) then Err (oauth_error InvalidRequest)
          else if match form_client with Some f => negb (bool_decide (f = id)) | None => false end
          then Err (oauth_error InvalidRequest)
          else Ok {| cc_client := id; cc_secret := Some secret; cc_method := MethodBasic |}
      end
  end.

(** Only a client named by its metadata document may be unknown to the store. *)
Definition require_known_shape (creds : ClientCredentials) : result OAuthError unit :=
  if match cc_method creds with
     | MethodNone => match url_parse (cc_client creds) with
                     | Some u => bool_decide (url_scheme u = lit "https")
                     | None => false
                     end
     | _ => false
     end
  then Ok tt else Err (invalid_client creds).
End web.

Section secrets.
Context `{Sha256, Web, OAuthConfig}.

Definition check_secret (client : OAuthClientRow) (creds : ClientCredentials) : result OAuthError unit :=
  match oc_secret client, cc_secret creds with
  | Some expected, Some provided =>
      if hashes_equal expected (hash_secret provided) then Ok tt else Err (invalid_client creds)
  | Some _, None => Err (invalid_client creds)
  | None, Some _ => Err (invalid_client creds)
  | None, None => Ok tt
  end.

Definition client_enabled (client : OAuthClientRow) : bool :=
  bool_decide (oc_registered client = None) || bool_decide (is_Some dynamic_registration).

(** ** Checks of a token request ([token.rs]) *)

(** The stored form of a code, a verifier and a refresh token. *)
Definition opaque_hash (secret : str) : str := base64url_encode (digest (as_bytes secret)).

Definition required (value : option str) : result OAuthError str :=
  match non_empty value with Some v => Ok v | None => Err (oauth_error InvalidRequest) end.

Definition MCP_RESOURCE_PATH : str := lit "/mcp/streamable".
Definition mcp_resource (origin : str) : str := origin ++ MCP_RESOURCE_PATH.

Definition require_resource (given : option str) (origin : str) : result OAuthError str :=
  match non_empty given with
  | Some r => if decide (r = mcp_resource origin) then Ok (mcp_resource origin) else Err (oauth_error InvalidTarget)
  | None => Err (oauth_error InvalidTarget)
  end.

(** A refresh narrows a grant and never widens it. *)
Definition narrowed_scope (requested : option str) (granted : list str) : result OAuthError (list str) :=
  match requested with
  | None => Ok granted
  | Some _ =>
      match words requested with
      | [] => Err (oauth_error InvalidScope)
      | scope => if forallb (holds granted) scope then Ok (btree_set scope) else Err (oauth_error InvalidScope)
      end
  end.

Definition client_allows (client : OAuthClientRow) (scope : list str) : result OAuthError unit :=
  if forallb (holds (oc_scopes client)) scope then Ok tt else Err (oauth_error UnauthorizedClient).
End secrets.
