(* ===== verification/Attributes.v ===== *)
(** * Task attributes

    [crates/maidan-store/src/sqlite/thread_attributes.rs] with the rules of
    [crates/maidan-types/src/task_attributes.rs] it applies: the attributes of a
    thread, the key sets a workspace holds unique among its open changes, and
    the workspace settings that route a thread. *)

From stdpp Require Import strings.
From S2P Require Import Prelude Text Json EventChain EventLog Footprint Fsm Review Db Budget AuditTrail Claimability Threads.
Local Open Scope tx_scope.

(** ** The rules *)

(** [UniqueAttributeKey::value_of] and [values_of]. *)
Definition value_of (key : UniqueAttributeKey) (a : AttributeRow) : option str :=
  match key with KeyLinearIssue => a_linear_issue a | KeyRepo => a_repo a end.
Definition values_of (set : list UniqueAttributeKey) (a : AttributeRow) : option (list str) :=
  mapM (fun key => value_of key a) set.

(** [Ord]: the variants in their order, and vectors lexicographically. *)
Definition key_rank (k : UniqueAttributeKey) : Z := match k with KeyLinearIssue => 0 | KeyRepo => 1 end.
Definition sorted_set (set : list UniqueAttributeKey) : list UniqueAttributeKey := order_by (fun k => [key_rank k]) set.

(** [Vec::dedup]: the first of each run of equal elements. *)
Fixpoint dedup `{EqDecision A} (l : list A) : list A :=
  match l with
  | [] => []
  | x :: rest =>
      match dedup rest with
      | y :: _ as rest' => if decide (x = y) then rest' else x :: rest'
      | [] => [x]
      end
  end.

(** [WorkspaceUniqueThreadAttributes::normalized]. *)
Definition normalized (sets : list (list UniqueAttributeKey)) : list (list UniqueAttributeKey) :=
  let sets := (fun set => dedup (sorted_set set)) <$> sets in
  let sets := List.filter (fun set => negb (bool_decide (set = []))) sets in
  dedup (order_by (fun set => key_rank <$> set) sets).

(** [state NOT IN ('closed', 'archived') AND tombstoned_at IS NULL]. *)
Definition open_live (t : ThreadRow) : bool := not_finished t && live t.

(** An open change of workspace [ws] that gives [set] these [values]. *)
Definition holds_values (d : Db) (ws : N) (set : list UniqueAttributeKey) (values : list str)
    (e : N * ThreadRow) : bool :=
  match channels d !! t_channel e.2, thread_attributes d !! e.1 with
  | Some c, Some a =>
      bool_decide (a_kind a = KChange) && bool_decide (c_ws c = ws)
      && bool_decide (values_of set a = Some values) && open_live e.2
  | _, _ => false
  end.

(** Another thread that holds them, the oldest first. *)
Definition holder_of (d : Db) (ws thread : N) (set : list UniqueAttributeKey) (values : list str) : option N :=
  fst <$> first_by (fun a b : N * ThreadRow => lex_ltb [t_created a.2; Z.of_N a.1] [t_created b.2; Z.of_N b.1])
            (List.filter (fun e => holds_values d ws set values e && negb (bool_decide (e.1 = thread)))
               (map_to_list (threads d))).

Section env.
Context `{JsonText, Sha256, Env}.

(** ** The row *)

Definition refuse_held_on (thread : N) (a : AttributeRow) : Tx unit :=
  if negb (bool_decide (a_kind a = KChange))
     || bool_decide (a_linear_issue a = None) && bool_decide (a_repo a = None)
  then ret tt
  else
    row <- read (fun d =>
                   t ← threads d !! thread; c ← channels d !! t_channel t; w ← workspaces d !! c_ws c;
                   if open_live t then Some (c_ws c, normalized (ws_unique w)) else None) ;;
    match row with
    | None => ret tt
    | Some (ws, sets) =>
        for_each (fun set =>
          match values_of set a with
          | None => ret tt
          | Some values =>
              holder <- read (fun d => holder_of d ws thread set values) ;;
              match holder with
              | Some h => fail (AttributeHeld (zip set values) h)
              | None => ret tt
              end
          end) sets ;;
        ret tt
    end.

(** [INSERT INTO maidan_thread_attributes]: the columns of [a] but the review
    family, which only the server sets. *)
Definition stored_attributes (a : AttributeRow) (review_family : option str) : AttributeRow :=
  {| a_kind := a_kind a; a_engine := a_engine a; a_threat_model := a_threat_model a; a_size := a_size a;
     a_acceptance := a_acceptance a; a_linear_issue := a_linear_issue a; a_tier := a_tier a;
     a_lane := a_lane a; a_review_family := review_family; a_author_family := a_author_family a;
     a_repo := a_repo a |}.

Definition attributes_insert_on (thread : N) (a : AttributeRow) : Tx unit :=
  refuse_held_on thread a ;;
  thread_fk thread ;;
  taken <- read (fun d => bool_decide (is_Some (thread_attributes d !! thread))) ;;
  if taken then fail Database
  else write (upd_thread_attributes (fun m => <[thread := stored_attributes a None]> m)).

Definition with_engine (engine : option TaskEngine) (a : AttributeRow) : AttributeRow :=
  {| a_kind := a_kind a; a_engine := engine; a_threat_model := a_threat_model a; a_size := a_size a;
     a_acceptance := a_acceptance a; a_linear_issue := a_linear_issue a; a_tier := a_tier a;
     a_lane := a_lane a; a_review_family := a_review_family a; a_author_family := a_author_family a;
     a_repo := a_repo a |}.

(** [INSERT … SELECT … ON CONFLICT DO UPDATE SET engine … WHERE engine IS NULL]. *)
Definition apply_default_engine_on (thread : N) : Tx unit :=
  engine <- read (fun d =>
                    t ← threads d !! thread; c ← channels d !! t_channel t; w ← workspaces d !! c_ws c;
                    ws_default_engine w) ;;
  match engine with
  | None => ret tt
  | Some e =>
      write (upd_thread_attributes
               (fun m => match m !! thread with
                         | None => <[thread := with_engine (Some e) default_attributes]> m
                         | Some a => match a_engine a with
                                     | None => <[thread := with_engine (Some e) a]> m
                                     | Some _ => m
                                     end
                         end))
  end.

Definition is_review (d : Db) (thread : N) : bool :=
  match thread_attributes d !! thread with
  | Some a => bool_decide (a_kind a = KReview) && bool_decide (is_Some (a_review_family a))
  | None => false
  end.
Definition is_review_in_tx (thread : N) : Tx bool := read (fun d => is_review d thread).

Definition get_attributes (thread : N) : Tx AttributeRow :=
  read (fun d => default default_attributes (thread_attributes d !! thread)).

Definition set_attributes (thread : N) (a : AttributeRow) : Tx AttributeRow :=
  known <- read (fun d => bool_decide (is_Some (threads d !! thread))) ;;
  (if known then ret tt else fail NotFound) ;;
  commit
    (stored <- read (fun d => thread_attributes d !! thread) ;;
     (match a_author_family a, stored ≫= a_author_family with
      | Some named, Some family =>
          if decide (family = named) then ret tt else fail (Conflict (AuthorFamilySet family))
      | _, _ => ret tt
      end) ;;
     write (upd_thread_attributes
              (fun m => <[thread :=
                          match m !! thread with
                          | None => stored_attributes a None
                          | Some old =>
                              let row := stored_attributes a (a_review_family old) in
                              {| a_kind := a_kind row; a_engine := a_engine row;
                                 a_threat_model := a_threat_model row; a_size := a_size row;
                                 a_acceptance := a_acceptance row; a_linear_issue := a_linear_issue row;
                                 a_tier := a_tier row; a_lane := a_lane row;
                                 a_review_family := a_review_family row;
                                 a_author_family := match a_author_family old with
                                                    | Some f => Some f
                                                    | None => a_author_family row
                                                    end;
                                 a_repo := a_repo row |}
                          end]> m)) ;;
     refuse_held_on thread a ;;
     family <- read (fun d => t ← threads d !! thread; m ← t_assignee t; shared_family d m thread) ;;
     match family with Some f => fail (Conflict (SameFamily f)) | None => ret tt end) ;;
  get_attributes thread.

(** ** Workspace settings *)

(** [UPDATE maidan_workspaces SET … WHERE id = ?], with its audit row. *)
Definition set_workspace (ws : N) (f : WorkspaceRow -> WorkspaceRow) (new : NewAuditEvent) : Tx unit :=
  commit
    (known <- read (fun d => bool_decide (is_Some (workspaces d !! ws))) ;;
     (if known then ret tt else fail NotFound) ;;
     write (upd_workspaces (alter f ws)) ;;
     append_scoped (OwnerWorkspace ws) new ;;
     ret tt).

Definition unique_thread_attributes (ws : N) : Tx (list (list UniqueAttributeKey)) :=
  row <- read (fun d => (fun w => normalized (ws_unique w)) <$> workspaces d !! ws) ;; ok_or row NotFound.
Definition set_unique_thread_attributes (ws : N) (sets : list (list UniqueAttributeKey)) (new : NewAuditEvent) :
    Tx (list (list UniqueAttributeKey)) :=
  set_workspace ws (fun w => {| ws_review_children := ws_review_children w;
                                ws_default_engine := ws_default_engine w; ws_unique := normalized sets |}) new ;;
  ret (normalized sets).

Definition default_engine (ws : N) : Tx (option TaskEngine) :=
  row <- read (fun d => ws_default_engine <$> workspaces d !! ws) ;; ok_or row NotFound.
Definition set_default_engine (ws : N) (engine : option TaskEngine) (new : NewAuditEvent) : Tx unit :=
  set_workspace ws (fun w => {| ws_review_children := ws_review_children w;
                                ws_default_engine := engine; ws_unique := ws_unique w |}) new.

Definition review_children (ws : N) : Tx bool :=
  row <- read (fun d => ws_review_children <$> workspaces d !! ws) ;; ok_or row NotFound.
Definition set_review_children (ws : N) (setting : bool) (new : NewAuditEvent) : Tx unit :=
  set_workspace ws (fun w => {| ws_review_children := setting;
                                ws_default_engine := ws_default_engine w; ws_unique := ws_unique w |}) new.
End env.
