(* ===== verification/Gates.v ===== *)
(** * Approval gates

    [crates/maidan-store/src/sqlite/approval_gates.rs] with
    [crates/maidan-store/src/approval_policy.rs]: gates a person decides, the
    threshold at which a model's accept needs a person's confirmation, and the
    single-use links that confirmation is asked through. *)

From stdpp Require Import strings.
From S2P Require Import Prelude Text Json EventChain EventLog Footprint Fsm Review Db Budget AuditTrail Claimability Threads.
Local Open Scope tx_scope.

(** [ts]: the text form keeps whole milliseconds. *)
Definition truncate_millis (t : Z) : Z := (t - t mod 1000000)%Z.

Record NewApprovalGate := {
  ng_ws : N; ng_thread : option N; ng_requested_by : N; ng_prompt : str; ng_schema : option Value;
  ng_risk : ApprovalRisk
}.

Definition DEFAULT_CONFIRM_AT : ApprovalRisk := RiskLow.
Definition DEFAULT_CONFIRM_LINK_TTL_SECONDS : Z := 600.

Record ApprovalPolicy := { po_confirm_at : ApprovalRisk; po_ttl : Z; po_is_default : bool }.
(** [approval_policy::policy]. *)
Definition policy (stored : option (ApprovalRisk * Z)) : ApprovalPolicy :=
  match stored with
  | None => {| po_confirm_at := DEFAULT_CONFIRM_AT; po_ttl := DEFAULT_CONFIRM_LINK_TTL_SECONDS; po_is_default := true |}
  | Some (at_, ttl) =>
      {| po_confirm_at := at_;
         po_ttl := if (60 <=? ttl)%Z && (ttl <=? 3600)%Z then ttl else DEFAULT_CONFIRM_LINK_TTL_SECONDS;
         po_is_default := false |}
  end.

(** [approval_policy::via] and [note_content]. *)
Definition via (c : ConfirmationRow) : GateDecisionVia :=
  {| via_client := cf_client c; via_version := cf_version c; via_client_id := cf_client_id c;
     via_source := cf_source c; via_model_asked := true |}.
Definition note_content (note : option str) : option Value :=
  (fun n => Object [(lit "note", Str n)]) <$> note.

Record NewApprovalConfirmation := {
  nc_gate : N; nc_member : N; nc_ws : N; nc_actor : option N; nc_nonce : N; nc_token_hash : str;
  nc_client : option str; nc_version : option str; nc_client_id : option str; nc_source : ClientIdentitySource;
  nc_note : option str; nc_now : Z; nc_expires : Z
}.
Inductive ConfirmOutcome := ConfirmAccepted (g : GateRow) | ConfirmNotFound | GateResolved.

(** [NOT (used_at IS NULL AND expires_at > now)]: the link may be replaced. *)
Definition link_dead (now : Z) (c : ConfirmationRow) : bool :=
  bool_decide (is_Some (cf_used c)) || (cf_expires c <=? now)%Z.

Section env.
Context `{JsonText, Sha256, Env}.

(** ** Opening a gate *)

(** The foreign keys of a gate's columns. *)
Definition gate_fks (ws : N) (thread : option N) (requested_by : N) : Tx unit :=
  workspace_fk ws ;;
  match thread with Some t => thread_fk t | None => ret tt end ;;
  member_fk requested_by.

Definition create_in_tx (new : NewApprovalGate) : Tx (N * GateRow) :=
  id <- new_uuid ;;
  now <- utc_now ;;
  gate_fks (ng_ws new) (ng_thread new) (ng_requested_by new) ;;
  let g := {| g_ws := ng_ws new; g_thread := ng_thread new; g_requested_by := ng_requested_by new;
              g_requested_actor := delegate_acting_for (ng_requested_by new); g_prompt := ng_prompt new;
              g_schema := ng_schema new; g_risk := ng_risk new; g_round_cap := false; g_state := GPending;
              g_content := None; g_resolved_by := None; g_resolved_actor := None; g_via := None;
              g_created := truncate_millis now; g_resolved := None |} in
  write (upd_approval_gates (fun m => <[id := g]> m)) ;;
  ret (id, g).

Definition create_gate (new : NewApprovalGate) : Tx (N * GateRow) := commit (create_in_tx new).

Definition open_review_round_cap (ws thread requested_by : N) (prompt : str) : Tx (N * GateRow) :=
  id <- new_uuid ;;
  now <- utc_now ;;
  gate_fks ws (Some thread) requested_by ;;
  let g := {| g_ws := ws; g_thread := Some thread; g_requested_by := requested_by;
              g_requested_actor := delegate_acting_for requested_by; g_prompt := prompt;
              g_schema := None; g_risk := RiskHigh; g_round_cap := true; g_state := GPending;
              g_content := None; g_resolved_by := None; g_resolved_actor := None; g_via := None;
              g_created := truncate_millis now; g_resolved := None |} in
  write (upd_approval_gates (fun m => <[id := g]> m)) ;;
  ret (id, g).

Definition create_gate_with_event (new : NewApprovalGate) : Tx (N * GateRow * EventRow) :=
  commit
    (g <- create_in_tx new ;;
     channel <- (match g_thread g.2 with
                 | Some t =>
                     scope <- thread_scope_in_tx t ;;
                     if decide (scope.1 = g_ws g.2) then ret (Some scope.2) else fail (InvalidInput GateElsewhere)
                 | None => ret None
                 end) ;;
     stored <- append_in_tx (ApprovalRequested (g_created g.2) (g_ws g.2) channel (g_thread g.2) g.1
                               (g_requested_by g.2)) ;;
     ret (g, stored)).

Definition get_gate (id : N) : Tx (option GateRow) := read (fun d => approval_gates d !! id).

Definition pending_in (ws : N) (e : N * GateRow) : bool :=
  bool_decide (g_ws e.2 = ws) && bool_decide (g_state e.2 = GPending).
Definition list_pending (ws : N) (limit : Z) : Tx (list (N * GateRow)) :=
  read (fun d => sql_limit limit (order_by (fun e => [g_created e.2])
                                    (List.filter (pending_in ws) (map_to_list (approval_gates d))))).

(** ** Deciding it *)

(** The [UPDATE … WHERE id = ? AND state = 'pending' RETURNING …]. *)
Definition resolved (by_ : N) (state : GateState) (content : option Value) (now : Z) (actor : option N)
    (v : option GateDecisionVia) (g : GateRow) : GateRow :=
  {| g_ws := g_ws g; g_thread := g_thread g; g_requested_by := g_requested_by g;
     g_requested_actor := g_requested_actor g; g_prompt := g_prompt g; g_schema := g_schema g;
     g_risk := g_risk g; g_round_cap := g_round_cap g; g_state := state; g_content := content;
     g_resolved_by := Some by_; g_resolved_actor := actor; g_via := v; g_created := g_created g;
     g_resolved := Some now |}.

Definition resolve_on (id resolved_by : N) (state : GateState) (content : option Value)
    (v : option GateDecisionVia) : Tx (option GateRow) :=
  now <- utc_now ;;
  found <- read (fun d => g ← approval_gates d !! id; if decide (g_state g = GPending) then Some g else None) ;;
  match found with
  | None => ret None
  | Some g =>
      member_fk resolved_by ;;
      let g' := resolved resolved_by state content now (delegate_acting_for resolved_by) v g in
      write (upd_approval_gates (fun m => <[id := g']> m)) ;;
      (match g_round_cap g', g_thread g', g_state g' with
       | true, Some t, (GDeclined | GCancelled) =>
           now' <- utc_now ;;
           write (upd_thread_unclaimable
                    (fun m => <[t := {| uc_reason := REVIEW_ROUND_HELD_REASON; uc_by := resolved_by;
                                        uc_at := truncate_millis now' |}]> m))
       | _, _, _ => ret tt
       end) ;;
      ret (Some g')
  end.

Definition resolve (id resolved_by : N) (state : GateState) (content : option Value) : Tx (option GateRow) :=
  commit (resolve_on id resolved_by state content None).

Definition resolve_audited (id resolved_by : N) (state : GateState) (content : option Value)
    (v : GateDecisionVia) (audit_for : GateRow -> NewAuditEvent) : Tx (option GateRow) :=
  commit
    (gate <- resolve_on id resolved_by state content (Some v) ;;
     (match gate with
      | Some g => append_scoped (OwnerWorkspace (g_ws g)) (audit_for g) ;; ret tt
      | None => ret tt
      end) ;;
     ret gate).

(** ** The confirmation policy *)

Definition get_policy (ws : N) : Tx ApprovalPolicy := read (fun d => policy (approval_policies d !! ws)).

(** The lifetime column's CHECK is 60 to 3600 seconds. *)
Definition set_policy_audited (ws : N) (confirm_at : option ApprovalRisk) (ttl : option Z)
    (audit_for : ApprovalPolicy -> NewAuditEvent) : Tx ApprovalPolicy :=
  commit
    ((match confirm_at, ttl with
      | None, None => write (upd_approval_policies (delete ws))
      | _, _ =>
          let at_ := default DEFAULT_CONFIRM_AT confirm_at in
          let ttl := default DEFAULT_CONFIRM_LINK_TTL_SECONDS ttl in
          utc_now ;;
          (if (60 <=? ttl)%Z && (ttl <=? 3600)%Z then ret tt else fail Database) ;;
          workspace_fk ws ;;
          write (upd_approval_policies (fun m => <[ws := (at_, ttl)]> m))
      end) ;;
     p <- get_policy ws ;;
     append_scoped (OwnerWorkspace ws) (audit_for p) ;;
     ret p).

(** ** Confirmation links *)

Definition issue_confirmation (new : NewApprovalConfirmation) (audit_for : ConfirmationRow -> NewAuditEvent) :
    Tx (ConfirmationRow * bool) :=
  commit
    (let c := {| cf_ws := nc_ws new; cf_actor := nc_actor new; cf_nonce := nc_nonce new;
                 cf_token_hash := nc_token_hash new; cf_client := nc_client new; cf_version := nc_version new;
                 cf_client_id := nc_client_id new; cf_source := nc_source new; cf_note := nc_note new;
                 cf_created := truncate_millis (nc_now new); cf_expires := truncate_millis (nc_expires new);
                 cf_used := None |} in
     let key := (nc_gate new, nc_member new) in
     known <- read (fun d => bool_decide (is_Some (approval_gates d !! nc_gate new))) ;;
     (if known then ret tt else fail Database) ;;
     member_fk (nc_member new) ;;
     workspace_fk (nc_ws new) ;;
     there <- read (fun d => approval_confirmations d !! key) ;;
     match there with
     | Some old =>
         if link_dead (cf_created c) old
         then
           clash <- read (fun d => existsb (fun e => bool_decide (cf_token_hash e.2 = nc_token_hash new)
                                                     && negb (bool_decide (e.1 = key)))
                                     (map_to_list (approval_confirmations d))) ;;
           (if clash : bool then fail Database else ret tt) ;;
           write (upd_approval_confirmations (fun m => <[key := c]> m)) ;;
           append_scoped (OwnerWorkspace (cf_ws c)) (audit_for c) ;;
           ret (c, true)
         else ret (old, false)
     | None =>
         clash <- read (fun d => existsb (fun e => bool_decide (cf_token_hash e.2 = nc_token_hash new))
                                   (map_to_list (approval_confirmations d))) ;;
         (if clash : bool then fail Database else ret tt) ;;
         write (upd_approval_confirmations (fun m => <[key := c]> m)) ;;
         append_scoped (OwnerWorkspace (cf_ws c)) (audit_for c) ;;
         ret (c, true)
     end).

(** The row with this token; the column is unique. *)
Definition by_token (d : Db) (token_hash : str) : option (N * N * ConfirmationRow) :=
  List.find (fun e => bool_decide (cf_token_hash e.2 = token_hash)) (map_to_list (approval_confirmations d)).
Definition get_confirmation_by_token (token_hash : str) : Tx (option (N * N * ConfirmationRow)) :=
  read (fun d => by_token d token_hash).

Definition list_live_confirmations (ws : N) (now : Z) : Tx (list (N * N * ConfirmationRow)) :=
  read (fun d => sql_limit 500
                   (order_by (fun e => [cf_created e.2])
                      (List.filter (fun e => bool_decide (cf_ws e.2 = ws)
                                             && negb (link_dead (truncate_millis now) e.2))
                         (map_to_list (approval_confirmations d))))).

Definition spent (now : Z) (c : ConfirmationRow) : ConfirmationRow :=
  {| cf_ws := cf_ws c; cf_actor := cf_actor c; cf_nonce := cf_nonce c; cf_token_hash := cf_token_hash c;
     cf_client := cf_client c; cf_version := cf_version c; cf_client_id := cf_client_id c;
     cf_source := cf_source c; cf_note := cf_note c; cf_created := cf_created c; cf_expires := cf_expires c;
     cf_used := Some now |}.

(** The link is spent first; a link that is not the member's own, is used or has
    expired leaves nothing behind. *)
Definition confirm (token_hash : str) (ws member : N) (now : Z) (audit_for : GateRow -> NewAuditEvent) :
    Tx ConfirmOutcome :=
  transaction
    (let now := truncate_millis now in
     found <- read (fun d =>
                      e ← by_token d token_hash;
                      if bool_decide (cf_ws e.2 = ws) && bool_decide (e.1.2 = member) && negb (link_dead now e.2)
                      then Some e else None) ;;
     match found with
     | None => ret (ConfirmNotFound, false)
     | Some (key, c) =>
         write (upd_approval_confirmations (fun m => <[key := spent now c]> m)) ;;
         gate <- resolve_on key.1 member GAccepted (note_content (cf_note c)) (Some (via c)) ;;
         match gate with
         | Some g => append_scoped (OwnerWorkspace ws) (audit_for g) ;; ret (ConfirmAccepted g, true)
         | None => ret (GateResolved, true)
         end
     end).
End env.
