(* ===== verification/LandGate.v ===== *)
(** * The land gate in the store

    [crates/maidan-store/src/sqlite/land_gate.rs]: a thread's land-gate row, the
    verdicts a skilled member records on it, its standing as an operator reads
    it, and the reading the close gate and the hand-off to review enforce. *)

From stdpp Require Import strings.
From S2P Require Import Prelude Text Json EventChain EventLog Footprint Fsm Review Db Budget Claimability Threads.
Local Open Scope tx_scope.

(** [raw.map(str::trim).filter(|s| !s.is_empty())], refused above 128 bytes. *)
Definition artifact_sha_opt (raw : option str) : result StoreError (option str) :=
  match raw with
  | None => Ok None
  | Some s =>
      let s := trim s in
      if bool_decide (s = []) then Ok None
      else if 128 <? byte_len s then Err (InvalidInput ArtifactShaTooLong) else Ok (Some s)
  end.

(** [member_skills::list(…).any(|s| s.skill == …)]. *)
Definition skilled (d : Db) (member : N) (skill : str) : bool := bool_decide (is_Some (member_skills d !! (member, skill))).
Definition has_worked_on (d : Db) (thread member : N) : bool :=
  bool_decide (is_Some (thread_workers d !! (thread, member))).

(** Whether the recorder, or another member acting with the recorder's token,
    owns, holds or once held the thread. *)
Definition recorder_worked (d : Db) (thread : N) (t : ThreadRow) (v : LandVerdict) : bool :=
  has_worked_on d thread (lv_by v)
  || match lv_actor v with
     | Some actor =>
         negb (bool_decide (actor = lv_by v))
         && (bool_decide (t_owner t = Some actor) || bool_decide (t_assignee t = Some actor)
             || has_worked_on d thread actor)
     | None => false
     end.

Definition standing_of (d : Db) (thread : N) : LandGateStanding :=
  match land_gates d !! thread, threads d !! thread with
  | Some g, Some t =>
      let recorded := (fun v => {| rl_pointer := {| lp_status := lv_status v; lp_artifact_sha := lv_sha v;
                                                    lp_land := lv_land v |};
                                   rl_by := lv_by v; rl_at := lv_at v |}) <$> lg_verdict g in
      let skill := match lg_verdict g with Some v => skilled d (lv_by v) LAND_GATE_SKILL | None => false end in
      let worked := match lg_verdict g with Some v => recorder_worked d thread t v | None => false end in
      land_gate_standing true recorded (t_owner t) (t_assignee t) worked skill
  | _, _ => land_gate_standing false None None None false false
  end.

(** [read_in_tx]: the row as the close gate reads it. *)
Definition gate_reading (d : Db) (thread : N) : GateReading :=
  match land_gates d !! thread, threads d !! thread with
  | Some g, Some t =>
      match lg_verdict g with
      | Some v =>
          Recorded {| rp_status := lv_status v; rp_land := lv_land v; rp_by := lv_by v;
                      rp_artifact_sha := lv_sha v; rp_owner := t_owner t; rp_assignee := t_assignee t;
                      rp_worked := recorder_worked d thread t v;
                      rp_skilled := skilled d (lv_by v) LAND_GATE_SKILL |}
      | None => PendingPass
      end
  | _, _ => Unarmed
  end.

(** The next [AUTOINCREMENT] id of a table whose rows are only added. *)
Definition next_id {A} (id : A -> Z) (rows : list A) : Z := (foldr (fun r m => Z.max (id r) m) 0 rows + 1)%Z.

Section env.
Context `{JsonText, Sha256, Env}.

Definition standing (thread : N) : Tx LandGateStanding := read (fun d => standing_of d thread).

Definition require (thread : N) : Tx LandGateStanding :=
  now <- utc_now ;;
  thread_fk thread ;;
  write (upd_land_gates
           (fun m => match m !! thread with
                     | Some _ => m
                     | None => <[thread := {| lg_verdict := None; lg_created := now; lg_updated := now |}]> m
                     end)) ;;
  standing thread.

Definition set_pointer (thread recorded_by : N) (status : LandGateStatus) (artifact_sha : option str)
    (land : option LandColor) : Tx LandGateStanding :=
  ok <- read (fun d => skilled d recorded_by LAND_GATE_SKILL) ;;
  (if ok then ret tt else fail (InvalidInput NoLandGateSkill)) ;;
  sha <- lift (fun e => e) (artifact_sha_opt artifact_sha) ;;
  now <- utc_now ;;
  let v := {| lv_status := status; lv_land := resolve_land status land; lv_sha := sha; lv_by := recorded_by;
              lv_actor := delegate_acting_for recorded_by; lv_at := now |} in
  commit
    (thread_fk thread ;;
     member_fk recorded_by ;;
     write (upd_land_gates
              (fun m => <[thread := {| lg_verdict := Some v;
                                       lg_created := from_option lg_created now (m !! thread);
                                       lg_updated := now |}]> m)) ;;
     write (upd_land_verdicts (fun l => l ++ [(next_id (fun r => r.1.1) l, thread, v)]))) ;;
  standing thread.

Definition clear_on (thread : N) : Tx bool :=
  had <- read (fun d => bool_decide (is_Some (land_gates d !! thread))) ;;
  write (upd_land_gates (delete thread)) ;;
  ret had.

Definition land_gate_in_tx (thread : N) : Tx unit :=
  reading <- read (fun d => gate_reading d thread) ;;
  match reading with
  | Unarmed => ret tt
  | PendingPass => fail (Conflict LandGateRequired)
  | Recorded p =>
      if qualifies p then ret tt
      else
        let verdict :=
          standing_land (Some {| lp_status := rp_status p; lp_artifact_sha := None; lp_land := rp_land p |})
            (Some (rp_by p)) (rp_owner p) (rp_assignee p) (rp_worked p) (rp_skilled p) true in
        fail (Conflict (LandGateIs verdict))
  end.

(** Every verdict recorded on a thread, oldest first. *)
Definition history (thread : N) : Tx (list (Z * LandVerdict)) :=
  read (fun d => order_by (fun r => [r.1])
                   ((fun r => (r.1.1, r.2)) <$> List.filter (fun r => bool_decide (r.1.2 = thread)) (land_verdicts d))).
End env.
