(* ===== verification/Packets.v ===== *)
(** * Review packets

    [crates/maidan-store/src/sqlite/review_packets.rs]: what a thread put in
    front of its reviewers at each hand-off, pinned by content hash, and the
    checks that a verdict and a close are about that evidence. *)

From stdpp Require Import strings sorting.
From S2P Require Import Prelude Text Json EventChain EventLog Footprint Fsm Review Db Budget Claimability Threads LandGate.
Local Open Scope tx_scope.

(** Who acted: since migration 0147 every write says; before it, the member did
    unless it ever delegated. *)
Definition author (member : N) (actor : option N) (delegated : bool) : Author :=
  {| by_member := member;
     by_actor := match actor with Some a => Some a | None => if delegated then None else Some member end;
     by_unknown := bool_decide (actor = None) && delegated |}.

Definition ever_delegated (d : Db) (member : N) : bool := 
  existsb (fun e : N * DelegationRow => bool_decide (dg_subject e.2 = member)) (map_to_list (delegation_grants d)).

(** The thread's linked artifacts, [ORDER BY sha256]. *)
Definition linked_artifacts (d : Db) (thread : N) : list (str * ArtifactLinkRow) :=
  merge_sort (fun a b => str_le a.1 b.1)
    ((fun e : N * str * ArtifactLinkRow => (e.1.2, e.2))
       <$> List.filter (fun e : N * str * ArtifactLinkRow => bool_decide (e.1.1 = thread)) (map_to_list (thread_artifacts d))).

Definition workers_of (d : Db) (thread : N) : gset N :=
  list_to_set ((fun e : N * N * option Z => e.1.2)
                 <$> List.filter (fun e : N * N * option Z => bool_decide (e.1.1 = thread)) (map_to_list (thread_workers d))).

(** [ORDER BY created_at DESC, id DESC LIMIT 1]. *)
Definition newer (a b : PacketRow) : bool := lex_ltb [pk_created b; Z.of_N (pk_id b)] [pk_created a; Z.of_N (pk_id a)].
Definition latest_packet (d : Db) (thread : N) : option PacketRow :=
  first_by newer (List.filter (fun p => bool_decide (pk_thread p = thread)) (review_packets d)).
Definition latest_root (d : Db) (thread : N) : option str := pk_root <$> latest_packet d thread.

Section env.
Context `{JsonText, Sha256, Env}.

Definition evidence (d : Db) (thread : N) :
    result StoreError (EvidenceManifest * option Author * list (str * Author)) :=
  let links := (fun e : str * ArtifactLinkRow =>
                  (e.1, author (al_by e.2) (al_actor e.2) (ever_delegated d (al_by e.2)))) <$> linked_artifacts d thread in
  let manifest r := {| em_thread := thread; em_result := r; em_artifacts := links.*1; em_attestations := [] |} in
  match thread_results d !! thread with
  | None => Ok (manifest None, None, links)
  | Some r =>
      match result_sha256 (rs_result r) with
      | Ok sha =>
          Ok (manifest (Some {| re_sha256 := sha; re_produced_by := rs_by r |}),
              Some (author (rs_by r) (rs_actor r) (ever_delegated d (rs_by r))), links)
      | Err e => Err (InvalidInput (BadEvidence e))
      end
  end.
Definition evidence_in_tx (thread : N) : Tx (EvidenceManifest * option Author * list (str * Author)) :=
  r <- read (fun d => evidence d thread) ;; lift (fun e => e) r.
Definition manifest_in_tx (thread : N) : Tx EvidenceManifest := e <- evidence_in_tx thread ;; ret e.1.1.

Definition attestations_in_tx (m : EvidenceManifest) (result_author : option Author)
    (link_authors : list (str * Author)) : Tx (list EvidenceAttestation) :=
  read (fun d => attest m result_author link_authors (workers_of d (em_thread m)) (gate_reading d (em_thread m))).

(** [review_packets::record_in_tx]. *)
Definition record_packet_in_tx (thread requested_by : N) : Tx PacketRow :=
  version <- read (fun d => default 0%Z (thread_versions d !! thread)) ;;
  e <- evidence_in_tx thread ;;
  let '(manifest, result_author, link_authors) := e in
  tiers <- attestations_in_tx manifest result_author link_authors ;;
  let manifest := {| em_thread := em_thread manifest; em_result := em_result manifest;
                     em_artifacts := em_artifacts manifest; em_attestations := tiers |} in
  evidence_root <- lift (fun e => InvalidInput (BadEvidence e)) (root manifest) ;;
  id <- new_uuid ;;
  now <- utc_now ;;
  thread_fk thread ;;
  member_fk requested_by ;;
  let packet := {| pk_id := id; pk_thread := thread; pk_by := requested_by; pk_version := version;
                   pk_manifest := manifest; pk_root := evidence_root; pk_created := now |} in
  write (upd_review_packets (fun l => l ++ [packet])) ;;
  ret packet.

Definition latest (thread : N) : Tx (option PacketRow) := read (fun d => latest_packet d thread).
Definition list_packets (thread : N) : Tx (list PacketRow) :=
  read (fun d => order_by (fun p => [pk_created p; Z.of_N (pk_id p)])
                   (List.filter (fun p => bool_decide (pk_thread p = thread)) (review_packets d))).
Definition latest_root_in_tx (thread : N) : Tx (option str) := read (fun d => latest_root d thread).

Definition ensure_unchanged_in_tx (thread : N) (r : str) : Tx unit :=
  pinned <- read (fun d => first_by newer (List.filter (fun p => bool_decide (pk_thread p = thread)
                                                                   && bool_decide (pk_root p = r)) (review_packets d))) ;;
  current <- manifest_in_tx thread ;;
  match pinned with
  | Some p => if same_evidence (pk_manifest p) current then ret tt else fail (Conflict EvidenceChanged)
  | None => fail (Conflict EvidenceChanged)
  end.

Definition verify_root_in_tx (thread : N) (r : str) : Tx unit :=
  latest <- latest_root_in_tx thread ;;
  match latest with
  | None => fail (Conflict NothingHanded)
  | Some l => if decide (l = r) then ensure_unchanged_in_tx thread l else fail (Conflict (StaleEvidence l r))
  end.
End env.
