(* ===== verification/Landing.v ===== *)
(** * Transitions and their gates

    [crates/maidan-store/src/sqlite/thread_transitions.rs] up to
    [transition_in_spawning]: the lifecycle move of a thread in its transaction,
    behind separation of duties, the required reviews, the land gate and the
    parent's state; and [review_family::spawn_in_tx], the review child a change
    entering review gets. *)

From stdpp Require Import strings.
From S2P Require Import Prelude Text Json EventChain EventLog Footprint Fsm Review Db Budget Claimability Threads Attributes LandGate Packets.
Local Open Scope tx_scope.

(** ** Whose approval counts *)

(** [EXISTS (SELECT 1 FROM maidan_members m WHERE m.id = ? AND m.workspace_id = ?
    AND m.tombstoned_at IS NULL)]. *)
Definition live_member (d : Db) (ws member : N) : bool :=
  match members d !! member with
  | Some m => bool_decide (m_ws m = ws) && bool_decide (m_tombstoned m = None)
  | None => false
  end.

(** Neither the owner nor the holder, and never the holder. *)
Definition not_owner (t : ThreadRow) (m : N) : bool := negb (bool_decide (t_owner t = Some m)).
Definition not_assignee (t : ThreadRow) (m : N) : bool := negb (bool_decide (t_assignee t = Some m)).
Definition never_worked (d : Db) (thread m : N) : bool := negb (has_worked_on d thread m).

Definition standing_approval (r : ReviewRow) : bool :=
  bool_decide (rv_decision r = Approve) && bool_decide (rv_dismissed r = None).

(** Bound to what the current review was handed; a thread never handed over has
    no packet to bind to. *)
Definition bound_to_packet (d : Db) (thread : N) (r : ReviewRow) : bool :=
  match latest_root d thread with
  | None => true
  | Some root => bool_decide (rv_root r = Some root)
  end.

(** In the thread's named set, when it has one. *)
Definition named_set (d : Db) (thread : N) : list N :=
  (fun e : N * N * Z => e.1.2) <$> List.filter (fun e : N * N * Z => bool_decide (e.1.1 = thread)) (map_to_list (reviewers d)).
Definition named_reviewer (d : Db) (thread m : N) : bool :=
  bool_decide (named_set d thread = []) || bool_decide (m ∈ named_set d thread).

(** The approvals [review_gate_in_tx] counts: the condition on a review row
    [(reviewer, r)] of thread [thread], whose row is [t], in workspace [ws]. *)
Definition approval_counts (d : Db) (thread : N) (t : ThreadRow) (ws : N) (reviewer : N) (r : ReviewRow) : bool :=
  live_member d ws reviewer && standing_approval r && bound_to_packet d thread r
  && not_owner t reviewer && not_assignee t reviewer && never_worked d thread reviewer
  && match rv_actor r with
     | None => true
     | Some actor =>
         live_member d ws actor && not_owner t actor && not_assignee t actor && never_worked d thread actor
     end
  && named_reviewer d thread reviewer.

Definition reviews_of (d : Db) (thread : N) : list (N * ReviewRow) :=
  (fun e : N * N * ReviewRow => (e.1.2, e.2))
    <$> List.filter (fun e : N * N * ReviewRow => bool_decide (e.1.1 = thread)) (map_to_list (reviews d)).

(** [COALESCE(r.actor_id, r.reviewer_id)], without repeats. *)
Definition approvers (d : Db) (thread : N) : list N :=
  match threads d !! thread with
  | Some t =>
      match channels d !! t_channel t with
      | Some c =>
          remove_dups ((fun e : N * ReviewRow => default e.1 (rv_actor e.2))
                         <$> List.filter (fun e => approval_counts d thread t (c_ws c) e.1 e.2) (reviews_of d thread))
      | None => []
      end
  | None => []
  end.
Definition required_count (d : Db) (thread : N) : Z := from_option rq_count 0%Z (review_reqs d !! thread).

Definition refuted (d : Db) (thread : N) : bool :=
  existsb (fun r => bool_decide (rf_relation (rf_key r) = lit "refutes")
                    && bool_decide (rf_dst_kind (rf_key r) = SideThread)
                    && bool_decide (rf_dst (rf_key r) = thread)) (references d).

(** An approval from outside: the condition [outside_approval_in_tx] reads. *)
Definition outside_counts (d : Db) (thread : N) (t : ThreadRow) (ws : N) (reviewer : N) (r : ReviewRow) : bool :=
  standing_approval r && live_member d ws reviewer && not_owner t reviewer && never_worked d thread reviewer
  && match rv_actor r with
     | None => true
     | Some actor => live_member d ws actor && not_owner t actor && never_worked d thread actor
     end
  && bound_to_packet d thread r.

Definition outside_approval (d : Db) (thread : N) : bool :=
  match threads d !! thread with
  | Some t =>
      match channels d !! t_channel t with
      | Some c =>
          existsb (fun e => outside_counts d thread t (c_ws c) e.1 e.2) (reviews_of d thread)
          || match gate_reading d thread with
             | Recorded p => qualifies p && live_member d (c_ws c) (rp_by p)
             | _ => false
             end
      | None => false
      end
  | None => false
  end.

(** ** The review child ([review_family.rs]) *)

(** Unicode's lower case, as far as ASCII words are concerned: the two letters
    outside ASCII whose lower case has an ASCII letter are the Kelvin sign and
    the dotted capital I, and the rest stay outside ASCII. *)
Definition to_lowercase (s : str) : str :=
  s ≫= fun c => if (c =? 8490)%N then [107%N] else if (c =? 304)%N then [105%N; 775%N] else [char_to_lower c].

Definition provider_family (provider : option str) (model : str) : option str :=
  let named := to_lowercase (default [] provider ++ [32%N] ++ model) in
  let model := to_lowercase model in
  let names e := existsb (contains named) e.1.2
                 || existsb (fun p => bool_decide (model = p) || starts_with model (p ++ [45%N])) e.2 in
  match List.find names PROVIDER_FAMILIES with Some e => Some e.1.1 | None => None end.

(** The latest usage record of the change's claimant, else its creator. *)
Definition author_usage (d : Db) (thread : N) (t : ThreadRow) (ws : N) : option UsageRow :=
  first_by (fun a b => lex_ltb [u_accepted b; Z.of_N (u_report b)] [u_accepted a; Z.of_N (u_report a)])
    (List.filter (fun u => bool_decide (u_thread u = thread) && bool_decide (u_ws u = ws)
                           && bool_decide (match t_assignee t with Some m => Some m | None => t_created_by t end
                                           = Some (u_reporter u)))
       (usage_ledger d)).

Definition live_review_child (d : Db) (thread : N) : bool :=
  existsb (fun e : N * ThreadRow =>
             bool_decide (t_parent e.2 = Some thread)
             && bool_decide (a_kind <$> thread_attributes d !! e.1 = Some KReview)
             && live e.2 && not_finished e.2)
    (map_to_list (threads d)).

(** The row [INSERT INTO maidan_threads] writes; the other columns have their
    defaults. *)
Definition new_thread_row (channel : N) (parent : option N) (title description : option str) (now : Z)
    (created_by : option N) : ThreadRow :=
  {| t_channel := channel; t_parent := parent; t_title := title; t_description := description; t_state := Open;
     t_created := now; t_updated := now; t_tombstoned := None; t_assignee := None; t_expires := None;
     t_lease := None; t_claimed := None; t_started := None; t_owner := None; t_created_by := created_by;
     t_unacknowledged := None |}.

Section env.
Context `{JsonText, Sha256, Env}.

(** The insert, with its foreign keys and its primary key. *)
Definition insert_thread (channel : N) (parent : option N) (title description : option str) (now : Z)
    (created_by : option N) : Tx (N * ThreadRow) :=
  id <- new_uuid ;;
  known <- read (fun d => bool_decide (is_Some (channels d !! channel))) ;;
  (if known then ret tt else fail Database) ;;
  (match parent with Some p => thread_fk p | None => ret tt end) ;;
  (match created_by with Some m => member_fk m | None => ret tt end) ;;
  taken <- read (fun d => bool_decide (is_Some (threads d !! id))) ;;
  (if taken : bool then fail Database else ret tt) ;;
  let row := new_thread_row channel parent title description now created_by in
  write (upd_threads (fun m => <[id := row]> m)) ;;
  ret (id, row).

Definition set_families (review author : option str) (a : AttributeRow) : AttributeRow :=
  {| a_kind := a_kind a; a_engine := a_engine a; a_threat_model := a_threat_model a; a_size := a_size a;
     a_acceptance := a_acceptance a; a_linear_issue := a_linear_issue a; a_tier := a_tier a;
     a_lane := a_lane a; a_review_family := review; a_author_family := author; a_repo := a_repo a |}.

Definition review_attributes : AttributeRow :=
  {| a_kind := KReview; a_engine := None; a_threat_model := false; a_size := None; a_acceptance := None;
     a_linear_issue := None; a_tier := None; a_lane := None; a_review_family := None; a_author_family := None;
     a_repo := None |}.

Definition spawn_in_tx (thread actor : N) : Tx (list EventRow) :=
  kind <- read (fun d => a_kind <$> thread_attributes d !! thread) ;;
  if bool_decide (is_Some kind) && negb (bool_decide (kind = Some KChange)) then ret []
  else
    setting <- read (fun d => t ← threads d !! thread; c ← channels d !! t_channel t;
                              w ← workspaces d !! c_ws c; Some (t, c_ws c, ws_review_children w)) ;;
    setting <- ok_or setting Database ;;
    let '(t, ws, on) := setting in
    if negb on then ret []
    else
      live_child <- read (fun d => live_review_child d thread) ;;
      if live_child : bool then ret []
      else
        usage <- read (fun d => author_usage d thread t ws) ;;
        match (u ← usage; provider_family (u_provider u) (u_model u)) with
        | None => ret []
        | Some author =>
            now <- utc_now ;;
            child <- insert_thread (t_channel t) (Some thread) (Some (lit "Second-family review")) None now
                       (Some actor) ;;
            attributes_insert_on child.1 review_attributes ;;
            write (upd_thread_attributes
                     (alter (set_families (review_family_for (Some author)) (Some author)) child.1)) ;;
            apply_default_engine_on child.1 ;;
            created <- append_in_tx (ThreadCreated now ws (t_channel t) child.1 child.2) ;;
            attributes <- get_attributes child.1 ;;
            routed <- append_in_tx (ThreadAttributesSet now ws (t_channel t) child.1 attributes (Some author) actor) ;;
            ret [created; routed]
        end.

(** ** The gates *)

Definition review_gate_in_tx (thread : N) : Tx unit :=
  counts <- read (fun d => (required_count d thread, Z.of_nat (length (approvers d thread)))) ;;
  let '(required, approvals) := counts in
  (if (0 <? required)%Z
   then
     latest <- latest_root_in_tx thread ;;
     match latest with Some r => ensure_unchanged_in_tx thread r | None => ret tt end
   else ret tt) ;;
  (if (0 <? required)%Z && (approvals <? required)%Z
   then fail (Conflict (ReviewsMissing approvals required)) else ret tt) ;;
  hit <- read (fun d => refuted d thread) ;;
  if hit : bool then fail (Conflict Refuted) else ret tt.

Definition result_gate_in_tx (thread : N) : Tx unit :=
  counts <- read (fun d => (required_count d thread, bool_decide (thread_results d !! thread = None))) ;;
  if (0 <? counts.1)%Z && counts.2 then fail (Conflict NoResultPosted) else ret tt.

Definition separation_of_duties_in_tx (thread : N) (t : ThreadRow) (actor : N) (to : ThreadState) : Tx unit :=
  barred <- read (fun d =>
      bool_decide (is_Some (t_owner t)) && is_terminal to
      && (bool_decide (t_assignee t = Some actor)
          || has_worked_on d thread actor && negb (outside_approval d thread))) ;;
  if barred : bool then fail (Conflict SeparationOfDuties) else ret tt.

(** ** The move *)

(** [clock::after_floor]. *)
Definition after_floor (now : Z) (floor : option Z) : Z :=
  match floor with Some f => if (now <=? f)%Z then (f + 1000)%Z else now | None => now end.

(** The latest time a review-round cap of the thread was accepted. *)
Definition accepted_cap (d : Db) (thread : N) : option Z :=
  e ← first_by (fun a b : N * GateRow => (default 0 (g_resolved b.2) <? default 0 (g_resolved a.2))%Z)
        (List.filter (fun e : N * GateRow =>
                        bool_decide (g_thread e.2 = Some thread) && g_round_cap e.2
                        && bool_decide (g_state e.2 = GAccepted) && bool_decide (is_Some (g_resolved e.2)))
           (map_to_list (approval_gates d)));
  g_resolved e.2.

Definition is_plan_child (d : Db) (thread : N) : bool := bool_decide (is_Some (plan_children d !! thread)).

Record ThreadTransitionResult := { tt_id : N; tt_thread : ThreadRow; tt_from : ThreadState; tt_to : ThreadState }.

(** The [UPDATE] of the row: a terminal state ends the claim. *)
Definition move_to (to : ThreadState) (now : Z) (t : ThreadRow) : ThreadRow :=
  let gone {A} (o : option A) := if is_terminal to then None else o in
  {| t_channel := t_channel t; t_parent := t_parent t; t_title := t_title t; t_description := t_description t;
     t_state := to; t_created := t_created t; t_updated := now; t_tombstoned := t_tombstoned t;
     t_assignee := gone (t_assignee t); t_expires := gone (t_expires t); t_lease := gone (t_lease t);
     t_claimed := gone (t_claimed t); t_started := gone (t_started t); t_owner := t_owner t;
     t_created_by := t_created_by t; t_unacknowledged := t_unacknowledged t |}.

Definition land_in_tx (thread : N) (t : ThreadRow) (actor : N) (to : ThreadState) : Tx ThreadTransitionResult :=
  (match t_parent t with
   | None => ret tt
   | Some p =>
       parent <- read (fun d => threads d !! p) ;;
       parent <- ok_or parent NotFound ;;
       ahead <- read (fun d => is_plan_child d thread || is_review d thread) ;;
       lift (fun e => Conflict (ParentRefuses e))
         (parent_allows_transition (t_state parent) (if ahead then Open else to))
   end) ;;
  id <- new_uuid ;;
  now <- (if bool_decide (t_state t = InReview) && bool_decide (to = Open)
          then
            floor <- read (fun d => accepted_cap d thread) ;;
            now <- db_now ;;
            ret (after_floor now floor)
          else utc_now) ;;
  member_fk actor ;;
  write (upd_thread_transitions
           (fun l => l ++ [{| tr_id := id; tr_thread := thread; tr_from := t_state t; tr_to := to;
                              tr_actor := actor; tr_at := now |}])) ;;
  when (is_terminal to) (charge_open_claim_in_tx thread) ;;
  row <- update_thread thread (fun _ _ => true) (move_to to now) ;;
  row <- ok_or row Database ;;
  ret {| tt_id := thread; tt_thread := row; tt_from := t_state t; tt_to := to |}.

Definition transition_in_spawning (thread actor : N) (action : ThreadAction) :
    Tx (ThreadTransitionResult * list EventRow) :=
  row <- read (fun d => threads d !! thread) ;;
  t <- ok_or row NotFound ;;
  (if live t then ret tt else fail NotFound) ;;
  to <- lift (fun e => Conflict (BadTransition (it_from e) (it_action e))) (apply (t_state t) action) ;;
  separation_of_duties_in_tx thread t actor to ;;
  spawned <- (if decide (action = StartReview)
              then
                result_gate_in_tx thread ;;
                record_packet_in_tx thread actor ;;
                spawn_in_tx thread actor
              else ret []) ;;
  (if decide (to = Closed) then review_gate_in_tx thread ;; land_gate_in_tx thread else ret tt) ;;
  result <- land_in_tx thread t actor to ;;
  ret (result, spawned).

Definition transition_in_tx (thread actor : N) (action : ThreadAction) : Tx ThreadTransitionResult :=
  r <- transition_in_spawning thread actor action ;; ret r.1.

(** [state_changed_in_tx]. *)
Definition state_changed_in_tx (actor : N) (r : ThreadTransitionResult) : Tx EventRow :=
  scope <- thread_scope_in_tx (tt_id r) ;;
  now <- utc_now ;;
  append_in_tx (ThreadStateChanged now scope.1 scope.2 (tt_id r) actor (tt_from r) (tt_to r) (tt_thread r)).

(** [thread_transitions::list]: [ORDER BY occurred_at, id]. *)
Definition list_transitions (thread : N) (limit : Z) : Tx (list TransitionRow) :=
  read (fun d => sql_limit limit (order_by (fun r => [tr_at r; Z.of_N (tr_id r)])
                   (List.filter (fun r => bool_decide (tr_thread r = thread)) (thread_transitions d)))).
End env.
