(* ===== verification/Reviews.v ===== *)
(** * Required reviews

    [crates/maidan-store/src/sqlite/reviews.rs] with the head a verdict names
    ([crates/maidan-store/src/review_head.rs]): a thread's requirement and named
    reviewers, the verdicts given on it, the send-back a change request makes and
    the review-round cap it may reach. *)

From stdpp Require Import strings.
From S2P Require Import Prelude Text Json EventChain EventLog Footprint Fsm Review Db Budget Claimability Threads Attributes Gates LandGate Packets Landing.
Local Open Scope tx_scope.

(** ** The head of the change ([review_head.rs]) *)

Definition reviewed_change (d : Db) (thread : N) : N :=
  default thread
    (t ← threads d !! thread; a ← thread_attributes d !! thread;
     if decide (a_kind a = KReview) then t_parent t else None).

(** The head of the pull tracked on the change, the last read first. *)
Definition current_head (d : Db) (thread : N) : option str :=
  let change := reviewed_change d thread in
  ci_head <$>
    first_by (fun a b => (ci_updated b <? ci_updated a)%Z)
      (List.filter (fun cp => bool_decide (cp_thread cp = change)) (change_pulls d)
         ≫= fun cp => match pull_ci d !! (cp_ws cp, cp_repo cp, cp_number cp) with Some ci => [ci] | None => [] end).

(** ** Whether a change request sends the thread back *)

Definition sends_back (d : Db) (thread reviewer : N) (actor : option N) : bool :=
  match threads d !! thread with
  | Some t =>
      bool_decide (t_state t = InReview) && live t
      && (bool_decide (t_owner t = Some reviewer)
          || not_assignee t reviewer && never_worked d thread reviewer && named_reviewer d thread reviewer)
      && match actor with None => true | Some a => not_assignee t a && never_worked d thread a end
  | None => false
  end.

(** [round_standing]: the cap in force, the send-backs since the latest accepted
    cap, and whether a cap is pending. *)
Definition max_rounds_of (d : Db) (thread : N) : Z :=
  from_option rq_max_rounds DEFAULT_MAX_REVIEW_ROUNDS (review_reqs d !! thread).
Definition send_backs_of (d : Db) (thread : N) : Z :=
  Z.of_nat (length (List.filter
    (fun r => bool_decide (tr_thread r = thread) && bool_decide (tr_from r = InReview) && bool_decide (tr_to r = Open)
              && match accepted_cap d thread with None => true | Some cut => (cut <? tr_at r)%Z end)
    (thread_transitions d))).
Definition cap_pending (d : Db) (thread : N) : bool :=
  existsb (fun e : N * GateRow => bool_decide (g_thread e.2 = Some thread) && g_round_cap e.2
                                  && bool_decide (g_state e.2 = GPending)) (map_to_list (approval_gates d)).

(** [verdict_covers_result]. *)
Definition verdict_covers_result (d : Db) (thread reviewer : N) (decision : ReviewDecision) : bool :=
  match reviews d !! (thread, reviewer), thread_results d !! thread with
  | Some r, Some res =>
      bool_decide (rv_decision r = decision) && bool_decide (rv_dismissed r = None) && (rs_at res <=? rv_updated r)%Z
  | _, _ => false
  end.

(** The approvals [review_status] counts. *)
Definition status_counts (d : Db) (thread : N) (t : ThreadRow) (reviewer : N) (r : ReviewRow) : bool :=
  standing_approval r && bound_to_packet d thread r
  && not_owner t reviewer && not_assignee t reviewer && never_worked d thread reviewer
  && match rv_actor r with
     | None => true
     | Some actor => not_owner t actor && not_assignee t actor && never_worked d thread actor
     end
  && named_reviewer d thread reviewer.
Definition status_approvers (d : Db) (thread : N) : list N :=
  match threads d !! thread with
  | Some t =>
      remove_dups ((fun e : N * ReviewRow => default e.1 (rv_actor e.2))
                     <$> List.filter (fun e => status_counts d thread t e.1 e.2) (reviews_of d thread))
  | None => []
  end.

Record ReviewStatus := {
  st_required : Z; st_approvals : Z; st_met : bool; st_send_backs : Z; st_max_rounds : Z
}.
Record ReviewSubmission := {
  sb_review : ReviewRow; sb_submitted : EventRow; sb_reopened : option EventRow; sb_escalated : option EventRow;
  sb_gate : option (N * GateRow)
}.

Section env.
Context `{JsonText, Sha256, Env}.

(** ** The requirement and the named reviewers *)

Definition set_requirement_on (thread : N) (required : Z) (max_rounds : option Z) : Tx RequirementRow :=
  (if (required <? 0)%Z || match max_rounds with Some n => (n <? 0)%Z | None => false end
   then fail (InvalidInput NegativeCount) else ret tt) ;;
  now <- utc_now ;;
  thread_fk thread ;;
  old <- read (fun d => review_reqs d !! thread) ;;
  let row :=
    match old with
    | None => {| rq_count := required; rq_max_rounds := default 3%Z max_rounds; rq_created := now; rq_updated := now |}
    | Some r => {| rq_count := required; rq_max_rounds := default (rq_max_rounds r) max_rounds;
                   rq_created := rq_created r; rq_updated := now |}
    end in
  write (upd_review_reqs (fun m => <[thread := row]> m)) ;;
  ret row.
Definition get_requirement (thread : N) : Tx (option RequirementRow) := read (fun d => review_reqs d !! thread).
Definition clear_requirement_on (thread : N) : Tx bool :=
  had <- read (fun d => bool_decide (is_Some (review_reqs d !! thread))) ;;
  write (upd_review_reqs (delete thread)) ;;
  ret had.

Definition add_reviewer (thread member : N) : Tx bool :=
  now <- utc_now ;;
  there <- read (fun d => bool_decide (is_Some (reviewers d !! (thread, member)))) ;;
  if there : bool then ret false
  else
    thread_fk thread ;;
    member_fk member ;;
    write (upd_reviewers (fun m => <[(thread, member) := now]> m)) ;;
    ret true.
Definition remove_reviewer_on (thread member : N) : Tx bool :=
  had <- read (fun d => bool_decide (is_Some (reviewers d !! (thread, member)))) ;;
  write (upd_reviewers (delete (thread, member))) ;;
  ret had.
Definition list_reviewers (thread : N) : Tx (list N) :=
  read (fun d => (fun e : N * N * Z => e.1.2)
                   <$> order_by (fun e : N * N * Z => [e.2; Z.of_N e.1.2])
                         (List.filter (fun e : N * N * Z => bool_decide (e.1.1 = thread)) (map_to_list (reviewers d)))).

(** ** The review-round cap *)

Definition round_standing (thread : N) : Tx (Z * Z * bool) :=
  read (fun d => (max_rounds_of d thread, send_backs_of d thread, cap_pending d thread)).


Definition escalate_round_cap (ws channel thread reviewer : N) (note : option str) :
    Tx (option EventRow * option (N * GateRow)) :=
  s <- round_standing thread ;;
  let '(max_rounds, send_backs, pending) := s in
  if (max_rounds =? 0)%Z || pending || (send_backs <? max_rounds)%Z then ret (None, None)
  else
    now <- utc_now ;;
    update_thread thread (fun _ _ => true) (clear_claim now) ;;
    gate <- open_review_round_cap ws thread reviewer (review_round_cap_prompt send_backs note) ;;
    stored <- append_in_tx (ApprovalRequested (g_created gate.2) ws (Some channel) (Some thread) gate.1 reviewer) ;;
    ret (Some stored, Some gate).

(** ** Submitting a review *)

Definition eq_ignore_ascii_case (a b : str) : bool := bool_decide (to_ascii_lowercase a = to_ascii_lowercase b).

(** The head a verdict is stored with. *)
Definition verdict_head (tracked named : option str) : result StoreError (option str) :=
  match named with
  | None => Ok tracked
  | Some named =>
      match tracked with
      | None => Err (Conflict (UnverifiedHead named))
      | Some tracked =>
          if eq_ignore_ascii_case tracked named then Ok (Some (to_ascii_lowercase named))
          else Err (Conflict (StaleHead named tracked))
      end
  end.

Definition dismiss (now : Z) (r : ReviewRow) : ReviewRow :=
  {| rv_decision := rv_decision r; rv_note := rv_note r; rv_actor := rv_actor r; rv_root := rv_root r;
     rv_head := rv_head r; rv_created := rv_created r; rv_updated := rv_updated r; rv_dismissed := Some now |}.

(** [UPDATE maidan_thread_reviews SET dismissed_at = ? WHERE thread_id = ? AND
    decision = 'approve' AND dismissed_at IS NULL]. *)
Definition dismiss_approvals (thread : N) (now : Z) (m : gmap (N * N) ReviewRow) : gmap (N * N) ReviewRow :=
  map_imap (fun key r => Some (if bool_decide (key.1 = thread) && standing_approval r then dismiss now r else r)) m.

Definition submit_review_on (thread reviewer : N) (decision : ReviewDecision) (note evidence_root named_head : option str) :
    Tx ReviewSubmission :=
  (match evidence_root with Some r => verify_root_in_tx thread r | None => ret tt end) ;;
  let actor := delegate_acting_for reviewer in
  tracked <- read (fun d => current_head d thread) ;;
  head <- lift (fun e => e) (verdict_head tracked named_head) ;;
  now <- utc_now ;;
  thread_fk thread ;;
  member_fk reviewer ;;
  old <- read (fun d => reviews d !! (thread, reviewer)) ;;
  let review := {| rv_decision := decision; rv_note := note; rv_actor := actor; rv_root := evidence_root;
                   rv_head := head; rv_created := from_option rv_created now old; rv_updated := now;
                   rv_dismissed := None |} in
  write (upd_reviews (fun m => <[(thread, reviewer) := review]> m)) ;;
  write (upd_review_verdicts
           (fun l => l ++ [{| vd_id := next_id vd_id l; vd_thread := thread; vd_reviewer := reviewer;
                              vd_decision := decision; vd_note := note; vd_actor := actor; vd_recorded := now;
                              vd_root := evidence_root; vd_head := head |}])) ;;
  back <- (if decide (decision = RequestChangesDecision)
           then read (fun d => sends_back d thread reviewer actor) else ret false) ;;
  reopened <- (if back : bool
               then
                 result <- transition_in_tx thread reviewer RequestChanges ;;
                 write (upd_reviews (dismiss_approvals thread now)) ;;
                 ret (Some result)
               else ret None) ;;
  scope <- thread_scope_in_tx thread ;;
  worker <- last_worker_in_tx thread ;;
  submitted <- append_in_tx (ReviewSubmitted now scope.1 scope.2 thread reviewer actor decision
                               (bool_decide (is_Some reopened)) worker) ;;
  match reopened with
  | Some result =>
      ev <- state_changed_in_tx reviewer result ;;
      cap <- escalate_round_cap scope.1 scope.2 thread reviewer note ;;
      ret {| sb_review := review; sb_submitted := submitted; sb_reopened := Some ev; sb_escalated := cap.1;
             sb_gate := cap.2 |}
  | None =>
      ret {| sb_review := review; sb_submitted := submitted; sb_reopened := None; sb_escalated := None;
             sb_gate := None |}
  end.

Definition submit_review_at_head (thread reviewer : N) (decision : ReviewDecision)
    (note evidence_root head_sha : option str) : Tx ReviewSubmission :=
  commit (submit_review_on thread reviewer decision note evidence_root head_sha).
Definition submit_review (thread reviewer : N) (decision : ReviewDecision) (note evidence_root : option str) :
    Tx ReviewSubmission :=
  submit_review_at_head thread reviewer decision note evidence_root None.

Definition list_reviews (thread : N) : Tx (list (N * ReviewRow)) :=
  read (fun d => order_by (fun e => [rv_created e.2; Z.of_N e.1]) (reviews_of d thread)).
Definition list_review_history (thread : N) : Tx (list VerdictRow) :=
  read (fun d => order_by (fun v => [vd_id v]) (List.filter (fun v => bool_decide (vd_thread v = thread)) (review_verdicts d))).

(** ** The standing *)

(** Whether the evidence differs from what the latest packet pinned; the reads
    are rolled back. *)
Definition evidence_changed (thread : N) : Tx bool :=
  fun w =>
    match (latest <- latest_root_in_tx thread ;;
           match latest with Some r => ensure_unchanged_in_tx thread r | None => ret tt end) w with
    | (Ok _, _) => (Ok false, w)
    | (Err _, _) => (Ok true, w)
    end.

Definition review_status (thread : N) : Tx ReviewStatus :=
  required <- read (fun d => required_count d thread) ;;
  counted <- read (fun d => Z.of_nat (length (status_approvers d thread))) ;;
  changed <- (if (0 <? counted)%Z then evidence_changed thread else ret false) ;;
  let approvals := if changed : bool then 0%Z else counted in
  s <- round_standing thread ;;
  ret {| st_required := required; st_approvals := approvals;
         st_met := (required =? 0)%Z || (required <=? approvals)%Z; st_send_backs := s.1.2; st_max_rounds := s.1.1 |}.

(** ** The verdict of a review agent's result *)

Definition apply_critical_review_decision (thread reviewer : N) (result : Value) : Tx (option ReviewSubmission) :=
  match review_decision_from_waiter result with
  | None => ret None
  | Some decision =>
      ok <- read (fun d => skilled d reviewer REVIEW_SKILL) ;;
      if negb ok then ret None
      else
        transaction
          (covered <- read (fun d => verdict_covers_result d thread reviewer decision) ;;
           if covered : bool then ret (None, false)
           else
             review <- submit_review_on thread reviewer decision (Some CRITICAL_REVIEW_NOTE) None None ;;
             req <- get_requirement thread ;;
             (match req with None => set_requirement_on thread 1 None ;; ret tt | Some _ => ret tt end) ;;
             ret (Some review, true))
  end.
End env.
