(* ===== verification/Closing.v ===== *)
(** * Closing a thread

    The committed transitions of
    [crates/maidan-store/src/sqlite/thread_transitions.rs], the close of a thread
    that will not land, and what a close owes the plans around it
    ([crates/maidan-store/src/sqlite/plans.rs], [after_close_in_tx]), with the
    notices it posts ([crates/maidan-store/src/plan_notices.rs]). *)

From stdpp Require Import strings.
From S2P Require Import Prelude Text Json EventChain EventLog Footprint Fsm Review Db Budget AuditTrail Claimability Threads Deps Attributes Gates LandGate Packets Landing Reviews.
Local Open Scope tx_scope.

(** ** The notices *)

Record ChildLine := { ch_id : N; ch_title : str; ch_landed : option (str * Z) }.

Definition id_value (n : N) : Value := Str (uuid_text n).
Definition quote : str := [34%N].

Definition unlanded_body (c : ChildLine) : str :=
  lit "Plan child " ++ quote ++ ch_title c ++ quote ++ lit " (" ++ uuid_text (ch_id c)
  ++ lit ") closed without landing, so this plan stays open and the children that depend on it are blocked. Clear their blocks once the work is redone, or plan again.".
Definition unlanded_metadata (child : N) : Value :=
  Object [(lit "notice", Str (lit "plan_child_unlanded")); (lit "child_thread_id", id_value child)].

Definition blocked_note (title : str) (dependency : N) : str :=
  lit "depends on " ++ quote ++ title ++ quote ++ lit " (" ++ uuid_text dependency ++ lit "), which closed without landing".
Definition blocked_body (title : str) (dependency : N) : str :=
  lit "Blocked: this " ++ blocked_note title dependency
  ++ lit ". Starting now would build on a base that never merged. A person or the planner clears the block once the dependency is redone.".
Definition blocked_metadata (dependency : N) : Value :=
  Object [(lit "notice", Str (lit "dependency_unlanded")); (lit "depends_on_thread_id", id_value dependency)].

Definition landed_body (children : list ChildLine) : str :=
  lit "Every child of this plan landed (" ++ print_int (Z.of_nat (length children)) ++ lit "):"
  ++ (children ≫= fun c =>
        [10%N] ++ lit "- " ++ ch_title c
        ++ match ch_landed c with
           | Some (repo, pr) => lit ": " ++ repo ++ lit "#" ++ print_int pr
           | None => []
           end).
Definition landed_metadata : Value := Object [(lit "notice", Str (lit "plan_landed"))].

Definition refused_body (reason : str) : str :=
  lit "Every child of this plan landed, but the plan could not close: " ++ reason
  ++ lit ". It stays open until that is resolved and someone closes it.".
Definition refused_metadata (reason : str) : Value :=
  Object [(lit "notice", Str (lit "plan_close_refused")); (lit "reason", Str reason)].

Definition repointed_body (closed replacement : N) : str :=
  lit "This task depended on " ++ uuid_text closed ++ lit ", which closed without landing because "
  ++ uuid_text replacement ++ lit " covers it. It now depends on " ++ uuid_text replacement
  ++ lit " instead and becomes ready when that one lands.".
Definition repointed_metadata (closed replacement : N) : Value :=
  Object [(lit "notice", Str (lit "dependency_repointed")); (lit "from_thread_id", id_value closed);
          (lit "depends_on_thread_id", id_value replacement)].
Definition repoint_refused_body (closed replacement : N) : str :=
  lit "This task depends on " ++ uuid_text closed ++ lit ", which closed without landing because "
  ++ uuid_text replacement ++ lit " covers it. The dependency was not moved to " ++ uuid_text replacement
  ++ lit ", because that thread already waits on this one. Remove or change the dependency by hand.".
Definition repoint_refused_metadata (closed replacement : N) : Value :=
  Object [(lit "notice", Str (lit "dependency_repoint_refused")); (lit "depends_on_thread_id", id_value closed);
          (lit "replacement_thread_id", id_value replacement)].

(** [landing_from_payload]: [as_i64] is an integer of the [i64] range. *)
Definition landing_from_payload (payload : Value) : option (str * Z) :=
  repo ← (value_get (lit "repo") payload ≫= as_str_value);
  pr ← (match value_get (lit "pr_number") payload with
        | Some (Num (Int z)) => if (I64_MIN <=? z)%Z && (z <=? I64_MAX)%Z then Some z else None
        | _ => None
        end);
  Some (repo, pr).

(** The text of a [StoreError::Conflict]. *)
Definition state_as_str (s : ThreadState) : str :=
  match s with Open => lit "open" | InReview => lit "in_review" | Closed => lit "closed" | Archived => lit "archived" end.
Definition refusal_text (r : Refusal) : str :=
  match r with
  | SameFamily f =>
      lit "this review's change was written by the " ++ f ++ lit " family, and this member's usage names " ++ f
      ++ lit "; a review goes to a member of another family"
  | RoundCapped =>
      lit "a review-round cap is waiting on a person, or a person declined another round, so this task cannot be claimed or assigned"
  | DuplicateTask =>
      lit "this task duplicates an open task: reuse that one (GET /threads/{id}/fingerprint names it), or clear the link to claim this one"
  | BadTransition from action =>
      lit "invalid transition from " ++ state_as_str from ++ lit " via " ++ lit (Fsm.as_str action)
  | SeparationOfDuties =>
      lit "separation of duties: the claimer cannot land its own work on an owned thread; the owner or another member must perform this transition"
  | ReviewsMissing approvals required =>
      lit "review requirement not met: " ++ print_int approvals ++ lit " of " ++ print_int required
      ++ lit " required approvals. Next: a reviewer who did not work on this thread approves it (submit_review, decision approve), then close it again; closing before that is refused the same way"
  | Refuted => lit "a `refutes` reference blocks close until it is resolved"
  | NoResultPosted =>
      lit "no result posted: this thread needs approval to close, so a reviewer must have something to approve. Next: post the result (set_thread_result, or PUT /threads/{id}/result), then start_review again"
  | NothingHanded =>
      lit "nothing was handed to review: there is no evidence to decide on. Next: start_review hands the thread over, then read get_review_packet"
  | StaleEvidence latest named =>
      lit "stale evidence: the current review was handed evidence_root " ++ latest ++ lit ", not " ++ named
      ++ lit ". Next: read get_review_packet and decide on what it shows"
  | EvidenceChanged =>
      lit "the evidence changed after it was handed to review: its result or linked artifacts are not what the reviewers were shown. Next: start_review again, so the review covers what is there now"
  | UnverifiedHead named =>
      lit "unverified head: you named " ++ named
      ++ lit " but this change has no tracked pull request head to check it against; omit head_sha or register the pull request first"
  | StaleHead named tracked =>
      lit "stale head: you reviewed " ++ named ++ lit " but the change's head is now " ++ tracked
      ++ lit "; re-read the change and review again"
  | LandGateRequired => lit "land gate required: no pass recorded"
  | LandGateIs c =>
      lit "land gate is " ++ lit (land_color_as_str c)
      ++ lit ": need a green pass from a land-gate-skilled member who is not the implementer"
  | ParentRefuses ParentArchived => lit "parent thread is archived"
  | ParentRefuses ChildAheadOfParent => lit "child state cannot advance beyond parent state"
  | AuthorFamilySet f =>
      lit "author_family is " ++ f ++ lit " and stays " ++ f ++ lit ": a review's author family is set once"
  | NotClosable s =>
      lit "only an open or in-review thread can be closed as abandoned; this one is " ++ state_as_str s
  | MayNotClose =>
      lit "only the thread's producer, its claim holder, or a maintainer can close it as abandoned"
  | NotSpokesman => lit "only the claim holder or the thread owner may declare status"
  | LowerRefused => lit "lowering a review requirement needs the channel:admin capability"
  | LoosenRefused => lit "raising or removing a review-round cap needs the channel:admin capability"
  | ReferenceExists => lit "reference already exists"
  | ArchivedParent => lit "cannot create child under an archived parent"
  | TokenHashExists => lit "token hash already exists"
  | RotatesDelegated => lit "a delegated token is not rotated; exchange its grant for a new one"
  | UsageUnreadable => lit "usage report id was not readable"
  | UsageIdReused => lit "usage_report_id was already used for different content"
  | UsageNotHolder => lit "usage reporter is not the active holder of this claim lease"
  | UsagePending => lit "usage report is still pending"
  | OAuthGrantExists => lit "oauth grant already exists"
  end.

(** ** Dependents *)

(** [open_dependents]: the unfinished live threads that wait on [thread], [ORDER
    BY t.id]. *)
Definition open_dependents (d : Db) (thread : N) : list N :=
  order_by (fun x => [Z.of_N x])
    ((fun e : N * N * Z => e.1.1)
       <$> List.filter (fun e : N * N * Z => bool_decide (e.1.2 = thread)
                          && match threads d !! e.1.1 with
                             | Some t => not_finished t && live t
                             | None => false
                             end) (map_to_list (thread_dependencies d))).

(** The latest landing of a thread, from its [ThreadLanded] events. *)
Definition landing (d : Db) (thread : N) : option (str * Z) :=
  r ← last (List.filter (fun r => bool_decide (e_thread r = Some thread)
                                  && bool_decide (e_kind r = lit "thread_landed")) (rows (log d)));
  landing_from_payload (e_payload r).

(** A plan's children in their order. *)
Definition children_of (d : Db) (parent : N) : list (N * ThreadRow) :=
  omap (fun e : N * PlanChildRow => (fun t => (e.1, t)) <$> threads d !! e.1)
    (order_by (fun e => [pc_position e.2])
       (List.filter (fun e => bool_decide (pc_parent e.2 = parent)) (map_to_list (plan_children d)))).

(** The loop over a plan's children, in order: a line for each one that closed
    and landed; nothing when one is open or did not land. A title that is NULL
    does not decode, which ends the call. *)
Fixpoint child_lines (d : Db) (children : list (N * ThreadRow)) : result StoreError (option (list ChildLine)) :=
  match children with
  | [] => Ok (Some [])
  | (id, t) :: rest =>
      if not_finished t then Ok None
      else match landing d id, t_title t with
           | None, _ => Ok None
           | Some _, None => Err Database
           | Some l, Some title =>
               match child_lines d rest with
               | Ok (Some lines) => Ok (Some ({| ch_id := id; ch_title := title; ch_landed := Some l |} :: lines))
               | other => other
               end
           end
  end.

Section env.
Context `{JsonText, Sha256, Env}.

(** A nested transaction ([tx.begin()] on a transaction): a refusal rolls its
    writes back and goes on, another error ends the outer one too. *)
Definition savepoint {A B} (m : Tx A) (ok : A -> Tx B) (refused : Refusal -> Tx B) : Tx B :=
  fun w => match m w with
           | (Ok a, w') => ok a w'
           | (Err (Conflict r), w') => refused r {| db := db w; ticks := ticks w'; ids := ids w' |}
           | (Err e, w') => (Err e, w')
           end.

(** [plans::post_notice_in_tx]; the message's insert counts in the thread's
    version. *)
Definition post_notice_in_tx (thread author : N) (body : str) (metadata : Value) : Tx EventRow :=
  now <- utc_now ;;
  id <- new_uuid ;;
  thread_fk thread ;;
  member_fk author ;;
  let m := {| mg_thread := thread; mg_author := author; mg_body := body; mg_metadata := metadata; mg_posted := now |} in
  write (upd_messages (fun ms => <[id := m]> ms)) ;;
  bump_version thread ;;
  scope <- thread_scope_in_tx thread ;;
  append_sealed_in_tx (MessagePosted now scope.1 scope.2 thread id m).

(** ** A plan closes after its children ([plans.rs]) *)

Definition close_through_gates (parent actor : N) (from_open : bool) : Tx (list EventRow) :=
  first <- (if from_open
            then
              review <- transition_in_tx parent actor StartReview ;;
              ev <- state_changed_in_tx actor review ;;
              ret [ev]
            else ret []) ;;
  closed <- transition_in_tx parent actor Close ;;
  ev <- state_changed_in_tx actor closed ;;
  ret (first ++ [ev]).

Definition close_parent_in_tx (parent completing actor : N) : Tx (list EventRow * bool) :=
  state <- read (fun d => t_state <$> threads d !! parent) ;;
  state <- ok_or state Database ;;
  if is_terminal state then ret ([], false)
  else
    lines <- read (fun d => child_lines d (children_of d parent)) ;;
    lines <- lift (fun e => e) lines ;;
    match lines with
    | None => ret ([], false)
    | Some children =>
        land <- read (fun d => landing d completing) ;;
        match land with
        | None => ret ([], false)
        | Some (repo, pr_number) =>
            savepoint (close_through_gates parent actor (bool_decide (state = Open)))
              (fun stored =>
                 scope <- thread_scope_in_tx parent ;;
                 now <- utc_now ;;
                 landed <- append_in_tx (ThreadLanded now scope.1 scope.2 parent repo pr_number) ;;
                 posted <- post_notice_in_tx parent actor (landed_body children) landed_metadata ;;
                 ret (stored ++ [landed; posted], true))
              (fun reason =>
                 posted <- post_notice_in_tx parent actor (refused_body (refusal_text reason))
                             (refused_metadata (refusal_text reason)) ;;
                 ret ([posted], false))
        end
    end.

(** Block one dependent of a child that closed without landing; a block already
    there stays as it is. *)
Definition block_dependent (title : str) (child actor dependent : N) : Tx (list EventRow) :=
  there <- read (fun d => bool_decide (is_Some (thread_blocks d !! dependent))) ;;
  now <- utc_now ;;
  if there : bool then ret []
  else
    member_fk actor ;;
    write (upd_thread_blocks
             (fun m => <[dependent := {| bl_reason := BDag; bl_by := actor; bl_at := now;
                                         bl_note := Some (blocked_note title child) |}]> m)) ;;
    scope <- thread_scope_in_tx dependent ;;
    at_ <- utc_now ;;
    blocked <- append_in_tx (ThreadBlocked at_ scope.1 scope.2 dependent BDag actor (Some (blocked_note title child))) ;;
    posted <- post_notice_in_tx dependent actor (blocked_body title child) (blocked_metadata child) ;;
    ret [blocked; posted].

Definition unlanded_in_tx (parent child actor : N) : Tx (list EventRow) :=
  title <- read (fun d => t ← threads d !! child; t_title t) ;;
  title <- ok_or title Database ;;
  dependents <- read (fun d => open_dependents d child) ;;
  stored <- for_each (block_dependent title child actor) dependents ;;
  posted <- post_notice_in_tx parent actor
              (unlanded_body {| ch_id := child; ch_title := title; ch_landed := None |}) (unlanded_metadata child) ;;
  ret (concat stored ++ [posted]).

(** The loop up through nested plans. Every turn but the last closes a plan that
    was open, so the rows of [maidan_thread_plan_children] bound its turns. *)
Fixpoint after_close_loop (fuel : nat) (child actor : N) : Tx (option (list EventRow)) :=
  match fuel with
  | O => ret None
  | S fuel =>
      parent <- read (fun d => pc_parent <$> plan_children d !! child) ;;
      match parent with
      | None => ret (Some [])
      | Some parent =>
          landed <- read (fun d => landing d child) ;;
          match landed with
          | Some _ =>
              r <- close_parent_in_tx parent child actor ;;
              if r.2
              then
                rest <- after_close_loop fuel parent actor ;;
                ret ((fun rest => r.1 ++ rest) <$> rest)
              else ret (Some r.1)
          | None =>
              stored <- unlanded_in_tx parent child actor ;;
              ret (Some stored)
          end
      end
  end.
Definition after_close_in_tx (closed actor : N) : Tx (list EventRow) :=
  fuel <- read (fun d => S (size (plan_children d))) ;;
  r <- after_close_loop fuel closed actor ;;
  ok_or r Database.

(** ** Committed transitions *)

Definition transition (thread actor : N) (action : ThreadAction) : Tx ThreadTransitionResult :=
  commit
    (result <- transition_in_tx thread actor action ;;
     (if decide (action = RequestChanges)
      then
        scope <- thread_scope_in_tx thread ;;
        escalate_round_cap scope.1 scope.2 thread actor None ;;
        ret tt
      else ret tt) ;;
     (if decide (tt_to result = Closed) then after_close_in_tx thread actor ;; ret tt else ret tt) ;;
     ret result).

Definition transition_with_event (thread actor : N) (action : ThreadAction) :
    Tx (ThreadTransitionResult * list EventRow) :=
  commit
    (r <- transition_in_spawning thread actor action ;;
     changed <- state_changed_in_tx actor r.1 ;;
     escalated <- (if decide (action = RequestChanges)
                   then
                     scope <- thread_scope_in_tx thread ;;
                     cap <- escalate_round_cap scope.1 scope.2 thread actor None ;;
                     ret (match cap.1 with Some e => [e] | None => [] end)
                   else ret []) ;;
     owed <- (if decide (tt_to r.1 = Closed) then after_close_in_tx thread actor else ret []) ;;
     ret (r.1, changed :: r.2 ++ escalated ++ owed)).

(** ** Closing a thread that will not land *)

Record CloseAbandoned := { ca_reason : CloseReason; ca_duplicate_of : option N }.
Definition close_reason_str (r : CloseReason) : str :=
  match r with CDuplicate => lit "duplicate" | CAbandoned => lit "abandoned" | CSuperseded => lit "superseded" end.

(** Move one dependent of [closed] onto [replacement], unless that closes a
    cycle. *)
Definition repoint_one (closed replacement actor dependent : N) : Tx (bool * EventRow) :=
  cycle <- read (fun d => bool_decide (dependent ∈ reachable (thread_dependencies d) replacement)) ;;
  if cycle : bool
  then
    ev <- post_notice_in_tx dependent actor (repoint_refused_body closed replacement)
            (repoint_refused_metadata closed replacement) ;;
    ret (false, ev)
  else
    now <- utc_now ;;
    write (upd_thread_dependencies
             (fun m => match m !! (dependent, replacement) with
                       | Some _ => m
                       | None => <[(dependent, replacement) := now]> m
                       end)) ;;
    write (upd_thread_dependencies (delete (dependent, closed))) ;;
    ev <- post_notice_in_tx dependent actor (repointed_body closed replacement) (repointed_metadata closed replacement) ;;
    ret (true, ev).

Definition repoint_dependents_in_tx (closed replacement actor : N) : Tx (list N * list N * list EventRow) :=
  write (upd_thread_dependencies (delete (replacement, closed))) ;;
  dependents <- read (fun d => open_dependents d closed) ;;
  done <- for_each (fun x => r <- repoint_one closed replacement actor x ;; ret (x, r)) dependents ;;
  ret (omap (fun e : N * (bool * EventRow) => if e.2.1 then Some e.1 else None) done,
       omap (fun e : N * (bool * EventRow) => if e.2.1 then None else Some e.1) done,
       (fun e : N * (bool * EventRow) => e.2.2) <$> done).

(** The reference a close records, and the thread at its other end. *)
Definition close_relation (thread : N) (close : CloseAbandoned) : result StoreError (option (N * N * str * N)) :=
  match ca_reason close, ca_duplicate_of close with
  | CAbandoned, Some _ => Err (InvalidInput NotAReplacement)
  | CDuplicate, None => Err (InvalidInput ReplacementMissing)
  | reason, Some other =>
      if decide (other = thread) then Err (InvalidInput ReplacesItself)
      else match reason with
           | CDuplicate => Ok (Some (thread, other, lit "duplicates", other))
           | _ => Ok (Some (other, thread, lit "supersedes", other))
           end
  | _, None => Ok None
  end.

(** Record it, unless it is there already. *)
Definition record_reference (src dst : N) (relation : str) : Tx (list EventRow) :=
  id <- new_uuid ;;
  now <- utc_now ;;
  let key := {| rf_src_kind := SideThread; rf_src := src; rf_dst_kind := SideThread; rf_dst := dst;
                rf_relation := relation |} in
  there <- read (fun d => existsb (fun r => bool_decide (rf_key r = key)) (references d)) ;;
  if there : bool then ret []
  else
    let row := {| rf_key := key; rf_id := id; rf_created := now |} in
    write (upd_references (fun l => l ++ [row])) ;;
    at_ <- utc_now ;;
    ev <- append_in_tx (ReferenceAdded at_ row) ;;
    ret [ev].

(** [Map::insert]: the value replaces the one under the key, or is added. *)
Definition map_insert (k : str) (v : Value) (m : list (str * Value)) : list (str * Value) :=
  List.filter (fun e => negb (bool_decide (e.1 = k))) m ++ [(k, v)].

Definition close_audit (new : NewAuditEvent) (close : CloseAbandoned) (moved kept : list N) (had_result : bool)
    (from : ThreadState) : NewAuditEvent :=
  let m := match na_metadata new with Object m => m | _ => [] end in
  let m := map_insert (lit "reason") (Str (close_reason_str (ca_reason close))) m in
  let m := map_insert (lit "duplicate_of") (from_option id_value Null (ca_duplicate_of close)) m in
  let m := map_insert (lit "repointed_dependents") (Array (id_value <$> moved)) m in
  let m := map_insert (lit "kept_dependents") (Array (id_value <$> kept)) m in
  let m := map_insert (lit "had_result") (Bool had_result) m in
  let m := map_insert (lit "from_state") (Str (state_as_str from)) m in
  {| na_scope := na_scope new; na_actor := na_actor new; na_action := na_action new;
     na_target_kind := na_target_kind new; na_target_id := na_target_id new; na_metadata := Object m |}.

Definition close_abandoned (thread actor : N) (maintainer : bool) (close : CloseAbandoned) (new : NewAuditEvent) :
    Tx (ThreadTransitionResult * list EventRow) :=
  commit
    (row <- read (fun d => threads d !! thread) ;;
     t <- ok_or row NotFound ;;
     (if live t then ret tt else fail NotFound) ;;
     (if not_finished t then ret tt else fail (Conflict (NotClosable (t_state t)))) ;;
     (if bool_decide (t_created_by t = Some actor) || bool_decide (t_assignee t = Some actor) || maintainer
      then ret tt else fail (Conflict MayNotClose)) ;;
     relation <- lift (fun e => e) (close_relation thread close) ;;
     stored <- (match relation with
                | None => ret []
                | Some (src, dst, kind, other) =>
                    scope <- thread_scope_in_tx thread ;;
                    found <- read (fun d => match threads d !! other with
                                            | Some o => bool_decide (fst <$> thread_scope d other = Some scope.1)
                                                        && live o && readable_thread d other (Some scope.1) actor
                                            | None => false
                                            end) ;;
                    if found : bool then record_reference src dst kind else fail (InvalidInput ReplacementUnreadable)
                end) ;;
     had_result <- read (fun d => bool_decide (is_Some (thread_results d !! thread))) ;;
     (if had_result : bool
      then
        separation_of_duties_in_tx thread t actor Closed ;;
        review_gate_in_tx thread ;;
        land_gate_in_tx thread
      else ret tt) ;;
     result <- land_in_tx thread t actor Closed ;;
     taken <- read (fun d => bool_decide (is_Some (unlanded_closes d !! thread))) ;;
     (if taken : bool then fail Database else ret tt) ;;
     write (upd_unlanded_closes (fun m => <[thread := {| un_reason := ca_reason close; un_by := actor |}]> m)) ;;
     moved <- (match ca_reason close, ca_duplicate_of close with
               | (CDuplicate | CSuperseded), Some other => repoint_dependents_in_tx thread other actor
               | _, _ => ret ([], [], [])
               end) ;;
     append_scoped (OwnerThread thread)
       (close_audit new close moved.1.1 moved.1.2 had_result (tt_from result)) ;;
     changed <- state_changed_in_tx actor result ;;
     owed <- after_close_in_tx thread actor ;;
     ret (result, stored ++ changed :: moved.2 ++ owed)).
End env.
