(* ===== verification/FootprintStore.v ===== *)
(** * Footprints of threads, paused repositories and slots

    [crates/maidan-store/src/sqlite/footprints.rs] with the grouping of
    [crates/maidan-store/src/footprints.rs]: declaring a thread's footprint,
    the reads over live claims, and the pauses and capacities that hold
    threads back. *)

From stdpp Require Import strings.
From S2P Require Import Prelude Text Json EventChain EventLog Footprint Fsm Db AuditTrail Claimability.
Local Open Scope tx_scope.

(** A text column of an [ORDER BY]: code points, then a terminator below them. *)
Definition text_key (s : str) : list Z := (Z.of_N <$> s) ++ [(-1)%Z].
Definition kind_key (k : FootprintKind) : list Z := text_key (lit (kind_as_str k)).

(** ** Grouping ([crates/maidan-store/src/footprints.rs]) *)

(** The [paths] a claim on the path keys [keys] covers, at most [limit]. *)
Definition covered_paths (keys paths : list str) (limit : nat) : list str :=
  take limit (List.filter (fun path => existsb (fun key => path_keys_overlap key path) keys) paths).

Definition live_path_keys_select (d : Db) (ws : N) (repo : str) (exclude : N) (now : Z) : list (N * str) :=
  (fun f => (f_thread f, f_key f)) <$>
    order_by (fun f => Z.of_N (f_thread f) :: text_key (f_key f))
      (List.filter
         (fun f => bool_decide (f_ws f = ws) && bool_decide (f_repo f = repo)
                   && bool_decide (f_namespace f = "path") && negb (bool_decide (f_thread f = exclude))
                   && live_claim_of d (f_thread f) now)
         (footprints d)).

(** Rows in thread order, grouped by thread: the loop keeps the last group open. *)
Definition push_key (grouped : list (N * list str)) (row : N * str) : list (N * list str) :=
  match last grouped with
  | Some (thread, keys) =>
      if decide (thread = row.1) then removelast grouped ++ [(thread, keys ++ [row.2])]
      else grouped ++ [(row.1, [row.2])]
  | None => [(row.1, [row.2])]
  end.
Definition keys_by_thread (rows : list (N * str)) : list (N * list str) := fold_left push_key rows [].

Record FootprintConflict := {
  fc_thread : N;
  fc_assignee : N;
  fc_expires : option Z;
  fc_repo : str;
  fc_kind : FootprintKind;
  fc_value : str;
  fc_mode : FootprintMode
}.
Global Instance FootprintConflict_eq_dec : EqDecision FootprintConflict.
Proof. solve_decision. Defined.

(** The item joined with the thread that holds it; a live claim has an assignee. *)
Definition conflict_from_row (d : Db) (f : FootprintRow) : option FootprintConflict :=
  t ← threads d !! f_thread f;
  assignee ← t_assignee t;
  Some {| fc_thread := f_thread f; fc_assignee := assignee; fc_expires := t_expires t;
          fc_repo := f_repo f; fc_kind := f_kind f; fc_value := f_value f; fc_mode := f_mode f |}.

(** [UNION … ORDER BY 1, 5, 6]. *)
Definition conflicts (d : Db) (thread : N) (now : Z) : list FootprintConflict :=
  order_by (fun c => Z.of_N (fc_thread c) :: kind_key (fc_kind c) ++ text_key (fc_value c))
    (remove_dups (omap (conflict_from_row d) (conflicts_select d thread now))).

Record ActiveClaim := {
  ac_thread : N;
  ac_assignee : N;
  ac_expires : option Z;
  ac_repo : str;
  ac_mode : FootprintMode;
  ac_items : list FootprintItem;
  ac_attributes : AttributeRow
}.

(** The attributes a listing shows: the joined columns, the defaults for the rest. *)
Definition listed_attributes (d : Db) (thread : N) : AttributeRow :=
  match thread_attributes d !! thread with
  | Some a =>
      {| a_kind := a_kind a; a_engine := a_engine a; a_threat_model := a_threat_model a;
         a_size := a_size a; a_acceptance := a_acceptance a; a_linear_issue := None;
         a_tier := a_tier a; a_lane := a_lane a; a_review_family := None;
         a_author_family := None; a_repo := None |}
  | None => default_attributes
  end.

(** One claim per thread, in the order the threads first appear. *)
Fixpoint group_push (thread : N) (item : FootprintItem) (new : ActiveClaim) (claims : list ActiveClaim) :
    list ActiveClaim :=
  match claims with
  | [] => [new]
  | c :: rest =>
      if decide (ac_thread c = thread) then
        {| ac_thread := ac_thread c; ac_assignee := ac_assignee c; ac_expires := ac_expires c;
           ac_repo := ac_repo c; ac_mode := ac_mode c; ac_items := ac_items c ++ [item];
           ac_attributes := ac_attributes c |} :: rest
      else c :: group_push thread item new rest
  end.
Definition group_row (d : Db) (claims : list ActiveClaim) (e : FootprintRow * N * option Z) : list ActiveClaim :=
  let '(f, assignee, expires) := e in
  let item := {| kind := f_kind f; value := f_value f |} in
  group_push (f_thread f) item
    {| ac_thread := f_thread f; ac_assignee := assignee; ac_expires := expires; ac_repo := f_repo f;
       ac_mode := f_mode f; ac_items := [item]; ac_attributes := listed_attributes d (f_thread f) |}
    claims.
Definition group_active (d : Db) (rows : list (FootprintRow * N * option Z)) : list ActiveClaim :=
  fold_left (group_row d) rows [].

Definition footprint_from_rows (rows : list FootprintRow) : option Footprint :=
  match rows with
  | [] => None
  | first :: _ =>
      Some {| repo := f_repo first; mode := f_mode first;
              items := (fun f => {| kind := f_kind f; value := f_value f |}) <$> rows |}
  end.

(** ** Declaring a footprint *)

Definition footprint_row (thread ws : N) (fp : Footprint) (item : FootprintItem) : FootprintRow :=
  {| f_thread := thread; f_ws := ws; f_repo := repo fp; f_mode := mode fp; f_kind := kind item;
     f_value := value item; f_namespace := namespace (kind item); f_key := key item |}.

(** The primary key is (thread, kind, value). *)
Definition insert_item_on (thread ws : N) (fp : Footprint) (item : FootprintItem) : Tx unit :=
  taken <- read (fun d => existsb (fun f => bool_decide (f_thread f = thread) && bool_decide (f_kind f = kind item)
                                            && bool_decide (f_value f = value item)) (footprints d)) ;;
  if taken then fail Database
  else write (upd_footprints (fun fs => fs ++ [footprint_row thread ws fp item])).

Definition insert_items_on (thread ws : N) (fp : Footprint) : Tx unit :=
  for_each (insert_item_on thread ws fp) (items fp) ;; ret tt.

(** A declared footprint, normalized; one with no items is none. *)
Definition declared (footprint : option Footprint) : result FootprintError (option Footprint) :=
  match footprint with
  | None => Ok None
  | Some fp =>
      (let*? fp := validated fp in
       Ok (if decide (items fp = []) then None else Some fp))%res
  end.

Section env.
Context `{JsonText, Sha256, Env}.

Definition set (grace : ClaimGrace) (thread : N) (footprint : option Footprint) : Tx (list FootprintConflict) :=
  footprint <- lift (fun e => InvalidInput (BadFootprint e)) (declared footprint) ;;
  instant <- utc_now ;;
  let now := lease_clock grace instant in
  transaction
    (row <- read (fun d => t ← threads d !! thread; c ← channels d !! t_channel t;
                           Some (c_ws c, live_claim t now)) ;;
     row <- ok_or row NotFound ;;
     write (upd_footprints (List.filter (fun f => negb (bool_decide (f_thread f = thread))))) ;;
     match footprint with
     | None => ret ([], true)
     | Some fp =>
         insert_items_on thread row.1 fp ;;
         if row.2 : bool then
           found <- read (fun d => conflicts d thread now) ;;
           ret (found, bool_decide (found = []))
         else ret ([], true)
     end).

Definition get_footprint (thread : N) : Tx (option Footprint) :=
  read (fun d => footprint_from_rows
                   (order_by (fun f => kind_key (f_kind f) ++ text_key (f_value f)) (footprint_of d thread))).

(** The live claims of a workspace with their footprints. *)
Definition active_rows (d : Db) (ws : N) (repo : option str) (reader : option N) (now : Z) :
    list (FootprintRow * N * option Z) :=
  order_by (fun e : FootprintRow * N * option Z =>
              match e.2 with None => [1; 0] | Some x => [0; x] end%Z
              ++ Z.of_N (f_thread e.1.1) :: kind_key (f_kind e.1.1) ++ text_key (f_value e.1.1))
    (omap (fun f =>
             t ← threads d !! f_thread f;
             assignee ← t_assignee t;
             if bool_decide (f_ws f = ws)
                && match repo with None => true | Some r => bool_decide (f_repo f = r) end
                && live_claim t now
                && match reader with None => true | Some m => readable_thread d (f_thread f) (Some ws) m end
             then Some (f, assignee, t_expires t) else None)
       (footprints d)).

Definition list_active (ws : N) (repo : option str) (reader : option N) : Tx (list ActiveClaim) :=
  repo <- match repo with
          | None => ret None
          | Some r => r <- lift (fun e => InvalidInput (BadFootprint e)) (normalize_repo r) ;; ret (Some r)
          end ;;
  now <- utc_now ;;
  read (fun d => group_active d (active_rows d ws repo reader now)).

(** ** Paused repositories *)

(** The audit record of a pause is built from the row that was written. *)
Definition pause_repo (ws : N) (repo : str) (paused_by : N) (reason : option str)
    (audit_for : RepoPauseRow -> NewAuditEvent) : Tx RepoPauseRow :=
  now <- utc_now ;;
  commit
    (workspace_fk ws ;;
     member_fk paused_by ;;
     let pause := {| p_at := now; p_by := paused_by; p_reason := reason |} in
     write (upd_repo_pauses (fun m => <[(ws, repo) := pause]> m)) ;;
     append_scoped (OwnerWorkspace ws) (audit_for pause) ;;
     ret pause).

Definition resume_repo (ws : N) (repo : str) (new : NewAuditEvent) : Tx bool :=
  commit
    (removed <- read (fun d => bool_decide (is_Some (repo_pauses d !! (ws, repo)))) ;;
     write (upd_repo_pauses (delete (ws, repo))) ;;
     when removed (append_scoped (OwnerWorkspace ws) new ;; ret tt) ;;
     ret removed).

Definition list_repo_pauses (ws : N) : Tx (list (str * RepoPauseRow)) :=
  read (fun d =>
    order_by (fun e : str * RepoPauseRow => text_key e.1)
      (omap (fun e : N * str * RepoPauseRow => if decide (e.1.1 = ws) then Some (e.1.2, e.2) else None)
         (map_to_list (repo_pauses d)))).

(** ** Slots *)

(** [CHECK (capacity > 0)] and the updater's foreign key. *)
Definition set_slot_capacity (ws : N) (slot : str) (capacity : Z) (updated_by : N) (new : NewAuditEvent) : Tx unit :=
  commit
    ((if (0 <? capacity)%Z then ret tt else fail Database) ;;
     workspace_fk ws ;;
     member_fk updated_by ;;
     utc_now ;;
     write (upd_slot_capacities (fun m => <[(ws, slot) := capacity]> m)) ;;
     append_scoped (OwnerWorkspace ws) new ;;
     ret tt).

Definition clear_slot_capacity (ws : N) (slot : str) (new : NewAuditEvent) : Tx bool :=
  commit
    (removed <- read (fun d => bool_decide (is_Some (slot_capacities d !! (ws, slot)))) ;;
     write (upd_slot_capacities (delete (ws, slot))) ;;
     when removed (append_scoped (OwnerWorkspace ws) new ;; ret tt) ;;
     ret removed).

Record SlotUsage := { su_slot : str; su_capacity : option Z; su_in_use : nat }.

(** Threads holding [slot] under a live claim. *)
Definition slot_threads (d : Db) (ws : N) (slot : str) (now : Z) : gset N :=
  list_to_set (f_thread <$>
    List.filter (fun f => bool_decide (f_ws f = ws) && bool_decide (f_namespace f = "slot")
                          && bool_decide (f_key f = slot) && live_claim_of d (f_thread f) now)
      (footprints d)).

(** The slots with a capacity and the slots in use, by name. *)
Definition slots_select (d : Db) (ws : N) (now : Z) : list SlotUsage :=
  let with_capacity := omap (fun e : N * str * Z => if decide (e.1.1 = ws) then Some e.1.2 else None)
                         (map_to_list (slot_capacities d)) in
  let in_use := f_key <$> List.filter (fun f => bool_decide (f_ws f = ws) && bool_decide (f_namespace f = "slot")
                                                && live_claim_of d (f_thread f) now) (footprints d) in
  (fun slot => {| su_slot := slot; su_capacity := slot_capacities d !! (ws, slot);
                  su_in_use := size (slot_threads d ws slot now) |})
    <$> order_by text_key (remove_dups (with_capacity ++ in_use)).

Definition list_slots (ws : N) : Tx (list SlotUsage) :=
  now <- utc_now ;; read (fun d => slots_select d ws now).

(** ** Threads held back *)

Definition deferred_select (d : Db) (ws : N) (reader : option N) (now : Z) : list (N * ThreadRow) :=
  sql_limit 200
    (order_by (fun e : N * ThreadRow => [t_created e.2; Z.of_N e.1])
       (List.filter
          (fun e : N * ThreadRow =>
             match channels d !! t_channel e.2 with
             | Some ch => bool_decide (c_ws ch = ws)
             | None => false
             end
             && bool_decide (t_state e.2 = Open) && bool_decide (t_tombstoned e.2 = None)
             && available e.2 now && deferred d e.1 now
             && match reader with None => true | Some m => readable_thread d e.1 (Some ws) m end)
          (map_to_list (threads d)))).

Record DeferredThread := { df_thread : N; df_title : option str; df_reasons : list DeferralReason }.

Definition list_deferred (ws : N) (reader : option N) : Tx (list DeferredThread) :=
  now <- utc_now ;;
  read (fun d =>
    (fun e : N * ThreadRow =>
       {| df_thread := e.1; df_title := t_title e.2;
          df_reasons := deferral_reasons (conflicts_with_live_claims d e.1 now) (repo_paused d e.1)
                          (slot_full d e.1 now) |})
    <$> deferred_select d ws reader now).
End env.
