(* ===== verification/Ledger.v ===== *)
(** * The usage ledger

    [crates/maidan-store/src/sqlite/usage_ledger.rs] and the accounted half of
    [sqlite/budget.rs]: a report of model usage under a claim's lease is accepted
    once, charged to the thread's budget, recorded with what it led to, and read
    back as entries, rollups and seat costs. *)

From stdpp Require Import strings.
From S2P Require Import Prelude Text Json EventChain EventLog Fsm Review Usage Db Budget Claimability Threads FootprintStore.
Local Open Scope tx_scope.

(** What SQLite computes in floating point: the integer a sum of charges casts to
    once a term has left the 64-bit integers, and the Julian day of a time. *)
Class SqlReal := {
  real_uncached : list UsageRow -> Z;
  real_standard : list UsageRow -> Z;
  julianday : Z -> Z
}.

(** [UsageLedgerEntry]. *)
Record UsageLedgerEntry := {
  le_report : N; le_thread : N; le_stamp : PayerStamp; le_turns : Z; le_evidence : UsageEvidence;
  le_budget : BudgetRow; le_stopped : bool; le_reason : option string; le_event : Z; le_failed : option Z;
  le_accepted : Z
}.

Definition matches_request (e : UsageLedgerEntry) (new : NewUsageLedgerEntry) : bool :=
  bool_decide (le_report e = nu_report new) && bool_decide (le_thread e = nu_thread new)
  && bool_decide (py_reporter (le_stamp e) = nu_reporter new) && bool_decide (py_lease (le_stamp e) = nu_lease new)
  && bool_decide (py_model (le_stamp e) = trim (nu_model new)) && bool_decide (py_tokens (le_stamp e) = nu_tokens new)
  && bool_decide (py_usd_micros (le_stamp e) = nu_usd_micros new)
  && bool_decide (py_prices (le_stamp e) = nu_prices new)
  && bool_decide (le_turns e = nu_turns new) && bool_decide (le_evidence e = nu_evidence new).

(** [row_to_entry]: a pending row has no entry. *)
Definition row_stamp (u : UsageRow) : PayerStamp :=
  {| py_payer := u_ws u; py_reporter := u_reporter u; py_lease := u_lease u; py_model := u_model u;
     py_tokens := u_tokens u; py_usd_micros := u_usd_micros u; py_prices := u_prices u |}.
Definition row_to_entry (u : UsageRow) : result StoreError UsageLedgerEntry :=
  match u_outcome u with
  | None => Err (Conflict UsagePending)
  | Some o =>
      Ok {| le_report := u_report u; le_thread := u_thread u; le_stamp := row_stamp u; le_turns := u_turns u;
            le_evidence := u_evidence u; le_budget := uo_budget o; le_stopped := uo_stopped o; le_reason := uo_reason o;
            le_event := uo_event o; le_failed := uo_failed o; le_accepted := u_accepted u |}
  end.

Definition finished_row (u : UsageRow) : bool := bool_decide (is_Some (u_outcome u)).

(** [rows.iter().map(row_to_entry).collect()]. *)
Fixpoint entries (rows : list UsageRow) : result StoreError (list UsageLedgerEntry) :=
  match rows with
  | [] => Ok []
  | u :: rows => match row_to_entry u, entries rows with
                 | Err e, _ => Err e
                 | Ok _, Err e => Err e
                 | Ok x, Ok xs => Ok (x :: xs)
                 end
  end.

Definition report_row (d : Db) (report : N) : option UsageRow :=
  List.find (fun u => bool_decide (u_report u = report)) (usage_ledger d).

(** [SUM] of integers: the statement fails on overflow. *)
Definition sql_sum (l : list Z) : Tx Z := ok_or (checked_sum l) Database.
(** [SUM] of terms some of which may have left the integers. *)
Definition sql_sum_or (l : list (option Z)) (real : Z) : Tx Z :=
  match mapM (fun x => x) l with Some l => sql_sum l | None => ret real end.

(** [ORDER BY accepted_at DESC, usage_report_id DESC LIMIT n]. *)
Definition newest_first (n : Z) (rows : list UsageRow) : list UsageRow :=
  take (Z.to_nat n) (order_by (fun u => [- u_accepted u; - Z.of_N (u_report u)])%Z rows).

Definition ledger_get (report : N) : Tx (option UsageLedgerEntry) :=
  row <- read (fun d => report_row d report) ;;
  match row with
  | Some u => e <- lift (fun e => e) (row_to_entry u) ;; ret (Some e)
  | None => ret None
  end.

Definition list_for_thread (thread : N) (limit : Z) : Tx (list UsageLedgerEntry) :=
  rows <- read (fun d => newest_first (clamp 1 100 limit)
                           (List.filter (fun u => bool_decide (u_thread u = thread) && finished_row u) (usage_ledger d))) ;;
  lift (fun e => e) (entries rows).

Definition list_for_workspace (ws : N) (limit : Z) : Tx (list UsageLedgerEntry) :=
  rows <- read (fun d => newest_first (clamp 1 1000 limit)
                           (List.filter (fun u => bool_decide (u_ws u = ws) && finished_row u) (usage_ledger d))) ;;
  lift (fun e => e) (entries rows).

(** ** Usage by task class *)

Record TaskClassUsageRow := {
  tc_thread : N; tc_kind : TaskKind; tc_size : option TaskSize; tc_completed : bool; tc_model : str;
  tc_effort : option str; tc_reports : Z; tc_usd : Z
}.

Definition class_key (u : UsageRow) : N * str * option str := (u_thread u, u_model u, ev_effort (u_evidence u)).
(** Null sorts first. *)
Definition class_order (k : N * str * option str) : list Z :=
  Z.of_N k.1.1 :: text_key k.1.2 ++ match k.2 with None => [0%Z] | Some e => 1%Z :: text_key e end.
Definition completed_state (s : ThreadState) : bool := match s with Closed | Archived => true | _ => false end.

Definition class_rows (d : Db) (ws : N) : list UsageRow :=
  List.filter (fun u => bool_decide (u_ws u = ws) && finished_row u
                        && match threads d !! u_thread u with Some t => live t | None => false end)
    (usage_ledger d).

Definition class_row (d : Db) (rows : list UsageRow) (k : N * str * option str) : Tx TaskClassUsageRow :=
  let mine := List.filter (fun u => bool_decide (class_key u = k)) rows in
  let attrs := thread_attributes d !! k.1.1 in
  usd <- sql_sum (u_usd_micros <$> mine) ;;
  ret {| tc_thread := k.1.1; tc_kind := default KChange (a_kind <$> attrs); tc_size := attrs ≫= a_size;
         tc_completed := match threads d !! k.1.1 with Some t => completed_state (t_state t) | None => false end;
         tc_model := k.1.2; tc_effort := k.2; tc_reports := Z.of_nat (length mine); tc_usd := usd |}.

Definition task_class_usage (ws : N) : Tx (list TaskClassUsageRow) :=
  d <- read (fun d => d) ;;
  let rows := class_rows d ws in
  groups <- for_each (class_row d rows) (order_by class_order (remove_dups (class_key <$> rows))) ;;
  ret (take (Z.to_nat 20000) groups).

(** ** Rollups *)

(** [scope_filter]: the rows of a query, [NotFound] when what it names is not in
    the workspace it names. *)
Definition scope_filter (q : UsageRollupQuery) : Tx (UsageRow -> bool) :=
  match rq_thread q, rq_member q with
  | Some thread, None =>
      scope <- read (fun d => thread_scope d thread) ;;
      s <- ok_or scope NotFound ;;
      if decide (s.1 <> rq_ws q) then fail NotFound
      else ret (fun u => bool_decide (u_ws u = rq_ws q) && bool_decide (u_thread u = thread))
  | None, Some member =>
      row <- read (fun d => members d !! member) ;;
      m <- ok_or row NotFound ;;
      if decide (m_ws m <> rq_ws q) then fail NotFound
      else ret (fun u => bool_decide (u_ws u = rq_ws q) && bool_decide (u_reporter u = member))
  | None, None => ret (fun u => bool_decide (u_ws u = rq_ws q))
  | Some _, Some _ => fail (InvalidInput (BadUsage BothScopes))
  end.

Definition completed_thread (d : Db) (thread : N) : bool :=
  match threads d !! thread with Some t => live t && completed_state (t_state t) | None => false end.

(** [completed]: finished tasks of the scope and what they cost. *)
Definition completed (q : UsageRollupQuery) : Tx (Z * Z) :=
  match rq_thread q, rq_member q with
  | Some thread, None =>
      row <- read (fun d => threads d !! thread) ;;
      ok_or row NotFound ;;
      finished <- read (fun d => completed_thread d thread) ;;
      if negb finished then ret (0, 0)%Z
      else
        rows <- read (fun d => List.filter (fun u => bool_decide (u_thread u = thread) && finished_row u) (usage_ledger d)) ;;
        usd <- sql_sum (u_usd_micros <$> rows) ;;
        ret (1, usd)%Z
  | None, Some member =>
      rows <- read (fun d => List.filter (fun u => bool_decide (u_ws u = rq_ws q) && bool_decide (u_reporter u = member)
                                                   && finished_row u && completed_thread d (u_thread u)) (usage_ledger d)) ;;
      usd <- sql_sum (u_usd_micros <$> rows) ;;
      ret (Z.of_nat (length (remove_dups (u_thread <$> rows))), usd)
  | None, None =>
      tasks <- read (fun d => length (List.filter
                                        (fun e : N * ThreadRow => bool_decide (c_ws <$> channels d !! t_channel e.2 = Some (rq_ws q))
                                                                  && completed_thread d e.1) (map_to_list (threads d)))) ;;
      rows <- read (fun d => List.filter (fun u => bool_decide (u_ws u = rq_ws q) && finished_row u
                                                   && completed_thread d (u_thread u)) (usage_ledger d)) ;;
      usd <- sql_sum (u_usd_micros <$> rows) ;;
      ret (Z.of_nat tasks, usd)
  | Some _, Some _ => fail (InvalidInput (BadUsage BothScopes))
  end.

Definition priced_lane (u : UsageRow) : bool :=
  lane_sql (u_evidence u) && bool_decide (is_Some (ev_standard_price (u_evidence u))).

Section sql.
Context `{SqlReal}.

(** The sums of a rollup's statement. *)
Definition sums_of (rows : list UsageRow) : Tx UsageSums :=
  let lane := List.filter (fun u => lane_sql (u_evidence u)) rows in
  let priced := List.filter priced_lane rows in
  input <- sql_sum ((fun u => tu_input (u_tokens u)) <$> rows) ;;
  output <- sql_sum ((fun u => tu_output (u_tokens u)) <$> rows) ;;
  cache_read <- sql_sum ((fun u => tu_cache_read (u_tokens u)) <$> rows) ;;
  write_5m <- sql_sum ((fun u => tu_write_5m (u_tokens u)) <$> rows) ;;
  write_1h <- sql_sum ((fun u => tu_write_1h (u_tokens u)) <$> rows) ;;
  usd <- sql_sum (u_usd_micros <$> rows) ;;
  uncached <- sql_sum_or ((fun u => uncached_row (u_tokens u) (u_prices u)) <$> rows) (real_uncached rows) ;;
  lane_usd <- sql_sum (u_usd_micros <$> lane) ;;
  priced_usd <- sql_sum (u_usd_micros <$> priced) ;;
  standard <- sql_sum_or ((fun u => match ev_standard_price (u_evidence u) with
                                    | Some p => lane_standard_row (u_tokens u) p
                                    | None => Some 0%Z
                                    end) <$> priced) (real_standard priced) ;;
  ret {| us_reports := Z.of_nat (length rows); us_input := input; us_output := output; us_cache_read := cache_read;
         us_write_5m := write_5m; us_write_1h := write_1h; us_usd := usd; us_uncached := uncached;
         us_lane_reports := Z.of_nat (length lane); us_lane_usd := lane_usd;
         us_lane_priced_reports := Z.of_nat (length priced); us_lane_priced_usd := priced_usd;
         us_lane_standard := standard |}.

Definition rollup (q : UsageRollupQuery) : Tx UsageRollup :=
  lift (fun e => InvalidInput (BadUsage e)) (scope_name q) ;;
  keep <- scope_filter q ;;
  rows <- read (fun d => List.filter (fun u => finished_row u && keep u) (usage_ledger d)) ;;
  sums <- sums_of rows ;;
  done <- completed q ;;
  lift (fun e => InvalidInput (BadUsage e)) (from_sums q sums done.1 done.2).

(** ** Seats *)

Definition in_window (q : SeatCostQuery) (u : UsageRow) : bool :=
  match sq_since q with Some t => (julianday t <=? julianday (u_accepted u))%Z | None => true end
  && match sq_until q with Some t => (julianday (u_accepted u) <? julianday t)%Z | None => true end.

Definition seat_row (d : Db) (rows : list UsageRow) (member : N) : Tx SeatCost :=
  let mine := List.filter (fun u => bool_decide (u_reporter u = member)) rows in
  usd <- sql_sum (u_usd_micros <$> mine) ;;
  ret {| se_member := member; se_handle := default [] (m_handle <$> members d !! member);
         se_reports := Z.of_nat (length mine); se_threads := Z.of_nat (length (remove_dups (u_thread <$> mine)));
         se_usd := usd; se_first := foldr Z.min (default 0%Z (u_accepted <$> mine !! 0)) (u_accepted <$> mine);
         se_last := foldr Z.max (default 0%Z (u_accepted <$> mine !! 0)) (u_accepted <$> mine) |}.

Definition seat_costs (q : SeatCostQuery) : Tx SeatCosts :=
  lift (fun e => InvalidInput (BadUsage e)) (seat_validate q) ;;
  let fetch := saturating_add (sq_limit q) 1 in
  d <- read (fun d => d) ;;
  let rows := List.filter (fun u => bool_decide (u_ws u = sq_ws q) && finished_row u && in_window q u
                                    && bool_decide (is_Some (members d !! u_reporter u))) (usage_ledger d) in
  seats <- for_each (seat_row d rows) (remove_dups (u_reporter <$> rows)) ;;
  lift (fun e => InvalidInput (BadUsage e)) (from_rows q (take (Z.to_nat fetch) (merge_sort seat_le seats))).
End sql.

(** ** An accounted report *)

Section env.
Context `{JsonText, Sha256, Env}.

(** [datetime('now')]: whole seconds. *)
Definition sql_datetime : Tx Z := now <- utc_now ;; ret (now - now mod 1000000000)%Z.

(** [CHECK (length(trim(model)) BETWEEN 1 AND 255)], of a model that was validated
    and trimmed: SQLite's [length] stops at a NUL. *)
Definition model_checked (model : str) : bool :=
  match trim_start_by (N.eqb 32) model with [] | 0%N :: _ => false | _ => true end.

(** [INSERT OR IGNORE]: a row with this id, or one the column checks refuse, is
    left out; a foreign key still fails the statement. *)
Definition reserve_in_tx (new : NewUsageLedgerEntry) (ws : N) : Tx bool :=
  now <- sql_datetime ;;
  taken <- read (fun d => bool_decide (is_Some (report_row d (nu_report new)))) ;;
  if taken || negb (model_checked (trim (nu_model new))) then ret false
  else
    workspace_fk ws ;;
    thread_fk (nu_thread new) ;;
    member_fk (nu_reporter new) ;;
    let row := {| u_report := nu_report new; u_ws := ws; u_thread := nu_thread new; u_reporter := nu_reporter new;
                  u_lease := nu_lease new; u_model := trim (nu_model new); u_tokens := nu_tokens new;
                  u_prices := nu_prices new; u_usd_micros := nu_usd_micros new; u_turns := nu_turns new;
                  u_evidence := nu_evidence new; u_accepted := now; u_outcome := None |} in
    write (upd_usage_ledger (fun l => l ++ [row])) ;;
    ret true.

(** The outcome, set on the rows with this id. *)
Definition with_outcome (report : N) (o : UsageOutcome) (u : UsageRow) : UsageRow :=
  if decide (u_report u = report)
  then {| u_report := u_report u; u_ws := u_ws u; u_thread := u_thread u; u_reporter := u_reporter u;
          u_lease := u_lease u; u_model := u_model u; u_tokens := u_tokens u; u_prices := u_prices u;
          u_usd_micros := u_usd_micros u; u_turns := u_turns u; u_evidence := u_evidence u;
          u_accepted := u_accepted u; u_outcome := Some o |}
  else u.

(** [UPDATE … RETURNING], [fetch_one]. *)
Definition finish_in_tx (report : N) (o : UsageOutcome) : Tx UsageLedgerEntry :=
  write (upd_usage_ledger (fun l => with_outcome report o <$> l)) ;;
  row <- read (fun d => report_row d report) ;;
  u <- ok_or row NotFound ;;
  lift (fun e => e) (row_to_entry u).

(** What the upsert of an accounted report adds. *)
Definition upd_tiers (f : Z -> Z -> Z) (t : TokenUsage) (b : BudgetRow) : BudgetRow :=
  {| max_tokens := max_tokens b; max_usd_micros := max_usd_micros b; max_turns := max_turns b;
     max_wall_secs := max_wall_secs b; used_tokens := used_tokens b;
     used_usd_micros := used_usd_micros b; used_turns := used_turns b; used_wall_secs := used_wall_secs b;
     used_input_tokens := f (used_input_tokens b) (tu_input t);
     used_output_tokens := f (used_output_tokens b) (tu_output t);
     used_cache_read_tokens := f (used_cache_read_tokens b) (tu_cache_read t);
     used_cache_write_5m_tokens := f (used_cache_write_5m_tokens b) (tu_write_5m t);
     used_cache_write_1h_tokens := f (used_cache_write_1h_tokens b) (tu_write_1h t);
     b_created := b_created b; b_updated := b_updated b |}.
Definition with_accounted (fresh : Z) (new : NewUsageLedgerEntry) (b : BudgetRow) : BudgetRow :=
  upd_tiers Z.add (nu_tokens new)
    (with_usage {| d_tokens := fresh; d_usd_micros := nu_usd_micros new; d_turns := nu_turns new |} b).

Definition add_accounted_usage_in_tx (new : NewUsageLedgerEntry) : Tx BudgetRow :=
  fresh <- lift (fun e => InvalidInput (BadUsage e)) (fresh (nu_tokens new)) ;;
  row <- upsert_budget (nu_thread new) (with_accounted fresh new) ;;
  row_to_budget row.

(** The stop of the run whose lease the report named. *)
Definition stop_accounted (new : NewUsageLedgerEntry) (ws channel : N) (reason : BudgetReason) (budget : BudgetRow) :
    Tx EventRow :=
  now <- utc_now ;;
  cleared <- update_thread (nu_thread new)
               (fun _ t => bool_decide (t_assignee t = Some (nu_reporter new)) && bool_decide (t_lease t = Some (nu_lease new)))
               (clear_claim now) ;;
  row <- ok_or cleared NotFound ;;
  fail_claim_in_tx ws channel (nu_thread new) row (nu_reporter new) reason budget.

(** The charge of a report that was reserved: budget, event, stop, outcome. *)
Definition charge_accounted (new : NewUsageLedgerEntry) (t : ThreadRow) (ws : N) : Tx (UsageLedgerEntry * list EventRow) :=
  budget <- add_accounted_usage_in_tx new ;;
  now <- (match t_started t with Some _ => n <- utc_now ;; ret (Some n) | None => ret None end) ;;
  let wall := (n ← now; s ← t_started t; Some (num_seconds (n - s))) in
  let stopping := exceeded budget wall in
  budget <- (match stopping with
             | Some _ => keep_stopped_wall (nu_thread new) budget wall
             | None => ret budget
             end) ;;
  at_ <- utc_now ;;
  let stamp := {| py_payer := ws; py_reporter := nu_reporter new; py_lease := nu_lease new;
                  py_model := trim (nu_model new); py_tokens := nu_tokens new; py_usd_micros := nu_usd_micros new;
                  py_prices := nu_prices new |} in
  stored <- append_in_tx (UsageReported at_ ws (t_channel t) (nu_thread new) (nu_report new) stamp (nu_turns new) budget) ;;
  failed <- (match stopping with
             | Some reason => e <- stop_accounted new ws (t_channel t) reason budget ;; ret (Some e)
             | None => ret None
             end) ;;
  entry <- finish_in_tx (nu_report new)
             {| uo_budget := budget; uo_stopped := bool_decide (is_Some stopping);
                uo_reason := reason_as_str <$> stopping; uo_event := e_id stored; uo_failed := e_id <$> failed |} ;;
  ret (entry, stored :: from_option (fun e => [e]) [] failed).

Definition report_accounted_usage (new : NewUsageLedgerEntry) : Tx (UsageLedgerEntry * list EventRow) :=
  lift (fun e => InvalidInput (BadUsage e)) (usage_validate new) ;;
  commit
    (ctx <- read (fun d => live_thread d (nu_thread new)) ;;
     tc <- ok_or ctx NotFound ;;
     let t := fst tc in let ws := snd tc in
     reserved <- reserve_in_tx new ws ;;
     if negb reserved then
       row <- read (fun d => report_row d (nu_report new)) ;;
       u <- ok_or row (Conflict UsageUnreadable) ;;
       existing <- lift (fun e => e) (row_to_entry u) ;;
       if negb (bool_decide (py_payer (le_stamp existing) = ws)) || negb (matches_request existing new)
       then fail (Conflict UsageIdReused)
       else ret (existing, [])
     else if negb (bool_decide (t_assignee t = Some (nu_reporter new)) && bool_decide (t_lease t = Some (nu_lease new)))
     then fail (Conflict UsageNotHolder)
     else charge_accounted new t ws).
End env.
