(* ===== verification/Creation.v ===== *)
(** * Creating a thread

    [crates/maidan-store/src/sqlite/threads.rs] ([create] and
    [create_with_footprint] with the checks before them), the task fingerprint
    of [crates/maidan-types/src/task_fingerprint.rs] and its store
    [crates/maidan-store/src/sqlite/task_fingerprints.rs], the spawn budget of
    [crates/maidan-store/src/sqlite/spawn.rs] and [TaskAttributes::validated]. *)

From stdpp Require Import strings.
From S2P Require Import Prelude Text Json EventChain EventLog Footprint Fsm Review Db Budget AuditTrail Claimability Threads Attributes LandGate Packets Landing FootprintStore.
Local Open Scope tx_scope.

(** ** Attributes as given ([task_attributes.rs]) *)

Definition is_ascii_digit (c : N) : bool := in_range 48 57 c.

(** [is_issue_key]: uppercase letters or digits after an uppercase letter, a
    hyphen and digits, at most 32 bytes. *)
Definition is_issue_key (key : str) : bool :=
  match split_once 45 key with
  | None => false
  | Some (team, number) =>
      (byte_len key <=? 32) && (2 <=? byte_len team)
      && match team with c :: _ => is_ascii_uppercase c | [] => false end
      && forallb (fun c => is_ascii_uppercase c || is_ascii_digit c) team
      && negb (bool_decide (number = [])) && forallb is_ascii_digit number
  end.

(** [.map(|s| s.trim()).filter(|s| !s.is_empty())]. *)
Definition trimmed (s : option str) : option str := s ← s; if decide (trim s = []) then None else Some (trim s).

Definition ACCEPTANCE_MAX_CHARS : nat := Nat.mul 40 100.

Definition validated_attributes (a : AttributeRow) : result AttributeError AttributeRow :=
  (let issue := trimmed (a_linear_issue a) in
   let*? _ := match issue with
              | Some key => if is_issue_key key then Ok tt else Err (NotAnIssueKey key)
              | None => Ok tt
              end in
   let*? repo := match trimmed (a_repo a) with
                 | None => Ok None
                 | Some r => match normalize_repo r with Ok r => Ok (Some r) | Err e => Err (BadRepo e) end
                 end in
   let family := to_ascii_lowercase <$> trimmed (a_author_family a) in
   let*? _ := match family with
              | Some f => if existsb (fun e => bool_decide (e.1.1 = f)) PROVIDER_FAMILIES then Ok tt
                          else Err (UnknownFamily f)
              | None => Ok tt
              end in
   let acceptance := trimmed (a_acceptance a) in
   let*? _ := match acceptance with
              | Some text =>
                  if ACCEPTANCE_MAX_CHARS <? length text then Err AcceptanceTooLong
                  else if existsb (fun c => is_control c && negb (c =? 10)%N && negb (c =? 9)%N) text
                  then Err AcceptanceControl else Ok tt
              | None => Ok tt
              end in
   Ok {| a_kind := a_kind a; a_engine := a_engine a; a_threat_model := a_threat_model a; a_size := a_size a;
         a_acceptance := acceptance; a_linear_issue := issue; a_tier := a_tier a; a_lane := a_lane a;
         a_review_family := a_review_family a; a_author_family := family; a_repo := repo |})%res.

(** ** Fingerprints ([task_fingerprint.rs]) *)

Definition kind_str (k : TaskKind) : str :=
  match k with KChange => lit "change" | KPlan => lit "plan" | KReview => lit "review" end.
Definition engine_str (e : TaskEngine) : str :=
  match e with EPi => lit "pi" | ESession => lit "session" | EHuman => lit "human" end.

Definition TASK_FINGERPRINT_VERSION : str := lit "maidan-task-fingerprint-v1".

(** One field: an absence marker, or a presence marker, the byte length in eight
    bytes and the bytes. *)
Definition field (value : option str) : list N :=
  match value with
  | None => [0%N]
  | Some v => 1%N :: be_bytes 8 (N.of_nat (byte_len v)) ++ as_bytes v
  end.

(** What is hashed of a brief. *)
Definition brief_fields (title description : option str) (a : AttributeRow) : list (option str) :=
  [Some TASK_FINGERPRINT_VERSION; title; description; Some (kind_str (a_kind a)); engine_str <$> a_engine a;
   Some (if a_threat_model a then lit "1" else lit "0"); trim <$> a_acceptance a; trim <$> a_linear_issue a].
Definition brief_bytes (title description : option str) (a : AttributeRow) : list N :=
  brief_fields title description a ≫= field.

Section hashed.
Context `{Sha256}.
Definition task_fingerprint (title description : option str) (a : AttributeRow) : option str :=
  match trimmed title, trimmed description with
  | None, None => None
  | title, description => Some (sha256_hex (brief_bytes title description a))
  end.
End hashed.

(** ** The spawn budget ([spawn.rs]) *)

Definition count_active_children (d : Db) (parent : N) : Z :=
  Z.of_nat (length (List.filter (fun e : N * ThreadRow => bool_decide (t_parent e.2 = Some parent) && live e.2)
                      (map_to_list (threads d)))).

(** [WITH RECURSIVE anc …]: the rows from the thread up to its root. A parent is
    written once, over a row that is there already, so the walk meets no row
    twice and the table bounds it. *)
Fixpoint depth_walk (fuel : nat) (d : Db) (id : N) : Z :=
  match fuel with
  | O => 0
  | S fuel =>
      match threads d !! id with
      | None => 0
      | Some t => 1 + match t_parent t with Some p => depth_walk fuel d p | None => 0 end
      end
  end%Z.
Definition thread_depth (d : Db) (id : N) : Z := depth_walk (S (size (threads d))) d id.

Record NewThread := {
  nt_channel : N; nt_parent : option N; nt_title : option str; nt_description : option str; nt_created_by : option N
}.

Section env.
Context `{JsonText, Sha256, Env}.

Definition set_spawn_budget (ws : N) (children depth tools : option Z) : Tx (option SpawnBudgetRow) :=
  if bool_decide (children = None) && bool_decide (depth = None) && bool_decide (tools = None)
  then
    write (upd_spawn_budgets (delete ws)) ;;
    ret None
  else
    now <- utc_now ;;
    workspace_fk ws ;;
    let row := {| max_children := children; max_depth := depth; max_tools := tools; sp_updated := now |} in
    write (upd_spawn_budgets (fun m => <[ws := row]> m)) ;;
    ret (Some row).
Definition get_spawn_budget (ws : N) : Tx (option SpawnBudgetRow) := read (fun d => spawn_budgets d !! ws).

(** ** The checks before the transaction *)

Definition validate_parent (channel : N) (parent : option N) : Tx unit :=
  match parent with
  | None => ret tt
  | Some p =>
      row <- get p ;;
      if negb (bool_decide (t_channel row = channel)) then fail (InvalidInput ParentElsewhere)
      else if negb (live row) then fail NotFound
      else if bool_decide (t_state row = Archived) then fail (Conflict ArchivedParent)
      else ret tt
  end.

Definition enforce_spawn_budget (channel : N) (parent : option N) : Tx unit :=
  match parent with
  | None => ret tt
  | Some p =>
      budget <- read (fun d => c ← channels d !! channel; spawn_budgets d !! c_ws c) ;;
      match budget with
      | None => ret tt
      | Some b =>
          (match max_children b with
           | Some limit =>
               n <- read (fun d => count_active_children d p) ;;
               if (limit <=? n)%Z then fail (SpawnRejected Children limit n) else ret tt
           | None => ret tt
           end) ;;
          match max_depth b with
          | Some limit =>
              n <- read (fun d => thread_depth d p) ;;
              if (limit <=? n)%Z then fail (SpawnRejected Depth limit n) else ret tt
          | None => ret tt
          end
      end
  end.

Definition precheck (new : NewThread) : Tx unit :=
  validate_parent (nt_channel new) (nt_parent new) ;;
  enforce_spawn_budget (nt_channel new) (nt_parent new).

(** ** The fingerprint's row ([task_fingerprints.rs]) *)

(** The oldest open task with this fingerprint. *)
Definition same_brief (d : Db) (thread ws : N) (fingerprint : str) : option N :=
  fst <$> first_by (fun a b : N * FingerprintRow => lex_ltb [fp_created a.2; Z.of_N a.1] [fp_created b.2; Z.of_N b.1])
    (List.filter (fun e : N * FingerprintRow =>
                    bool_decide (fp_ws e.2 = ws) && bool_decide (fp_fingerprint e.2 = fingerprint)
                    && negb (bool_decide (e.1 = thread))
                    && match threads d !! e.1 with Some t => unfinished t | None => false end)
       (map_to_list (task_fingerprints d))).

(** The oldest open change for this issue. *)
Definition same_issue (d : Db) (thread ws : N) (issue : str) : option N :=
  fst <$> first_by (fun a b : N * ThreadRow => lex_ltb [t_created a.2; Z.of_N a.1] [t_created b.2; Z.of_N b.1])
    (List.filter (fun e : N * ThreadRow =>
                    match thread_attributes d !! e.1, channels d !! t_channel e.2 with
                    | Some a, Some c =>
                        bool_decide (c_ws c = ws) && bool_decide (a_linear_issue a = Some issue)
                        && bool_decide (a_kind a = KChange) && negb (bool_decide (e.1 = thread)) && unfinished e.2
                    | _, _ => false
                    end)
       (map_to_list (threads d))).

(** [task_fingerprints::insert_on]. *)
Definition insert_fingerprint (thread ws : N) (fingerprint : str) (issue : option str) : Tx (option N) :=
  duplicate_of <- read (fun d => match same_brief d thread ws fingerprint, issue with
                                 | Some id, _ => Some id
                                 | None, Some issue => same_issue d thread ws issue
                                 | None, None => None
                                 end) ;;
  now <- utc_now ;;
  thread_fk thread ;;
  taken <- read (fun d => bool_decide (is_Some (task_fingerprints d !! thread))) ;;
  (if taken : bool then fail Database else ret tt) ;;
  write (upd_task_fingerprints
           (fun m => <[thread := {| fp_ws := ws; fp_fingerprint := fingerprint; fp_duplicate_of := duplicate_of;
                                    fp_created := now; fp_cleared := None |}]> m)) ;;
  ret duplicate_of.

Definition record_on (thread : N) (row : ThreadRow) (a : AttributeRow) : Tx (option N) :=
  match task_fingerprint (t_title row) (t_description row) a with
  | None => ret None
  | Some fingerprint =>
      ws <- read (fun d => c_ws <$> channels d !! t_channel row) ;;
      ws <- ok_or ws Database ;;
      insert_fingerprint thread ws fingerprint (if decide (a_kind a = KChange) then a_linear_issue a else None)
  end.

Definition get_fingerprint (thread : N) : Tx (option (str * option N)) :=
  read (fun d => (fun f => (fp_fingerprint f, fp_duplicate_of f)) <$> task_fingerprints d !! thread).

Definition clear_duplicate (thread : N) (new : NewAuditEvent) : Tx unit :=
  commit
    (now <- utc_now ;;
     found <- read (fun d => task_fingerprints d !! thread) ;;
     f <- ok_or found NotFound ;;
     write (upd_task_fingerprints
              (fun m => <[thread := {| fp_ws := fp_ws f; fp_fingerprint := fp_fingerprint f; fp_duplicate_of := None;
                                       fp_created := fp_created f; fp_cleared := Some now |}]> m)) ;;
     append_scoped (OwnerThread thread) new ;;
     ret tt).

(** ** Creating *)

(** What [create] does after its checks: the checks are reads on the pool, and
    other operations may run between them and this transaction. *)
Definition create_checked (new : NewThread) : Tx (N * ThreadRow) :=
  now <- utc_now ;;
  commit
    (thread <- insert_thread (nt_channel new) (nt_parent new) (nt_title new) (nt_description new) now
                 (nt_created_by new) ;;
     apply_default_engine_on thread.1 ;;
     record_on thread.1 thread.2 default_attributes ;;
     ret thread).

(** Undisturbed. *)
Definition create (new : NewThread) : Tx (N * ThreadRow) :=
  precheck new ;;
  create_checked new.

(** [insert_on]: the thread with its footprint, attributes, priority and event. *)
Definition insert_on (new : NewThread) (footprint : option Footprint) (attributes : option AttributeRow)
    (priority_by : option (Z * N)) : Tx (N * ThreadRow * EventRow) :=
  now <- utc_now ;;
  thread <- insert_thread (nt_channel new) (nt_parent new) (nt_title new) (nt_description new) now
              (nt_created_by new) ;;
  ws <- read (fun d => c_ws <$> channels d !! nt_channel new) ;;
  ws <- ok_or ws Database ;;
  at_ <- utc_now ;;
  (match footprint with Some fp => insert_items_on thread.1 ws fp | None => ret tt end) ;;
  (match attributes with Some a => attributes_insert_on thread.1 a | None => ret tt end) ;;
  apply_default_engine_on thread.1 ;;
  record_on thread.1 thread.2 (default default_attributes attributes) ;;
  (match priority_by with
   | None => ret tt
   | Some (priority, by_) =>
       set_at <- utc_now ;;
       member_fk by_ ;;
       taken <- read (fun d => bool_decide (is_Some (thread_priorities d !! thread.1))) ;;
       if taken : bool then fail Database
       else write (upd_thread_priorities
                     (fun m => <[thread.1 := {| pr_priority := priority; pr_by := by_; pr_at := set_at |}]> m))
   end) ;;
  stored <- append_in_tx (ThreadCreated at_ ws (nt_channel new) thread.1 thread.2) ;;
  ret (thread, stored).

(** What [create_with_footprint] checks of its arguments alone. *)
Definition creation_args (new : NewThread) (footprint : option Footprint) (attributes : option AttributeRow)
    (priority : option Z) : Tx (option Footprint * option AttributeRow * option (Z * N)) :=
  attributes <- lift (fun e => InvalidInput (BadAttributes e))
                  (match attributes with
                   | None => Ok None
                   | Some a => match validated_attributes a with Ok a => Ok (Some a) | Err e => Err e end
                   end) ;;
  priority_by <- lift (fun e => InvalidInput e)
                   (match priority, nt_created_by new with
                    | Some p, Some by_ => Ok (Some (p, by_))
                    | Some _, None => Err NoPriorityCaller
                    | None, _ => Ok None
                    end) ;;
  footprint <- lift (fun e => InvalidInput (BadFootprint e)) (declared footprint) ;;
  ret (footprint, attributes, priority_by).

(** Undisturbed: as with [create], other operations may run between the checks
    and the transaction. *)
Definition create_with_footprint (new : NewThread) (footprint : option Footprint) (attributes : option AttributeRow)
    (priority : option Z) : Tx (N * ThreadRow * EventRow) :=
  args <- creation_args new footprint attributes priority ;;
  precheck new ;;
  commit (insert_on new args.1.1 args.1.2 args.2).

Definition create_with_event (new : NewThread) : Tx (N * ThreadRow * EventRow) :=
  create_with_footprint new None None None.
End env.
