(* ===== verification/Dispatch.v ===== *)
(** * What holds a thread back, and what its holder says of it

    The side tables of a thread: its blocks
    ([crates/maidan-store/src/sqlite/blocks.rs]), its park
    ([unclaimable.rs]), its priority ([priorities.rs]), the skills it requires
    and members have ([thread_skills.rs], [member_skills.rs]), its wait timer
    ([waits.rs]), its holder's status ([status.rs]), its result
    ([thread_results.rs]), its linked artifacts ([evidence.rs]) and references
    ([refs.rs]). *)

From stdpp Require Import strings sorting.
From S2P Require Import Prelude Text Json EventChain EventLog Footprint Fsm Review Db Budget AuditTrail Claimability Threads LandGate Packets Landing.
Local Open Scope tx_scope.

(** [result_kind_from_payload]. *)
Definition result_kind_from_payload (v : Value) : option str :=
  s ← (value_get (lit "result_kind") v ≫= as_str_value); if decide (trim s = []) then None else Some (trim s).

(** Rows of a channel's live threads. *)
Definition in_channel (d : Db) (channel thread : N) : bool :=
  match threads d !! thread with Some t => bool_decide (t_channel t = channel) && live t | None => false end.

(** Live unfinished threads of a workspace. *)
Definition open_in_workspace (d : Db) (ws thread : N) : option ThreadRow :=
  t ← threads d !! thread;
  c ← channels d !! t_channel t;
  if bool_decide (c_ws c = ws) && live t && not_finished t then Some t else None.

(** A skill's rows, [ORDER BY skill]. *)
Definition skills_of (m : gmap (N * str) Z) (id : N) : list (str * Z) :=
  merge_sort (fun a b => str_le a.1 b.1)
    ((fun e : N * str * Z => (e.1.2, e.2)) <$> List.filter (fun e : N * str * Z => bool_decide (e.1.1 = id)) (map_to_list m)).

Section env.
Context `{JsonText, Sha256, Env}.

(** ** Blocks ([blocks.rs]) *)

Definition set_block (thread : N) (reason : BlockedReason) (set_by : N) (note : option str) : Tx (BlockRow * EventRow) :=
  commit
    (now <- utc_now ;;
     thread_fk thread ;;
     member_fk set_by ;;
     let block := {| bl_reason := reason; bl_by := set_by; bl_at := now; bl_note := note |} in
     write (upd_thread_blocks (fun m => <[thread := block]> m)) ;;
     scope <- thread_scope_in_tx thread ;;
     at_ <- utc_now ;;
     stored <- append_in_tx (ThreadBlocked at_ scope.1 scope.2 thread reason set_by note) ;;
     ret (block, stored)).

Definition clear_block_with_event (thread resolved_by : N) : Tx (option (BlockRow * EventRow)) :=
  commit
    (found <- read (fun d => thread_blocks d !! thread) ;;
     match found with
     | None => ret None
     | Some block =>
         write (upd_thread_blocks (delete thread)) ;;
         scope <- thread_scope_in_tx thread ;;
         at_ <- utc_now ;;
         stored <- append_in_tx (BlockedResolved at_ scope.1 scope.2 thread (bl_reason block) resolved_by) ;;
         ret (Some (block, stored))
     end).

Definition clear_block (thread : N) : Tx (option BlockRow) :=
  found <- read (fun d => thread_blocks d !! thread) ;;
  write (upd_thread_blocks (delete thread)) ;;
  ret found.

Definition get_block (thread : N) : Tx (option BlockRow) := read (fun d => thread_blocks d !! thread).

(** [ORDER BY set_at DESC, thread_id]. *)
Definition blocks_of (d : Db) (p : N -> bool) : list (N * BlockRow) :=
  order_by (fun e => [(- bl_at e.2)%Z; Z.of_N e.1]) (List.filter (fun e => p e.1) (map_to_list (thread_blocks d))).
Definition list_blocks_for_channel (channel : N) : Tx (list (N * BlockRow)) :=
  read (fun d => blocks_of d (in_channel d channel)).
Definition list_blocks_for_threads (ids : list N) : Tx (list (N * BlockRow)) :=
  read (fun d => blocks_of d (fun id => bool_decide (id ∈ ids))).
Definition list_human_gate_blocked (ws : N) : Tx (list (N * option str * option N * BlockRow)) :=
  read (fun d => omap (fun e : N * BlockRow =>
                         match bl_reason e.2 with
                         | BHuman | BGate => (fun t => (e.1, t_title t, t_owner t, e.2)) <$> open_in_workspace d ws e.1
                         | _ => None
                         end) (blocks_of d (fun _ => true))).

(** ** Parking ([unclaimable.rs]) *)

Definition mark_unclaimable (thread : N) (reason : str) (marked_by : N) : Tx UnclaimableRow :=
  now <- utc_now ;;
  thread_fk thread ;;
  member_fk marked_by ;;
  let row := {| uc_reason := reason; uc_by := marked_by; uc_at := now |} in
  write (upd_thread_unclaimable (fun m => <[thread := row]> m)) ;;
  ret row.
Definition clear_unclaimable (thread : N) : Tx bool :=
  had <- read (fun d => bool_decide (is_Some (thread_unclaimable d !! thread))) ;;
  write (upd_thread_unclaimable (delete thread)) ;;
  ret had.
Definition get_unclaimable (thread : N) : Tx (option UnclaimableRow) := read (fun d => thread_unclaimable d !! thread).
Definition list_unclaimable_for_channel (channel : N) : Tx (list (N * UnclaimableRow)) :=
  read (fun d => order_by (fun e => [(- uc_at e.2)%Z; Z.of_N e.1])
                   (List.filter (fun e => in_channel d channel e.1) (map_to_list (thread_unclaimable d)))).

(** ** Priorities and skills *)

Definition set_priority (thread : N) (priority : Z) (set_by : N) : Tx PriorityRow :=
  now <- utc_now ;;
  thread_fk thread ;;
  member_fk set_by ;;
  let row := {| pr_priority := priority; pr_by := set_by; pr_at := now |} in
  write (upd_thread_priorities (fun m => <[thread := row]> m)) ;;
  ret row.
Definition get_priority (thread : N) : Tx (option PriorityRow) := read (fun d => thread_priorities d !! thread).

(** [ON CONFLICT DO NOTHING]. *)
Definition insert_once {K} `{Countable K} {A} (key : K) (v : A) (m : gmap K A) : gmap K A :=
  match m !! key with Some _ => m | None => <[key := v]> m end.

Definition add_required_skill (thread : N) (skill : str) : Tx unit :=
  (if decide (trim skill = []) then fail (InvalidInput EmptySkill) else ret tt) ;;
  now <- utc_now ;;
  thread_fk thread ;;
  write (upd_required_skills (insert_once (thread, skill) now)).
Definition remove_required_skill (thread : N) (skill : str) : Tx bool :=
  had <- read (fun d => bool_decide (is_Some (required_skills d !! (thread, skill)))) ;;
  write (upd_required_skills (delete (thread, skill))) ;;
  ret had.
Definition list_required_skills (thread : N) : Tx (list (str * Z)) := read (fun d => skills_of (required_skills d) thread).

Definition add_skill_on (member : N) (skill : str) : Tx unit :=
  (if decide (trim skill = []) then fail (InvalidInput EmptySkill) else ret tt) ;;
  now <- utc_now ;;
  member_fk member ;;
  write (upd_member_skills (insert_once (member, skill) now)).
Definition remove_skill (member : N) (skill : str) : Tx bool :=
  had <- read (fun d => bool_decide (is_Some (member_skills d !! (member, skill)))) ;;
  write (upd_member_skills (delete (member, skill))) ;;
  ret had.
Definition list_skills (member : N) : Tx (list (str * Z)) := read (fun d => skills_of (member_skills d) member).

(** ** Wait timers ([waits.rs]) *)

Definition set_wait (thread : N) (wait_until : Z) (policy : EscalationPolicy) (reason : option str) (created_by : N) :
    Tx WaitRow :=
  now <- utc_now ;;
  thread_fk thread ;;
  member_fk created_by ;;
  old <- read (fun d => thread_waits d !! thread) ;;
  let row := {| wt_until := wait_until; wt_policy := policy; wt_reason := reason; wt_by := created_by;
                wt_created := from_option wt_created now old; wt_fired := None |} in
  write (upd_thread_waits (fun m => <[thread := row]> m)) ;;
  ret row.
Definition cancel_wait (thread : N) : Tx bool :=
  had <- read (fun d => bool_decide (is_Some (thread_waits d !! thread))) ;;
  write (upd_thread_waits (delete thread)) ;;
  ret had.
Definition get_wait (thread : N) : Tx (option WaitRow) := read (fun d => thread_waits d !! thread).

Definition due (now : Z) (e : N * WaitRow) : bool := bool_decide (wt_fired e.2 = None) && (wt_until e.2 <=? now)%Z.
Definition next_due (d : Db) (now : Z) : option (N * WaitRow) :=
  first_by (fun a b => lex_ltb [wt_until a.2; Z.of_N a.1] [wt_until b.2; Z.of_N b.1])
    (List.filter (due now) (map_to_list (thread_waits d))).
Definition fire (now : Z) (r : WaitRow) : WaitRow :=
  {| wt_until := wt_until r; wt_policy := wt_policy r; wt_reason := wt_reason r; wt_by := wt_by r;
     wt_created := wt_created r; wt_fired := Some now |}.

(** The sweeper's claim: the earliest due wait, marked fired. *)
Definition claim_next_due (now : Z) : Tx (option (N * WaitRow)) :=
  commit
    (candidate <- read (fun d => next_due d now) ;;
     match candidate with
     | None => ret None
     | Some (thread, row) =>
         write (upd_thread_waits (fun m => <[thread := fire now row]> m)) ;;
         ret (Some (thread, fire now row))
     end).

(** ** The holder's status ([status.rs]) *)

Definition declare (thread : N) (status : DeclaredStatus) (note : str) (declared_by : N) : Tx (StatusRow * EventRow) :=
  commit
    (row <- read (fun d => threads d !! thread) ;;
     t <- ok_or row NotFound ;;
     (if bool_decide (t_assignee t = Some declared_by) || bool_decide (t_owner t = Some declared_by)
      then ret tt else fail (Conflict NotSpokesman)) ;;
     now <- utc_now ;;
     member_fk declared_by ;;
     let row := {| s_status := status; s_note := note; s_by := declared_by; s_at := now |} in
     write (upd_thread_status (fun m => <[thread := row]> m)) ;;
     scope <- thread_scope_in_tx thread ;;
     at_ <- utc_now ;;
     stored <- append_in_tx (StatusDeclared at_ scope.1 scope.2 thread status note declared_by) ;;
     ret (row, stored)).

Definition clear_status (thread : N) : Tx (option StatusRow) :=
  found <- read (fun d => thread_status d !! thread) ;;
  write (upd_thread_status (delete thread)) ;;
  ret found.
Definition get_status (thread : N) : Tx (option StatusRow) := read (fun d => thread_status d !! thread).
Definition list_needs_input (ws : N) : Tx (list (N * option str * option N * StatusRow)) :=
  read (fun d => omap (fun e : N * StatusRow =>
                         m ← members d !! s_by e.2;
                         t ← open_in_workspace d ws e.1;
                         match m_kind m with
                         | MAgent => if decide (s_status e.2 = NeedsInput) then Some (e.1, t_title t, t_owner t, e.2) else None
                         | MHuman => None
                         end)
                   (order_by (fun e => [s_at e.2; Z.of_N e.1]) (map_to_list (thread_status d)))).

(** ** Results ([thread_results.rs]) *)

(** The claim fence is the statement's own condition; the table's triggers count
    the write in the thread's version. *)
Definition set_result (thread produced_by lease : N) (result : Value) : Tx ResultRow :=
  now <- utc_now ;;
  ok <- read (fun d => match threads d !! thread with Some t => fenced produced_by lease t | None => false end) ;;
  if negb ok then fail ClaimLost
  else
    member_fk produced_by ;;
    let row := {| rs_result := result; rs_by := produced_by; rs_at := now; rs_kind := result_kind_from_payload result;
                  rs_actor := Some (default produced_by (delegate_acting_for produced_by)) |} in
    write (upd_thread_results (fun m => <[thread := row]> m)) ;;
    bump_version thread ;;
    ret row.
Definition get_result (thread : N) : Tx (option ResultRow) := read (fun d => thread_results d !! thread).

Definition results_by (d : Db) (p : N * ResultRow -> bool) : list (N * ResultRow) :=
  order_by (fun e => [(- rs_at e.2)%Z; (- Z.of_N e.1)%Z]) (List.filter p (map_to_list (thread_results d))).
Definition list_results (ws : N) (kind : option str) (limit : Z) : Tx (list (N * ResultRow)) :=
  let kind := k ← kind; if decide (trim k = []) then None else Some (trim k) in
  read (fun d => sql_limit (clamp 1 500 limit)
                   (results_by d (fun e => bool_decide (fst <$> thread_scope d e.1 = Some ws)
                                           && match threads d !! e.1 with Some t => live t | None => false end
                                           && match kind with None => true | Some k => bool_decide (rs_kind e.2 = Some k) end))).
Definition list_closed_in_channel (channel : N) (exclude : option N) (limit : Z) : Tx (list (N * ResultRow)) :=
  read (fun d => sql_limit (clamp 1 50 limit)
                   (results_by d (fun e => in_channel d channel e.1
                                           && match threads d !! e.1 with Some t => is_terminal (t_state t) | None => false end
                                           && negb (bool_decide (exclude = Some e.1))))).

(** ** Linked artifacts ([evidence.rs]) *)

Definition version (thread : N) : Tx Z :=
  v <- read (fun d => (fun _ => default 0%Z (thread_versions d !! thread)) <$> threads d !! thread) ;; ok_or v NotFound.

Definition link (thread : N) (sha : str) (linked_by : N) : Tx (ArtifactLinkRow * bool) :=
  commit
    (held <- read (fun d => match thread_scope d thread with
                            | Some scope => bool_decide ((scope.1, sha) ∈ artifact_refs d)
                            | None => false
                            end) ;;
     (if held : bool then ret tt else fail NotFound) ;;
     now <- utc_now ;;
     there <- read (fun d => thread_artifacts d !! (thread, sha)) ;;
     match there with
     | Some row => ret (row, false)
     | None =>
         member_fk linked_by ;;
         let row := {| al_by := linked_by; al_at := now;
                       al_actor := Some (default linked_by (delegate_acting_for linked_by)) |} in
         write (upd_thread_artifacts (fun m => <[(thread, sha) := row]> m)) ;;
         bump_version thread ;;
         ret (row, true)
     end).
Definition unlink (thread : N) (sha : str) : Tx bool :=
  had <- read (fun d => bool_decide (is_Some (thread_artifacts d !! (thread, sha)))) ;;
  write (upd_thread_artifacts (delete (thread, sha))) ;;
  when had (bump_version thread) ;;
  ret had.

(** ** References ([refs.rs]) *)

Definition create_reference (key : RefKey) : Tx RefRow :=
  id <- new_uuid ;;
  now <- utc_now ;;
  there <- read (fun d => existsb (fun r => bool_decide (rf_key r = key)) (references d)) ;;
  (if there : bool then fail (Conflict ReferenceExists) else ret tt) ;;
  let row := {| rf_key := key; rf_id := id; rf_created := now |} in
  write (upd_references (fun l => l ++ [row])) ;;
  ret row.
Definition create_reference_with_event (key : RefKey) : Tx (RefRow * EventRow) :=
  commit
    (row <- create_reference key ;;
     at_ <- utc_now ;;
     stored <- append_in_tx (ReferenceAdded at_ row) ;;
     ret (row, stored)).
Definition list_references_from (side : RefSide) (id : N) : Tx (list RefRow) :=
  read (fun d => order_by (fun r => [rf_created r; Z.of_N (rf_id r)])
                   (List.filter (fun r => bool_decide (rf_src_kind (rf_key r) = side) && bool_decide (rf_src (rf_key r) = id))
                      (references d))).
Definition list_references_to (side : RefSide) (id : N) : Tx (list RefRow) :=
  read (fun d => order_by (fun r => [rf_created r; Z.of_N (rf_id r)])
                   (List.filter (fun r => bool_decide (rf_dst_kind (rf_key r) = side) && bool_decide (rf_dst (rf_key r) = id))
                      (references d))).
End env.
