(* ===== verification/Access.v ===== *)
(** * Who may see what

    [crates/maidan-auth/src/access.rs] and [event_visibility.rs]: access to
    channels, threads and messages, the waits that reach a member, and which
    logged events a caller may read, with the answers remembered per thread
    and channel. *)

From stdpp Require Import strings.
From S2P Require Import Prelude Text Json EventChain EventLog Footprint Fsm Review Db Auth TxLogic AuditTrail Claimability Threads Deps Tokens Attributes Gates LandGate Packets Landing Dispatch.
Local Open Scope req_scope.

(** ** Reads of the store that access needs *)

Definition get_channel (id : N) : Tx ChannelRow := (row <- read (fun d => channels d !! id) ;; ok_or row NotFound)%tx.
Definition get_thread (id : N) : Tx ThreadRow := (row <- read (fun d => threads d !! id) ;; ok_or row NotFound)%tx.
Definition get_message (id : N) : Tx MessageRow := (row <- read (fun d => messages d !! id) ;; ok_or row NotFound)%tx.
Definition channel_is_member (channel member : N) : Tx bool :=
  read (fun d => bool_decide ((channel, member) ∈ channel_members d)).
Definition dm_conversation_for_thread (thread : N) : Tx (option (N * N)) := read (fun d => dm_conversations d !! thread).
(** The members of the group conversation behind a thread. *)
Definition group_dm_for_thread (thread : N) : Tx (option (gset N)) :=
  read (fun d => (fun g => set_map snd (filter (fun e : N * N => e.1 = g) (group_dm_members d)))
                   <$> group_dms d !! thread).
Definition list_channels (ws : N) : Tx (list (N * ChannelRow)) :=
  read (fun d => merge_sort (fun a b : N * ChannelRow =>
                               str_leb (c_name a.2) (c_name b.2) = true
                               /\ (c_name a.2 = c_name b.2 -> (a.1 <= b.1)%N))
                   (List.filter (fun e : N * ChannelRow => bool_decide (c_ws e.2 = ws)) (map_to_list (channels d)))).

(** ** Access ([access.rs]) *)

Definition ensure_channel_access (auth : AuthContext) (channel : N) : Req AuthError unit :=
  if ac_bypass auth then rret tt
  else
    c <- call AuthStore (get_channel channel) ;;
    check_ (fun e => e) (ensure_workspace auth (c_ws c)) ;;
    if negb (c_private c) || bool_decide (c_name c = DM_CHANNEL_NAME) then rret tt
    else
      inside <- call AuthStore (channel_is_member channel (ac_member auth)) ;;
      if inside : bool then rret tt else rfail (Forbidden NotChannelMember).

(** A refusal becomes [false]; other errors stay errors. *)
Definition allowed {A} (m : Req AuthError A) : Req AuthError bool :=
  fun w => match m w with
           | (Ok _, w') => (Ok true, w')
           | (Err (Forbidden _), w') => (Ok false, w')
           | (Err e, w') => (Err e, w')
           end.
Definition can_access_channel (auth : AuthContext) (channel : N) : Req AuthError bool :=
  allowed (ensure_channel_access auth channel).

Fixpoint keep_denied (auth : AuthContext) (l : list (N * ChannelRow)) : Req AuthError (list N) :=
  match l with
  | [] => rret []
  | (id, c) :: l =>
      denied <- (if c_private c && negb (bool_decide (c_name c = DM_CHANNEL_NAME))
                 then inside <- call AuthStore (channel_is_member id (ac_member auth)) ;; rret (negb inside)
                 else rret false) ;;
      rest <- keep_denied auth l ;;
      rret (if denied : bool then id :: rest else rest)
  end.
Definition private_channel_deny_set (auth : AuthContext) (ws : N) : Req AuthError (list N) :=
  if ac_bypass auth then rret []
  else
    cs <- call AuthStore (list_channels ws) ;;
    keep_denied auth cs.

Definition ensure_dm_participant (auth : AuthContext) (thread : N) : Req AuthError unit :=
  let me := ac_member auth in
  dm <- call AuthStore (dm_conversation_for_thread thread) ;;
  match dm with
  | Some (low, high) =>
      if bool_decide (low = me) || bool_decide (high = me) then rret tt else rfail (Forbidden NotDmParticipant)
  | None =>
      group <- call AuthStore (group_dm_for_thread thread) ;;
      match group with
      | Some members => if decide (me ∈ members) then rret tt else rfail (Forbidden NotDmParticipant)
      | None => rfail (Forbidden NotDmParticipant)
      end
  end.

Record ThreadScope := { sc_workspace : N; sc_channel : N; sc_thread : N }.

Definition authorize_thread (auth : AuthContext) (thread : N) : Req AuthError ThreadScope :=
  t <- call AuthStore (get_thread thread) ;;
  c <- call AuthStore (get_channel (t_channel t)) ;;
  let scope := {| sc_workspace := c_ws c; sc_channel := t_channel t; sc_thread := thread |} in
  if ac_bypass auth then rret scope
  else
    check_ (fun e => e) (ensure_workspace auth (c_ws c)) ;;
    (if decide (c_name c = DM_CHANNEL_NAME) then ensure_dm_participant auth thread
     else if c_private c
     then
       inside <- call AuthStore (channel_is_member (t_channel t) (ac_member auth)) ;;
       if inside : bool then rret tt else rfail (Forbidden NotChannelMember)
     else rret tt) ;;
    rret scope.

Definition ensure_thread_access (auth : AuthContext) (thread : N) : Req AuthError unit :=
  if ac_bypass auth then rret tt else authorize_thread auth thread ;; rret tt.
Definition can_access_thread (auth : AuthContext) (thread : N) : Req AuthError bool :=
  allowed (ensure_thread_access auth thread).

Record MessageScope := { ms_workspace : N; ms_channel : N; ms_thread : N; ms_message : N }.
Definition authorize_message (auth : AuthContext) (message : N) : Req AuthError MessageScope :=
  m <- call AuthStore (get_message message) ;;
  s <- authorize_thread auth (mg_thread m) ;;
  rret {| ms_workspace := sc_workspace s; ms_channel := sc_channel s; ms_thread := sc_thread s; ms_message := message |}.
Definition ensure_message_access (auth : AuthContext) (message : N) : Req AuthError unit :=
  if ac_bypass auth then rret tt else authorize_message auth message ;; rret tt.

(** ** What waits on a member *)

Section env.
Context `{JsonText, Sha256, Env}.

Definition admin_token (now : Z) (t : TokenRow) : bool :=
  bool_decide (tk_revoked t = None)
  && match tk_expires t with None => true | Some e => (now <? e)%Z end
  && holds (tk_capabilities t) TOKEN_ADMIN.

Definition is_workspace_admin (auth : AuthContext) (ws member : N) : Req AuthError bool :=
  now <- call AuthStore utc_now ;;
  if ac_bypass auth || (bool_decide (ac_member auth = member) && has_capability auth TOKEN_ADMIN) then rret true
  else
    match ac_grant auth with
    | Some _ => rret false
    | None =>
        tokens <- call AuthStore (list_tokens_for_member ws member) ;;
        rret (existsb (fun e => admin_token now e.2) tokens)
    end.

Definition HumanWait (T : Type) : Type := N * option str * option N * T.
Record HumanWaits := { hw_blocked : list (HumanWait BlockRow); hw_questions : list (HumanWait StatusRow) }.

(** The rows that reach the member and that the caller may open. *)
Fixpoint keep_waits {T} (auth : AuthContext) (reaches : HumanWait T -> bool) (l : list (HumanWait T)) :
    Req AuthError (list (HumanWait T)) :=
  match l with
  | [] => rret []
  | e :: l =>
      keep <- (if reaches e
               then if ac_bypass auth then rret true else can_access_thread auth e.1.1.1
               else rret false) ;;
      rest <- keep_waits auth reaches l ;;
      rret (if keep : bool then e :: rest else rest)
  end.

Definition visible_human_waits (auth : AuthContext) (ws member : N) : Req AuthError HumanWaits :=
  is_admin <- is_workspace_admin auth ws member ;;
  blocked <- call AuthStore (list_human_gate_blocked ws) ;;
  blocked <- keep_waits auth
               (fun e => bool_decide (e.1.2 = Some member) || (bool_decide (e.1.2 = None) && is_admin)) blocked ;;
  asking <- call AuthStore (list_needs_input ws) ;;
  questions <- keep_waits auth
                 (fun e : HumanWait StatusRow =>
                    negb (bool_decide (s_by e.2 = member))
                    && (let answerer := o ← e.1.2; if decide (o = s_by e.2) then None else Some o in
                        bool_decide (answerer = Some member) || (bool_decide (answerer = None) && is_admin))) asking ;;
  rret {| hw_blocked := blocked; hw_questions := questions |}.
End env.

(** ** Which events a caller may read ([event_visibility.rs]) *)

Record EventVisibility := { vis_threads : gmap N bool; vis_channels : gmap N bool }.
Definition new_visibility : EventVisibility := {| vis_threads := ∅; vis_channels := ∅ |}.

(** A thread that no longer exists shows nothing; a store failure stays one. *)
Definition settle (m : Req AuthError bool) : Req StoreError bool :=
  fun w => match m w with
           | (Ok allowed, w') => (Ok allowed, w')
           | (Err (AuthStore NotFound), w') => (Ok false, w')
           | (Err (AuthStore e), w') => (Err e, w')
           | (Err (Unauthorized | Forbidden _), w') => (Ok false, w')
           end.

(** The answer for an event of a channel that names no thread. *)
Definition channel_event_allowed (auth : AuthContext) (channel : N) : Req StoreError bool :=
  fun w => match get_channel channel w with
           | (Ok c, w') =>
               if negb (bool_decide (c_ws c = ac_workspace auth)) then (Ok false, w')
               else if decide (c_name c = DM_CHANNEL_NAME) then (Ok false, w')
               else if c_private c then call (fun e => e) (channel_is_member channel (ac_member auth)) w'
               else (Ok true, w')
           | (Err NotFound, w') => (Ok false, w')
           | (Err e, w') => (Err e, w')
           end.

Definition allows_in (auth : AuthContext) (thread channel : option N) (v : EventVisibility) :
    Req StoreError (bool * EventVisibility) :=
  if ac_bypass auth then rret (true, v)
  else
    match thread, channel with
    | Some t, _ =>
        match vis_threads v !! t with
        | Some seen => rret (seen, v)
        | None =>
            ok <- settle (can_access_thread auth t) ;;
            rret (ok, {| vis_threads := <[t := ok]> (vis_threads v); vis_channels := vis_channels v |})
        end
    | None, Some c =>
        match vis_channels v !! c with
        | Some seen => rret (seen, v)
        | None =>
            ok <- channel_event_allowed auth c ;;
            rret (ok, {| vis_threads := vis_threads v; vis_channels := <[c := ok]> (vis_channels v) |})
        end
    | None, None => rret (true, v)
    end.

Definition allows (auth : AuthContext) (event : EventRow) (v : EventVisibility) : Req StoreError (bool * EventVisibility) :=
  allows_in auth (e_thread event) (e_channel event) v.
