(* ===== verification/TokenRoutes.v ===== *)
(** * The token routes

    [crates/maidan-server/src/routes/token.rs] with [quota.rs]'s check: minting
    by an admin, holder-side attenuation, the exchange of a delegation grant,
    rotation, revocation and the grants themselves, as the handlers run them
    against the store. The bearer secret a handler generates is an argument;
    the text of a time in an audit record is the class [TimeText]. *)

From stdpp Require Import strings.
From S2P Require Import Prelude Text Json EventChain EventLog Footprint Fsm Review Db Auth TxLogic AuditTrail Claimability Threads Deps Tokens Attributes Gates LandGate Packets Landing Dispatch Access.
Local Open Scope req_scope.

(** The serialized form of a [DateTime<Utc>]. *)
Class TimeText := { time_text : Z -> str }.

Inductive ApiError :=
| ApiAuth (e : AuthError)
| ApiStore (e : StoreError)
| BadRequest (e : CapError)
| OutsideVocabulary (cap : str)
| NotHeld (cap : str)
| BadQuota
| UnknownQuota (cap : str)
| QuotaNotGranted (cap : str)
| OneHop
| OtherDelegate
| UnknownDelegated (cap : str)
| NotDelegatable (cap : str)
| ApiUnauthorized
| ApiNotFound.

(** [super::cap] and [super::ensure_workspace]. *)
Definition cap (auth : AuthContext) (c : str) : Req ApiError unit := check_ ApiAuth (require_capability auth c).
Definition ensure_ws (auth : AuthContext) (ws : N) : Req ApiError unit := check_ ApiAuth (ensure_workspace auth ws).
(** [Store::get_member_in]. *)
Definition get_member_in (ws member : N) : Tx MemberRow :=
  (row <- read (fun d => members d !! member) ;;
   m <- ok_or row NotFound ;;
   if decide (m_ws m = ws) then ret m else fail NotFound)%tx.

Definition mint_vocabulary (auth : AuthContext) : list str :=
  if ac_bypass auth then all
  else List.filter (fun c => (negb (bool_decide (c = OPERATOR_GLOBAL)) && negb (bool_decide (c = AUDIT_READ_GLOBAL)))
                             || has_capability auth c) all.

Definition holder_grant (auth : AuthContext) : list str := if ac_bypass auth then all else ac_capabilities auth.

(** [json!]: values of the fields an audit record has. *)
Definition id_json (n : N) : Value := Str (uuid_text n).
Definition opt_json {A} (f : A -> Value) (o : option A) : Value := match o with Some a => f a | None => Null end.
Definition caps_json (l : list str) : Value := Array (Str <$> l).

Record MintApiToken := {
  mt_label : option str; mt_capabilities : list str; mt_set : option str; mt_expires : option Z;
  mt_quotas : list TokenQuota
}.
Record AttenuateToken := { at_capabilities : list str; at_expires : option Z; at_label : option str }.
Record DelegateToken := { de_grant : N; de_capabilities : list str; de_expires : option Z; de_label : option str }.
Record CreateDelegationGrant := {
  cg_subject : N; cg_delegate : N; cg_capabilities : list str; cg_purpose : str; cg_expires : Z
}.

(** [quota::validate_token_quotas]. *)
Fixpoint validate_token_quotas (quotas : list TokenQuota) (caps : list str) : result ApiError unit :=
  match quotas with
  | [] => Ok tt
  | q :: quotas =>
      if (q_max_per_window q =? 0)%Z || (q_window_secs q =? 0)%Z then Err BadQuota
      else if negb (is_known (q_capability q)) then Err (UnknownQuota (q_capability q))
      else if negb (holds caps (q_capability q)) then Err (QuotaNotGranted (q_capability q))
      else validate_token_quotas quotas caps
  end.

Section env.
Context `{JsonText, Sha256, Env, TimeText}.

Definition time_json (t : Z) : Value := Str (time_text t).

Definition parent_expires_at (auth : AuthContext) : Req ApiError (option Z) :=
  match ac_token auth with
  | Some id => t <- call ApiStore (get_token id) ;; rret (tk_expires t)
  | None => rret None
  end.

Definition token_audit (action : str) (actor : N) (fields : N * TokenRow -> list (str * Value))
    (token : N * TokenRow) : NewAuditEvent :=
  {| na_scope := ScopeWorkspace (tk_ws token.2); na_actor := Some actor; na_action := action;
     na_target_kind := Some (lit "api_token"); na_target_id := Some token.1;
     na_metadata := Object (fields token) |}.

(** What a minted token's response carries. *)
Record MintedToken := { mi_id : N; mi_row : TokenRow; mi_quotas : list TokenQuota }.

Definition mint_fields (set : option str) (t : N * TokenRow) : list (str * Value) :=
  [(lit "workspace_id", id_json (tk_ws t.2)); (lit "subject_member_id", id_json (tk_member t.2));
   (lit "capabilities", caps_json (tk_capabilities t.2)); (lit "capability_set", opt_json Str set);
   (lit "expires_at", opt_json time_json (tk_expires t.2))].

Definition mint_api_token (auth : AuthContext) (ws member : N) (body : MintApiToken) (secret : str) :
    Req ApiError MintedToken :=
  cap auth TOKEN_ADMIN ;;
  ensure_ws auth ws ;;
  call ApiStore (get_member_in ws member) ;;
  let vocabulary := mint_vocabulary auth in
  capabilities <- (match mt_set body, mt_capabilities body with
                   | None, [] => rret default_minted
                   | set, requested => check_ BadRequest (progressive_grant vocabulary set requested)
                   end) ;;
  (match List.find (fun c => negb (has_capability auth c)) capabilities with
   | Some c => rfail (NotHeld c)
   | None => rret tt
   end) ;;
  check_ (fun e => e) (validate_token_quotas (mt_quotas body) capabilities) ;;
  record <- call ApiStore (create_audited
              {| nt_ws := ws; nt_member := member; nt_app := None; nt_hash := hash_secret secret;
                 nt_label := mt_label body; nt_capabilities := capabilities; nt_expires := mt_expires body |}
              (token_audit (lit "token.mint") (ac_actor auth) (mint_fields (mt_set body)))) ;;
  (match mt_quotas body with [] => rret tt | q => call ApiStore (replace_quotas record.1 q) end) ;;
  quotas <- call ApiStore (list_quotas record.1) ;;
  rret {| mi_id := record.1; mi_row := record.2; mi_quotas := quotas |}.

Definition revoke_fields (t : N * TokenRow) : list (str * Value) :=
  [(lit "workspace_id", id_json (tk_ws t.2)); (lit "subject_member_id", id_json (tk_member t.2))].

Definition revoke_api_token (auth : AuthContext) (id : N) : Req ApiError (N * TokenRow) :=
  cap auth TOKEN_ADMIN ;;
  existing <- call ApiStore (get_token id) ;;
  ensure_ws auth (tk_ws existing) ;;
  call ApiStore (revoke_audited id (token_audit (lit "token.revoke") (ac_actor auth) revoke_fields)).

Definition rotate_fields (id : N) (t : N * TokenRow) : list (str * Value) :=
  revoke_fields t ++ [(lit "replaces", id_json id)].

(** A holder may rotate its own token; another's takes [token:admin]. *)
Definition rotate_api_token (auth : AuthContext) (id : N) (secret : str) : Req ApiError MintedToken :=
  (if decide (ac_token auth = Some id) then rret tt else cap auth TOKEN_ADMIN) ;;
  existing <- call ApiStore (get_token id) ;;
  ensure_ws auth (tk_ws existing) ;;
  quotas <- call ApiStore (list_quotas id) ;;
  rotated <- call ApiStore (rotate_audited id (hash_secret secret)
               (token_audit (lit "token.rotate") (ac_actor auth) (rotate_fields id))) ;;
  rret {| mi_id := rotated.1; mi_row := rotated.2; mi_quotas := quotas |}.

Definition attenuate_fields (parent : option N) (quota_count : nat) (t : N * TokenRow) : list (str * Value) :=
  [(lit "workspace_id", id_json (tk_ws t.2)); (lit "subject_member_id", id_json (tk_member t.2));
   (lit "capabilities", caps_json (tk_capabilities t.2)); (lit "expires_at", opt_json time_json (tk_expires t.2));
   (lit "attenuated", Bool true); (lit "parent_token_id", opt_json id_json parent);
   (lit "app_installation_id", opt_json id_json (tk_app t.2));
   (lit "inherited_quotas", Num (Int (Z.of_nat quota_count)))].

(** Holder-side attenuation: a weaker token of the caller's own. *)
Definition attenuate_api_token (auth : AuthContext) (body : AttenuateToken) (secret : str) : Req ApiError MintedToken :=
  cap auth WORKSPACE_READ ;;
  capabilities <- check_ BadRequest (attenuate (holder_grant auth) (at_capabilities body)) ;;
  let vocab := mint_vocabulary auth in
  (match List.find (fun c => negb (holds vocab c)) capabilities with
   | Some c => rfail (OutsideVocabulary c)
   | None => rret tt
   end) ;;
  parent <- parent_expires_at auth ;;
  now <- call ApiStore utc_now ;;
  expires_at <- check_ BadRequest (attenuate_expiry parent (at_expires body) now) ;;
  inherited <- (match ac_token auth with
                | Some id => call ApiStore (list_quotas id)
                | None => rret []
                end) ;;
  let derived := {| nt_ws := ac_workspace auth; nt_member := ac_member auth; nt_app := ac_installation auth;
                    nt_hash := hash_secret secret; nt_label := at_label body; nt_capabilities := capabilities;
                    nt_expires := expires_at |} in
  let audit_for := token_audit (lit "token.mint") (ac_actor auth) (attenuate_fields (ac_token auth) (length inherited)) in
  record <- (match ac_token auth with
             | Some parent => call ApiStore (create_attenuated_audited derived parent audit_for)
             | None => call ApiStore (create_audited derived audit_for)
             end) ;;
  (match inherited with [] => rret tt | q => call ApiStore (replace_quotas record.1 q) end) ;;
  rret {| mi_id := record.1; mi_row := record.2; mi_quotas := inherited |}.

Definition delegate_fields (delegate grant : N) (parent : option N) (t : N * TokenRow) : list (str * Value) :=
  [(lit "workspace_id", id_json (tk_ws t.2)); (lit "delegate_id", id_json delegate);
   (lit "subject_member_id", id_json (tk_member t.2)); (lit "grant_id", id_json grant);
   (lit "capabilities", caps_json (tk_capabilities t.2)); (lit "expires_at", opt_json time_json (tk_expires t.2));
   (lit "parent_token_id", opt_json id_json parent)].

(** The exchange of a grant for a short-lived bearer that acts as its subject. *)
Definition delegate_api_token (auth : AuthContext) (body : DelegateToken) (secret : str) : Req ApiError MintedToken :=
  cap auth WORKSPACE_READ ;;
  (match ac_grant auth with Some _ => rfail OneHop | None => rret tt end) ;;
  grant <- call ApiStore (get_grant (de_grant body)) ;;
  (if negb (ac_bypass auth) && negb (bool_decide (dg_ws grant = ac_workspace auth)) then rfail ApiNotFound else rret tt) ;;
  (if decide (dg_delegate grant = ac_actor auth) then rret tt else rfail OtherDelegate) ;;
  now <- call ApiStore utc_now ;;
  (if bool_decide (is_Some (dg_revoked grant)) || (dg_expires grant <=? now)%Z then rfail ApiUnauthorized else rret tt) ;;
  let held := holder_grant auth in
  let requested := match de_capabilities body with
                   | [] => List.filter (holds held) (dg_capabilities grant)
                   | requested => requested
                   end in
  capabilities <- check_ BadRequest (attenuate (dg_capabilities grant) requested) ;;
  capabilities <- check_ BadRequest (attenuate held capabilities) ;;
  parent_expiry <- parent_expires_at auth ;;
  expires_at <- check_ BadRequest (delegated_expiry (dg_expires grant) parent_expiry (de_expires body) now) ;;
  record <- call ApiStore (create_delegated_audited
              {| nt_ws := dg_ws grant; nt_member := dg_subject grant; nt_app := None; nt_hash := hash_secret secret;
                 nt_label := de_label body; nt_capabilities := capabilities; nt_expires := Some expires_at |}
              (de_grant body) (ac_member auth) (ac_token auth)
              (token_audit (lit "token.delegate") (ac_actor auth)
                 (delegate_fields (ac_member auth) (de_grant body) (ac_token auth)))) ;;
  rret {| mi_id := record.1; mi_row := record.2; mi_quotas := [] |}.

Definition grant_audit (ws : N) (action : str) (actor id : N) (fields : list (str * Value)) : NewAuditEvent :=
  {| na_scope := ScopeWorkspace ws; na_actor := Some actor; na_action := action;
     na_target_kind := Some (lit "delegation_grant"); na_target_id := Some id; na_metadata := Object fields |}.

Definition grant_fields (ws : N) (g : DelegationRow) : list (str * Value) :=
  [(lit "workspace_id", id_json ws); (lit "subject_id", id_json (dg_subject g));
   (lit "delegate_id", id_json (dg_delegate g)); (lit "capabilities", caps_json (dg_capabilities g));
   (lit "expires_at", time_json (dg_expires g)); (lit "purpose", Str (dg_purpose g))].

Definition create_delegation_grant (auth : AuthContext) (ws : N) (body : CreateDelegationGrant) :
    Req ApiError (N * DelegationRow) :=
  cap auth TOKEN_ADMIN ;;
  ensure_ws auth ws ;;
  (match List.find (fun c => negb (is_known c)) (cg_capabilities body) with
   | Some c => rfail (UnknownDelegated c)
   | None => rret tt
   end) ;;
  (match List.find (fun c => negb (is_delegatable c)) (cg_capabilities body) with
   | Some c => rfail (NotDelegatable c)
   | None => rret tt
   end) ;;
  call ApiStore (get_member_in ws (cg_subject body)) ;;
  call ApiStore (get_member_in ws (cg_delegate body)) ;;
  call ApiStore (grant_create_audited
    {| gr_ws := ws; gr_subject := cg_subject body; gr_delegate := cg_delegate body;
       gr_capabilities := cg_capabilities body; gr_purpose := cg_purpose body; gr_authorized_by := ac_actor auth;
       gr_expires := cg_expires body |}
    (fun g => grant_audit ws (lit "delegation_grant.create") (ac_actor auth) g.1 (grant_fields ws g.2))).

Definition revoke_delegation_grant (auth : AuthContext) (ws id : N) : Req ApiError DelegationRow :=
  cap auth TOKEN_ADMIN ;;
  ensure_ws auth ws ;;
  existing <- call ApiStore (get_grant id) ;;
  (if decide (dg_ws existing = ws) then rret tt else rfail ApiNotFound) ;;
  call ApiStore (grant_revoke_audited ws id
    (grant_audit ws (lit "delegation_grant.revoke") (ac_actor auth) id
       [(lit "workspace_id", id_json ws); (lit "subject_id", id_json (dg_subject existing));
        (lit "delegate_id", id_json (dg_delegate existing))])) ;;
  call ApiStore (get_grant id).
End env.
