(* ===== verification/OAuthServer.v ===== *)
(** * The OAuth authorization server's endpoints

    [crates/maidan-server/src/oauth/]: [authorize.rs], [consent.rs], [token.rs],
    [revoke.rs], [grants.rs], [register.rs] and the lookups of [registry.rs] and
    [client_auth.rs], as the handlers run them against the store. The random
    secrets a handler generates are arguments, and a request's id is the number
    it parses to. *)

From stdpp Require Import strings.
From S2P Require Import Prelude Text Json EventChain EventLog Footprint Fsm Review Db Auth TxLogic AuditTrail Claimability Threads Deps Tokens OAuthStore OAuthClients Attributes Gates LandGate Packets Landing Dispatch Access TokenRoutes.
Local Open Scope req_scope.

Inductive Refused :=
| NotCode | UnknownClient | ClientRevoked | MetadataHost | MetadataDocument | NoRedirects | BadRedirects
| RedirectMismatch | NotS256 | NoChallenge | NoState | EmptyScope | ScopeNotDelegatable (cap : str)
| ScopeNotAllowed (cap : str) | ScopeExceedsMember (cap : str) | WrongTarget | TokenSession | CrossOrigin | BadRequestId.

(** The errors of the routes that answer with a problem. *)
Inductive OApiError :=
| ONotFound
| OForbidden (why : Refused)
| OBadRequest (why : Refused)
| OAuth_ (e : AuthError)
| OStore (e : StoreError)
| OInternal
| ORegistration (e : RegistrationError)
| OTooManyRequests.

(** A client is its row with its [client_id]. *)
Definition OAuthClient : Type := str * OAuthClientRow.

Record SessionContext := { se_member : N; se_ws : N; se_token : option AuthContext }.

Record AuthorizeQuery := {
  aq_client : str; aq_redirect : str; aq_challenge : str; aq_method : str; aq_scope : option str; aq_state : str;
  aq_resource : option str; aq_response_type : str
}.

Record OAuthTokenRequest := {
  tr_grant_type : option str; tr_code : option str; tr_redirect : option str; tr_client : option str;
  tr_verifier : option str; tr_secret : option str; tr_resource : option str; tr_refresh : option str;
  tr_scope : option str
}.
Record OAuthTokenResponse := { ts_access : str; ts_expires_in : Z; ts_refresh : str; ts_scope : list str }.
Record OAuthRevokeRequest := {
  rv_token : option str; rv_hint : option str; rv_client : option str; rv_secret : option str
}.

Section env.
Context `{JsonText, Sha256, Env, Web, OAuthConfig}.

Definition rwhen (b : bool) {E} (m : Req E unit) : Req E unit := if b then m else rret tt.

(** ** Clients *)

Definition fetch (url : str) : Req OApiError ClientMetadataDocument :=
  fun w => match fetch_document (ticks w) url with
           | FetchFailed => (Err OInternal, w)
           | FetchStatus | FetchGarbled => (Err (OBadRequest MetadataDocument), w)
           | FetchedDoc doc => (Ok doc, w)
           end.

(** A client from its metadata document, through the fetch guard. *)
Definition resolve_document (client_id : str) : Req OApiError OAuthClient :=
  match url_parse client_id with
  | None => rfail (OBadRequest UnknownClient)
  | Some u =>
      rwhen (negb (bool_decide (url_scheme u = lit "https"))) (rfail (OBadRequest UnknownClient)) ;;
      rwhen (bool_decide (url_host_str u = None)) (rfail (OBadRequest UnknownClient)) ;;
      rwhen (negb (allows_host metadata_hosts u)) (rfail (OForbidden MetadataHost)) ;;
      doc <- fetch client_id ;;
      rwhen (bool_decide (cd_redirects doc = [])) (rfail (OBadRequest NoRedirects)) ;;
      rwhen (negb (validate_redirect_uris (cd_redirects doc))) (rfail (OBadRequest BadRedirects)) ;;
      found <- call OStore (upsert_metadata_client
                 {| nk_client := client_id; nk_name := default client_id (cd_name doc); nk_redirects := cd_redirects doc;
                    nk_secret := None; nk_scopes := document_scopes (cd_scope doc) |} client_id) ;;
      match found with Some c => rret (client_id, c) | None => rfail (OBadRequest ClientRevoked) end
  end.

Definition resolve_client (client_id : str) : Req OApiError OAuthClient :=
  found <- call OStore (get_client_by_client_id client_id) ;;
  match found with
  | Some c =>
      rwhen (bool_decide (is_Some (oc_revoked c))) (rfail (OBadRequest ClientRevoked)) ;;
      rwhen (negb (client_enabled c)) (rfail (OBadRequest UnknownClient)) ;;
      if decide (oc_metadata c = None) then rret (client_id, c) else resolve_document client_id
  | None => resolve_document client_id
  end.

(** The clients of [MAIDAN_OAUTH_CLIENTS], from the parsed list on; how many were
    new. *)
Fixpoint load_preregistered_clients (clients : list NewOAuthClient) : Req OApiError nat :=
  match clients with
  | [] => rret 0
  | c :: rest =>
      rwhen (negb (validate_redirect_uris (nk_redirects c))) (rfail OInternal) ;;
      found <- call OStore (get_client_by_client_id (nk_client c)) ;;
      match found with
      | Some _ => load_preregistered_clients rest
      | None =>
          call OStore (insert_client c) ;;
          inserted <- load_preregistered_clients rest ;;
          rret (S inserted)
      end
  end.

Definition authenticate_preregistered (creds : ClientCredentials) : Req OAuthError (option OAuthClient) :=
  found <- call server_error (get_client_by_client_id (cc_client creds)) ;;
  match found with
  | None => rret None
  | Some c =>
      if decide (is_Some (oc_metadata c)) then rret None
      else
        rwhen (negb (client_enabled c)) (rfail (invalid_client creds)) ;;
        check_ (fun e => e) (check_secret c creds) ;;
        rret (Some (cc_client creds, c))
  end.

Definition authenticate_in (creds : ClientCredentials) (preregistered : option OAuthClient) : Req OAuthError OAuthClient :=
  match preregistered with
  | Some c => rret c
  | None =>
      rwhen (bool_decide (is_Some (cc_secret creds))) (rfail (invalid_client creds)) ;;
      fun w => match resolve_client (cc_client creds) w with
               | (Ok c, w') => (Ok c, w')
               | (Err _, w') => (Err (invalid_client creds), w')
               end
  end.

(** ** Authorize ([authorize.rs]) *)

Definition PENDING_TTL_SECS : Z := 600.

(** The first scope the request may not have. *)
Fixpoint check_scopes (auth : AuthContext) (client : OAuthClientRow) (scope : list str) : result OApiError unit :=
  match scope with
  | [] => Ok tt
  | cap :: rest =>
      if negb (is_delegatable cap) then Err (OBadRequest (ScopeNotDelegatable cap))
      else if negb (holds (oc_scopes client) cap) then Err (OBadRequest (ScopeNotAllowed cap))
      else if negb (has_capability auth cap) then Err (OForbidden (ScopeExceedsMember cap))
      else check_scopes auth client rest
  end.

Definition authorize (auth : AuthContext) (q : AuthorizeQuery) : Req OApiError (N * OAuthPendingRow) :=
  match public_origin with
  | None => rfail ONotFound
  | Some origin =>
      check_ OAuth_ (require_capability auth WORKSPACE_READ) ;;
      rwhen (negb (bool_decide (aq_response_type q = lit "code"))) (rfail (OBadRequest NotCode)) ;;
      client <- resolve_client (aq_client q) ;;
      rwhen (negb (redirect_uri_matches (oc_redirects client.2) (aq_redirect q))) (rfail (OBadRequest RedirectMismatch)) ;;
      rwhen (negb (bool_decide (aq_method q = lit "S256"))) (rfail (OBadRequest NotS256)) ;;
      rwhen (bool_decide (trim (aq_challenge q) = [])) (rfail (OBadRequest NoChallenge)) ;;
      rwhen (bool_decide (trim (aq_state q) = [])) (rfail (OBadRequest NoState)) ;;
      let scope := match words (aq_scope q) with
                   | [] => List.filter (fun c => is_delegatable c && has_capability auth c) (oc_scopes client.2)
                   | requested => requested
                   end in
      rwhen (bool_decide (scope = [])) (rfail (OBadRequest EmptyScope)) ;;
      check_ (fun e => e) (check_scopes auth client.2 scope) ;;
      rwhen (negb (bool_decide (aq_resource q = Some (mcp_resource origin)))) (rfail (OBadRequest WrongTarget)) ;;
      now <- call OStore utc_now ;;
      call OStore (create_pending_request
        {| np_client := client.1; np_member := ac_member auth; np_ws := ac_workspace auth; np_redirect := aq_redirect q;
           np_challenge := aq_challenge q; np_scope := btree_set scope; np_resource := aq_resource q;
           np_state := aq_state q; np_expires := (now + secs PENDING_TTL_SECS)%Z |})
  end.

(** ** Consent ([consent.rs]) *)

Definition CODE_TTL_SECS : Z := 600.

Definition grant_fields (p : OAuthPendingRow) (g : N * OAuthGrantRow) : list (str * Value) :=
  [(lit "client_id", Str (op_client p)); (lit "scope", caps_json (op_scope p));
   (lit "lineage_id", id_json (og_lineage g.2)); (lit "member_id", id_json (op_member p))].
Definition grant_audit_for (p : OAuthPendingRow) (g : N * OAuthGrantRow) : NewAuditEvent :=
  {| na_scope := ScopeWorkspace (op_ws p); na_actor := Some (op_member p); na_action := lit "oauth_grant.create";
     na_target_kind := Some (lit "oauth_grant"); na_target_id := Some g.1; na_metadata := Object (grant_fields p g) |}.

(** A grant of the same client, member, workspace and scope, or a new one; losing
    the race to another consent is no error. *)
Definition ensure_grant (p : OAuthPendingRow) : Req OApiError unit :=
  found <- call OStore (find_grant (op_client p) (op_member p) (op_ws p) (op_scope p)) ;;
  match found with
  | Some _ => rret tt
  | None =>
      lineage <- call OStore new_uuid ;;
      fun w => match insert_grant_audited {| nl_client := op_client p; nl_member := op_member p; nl_ws := op_ws p;
                                             nl_scope := op_scope p; nl_lineage := lineage |} (grant_audit_for p) w with
               | (Ok _, w') => (Ok tt, w')
               | (Err (Conflict _), w') => (Ok tt, w')
               | (Err e, w') => (Err (OStore e), w')
               end
  end.

Definition issuer_param : str :=
  match public_origin with Some origin => lit "&iss=" ++ percent_encode origin | None => [] end.
Definition separator (uri : str) : N := if bool_decide (63%N ∈ uri) then 38%N else 63%N.

(** The redirect a decision answers with; [code] is the code generated. *)
Definition decide_consent (session : SessionContext) (h : Headers) (request : option N) (approved : bool) (code : str) :
    Req OApiError str :=
  rwhen (bool_decide (is_Some (se_token session))) (rfail (OForbidden TokenSession)) ;;
  rwhen (negb (require_same_origin h)) (rfail (OForbidden CrossOrigin)) ;;
  match request with
  | None => rfail (OBadRequest BadRequestId)
  | Some id =>
      now <- call OStore utc_now ;;
      found <- call OStore (consume_pending_request id (se_member session) (se_ws session) now) ;;
      match found with
      | None => rfail ONotFound
      | Some p =>
          if negb approved
          then rret (op_redirect p ++ [separator (op_redirect p)] ++ lit "error=access_denied&state="
                     ++ percent_encode (op_state p) ++ issuer_param)
          else
            ensure_grant p ;;
            grant <- call OStore (find_grant (op_client p) (op_member p) (op_ws p) (op_scope p)) ;;
            at_ <- call OStore utc_now ;;
            call OStore (insert_code
              {| nd_hash := opaque_hash code; nd_client := op_client p; nd_member := op_member p; nd_ws := op_ws p;
                 nd_redirect := op_redirect p; nd_challenge := op_challenge p; nd_scope := op_scope p;
                 nd_resource := op_resource p; nd_expires := (at_ + secs CODE_TTL_SECS)%Z;
                 nd_lineage := (fun g : N * OAuthGrantRow => og_lineage g.2) <$> grant |}) ;;
            rret (op_redirect p ++ [separator (op_redirect p)] ++ lit "code=" ++ percent_encode code ++ lit "&state="
                  ++ percent_encode (op_state p) ++ issuer_param)
      end
  end.

(** ** Tokens ([token.rs]) *)

Definition ACCESS_TOKEN_TTL_SECS : Z := 3600.
Definition REFRESH_TOKEN_TTL_DAYS : Z := 30.

Definition lineage_audit_as (reason client : str) (actor : option N) (r : OAuthLineageRevocation) : NewAuditEvent :=
  {| na_scope := match lv_ws r with Some ws => ScopeWorkspace ws | None => ScopeInstance end; na_actor := actor;
     na_action := lit "oauth_lineage.revoke"; na_target_kind := Some (lit "oauth_lineage");
     na_target_id := Some (lv_lineage r);
     na_metadata := Object [(lit "reason", Str reason); (lit "client_id", Str client);
                            (lit "grants_revoked", Num (Int (Z.of_nat (lv_grants r))));
                            (lit "access_tokens_revoked", Num (Int (Z.of_nat (lv_access r))));
                            (lit "refresh_tokens_revoked", Num (Int (Z.of_nat (lv_refresh r))))] |}.
Definition lineage_audit (reason client : str) : OAuthLineageRevocation -> NewAuditEvent :=
  lineage_audit_as reason client None.

Definition mint_audit (g : N * OAuthGrantRow) (source : str) (t : N * TokenRow) : NewAuditEvent :=
  {| na_scope := ScopeWorkspace (tk_ws t.2); na_actor := None; na_action := lit "oauth_token.mint";
     na_target_kind := Some (lit "api_token"); na_target_id := Some t.1;
     na_metadata := Object [(lit "client_id", Str (og_client g.2)); (lit "oauth_grant_id", id_json g.1);
                            (lit "lineage_id", id_json (og_lineage g.2));
                            (lit "capabilities", caps_json (tk_capabilities t.2)); (lit "source", Str source)] |}.

Definition oauth_label (client : str) : option str := Some (lit "oauth:" ++ client).

Definition note_registered_client_used (c : OAuthClient) : Req OAuthError unit :=
  match oc_registered c.2 with
  | None => rret tt
  | Some _ => now <- call server_error utc_now ;; call server_error (mark_registered_client_used c.1 now)
  end.

Definition revoke_for_reused_code (hash client : str) : Req OAuthError unit :=
  call server_error (revoke_lineage_for_used_code hash (lineage_audit (lit "code_reuse") client)) ;; rret tt.

Definition grant_of (c : OAuthCodeRow) : Req OAuthError (N * OAuthGrantRow) :=
  found <- call server_error (find_grant (co_client c) (co_member c) (co_ws c) (co_scope c)) ;;
  match found with Some g => rret g | None => rfail (oauth_error InvalidGrant) end.

Definition token_response (access refresh : str) (t : N * TokenRow) : OAuthTokenResponse :=
  {| ts_access := access; ts_expires_in := ACCESS_TOKEN_TTL_SECS; ts_refresh := refresh; ts_scope := tk_capabilities t.2 |}.

Definition denied : OAuthError := oauth_error InvalidGrant.

(** The pair minted under the grant a code was consented to. *)
Definition mint_pair (g : N * OAuthGrantRow) (resource access refresh : str) : Req OAuthError (N * TokenRow) :=
  now <- call server_error utc_now ;;
  later <- call server_error utc_now ;;
  call server_error (mint_token_pair_audited
    {| nt_ws := og_ws g.2; nt_member := og_member g.2; nt_app := None; nt_hash := hash_secret access;
       nt_label := oauth_label (og_client g.2); nt_capabilities := og_scope g.2;
       nt_expires := Some (now + secs ACCESS_TOKEN_TTL_SECS)%Z |} g.1
    {| nr_hash := opaque_hash refresh; nr_grant := g.1; nr_lineage := og_lineage g.2; nr_client := og_client g.2;
       nr_resource := resource; nr_expires := (later + days REFRESH_TOKEN_TTL_DAYS)%Z |}
    (mint_audit g (lit "oauth_code_exchange"))).

Definition exchange_code (origin : str) (creds : ClientCredentials) (preregistered : option OAuthClient)
    (form : OAuthTokenRequest) (access refresh : str) : Req OAuthError OAuthTokenResponse :=
  code <- check_ (fun e => e) (required (tr_code form)) ;;
  redirect <- check_ (fun e => e) (required (tr_redirect form)) ;;
  verifier <- check_ (fun e => e) (required (tr_verifier form)) ;;
  let hash := opaque_hash code in
  found <- call server_error (get_code hash) ;;
  match found with
  | None => rfail denied
  | Some pending =>
      rwhen (negb (bool_decide (co_client pending = cc_client creds))) (rfail denied) ;;
      rwhen (bool_decide (is_Some (co_used pending)))
        (rwhen (bool_decide (opaque_hash verifier = co_challenge pending)) (revoke_for_reused_code hash (cc_client creds)) ;;
         rfail denied) ;;
      client <- authenticate_in creds preregistered ;;
      now <- call server_error utc_now ;;
      rwhen (co_expires pending <=? now)%Z (rfail denied) ;;
      rwhen (negb (bool_decide (co_redirect pending = redirect))) (rfail denied) ;;
      resource <- check_ (fun e => e) (require_resource (tr_resource form) origin) ;;
      rwhen (negb (bool_decide (co_resource pending = Some resource))) (rfail denied) ;;
      rwhen (negb (bool_decide (opaque_hash verifier = co_challenge pending))) (rfail denied) ;;
      check_ (fun e => e) (client_allows client.2 (co_scope pending)) ;;
      spent <- call server_error (consume_code hash) ;;
      match spent with
      | None => revoke_for_reused_code hash (cc_client creds) ;; rfail denied
      | Some _ =>
          grant <- grant_of pending ;;
          rwhen (negb (forallb is_known (og_scope grant.2))) (rfail (oauth_error InvalidScope)) ;;
          record <- mint_pair grant resource access refresh ;;
          note_registered_client_used client ;;
          rret (token_response access refresh record)
      end
  end.

Definition refresh_grant (origin : str) (creds : ClientCredentials) (preregistered : option OAuthClient)
    (form : OAuthTokenRequest) (access refresh : str) : Req OAuthError OAuthTokenResponse :=
  presented <- check_ (fun e => e) (required (tr_refresh form)) ;;
  let hash := opaque_hash presented in
  found <- call server_error (get_refresh_token hash) ;;
  match found with
  | None => rfail denied
  | Some stored =>
      rwhen (negb (bool_decide (or_client stored = cc_client creds))) (rfail denied) ;;
      rwhen (bool_decide (is_Some (or_used stored)))
        (call server_error (revoke_lineage_audited (or_lineage stored) (lineage_audit (lit "refresh_token_reuse") (cc_client creds))) ;;
         rfail denied) ;;
      rwhen (bool_decide (is_Some (or_revoked stored))) (rfail denied) ;;
      now <- call server_error utc_now ;;
      rwhen (or_expires stored <=? now)%Z (rfail denied) ;;
      live <- call server_error (get_oauth_grant (or_grant stored)) ;;
      match live with
      | None => rfail denied
      | Some grant =>
          client <- authenticate_in creds preregistered ;;
          resource <- check_ (fun e => e) (require_resource (tr_resource form) origin) ;;
          rwhen (negb (bool_decide (resource = or_resource stored))) (rfail (oauth_error InvalidTarget)) ;;
          scope <- check_ (fun e => e) (narrowed_scope (tr_scope form) (og_scope grant)) ;;
          check_ (fun e => e) (client_allows client.2 scope) ;;
          expires <- call server_error utc_now ;;
          later <- call server_error utc_now ;;
          outcome <- call server_error (rotate_refresh_token
            {| ro_presented := hash; ro_access_hash := hash_secret access; ro_access_label := oauth_label (og_client grant);
               ro_access_caps := scope; ro_access_expires := (expires + secs ACCESS_TOKEN_TTL_SECS)%Z;
               ro_refresh_hash := opaque_hash refresh; ro_refresh_expires := (later + days REFRESH_TOKEN_TTL_DAYS)%Z |}
            (mint_audit (or_grant stored, grant) (lit "oauth_refresh"))
            (lineage_audit (lit "refresh_token_reuse") (cc_client creds))) ;;
          match outcome with
          | Rotated record _ => note_registered_client_used client ;; rret (token_response access refresh record)
          | Reused _ | RefreshInvalid => rfail denied
          end
      end
  end.

(** [POST /oauth/token]. *)
Definition token (h : Headers) (form : OAuthTokenRequest) (access refresh : str) : Req OAuthError OAuthTokenResponse :=
  match public_origin with
  | None => rfail (oauth_error ServerError)
  | Some origin =>
      match non_empty (tr_grant_type form) with
      | None => rfail (oauth_error InvalidRequest)
      | Some grant_type =>
          let by_code := bool_decide (grant_type = lit "authorization_code") in
          rwhen (negb by_code && negb (bool_decide (grant_type = lit "refresh_token"))) (rfail (oauth_error UnsupportedGrantType)) ;;
          creds <- check_ (fun e => e) (credentials h (tr_client form) (tr_secret form)) ;;
          preregistered <- authenticate_preregistered creds ;;
          (match preregistered with
           | None => check_ (fun e => e) (require_known_shape creds)
           | Some _ => rret tt
           end) ;;
          if by_code then exchange_code origin creds preregistered form access refresh
          else refresh_grant origin creds preregistered form access refresh
      end
  end.

(** ** Revocation ([revoke.rs] and [grants.rs]) *)

Definition revoke_refresh (client token : str) : Req OAuthError bool :=
  found <- call server_error (get_refresh_token (opaque_hash token)) ;;
  match found with
  | None => rret false
  | Some stored =>
      rwhen (bool_decide (or_client stored = client))
        (call server_error (revoke_lineage_audited (or_lineage stored) (lineage_audit (lit "client_revocation") client)) ;;
         rret tt) ;;
      rret true
  end.

Definition revoke_audit (client : str) (t : N * TokenRow) : NewAuditEvent :=
  {| na_scope := ScopeWorkspace (tk_ws t.2); na_actor := None; na_action := lit "oauth_token.revoke";
     na_target_kind := Some (lit "api_token"); na_target_id := Some t.1;
     na_metadata := Object [(lit "client_id", Str client); (lit "oauth_grant_id", opt_json id_json (tk_oauth t.2));
                            (lit "source", Str (lit "oauth_revocation_endpoint"))] |}.
Definition revoke_access (client token : str) : Req OAuthError bool :=
  revoked <- call server_error (revoke_access_token_audited (hash_secret token) client (revoke_audit client)) ;;
  rret (bool_decide (is_Some revoked)).

(** [POST /oauth/revoke]: the hint says where to look first. *)
Definition revoke_endpoint (h : Headers) (form : OAuthRevokeRequest) : Req OAuthError unit :=
  creds <- check_ (fun e => e) (credentials h (rv_client form) (rv_secret form)) ;;
  preregistered <- authenticate_preregistered creds ;;
  (match preregistered with
   | None => check_ (fun e => e) (require_known_shape creds)
   | Some _ => rret tt
   end) ;;
  token <- check_ (fun e => e) (required (rv_token form)) ;;
  let client := cc_client creds in
  if decide (rv_hint form = Some (lit "access_token"))
  then found <- revoke_access client token ;; rwhen (negb found) (revoke_refresh client token ;; rret tt)
  else found <- revoke_refresh client token ;; rwhen (negb found) (revoke_access client token ;; rret tt).

(** The member's own grant, its whole lineage. *)
Definition revoke_member_grant (session : SessionContext) (h : Headers) (grant : N) : Req OApiError unit :=
  rwhen (bool_decide (is_Some (se_token session))) (rfail (OForbidden TokenSession)) ;;
  rwhen (negb (require_same_origin h)) (rfail (OForbidden CrossOrigin)) ;;
  found <- call OStore (get_oauth_grant grant) ;;
  match found with
  | Some g =>
      if decide (og_ws g = se_ws session /\ og_member g = se_member session)
      then call OStore (revoke_lineage_audited (og_lineage g)
                          (lineage_audit_as (lit "member_revocation") (og_client g) (Some (se_member session)))) ;;
           rret tt
      else rfail ONotFound
  | None => rfail ONotFound
  end.

(** ** Registration ([register.rs]) *)

Definition MAX_UNAUTHORIZED_CLIENTS : Z := 10000.
(** [Uuid::simple]. *)
Definition uuid_simple (n : N) : str := List.filter (fun c => negb (c =? 45)%N) (uuid_text n).

(** From the parsed request on. *)
Definition register (r : ClientRegistrationRequest) : Req OApiError OAuthClient :=
  match public_origin, dynamic_registration with
  | Some _, Some hosts =>
      new <- check_ ORegistration (validate_registration r hosts) ;;
      id <- call OStore new_uuid ;;
      let new := new (lit "dyn-" ++ uuid_simple id) in
      waiting <- call OStore count_unauthorized_registered_clients ;;
      rwhen (MAX_UNAUTHORIZED_CLIENTS <=? waiting)%Z (rfail OTooManyRequests) ;;
      now <- call OStore utc_now ;;
      row <- call OStore (insert_registered_client new now) ;;
      rret (nk_client new, row)
  | _, _ => rfail ONotFound
  end.

Definition UNAUTHORIZED_TTL_SECS : Z := 24 * 3600.
Definition UNUSED_TTL_DAYS : Z := 90.
Definition sweep_clients (now : Z) : Tx nat :=
  sweep_registered_clients (now - secs UNAUTHORIZED_TTL_SECS)%Z (now - days UNUSED_TTL_DAYS)%Z.
End env.
