(* ===== verification/Sweeper.v ===== *)
(** * The wait sweeper

    [crates/maidan-server/src/wait_sweeper.rs] over the store, with [publish] of
    [crates/maidan-server/src/routes/mod.rs] up to the notification of the bus:
    one tick fires the waits that are due and escalates each. *)

From stdpp Require Import strings.
From S2P Require Import Prelude Text Json EventChain EventLog Footprint Fsm Review Db Budget Claimability Threads Dispatch.
Local Open Scope tx_scope.

(** A store call whose error the caller handles. *)
Definition attempt {A} (m : Tx A) : Tx (result StoreError A) := fun w => let '(r, w') := m w in (Ok r, w').

Definition MAX_FIRINGS_PER_TICK : nat := Nat.mul 10 100.
Definition EVENT_APPEND_ATTEMPTS : nat := 3.

Definition policy_as_str (p : EscalationPolicy) : str := match p with Notify => lit "notify" | Park => lit "park" end.

Section env.
Context `{JsonText, Sha256, Env}.

(** [retry]: up to [attempts] tries, at least one; the first success or the last
    error. *)
Fixpoint retry_from {A} (more : nat) (op : Tx A) : Tx (result StoreError A) :=
  r <- attempt op ;;
  match r, more with
  | Err _, S more => retry_from more op
  | r, _ => ret r
  end.
Definition retry {A} (attempts : nat) (op : Tx A) : Tx (result StoreError A) := retry_from (attempts - 1) op.

(** [events::append] commits the event with its outbox row. *)
Definition append_one (e : Event) : Tx EventRow := commit (append_in_tx e).

(** The event's log id, when an append went through. *)
Definition publish (e : Event) : Tx (option Z) :=
  first <- attempt (append_one e) ;;
  match first with
  | Ok row => ret (Some (e_id row))
  | Err _ =>
      retried <- retry EVENT_APPEND_ATTEMPTS (append_one e) ;;
      match retried with Ok row => ret (Some (e_id row)) | Err _ => ret None end
  end.

Definition timeout_reason (reason : option str) : str :=
  match reason with Some r => lit "wait timed out: " ++ r | None => lit "wait timed out" end.

Definition escalate (thread : N) (wait : WaitRow) : Tx unit :=
  found <- attempt (get thread) ;;
  match found with
  | Err _ => ret tt
  | Ok t =>
      channel <- attempt (c <- read (fun d => channels d !! t_channel t) ;; ok_or c NotFound) ;;
      match channel with
      | Err _ => ret tt
      | Ok c =>
          (match wt_policy wait with
           | Park => attempt (mark_unclaimable thread (timeout_reason (wt_reason wait)) (wt_by wait)) ;; ret tt
           | Notify => ret tt
           end) ;;
          now <- utc_now ;;
          publish (WaitTimedOut now (c_ws c) (t_channel t) thread (policy_as_str (wt_policy wait)) (wt_reason wait)) ;;
          ret tt
      end
  end.

(** The [while] loop with [more] firings to go: the waits fired. *)
Fixpoint sweep_loop (more : nat) (now : Z) : Tx nat :=
  match more with
  | O => ret 0
  | S more =>
      claimed <- attempt (claim_next_due now) ;;
      match claimed with
      | Ok (Some (thread, wait)) =>
          escalate thread wait ;;
          fired <- sweep_loop more now ;;
          ret (S fired)
      | Ok None | Err _ => ret 0
      end
  end.

Definition sweep_once : Tx nat :=
  now <- utc_now ;;
  sweep_loop MAX_FIRINGS_PER_TICK now.
End env.
