(* ===== verification/Governance.v ===== *)
(** * Cancelling, freezing and the audited governance writes

    [crates/maidan-store/src/sqlite/cancel.rs],
    [crates/maidan-store/src/sqlite/member_freezes.rs] and, of
    [crates/maidan-store/src/sqlite/governance_audited.rs], the writes that
    change what a thread's close needs and who may act. *)

From stdpp Require Import strings.
From S2P Require Import Prelude Text Json EventChain EventLog Footprint Fsm Review Db Budget AuditTrail Claimability Threads Deps Attributes Gates LandGate Packets Landing Reviews Closing Dispatch.
Local Open Scope tx_scope.

(** ** Cancelling ([cancel.rs]) *)

Inductive CancelAuthority := AuthorityTransition | AuthorityCreator.
Inductive CancelOutcome :=
| Cancelled (row : ThreadRow) (c : CancellationRow) (events : list EventRow)
| AlreadyCancelled (row : ThreadRow) (c : CancellationRow)
| NotCreator
| AlreadyFinished (s : ThreadState).

Definition cancel_body (reason : str) : str := lit "Cancelled: " ++ reason.
Definition cancel_metadata (reason : str) : Value :=
  Object [(lit "notice", Str (lit "cancelled")); (lit "reason", Str reason)].

Record ReviewRequirementChange := {
  rc_previous_count : Z; rc_previous_max_rounds : Z; rc_requirement : RequirementRow
}.

Section env.
Context `{JsonText, Sha256, Env}.

(** Straight to closed, around the transition gates. *)
Definition cancel_in_tx (thread actor : N) (reason : str) (authority : CancelAuthority) : Tx CancelOutcome :=
  row <- read (fun d => threads d !! thread) ;;
  t <- ok_or row NotFound ;;
  if negb (live t) then fail NotFound
  else if match authority with AuthorityCreator => negb (bool_decide (t_created_by t = Some actor)) | _ => false end
  then ret NotCreator
  else
    cancelled <- read (fun d => thread_cancellations d !! thread) ;;
    match cancelled with
    | Some c => ret (AlreadyCancelled t c)
    | None =>
        if is_terminal (t_state t) then ret (AlreadyFinished (t_state t))
        else
          now <- utc_now ;;
          id <- new_uuid ;;
          member_fk actor ;;
          write (upd_thread_transitions
                   (fun l => l ++ [{| tr_id := id; tr_thread := thread; tr_from := t_state t; tr_to := Closed;
                                      tr_actor := actor; tr_at := now |}])) ;;
          charge_open_claim_in_tx thread ;;
          closed <- update_thread thread (fun _ _ => true) (move_to Closed now) ;;
          closed <- ok_or closed Database ;;
          write (upd_thread_unclaimable
                   (fun m => <[thread := {| uc_reason := reason; uc_by := actor; uc_at := now |}]> m)) ;;
          let c := {| cn_reason := reason; cn_by := actor; cn_at := now |} in
          write (upd_thread_cancellations (fun m => <[thread := c]> m)) ;;
          changed <- state_changed_in_tx actor {| tt_id := thread; tt_thread := closed; tt_from := t_state t; tt_to := Closed |} ;;
          scope <- thread_scope_in_tx thread ;;
          ended <- append_in_tx (ThreadCancelled now scope.1 scope.2 thread reason actor) ;;
          mid <- new_uuid ;;
          let m := {| mg_thread := thread; mg_author := actor; mg_body := cancel_body reason;
                      mg_metadata := cancel_metadata reason; mg_posted := now |} in
          write (upd_messages (fun ms => <[mid := m]> ms)) ;;
          bump_version thread ;;
          posted <- append_sealed_in_tx (MessagePosted now scope.1 scope.2 thread mid m) ;;
          owed <- after_close_in_tx thread actor ;;
          ret (Cancelled closed c (changed :: ended :: posted :: owed))
    end.

Definition cancel (thread actor : N) (reason : str) (authority : CancelAuthority) : Tx CancelOutcome :=
  commit (cancel_in_tx thread actor reason authority).

(** ** Freezing a member ([member_freezes.rs]) *)

Definition member_workspace_in_tx (member : N) : Tx N :=
  ws <- read (fun d => m_ws <$> members d !! member) ;; ok_or ws NotFound.

Definition freeze_on (member frozen_by : N) (reason : option str) : Tx (FreezeRow * nat * EventRow) :=
  now <- utc_now ;;
  ws <- member_workspace_in_tx member ;;
  member_fk frozen_by ;;
  let freeze := {| fz_at := now; fz_by := frozen_by; fz_reason := reason |} in
  write (upd_member_freezes (fun m => <[member := freeze]> m)) ;;
  released <- release_member_claims_in_tx member ;;
  stored <- append_in_tx (MemberFrozen now ws member frozen_by reason (Z.min (Z.of_nat released) I64_MAX)) ;;
  ret (freeze, released, stored).

Definition unfreeze_on (member unfrozen_by : N) : Tx (option EventRow) :=
  frozen <- read (fun d => bool_decide (is_Some (member_freezes d !! member))) ;;
  if negb frozen then ret None
  else
    write (upd_member_freezes (delete member)) ;;
    ws <- member_workspace_in_tx member ;;
    at_ <- utc_now ;;
    stored <- append_in_tx (MemberUnfrozen at_ ws member unfrozen_by) ;;
    ret (Some stored).

Definition is_frozen (member : N) : Tx bool := read (fun d => bool_decide (is_Some (member_freezes d !! member))).
Definition get_freeze (member : N) : Tx (option FreezeRow) := read (fun d => member_freezes d !! member).
Definition list_freezes (ws : N) : Tx (list (N * FreezeRow)) :=
  read (fun d => order_by (fun e => [(- fz_at e.2)%Z])
                   (List.filter (fun e => bool_decide (m_ws <$> members d !! e.1 = Some ws))
                      (map_to_list (member_freezes d)))).

(** ** The audited writes ([governance_audited.rs]) *)

(** [audited!]: the change and, when it says so, its record, in one commit. *)
Definition audited {A} (owner : AuditOwner) (change : Tx A) (event : A -> option NewAuditEvent) : Tx A :=
  commit
    (a <- change ;;
     (match event a with Some new => append_scoped owner new ;; ret tt | None => ret tt end) ;;
     ret a).

Definition freeze_member (member frozen_by : N) (reason : option str) (audit_for : FreezeRow * nat -> NewAuditEvent) :
    Tx (FreezeRow * nat * EventRow) :=
  audited (OwnerMember member) (freeze_on member frozen_by reason) (fun r => Some (audit_for r.1)).
Definition unfreeze_member (member unfrozen_by : N) (new : NewAuditEvent) : Tx (option EventRow) :=
  audited (OwnerMember member) (unfreeze_on member unfrozen_by) (fun r => (fun _ => new) <$> r).

(** The requirement it replaces is read in the same transaction. *)
Definition set_review_requirement (thread : N) (required : Z) (max_rounds : option Z) (allow_lower : bool)
    (audit_for : ReviewRequirementChange -> NewAuditEvent) : Tx ReviewRequirementChange :=
  audited (OwnerThread thread)
    (existing <- get_requirement thread ;;
     let previous_count := from_option rq_count 0%Z existing in
     let previous_rounds := from_option rq_max_rounds DEFAULT_MAX_REVIEW_ROUNDS existing in
     (if (required <? previous_count)%Z && negb allow_lower then fail (Conflict LowerRefused) else ret tt) ;;
     (match max_rounds with
      | Some next =>
          if (next <? 0)%Z then fail (InvalidInput NegativeCount)
          else if max_rounds_loosens previous_rounds next && negb allow_lower then fail (Conflict LoosenRefused)
          else ret tt
      | None => ret tt
      end) ;;
     requirement <- set_requirement_on thread required max_rounds ;;
     ret {| rc_previous_count := previous_count; rc_previous_max_rounds := previous_rounds;
            rc_requirement := requirement |})
    (fun change => Some (audit_for change)).

Definition clear_review_requirement (thread : N) (new : NewAuditEvent) : Tx bool :=
  audited (OwnerThread thread) (clear_requirement_on thread) (fun cleared => if cleared then Some new else None).
Definition remove_reviewer (thread member : N) (new : NewAuditEvent) : Tx bool :=
  audited (OwnerThread thread) (remove_reviewer_on thread member) (fun removed => if removed then Some new else None).
Definition clear_land_gate (thread : N) (new : NewAuditEvent) : Tx bool :=
  audited (OwnerThread thread) (clear_on thread) (fun cleared => if cleared then Some new else None).
Definition grant_governance_skill (member : N) (skill : str) (new : NewAuditEvent) : Tx unit :=
  audited (OwnerMember member) (add_skill_on member skill) (fun _ => Some new).
End env.
