(* ===== verification/StoreRels.v ===== *)
(** * Relations carried through the store's operations

    [ClaimRel] and [StoreRel] are the relations between worlds that the writes
    outside [maidan_threads] keep. The lemmas of this file carry such a relation
    through the helpers the operations share; [guarded] strengthens one by a
    condition on the thread and plan tables that no helper disturbs. *)

From stdpp Require Import strings.
From S2P Require Import Prelude Text Json EventChain EventLog Footprint Fsm Db Budget TxLogic AuditTrail Claimability Threads Deps Usage.
Local Open Scope tx_scope.

Section appends.
Context `{JsonText, Sha256, Env}.

(** The row an append adds to the outbox. *)
Definition enqueued (o : Outbox) (log_id now : Z) : OutboxRow :=
  {| o_id := o_seq o + 1; o_log := log_id; o_created := now; o_published := None;
     o_attempts := 0; o_quarantined := None; o_claimed := None |}%Z.

(** An append, in one step. *)
Lemma append_event_eq seal e w :
  append_event seal e w
  = match append_with_keys_in_tx seal (clock (ticks w)) (new_event e) (log (db w)) with
    | Ok (row, l) =>
        (Ok row, {| db := upd_outbox (fun o => {| o_rows := o_rows o ++ [enqueued o (e_id row) (clock (S (ticks w)))];
                                                  o_seq := (o_seq o + 1)%Z |})
                            (upd_log (fun _ => l) (db w));
                    ticks := S (S (ticks w)); ids := ids w |})
    | Err e => (Err (InvalidInput (BadEvent e)), {| db := db w; ticks := S (ticks w); ids := ids w |})
    end.
Proof.
  unfold append_event.
  rewrite (bind_Ok utc_now _ w (clock (ticks w)) {| db := db w; ticks := S (ticks w); ids := ids w |}) by done.
  rewrite (bind_Ok (read log) _ _ (log (db w)) {| db := db w; ticks := S (ticks w); ids := ids w |}) by done.
  by destruct (append_with_keys_in_tx _ _ _ _) as [[row l]|].
Qed.

(** Every payload has a content hash. *)
Lemma content_hash_total v : exists h, content_hash v = Ok h.
Proof. unfold content_hash, canonical_json. by eexists. Qed.

(** An event is always stored. *)
Lemma append_event_total seal e w :
  exists row l, append_event seal e w
    = (Ok row, {| db := upd_outbox (fun o => {| o_rows := o_rows o ++ [enqueued o (e_id row) (clock (S (ticks w)))];
                                               o_seq := (o_seq o + 1)%Z |})
                          (upd_log (fun _ => l) (db w));
                  ticks := S (S (ticks w)); ids := ids w |}).
Proof.
  rewrite append_event_eq. unfold append_with_keys_in_tx.
  destruct (content_hash_total (seal (normalize_payload_numbers (n_value (new_event e))))) as [h ->].
  cbn [rbind]. by eexists _, _.
Qed.

(** What an appended event changes: the log and the outbox, or nothing. *)
Lemma append_event_frame seal e w :
  ids (append_event seal e w).2 = ids w
  /\ (db (append_event seal e w).2 = db w
      \/ exists l o, db (append_event seal e w).2 = upd_outbox o (upd_log (fun _ => l) (db w))).
Proof.
  rewrite append_event_eq. destruct (append_with_keys_in_tx _ _ _ _) as [[row l]|]; eauto.
Qed.

End appends.

(** Replace one row. *)
Definition put (w : World) (id : N) (t : ThreadRow) : World :=
  {| db := upd_threads (fun m => <[id := t]> m) (db w); ticks := ticks w; ids := ids w |}.

Lemma upd_threads_at f d : upd_threads f d = upd_threads (fun _ => f (threads d)) d.
Proof. done. Qed.

(** The tables of the OAuth authorization server. *)
Definition same_oauth (d d' : Db) : Prop :=
  oauth_clients d' = oauth_clients d /\ oauth_pending d' = oauth_pending d /\ oauth_codes d' = oauth_codes d
  /\ oauth_grants d' = oauth_grants d /\ oauth_refresh d' = oauth_refresh d.

(** The tables that are more than their own rows to the rest of the store. *)
Definition same_core (d d' : Db) : Prop :=
  threads d' = threads d /\ thread_workers d' = thread_workers d /\ thread_dependencies d' = thread_dependencies d
  /\ plan_children d' = plan_children d /\ log d' = log d /\ outbox d' = outbox d /\ audit d' = audit d
  /\ api_tokens d' = api_tokens d /\ delegation_grants d' = delegation_grants d
  /\ usage_ledger d' = usage_ledger d /\ thread_budgets d' = thread_budgets d /\ same_oauth d d'.

(** The token tiers a budget counts, which only accounted usage adds to. *)
Definition tiers (b : BudgetRow) : TokenUsage :=
  {| tu_input := used_input_tokens b; tu_output := used_output_tokens b; tu_cache_read := used_cache_read_tokens b;
     tu_write_5m := used_cache_write_5m_tokens b; tu_write_1h := used_cache_write_1h_tokens b |}.
(** The tiers of a thread's budget, all zero without one. *)
Definition tiers_at (m : gmap N BudgetRow) (thread : N) : TokenUsage := from_option tiers no_tokens (m !! thread).

Section env.
Context `{JsonText, Sha256, Env}.

(** A relation the claim queue's writes outside [maidan_threads] keep. *)
Class ClaimRel (R : World -> World -> Prop) : Prop := {
  cr_rel :: TxRel R;
  sr_append_event n seal e : keeps n R (append_event seal e);
  sr_budgets w m :
    (forall thread, tiers_at m thread = tiers_at (thread_budgets (db w)) thread) ->
    R w {| db := upd_thread_budgets (fun _ => m) (db w); ticks := ticks w; ids := ids w |};
  sr_versions w f : R w {| db := upd_thread_versions f (db w); ticks := ticks w; ids := ids w |};
  sr_dlq w f : R w {| db := upd_dead_letters f (db w); ticks := ticks w; ids := ids w |};
  sr_status w f : R w {| db := upd_thread_status f (db w); ticks := ticks w; ids := ids w |};
  sr_worker w t m :
    R w {| db := upd_thread_workers
                   (fun ws => match ws !! (t, m) with Some _ => ws | None => <[(t, m) := None]> ws end)
                   (db w);
           ticks := ticks w; ids := ids w |};
  sr_held w t m s :
    R w {| db := upd_thread_workers (alter (fun _ => Some s) (t, m)) (db w); ticks := ticks w; ids := ids w |}
}.

(** The same of every table but [maidan_threads]: a write that leaves the core
    tables alone, a dependency added under the cycle guard or removed, and an
    audit record. *)
Class StoreRel (R : World -> World -> Prop) : Prop := {
  sr_claims :: ClaimRel R;
  sr_frame w d' : same_core (db w) d' -> R w {| db := d'; ticks := ticks w; ids := ids w |};
  sr_dep_add w x y now :
    x <> y -> x ∉ reachable (thread_dependencies (db w)) y ->
    R w {| db := upd_thread_dependencies
                   (fun m => match m !! (x, y) with Some _ => m | None => <[(x, y) := now]> m end) (db w);
           ticks := ticks w; ids := ids w |};
  sr_dep_remove w x y :
    R w {| db := upd_thread_dependencies (delete (x, y)) (db w); ticks := ticks w; ids := ids w |};
  sr_audit w r : R w {| db := upd_audit (fun rows => rows ++ [r]) (db w); ticks := ticks w; ids := ids w |}
}.

(** A relation the writes of an accounted usage report keep as well. *)
Class LedgerRel (R : World -> World -> Prop) : Prop := {
  lr_ledger w f : R w {| db := upd_usage_ledger f (db w); ticks := ticks w; ids := ids w |};
  lr_budgets w f : R w {| db := upd_thread_budgets f (db w); ticks := ticks w; ids := ids w |}
}.

Global Instance LedgerRel_and R1 R2 : LedgerRel R1 -> LedgerRel R2 -> LedgerRel (fun w w' => R1 w w' /\ R2 w w').
Proof. intros H1' H2'. constructor; intros; split; solve [apply lr_ledger|apply lr_budgets]. Qed.

Global Instance ClaimRel_and R1 R2 : ClaimRel R1 -> ClaimRel R2 -> ClaimRel (fun w w' => R1 w w' /\ R2 w w').
Proof.
  intros H1' H2'. constructor; try (intros; split; solve [by apply H1'|by apply H2']).
  - constructor; [intros; split; by apply tx_advance|].
    intros w1 w2 w3 Hi Hi' [? ?] [? ?]. split; by eapply tx_trans.
  - intros n s e w Hn. destruct (sr_append_event (R:=R1) n s e w Hn) as [Hi ?].
    destruct (sr_append_event (R:=R2) n s e w Hn). by split.
Qed.

Global Instance StoreRel_and R1 R2 : StoreRel R1 -> StoreRel R2 -> StoreRel (fun w w' => R1 w w' /\ R2 w w').
Proof.
  intros H1' H2'. constructor; [apply _|..]; intros; split; solve [by apply sr_frame|by apply sr_dep_add|apply sr_dep_remove|apply sr_audit].
Qed.

(** ** A relation under a condition on the rows *)

Section guarded.
Context (J : gmap N ThreadRow -> gmap N PlanChildRow -> Prop).
Definition holds_J (w : World) : Prop := J (threads (db w)) (plan_children (db w)).
(** The condition is kept too. *)
Definition guarded (R : World -> World -> Prop) (w w' : World) : Prop := holds_J w -> holds_J w' /\ R w w'.
(** The condition may end. *)
Definition given (R : World -> World -> Prop) (w w' : World) : Prop := holds_J w -> R w w'.

Lemma holds_J_same w w' :
  threads (db w') = threads (db w) -> plan_children (db w') = plan_children (db w) -> holds_J w -> holds_J w'.
Proof. unfold holds_J. by intros -> ->. Qed.

Global Instance guarded_claims R : ClaimRel R -> ClaimRel (guarded R).
Proof.
  intros HR. constructor; try (intros; intros Hj; split; [exact Hj|by apply HR]).
  - constructor; [intros w t i Hi Hj; split; [exact Hj|by apply tx_advance]|].
    intros w1 w2 w3 Hi Hi' H12 H23 Hj. destruct (H12 Hj) as [Hj2 ?]. destruct (H23 Hj2) as [Hj3 ?].
    split; [done|]. by eapply tx_trans.
  - intros n s e w Hn. destruct (sr_append_event (R:=R) n s e w Hn) as [Hi HR']. split; [done|].
    intros Hj. split; [|done]. revert Hj. destruct (append_event_frame s e w) as [_ [Hd|(l & o & Hd)]];
      apply holds_J_same; by rewrite Hd.
Qed.

Global Instance guarded_ledger R : LedgerRel R -> LedgerRel (guarded R).
Proof. intros HR. constructor; intros w f Hj; (split; [exact Hj|apply HR]). Qed.

Global Instance guarded_store R : StoreRel R -> StoreRel (guarded R).
Proof.
  intros HR. constructor; [apply _|..]; intros; intros Hj; split; try exact Hj;
    try solve [by apply sr_frame|by apply sr_dep_add|apply sr_dep_remove|apply sr_audit].
  destruct H2 as (Ht & _ & _ & Hp & _). by revert Hj; apply holds_J_same.
Qed.

Context (R : World -> World -> Prop) `{!TxRel R}.

Lemma keeps_guarded {A} n (m : Tx A) w : keeps n (guarded R) m -> n <= ids w -> holds_J w -> kept_at R m w.
Proof. intros Hm Hn Hj. destruct (Hm w Hn) as [Hi HR]. split; [done|]. by apply HR. Qed.

Lemma keeps_given {A} n (m : Tx A) w : keeps n (given R) m -> n <= ids w -> holds_J w -> kept_at R m w.
Proof. intros Hm Hn Hj. destruct (Hm w Hn) as [Hi HR]. split; [done|]. by apply HR. Qed.

Lemma given_weaken {A} n (m : Tx A) : keeps n (guarded R) m -> keeps n (given R) m.
Proof. intros Hm w Hn. destruct (Hm w Hn) as [Hi HR]. split; [done|]. intros Hj. by apply HR. Qed.

(** First what keeps the condition, then what may end it. *)
Lemma given_bind {A B} n (m : Tx A) (k : A -> Tx B) :
  keeps n (guarded R) m -> (forall a, keeps n (given R) (k a)) -> keeps n (given R) (bind m k).
Proof.
  intros Hm Hk w Hn. unfold kept_at, bind. destruct (Hm w Hn) as [Hi HR].
  destruct (m w) as [[a|e] w'] eqn:E; cbn [snd] in *.
  - destruct (Hk a w') as [Hi' HR']; [lia|]. split; [lia|]. intros Hj. destruct (HR Hj) as [Hj' HR1].
    eapply tx_trans; [| |exact HR1|by apply HR']; done.
  - split; [done|]. intros Hj. by apply HR.
Qed.

(** First what may end it, then what does not need it. *)
Lemma given_then {A B} n (m : Tx A) (k : A -> Tx B) :
  keeps n (given R) m -> (forall a, keeps n R (k a)) -> keeps n (given R) (bind m k).
Proof.
  intros Hm Hk w Hn. unfold kept_at, bind. destruct (Hm w Hn) as [Hi HR].
  destruct (m w) as [[a|e] w'] eqn:E; cbn [snd] in *; [|done].
  destruct (Hk a w') as [Hi' HR']; [lia|]. split; [lia|]. intros Hj.
  eapply tx_trans; [| |by apply HR|exact HR']; done.
Qed.

(** A read under the condition. *)
Lemma guarded_read {A B} n (f : Db -> A) (k : A -> Tx B) :
  (forall a, keeps n (fun _ _ => True) (k a)) ->
  (forall d, J (threads d) (plan_children d) -> keeps n (guarded R) (k (f d))) ->
  keeps n (guarded R) (bind (read f) k).
Proof.
  intros Ht Hk w Hn. split.
  - change (ids w <= ids (k (f (db w)) w).2). by apply (Ht (f (db w)) w Hn).
  - intros Hj. change (holds_J (k (f (db w)) w).2 /\ R w (k (f (db w)) w).2). by apply (Hk (db w) Hj w Hn).
Qed.
End guarded.
End env.

Section keeps.
Context `{JsonText, Sha256, Env} (R : World -> World -> Prop) `{!ClaimRel R}.

Lemma sr_append n e : keeps n R (append_in_tx e).
Proof. apply sr_append_event. Qed.

Lemma sr_append_sealed n e : keeps n R (append_sealed_in_tx e).
Proof. apply sr_append_event. Qed.

Lemma keeps_bump n t : keeps n R (bump_version t).
Proof. unfold bump_version. keeps_auto. apply keeps_write. intros w. apply sr_versions. Qed.

Lemma keeps_upsert n t f : (forall b, tiers (f b) = tiers b) -> keeps n R (upsert_budget t f).
Proof.
  intros Hf w Hn. unfold kept_at, upsert_budget, bind, read. cbn [db]. case_bool_decide; cbn [negb].
  2: { cbn. split; [done|]. destruct w as [d k i]. by apply (tx_advance {| db := d; ticks := k; ids := i |}). }
  cbn. set (row := upd_b_updated _ _).
  set (w1 := {| db := upd_thread_budgets (fun _ => <[t := row]> (thread_budgets (db w))) (db w); ticks := ticks w; ids := ids w |}).
  split; [done|]. apply (tx_trans w w1); [done|done| |].
  - apply sr_budgets. intros j. unfold tiers_at. destruct (decide (j = t)) as [->|Hj].
    + rewrite lookup_insert_eq. unfold row. cbn. change (tiers (f (default (empty_budget (clock (ticks w))) (thread_budgets (db w) !! t))) =
        from_option tiers no_tokens (thread_budgets (db w) !! t)). rewrite Hf. by destruct (thread_budgets (db w) !! t).
    + by rewrite lookup_insert_ne.
  - apply (tx_advance w1 (S (ticks w)) (ids w)); cbn; lia.
Qed.

Lemma keeps_usage n t u : keeps n R (upsert_budget t (with_usage u)).
Proof. by apply keeps_upsert. Qed.
Lemma keeps_limits n t l : keeps n R (upsert_budget t (with_limits l)).
Proof. by apply keeps_upsert. Qed.
Lemma keeps_accounted `{!LedgerRel R} n t f : keeps n R (upsert_budget t f).
Proof. unfold upsert_budget. keeps_auto. apply keeps_write. intros w. apply lr_budgets. Qed.

Lemma keeps_charge n t s : keeps n R (charge_wall_in_tx t s).
Proof. unfold charge_wall_in_tx. keeps_auto. by apply keeps_upsert. Qed.

Lemma keeps_keep_stopped n t b s : keeps n R (keep_stopped_wall t b s).
Proof. unfold keep_stopped_wall. keeps_auto. apply keeps_charge. Qed.

Lemma keeps_get n t : keeps n R (get t).
Proof. unfold get. keeps_auto. Qed.

Lemma keeps_charge_open n t : keeps n R (charge_open_claim_in_tx t).
Proof. unfold charge_open_claim_in_tx. keeps_auto; auto using keeps_get, keeps_charge. Qed.

Lemma keeps_insert_worker n t m : keeps n R (insert_worker t m).
Proof. unfold insert_worker. keeps_auto. apply keeps_write. intros w. apply sr_worker. Qed.

Lemma keeps_record n t m : keeps n R (record_in_tx t m).
Proof.
  unfold record_in_tx. keeps_auto; [apply keeps_insert_worker|]. apply keeps_write. intros w. apply sr_held.
Qed.

Lemma keeps_fail_claim n ws c t row m r b : keeps n R (fail_claim_in_tx ws c t row m r b).
Proof.
  unfold fail_claim_in_tx, dlq_record_in_tx. keeps_auto; [apply sr_append|]. apply keeps_write. intros w. apply sr_dlq.
Qed.

Lemma keeps_assignment_event n t row a p note : keeps n R (append_assignment_event t row a p note).
Proof. unfold append_assignment_event. keeps_auto; [apply keeps_record|apply sr_append]. Qed.

Lemma keeps_end_lapsed n t row m e s : keeps n R (end_lapsed_claim_in_tx t row m e s).
Proof.
  unfold end_lapsed_claim_in_tx, append_claim_expired_event.
  keeps_auto; auto using keeps_charge, keeps_fail_claim, sr_append.
Qed.

Lemma keeps_refuse_family n t m : keeps n R (refuse_same_family_in_tx t m).
Proof. unfold refuse_same_family_in_tx. keeps_auto. Qed.

Lemma keeps_refuse_cap n t : keeps n R (refuse_round_cap_claim t).
Proof. unfold refuse_round_cap_claim. keeps_auto. Qed.

Lemma keeps_refuse_duplicate n t : keeps n R (refuse_duplicate_claim_on t).
Proof. unfold refuse_duplicate_claim_on. keeps_auto. Qed.

Lemma keeps_append_scoped `{!StoreRel R} n o new : keeps n R (append_scoped o new).
Proof.
  unfold append_scoped, append_on. keeps_auto. apply keeps_write. intros w. apply sr_audit.
Qed.
End keeps.

#[export] Hint Resolve keeps_bump keeps_usage keeps_limits keeps_charge keeps_keep_stopped keeps_get keeps_charge_open
  keeps_insert_worker keeps_record keeps_fail_claim keeps_assignment_event keeps_end_lapsed keeps_refuse_family
  keeps_refuse_cap keeps_refuse_duplicate keeps_append_scoped sr_append sr_append_sealed : keeps.

(** A write that leaves the core tables alone. *)
Ltac keeps_frame := apply keeps_write; intros ?; apply sr_frame; by split_and!.
