(* ===== verification/FlowLogic.v ===== *)
(** * Relations carried through the close gates

    The lemmas that carry a [StoreRel] through the operations of reviews, gates
    and closes. Of the thread table these write only new rows, moves along the
    lifecycle and cleared claims: a [BirthRel] is kept by the first, a [FlowRel]
    by all three. *)

From stdpp Require Import strings.
From S2P Require Import Prelude Text Json EventChain EventLog Footprint Fsm Review Db Budget TxLogic AuditTrail Claimability Threads Deps Attributes Gates LandGate Packets Landing Reviews Closing FootprintStore Creation Dispatch Governance StoreRels.
Local Open Scope tx_scope.

(** A row as its insert writes it. *)
Definition newborn (t : ThreadRow) : Prop :=
  exists channel parent title description now created_by,
    t = new_thread_row channel parent title description now created_by.

(** Its parent is there. *)
Definition rooted_in (m : gmap N ThreadRow) (t : ThreadRow) : Prop := forall p, t_parent t = Some p -> is_Some (m !! p).

(** A move the operations make: along the lifecycle, or from an unfinished state
    to [Closed]. *)
Definition legal_move (from to : ThreadState) : Prop :=
  (exists action, apply from action = Ok to) \/ (is_terminal from = false /\ to = Closed).

Ltac side := keeps_plain; try keeps_frame.

Section side.
Context `{JsonText, Sha256, Env} (R : World -> World -> Prop) `{!StoreRel R} (n : nat).

(** ** Attributes *)

Lemma keeps_refuse_held t a : keeps n R (refuse_held_on t a).
Proof. unfold refuse_held_on. side. Qed.

Lemma keeps_attributes_insert t a : keeps n R (attributes_insert_on t a).
Proof. unfold attributes_insert_on. keeps_plain; [apply keeps_refuse_held|keeps_frame]. Qed.

Lemma keeps_default_engine t : keeps n R (apply_default_engine_on t).
Proof. unfold apply_default_engine_on. side. Qed.

Lemma keeps_get_attributes t : keeps n R (get_attributes t).
Proof. unfold get_attributes. side. Qed.

(** ** Gates *)

Lemma keeps_gate_fks ws t m : keeps n R (gate_fks ws t m).
Proof. unfold gate_fks. side. Qed.

Lemma keeps_create_gate new : keeps n R (create_in_tx new).
Proof. unfold create_in_tx. keeps_plain; [apply keeps_gate_fks|keeps_frame]. Qed.

Lemma keeps_open_cap ws t m p : keeps n R (open_review_round_cap ws t m p).
Proof. unfold open_review_round_cap. keeps_plain; [apply keeps_gate_fks|keeps_frame]. Qed.

Lemma keeps_resolve id m s c v : keeps n R (resolve_on id m s c v).
Proof. unfold resolve_on. side. Qed.

(** ** Land gates, packets and the close gates *)

Lemma keeps_land_gate t : keeps n R (land_gate_in_tx t).
Proof. unfold land_gate_in_tx. side. Qed.

Lemma keeps_evidence t : keeps n R (evidence_in_tx t).
Proof. unfold evidence_in_tx. side. Qed.

Lemma keeps_record_packet t m : keeps n R (record_packet_in_tx t m).
Proof. unfold record_packet_in_tx, attestations_in_tx. keeps_plain; [apply keeps_evidence|keeps_frame]. Qed.

Lemma keeps_latest_root t : keeps n R (latest_root_in_tx t).
Proof. unfold latest_root_in_tx. side. Qed.

Lemma keeps_ensure_unchanged t r : keeps n R (ensure_unchanged_in_tx t r).
Proof. unfold ensure_unchanged_in_tx, manifest_in_tx. keeps_plain. apply keeps_evidence. Qed.

Lemma keeps_verify_root t r : keeps n R (verify_root_in_tx t r).
Proof. unfold verify_root_in_tx. keeps_plain; auto using keeps_latest_root, keeps_ensure_unchanged. Qed.

Lemma keeps_review_gate t : keeps n R (review_gate_in_tx t).
Proof. unfold review_gate_in_tx. keeps_plain; auto using keeps_latest_root, keeps_ensure_unchanged. Qed.

Lemma keeps_result_gate t : keeps n R (result_gate_in_tx t).
Proof. unfold result_gate_in_tx. side. Qed.

Lemma keeps_duties t row a to : keeps n R (separation_of_duties_in_tx t row a to).
Proof. unfold separation_of_duties_in_tx. side. Qed.

Lemma keeps_state_changed a r : keeps n R (state_changed_in_tx a r).
Proof. unfold state_changed_in_tx. side. Qed.

(** ** Reviews *)

Lemma keeps_set_requirement t k m : keeps n R (set_requirement_on t k m).
Proof. unfold set_requirement_on. side. Qed.

Lemma keeps_clear_requirement t : keeps n R (clear_requirement_on t).
Proof. unfold clear_requirement_on. side. Qed.

Lemma keeps_get_requirement t : keeps n R (get_requirement t).
Proof. unfold get_requirement. side. Qed.

Lemma keeps_last_worker t : keeps n R (last_worker_in_tx t).
Proof. unfold last_worker_in_tx. side. Qed.

(** ** Notices and references *)

Lemma keeps_post_notice t a b m : keeps n R (post_notice_in_tx t a b m).
Proof. unfold post_notice_in_tx. side. Qed.

Lemma keeps_block_dependent s c a x : keeps n R (block_dependent s c a x).
Proof. unfold block_dependent. keeps_plain; [keeps_frame|apply keeps_post_notice]. Qed.

Lemma keeps_unlanded p c a : keeps n R (unlanded_in_tx p c a).
Proof. unfold unlanded_in_tx. keeps_plain; auto using keeps_block_dependent, keeps_post_notice. Qed.

Lemma keeps_record_reference s d k : keeps n R (record_reference s d k).
Proof. unfold record_reference. side. Qed.

Lemma keeps_savepoint {A B} (m : Tx A) (ok : A -> Tx B) (refused : Refusal -> Tx B) :
  keeps n R m -> (forall a, keeps n R (ok a)) -> (forall r, keeps n R (refused r)) -> keeps n R (savepoint m ok refused).
Proof.
  intros Hm Hok Hr w Hn. unfold kept_at, savepoint. destruct (Hm w Hn) as [Hi HR].
  destruct (m w) as [[a|e] w'] eqn:E; cbn [snd] in *.
  - destruct (Hok a w') as [Hi' HR']; [lia|]. split; [lia|]. by eapply tx_trans.
  - destruct e as [| r | | | | | | | | | |]; try done.
    set (w1 := {| db := db w; ticks := ticks w'; ids := ids w' |}).
    destruct (Hr r w1) as [Hi' HR']; [cbn; lia|]. split; [cbn in *; lia|].
    eapply (tx_trans w w1); [done|done|by apply tx_advance|done].
Qed.
End side.

#[export] Hint Resolve keeps_refuse_held keeps_attributes_insert keeps_default_engine keeps_get_attributes
  keeps_gate_fks keeps_create_gate keeps_open_cap keeps_resolve keeps_land_gate keeps_evidence keeps_record_packet
  keeps_latest_root keeps_ensure_unchanged keeps_verify_root keeps_review_gate keeps_result_gate keeps_duties
  keeps_state_changed keeps_set_requirement keeps_clear_requirement keeps_get_requirement keeps_last_worker
  keeps_post_notice keeps_block_dependent keeps_unlanded keeps_record_reference : keeps.

(** ** New rows *)

Section births.
Context `{JsonText, Sha256, Env}.

Class BirthRel (R : World -> World -> Prop) : Prop := {
  br_store :: StoreRel R;
  br_birth w id t :
    threads (db w) !! id = None -> newborn t -> rooted_in (threads (db w)) t -> R w (put w id t)
}.

(** A condition that new rows do not disturb. *)
Lemma guarded_birth J R :
  (forall m p id t, m !! id = None -> J m p -> J (<[id := t]> m) p) -> BirthRel R -> BirthRel (guarded J R).
Proof.
  intros HJ HR. constructor; [apply _|]. intros w id t Hid Ht Hr Hj. split; [|by apply br_birth].
  unfold holds_J. cbn. by apply HJ.
Qed.

Context (R : World -> World -> Prop) `{!BirthRel R} (n : nat).

Lemma keeps_insert_thread c p ti de now by_ : keeps n R (insert_thread c p ti de now by_).
Proof.
  unfold insert_thread. do 3 (apply keeps_bind; [apply _|keeps_plain|intros ?]).
  intros w Hn. apply kept_at_bind_run; [apply _|revert w Hn; change (keeps n R (match p with Some p => thread_fk p | None => ret tt end)); keeps_plain|].
  intros u0 w0 Hp. assert (w0 = w /\ forall q, p = Some q -> is_Some (threads (db w) !! q)) as [-> Hpar].
  { destruct p as [q|]; [|by apply ret_Ok in Hp as [_ ->]]. unfold thread_fk in Hp.
    apply bind_Ok_inv in Hp as (b & w1 & [-> ->]%read_Ok & Hp). case_bool_decide as Hq; [|done]. apply ret_Ok in Hp as [_ ->].
    split; [done|]. by intros ? [= <-]. }
  clear Hp. apply kept_at_bind_run; [apply _|revert w Hn Hpar; intros w Hn _; revert w Hn; change (keeps n R (match by_ with Some m => member_fk m | None => ret tt end)); keeps_plain|].
  intros u1 w1 Hm. assert (w1 = w) as ->.
  { destruct by_ as [m|]; [|by apply ret_Ok in Hm as [_ ->]]. unfold member_fk in Hm.
    apply bind_Ok_inv in Hm as (b & w2 & [-> ->]%read_Ok & Hm). case_bool_decide; [|done]. by apply ret_Ok in Hm as [_ ->]. }
  apply kept_at_read.
  case_bool_decide as Ht; [split; [done|apply tx_same, _]|]. apply kept_at_bind_run; [apply _|..].
  { split; [done|apply tx_same, _]. }
  intros u w' [_ ->]%ret_Ok. apply kept_at_bind; [apply _| |intros; apply keeps_ret, _].
  split; [done|]. apply (br_birth w a); [by apply eq_None_not_Some|by eexists _, _, _, _, _, _|]. exact Hpar.
Qed.

Lemma keeps_spawn t a : keeps n R (spawn_in_tx t a).
Proof. unfold spawn_in_tx. keeps_plain; [apply keeps_insert_thread|keeps_frame]. Qed.
End births.

(** ** Moves and cleared claims *)

(** The row of [thread] is [t]. *)
Definition row_is (thread : N) (t : ThreadRow) (m : gmap N ThreadRow) (_ : gmap N PlanChildRow) : Prop :=
  m !! thread = Some t.

Section flows.
Context `{JsonText, Sha256, Env}.

(** [movable] is what the operation may move. *)
Class FlowRel (movable : N -> Prop) (R : World -> World -> Prop) : Prop := {
  fr_births :: BirthRel R;
  fr_move w id t to now :
    movable id -> threads (db w) !! id = Some t -> legal_move (t_state t) to -> R w (put w id (move_to to now t));
  fr_drop w id t now : movable id -> threads (db w) !! id = Some t -> R w (put w id (clear_claim now t))
}.

Context (movable : N -> Prop) (R : World -> World -> Prop) `{!FlowRel movable R} (n : nat).

Lemma row_is_birth thread t m p id row : m !! id = None -> row_is thread t m p -> row_is thread t (<[id := row]> m) p.
Proof. unfold row_is. intros Hid Ht. rewrite lookup_insert_ne by congruence. done. Qed.

(** The update of a row that was read before. *)
Lemma given_move thread t to now :
  movable thread -> legal_move (t_state t) to ->
  keeps n (given (row_is thread t) R) (update_thread thread (fun _ _ => true) (move_to to now)).
Proof.
  intros Hm Hl w _. unfold kept_at, update_thread. destruct (threads (db w) !! thread) as [t0|] eqn:E; cbn.
  - split; [done|]. intros Hj. unfold holds_J, row_is in Hj. cbn in Hj. simplify_eq. by eapply fr_move.
  - split; [done|]. intros Hj. apply tx_same, _.
Qed.

Lemma given_land thread t actor to :
  movable thread -> legal_move (t_state t) to ->
  keeps n (given (row_is thread t) R) (land_in_tx thread t actor to).
Proof.
  intros Hm Hl. unfold land_in_tx.
  do 6 (apply given_bind; [apply _|keeps_plain; try keeps_frame|intros ?]).
  apply given_then; [apply _|by apply given_move|]. intros row. keeps_plain.
Qed.

Lemma keeps_transition_in_spawning thread actor action :
  movable thread -> keeps n R (transition_in_spawning thread actor action).
Proof.
  intros Hm w Hn. unfold transition_in_spawning. apply kept_at_read. apply kept_at_ok_or; [apply _|]. intros t Ht.
  apply kept_at_assert; [apply _|]. intros Hlive. apply kept_at_lift; [apply _|]. intros to Hto.
  apply (keeps_given (row_is thread t) R n); [|done|done].
  pose proof (guarded_birth (row_is thread t) R (row_is_birth thread t) _) as HB.
  apply given_bind; [apply _|keeps_plain|intros _].
  apply given_bind; [apply _|keeps_plain; by apply keeps_spawn|intros spawned].
  apply given_bind; [apply _|keeps_plain|intros _].
  apply given_then; [apply _|apply given_land; [done|left; eauto]|intros r; keeps_plain].
Qed.

Lemma keeps_transition_in_tx thread actor action :
  movable thread -> keeps n R (transition_in_tx thread actor action).
Proof. intros Hm. unfold transition_in_tx. keeps_plain. by apply keeps_transition_in_spawning. Qed.

Lemma keeps_escalate ws c thread r note :
  movable thread -> keeps n R (escalate_round_cap ws c thread r note).
Proof.
  intros Hm. unfold escalate_round_cap, round_standing. keeps_plain.
  apply keeps_update; [apply _|]. intros w t _ Ht _. by apply (fr_drop w thread t).
Qed.

Lemma keeps_submit_review_on thread r d note root head :
  movable thread -> keeps n R (submit_review_on thread r d note root head).
Proof.
  intros Hm. unfold submit_review_on.
  keeps_plain; try keeps_frame; [by apply keeps_transition_in_tx|by apply keeps_escalate].
Qed.

Lemma keeps_submit_review thread r d note root head :
  movable thread -> keeps n R (submit_review_at_head thread r d note root head).
Proof. intros Hm. unfold submit_review_at_head. keeps_plain. by apply keeps_submit_review_on. Qed.

Lemma keeps_critical_review thread r v :
  movable thread -> keeps n R (apply_critical_review_decision thread r v).
Proof. intros Hm. unfold apply_critical_review_decision. keeps_plain. by apply keeps_submit_review_on. Qed.
End flows.

(** ** What a close owes *)

Section closes.
Context `{JsonText, Sha256, Env} (movable : N -> Prop) (R : World -> World -> Prop) `{!FlowRel movable R} (n : nat).

Lemma keeps_close_through_gates parent actor b : movable parent -> keeps n R (close_through_gates parent actor b).
Proof. intros Hm. unfold close_through_gates. keeps_plain; by eapply keeps_transition_in_tx. Qed.

Lemma keeps_close_parent parent child actor : movable parent -> keeps n R (close_parent_in_tx parent child actor).
Proof.
  intros Hm. unfold close_parent_in_tx.
  do 2 (apply keeps_bind; [apply _|keeps_plain|intros ?]). case_match; [keeps_plain|].
  do 2 (apply keeps_bind; [apply _|keeps_plain|intros ?]). case_match; [|keeps_plain].
  apply keeps_bind; [apply _|keeps_plain|intros ?]. destruct a3 as [ [repo pr] | ]; [|keeps_plain].
  apply keeps_savepoint; [apply _|by apply keeps_close_through_gates|intros; keeps_plain..].
Qed.
End closes.

(** The trivial relation, for the bound on identifiers. *)
Definition any (_ _ : World) : Prop := True.
Global Instance any_ledger : LedgerRel any.
Proof. by constructor. Qed.
Section any.
Context `{JsonText, Sha256, Env}.
Global Instance any_flow : FlowRel (fun _ => True) any.
Proof.
  repeat constructor.
Qed.
End any.

(** The plan table is [p]. *)
Definition plan_is (p : gmap N PlanChildRow) (_ : gmap N ThreadRow) (p' : gmap N PlanChildRow) : Prop := p' = p.
Definition plan_parent (p : gmap N PlanChildRow) (id : N) : Prop := exists c row, p !! c = Some row /\ pc_parent row = id.

Section plans.
Context `{JsonText, Sha256, Env} (n : nat).

Ltac close_turn IH :=
  keeps_plain; first [eapply keeps_close_parent; [apply _|done]|by apply IH].

Lemma any_after_close fuel child actor : keeps n any (after_close_loop fuel child actor).
Proof.
  revert child. induction fuel as [|fuel IH]; intros child; cbn [after_close_loop]; [keeps_plain|]. close_turn IH.
Qed.

Context (p : gmap N PlanChildRow) (movable : N -> Prop) (R : World -> World -> Prop) `{!StoreRel R}.
Context `{!FlowRel movable (guarded (plan_is p) R)} (parents : forall id, plan_parent p id -> movable id).

Lemma keeps_after_close_loop fuel child actor : keeps n (guarded (plan_is p) R) (after_close_loop fuel child actor).
Proof.
  revert child. induction fuel as [|fuel IH]; intros child; cbn [after_close_loop]; [keeps_plain|].
  apply guarded_read; [intros a; close_turn any_after_close|].
  intros d Hp. unfold plan_is in Hp. rewrite Hp. destruct (p !! child) as [row|] eqn:Ec; cbn; [|keeps_plain].
  assert (movable (pc_parent row)) as Hm by (apply parents; by exists child, row). close_turn IH.
Qed.

Lemma keeps_after_close closed actor : keeps n (guarded (plan_is p) R) (after_close_in_tx closed actor).
Proof. unfold after_close_in_tx. keeps_plain. apply keeps_after_close_loop. Qed.
End plans.

(** ** Repointed dependents *)

Section repoint.
Context `{JsonText, Sha256, Env} (R : World -> World -> Prop) `{!StoreRel R} (n : nat).

Lemma keeps_repoint_one closed replacement actor x :
  x <> replacement -> keeps n R (repoint_one closed replacement actor x).
Proof.
  intros Hx w Hn. unfold repoint_one. apply kept_at_read. case_bool_decide as Hc.
  - apply kept_at_bind; [apply _|apply (keeps_post_notice R n); lia|intros; keeps_plain].
  - apply kept_at_bind_run; [apply _|by apply (keeps_utc_now R n)|]. intros now w1 [= <- <-].
    apply kept_at_bind; [apply _| |intros _; keeps_plain].
    + split; [done|]. by apply (sr_dep_add {| db := db w; ticks := S (ticks w); ids := ids w |} x replacement).
    + apply keeps_write. intros ?. apply sr_dep_remove.
Qed.

(** The replacement is no dependent of the closed thread once its own edge is
    gone. *)
Lemma open_dependents_edge d closed x : x ∈ open_dependents d closed -> is_Some (thread_dependencies d !! (x, closed)).
Proof.
  unfold open_dependents, order_by. rewrite merge_sort_Permutation.
  intros ([[x' y] z] & -> & Hin)%list_elem_of_fmap. apply elem_of_bfilter in Hin as [Hin Hp]. cbn in *. bool_simpl.
  apply elem_of_map_to_list in Hin. subst. by eexists.
Qed.

Lemma keeps_repoint closed replacement actor : keeps n R (repoint_dependents_in_tx closed replacement actor).
Proof.
  intros w Hn. unfold repoint_dependents_in_tx. apply kept_at_bind_run; [apply _|split; [done|apply sr_dep_remove]|].
  intros u w1 [= <- <-]. apply kept_at_read.
  apply kept_at_bind; [apply _| |intros; keeps_plain].
  apply (keeps_for_each_in R n); [intros x Hx|cbn; lia].
  apply keeps_bind; [apply _| |intros; keeps_plain]. apply keeps_repoint_one. intros ->.
  apply open_dependents_edge in Hx as [z Hz]. cbn in Hz. by rewrite lookup_delete_eq in Hz.
Qed.
End repoint.

(** ** The committed operations *)

Section committed.
Context `{JsonText, Sha256, Env} (n : nat) (p : gmap N PlanChildRow) (movable : N -> Prop) (R : World -> World -> Prop).
Context `{!StoreRel R, !FlowRel movable (guarded (plan_is p) R)} (parents : forall id, plan_parent p id -> movable id).
Let G := guarded (plan_is p) R.

Lemma keeps_transition thread actor action : movable thread -> keeps n G (transition thread actor action).
Proof.
  intros Hm. unfold transition.
  keeps_plain; [by eapply keeps_transition_in_tx|by eapply keeps_escalate|by eapply keeps_after_close].
Qed.

Lemma keeps_transition_with_event thread actor action :
  movable thread -> keeps n G (transition_with_event thread actor action).
Proof.
  intros Hm. unfold transition_with_event.
  keeps_plain; [by eapply keeps_transition_in_spawning|by eapply keeps_escalate|by eapply keeps_after_close].
Qed.

Lemma keeps_close_abandoned thread actor m close new :
  movable thread -> keeps n G (close_abandoned thread actor m close new).
Proof.
  intros Hm. apply keeps_commit; [apply _|]. intros w Hn. apply kept_at_read. apply kept_at_ok_or; [apply _|].
  intros t Ht. apply kept_at_assert; [apply _|]. intros _. apply kept_at_assert; [apply _|]. intros Hnf.
  apply kept_at_assert; [apply _|]. intros _. apply (keeps_given (row_is thread t) G n); [|done|done].
  apply given_bind; [apply _|keeps_plain|intros relation].
  apply given_bind; [apply _|keeps_plain|intros stored].
  apply given_bind; [apply _|keeps_plain|intros had].
  apply given_bind; [apply _|keeps_plain|intros _].
  apply given_then; [apply _|eapply given_land; [apply _|done|]|intros r].
  { right. split; [|done]. unfold not_finished in Hnf. by destruct (is_terminal (t_state t)). }
  keeps_plain; try keeps_frame; try apply keeps_repoint, _; by eapply keeps_after_close.
Qed.

Lemma keeps_cancel thread actor reason authority : movable thread -> keeps n G (cancel thread actor reason authority).
Proof.
  intros Hm. apply keeps_commit; [apply _|]. intros w Hn. unfold cancel_in_tx. apply kept_at_read.
  apply kept_at_ok_or; [apply _|]. intros t Ht.
  do 2 match goal with |- kept_at _ (if ?b then _ else _) _ =>
         destruct b; cbv iota; [split; [done|by apply tx_same, _]|] end. apply kept_at_read.
  destruct (thread_cancellations (db w) !! thread); [split; [done|apply tx_same, _]|].
  destruct (is_terminal (t_state t)) eqn:Hnf; cbv iota; [split; [done|apply tx_same, _]|].
  apply (keeps_given (row_is thread t) G n); [|done|done].
  do 5 (apply given_bind; [apply _|keeps_plain; try keeps_frame|intros ?]).
  apply given_then; [apply _|eapply given_move; [apply _|done|by right]|intros r].
  keeps_plain; try keeps_frame. by eapply keeps_after_close.
Qed.
End committed.

Section creates.
Context `{JsonText, Sha256, Env} (R : World -> World -> Prop) `{!BirthRel R} (n : nat).

Lemma keeps_precheck new : keeps n R (precheck new).
Proof. unfold precheck, validate_parent, enforce_spawn_budget. keeps_plain. Qed.

Lemma keeps_record_fingerprint t row a : keeps n R (record_on t row a).
Proof. unfold record_on, insert_fingerprint. side. Qed.

Lemma keeps_create_checked new : keeps n R (create_checked new).
Proof. unfold create_checked. keeps_plain; auto using keeps_record_fingerprint. by apply keeps_insert_thread. Qed.

Lemma keeps_create new : keeps n R (create new).
Proof. unfold create. apply keeps_bind; [apply _|apply keeps_precheck|intros _; apply keeps_create_checked]. Qed.

Lemma keeps_insert_on new fp a pr : keeps n R (commit (insert_on new fp a pr)).
Proof.
  unfold insert_on, insert_items_on, insert_item_on.
  keeps_plain; try keeps_frame; auto using keeps_record_fingerprint. by apply keeps_insert_thread.
Qed.

Lemma keeps_create_with_footprint new fp a pr : keeps n R (create_with_footprint new fp a pr).
Proof.
  unfold create_with_footprint. apply keeps_bind; [apply _|unfold creation_args; keeps_plain|intros args].
  apply keeps_bind; [apply _|apply keeps_precheck|intros _; apply keeps_insert_on].
Qed.
End creates.
