(* ===== verification/StoreOps.v ===== *)
(** * The store's operations as steps

    One [Op] per operation that writes: those of the claim queue, the side
    tables of a thread ([SideOp]), and what creates, moves or closes threads
    ([FlowOp]). [exec] runs it, and [row_step] says which rows of
    [maidan_threads] it may write and into what. [exec_kept] carries any
    relation kept by those row steps through the whole operation; the laws of
    the store are its instances. *)

From stdpp Require Import strings.
From S2P Require Import Prelude Text Json EventChain EventLog Footprint Fsm Review Db Budget TxLogic AuditTrail Claimability Threads FootprintStore Deps Attributes Gates LandGate Packets Landing Reviews Closing Creation Dispatch Governance StoreRels FlowLogic Usage Ledger.
Local Open Scope tx_scope.

(** The operations that write no row of [maidan_threads]. *)
Inductive SideOp :=
| SSetBlock (thread : N) (reason : BlockedReason) (by_ : N) (note : option str)
| SClearBlock (thread : N) (event : option N)
| SMarkUnclaimable (thread : N) (reason : str) (by_ : N)
| SClearUnclaimable (thread : N)
| SSetPriority (thread : N) (priority : Z) (by_ : N)
| SAddRequiredSkill (thread : N) (skill : str)
| SRemoveRequiredSkill (thread : N) (skill : str)
| SAddSkill (member : N) (skill : str)
| SRemoveSkill (member : N) (skill : str)
| SGrantSkill (member : N) (skill : str) (new : NewAuditEvent)
| SSetWait (thread : N) (until : Z) (policy : EscalationPolicy) (reason : option str) (by_ : N)
| SCancelWait (thread : N)
| SClaimNextDue (now : Z)
| SDeclare (thread : N) (status : DeclaredStatus) (note : str) (by_ : N)
| SClearStatus (thread : N)
| SSetResult (thread by_ lease : N) (result : Value)
| SLink (thread : N) (sha : str) (by_ : N)
| SUnlink (thread : N) (sha : str)
| SReference (key : RefKey) (event : bool)
| SCreateGate (new : NewApprovalGate) (event : bool)
| SResolve (gate by_ : N) (state : GateState) (content : option Value)
    (audit_for : option (GateDecisionVia * (GateRow -> NewAuditEvent)))
| SSetPolicy (ws : N) (at_ : option ApprovalRisk) (ttl : option Z) (audit_for : ApprovalPolicy -> NewAuditEvent)
| SIssueConfirmation (new : NewApprovalConfirmation) (audit_for : ConfirmationRow -> NewAuditEvent)
| SConfirm (token : str) (ws member : N) (now : Z) (audit_for : GateRow -> NewAuditEvent)
| SRequireLandGate (thread : N)
| SSetPointer (thread by_ : N) (status : LandGateStatus) (sha : option str) (land : option LandColor)
| SClearLandGate (thread : N) (new : NewAuditEvent)
| SSetRequirement (thread : N) (required : Z) (max_rounds : option Z) (allow_lower : bool)
    (audit_for : ReviewRequirementChange -> NewAuditEvent)
| SClearRequirement (thread : N) (new : NewAuditEvent)
| SAddReviewer (thread member : N)
| SRemoveReviewer (thread member : N) (new : NewAuditEvent)
| SUnfreeze (member by_ : N) (new : NewAuditEvent)
| SSetAttributes (thread : N) (attributes : AttributeRow)
| SSetUnique (ws : N) (sets : list (list UniqueAttributeKey)) (new : NewAuditEvent)
| SSetDefaultEngine (ws : N) (engine : option TaskEngine) (new : NewAuditEvent)
| SSetReviewChildren (ws : N) (setting : bool) (new : NewAuditEvent)
| SSetSpawnBudget (ws : N) (children depth tools : option Z)
| SClearDuplicate (thread : N) (new : NewAuditEvent).

(** The operations that create, move or close threads. A create whose checks ran
    before other operations is [FCreateChecked] or [FInsertOn] after them: the
    checks write nothing. *)
Inductive FlowOp :=
| FCreateChecked (new : NewThread)
| FInsertOn (new : NewThread) (footprint : option Footprint) (attributes : option AttributeRow)
    (priority_by : option (Z * N))
| FCreate (new : NewThread)
| FCreateWithFootprint (new : NewThread) (footprint : option Footprint) (attributes : option AttributeRow)
    (priority : option Z)
| FTransition (thread actor : N) (action : ThreadAction) (event : bool)
| FSubmitReview (thread reviewer : N) (decision : ReviewDecision) (note root head : option str)
| FCriticalReview (thread reviewer : N) (result : Value)
| FCloseAbandoned (thread actor : N) (maintainer : bool) (close : CloseAbandoned) (new : NewAuditEvent)
| FCancel (thread actor : N) (reason : str) (authority : CancelAuthority)
| FFreeze (member by_ : N) (reason : option str) (audit_for : FreezeRow * nat -> NewAuditEvent).

Inductive Op :=
| OAssign (thread assignee : N) (event : option (N * option str))
| OUnassign (thread : N) (event : option N)
| OSetOwner (thread : N) (owner : option N)
| OSetTitle (thread : N) (title : option str)
| OClaim (thread member : N) (event : bool)
| OClaimNext (grace : ClaimGrace) (channel member : N) (lease_secs : option Z) (engine : option TaskEngine)
| OClaimNextEvent (grace : ClaimGrace) (scope : ClaimScope) (member : N) (lease_secs : option Z)
    (repo : option str) (engine : option TaskEngine) (lane : option TaskLane)
| ORenew (thread member lease : N) (lease_secs : Z)
| OAcknowledge (thread member lease : N)
| ORelease (thread member lease : N) (event : bool)
| OReleaseMember (member : N)
| OReap (grace : ClaimGrace) (now limit : Z)
| OHumanTimeouts (now declared_before : Z) (policy : str) (limit : Z)
| OReportUnacknowledged (now claimed_before limit : Z)
| OReportUsage (thread : N) (delta : UsageDelta)
| OReportAccounted (new : NewUsageLedgerEntry)
| OAddUsage (thread : N) (delta : UsageDelta)
| OSetBudget (thread : N) (limits : BudgetLimits)
| OPatchBudget (thread : N) (patch : BudgetPatch)
| OSetFootprint (grace : ClaimGrace) (thread : N) (footprint : option Footprint)
| OPauseRepo (ws : N) (repo : str) (by_ : N) (reason : option str) (audit_for : RepoPauseRow -> NewAuditEvent)
| OResumeRepo (ws : N) (repo : str) (new : NewAuditEvent)
| OSetSlot (ws : N) (slot : str) (capacity : Z) (by_ : N) (new : NewAuditEvent)
| OClearSlot (ws : N) (slot : str) (new : NewAuditEvent)
| OSetLimit (ws : N) (limit : option Z)
| OAddDependency (thread depends_on : N)
| ORemoveDependency (thread depends_on : N)
| OSide (s : SideOp)
| OFlow (f : FlowOp).

Section env.
Context `{JsonText, Sha256, Env}.

Definition exec_side (s : SideOp) : Tx unit :=
  match s with
  | SSetBlock t r by_ note => set_block t r by_ note ;; ret tt
  | SClearBlock t None => clear_block t ;; ret tt
  | SClearBlock t (Some by_) => clear_block_with_event t by_ ;; ret tt
  | SMarkUnclaimable t r by_ => mark_unclaimable t r by_ ;; ret tt
  | SClearUnclaimable t => clear_unclaimable t ;; ret tt
  | SSetPriority t p by_ => set_priority t p by_ ;; ret tt
  | SAddRequiredSkill t k => add_required_skill t k
  | SRemoveRequiredSkill t k => remove_required_skill t k ;; ret tt
  | SAddSkill m k => add_skill_on m k
  | SRemoveSkill m k => remove_skill m k ;; ret tt
  | SGrantSkill m k new => grant_governance_skill m k new
  | SSetWait t u p r by_ => set_wait t u p r by_ ;; ret tt
  | SCancelWait t => cancel_wait t ;; ret tt
  | SClaimNextDue now => claim_next_due now ;; ret tt
  | SDeclare t st note by_ => declare t st note by_ ;; ret tt
  | SClearStatus t => clear_status t ;; ret tt
  | SSetResult t by_ l v => set_result t by_ l v ;; ret tt
  | SLink t sha by_ => link t sha by_ ;; ret tt
  | SUnlink t sha => unlink t sha ;; ret tt
  | SReference k false => create_reference k ;; ret tt
  | SReference k true => create_reference_with_event k ;; ret tt
  | SCreateGate new false => create_gate new ;; ret tt
  | SCreateGate new true => create_gate_with_event new ;; ret tt
  | SResolve g by_ st c None => resolve g by_ st c ;; ret tt
  | SResolve g by_ st c (Some (v, f)) => resolve_audited g by_ st c v f ;; ret tt
  | SSetPolicy ws a ttl f => set_policy_audited ws a ttl f ;; ret tt
  | SIssueConfirmation new f => issue_confirmation new f ;; ret tt
  | SConfirm tok ws m now f => confirm tok ws m now f ;; ret tt
  | SRequireLandGate t => require t ;; ret tt
  | SSetPointer t by_ st sha land => set_pointer t by_ st sha land ;; ret tt
  | SClearLandGate t new => clear_land_gate t new ;; ret tt
  | SSetRequirement t k m lower f => set_review_requirement t k m lower f ;; ret tt
  | SClearRequirement t new => clear_review_requirement t new ;; ret tt
  | SAddReviewer t m => add_reviewer t m ;; ret tt
  | SRemoveReviewer t m new => remove_reviewer t m new ;; ret tt
  | SUnfreeze m by_ new => unfreeze_member m by_ new ;; ret tt
  | SSetAttributes t a => set_attributes t a ;; ret tt
  | SSetUnique ws sets new => set_unique_thread_attributes ws sets new ;; ret tt
  | SSetDefaultEngine ws e new => set_default_engine ws e new
  | SSetReviewChildren ws b new => set_review_children ws b new
  | SSetSpawnBudget ws c d t => set_spawn_budget ws c d t ;; ret tt
  | SClearDuplicate t new => clear_duplicate t new
  end.

Definition exec_flow (f : FlowOp) : Tx unit :=
  match f with
  | FCreateChecked new => create_checked new ;; ret tt
  | FInsertOn new fp a pr => commit (insert_on new fp a pr) ;; ret tt
  | FCreate new => create new ;; ret tt
  | FCreateWithFootprint new fp a p => create_with_footprint new fp a p ;; ret tt
  | FTransition t actor action false => transition t actor action ;; ret tt
  | FTransition t actor action true => transition_with_event t actor action ;; ret tt
  | FSubmitReview t r d note root head => submit_review_at_head t r d note root head ;; ret tt
  | FCriticalReview t r v => apply_critical_review_decision t r v ;; ret tt
  | FCloseAbandoned t actor m close new => close_abandoned t actor m close new ;; ret tt
  | FCancel t actor reason authority => cancel t actor reason authority ;; ret tt
  | FFreeze m by_ reason f => freeze_member m by_ reason f ;; ret tt
  end.

Definition exec (o : Op) : Tx unit :=
  match o with
  | OAssign t a None => assign t a ;; ret tt
  | OAssign t a (Some (actor, note)) => assign_with_event t a actor note ;; ret tt
  | OUnassign t None => unassign t ;; ret tt
  | OUnassign t (Some actor) => unassign_with_event t actor ;; ret tt
  | OSetOwner t owner => set_owner t owner ;; ret tt
  | OSetTitle t title => set_title t title ;; ret tt
  | OClaim t m false => claim t m ;; ret tt
  | OClaim t m true => claim_with_event t m ;; ret tt
  | OClaimNext g c m s e => claim_next g c m s e ;; ret tt
  | OClaimNextEvent g sc m s r e l => claim_next_with_event g sc m s r e l ;; ret tt
  | ORenew t m l s => renew_claim t m l s ;; ret tt
  | OAcknowledge t m l => acknowledge_claim t m l ;; ret tt
  | ORelease t m l false => release_claim t m l ;; ret tt
  | ORelease t m l true => release_claim_with_event t m l ;; ret tt
  | OReleaseMember m => commit (release_member_claims_in_tx m) ;; ret tt
  | OReap g now limit => reap_expired_claims g now limit ;; ret tt
  | OHumanTimeouts now b p limit => return_human_timeouts now b p limit ;; ret tt
  | OReportUnacknowledged now b limit => report_unacknowledged_claims now b limit ;; ret tt
  | OReportUsage t delta => report_usage t delta ;; ret tt
  | OReportAccounted new => report_accounted_usage new ;; ret tt
  | OAddUsage t delta => add_usage t delta ;; ret tt
  | OSetBudget t limits => set_budget t limits ;; ret tt
  | OPatchBudget t p => patch_budget t p ;; ret tt
  | OSetFootprint g t fp => set g t fp ;; ret tt
  | OPauseRepo ws r by_ why f => pause_repo ws r by_ why f ;; ret tt
  | OResumeRepo ws r new => resume_repo ws r new ;; ret tt
  | OSetSlot ws s c by_ new => set_slot_capacity ws s c by_ new ;; ret tt
  | OClearSlot ws s new => clear_slot_capacity ws s new ;; ret tt
  | OSetLimit ws l => set_limit ws l
  | OAddDependency x y => add x y
  | ORemoveDependency x y => remove x y ;; ret tt
  | OSide s => exec_side s
  | OFlow f => exec_flow f
  end.

(** A sequence of calls, in the order the store serializes them. *)
Fixpoint run (ops : list Op) (w : World) : World :=
  match ops with [] => w | o :: ops => run ops (exec o w).2 end.

(** ** The rows an operation writes *)

(** The thread an operation moves, and whether it may close the plans above it. *)
Definition flow_target (f : FlowOp) : option N :=
  match f with
  | FTransition t _ _ _ | FSubmitReview t _ _ _ _ _ | FCriticalReview t _ _ | FCloseAbandoned t _ _ _ _
  | FCancel t _ _ _ => Some t
  | FCreateChecked _ | FInsertOn _ _ _ _ | FCreate _ | FCreateWithFootprint _ _ _ _ | FFreeze _ _ _ _ => None
  end.
Definition may_close (f : FlowOp) : bool :=
  match f with FTransition _ _ _ _ | FCloseAbandoned _ _ _ _ _ | FCancel _ _ _ _ => true | _ => false end.
Definition touches (p : gmap N PlanChildRow) (f : FlowOp) (id : N) : Prop :=
  flow_target f = Some id \/ may_close f = true /\ plan_parent p id.

(** [row_step n k d id t o t']: [o], started when [n] identifiers had been given
    out and the clock was at its reading [k], may write [t'] over thread
    [id]'s row [t] of the tables [d]. *)
Inductive row_step (n k : nat) (d : Db) (id : N) (t : ThreadRow) : Op -> ThreadRow -> Prop :=
| step_assign a ev i stamped :
    n <= i -> live t = true -> member_of_thread_workspace d a t = true -> refused_to d a id = false ->
    row_step n k d id t (OAssign id a ev) (take_claim a (uuid i) None stamped t)
| step_unassign ev now : row_step n k d id t (OUnassign id ev) (clear_claim now t)
| step_owner owner now :
    live t = true ->
    row_step n k d id t (OSetOwner id owner) (upd_updated (fun _ => now) (upd_owner (fun _ => owner) t))
| step_title title : live t = true -> row_step n k d id t (OSetTitle id title) (upd_title (fun _ => title) t)
| step_claim m ev i stamped :
    n <= i -> t_assignee t = None -> live t = true -> refused_to d m id = false ->
    row_step n k d id t (OClaim id m ev) (take_claim m (uuid i) None stamped t)
| step_next g c m s e i sql_now :
    n <= i ->
    eligible d (ask m (InChannel c) (truncate_micros (clock k)) (lease_clock g (truncate_micros (clock k)))
                  sql_now None e None) (id, t) = true ->
    row_step n k d id t (OClaimNext g c m s e)
      (take_claim m (uuid i) ((fun s => truncate_micros (truncate_micros (clock k)) + secs s)%Z <$> s)
         (truncate_micros (truncate_micros (clock k))) t)
| step_next_event g sc m s r e l i sql_now :
    n <= i ->
    eligible d (ask m sc (truncate_micros (clock k)) (lease_clock g (truncate_micros (clock k)))
                  sql_now r e l) (id, t) = true ->
    row_step n k d id t (OClaimNextEvent g sc m s r e l)
      (take_claim m (uuid i) ((fun s => truncate_micros (truncate_micros (clock k)) + secs s)%Z <$> s)
         (truncate_micros (truncate_micros (clock k))) t)
| step_renew m l s now :
    fenced m l t = true ->
    row_step n k d id t (ORenew id m l s)
      (upd_updated (fun _ => now) (upd_expires (fun _ => Some (now + secs s)%Z) t))
| step_acknowledge m l now :
    fenced m l t = true ->
    row_step n k d id t (OAcknowledge id m l)
      (upd_updated (fun _ => now)
         (upd_started (fun s => match s with Some s => Some s | None => Some now end) t))
| step_release m l ev now : fenced m l t = true -> row_step n k d id t (ORelease id m l ev) (clear_claim now t)
| step_release_member m now :
    t_assignee t = Some m -> live t = true -> not_finished t = true ->
    row_step n k d id t (OReleaseMember m) (clear_claim now t)
| step_reap g now limit stamp e :
    holding g now = false -> is_Some (t_assignee t) -> t_expires t = Some e -> (e < now)%Z ->
    live t = true -> not_finished t = true ->
    row_step n k d id t (OReap g now limit) (clear_claim stamp t)
| step_timeout now b p limit m l stamp :
    fenced m l t = true -> row_step n k d id t (OHumanTimeouts now b p limit) (clear_claim stamp t)
| step_unacknowledged now b limit :
    unacknowledged now b t = true ->
    row_step n k d id t (OReportUnacknowledged now b limit) (upd_unacknowledged (fun _ => t_lease t) t)
| step_usage delta now : row_step n k d id t (OReportUsage id delta) (clear_claim now t)
| step_accounted new now :
    t_assignee t = Some (nu_reporter new) -> t_lease t = Some (nu_lease new) -> nu_thread new = id ->
    row_step n k d id t (OReportAccounted new) (clear_claim now t)
| step_move f to now :
    touches (plan_children d) f id -> legal_move (t_state t) to ->
    row_step n k d id t (OFlow f) (move_to to now t)
| step_drop f now : touches (plan_children d) f id -> row_step n k d id t (OFlow f) (clear_claim now t)
| step_freeze m by_ reason f now :
    t_assignee t = Some m -> live t = true -> not_finished t = true ->
    row_step n k d id t (OFlow (FFreeze m by_ reason f)) (clear_claim now t).
End env.

(** ** Every operation is made of its row steps *)

Section exec.
Context `{JsonText, Sha256, Env} (R : World -> World -> Prop) `{!StoreRel R} (o : Op) (n k : nat).

(** Rows written by [o] or left alone. *)
Definition rows_stepped (d : Db) (m' : gmap N ThreadRow) : Prop :=
  forall id, match threads d !! id, m' !! id with
             | Some t, Some t' => t' = t \/ row_step n k d id t o t'
             | None, Some t' => (exists f, o = OFlow f) /\ newborn t' /\ rooted_in (threads d) t'
             | None, None => True
             | Some _, None => False
             end.

Hypothesis steps_kept : forall w m',
  n <= ids w -> rows_stepped (db w) m' ->
  R w {| db := upd_threads (fun _ => m') (db w); ticks := ticks w; ids := ids w |}.

Lemma put_kept w id t t' :
  n <= ids w -> threads (db w) !! id = Some t -> row_step n k (db w) id t o t' -> R w (put w id t').
Proof using All.
  intros Hn Ht Hs. unfold put. apply (steps_kept w (<[id := t']> (threads (db w)))); [done|].
  intros j. destruct (decide (j = id)) as [->|Hj].
  - rewrite Ht, lookup_insert_eq. by right.
  - rewrite lookup_insert_ne by done. destruct (threads (db w) !! j); [by left|done].
Qed.

(** An [UPDATE] of one row that follows the guards of a row step. *)
Lemma keeps_row n' id where_ set :
  n <= n' ->
  (forall d t, where_ d t = true -> row_step n k d id t o (set t)) ->
  keeps n' R (update_thread id where_ set).
Proof using All.
  intros Hn Hs. apply keeps_update; [apply _|]. intros w t Hw Ht Hwh.
  apply (put_kept w id t); [lia|done|]. by apply Hs.
Qed.

Lemma keeps_release_fenced t m l :
  (forall d row now, fenced m l row = true -> row_step n k d t row o (clear_claim now row)) ->
  keeps n R (release_fenced_in_tx t m l).
Proof using All. intros Hs. unfold release_fenced_in_tx. keeps_auto. by apply keeps_row; auto. Qed.

Lemma keeps_clear_assignee t :
  (forall d row now, row_step n k d t row o (clear_claim now row)) ->
  keeps n R (clear_assignee_in_tx t).
Proof using All. intros Hs. unfold clear_assignee_in_tx. keeps_auto. by apply keeps_row; auto. Qed.

(** Every claim of a member cleared. *)
Lemma keeps_release_member m :
  (forall d id t now, t_assignee t = Some m -> live t = true -> not_finished t = true ->
     row_step n k d id t o (clear_claim now t)) ->
  keeps n R (release_member_claims_in_tx m).
Proof using All.
  intros Hs. unfold release_member_claims_in_tx. keeps_auto. intros w1 Hw. split; [done|].
  cbn [write snd]. rewrite upd_threads_at. apply steps_kept; [done|]. intros id.
  rewrite lookup_fmap. destruct (threads (db w1) !! id) as [t|]; [|done]. cbn.
  case_match; [right|by left]. bool_simpl. by apply Hs.
Qed.

(** Taking the candidate a query chose, from the world it was chosen in. *)
Lemma take_candidate_kept id t m now lease_secs w :
  n <= ids w -> threads (db w) !! id = Some t ->
  (forall i, n <= i ->
     row_step n k (db w) id t o
       (take_claim m (uuid i) ((fun s => truncate_micros now + secs s)%Z <$> lease_secs) (truncate_micros now) t)) ->
  kept_at R (take_candidate id m now lease_secs) w.
Proof using All.
  intros Hn Ht Hs. unfold kept_at, take_candidate, bind, new_uuid. cbn.
  unfold update_thread. cbn. rewrite Ht. cbn.
  set (w1 := {| db := _; ticks := _; ids := _ |}).
  assert (R w w1) as HR1.
  { eapply tx_trans; [| |apply (tx_advance w (ticks w) (S (ids w))); lia|]; [cbn; lia|cbn; lia|].
    apply (put_kept {| db := db w; ticks := ticks w; ids := S (ids w) |} id t); [cbn; lia|done|].
    apply Hs. done. }
  unfold member_fk, bind, read. cbn.
  destruct (bool_decide _); cbn; (split; [lia|done]).
Qed.

(** The query's answer is an eligible row of the tables it read. *)
Lemma candidate_eligible d q id t :
  candidate_select d q = Some (id, t) -> threads d !! id = Some t /\ eligible d q (id, t) = true.
Proof.
  intros [Hin Hel]%first_by_elem%elem_of_bfilter. split; [|done]. by apply elem_of_map_to_list.
Qed.

Lemma keeps_next {A} scope m now lc r e l lease_secs (none : A) (rest : N -> ThreadRow -> ThreadRow -> Tx A) :
  (forall d id t sql_now i, n <= i -> eligible d (ask m scope now lc sql_now r e l) (id, t) = true ->
     row_step n k d id t o
       (take_claim m (uuid i) ((fun s => truncate_micros now + secs s)%Z <$> lease_secs) (truncate_micros now) t)) ->
  (forall id t row, keeps n R (rest id t row)) ->
  keeps n R (candidate <- claim_next_candidate scope m now lc r e l ;;
             match candidate with
             | None => ret none
             | Some (id, before) => thread <- take_candidate id m now lease_secs ;; rest id before thread
             end).
Proof using All.
  intros Hs Hk w Hw. set (w1 := {| db := db w; ticks := S (ticks w); ids := ids w |}).
  set (q := ask m scope now lc (clock (ticks w)) r e l).
  unfold kept_at. rewrite (bind_Ok _ _ w (candidate_select (db w) q) w1) by done.
  assert (R w w1) as HR1 by (by apply tx_advance). assert (ids w1 = ids w) as Hids by done.
  destruct (candidate_select (db w) q) as [[id t]|] eqn:Ec; [|done].
  apply candidate_eligible in Ec as [Ht Hel].
  destruct (take_candidate_kept id t m now lease_secs w1) as [Hi HR2]; [done|done| |].
  { intros i Hi. by eapply Hs. }
  assert (R w (take_candidate id m now lease_secs w1).2) as HR
    by (eapply tx_trans; [| |exact HR1|exact HR2]; lia).
  destruct (take_candidate id m now lease_secs w1) as [[row|err] w2] eqn:Et; cbn [fst snd] in *.
  - rewrite (bind_Ok _ _ _ _ _ Et). destruct (Hk id t row w2) as [Hi' HR3]; [lia|]. split; [lia|].
    eapply tx_trans; [| |exact HR|exact HR3]; lia.
  - rewrite (bind_Err _ _ _ _ _ Et). split; [cbn; lia|exact HR].
Qed.
End exec.

Section exec.
Context `{JsonText, Sha256, Env} (R : World -> World -> Prop) `{!StoreRel R}.

(** The operations that write no row of [maidan_threads]. *)
Lemma keeps_footprint_ops n :
  (forall g t fp, keeps n R (set g t fp))
  /\ (forall ws r by_ why f, keeps n R (pause_repo ws r by_ why f))
  /\ (forall ws r new, keeps n R (resume_repo ws r new))
  /\ (forall ws s c by_ new, keeps n R (set_slot_capacity ws s c by_ new))
  /\ (forall ws s new, keeps n R (clear_slot_capacity ws s new))
  /\ (forall ws l, keeps n R (set_limit ws l))
  /\ (forall x y, keeps n R (remove x y)).
Proof.
  split_and!; intros;
    unfold set, insert_items_on, insert_item_on, pause_repo, resume_repo, set_slot_capacity,
      clear_slot_capacity, set_limit, remove;
    keeps_auto; first [keeps_frame|apply keeps_write; intros ?; apply sr_dep_remove].
Qed.

Lemma keeps_add n x y : keeps n R (add x y).
Proof.
  intros w Hn. unfold kept_at. rewrite add_run.
  assert (R w {| db := db w; ticks := S (ticks w); ids := ids w |}) as Hadv by (apply tx_advance; done).
  case_decide as Hxy; [by split; [|apply tx_same; apply _]|].
  case_decide as Hc; [by split; [|apply tx_same; apply _]|]. case_match; (split; [done|]); cbn [snd]; [|done].
  eapply (tx_trans w {| db := db w; ticks := S (ticks w); ids := ids w |}); [done|done|done|].
  by apply (sr_dep_add {| db := db w; ticks := S (ticks w); ids := ids w |} x y).
Qed.

(** What the row steps of [o], run in [w], must keep. *)
Definition steps_kept (o : Op) (w : World) : Prop :=
  forall w1 m', ids w <= ids w1 -> rows_stepped o (ids w) (ticks w) (db w1) m' ->
    R w1 {| db := upd_threads (fun _ => m') (db w1); ticks := ticks w1; ids := ids w1 |}.

(** Assignments, named claims and the columns beside the claim. *)
Lemma exec_kept_named w o :
  match o with
  | OAssign _ _ _ | OUnassign _ _ | OSetOwner _ _ | OSetTitle _ _ | OClaim _ _ _ => True
  | _ => False
  end -> steps_kept o w -> keeps (ids w) R (exec o).
Proof.
  intros Ho Hs. pose proof (keeps_row R o _ _ Hs) as Hrow. pose proof (keeps_clear_assignee R o _ _ Hs) as Hclear.
  destruct o as [t a [[actor note]|]|t [actor|]| | |t m []| | | | | | | | | | | | | | | | | | | | | | | | ]; try done;
    cbn [exec]; (apply keeps_bind; [apply _| |intros ?; apply keeps_ret; apply _]).
  - unfold assign_with_event. keeps_auto. apply Hrow; [lia|]. intros. bool_simpl. by constructor; [lia|..].
  - unfold assign. keeps_auto. apply Hrow; [lia|]. intros. bool_simpl. by constructor; [lia|..].
  - unfold unassign_with_event. keeps_auto. apply Hclear. constructor.
  - unfold unassign. keeps_auto. apply Hclear. constructor.
  - unfold set_owner. keeps_auto. apply Hrow; [lia|]. intros. bool_simpl. by constructor.
  - unfold set_title. keeps_auto. apply Hrow; [lia|]. intros. by constructor.
  - unfold claim_with_event, claim_update. keeps_auto. apply Hrow; [lia|]. intros. bool_simpl.
    by constructor; [lia|..].
  - unfold claim, claim_update. keeps_auto. apply Hrow; [lia|]. intros. bool_simpl. by constructor; [lia|..].
Qed.

(** Pulls of the next task. *)
Lemma exec_kept_next w o :
  match o with OClaimNext _ _ _ _ _ | OClaimNextEvent _ _ _ _ _ _ _ => True | _ => False end ->
  steps_kept o w -> kept_at R (exec o) w.
Proof.
  intros Ho Hs. destruct o; try done; cbn [exec];
    (apply kept_at_bind; [apply _| |intros ?; apply keeps_ret; apply _]).
  - unfold claim_next. apply kept_at_now; [apply _|]. keeps_step.
    apply (keeps_next R _ _ _ Hs); [|intros; keeps_auto]. intros. by eapply step_next.
  - unfold claim_next_with_event. apply kept_at_commit; [apply _|]. apply kept_at_now; [apply _|].
    apply (keeps_next R _ _ _ Hs); [|intros; keeps_auto]. intros. by eapply step_next_event.
Qed.

(** The holder's operations, the sweeps and the stops. *)
Lemma exec_kept_claims w o :
  match o with
  | ORenew _ _ _ _ | OAcknowledge _ _ _ | ORelease _ _ _ _ | OReleaseMember _ | OReap _ _ _
  | OHumanTimeouts _ _ _ _ | OReportUnacknowledged _ _ _ | OReportUsage _ _ => True
  | _ => False
  end -> steps_kept o w -> keeps (ids w) R (exec o).
Proof.
  intros Ho Hs. pose proof (keeps_row R o _ _ Hs) as Hrow. pose proof (keeps_release_fenced R o _ _ Hs) as Hrel.
  destruct o as [| | | | | | | | |t m l []| | | | | | | | | | | | | | | | | | | ]; try done;
    cbn [exec]; (apply keeps_bind; [apply _| |intros ?; apply keeps_ret; apply _]).
  - unfold renew_claim. keeps_auto. apply Hrow; [lia|]. intros. by constructor.
  - unfold acknowledge_claim. keeps_auto. apply Hrow; [lia|]. intros. by constructor.
  - unfold release_claim_with_event. keeps_auto. apply Hrel. intros. by constructor.
  - unfold release_claim. keeps_auto. apply Hrel. intros. by constructor.
  - keeps_auto. apply (keeps_release_member R (OReleaseMember member) _ _ Hs). intros. by constructor.
  - unfold reap_expired_claims, reap_one. keeps_auto. apply Hrow; [lia|]. intros d row Hw. bool_simpl.
    case_match; [|done]. bool_simpl. eapply step_reap; eauto.
  - unfold return_human_timeouts, return_one. keeps_auto; [|keeps_frame].
    apply Hrel. intros. by econstructor.
  - unfold report_unacknowledged_claims, report_one, append_claim_unacknowledged_event. keeps_auto.
    apply Hrow; [lia|]. intros. bool_simpl. by constructor.
  - unfold report_usage, add_usage_in_tx, row_to_budget. keeps_auto. apply Hrow; [lia|]. intros. constructor.
Qed.

(** The side tables. *)
Lemma keeps_side n s : keeps n R (exec_side s).
Proof.
  destruct s as [| ? [] | | | | | | | | | | | | | | | | |? []|? []|? ? ? ? [[]|]| | | | | | | | | | | | | | | | |];
    cbn [exec_side]; try (apply keeps_bind; [apply _| |intros ?; apply keeps_ret; apply _]);
    unfold set_block, clear_block, clear_block_with_event, mark_unclaimable, clear_unclaimable, set_priority,
      add_required_skill, remove_required_skill, add_skill_on, remove_skill, grant_governance_skill, set_wait,
      cancel_wait, claim_next_due, declare, clear_status, set_result, link, unlink, create_reference_with_event,
      create_reference, create_gate, create_gate_with_event, resolve, resolve_audited, set_policy_audited, get_policy,
      issue_confirmation, confirm, require, set_pointer, standing, clear_land_gate, clear_on, set_review_requirement,
      clear_review_requirement, add_reviewer, remove_reviewer, remove_reviewer_on, unfreeze_member, unfreeze_on,
      member_workspace_in_tx, set_attributes, set_unique_thread_attributes, set_default_engine, set_review_children,
      set_workspace, set_spawn_budget, clear_duplicate, audited, add_skill_on; side.
Qed.

(** The relation as far as the operation's identifiers go. *)
Definition since (n : nat) (w w' : World) : Prop := n <= ids w -> R w w'.

Global Instance since_store n : StoreRel (since n).
Proof.
  constructor; [constructor|..]; try (intros; intros Hn; solve [by apply sr_frame|by apply sr_dep_add|apply sr_dep_remove
    |apply sr_audit|by apply sr_budgets|apply sr_versions|apply sr_dlq|apply sr_status|apply sr_worker|apply sr_held]).
  - constructor; [intros w t i Hi Hn; by apply tx_advance|].
    intros w1 w2 w3 Hi Hi' H12 H23 Hn. eapply (tx_trans w1 w2); [done|done|by apply H12|apply H23; lia].
  - intros n' sl e w Hn'. destruct (sr_append_event (R:=R) 0 sl e w) as [Hi HR]; [lia|]. by split; [|intros _].
Qed.

(** New rows, moves and cleared claims are row steps of the operation. *)
Lemma flow_rel f w :
  steps_kept (OFlow f) w ->
  FlowRel (touches (plan_children (db w)) f) (guarded (plan_is (plan_children (db w))) (since (ids w))).
Proof.
  intros Hs. assert (forall w1 id t', ids w <= ids w1 ->
      match threads (db w1) !! id with
      | Some t => row_step (ids w) (ticks w) (db w1) id t (OFlow f) t'
      | None => newborn t' /\ rooted_in (threads (db w1)) t'
      end -> R w1 (put w1 id t')) as Hput.
  { intros w1 id t' Hn Hid. apply (Hs w1 (<[id := t']> (threads (db w1))) Hn). intros j.
    destruct (decide (j = id)) as [->|Hj].
    - rewrite lookup_insert_eq. destruct (threads (db w1) !! id); [by right|]. split; [by eexists|done].
    - rewrite lookup_insert_ne by done. destruct (threads (db w1) !! j); [by left|done]. }
  constructor; [constructor; [apply _|]|..].
  - intros w1 id t Hid Ht Hr Hj. split; [exact Hj|]. intros Hn. apply Hput; [done|]. by rewrite Hid.
  - intros w1 id t to now Hm Hid Hl Hj. split; [exact Hj|]. intros Hn. apply Hput; [done|]. rewrite Hid.
    apply step_move; [|done]. by rewrite Hj.
  - intros w1 id t now Hm Hid Hj. split; [exact Hj|]. intros Hn. apply Hput; [done|]. rewrite Hid.
    apply step_drop. by rewrite Hj.
Qed.

Lemma exec_kept_flow f w : steps_kept (OFlow f) w -> kept_at R (exec_flow f) w.
Proof.
  intros Hs. pose proof (flow_rel f w Hs) as HF. set (p := plan_children (db w)) in *.
  assert (forall m : Tx unit, keeps (ids w) (guarded (plan_is p) (since (ids w))) m -> kept_at R m w) as Hdone.
  { intros m Hm. destruct (Hm w (le_n _)) as [Hi HR]. split; [done|]. by apply HR. }
  assert (forall id, may_close f = true -> plan_parent p id -> touches p f id) as Hpar by (intros; by right).
  destruct f as [| | | |t a act []| | | | |]; cbn [exec_flow].
  11: { cut (keeps (ids w) R (freeze_member member by_ reason audit_for)).
    { intros Hk. apply kept_at_bind; [apply _|by apply Hk|intros; apply keeps_ret; apply _]. }
    unfold freeze_member, audited, freeze_on, member_workspace_in_tx. keeps_plain; [keeps_frame|].
    apply (keeps_release_member R _ _ _ Hs). intros. by constructor. }
  all: apply Hdone; apply keeps_bind; [apply _| |intros ?; apply keeps_ret; apply _].
  - by apply keeps_create_checked, _.
  - by apply keeps_insert_on, _.
  - by apply keeps_create, _.
  - by apply keeps_create_with_footprint, _.
  - apply (keeps_transition_with_event _ p _ _); [by intros; apply Hpar|by left].
  - apply (keeps_transition _ p _ _); [by intros; apply Hpar|by left].
  - eapply keeps_submit_review; [apply _|by left].
  - eapply keeps_critical_review; [apply _|by left].
  - apply (keeps_close_abandoned _ p _ _); [by intros; apply Hpar|by left].
  - apply (keeps_cancel _ p _ _); [by intros; apply Hpar|by left].
Qed.

(** An accounted usage report. *)
Definition accounted (o : Op) : bool := match o with OReportAccounted _ => true | _ => false end.

Lemma exec_kept_accounted `{!LedgerRel R} new w :
  steps_kept (OReportAccounted new) w -> keeps (ids w) R (exec (OReportAccounted new)).
Proof.
  intros Hs. pose proof (keeps_row R _ _ _ Hs) as Hrow. cbn [exec].
  apply keeps_bind; [apply _| |intros ?; apply keeps_ret; apply _].
  unfold report_accounted_usage, reserve_in_tx, sql_datetime, charge_accounted, add_accounted_usage_in_tx, row_to_budget, finish_in_tx,
    stop_accounted. keeps_auto; try (apply keeps_write; intros ?; apply lr_ledger); try (apply keeps_accounted; apply _).
  apply Hrow; [lia|]. intros. bool_simpl. by constructor.
Qed.

(** Every other operation, of any relation. *)
Lemma exec_kept_plain o w : accounted o = false -> steps_kept o w -> kept_at R (exec o) w.
Proof.
  intros Ha Hs. pose proof (keeps_footprint_ops (ids w)) as (F1 & F2 & F3 & F4 & F5 & F6 & F7). pose proof (keeps_add (ids w)) as F8.
  destruct o; try done; try (by apply exec_kept_next); try (by apply (exec_kept_named w));
    try (by apply (exec_kept_claims w)); try (by apply exec_kept_flow);
    match goal with |- kept_at R ?m w => cut (keeps (ids w) R m); [intros Hk; by apply Hk|] end; cbn [exec];
    try (apply keeps_bind; [apply _| |intros ?; apply keeps_ret; apply _]); auto.
  - unfold add_usage, row_to_budget. keeps_auto.
  - unfold set_budget, row_to_budget. keeps_auto.
  - unfold patch_budget, row_to_budget. keeps_auto.
  - apply keeps_side.
Qed.

Lemma exec_kept `{!LedgerRel R} o w : steps_kept o w -> kept_at R (exec o) w.
Proof.
  intros Hs. destruct (accounted o) eqn:E; [|by apply exec_kept_plain].
  destruct o; try done. by apply (exec_kept_accounted new w Hs).
Qed.
End exec.
