(* ===== verification/Outbox.v ===== *)
(** * The transactional outbox and its relay

    [crates/maidan-store/src/sqlite/outbox.rs], behind
    [crates/maidan-store/src/outbox.rs], and one turn of the relay of
    [crates/maidan-server/src/outbox_relay.rs]: rows are claimed under a lease,
    published to the bus, and marked, retried or quarantined. A turn is a sequence
    of store calls and publishes, and [turn_step] makes one of them, so that the
    turns of several relays can be interleaved. The bus and the opening of rows
    and payloads are outside: [bus_accepts] says which calls succeed and
    [open_fails] which claimed rows cannot be opened. *)

From S2P Require Import Prelude Text Json EventChain EventLog Db TxLogic Claimability.
Local Open Scope tx_scope.

(** ** Rows *)

Definition eta_OutboxRow (r : OutboxRow) : OutboxRow :=
  {| o_id := o_id r; o_log := o_log r; o_created := o_created r; o_published := o_published r;
     o_attempts := o_attempts r; o_quarantined := o_quarantined r; o_claimed := o_claimed r |}.
Definition upd_published : (option Z -> option Z) -> OutboxRow -> OutboxRow := ltac:(field_setter eta_OutboxRow o_published).
Definition upd_attempts : (Z -> Z) -> OutboxRow -> OutboxRow := ltac:(field_setter eta_OutboxRow o_attempts).
Definition upd_quarantined : (option Z -> option Z) -> OutboxRow -> OutboxRow := ltac:(field_setter eta_OutboxRow o_quarantined).
Definition upd_claimed : (option Z -> option Z) -> OutboxRow -> OutboxRow := ltac:(field_setter eta_OutboxRow o_claimed).

(** [RELAYABLE]. *)
Definition relayable (r : OutboxRow) : bool :=
  bool_decide (o_published r = None) && bool_decide (o_quarantined r = None).

(** [UPDATE maidan_outbox SET … WHERE …]; how many rows matched. *)
Definition update_outbox (where_ : Db -> OutboxRow -> bool) (set : OutboxRow -> OutboxRow) : Tx nat :=
  fun w =>
    (Ok (length (List.filter (where_ (db w)) (o_rows (outbox (db w))))),
     {| db := upd_outbox (fun o => {| o_rows := (fun r => if where_ (db w) r then set r else r) <$> o_rows o;
                                      o_seq := o_seq o |}) (db w);
        ticks := ticks w; ids := ids w |}).

(** The event an outbox row names. *)
Definition event_of (d : Db) (log_id : Z) : option EventRow :=
  List.find (fun e => bool_decide (e_id e = log_id)) (rows (log d)).

(** What the relay is given of a row. *)
Record Pending := { pd_id : Z; pd_log : Z; pd_attempts : Z; pd_payload : Value }.
Definition pending_of (d : Db) (r : OutboxRow) : option Pending :=
  e ← event_of d (o_log r);
  Some {| pd_id := o_id r; pd_log := o_log r; pd_attempts := o_attempts r; pd_payload := e_payload e |}.

(** What [open_rows], the decoding of a payload and [unwrap_joined] answer for a
    row that was read, by the time of the reading: the error, if any. *)
Class OutboxKeys := { open_fails : nat -> Pending -> option StoreError }.

Section env.
Context `{Env, OutboxKeys}.

(** The rows opened one after the other; the first error is the call's. *)
Definition open_pending (pending : list Pending) : Tx (list Pending) := fun w =>
  match omap (open_fails (ticks w)) pending with
  | [] => (Ok pending, w)
  | e :: _ => (Err e, w)
  end.

(** [strftime('%Y-%m-%dT%H:%M:%fZ', 'now')], a reading in milliseconds. *)
Definition sql_now : Tx Z := now <- utc_now ;; ret (sql_now_ms now * 1000000)%Z.

(** Relayable and not under another relay's lease. *)
Definition claimable_row (cutoff : Z) (r : OutboxRow) : bool :=
  relayable r && match o_claimed r with None => true | Some c => (c <? cutoff)%Z end.

(** The claim commits before its rows are opened: when one cannot be, the whole
    batch fails and stays leased. *)
Definition claim_pending (limit lease_secs : Z) : Tx (list Pending) :=
  now <- utc_now ;;
  let cutoff := (now - secs lease_secs)%Z in
  pending <- commit
    (picked <- read (fun d => o_id <$> sql_limit limit
                                (order_by (fun r => [o_id r])
                                   (List.filter (claimable_row cutoff) (o_rows (outbox d))))) ;;
     for_each (fun id => update_outbox (fun _ r => bool_decide (o_id r = id)) (upd_claimed (fun _ => Some now)))
       picked ;;
     read (fun d => omap (pending_of d)
                      (order_by (fun r => [o_id r])
                         (List.filter (fun r => bool_decide (o_id r ∈ picked)) (o_rows (outbox d)))))) ;;
  open_pending pending.

Definition list_pending (limit : Z) : Tx (list Pending) :=
  pending <- read (fun d => sql_limit limit
                              (omap (pending_of d)
                                 (order_by (fun r => [o_id r]) (List.filter relayable (o_rows (outbox d)))))) ;;
  open_pending pending.

Definition mark_published (outbox_id : Z) : Tx unit :=
  now <- sql_now ;;
  updated <- update_outbox (fun _ r => bool_decide (o_id r = outbox_id) && bool_decide (o_published r = None))
               (upd_published (fun _ => Some now)) ;;
  if decide (updated = 0) then fail NotFound else ret tt.

Definition mark_published_batch (outbox_ids : list Z) : Tx unit :=
  if decide (outbox_ids = []) then ret tt
  else
    now <- sql_now ;;
    update_outbox (fun _ r => bool_decide (o_published r = None) && bool_decide (o_id r ∈ outbox_ids))
      (upd_published (fun _ => Some now)) ;;
    ret tt.

Definition record_attempt (outbox_id : Z) : Tx Z :=
  update_outbox (fun _ r => bool_decide (o_id r = outbox_id))
    (fun r => upd_claimed (fun _ => None) (upd_attempts (fun n => n + 1)%Z r)) ;;
  row <- read (fun d => List.find (fun r => bool_decide (o_id r = outbox_id)) (o_rows (outbox d))) ;;
  row <- ok_or row NotFound ;;
  ret (o_attempts row).

Definition quarantine (outbox_id : Z) : Tx unit :=
  now <- sql_now ;;
  update_outbox (fun _ r => bool_decide (o_id r = outbox_id) && bool_decide (o_quarantined r = None))
    (upd_quarantined (fun _ => Some now)) ;;
  ret tt.

Definition event_in_workspace (d : Db) (ws : N) (log_id : Z) : bool :=
  existsb (fun e => bool_decide (e_id e = log_id) && bool_decide (e_ws e = Some ws)) (rows (log d)).

Definition replay_quarantined (outbox_id : Z) (ws : N) : Tx unit :=
  updated <- update_outbox
               (fun d r => bool_decide (o_id r = outbox_id) && bool_decide (o_published r = None)
                           && bool_decide (is_Some (o_quarantined r)) && event_in_workspace d ws (o_log r))
               (fun r => upd_quarantined (fun _ => None) (upd_attempts (fun _ => 0%Z) r)) ;;
  if decide (updated = 0) then fail NotFound else ret tt.

Definition count_pending : Tx nat := read (fun d => length (List.filter relayable (o_rows (outbox d)))).

Definition quarantined_row (r : OutboxRow) : bool :=
  bool_decide (o_published r = None) && bool_decide (is_Some (o_quarantined r)).
Definition count_quarantined : Tx nat :=
  read (fun d => length (List.filter quarantined_row (o_rows (outbox d)))).
Definition list_quarantined_for_workspace (ws : N) (limit : Z) : Tx (list OutboxRow) :=
  read (fun d => sql_limit limit
                   (order_by (fun r => [- o_id r]%Z)
                      (List.filter (fun r => quarantined_row r && event_in_workspace d ws (o_log r))
                         (o_rows (outbox d))))).
End env.

(** ** The relay ([outbox_relay.rs]) *)

Definition BATCH : Z := 64.
Definition CLAIM_LEASE_SECS : Z := 60.
Definition DEFAULT_MAX_ATTEMPTS : Z := 16.

(** [sent] is what the bus accepted, in order; [calls] numbers the calls. *)
Record RelayWorld := { rw : World; sent : list Z; calls : nat }.

Record RelayTick := { fetched : nat; relayed : nat }.

Class Bus := { bus_accepts : nat -> Pending -> bool }.

Section relay.
Context `{Env, OutboxKeys, Bus}.

(** A store call of the relay. *)
Definition in_store {A} (m : Tx A) (s : RelayWorld) : result StoreError A * RelayWorld :=
  let (r, w) := m (rw s) in (r, {| rw := w; sent := sent s; calls := calls s |}).

Definition relay_one (p : Pending) (s : RelayWorld) : bool * RelayWorld :=
  if bus_accepts (calls s) p
  then (true, {| rw := rw s; sent := sent s ++ [pd_log p]; calls := S (calls s) |})
  else (false, {| rw := rw s; sent := sent s; calls := S (calls s) |}).

(** Where a turn of [run_once] is: before the claim; before the next claimed row,
    or the batch mark when none is left; after a failed publish, before its attempt
    is recorded; after the attempt that reached the limit, before the quarantine;
    at its end. [fetched] is the number of rows claimed and [published] the ids of
    the rows published so far. *)
Inductive Turn :=
| TClaim
| TRow (fetched : nat) (pending : list Pending) (published : list Z)
| TAttempt (fetched : nat) (row : Pending) (rest : list Pending) (published : list Z)
| TQuarantine (fetched : nat) (row : Pending) (rest : list Pending) (published : list Z)
| TDone (outcome : result StoreError RelayTick).

(** One store call or publish of [run_once]. An error of the store ends the turn;
    a failed quarantine is only logged. *)
Definition turn_step (max_attempts : Z) (t : Turn) (s : RelayWorld) : Turn * RelayWorld :=
  match t with
  | TClaim =>
      match in_store (claim_pending BATCH CLAIM_LEASE_SECS) s with
      | (Ok pending, s) => (TRow (length pending) pending [], s)
      | (Err e, s) => (TDone (Err e), s)
      end
  | TRow fetched (row :: rest) published =>
      match relay_one row s with
      | (true, s) => (TRow fetched rest (published ++ [pd_id row]), s)
      | (false, s) => (TAttempt fetched row rest published, s)
      end
  | TAttempt fetched row rest published =>
      match in_store (record_attempt (pd_id row)) s with
      | (Ok attempts, s) =>
          if (max_attempts <=? attempts)%Z then (TQuarantine fetched row rest published, s)
          else (TRow fetched rest published, s)
      | (Err e, s) => (TDone (Err e), s)
      end
  | TQuarantine fetched row rest published =>
      (TRow fetched rest published, (in_store (quarantine (pd_id row)) s).2)
  | TRow fetched [] published =>
      match in_store (mark_published_batch published) s with
      | (Ok _, s) => (TDone (Ok {| fetched := fetched; relayed := length published |}), s)
      | (Err e, s) => (TDone (Err e), s)
      end
  | TDone outcome => (TDone outcome, s)
  end.

(** A turn left to itself, for as many calls as [fuel]. *)
Fixpoint turn_steps (fuel : nat) (max_attempts : Z) (t : Turn) (s : RelayWorld) : Turn * RelayWorld :=
  match fuel with
  | O => (t, s)
  | S fuel => let '(t, s) := turn_step max_attempts t s in turn_steps fuel max_attempts t s
  end.

(** [run_once], undisturbed: three calls for each row of the table, the claim and
    the batch mark are always enough ([OutboxLaws.run_once_returns]). *)
Definition run_once (max_attempts : Z) (s : RelayWorld) : option (result StoreError RelayTick * RelayWorld) :=
  match turn_steps (2 + 3 * length (o_rows (outbox (db (rw s))))) max_attempts TClaim s with
  | (TDone outcome, s) => Some (outcome, s)
  | _ => None
  end.

(** [OutboxRelay::with_options]. *)
Definition effective_max_attempts (n : Z) : Z := Z.max n 1.

(** [backoff_step], in any unit of time: double, within the base and the cap. *)
Definition backoff_step (current base cap : Z) : Z := Z.max base (Z.min cap (current * 2)).
End relay.
