(* ===== verification/Samples.v ===== *)
(** * A small store

    A concrete environment and a database with three threads, on which the
    laws are evaluated: thread 100 is held by member 5 under a lease with a
    minute left, 101 is open and free, and 102 is held by member 6 under a
    lease that lapsed a minute ago over a path inside 100's. *)

From stdpp Require Import strings.
From S2P Require Import Prelude Text Json EventChain EventLog Footprint Fsm Review Db TxLogic AuditTrail Claimability Threads Gates LandGate Packets Landing Reviews Closing Creation Dispatch Governance StoreOps Outbox.

Module Sample.
Definition start : Z := 1700000000000000000.

(** A clock that ticks once a second, and identifiers that count. *)
#[export] Instance env : Env :=
  {| clock := fun k => (start + Z.of_nat k * 1000000000)%Z;
     uuid := N.of_nat;
     current_attribution := None;
     event_value := fun e => Object [(lit "kind", Str (event_kind e))];
     seal_words := fun v => v;
     attribution_value := fun _ => Null |}.

#[export] Instance uuid_inj : Inj (=) (=) (@uuid env).
Proof. intros i j. apply Nat2N.inj. Qed.

Lemma clock_mono i j : i <= j -> (clock i <= clock j)%Z.
Proof. cbn. lia. Qed.

Definition free (title : str) : ThreadRow :=
  {| t_channel := 10; t_parent := None; t_title := Some title; t_description := None; t_state := Open;
     t_created := start - 7200000000000; t_updated := start - 7200000000000; t_tombstoned := None;
     t_assignee := None; t_expires := None; t_lease := None; t_claimed := None; t_started := None;
     t_owner := None; t_created_by := Some 5%N; t_unacknowledged := None |}.

Definition held_by (m token : N) (expires : Z) (t : ThreadRow) : ThreadRow :=
  {| t_channel := t_channel t; t_parent := t_parent t; t_title := t_title t;
     t_description := t_description t; t_state := t_state t; t_created := t_created t;
     t_updated := t_updated t; t_tombstoned := t_tombstoned t; t_assignee := Some m;
     t_expires := Some expires; t_lease := Some token; t_claimed := Some (start - 600000000000)%Z;
     t_started := Some (start - 500000000000)%Z; t_owner := t_owner t; t_created_by := t_created_by t;
     t_unacknowledged := t_unacknowledged t |}.

Definition path_item (thread : N) (path : str) : FootprintRow :=
  {| f_thread := thread; f_ws := 1; f_repo := lit "acme/app"; f_mode := Exclusive; f_kind := Path;
     f_value := path; f_namespace := "path"; f_key := path |}.

Definition channel : ChannelRow :=
  {| c_ws := 1; c_name := lit "general"; c_topic := None; c_private := false;
     c_created := start - 7200000000000; c_updated := start - 7200000000000; c_tombstoned := None |}.
Definition member : MemberRow :=
  {| m_ws := 1; m_handle := lit "worker"; m_display_name := None; m_kind := MAgent;
     m_created := start - 7200000000000; m_updated := start - 7200000000000; m_tombstoned := None |}.

Definition tables : Db :=
  {| workspaces := {[1%N := {| ws_review_children := true; ws_default_engine := None; ws_unique := [] |}]};
     threads := <[100%N := held_by 5 40 (start + 60000000000) (free (lit "one"))]>
                  (<[101%N := free (lit "two")]>
                     {[102%N := held_by 6 41 (start - 60000000000) (free (lit "three"))]});
     messages := ∅;
     channels := {[10%N := channel]};
     members := <[5%N := member]> (<[6%N := member]> {[7%N := member]});
     channel_members := ∅; dm_conversations := ∅; group_dms := ∅; group_dm_members := ∅;
     footprints := [path_item 100 (lit "src/"); path_item 101 (lit "docs/"); path_item 102 (lit "src/lib.rs")];
     slot_capacities := ∅; repo_pauses := ∅; thread_unclaimable := ∅; thread_blocks := ∅;
     thread_dependencies := ∅; unlanded_closes := ∅; task_fingerprints := ∅; thread_attributes := ∅;
     approval_gates := ∅; approval_policies := ∅; approval_confirmations := ∅; thread_budgets := ∅; thread_results := ∅; thread_transitions := [];
     thread_priorities := ∅; required_skills := ∅; member_skills := ∅; member_freezes := ∅; thread_waits := ∅; thread_cancellations := ∅;
     thread_workers := <[(100%N, 5%N) := Some 1%Z]> {[(102%N, 6%N) := Some 1%Z]};
     usage_ledger := []; recipe_run_children := ∅; thread_status := ∅; spawn_budgets := ∅;
     wip_limits := ∅; review_reqs := ∅; reviewers := ∅; reviews := ∅; review_verdicts := []; review_packets := [];
     land_gates := ∅; land_verdicts := []; artifact_refs := ∅; thread_artifacts := ∅; api_tokens := ∅; delegation_grants := ∅;
     delegation_policies := ∅; token_quotas := ∅; scim_users := ∅; app_installations := ∅; oauth_clients := ∅; oauth_pending := ∅; oauth_codes := ∅; oauth_refresh := ∅;
     oauth_grants := {[3%N := {| og_client := lit "app"; og_member := 5; og_ws := 1; og_scope := []; og_lineage := 9; og_created := start; og_revoked := None |}]}; workspace_suspensions := ∅; thread_versions := ∅;
     references := []; plan_children := ∅; change_pulls := []; pull_ci := ∅; dead_letters := []; audit := []; log := empty_log;
     outbox := {| o_rows := []; o_seq := 0 |} |}.

Definition world : World := {| db := tables; ticks := 0; ids := 50 |}.

(** What a test of the rows of a finite map says of each. *)
Lemma threads_all (p : N -> ThreadRow -> bool) (d : Db) :
  forallb (fun e => p e.1 e.2) (map_to_list (threads d)) = true ->
  forall id t, threads d !! id = Some t -> p id t = true.
Proof.
  rewrite forallb_true. intros Hall id t Ht. apply (Hall (id, t)). by apply elem_of_map_to_list.
Qed.

(** A bus that accepts everything, and a relay over the sample with events
    appended by one operation. *)
#[export] Instance bus : Bus := {| bus_accepts := fun _ _ => true |}.
#[export] Instance keys_at_hand : OutboxKeys := {| open_fails := fun _ _ => None |}.

(** ** A review on the sample

    Thread 101 with an owner, a requirement of one approval in at most two rounds
    and a land gate, worked by member 7 and handed over; then approved by member 6,
    who also records the land gate's pass; or sent back, twice. *)
Definition note : NewAuditEvent :=
  {| na_scope := ScopeWorkspace 1; na_actor := Some 5%N; na_action := lit "set"; na_target_kind := None;
     na_target_id := None; na_metadata := Null |}.
Definition handed : World :=
  run [OSetOwner 101 (Some 5%N); OClaim 101 7 true; OSide (SSetRequirement 101 1 (Some 2%Z) false (fun _ => note));
       OSide (SRequireLandGate 101); OSide (SSetResult 101 7 50 (Object [])); OFlow (FTransition 101 7 StartReview true)] world.
Definition approved : World :=
  run [OSide (SGrantSkill 6 LAND_GATE_SKILL note); OSide (SSetPointer 101 6 Pass (Some (lit "abc")) None);
       OFlow (FSubmitReview 101 6 Approve None (latest_root (db handed) 101) None)] handed.
Definition sent_back : World :=
  run [OFlow (FSubmitReview 101 6 RequestChangesDecision (Some (lit "redo")) None None)] approved.
Definition capped : World :=
  run [OSide (SSetResult 101 7 50 (Object [])); OFlow (FTransition 101 7 StartReview true);
       OFlow (FSubmitReview 101 6 RequestChangesDecision (Some (lit "redo")) None None)] sent_back.

(** What a run that succeeds returns. *)
Lemma run_value {A} (m : Tx A) w (p : A -> bool) :
  match (m w).1 with Ok a => p a | Err _ => false end = true -> exists a w', m w = (Ok a, w') /\ p a = true.
Proof. destruct (m w) as [[a|e] w']; [eauto|done]. Qed.
End Sample.
