(* ===== verification/ClaimLaws.v ===== *)
(** * Laws of the claim queue

    What the operations of [StoreOps] guarantee, whatever calls come in
    between: rows stay well formed, a token that was lost is refused for
    ever, a live claim is only ended by those entitled to end it, and the boot
    grace holds every claim. *)

From stdpp Require Import strings.
From S2P Require Import Prelude Text Json EventChain EventLog Footprint Fsm Usage Db Budget TxLogic AuditTrail Claimability Threads FootprintStore Deps Landing Dispatch StoreRels FlowLogic StoreOps Samples.
Local Open Scope tx_scope.

Section laws.
Context `{JsonText, Sha256, Env}.

(** ** Relations on the rows of [maidan_threads] *)

(** A relation between a thread's rows, for every thread, and a property of the
    rows that are new. *)
Definition rows_rel (S : N -> relation ThreadRow) (B : N -> ThreadRow -> Prop) (w w' : World) : Prop :=
  forall id, match threads (db w) !! id, threads (db w') !! id with
             | Some t, Some t' => S id t t'
             | None, Some t' => B id t'
             | None, None => True
             | Some _, None => False
             end.

(** What holds of a new row holds after the relation. *)
Class Inherits (S : N -> relation ThreadRow) (B : N -> ThreadRow -> Prop) : Prop :=
  inherits id t t' : B id t -> S id t t' -> B id t'.

Global Instance rows_rel_store S B `{!forall id, PreOrder (S id), !Inherits S B} : StoreRel (rows_rel S B).
Proof.
  assert (forall w w', threads (db w') = threads (db w) -> rows_rel S B w w') as Hsame.
  { intros w w' Heq id. rewrite Heq. by destruct (threads (db w) !! id). }
  constructor; try (intros; by apply Hsame); [|intros w d' (Ht & _); by apply Hsame].
  constructor; try (intros; by apply Hsame).
  - constructor; [intros; by apply Hsame|]. intros w1 w2 w3 _ _ H12 H23 id.
    specialize (H12 id). specialize (H23 id).
    destruct (threads (db w1) !! id), (threads (db w2) !! id), (threads (db w3) !! id); try done;
      [by etrans|by eapply inherits].
  - intros n s e w _. unfold kept_at. destruct (append_event_frame s e w) as [-> [Hd|(l & o & Hd)]];
      (split; [done|]); apply Hsame; by rewrite Hd.
Qed.

Global Instance rows_rel_ledger S B `{!forall id, PreOrder (S id)} : LedgerRel (rows_rel S B).
Proof. constructor; intros w f id; cbn; by destruct (threads (db w) !! id). Qed.

(** A property of a thread's row that an operation's row steps keep. *)
Definition kept (P : N -> ThreadRow -> Prop) : N -> relation ThreadRow := fun id t t' => P id t -> P id t'.
Global Instance kept_preorder P id : PreOrder (kept P id).
Proof. unfold kept. split; [by intros t|]. intros t1 t2 t3. auto. Qed.
Global Instance kept_inherits P : Inherits (kept P) P.
Proof. intros id t t'. unfold kept. auto. Qed.
Definition anything (_ : N) (_ : ThreadRow) : Prop := True.
Global Instance anything_inherits S : Inherits S anything.
Proof. done. Qed.

Lemma exec_rows S B `{!forall id, PreOrder (S id), !Inherits S B} o w :
  (forall id d t t', plan_children d = plan_children (db w) -> row_step (ids w) (ticks w) d id t o t' -> S id t t') ->
  (forall id t, newborn t -> B id t) ->
  rows_rel S B w (exec o w).2.
Proof.
  intros Hs Hb. destruct (exec_kept (guarded (plan_is (plan_children (db w))) (rows_rel S B)) o w) as [_ HR].
  - intros w0 m' _ Hm Hp. split; [exact Hp|]. intros id. specialize (Hm id). cbn.
    destruct (threads (db w0) !! id), (m' !! id); try done; [|apply Hb; by destruct Hm as (_ & ? & _)].
    destruct Hm as [->|Hr]; [done|]. by eapply Hs.
  - by apply HR.
Qed.

(** The same of a row after the operation: the thread was there before, or it is
    new. *)
Lemma exec_row_after P o w id t' :
  (forall id d t t', row_step (ids w) (ticks w) d id t o t' -> P id t -> P id t') ->
  (forall id t, newborn t -> P id t) ->
  threads (db (exec o w).2) !! id = Some t' ->
  P id t' \/ exists t, threads (db w) !! id = Some t /\ (P id t -> P id t').
Proof.
  intros Hs Hb Ht'. pose proof (exec_rows (kept P) P o w (fun i d t t' _ => Hs i d t t') Hb id) as Hr.
  rewrite Ht' in Hr. destruct (threads (db w) !! id); [right; eauto|by left].
Qed.

Lemma exec_row_before P o w id t :
  (forall id d t t', plan_children d = plan_children (db w) -> row_step (ids w) (ticks w) d id t o t' -> P id t -> P id t') ->
  threads (db w) !! id = Some t -> exists t', threads (db (exec o w).2) !! id = Some t' /\ (P id t -> P id t').
Proof.
  intros Hs Ht. pose proof (exec_rows (kept P) anything o w Hs (fun _ _ _ => I) id) as Hr. rewrite Ht in Hr.
  destruct (threads (db (exec o w).2) !! id); [eauto|done].
Qed.

Lemma exec_ids o w : ids w <= ids (exec o w).2.
Proof. by apply (exec_kept any o w). Qed.

(** ** Well-formed claims *)

(** A free row carries nothing of a claim; a held one its token and its stamp. *)
Definition row_wf (t : ThreadRow) : Prop :=
  match t_assignee t with
  | None => t_lease t = None /\ t_expires t = None /\ t_claimed t = None /\ t_started t = None
  | Some _ => is_Some (t_lease t) /\ is_Some (t_claimed t)
  end.
Global Instance row_wf_dec t : Decision (row_wf t).
Proof. unfold row_wf. destruct (t_assignee t); apply _. Defined.
Definition rows_wf (d : Db) : Prop := forall id t, threads d !! id = Some t -> row_wf t.

Lemma row_step_wf n k d id t o t' : row_step n k d id t o t' -> row_wf t -> row_wf t'.
Proof.
  destruct 1; intros Hwf; unfold row_wf in *; cbn in *; eauto.
  all: try (destruct (is_terminal to); [by split_and!|done]).
  all: try (unfold fenced in *; bool_simpl; by destruct (t_assignee t)).
Qed.

(** Every sequence of store operations keeps the claim columns of every thread consistent: an unassigned thread has no token, deadline, claim stamp or working clock, an assigned one has its token and its claim stamp. *)
Theorem claim_columns_wf ops w : rows_wf (db w) -> rows_wf (db (run ops w)).
Proof.
  revert w. induction ops as [|o ops IH]; intros w Hwf; [done|]. cbn. apply IH. intros id t' Ht'.
  apply (exec_row_after (fun _ => row_wf)) in Ht' as [|(t & Ht & Hp)]; [done|by eapply Hp, Hwf| |].
  - intros. by eapply row_step_wf.
  - by intros ? ? (? & ? & ? & ? & ? & ? & ->).
Qed.

(** ** Tokens *)

(** A token given out before that is not on the thread's row. *)
Definition token_lost (w : World) (thread token : N) : Prop :=
  (exists j, j < ids w /\ token = uuid j)
  /\ forall t, threads (db w) !! thread = Some t -> t_lease t <> Some token.

Lemma token_lost_step `{!Inj (=) (=) uuid} o w thread token :
  token_lost w thread token -> token_lost (exec o w).2 thread token.
Proof.
  intros [(j & Hj & ->) Hl]. pose proof (exec_ids o w) as Hids. split; [exists j; split; [lia|done]|].
  intros t' Ht' Heq. apply (exec_row_after (fun id t => id = thread -> t_lease t <> Some (uuid j)))
    in Ht' as [Hp|(t & Ht & Hp)]; [by apply Hp|by apply Hp; auto| |by intros ? ? (? & ? & ? & ? & ? & ? & ->)].
  clear - Hj Inj0. intros id d t t' Hs Hp ->. specialize (Hp eq_refl).
  destruct Hs; cbn; try done; try (intros [= Heq%Inj0]; lia). by destruct (is_terminal to).
Qed.

Lemma token_lost_run `{!Inj (=) (=) uuid} ops w thread token :
  token_lost w thread token -> token_lost (run ops w) thread token.
Proof. revert w. induction ops as [|o ops IH]; intros w Hl; [done|]. by apply IH, token_lost_step. Qed.

(** The holder's operations, one condition: the row is live and carries the
    caller and its token. *)
Definition holds (w : World) (thread member lease : N) : bool :=
  match threads (db w) !! thread with Some t => fenced member lease t | None => false end.

Lemma fenced_ops_refused thread member lease s w :
  holds w thread member lease = false ->
  (renew_claim thread member lease s w).1 = Err NotFound
  /\ (acknowledge_claim thread member lease w).1 = Err NotFound
  /\ (release_claim thread member lease w).1 = Err NotFound
  /\ (release_claim_with_event thread member lease w).1 = Err NotFound
  /\ forall v, (set_result thread member lease v w).1 = Err ClaimLost.
Proof.
  unfold holds. intros Hh.
  unfold set_result, renew_claim, acknowledge_claim, release_claim, release_claim_with_event, release_fenced_in_tx,
    commit, bind, utc_now, read, update_thread. cbn.
  destruct (threads (db w) !! thread) as [t|]; cbn; [|done]. by rewrite Hh.
Qed.

(** C4: fencing is permanent. Once a token that was handed out is no longer on a thread (its claim was released, reaped, reassigned, stopped or taken over), then after any sequence of store operations a heartbeat, an acknowledgement or a release that presents it is refused with NotFound and a result with ClaimLost, whoever sends it. *)
Theorem lost_token_refused `{!Inj (=) (=) uuid} ops w thread token :
  token_lost w thread token ->
  forall member s,
    (renew_claim thread member token s (run ops w)).1 = Err NotFound
    /\ (acknowledge_claim thread member token (run ops w)).1 = Err NotFound
    /\ (release_claim thread member token (run ops w)).1 = Err NotFound
    /\ (release_claim_with_event thread member token (run ops w)).1 = Err NotFound
    /\ forall v, (set_result thread member token v (run ops w)).1 = Err ClaimLost.
Proof.
  intros Hl member s. apply fenced_ops_refused. apply (token_lost_run ops) in Hl as [_ Hl].
  unfold holds. destruct (threads (db (run ops w)) !! thread) as [t|]; [|done].
  specialize (Hl t eq_refl). unfold fenced. rewrite (bool_decide_eq_false_2 _ Hl). by rewrite andb_false_r.
Qed.

(** The heartbeat and the acknowledgement succeed exactly for the holder of a live thread presenting its token; they then change that row only, the heartbeat its deadline to now plus the lease and the acknowledgement its working clock if it was not yet running; otherwise they change nothing and return NotFound. *)
Theorem heartbeat_exact thread member lease s w :
  (forall t, threads (db w) !! thread = Some t -> fenced member lease t = true ->
     renew_claim thread member lease s w
     = (let t' := upd_updated (fun _ => clock (ticks w))
                    (upd_expires (fun _ => Some (clock (ticks w) + secs s)%Z) t) in
        (Ok t', {| db := db (put w thread t'); ticks := S (ticks w); ids := ids w |}))
     /\ acknowledge_claim thread member lease w
        = (let t' := upd_updated (fun _ => clock (ticks w))
                       (upd_started (fun st => Some (default (clock (ticks w)) st)) t) in
           (Ok t', {| db := db (put w thread t'); ticks := S (ticks w); ids := ids w |})))
  /\ (holds w thread member lease = false ->
      renew_claim thread member lease s w
      = (Err NotFound, {| db := db w; ticks := S (ticks w); ids := ids w |})
      /\ acknowledge_claim thread member lease w
         = (Err NotFound, {| db := db w; ticks := S (ticks w); ids := ids w |})).
Proof.
  unfold holds, renew_claim, acknowledge_claim, bind, utc_now, update_thread, put. cbn. split.
  - intros t Ht Hf. rewrite Ht, Hf. cbn. split; [done|]. unfold upd_started.
    by destruct (t_started t).
  - intros Hh. destruct (threads (db w) !! thread) as [t|]; cbn; [|done]. by rewrite Hh.
Qed.

(** ** Who can end a live claim *)

(** Whether an operation of a thread's flow reaches [thread]: it is the one it
    moves, or a plan that may close with it. *)
Definition reaches (p : gmap N PlanChildRow) (f : FlowOp) (thread : N) : bool :=
  bool_decide (flow_target f = Some thread)
  || may_close f && existsb (fun e : N * PlanChildRow => bool_decide (pc_parent e.2 = thread)) (map_to_list p).

Lemma touches_reaches p f thread : touches p f thread -> reaches p f thread = true.
Proof.
  unfold touches, reaches. intros [Ht|[-> (c & row & Hc & Hr)]]; [by rewrite bool_decide_eq_true_2|].
  apply orb_true_iff. right. cbn. apply existsb_exists. exists (c, row).
  split; [by apply list_elem_of_In, elem_of_map_to_list|by apply bool_decide_eq_true].
Qed.

(** The operations entitled to change the claim [m] holds on [thread] under
    [l]: the ones named for it, or presenting its token. *)
Definition entitled (p : gmap N PlanChildRow) (o : Op) (thread m l : N) : bool :=
  match o with
  | OAssign t _ _ | OUnassign t _ | OReportUsage t _ => bool_decide (t = thread)
  | OReportAccounted new =>
      bool_decide (nu_thread new = thread) && bool_decide (nu_reporter new = m) && bool_decide (nu_lease new = l)
  | ORenew t m' l' _ | OAcknowledge t m' l' | ORelease t m' l' _ =>
      bool_decide (t = thread) && bool_decide (m' = m) && bool_decide (l' = l)
  | OReleaseMember m' => bool_decide (m' = m)
  | OHumanTimeouts _ _ _ _ => true
  | OFlow (FFreeze m' _ _ _) => bool_decide (m' = m)
  | OFlow f => reaches p f thread
  | _ => false
  end.

(** The lease outlives the reading the operation, started at the clock's [k]-th
    reading, compares it with. *)
Definition outlives (k : nat) (o : Op) (expires : option Z) : Prop :=
  match expires with
  | None => True
  | Some e =>
      match o with
      | OClaimNext g _ _ _ _ | OClaimNextEvent g _ _ _ _ _ _ =>
          (lease_clock g (truncate_micros (clock k)) <= e)%Z
      | OReap g now _ => holding g now = true \/ (now <= e)%Z
      | _ => True
      end
  end.

Definition claim_is (m l : N) (expires started : option Z) (t : ThreadRow) : Prop :=
  t_assignee t = Some m /\ t_lease t = Some l /\ t_expires t = expires /\ t_started t = started.

Lemma eligible_available d q e : eligible d q e = true -> available e.2 (q_now q) = true.
Proof.
  unfold eligible, claimable. destruct (channels d !! t_channel e.2); [|done]. intros. by bool_simpl.
Qed.

Lemma outlived_not_available m l e s t now :
  claim_is m l e s t -> match e with Some e => (now <= e)%Z | None => True end -> available t now = false.
Proof.
  intros (Ha & _ & He & _) Hn. unfold available. rewrite Ha, He. cbn. destruct e as [e|]; [|done].
  by apply Z.ltb_ge.
Qed.

Lemma fenced_claim_is m l e s t m' l' :
  claim_is m l e s t -> fenced m' l' t = true -> m' = m /\ l' = l.
Proof. intros (? & ? & _). unfold fenced. intros. bool_simpl. by simplify_eq. Qed.

Lemma claim_kept_step n k d o thread m l e s t t' :
  entitled (plan_children d) o thread m l = false -> outlives k o e -> row_step n k d thread t o t' ->
  claim_is m l e s t -> claim_is m l e s t'.
Proof.
  intros Hent Hout Hs Hc. destruct Hs; cbn in Hent; try rewrite bool_decide_eq_true_2 in Hent by done; try done.
  - destruct Hc as (? & _). congruence.
  - pose proof (eligible_available _ _ _ H3) as Hav.
    rewrite (outlived_not_available m l e s) in Hav; [done|done|]. destruct e; [|done]. apply Hout.
  - pose proof (eligible_available _ _ _ H3) as Hav.
    rewrite (outlived_not_available m l e s) in Hav; [done|done|]. destruct e; [|done]. apply Hout.
  - destruct (fenced_claim_is _ _ _ _ _ _ _ Hc H2) as [-> ->]. by rewrite !bool_decide_eq_true_2 in Hent.
  - destruct (fenced_claim_is _ _ _ _ _ _ _ Hc H2) as [-> ->]. by rewrite !bool_decide_eq_true_2 in Hent.
  - destruct (fenced_claim_is _ _ _ _ _ _ _ Hc H2) as [-> ->]. by rewrite !bool_decide_eq_true_2 in Hent.
  - destruct Hc as (Ha & _). bool_simpl. congruence.
  - destruct Hc as (_ & _ & He & _). simplify_eq. rewrite H4 in Hout. cbn in Hout. destruct Hout; [congruence|lia].
  - destruct Hc as (Ha & Hl & _). simplify_eq. by rewrite !bool_decide_eq_true_2 in Hent.
  - apply touches_reaches in H2. by destruct f; cbn in Hent; try congruence; unfold reaches in H2; cbn in H2; bool_simpl.
  - apply touches_reaches in H2. by destruct f; cbn in Hent; try congruence; unfold reaches in H2; cbn in H2; bool_simpl.
  - destruct Hc as (Ha & _). bool_simpl. congruence.
Qed.

Lemma claim_survives o w thread t m l e s :
  threads (db w) !! thread = Some t -> claim_is m l e s t ->
  entitled (plan_children (db w)) o thread m l = false -> outlives (ticks w) o e ->
  exists t', threads (db (exec o w).2) !! thread = Some t' /\ claim_is m l e s t'.
Proof.
  intros Ht Hc Hent Hout.
  destruct (exec_row_before (fun id t' => id = thread -> claim_is m l e s t') o w thread t)
    as (t' & Ht' & Hp); [|done|].
  - intros id d t1 t2 Hp Hs Hc1 ->. eapply claim_kept_step; [by rewrite Hp|eauto..].
  - exists t'. split; [done|]. by apply Hp.
Qed.

(** C2: exclusivity of a live claim. While a thread's lease outlives the readings an operation compares it with, the operation keeps holder, token, deadline and working clock as they are unless it is one entitled to end this claim: an assignment, unassignment or usage stop of this thread, a withdrawal or freeze of this member, a time-out of a wait on a person, a transition, review, cancel or close of this thread or of a child of the plan it is, or a call that presents the holder's own token. In particular no claim, claim_next, reaper or operation on another thread takes it. *)
Theorem live_claim_kept o w thread t m l :
  threads (db w) !! thread = Some t ->
  t_assignee t = Some m -> t_lease t = Some l ->
  entitled (plan_children (db w)) o thread m l = false -> outlives (ticks w) o (t_expires t) ->
  exists t', threads (db (exec o w).2) !! thread = Some t'
             /\ claim_is m l (t_expires t) (t_started t) t'.
Proof.
  intros Ht Ha Hl Hent Hout. by eapply claim_survives.
Qed.

(** ** The boot grace *)

(** The calls a server makes on its own while it recovers: pulls of work, each
    started at a reading the grace covers, and the reaper. *)
Fixpoint under_grace (g : ClaimGrace) (ops : list Op) (w : World) : Prop :=
  match ops with
  | [] => True
  | o :: ops =>
      match o with
      | OClaimNext g' _ _ _ _ | OClaimNextEvent g' _ _ _ _ _ _ =>
          g' = g /\ holding g (truncate_micros (clock (ticks w))) = true
      | OReap g' now _ => g' = g /\ holding g now = true
      | _ => False
      end /\ under_grace g ops (exec o w).2
  end.

(** While the boot grace covers the readings they take, no sequence of claim_next calls and reaper runs takes over, expires or otherwise changes a claim whose deadline is a real time, however long ago it lapsed. *)
Theorem boot_grace_keeps_claims g ops w thread t m l :
  under_grace g ops w ->
  threads (db w) !! thread = Some t -> t_assignee t = Some m -> t_lease t = Some l ->
  match t_expires t with Some e => (0 <= e)%Z | None => True end ->
  exists t', threads (db (run ops w)) !! thread = Some t'
             /\ claim_is m l (t_expires t) (t_started t) t'.
Proof.
  intros Hg Ht Ha Hl He. assert (claim_is m l (t_expires t) (t_started t) t) as Hc by done.
  revert He Hc. generalize (t_expires t) as e, (t_started t) as s. intros e s He Hc. clear Ha Hl.
  revert w t Hg Ht Hc. induction ops as [|o ops IH]; intros w t Hg Ht Hc; [by exists t|].
  destruct Hg as [Ho Hg]. destruct (claim_survives o w thread t m l e s) as (t1 & Ht1 & Hc1); [done..| | |].
  - by destruct o.
  - destruct e as [e|]; [|done]. unfold outlives, lease_clock.
    destruct o; try done; destruct Ho as [-> Hh]; rewrite ?Hh; auto.
  - by eapply IH.
Qed.
End laws.

(** ** On the sample store *)

Import Sample.

Lemma claim_columns_wf_witness :
  rows_wf (db (run [OClaim 101 7 true; OReap no_grace (start + 1) 10; OUnassign 100 None] world)).
Proof.
  apply claim_columns_wf. intros id t Ht. apply (bool_decide_eq_true (row_wf t)).
  revert id t Ht. apply (threads_all (fun _ t => bool_decide (row_wf t)) tables). by vm_compute.
Defined.

Lemma lost_token_refused_witness :
  (renew_claim 102 6 41 60 (run [OClaim 101 7 false] (exec (OReap no_grace (start + 1) 10) world).2)).1
  = Err NotFound.
Proof.
  apply (lost_token_refused [OClaim 101 7 false] (exec (OReap no_grace (start + 1) 10) world).2 102 41).
  split; [by exists 41; vm_compute; auto with lia|]. intros t. vm_compute. by intros [= <-].
Defined.

Lemma live_claim_kept_witness :
  exists t', threads (db (exec (OReap no_grace (start + 1) 10) world).2) !! 100%N = Some t'
             /\ claim_is 5 40 (Some (start + 60000000000)%Z) (Some (start - 500000000000)%Z) t'.
Proof.
  apply (live_claim_kept (OReap no_grace (start + 1) 10) world 100
           (held_by 5 40 (start + 60000000000) (free (lit "one"))) 5 40); [done|done|done|done|].
  right. by vm_compute.
Defined.

Lemma boot_grace_keeps_claims_witness :
  exists t', threads (db (run [OClaimNext (hold_until (start + 10000000000)) 10 7 None None;
                               OReap (hold_until (start + 10000000000)) start 10] world)) !! 102%N = Some t'
             /\ claim_is 6 41 (Some (start - 60000000000)%Z) (Some (start - 500000000000)%Z) t'.
Proof.
  apply (boot_grace_keeps_claims (hold_until (start + 10000000000)) _ world 102
           (held_by 6 41 (start - 60000000000) (free (lit "three"))) 6 41); [|done|done|done|done].
  by vm_compute.
Defined.

Lemma heartbeat_exact_witness :
  (renew_claim 100 5 40 60 world).1
  = Ok (upd_updated (fun _ => start) (upd_expires (fun _ => Some (start + secs 60)%Z)
          (held_by 5 40 (start + 60000000000) (free (lit "one")))))
  /\ (renew_claim 100 6 41 60 world).1 = Err NotFound.
Proof.
  split.
  - destruct (proj1 (heartbeat_exact 100 5 40 60 world) (held_by 5 40 (start + 60000000000) (free (lit "one"))))
      as [-> _]; [done|done|]. cbn. by rewrite Z.add_0_r.
  - by destruct (proj2 (heartbeat_exact 100 6 41 60 world)) as [-> _].
Defined.
