(* ===== verification/BudgetLaws.v ===== *)
(** * Laws of thread budgets

    What a usage report does on each of its branches, and the tie between the
    stop of a run and the claim queue's own budget rule. *)

From stdpp Require Import strings.
From S2P Require Import Prelude Text Json EventChain EventLog Footprint Fsm Db Budget TxLogic AuditTrail Claimability Threads FootprintStore StoreRels FlowLogic StoreOps ClaimLaws Samples.
Local Open Scope tx_scope.

Section laws.
Context `{JsonText, Sha256, Env}.

(** The row an upsert at [now] writes. *)
Definition upserted (f : BudgetRow -> BudgetRow) (now : Z) (d : Db) (thread : N) : BudgetRow :=
  upd_b_updated (fun _ => now) (f (default (empty_budget now) (thread_budgets d !! thread))).

Lemma upsert_budget_run thread f w :
  is_Some (threads (db w) !! thread) ->
  let row := upserted f (clock (ticks w)) (db w) thread in
  upsert_budget thread f w
  = (Ok row, {| db := upd_thread_budgets (fun m => <[thread := row]> m) (db w); ticks := S (ticks w); ids := ids w |}).
Proof.
  intros Ht. unfold upsert_budget, bind, read. cbn [db]. by rewrite bool_decide_eq_true_2.
Qed.

(** With the read of the row that comes back. *)
Lemma upsert_read_run thread f w :
  is_Some (threads (db w) !! thread) ->
  let row := upserted f (clock (ticks w)) (db w) thread in
  bind (upsert_budget thread f) row_to_budget w
  = (if row_fits row then Ok row else Err Database,
     {| db := upd_thread_budgets (fun m => <[thread := row]> m) (db w); ticks := S (ticks w); ids := ids w |}).
Proof.
  intros Ht row. erewrite bind_Ok by (by apply upsert_budget_run). fold row. unfold row_to_budget. by destruct (row_fits row).
Qed.
Lemma upsert_read_fits thread f w :
  is_Some (threads (db w) !! thread) ->
  let row := upserted f (clock (ticks w)) (db w) thread in
  row_fits row = true ->
  bind (upsert_budget thread f) row_to_budget w
  = (Ok row, {| db := upd_thread_budgets (fun m => <[thread := row]> m) (db w); ticks := S (ticks w); ids := ids w |}).
Proof. intros Ht row Hf. rewrite upsert_read_run by done. fold row. by rewrite Hf. Qed.

(** The tables a stop leaves as the first charge left them. *)
Definition stop_frame (d d' : Db) : Prop :=
  threads d' = threads d /\ channels d' = channels d /\ thread_budgets d' = thread_budgets d.

Lemma fail_claim_run ws c thread row holder reason budget w :
  exists ev dead w', fail_claim_in_tx ws c thread row holder reason budget w = (Ok ev, w')
    /\ stop_frame (db w) (db w')
    /\ dead_letters (db w') = dead_letters (db w) ++ [dead]
    /\ d_thread dead = thread /\ d_member dead = holder /\ d_reason dead = reason_as_str reason
    /\ d_used_tokens dead = used_tokens budget.
Proof.
  unfold fail_claim_in_tx. erewrite bind_Ok by done.
  edestruct (append_event_total (fun v => v) (ClaimFailed (clock (ticks w)) ws c thread holder (reason_as_str reason) row))
    as (ev & l & E). erewrite bind_Ok by exact E.
  eexists ev, _, _. split; [reflexivity|]. cbn. by split_and!.
Qed.

(** What a stop charges: the wall time it measured. *)
Lemma keep_stopped_wall_run thread budget wall w :
  thread_budgets (db w) !! thread = Some budget -> is_Some (threads (db w) !! thread) ->
  exists b w', keep_stopped_wall thread budget wall w = (Ok b, w')
    /\ threads (db w') = threads (db w) /\ channels (db w') = channels (db w)
    /\ dead_letters (db w') = dead_letters (db w)
    /\ thread_budgets (db w') = <[thread := b]> (thread_budgets (db w))
    /\ limits_of b = limits_of budget
    /\ used_tokens b = used_tokens budget /\ used_usd_micros b = used_usd_micros budget
    /\ used_turns b = used_turns budget
    /\ used_wall_secs b = (used_wall_secs budget + Z.max (default 0 wall) 0)%Z.
Proof.
  intros Hb Ht. unfold keep_stopped_wall.
  assert (forall w0, thread_budgets w0 !! thread = Some budget -> <[thread := budget]> (thread_budgets w0) = thread_budgets w0)
    as Hid by (intros w0; apply insert_id).
  destruct wall as [s|]; [destruct (Z.ltb_spec 0 (Z.max s 0)) as [Hs|Hs]|].
  - unfold charge_wall_in_tx. erewrite bind_Ok; [|erewrite bind_Ok; [reflexivity|by apply upsert_budget_run]].
    eexists _, _. split; [reflexivity|]. cbn. unfold upserted. rewrite Hb. cbn. split_and!; try done; lia.
  - eexists _, _. split; [reflexivity|]. rewrite Hid by done. cbn. split_and!; try done; lia.
  - eexists _, _. split; [reflexivity|]. rewrite Hid by done. cbn. split_and!; try done; lia.
Qed.

(** A dimension that bound a run still binds once the run's time is charged. *)
Lemma stopped_over_budget d thread b b' wall reason stamp t :
  exceeded b wall = Some reason -> thread_budgets d !! thread = Some b' ->
  limits_of b' = limits_of b -> used_tokens b' = used_tokens b -> used_usd_micros b' = used_usd_micros b ->
  used_turns b' = used_turns b -> used_wall_secs b' = (used_wall_secs b + Z.max (default 0 wall) 0)%Z ->
  over_budget d thread (clear_claim stamp t) = true.
Proof.
  intros Hex Hb Hl Ht Hu Htu Hw. unfold over_budget. rewrite Hb.
  unfold limits_of in Hl. injection Hl as Hmt Hmu Hmtu Hmw. rewrite Ht, Hu, Htu, Hw, Hmt, Hmu, Hmtu, Hmw.
  unfold exceeded in Hex. destruct (bound (used_tokens b) _); [done|].
  destruct (bound (used_usd_micros b) _); [done|]. destruct (bound (used_turns b) _); [done|]. cbn.
  destruct (bound (saturating_add _ _) _) eqn:E; [|done]. unfold bound in *.
  destruct (max_wall_secs b) as [m|]; [|done]. unfold saturating_add, clamp, I64_MIN, I64_MAX in E.
  apply andb_true_iff in E as [E1 E2]. apply Z.ltb_lt in E1. apply Z.leb_le in E2.
  apply andb_true_iff. rewrite Z.ltb_lt, Z.leb_le. lia.
Qed.

Lemma live_row d thread t ws : live_thread d thread = Some (t, ws) -> threads d !! thread = Some t.
Proof.
  unfold live_thread. destruct (threads d !! thread) as [t'|]; [|done]. cbn.
  destruct (channels d !! t_channel t'); [|done]. cbn. case_decide; [|done]. by intros [= ->].
Qed.

(** The stop of a run: release, event and dead letter. *)
Lemma report_usage_stops thread delta w t ws b wall reason m :
  live_thread (db w) thread = Some (t, ws) ->
  b = upserted (with_usage delta) (clock (ticks w)) (db w) thread -> row_fits b = true ->
  wall = ((fun s => num_seconds (clock (S (ticks w)) - s)) <$> t_started t) ->
  exceeded b wall = Some reason -> t_assignee t = Some m ->
  exists rep ev w' stamp dead,
    report_usage thread delta w = (Ok (rep, Some ev), w')
    /\ ur_stopped rep = true /\ ur_reason rep = Some (reason_as_str reason)
    /\ threads (db w') = <[thread := clear_claim stamp t]> (threads (db w))
    /\ thread_budgets (db w') = <[thread := ur_budget rep]> (thread_budgets (db w))
    /\ used_wall_secs (ur_budget rep) = (used_wall_secs b + Z.max (default 0 wall) 0)%Z
    /\ over_budget (db w') thread (clear_claim stamp t) = true
    /\ dead_letters (db w') = dead_letters (db w) ++ [dead]
    /\ d_thread dead = thread /\ d_member dead = m /\ d_reason dead = reason_as_str reason.
Proof.
  intros Hl -> Hfits -> Hex Ha. pose proof (live_row _ _ _ _ Hl) as Ht.
  set (b := upserted _ _ _ _) in *. set (wall := _ <$> _) in *.
  set (w1 := {| db := upd_thread_budgets (fun m => <[thread := b]> m) (db w); ticks := S (S (ticks w)); ids := ids w |}).
  destruct (keep_stopped_wall_run thread b wall w1) as (b' & w2 & E2 & Ht2 & Hc2 & Hd2 & Hb2 & Hlim & H1' & H2' & H3' & H4');
    [apply lookup_insert_eq|by eexists|].
  assert (threads (db w2) !! thread = Some t) as Ht' by (by rewrite Ht2).
  set (now' := clock (ticks w2)).
  set (w3 := put {| db := db w2; ticks := S (ticks w2); ids := ids w2 |} thread (clear_claim now' t)).
  destruct (fail_claim_run ws (t_channel t) thread (clear_claim now' t) m reason b' w3)
    as (ev & dead & w4 & E4 & (Hf1 & Hf2 & Hf3) & Hdl & Hdt & Hdm & Hdr & _).
  eexists _, ev, w4, now', dead. split.
  { unfold report_usage, add_usage_in_tx, commit. erewrite bind_Ok by (apply upsert_read_fits; [by eexists|done]).
    erewrite bind_Ok by reflexivity. cbn [db upd_thread_budgets].
    change (live_thread _ thread) with (live_thread (db w) thread). rewrite Hl. erewrite bind_Ok by reflexivity.
    erewrite bind_Ok by reflexivity. cbn [fst snd ticks db ids]. fold b wall. rewrite Hex, Ha.
    erewrite bind_Ok by exact E2. erewrite bind_Ok by reflexivity.
    rewrite (bind_Ok _ _ _ (Some (clear_claim now' t)) w3) by (unfold update_thread; cbn [db]; by rewrite Ht').
    erewrite bind_Ok by reflexivity. erewrite bind_Ok by exact E4. reflexivity. }
  cbn [ur_stopped ur_reason ur_budget]. split_and!; try done.
  - rewrite Hf1. cbn. by rewrite Ht2.
  - rewrite Hf3. cbn. rewrite Hb2. cbn. by rewrite insert_insert_eq.
  - eapply (stopped_over_budget _ _ b b'); [exact Hex| |done..]. rewrite Hf3. cbn. rewrite Hb2. apply lookup_insert_eq.
  - rewrite Hdl. cbn. by rewrite Hd2.
Qed.

(** A usage report on a live thread whose sums fit their columns always lands, and it stops the run exactly when the accumulated usage with the time worked so far is over one of the limits and somebody holds the thread: the claim is then cleared, the time is charged, the run is dead-lettered under its holder and reason, and the queue's own budget rule holds the thread back from then on; otherwise only the usage is added. *)
Theorem report_usage_exact thread delta w t ws :
  live_thread (db w) thread = Some (t, ws) ->
  let b := upserted (with_usage delta) (clock (ticks w)) (db w) thread in
  let wall := (fun s => num_seconds (clock (S (ticks w)) - s)) <$> t_started t in
  row_fits b = true ->
  exists rep ev w',
    report_usage thread delta w = (Ok (rep, ev), w')
    /\ match exceeded b wall, t_assignee t with
       | Some reason, Some m =>
           ur_stopped rep = true /\ ur_reason rep = Some (reason_as_str reason)
           /\ thread_budgets (db w') = <[thread := ur_budget rep]> (thread_budgets (db w))
           /\ used_wall_secs (ur_budget rep) = (used_wall_secs b + Z.max (default 0 wall) 0)%Z
           /\ exists stamp dead,
                threads (db w') = <[thread := clear_claim stamp t]> (threads (db w))
                /\ over_budget (db w') thread (clear_claim stamp t) = true
                /\ dead_letters (db w') = dead_letters (db w) ++ [dead]
                /\ d_thread dead = thread /\ d_member dead = m /\ d_reason dead = reason_as_str reason
       | _, _ =>
           rep = {| ur_budget := b; ur_stopped := false; ur_reason := None |} /\ ev = None
           /\ db w' = upd_thread_budgets (fun m => <[thread := b]> m) (db w)
       end.
Proof.
  intros Hl b wall Hfits.
  assert (exceeded b wall = None \/ t_assignee t = None ->
          report_usage thread delta w
          = (Ok ({| ur_budget := b; ur_stopped := false; ur_reason := None |}, None),
             {| db := upd_thread_budgets (fun m => <[thread := b]> m) (db w); ticks := S (S (ticks w)); ids := ids w |}))
    as Hrest.
  { intros Hno. unfold report_usage, add_usage_in_tx, commit. erewrite bind_Ok; [|apply upsert_read_fits; [|done]].
    - erewrite bind_Ok by reflexivity. cbn [db upd_thread_budgets].
      change (live_thread _ thread) with (live_thread (db w) thread). rewrite Hl. erewrite bind_Ok by reflexivity.
      erewrite bind_Ok by reflexivity. cbn [fst snd ticks db ids]. fold b wall.
      destruct Hno as [->| ->]; [done|]. by destruct (exceeded b wall).
    - by eexists; eapply live_row. }
  destruct (exceeded b wall) as [reason|] eqn:Hex; [destruct (t_assignee t) as [m|] eqn:Ha|].
  - destruct (report_usage_stops thread delta w t ws b wall reason m)
      as (rep & ev & w' & stamp & dead & E & ? & ? & ? & ? & ? & ? & ? & ? & ? & ?); [done..|].
    exists rep, (Some ev), w'. split; [done|]. split_and!; try done. exists stamp, dead. by split_and!.
  - eexists _, _, _. rewrite Hrest by auto. by split_and!.
  - eexists _, _, _. rewrite Hrest by auto. by split_and!.
Qed.

(** A sum beyond 64 bits fails the report and leaves the tables. *)
Lemma report_usage_overflow thread delta w :
  is_Some (threads (db w) !! thread) -> row_fits (upserted (with_usage delta) (clock (ticks w)) (db w) thread) = false ->
  exists w', report_usage thread delta w = (Err Database, w') /\ db w' = db w.
Proof.
  intros Ht Hf. pose proof (upsert_read_run thread (with_usage delta) w Ht) as E. cbn zeta in E. rewrite Hf in E.
  unfold report_usage, add_usage_in_tx, commit. rewrite (bind_Err _ _ _ _ _ E). by eexists.
Qed.
End laws.

(** ** On the sample store *)

Import Sample.

Definition limited : World :=
  (exec (OSetBudget 100 {| l_tokens := Some 10%Z; l_usd_micros := None; l_turns := None; l_wall_secs := None |}) world).2.

Lemma report_usage_exact_witness :
  exists rep ev w',
    report_usage 100 {| d_tokens := 12; d_usd_micros := 0; d_turns := 0 |} limited = (Ok (rep, ev), w')
    /\ ur_stopped rep = true /\ ur_reason rep = Some "tokens"%string.
Proof.
  destruct (report_usage_exact 100 {| d_tokens := 12; d_usd_micros := 0; d_turns := 0 |} limited
              (held_by 5 40 (start + 60000000000) (free (lit "one"))) 1) as (rep & ev & w' & E & Hrep); [done|vm_compute; reflexivity|].
  exists rep, ev, w'. split; [exact E|].
  replace (exceeded _ _) with (Some Tokens) in Hrep by (vm_compute; reflexivity).
  destruct Hrep as (Hs & Hr & _). by split.
Defined.
