(* ===== verification/AuditLaws.v ===== *)
(** * Laws of audited writes

    The operator's writes (pausing a repository, setting a slot's capacity)
    commit with their audit record or not at all, and the record is filed in
    the workspace they changed. *)

From stdpp Require Import strings.
From S2P Require Import Prelude Text Json EventChain EventLog Footprint Fsm Db Budget TxLogic AuditTrail Claimability FootprintStore.
Local Open Scope tx_scope.

(** One more record, filed in [ws] for the given action. *)
Definition one_record (ws : N) (new : NewAuditEvent) (d d' : Db) : Prop :=
  exists row, audit d' = audit d ++ [row] /\ au_workspace row = Some ws /\ au_action row = na_action new
              /\ au_target_id row = na_target_id new.

Section laws.
Context `{Env}.

(** A record is accepted only in the scope of the workspace that was changed. *)
Lemma append_scoped_Ok ws new w row w' :
  append_scoped (OwnerWorkspace ws) new w = (Ok row, w') ->
  db w' = upd_audit (fun rows => rows ++ [row]) (db w) /\ na_scope new = ScopeWorkspace ws
  /\ au_workspace row = Some ws /\ au_action row = na_action new /\ au_target_id row = na_target_id new.
Proof.
  unfold append_scoped. intros E. do 2 run_step E. apply read_Ok in E0 as [-> ->]. unfold check in E1.
  destruct (decide _) as [Hs|]; [|done]. injection E1 as <- <-. cbn in Hs.
  assert (na_scope new = ScopeWorkspace ws) as Hsc by (destruct (na_scope new); by simplify_eq/=).
  unfold append_on in E. do 2 run_step E. injection E0 as <- <-. apply read_Ok in E1 as [-> ->].
  destruct (audit_principal _) as [[actor subject] grant]. run_step E. injection E0 as _ <-.
  apply ret_Ok in E as [-> ->]. cbn. by rewrite Hsc.
Qed.

(** The record an audited transaction adds to what it changed. *)
Lemma append_scoped_record ws new d w row w' :
  audit (db w) = audit d -> append_scoped (OwnerWorkspace ws) new w = (Ok row, w') -> one_record ws new d (db w').
Proof. intros Ha (Hd & _ & ?)%append_scoped_Ok. exists row. rewrite Hd. cbn. by rewrite Ha. Qed.

Lemma member_fk_Ok m w r w' : member_fk m w = (Ok r, w') -> w' = w.
Proof. unfold member_fk. intros E. run_step E. apply read_Ok in E0 as [-> ->]. destruct (bool_decide _); [by apply ret_Ok in E as [_ ->]|done]. Qed.

Lemma workspace_fk_Ok ws w r w' : workspace_fk ws w = (Ok r, w') -> w' = w.
Proof. unfold workspace_fk. intros E. run_step E. apply read_Ok in E0 as [-> ->]. destruct (bool_decide _); [by apply ret_Ok in E as [_ ->]|done]. Qed.

Lemma pause_repo_audited ws repo by_ reason audit_for w :
  match pause_repo ws repo by_ reason audit_for w with
  | (Ok p, w') => repo_pauses (db w') = <[(ws, repo) := p]> (repo_pauses (db w))
                  /\ slot_capacities (db w') = slot_capacities (db w) /\ one_record ws (audit_for p) (db w) (db w')
  | (Err _, w') => db w' = db w
  end.
Proof.
  destruct (pause_repo _ _ _ _ _ w) as [[p|e] w'] eqn:E; unfold pause_repo in E.
  - run_step E. injection E0 as <- <-. apply commit_Ok in E. run_step E. apply workspace_fk_Ok in E0 as ->.
    run_step E. apply member_fk_Ok in E0 as ->. do 2 run_step E. injection E0 as _ <-.
    apply ret_Ok in E as [-> ->]. pose proof (append_scoped_Ok _ _ _ _ _ E1) as (Hd & _).
    split_and!; [by rewrite Hd|by rewrite Hd|]. by eapply append_scoped_record, E1.
  - apply bind_Err_inv in E as [E|(x & w1 & E0 & E)]; [done|]. injection E0 as <- <-. by apply commit_Err in E.
Qed.

Lemma resume_repo_audited ws repo new w :
  match resume_repo ws repo new w with
  | (Ok removed, w') =>
      removed = bool_decide (is_Some (repo_pauses (db w) !! (ws, repo)))
      /\ repo_pauses (db w') = delete (ws, repo) (repo_pauses (db w))
      /\ slot_capacities (db w') = slot_capacities (db w)
      /\ (if removed then one_record ws new (db w) (db w') else audit (db w') = audit (db w))
  | (Err _, w') => db w' = db w
  end.
Proof.
  destruct (resume_repo _ _ _ w) as [[removed|e] w'] eqn:E; unfold resume_repo in E; [|by apply commit_Err in E].
  apply commit_Ok in E. do 3 run_step E. apply read_Ok in E0 as [-> ->]. injection E1 as _ <-.
  apply ret_Ok in E as [-> ->]. unfold when in E2. destruct (bool_decide _).
  - run_step E2. apply ret_Ok in E2 as [_ ->]. pose proof (append_scoped_Ok _ _ _ _ _ E) as (Hd & _).
    split_and!; [done|by rewrite Hd|by rewrite Hd|]. by eapply append_scoped_record, E.
  - apply ret_Ok in E2 as [_ ->]. done.
Qed.

Lemma set_slot_audited ws slot capacity by_ new w :
  match set_slot_capacity ws slot capacity by_ new w with
  | (Ok _, w') => (0 < capacity)%Z /\ slot_capacities (db w') = <[(ws, slot) := capacity]> (slot_capacities (db w))
                  /\ repo_pauses (db w') = repo_pauses (db w) /\ one_record ws new (db w) (db w')
  | (Err _, w') => db w' = db w
  end.
Proof.
  destruct (set_slot_capacity _ _ _ _ _ w) as [[u|e] w'] eqn:E; unfold set_slot_capacity in E; [|by apply commit_Err in E].
  apply commit_Ok in E. run_step E. destruct (Z.ltb_spec 0 capacity) as [Hc|]; [|done]. apply ret_Ok in E0 as [_ ->].
  run_step E. apply workspace_fk_Ok in E0 as ->. run_step E. apply member_fk_Ok in E0 as ->.
  do 3 run_step E. injection E0 as _ <-. injection E1 as _ <-. apply ret_Ok in E as [_ ->].
  pose proof (append_scoped_Ok _ _ _ _ _ E2) as (Hd & _).
  split_and!; [done|by rewrite Hd|by rewrite Hd|]. by eapply append_scoped_record, E2.
Qed.

Lemma clear_slot_audited ws slot new w :
  match clear_slot_capacity ws slot new w with
  | (Ok removed, w') =>
      removed = bool_decide (is_Some (slot_capacities (db w) !! (ws, slot)))
      /\ slot_capacities (db w') = delete (ws, slot) (slot_capacities (db w))
      /\ repo_pauses (db w') = repo_pauses (db w)
      /\ (if removed then one_record ws new (db w) (db w') else audit (db w') = audit (db w))
  | (Err _, w') => db w' = db w
  end.
Proof.
  destruct (clear_slot_capacity _ _ _ w) as [[removed|e] w'] eqn:E; unfold clear_slot_capacity in E; [|by apply commit_Err in E].
  apply commit_Ok in E. do 3 run_step E. apply read_Ok in E0 as [-> ->]. injection E1 as _ <-.
  apply ret_Ok in E as [-> ->]. unfold when in E2. destruct (bool_decide _).
  - run_step E2. apply ret_Ok in E2 as [_ ->]. pose proof (append_scoped_Ok _ _ _ _ _ E) as (Hd & _).
    split_and!; [done|by rewrite Hd|by rewrite Hd|]. by eapply append_scoped_record, E.
  - apply ret_Ok in E2 as [_ ->]. done.
Qed.

(** An operator's change and its audit record commit together or not at all. Pausing or resuming a repository and setting or clearing a slot's capacity that return have made exactly that change, and, when they changed something, added exactly one audit record, filed in the workspace they changed; when they fail, for a record scoped to another workspace too, nothing is written. *)
Theorem operator_writes_audited ws repo slot capacity by_ reason audit_for new w :
  match pause_repo ws repo by_ reason audit_for w with
  | (Ok p, w') => repo_pauses (db w') = <[(ws, repo) := p]> (repo_pauses (db w))
                  /\ slot_capacities (db w') = slot_capacities (db w) /\ one_record ws (audit_for p) (db w) (db w')
  | (Err _, w') => db w' = db w
  end
  /\ match resume_repo ws repo new w with
     | (Ok removed, w') =>
         removed = bool_decide (is_Some (repo_pauses (db w) !! (ws, repo)))
         /\ repo_pauses (db w') = delete (ws, repo) (repo_pauses (db w))
         /\ slot_capacities (db w') = slot_capacities (db w)
         /\ (if removed then one_record ws new (db w) (db w') else audit (db w') = audit (db w))
     | (Err _, w') => db w' = db w
     end
  /\ match set_slot_capacity ws slot capacity by_ new w with
     | (Ok _, w') => (0 < capacity)%Z /\ slot_capacities (db w') = <[(ws, slot) := capacity]> (slot_capacities (db w))
                     /\ repo_pauses (db w') = repo_pauses (db w) /\ one_record ws new (db w) (db w')
     | (Err _, w') => db w' = db w
     end
  /\ match clear_slot_capacity ws slot new w with
     | (Ok removed, w') =>
         removed = bool_decide (is_Some (slot_capacities (db w) !! (ws, slot)))
         /\ slot_capacities (db w') = delete (ws, slot) (slot_capacities (db w))
         /\ repo_pauses (db w') = repo_pauses (db w)
         /\ (if removed then one_record ws new (db w) (db w') else audit (db w') = audit (db w))
     | (Err _, w') => db w' = db w
     end.
Proof.
  split_and!; [apply pause_repo_audited|apply resume_repo_audited|apply set_slot_audited|apply clear_slot_audited].
Qed.
End laws.
