(* ===== verification/DepsLaws.v ===== *)
(** * Laws of dependencies

    The guard's query finds exactly what a thread depends on, directly or
    not; so the edges never close a cycle, no edge is refused without one, and
    a thread that waits always waits, in the end, on one that can be worked. *)

From stdpp Require Import relations.
From S2P Require Import Prelude Text Json EventChain EventLog Footprint Fsm Db Budget TxLogic AuditTrail Claimability Threads FootprintStore Deps StoreRels FlowLogic StoreOps ClaimLaws Samples.
Local Open Scope tx_scope.

Definition depends (deps : gmap (N * N) Z) (x y : N) : Prop := is_Some (deps !! (x, y)).
Definition acyclic (deps : gmap (N * N) Z) : Prop := forall x, ~ tc (depends deps) x x.

(** ** The recursive query *)

Lemma elem_of_targets deps found y : y ∈ targets deps found <-> exists x, x ∈ found /\ depends deps x y.
Proof.
  unfold targets, depends. rewrite elem_of_list_to_set, list_elem_of_fmap. split.
  - intros ([x y'] & -> & [Hin Hx%bool_decide_eq_true]%elem_of_bfilter). exists x. split; [done|].
    apply list_elem_of_fmap in Hin as ([[x' y''] z] & Heq & Hin%elem_of_map_to_list). cbn in *. simplify_eq. by eexists.
  - intros (x & Hx & [z Hz]). exists (x, y). split; [done|]. apply elem_of_bfilter.
    rewrite bool_decide_eq_true. split; [|done]. apply list_elem_of_fmap. exists (x, y, z).
    by rewrite elem_of_map_to_list.
Qed.

(** Every target, and how many there can be. *)
Definition all_targets (deps : gmap (N * N) Z) : gset N := list_to_set (snd <$> (map_to_list deps).*1).

Lemma targets_sub deps found : targets deps found ⊆ all_targets deps.
Proof.
  intros y. unfold targets, all_targets. rewrite !elem_of_list_to_set, !list_elem_of_fmap.
  intros (e & -> & [Hin _]%elem_of_bfilter). eauto.
Qed.

Lemma size_list_to_set_le (l : list N) : size (list_to_set l : gset N) <= length l.
Proof.
  induction l as [|x l IH]; [done|]. cbn [list_to_set length].
  destruct (decide (x ∈ (list_to_set l : gset N))) as [Hin|Hout].
  - replace ({[x]} ∪ list_to_set l) with (list_to_set l : gset N) by (apply set_eq; set_solver). lia.
  - rewrite size_union by set_solver. rewrite size_singleton. lia.
Qed.

Lemma size_all_targets deps : size (all_targets deps) <= size deps.
Proof.
  unfold all_targets. etrans; [apply size_list_to_set_le|]. by rewrite !length_fmap, length_map_to_list.
Qed.

(** Enough turns reach a fixed point. *)
Lemma recurse_fixed fuel deps found :
  found ⊆ all_targets deps -> size (all_targets deps) - size found < fuel ->
  targets deps (recurse fuel deps found) ⊆ recurse fuel deps found.
Proof.
  revert found. induction fuel as [|fuel IH]; intros found Hsub Hf; [lia|]. cbn [recurse]. case_decide as Heq.
  - set_solver.
  - assert (found ⊂ found ∪ targets deps found) as Hlt.
    { split; [set_solver|]. intros Hle. apply Heq. apply set_eq. set_solver. }
    assert (found ∪ targets deps found ⊆ all_targets deps) as Hsub'
      by (apply union_least; [done|apply targets_sub]).
    apply IH; [done|]. apply subset_size in Hlt. pose proof (subseteq_size _ _ Hsub') as Hle. lia.
Qed.

Lemma recurse_grows fuel deps found : found ⊆ recurse fuel deps found.
Proof.
  revert found. induction fuel as [|fuel IH]; intros found; [done|]. cbn [recurse]. case_decide; [done|].
  etrans; [|apply IH]. set_solver.
Qed.

Lemma recurse_sound deps from fuel found :
  (forall y, y ∈ found -> tc (depends deps) from y) ->
  forall y, y ∈ recurse fuel deps found -> tc (depends deps) from y.
Proof.
  revert found. induction fuel as [|fuel IH]; intros found Hf y Hy; [by apply Hf|]. cbn [recurse] in Hy.
  case_decide; [by apply Hf|]. eapply IH; [|exact Hy]. intros z [Hz|Hz]%elem_of_union; [by apply Hf|].
  apply elem_of_targets in Hz as (x & Hx & Hd). eapply tc_r; [by apply Hf|done].
Qed.

Lemma elem_of_reachable deps from y : y ∈ reachable deps from <-> tc (depends deps) from y.
Proof.
  unfold reachable. split.
  - apply recurse_sound. intros z (x & ->%elem_of_singleton & Hd)%elem_of_targets. by apply tc_once.
  - set (found := recurse _ _ _). assert (targets deps found ⊆ found) as Hfix.
    { apply recurse_fixed; [apply targets_sub|]. pose proof (size_all_targets deps). lia. }
    assert (targets deps {[from]} ⊆ found) as Hseed by apply recurse_grows.
    revert y. apply tc_ind_r.
    + intros z Hd. apply Hseed, elem_of_targets. exists from. split; [set_solver|done].
    + intros x z _ Hd IH. apply Hfix, elem_of_targets. eauto.
Qed.

(** ** Adding and removing edges *)

Lemma depends_insert deps x y z a b : depends (<[(x, y) := z]> deps) a b <-> (a = x /\ b = y) \/ depends deps a b.
Proof.
  unfold depends. destruct (decide ((a, b) = (x, y))) as [[= -> ->]|Hne].
  - rewrite lookup_insert_eq. split; [by left|by eexists].
  - rewrite lookup_insert_ne by congruence. split; [by right|]. intros [[-> ->]|?]; done.
Qed.

(** A path through the new edge, or one that was there. *)
Lemma tc_insert deps x y z a b :
  tc (depends (<[(x, y) := z]> deps)) a b ->
  tc (depends deps) a b \/ (rtc (depends deps) a x /\ rtc (depends deps) y b).
Proof.
  intros Htc. induction Htc as [a b Hd|a c b Hd _ IH]; apply depends_insert in Hd as [[-> ->]|Hd].
  - right. by split; apply rtc_refl.
  - left. by apply tc_once.
  - right. split; [apply rtc_refl|]. destruct IH as [IH|[_ IH]]; [by apply tc_rtc|done].
  - destruct IH as [IH|[IH1 IH2]]; [left; by eapply tc_l|right]. split; [by eapply rtc_l|done].
Qed.

Lemma depends_mono deps deps' :
  (forall a b, depends deps a b -> depends deps' a b) -> forall a b, tc (depends deps) a b -> tc (depends deps') a b.
Proof. intros Hsub a b. induction 1; [by apply tc_once, Hsub|by eapply tc_l; [apply Hsub|]]. Qed.

Lemma acyclic_mono deps deps' :
  (forall a b, depends deps' a b -> depends deps a b) -> acyclic deps -> acyclic deps'.
Proof. intros Hsub Ha x Hx. apply (Ha x). by eapply depends_mono. Qed.

(** The guard refuses exactly the edges that close a cycle. *)
Lemma guard_exact deps x y z :
  acyclic deps -> x <> y ->
  acyclic (<[(x, y) := z]> deps) <-> x ∉ reachable deps y.
Proof.
  intros Ha Hne. rewrite elem_of_reachable. split.
  - intros Hac Htc. apply (Hac x). eapply tc_l; [apply depends_insert; by left|].
    eapply depends_mono; [|exact Htc]. intros a b Hd. apply depends_insert. by right.
  - intros Hno a Htc. destruct (tc_insert _ _ _ _ _ _ Htc) as [Hold|[Hax Hya]]; [by apply (Ha a)|].
    assert (rtc (depends deps) y x) as Hyx by (by etrans). apply Hno.
    destruct Hyx as [|? ? ? Hd Hr]; [done|]. by eapply tc_rtc_r; [apply tc_once|].
Qed.

Section env.
Context `{JsonText, Sha256, Env}.

(** ** The table stays acyclic *)

Definition keeps_acyclic (w w' : World) : Prop :=
  acyclic (thread_dependencies (db w)) -> acyclic (thread_dependencies (db w')).

Lemma keeps_acyclic_same w w' : thread_dependencies (db w') = thread_dependencies (db w) -> keeps_acyclic w w'.
Proof. unfold keeps_acyclic. by intros ->. Qed.

Global Instance keeps_acyclic_store : StoreRel keeps_acyclic.
Proof.
  constructor; try (intros; by apply keeps_acyclic_same); [|by intros w d' (_ & _ & Hd & _); apply keeps_acyclic_same|..].
  - constructor; try (intros; by apply keeps_acyclic_same).
    + constructor; [intros; by apply keeps_acyclic_same|]. intros w1 w2 w3 _ _ H12 H23 Ha. by apply H23, H12.
    + intros n s e w _. unfold kept_at. destruct (append_event_frame s e w) as [-> [Hd|(l & o & Hd)]];
        (split; [done|]); apply keeps_acyclic_same; by rewrite Hd.
  - intros w x y now Hxy Hr Ha. cbn. destruct (thread_dependencies (db w) !! (x, y)); [done|]. by apply guard_exact.
  - intros w x y Ha. cbn. eapply acyclic_mono; [|exact Ha]. intros a b [z Hz].
    apply lookup_delete_Some in Hz as [_ Hz]. by eexists.
Qed.

Global Instance keeps_acyclic_ledger : LedgerRel keeps_acyclic.
Proof. constructor; intros; by apply keeps_acyclic_same. Qed.

Lemma exec_acyclic o w : keeps_acyclic w (exec o w).2.
Proof. apply (exec_kept keeps_acyclic o w). intros w1 m' _ _. by apply keeps_acyclic_same. Qed.

(** C35: dependencies never close a cycle, and nothing else is refused: from an acyclic table any sequence of store operations leaves an acyclic one, and an edge between two threads that exist is accepted exactly when the table with it is still acyclic. *)
Theorem dependencies_acyclic ops w :
  acyclic (thread_dependencies (db w)) ->
  let w' := run ops w in
  acyclic (thread_dependencies (db w'))
  /\ forall x y, is_Some (threads (db w') !! x) -> is_Some (threads (db w') !! y) ->
       ((add x y w').1 = Ok tt <-> acyclic (<[(x, y) := 0%Z]> (thread_dependencies (db w')))).
Proof.
  intros Ha w'. assert (acyclic (thread_dependencies (db w'))) as Ha'.
  { subst w'. revert w Ha. induction ops as [|o ops IH]; intros w Ha; [done|]. by apply IH, exec_acyclic. }
  split; [done|]. intros x y Hx Hy. rewrite add_run. case_decide as Hxy.
  - subst y. split; [done|]. intros Hac. destruct (Hac x). apply tc_once, depends_insert. by left.
  - rewrite guard_exact by done. case_decide as Hc; [by split|]. by rewrite !bool_decide_eq_true_2.
Qed.
End env.

(** ** Waiting *)

(** A dependency that keeps its dependents waiting. *)
Definition blocks (d : Db) (y : N) : Prop :=
  exists t, threads d !! y = Some t /\ (not_finished t = true \/ is_Some (unlanded_closes d !! y)).

Lemma WAITING_spec d x :
  WAITING d x = true <-> exists y, depends (thread_dependencies d) x y /\ blocks d y.
Proof.
  unfold WAITING, blocks, depends. rewrite existsb_true. split.
  - intros ([[x' y] z] & Hin%elem_of_map_to_list & Hb). cbn in *. apply andb_true_iff in Hb as [->%bool_decide_eq_true Hb].
    exists y. split; [by eexists|]. destruct (threads d !! y) as [t|]; [|done]. exists t. split; [done|].
    apply orb_true_iff in Hb as [Hb|Hb%bool_decide_eq_true]; auto.
  - intros (y & [z Hz] & t & Ht & Hb). exists (x, y, z). rewrite elem_of_map_to_list. split; [done|]. cbn.
    rewrite Ht, bool_decide_eq_true_2 by done. cbn. apply orb_true_iff. rewrite bool_decide_eq_true. exact Hb.
Qed.

(** A thread that waits is never stuck on a loop: in an acyclic table, following its dependencies leads to a thread that keeps it waiting and does not wait itself. *)
Theorem no_dependency_deadlock d x :
  acyclic (thread_dependencies d) -> WAITING d x = true ->
  exists y, tc (depends (thread_dependencies d)) x y /\ blocks d y /\ WAITING d y = false.
Proof.
  intros Ha. assert (sn (depends (thread_dependencies d)) x) as Hsn.
  { apply tc_finite_sn; [exact Ha|]. exists (elements (reachable (thread_dependencies d) x)). intros y Hy.
    by apply elem_of_elements, elem_of_reachable. }
  induction Hsn as [x _ IH]. intros (y & Hd & Hb)%WAITING_spec. destruct (WAITING d y) eqn:Hy.
  - destruct (IH y Hd Hy) as (z & Htc & Hz & Hw). exists z. split; [by eapply tc_l|done].
  - exists y. split; [by apply tc_once|done].
Qed.

Section ready.
Context `{Env}.

Lemma pending_WAITING d x : bool_decide (pending_dependencies d x = 0) = negb (WAITING d x).
Proof.
  unfold pending_dependencies, WAITING. induction (map_to_list (thread_dependencies d)) as [|[[a b] z] l IH]; [done|]. cbn.
  destruct (bool_decide (a = x) && _) eqn:E; [|done]. done.
Qed.

(** Readiness has one meaning: a thread's dependencies are satisfied exactly when the claim queue does not hold it back as waiting, and the threads announced as ready after a close are exactly the unfinished dependents the queue no longer holds back so. *)
Theorem readiness_agrees thread w :
  dependencies_satisfied thread w = (Ok (negb (WAITING (db w) thread)), w)
  /\ exists l, newly_ready_dependents thread w = (Ok l, w)
     /\ forall id t, (id, t) ∈ l
          <-> threads (db w) !! id = Some t /\ depends (thread_dependencies (db w)) id thread
              /\ not_finished t = true /\ WAITING (db w) id = false.
Proof.
  split; [unfold dependencies_satisfied, read; by rewrite pending_WAITING|].
  eexists. split; [reflexivity|]. intros id t. unfold order_by. rewrite merge_sort_Permutation, elem_of_bfilter, elem_of_map_to_list.
  cbn. rewrite !andb_true_iff, bool_decide_eq_true, negb_true_iff.
  assert (forall (l : list (N * N * Z)), existsb (fun dd : N * N => bool_decide (dd.1 = id)
     && match threads (db w) !! dd.2 with
        | Some dep => not_finished dep || bool_decide (is_Some (unlanded_closes (db w) !! dd.2)) | None => false end) l.*1
     = existsb (fun e : N * N * Z => bool_decide (e.1.1 = id)
     && match threads (db w) !! e.1.2 with
        | Some dep => negb (is_terminal (t_state dep)) || bool_decide (is_Some (unlanded_closes (db w) !! e.1.2)) | None => false end) l) as Heq
    by (intros l; induction l as [|e l IH]; [done|]; cbn; by rewrite IH).
  rewrite Heq. unfold WAITING, depends. tauto.
Qed.
End ready.

(** ** On the sample store *)

Import Sample.

Definition chained : World := run [OAddDependency 100 101; OAddDependency 101 102; OAddDependency 102 100] world.

Lemma sample_acyclic : acyclic (thread_dependencies (db world)).
Proof.
  intros x Hx. assert (forall a b, depends (thread_dependencies (db world)) a b -> False) as Hno by (by intros a b [z Hz]).
  destruct Hx; by eapply Hno.
Qed.

Lemma dependencies_acyclic_witness : acyclic (thread_dependencies (db chained)).
Proof.
  exact (proj1 (dependencies_acyclic [OAddDependency 100 101; OAddDependency 101 102; OAddDependency 102 100] world sample_acyclic)).
Defined.

Lemma no_dependency_deadlock_witness :
  exists y, tc (depends (thread_dependencies (db chained))) 100%N y /\ blocks (db chained) y
            /\ WAITING (db chained) y = false.
Proof.
  apply no_dependency_deadlock; [|by vm_compute].
  exact (exec_acyclic _ _ (exec_acyclic _ _ (exec_acyclic _ _ sample_acyclic))).
Defined.
