(* ===== verification/AuthLaws.v ===== *)
(** * Laws of tokens and access

    Whatever the store's operations and the token routes do, a token keeps its
    holder, its capabilities, its expiry and its grant, and once revoked stays
    so: what a derived token may do is bounded by its maker for good, a
    revocation is final, and the access rules of events are those the claim
    queue applies. *)

From stdpp Require Import strings relations.
From S2P Require Import Prelude Text Json EventChain EventLog Footprint Fsm Review Db Auth Budget TxLogic AuditTrail Claimability Threads Deps Tokens Attributes Gates LandGate Packets Landing Reviews Closing FootprintStore Creation Dispatch Access TokenRoutes Governance StoreRels FlowLogic StoreOps Samples ClaimLaws DepsLaws.
Local Open Scope req_scope.

(** ** Requests, one call at a time *)

Lemma rbind_Ok_inv {E A B} (m : Req E A) (k : A -> Req E B) w b w' :
  rbind m k w = (Ok b, w') -> exists a w1, m w = (Ok a, w1) /\ k a w1 = (Ok b, w').
Proof. unfold rbind. destruct (m w) as [[a|e] w1]; [eauto|done]. Qed.

Lemma check_Ok {E F A} (into : E -> F) (r : result E A) w a w' :
  check_ into r w = (Ok a, w') -> r = Ok a /\ w' = w.
Proof. destruct r; [|done]. by intros [= <- <-]. Qed.

Lemma rret_Ok {E A} (a : A) w b w' : rret (E:=E) a w = (Ok b, w') -> b = a /\ w' = w.
Proof. by intros [= <- <-]. Qed.

Lemma call_Ok {E A} (into : StoreError -> E) (m : Tx A) w a w' : call into m w = (Ok a, w') -> m w = (Ok a, w').
Proof. unfold call. by destruct (m w) as [[]]; intros [= <- <-]. Qed.

(** A guard that passed. *)
Lemma guard_Ok {E} (b : bool) (e : E) w u w' :
  (if b then rret tt else rfail e) w = (Ok u, w') -> b = true /\ w' = w.
Proof. destruct b; [|done]. by intros [= _ <-]. Qed.

Ltac req_step H :=
  lazymatch type of H with
  | rbind _ _ _ = (Ok _, _) =>
      let a := fresh "a" in let w := fresh "w" in let E := fresh "E" in
      apply rbind_Ok_inv in H as (a & w & E & H);
      lazymatch type of E with
      | check_ _ _ _ = _ => apply check_Ok in E as [? ->]
      | rret _ _ = _ => apply rret_Ok in E as [-> ->]
      | _ => idtac
      end
  end.

(** What a request keeps, whatever it returns. *)
Definition rkeeps {E A} (R : World -> World -> Prop) (m : Req E A) : Prop :=
  forall w, ids w <= ids (m w).2 /\ R w (m w).2.

Section rkeeps.
Context (R : World -> World -> Prop) `{!TxRel R}.

Lemma rkeeps_ret {E A} (a : A) : rkeeps R (rret (E:=E) a).
Proof. intros w. split; [done|by apply tx_same]. Qed.

Lemma rkeeps_fail {E A} (e : E) : rkeeps R (rfail (A:=A) e).
Proof. intros w. split; [done|by apply tx_same]. Qed.

Lemma rkeeps_check {E F A} (into : E -> F) (r : result E A) : rkeeps R (check_ into r).
Proof. destruct r; [apply rkeeps_ret|apply rkeeps_fail]. Qed.

Lemma rkeeps_call {E A} (into : StoreError -> E) (m : Tx A) : keeps 0 R m -> rkeeps R (call into m).
Proof.
  intros Hm w. destruct (Hm w) as [Hi HR]; [lia|]. unfold call. by destruct (m w) as [[]].
Qed.

Lemma rkeeps_bind {E A B} (m : Req E A) (k : A -> Req E B) :
  rkeeps R m -> (forall a, rkeeps R (k a)) -> rkeeps R (rbind m k).
Proof.
  intros Hm Hk w. destruct (Hm w) as [Hi HR]. unfold rbind. destruct (m w) as [[a|e] w1]; cbn [snd] in *; [|done].
  destruct (Hk a w1) as [Hi' HR']. split; [lia|]. by eapply tx_trans.
Qed.
End rkeeps.

(** One structural step of a request; the calls' own goals stay. *)
Ltac rkeeps_step :=
  lazymatch goal with
  | |- rkeeps _ (rbind _ _) => apply rkeeps_bind; [apply _| |intros ?]
  | |- rkeeps _ (rret _) => apply rkeeps_ret; apply _
  | |- rkeeps _ (rfail _) => apply rkeeps_fail; apply _
  | |- rkeeps _ (check_ _ _) => apply rkeeps_check; apply _
  | |- rkeeps _ (call _ _) => apply rkeeps_call; [first [apply _|idtac]..]
  | |- rkeeps _ (let _ := _ in _) => cbv zeta
  | |- rkeeps _ (match ?x with _ => _ end) => destruct x eqn:?
  end.
Ltac rkeeps_auto := repeat rkeeps_step.

(** ** How tokens and grants evolve *)

Definition token_kept (t t' : TokenRow) : Prop :=
  (tk_ws t' = tk_ws t /\ tk_member t' = tk_member t /\ tk_app t' = tk_app t /\ tk_hash t' = tk_hash t)
  /\ (tk_capabilities t' = tk_capabilities t /\ tk_expires t' = tk_expires t /\ tk_grant t' = tk_grant t
      /\ tk_oauth t' = tk_oauth t)
  /\ (is_Some (tk_revoked t) -> is_Some (tk_revoked t')).

Definition grant_kept (g g' : DelegationRow) : Prop :=
  dg_ws g' = dg_ws g /\ dg_subject g' = dg_subject g /\ dg_delegate g' = dg_delegate g
  /\ dg_capabilities g' = dg_capabilities g /\ dg_expires g' = dg_expires g
  /\ (is_Some (dg_revoked g) -> is_Some (dg_revoked g')).

#[export] Instance token_kept_preorder : PreOrder token_kept.
Proof.
  split; [intros t; by split_and!|]. intros t1 t2 t3 ((?&?&?&?)&(?&?&?&?)&?) ((?&?&?&?)&(?&?&?&?)&?).
  split_and!; try congruence. auto.
Qed.
#[export] Instance grant_kept_preorder : PreOrder grant_kept.
Proof.
  split; [intros t; by split_and!|]. intros t1 t2 t3 (?&?&?&?&?&?) (?&?&?&?&?&?). split_and!; try congruence. auto.
Qed.

(** Rows stay, and a token that is new has a hash of its own and no OAuth grant. *)
Definition tokens_evolved (m m' : gmap N TokenRow) : Prop :=
  (forall id t, m !! id = Some t -> exists t', m' !! id = Some t' /\ token_kept t t')
  /\ (forall id t' j t, m !! id = None -> m' !! id = Some t' -> m !! j = Some t -> tk_hash t <> tk_hash t')
  /\ (forall id t', m !! id = None -> m' !! id = Some t' -> tk_oauth t' = None).
Definition grants_evolved (m m' : gmap N DelegationRow) : Prop :=
  forall id g, m !! id = Some g -> exists g', m' !! id = Some g' /\ grant_kept g g'.

#[export] Instance tokens_evolved_preorder : PreOrder tokens_evolved.
Proof.
  split.
  - intros m. split_and!; [by intros id t Ht; exists t|..]; intros; congruence.
  - intros m1 m2 m3 (H12 & N12 & O12) (H23 & N23 & O23). split_and!.
    + intros id t Ht. destruct (H12 _ _ Ht) as (t2 & Ht2 & K12). destruct (H23 _ _ Ht2) as (t3 & Ht3 & K23).
      exists t3. split; [done|]. by etrans.
    + intros id t' j t Hn Hs Hj. destruct (m2 !! id) as [t2|] eqn:E.
      * destruct (H23 _ _ E) as (t3 & Ht3 & (_ & _ & _ & Hh) & _). simplify_eq. rewrite Hh. by eapply N12.
      * destruct (H12 _ _ Hj) as (u & Hu & (_ & _ & _ & Hh) & _). rewrite <- Hh. by eapply N23.
    + intros id t' Hn Hs. destruct (m2 !! id) as [t2|] eqn:E; [|by eapply O23].
      destruct (H23 _ _ E) as (t3 & Ht3 & _ & (_ & _ & _ & Ho) & _). simplify_eq. rewrite Ho. by eapply O12.
Qed.
#[export] Instance grants_evolved_preorder : PreOrder grants_evolved.
Proof.
  split; [by intros m id g Hg; exists g|]. intros m1 m2 m3 H12 H23 id g Hg.
  destruct (H12 _ _ Hg) as (g2 & Hg2 & K12). destruct (H23 _ _ Hg2) as (g3 & Hg3 & K23).
  exists g3. split; [done|]. by etrans.
Qed.

Definition evolves (w w' : World) : Prop :=
  tokens_evolved (api_tokens (db w)) (api_tokens (db w'))
  /\ grants_evolved (delegation_grants (db w)) (delegation_grants (db w'))
  /\ same_oauth (db w) (db w').

#[export] Instance same_oauth_preorder : PreOrder same_oauth.
Proof. split; [intros d; by split_and!|]. unfold same_oauth. intros d1 d2 d3 ? ?. naive_solver congruence. Qed.

Lemma evolves_same w w' :
  api_tokens (db w') = api_tokens (db w) -> delegation_grants (db w') = delegation_grants (db w) ->
  same_oauth (db w) (db w') -> evolves w w'.
Proof. unfold evolves. intros -> -> ?. by split_and!. Qed.

#[export] Instance evolves_preorder : PreOrder evolves.
Proof. split; [intros w; by apply evolves_same|]. intros w1 w2 w3 (? & ? & ?) (? & ? & ?). split_and!; by etrans. Qed.

(** The writes of tokens and grants. *)
Lemma tokens_insert m id row :
  m !! id = None -> (forall j t, m !! j = Some t -> tk_hash t <> tk_hash row) -> tk_oauth row = None ->
  tokens_evolved m (<[id := row]> m).
Proof.
  intros Hid Hh Ho. split_and!.
  - intros j t Hj. exists t. rewrite lookup_insert_ne by congruence. by split.
  - intros j t' i t Hj Ht' Hi. apply lookup_insert_Some in Ht' as [[<- <-]|[_ ?]]; [by eapply Hh|congruence].
  - intros j t' Hj Ht'. apply lookup_insert_Some in Ht' as [[<- <-]|[_ ?]]; [done|congruence].
Qed.

(** A write to each row that keeps it. *)
Lemma tokens_map m f :
  (forall id t, m !! id = Some t -> token_kept t (f id t)) -> tokens_evolved m (map_imap (fun id t => Some (f id t)) m).
Proof.
  intros Hf. split_and!.
  - intros id t Hid. exists (f id t). rewrite map_lookup_imap, Hid. split; [done|]. by apply Hf.
  - intros id t' j t Hn Hs. rewrite map_lookup_imap, Hn in Hs. done.
  - intros id t' Hn Hs. rewrite map_lookup_imap, Hn in Hs. done.
Qed.

Lemma revoked_kept now t : token_kept t (upd_revoked now t).
Proof. by split_and!. Qed.
Lemma reparented_kept p t : token_kept t (upd_parent p t).
Proof. by split_and!. Qed.

Lemma revoke_all_evolved ids now m : tokens_evolved m (revoke_all ids now m).
Proof. apply tokens_map. intros id t _. case_match; [apply revoked_kept|done]. Qed.

Lemma tokens_update m id t t' : m !! id = Some t -> token_kept t t' -> tokens_evolved m (<[id := t']> m).
Proof.
  intros Hid Hk. split_and!.
  - intros j u Hj. destruct (decide (j = id)) as [->|Hne].
    + exists t'. rewrite lookup_insert_eq. simplify_eq. by split.
    + exists u. by rewrite lookup_insert_ne by done.
  - intros j u i v Hj Hu. apply lookup_insert_Some in Hu as [[<- <-]|[_ ?]]; congruence.
  - intros j u Hj Hu. apply lookup_insert_Some in Hu as [[<- <-]|[_ ?]]; congruence.
Qed.

Lemma reparent_evolved id s m : tokens_evolved m (reparent id s m).
Proof.
  replace (reparent id s m) with (map_imap (fun _ t => Some (if decide (tk_parent t = Some id) then upd_parent (Some s) t else t)) m).
  - apply tokens_map. intros j t _. case_decide; [apply reparented_kept|done].
  - apply map_eq. intros j. unfold reparent. rewrite map_lookup_imap, lookup_fmap. by destruct (m !! j).
Qed.

Lemma alter_evolved now id m : tokens_evolved m (alter (upd_revoked now) id m).
Proof.
  replace (alter (upd_revoked now) id m) with (map_imap (fun j t => Some (if decide (j = id) then upd_revoked now t else t)) m).
  - apply tokens_map. intros j t _. case_decide; [apply revoked_kept|done].
  - apply map_eq. intros j. rewrite map_lookup_imap. destruct (decide (j = id)) as [->|Hne].
    + rewrite lookup_alter_eq. by destruct (m !! id).
    + rewrite lookup_alter_ne by done. by destruct (m !! j).
Qed.

Section laws.
Context `{JsonText, Sha256, Env, TimeText}.

Global Instance evolves_store : StoreRel evolves.
Proof.
  assert (TxRel evolves) as Htx.
  { constructor; [intros; by apply evolves_same|]. intros w1 w2 w3 _ _ ? ?. by etrans. }
  constructor; [|intros w d' (_ & _ & _ & _ & _ & _ & _ & Ht & Hg & _ & _ & Ho); by apply evolves_same|intros; by apply evolves_same..].
  constructor; try (intros; by apply evolves_same); [done|].
  intros n s e w _. destruct (append_event_frame s e w) as [Hi [Hd|(l & o & Hd)]]; (split; [by rewrite Hi|]);
    apply evolves_same; by rewrite ?Hd.
Qed.

Global Instance evolves_ledger : LedgerRel evolves.
Proof. constructor; intros; by apply evolves_same. Qed.

Lemma keeps_known_fk {A} n (table : Db -> gmap N A) i : keeps n evolves (known_fk table i).
Proof. unfold known_fk. keeps_plain. Qed.

(** An insert: what it checked and wrote, or nothing. *)
Definition fresh_token (m : gmap N TokenRow) (id : N) (row : TokenRow) : Prop :=
  m !! id = None /\ forall j t, m !! j = Some t -> tk_hash t <> tk_hash row.

Lemma insert_token_run id row w :
  match insert_token id row w with
  | (Ok v, w') =>
      v = (id, row) /\ fresh_token (api_tokens (db w)) id row
      /\ w' = {| db := upd_api_tokens (fun m => <[id := row]> m) (db w); ticks := ticks w; ids := ids w |}
  | (Err _, w') => w' = w
  end.
Proof.
  unfold insert_token. rewrite bind_read. destruct (_ || _) eqn:Hclash; [done|].
  apply orb_false_iff in Hclash as [Hid%bool_decide_eq_false Hh]. rewrite <- eq_None_not_Some in Hid.
  assert (fresh_token (api_tokens (db w)) id row) as Hfresh.
  { split; [done|]. intros j t Hj. rewrite existsb_false in Hh.
    specialize (Hh (j, t)). apply bool_decide_eq_false in Hh; [done|]. by apply elem_of_map_to_list. }
  clear Hid Hh. unfold workspace_fk, member_fk, known_fk, bind, read, ret, fail, write.
  repeat case_match; simplify_eq; done.
Qed.

Lemma keeps_insert_token n id row : tk_oauth row = None -> keeps n evolves (insert_token id row).
Proof.
  intros Ho w _. unfold kept_at. pose proof (insert_token_run id row w) as Hr.
  destruct (insert_token id row w) as [[v|e] w']; cbn [snd].
  - destruct Hr as (-> & [Hid Hh] & ->). split; [done|]. split_and!; [by apply tokens_insert|done..].
  - by subst.
Qed.

Lemma keeps_create_token n new : keeps n evolves (create_on new).
Proof. unfold create_on. keeps_plain. by apply keeps_insert_token. Qed.

Lemma keeps_create_attenuated n new p : keeps n evolves (create_attenuated_on new p).
Proof. unfold create_attenuated_on. keeps_plain. by apply keeps_insert_token. Qed.

Lemma keeps_create_delegated n new g d p : keeps n evolves (create_delegated_on new g d p).
Proof. unfold create_delegated_on. keeps_plain. by apply keeps_insert_token. Qed.

(** What a successful revocation leaves. *)
Lemma revoke_on_run id w :
  match revoke_on id w with
  | (Ok v, w') =>
      exists t, api_tokens (db w) !! id = Some t /\ tk_revoked t = None /\ v = (id, upd_revoked (clock (ticks w)) t)
      /\ api_tokens (db w')
         = (let m := <[id := upd_revoked (clock (ticks w)) t]> (api_tokens (db w)) in
            revoke_all (reachable (child_edges m) id) (clock (ticks w)) m)
      /\ delegation_grants (db w') = delegation_grants (db w) /\ same_oauth (db w) (db w') /\ ids w' = ids w
  | (Err _, w') => db w' = db w /\ ids w' = ids w
  end.
Proof.
  unfold revoke_on, bind, utc_now, read, ok_or, write, ret, fail. cbn [db ticks ids].
  destruct (api_tokens (db w) !! id) as [t|]; cbn; [|done]. case_decide; cbn; [|done]. by exists t.
Qed.

Lemma keeps_revoke n id : keeps n evolves (revoke_on id).
Proof.
  intros w _. unfold kept_at. pose proof (revoke_on_run id w) as Hr.
  destruct (revoke_on id w) as [[v|e] w']; cbn [snd].
  - destruct Hr as (t & Ht & _ & _ & Hm & Hg & Ho & Hi). split; [lia|]. split_and!; [|by rewrite Hg|done]. rewrite Hm.
    etrans; [by apply (tokens_update _ id t), revoked_kept|apply revoke_all_evolved].
  - destruct Hr as [Hd Hi]. split; [lia|]. apply evolves_same; by rewrite ?Hd.
Qed.

Lemma keeps_audited_token n m f : keeps n evolves m -> keeps n evolves (audited_token m f).
Proof. intros Hm. unfold audited_token, audit_on_tx. keeps_plain. Qed.

Lemma keeps_rotate n id h f : keeps n evolves (rotate_audited id h f).
Proof.
  unfold rotate_audited, audit_on_tx. keeps_plain; try keeps_frame.
  - by apply keeps_insert_token.
  - apply keeps_write. intros w. split_and!; [apply reparent_evolved|done..].
  - apply keeps_write. intros w. split_and!; [apply alter_evolved|done..].
Qed.

Lemma keeps_replace_quotas n id q : keeps n evolves (replace_quotas id q).
Proof. unfold replace_quotas, insert_quota. keeps_plain; try keeps_frame; apply keeps_known_fk. Qed.

(** ** Grants *)

Lemma keeps_grant_row n id row :
  keeps n evolves
    (taken <- read (fun d => bool_decide (is_Some (delegation_grants d !! id))) ;;
     (if taken : bool then fail Database else ret tt) ;;
     write (upd_delegation_grants (fun m => <[id := row]> m)) ;;
     ret (id, row))%tx.
Proof.
  intros w _. apply kept_at_read. case_bool_decide as Ht; [by split|]. rewrite <- eq_None_not_Some in Ht.
  split; [done|]. split_and!; [done| |done]. intros j g Hj. exists g. cbn. rewrite lookup_insert_ne by congruence. by split.
Qed.

Lemma keeps_grant_create n new f : keeps n evolves (grant_create_audited new f).
Proof.
  unfold grant_create_audited, grant_create_on, get_policy_on.
  repeat first [apply keeps_grant_row|keeps_step_plain].
Qed.

(** What a grant's revocation leaves. *)
Lemma grant_revoke_run ws id w :
  match grant_revoke_on ws id w with
  | (Ok b, w') =>
      (forall g, delegation_grants (db w) !! id = Some g -> dg_ws g = ws ->
         exists g', delegation_grants (db w') !! id = Some g' /\ is_Some (dg_revoked g'))
      /\ evolves w w' /\ ids w' = ids w
      /\ (b = true -> api_tokens (db w')
                       = revoke_all (subtree (api_tokens (db w)) (grant_tokens id (api_tokens (db w)))) (clock (ticks w))
                           (api_tokens (db w)))
  | (Err _, w') => db w' = db w /\ ids w' = ids w
  end.
Proof.
  unfold grant_revoke_on, bind, utc_now, read, write, ret, fail. cbn [db ticks ids].
  destruct (delegation_grants (db w) !! id) as [g|] eqn:Hg; cbn; [|by split_and!; [|apply evolves_same|..]].
  case_decide as Hw; cbn.
  - split_and!; [|split_and!; [apply revoke_all_evolved| |done]|done|done].
    + intros g' [= <-] _. eexists. rewrite lookup_insert_eq. split; [done|]. by eexists.
    + intros j g' Hj. cbn. destruct (decide (j = id)) as [->|Hne].
      * eexists. rewrite lookup_insert_eq. split; [done|]. simplify_eq. by split_and!.
      * exists g'. rewrite lookup_insert_ne by done. by split.
  - split_and!; [|by apply evolves_same|done|done]. intros g' [= <-] Hws. exists g. split; [done|].
    apply not_eq_None_Some. intros Hn. by apply Hw.
Qed.

Lemma keeps_grant_revoke n ws id new : keeps n evolves (grant_revoke_audited ws id new).
Proof.
  unfold grant_revoke_audited. keeps_plain. intros w _. unfold kept_at. pose proof (grant_revoke_run ws id w) as Hr.
  destruct (grant_revoke_on ws id w) as [[b|e] w']; cbn [snd].
  - destruct Hr as (_ & He & Hi & _). split; [lia|done].
  - destruct Hr as [Hd Hi]. split; [lia|]. apply evolves_same; by rewrite ?Hd.
Qed.

Lemma keeps_set_policy n ws d f : keeps n evolves (Tokens.set_policy_audited ws d f).
Proof. unfold Tokens.set_policy_audited, Tokens.set_policy_on, get_policy_on. keeps_plain; keeps_frame. Qed.

(** ** Every request *)

Inductive TokenOp :=
| TMint (auth : AuthContext) (ws member : N) (body : MintApiToken) (secret : str)
| TAttenuate (auth : AuthContext) (body : AttenuateToken) (secret : str)
| TDelegate (auth : AuthContext) (body : DelegateToken) (secret : str)
| TRotate (auth : AuthContext) (id : N) (secret : str)
| TRevoke (auth : AuthContext) (id : N)
| TCreateGrant (auth : AuthContext) (ws : N) (body : CreateDelegationGrant)
| TRevokeGrant (auth : AuthContext) (ws id : N)
| TSetPolicy (ws : N) (max_grant_days : option Z) (audit_for : DelegationPolicy -> NewAuditEvent).

Definition exec_token (t : TokenOp) : Req ApiError unit :=
  match t with
  | TMint auth ws m body s => mint_api_token auth ws m body s ;; rret tt
  | TAttenuate auth body s => attenuate_api_token auth body s ;; rret tt
  | TDelegate auth body s => delegate_api_token auth body s ;; rret tt
  | TRotate auth id s => rotate_api_token auth id s ;; rret tt
  | TRevoke auth id => revoke_api_token auth id ;; rret tt
  | TCreateGrant auth ws body => create_delegation_grant auth ws body ;; rret tt
  | TRevokeGrant auth ws id => revoke_delegation_grant auth ws id ;; rret tt
  | TSetPolicy ws d f => call ApiStore (Tokens.set_policy_audited ws d f) ;; rret tt
  end.

Lemma token_op_evolves t : rkeeps evolves (exec_token t).
Proof.
  destruct t; cbn [exec_token];
    unfold mint_api_token, attenuate_api_token, delegate_api_token, rotate_api_token, revoke_api_token,
      create_delegation_grant, revoke_delegation_grant, cap, ensure_ws, parent_expires_at; rkeeps_auto;
    unfold get_member_in, get_token, get_grant, list_quotas, create_audited, create_attenuated_audited,
      create_delegated_audited, revoke_audited;
    try solve [keeps_plain]; auto using keeps_replace_quotas, keeps_rotate, keeps_grant_create, keeps_grant_revoke,
      keeps_set_policy, keeps_audited_token, keeps_create_token, keeps_create_attenuated, keeps_create_delegated,
      keeps_revoke.
Qed.

(** A call to the store or to a token route, and a sequence of them. *)
Inductive Act := AStore (o : Op) | AToken (t : TokenOp).
Definition act (a : Act) (w : World) : World :=
  match a with AStore o => (exec o w).2 | AToken t => (exec_token t w).2 end.
Definition acts (l : list Act) (w : World) : World := foldl (fun w a => act a w) w l.

Lemma act_evolves a w : evolves w (act a w).
Proof.
  destruct a as [o|t]; cbn; [|by apply token_op_evolves].
  apply (exec_kept evolves o w). intros w1 m' _ _. by apply evolves_same.
Qed.

Lemma acts_evolve l w : evolves w (acts l w).
Proof.
  revert w. induction l as [|a l IH]; intros w; [done|]. cbn. etrans; [apply act_evolves|apply IH].
Qed.


(** ** What a bearer resolves to *)

(** The caller a live row stands for. *)
Definition context_of (d : Db) (id : N) (t : TokenRow) (ctx : AuthContext) : Prop :=
  ac_token ctx = Some id /\ ac_workspace ctx = tk_ws t /\ ac_member ctx = tk_member t /\ ac_grant ctx = tk_grant t
  /\ ac_bypass ctx = false /\ ac_capabilities ctx ⊆ tk_capabilities t
  /\ match tk_grant t with
     | None => ac_actor ctx = tk_member t
     | Some g => exists row, delegation_grants d !! g = Some row /\ ac_actor ctx = dg_delegate row
                             /\ ac_capabilities ctx ⊆ DELEGATABLE
     end.

Lemma get_active_Ok h w v w' :
  get_active_by_hash h w = (Ok v, w') ->
  api_tokens (db w) !! v.1 = Some v.2 /\ tk_hash v.2 = h /\ active_token_row (db w) (clock (ticks w)) v.2 = true
  /\ db w' = db w.
Proof.
  unfold get_active_by_hash. intros Hr. run_step Hr. injection E as <- <-. rewrite bind_read in Hr. cbn [db] in Hr.
  apply ok_or_Ok in Hr as [Hf ->]. apply find_some in Hf as [Hin [Hh%bool_decide_eq_true Ha]%andb_prop].
  destruct v as [i t]. by apply list_elem_of_In, elem_of_map_to_list in Hin.
Qed.

Lemma active_context_Ok v w ctx w' :
  active_token_context v w = (Ok ctx, w') -> context_of (db w) v.1 v.2 ctx.
Proof.
  unfold active_token_context, ensure_workspace_active. intros Hr. req_step Hr. req_step E.
  apply call_Ok, read_Ok in E0 as [-> ->]. case_bool_decide; [done|]. apply rret_Ok in E as [_ ->].
  destruct (tk_grant v.2) as [g|] eqn:Hg.
  - req_step Hr. apply call_Ok in E. unfold get_grant in E. rewrite bind_read in E. apply ok_or_Ok in E as [Hrow ->].
    apply rret_Ok in Hr as [-> _]. unfold context_of. rewrite Hg. cbn. split_and!; try done.
    + intros c [Hc _]%elem_of_bfilter. done.
    + eexists. split_and!; [done..|]. intros c [_ Hc%bool_decide_eq_true]%elem_of_bfilter. done.
  - apply rret_Ok in Hr as [-> _]. unfold context_of, token_to_context. rewrite Hg.
    by destruct (tk_app v.2); cbn; split_and!.
Qed.

(** A bearer secret is accepted, on either surface. *)
Definition resolved (w : World) (secret : str) (ctx : AuthContext) : Prop :=
  (resolve_bearer secret w).1 = Ok ctx \/ (resolve_resource_bearer secret w).1 = Ok ctx.

Definition live_at (w : World) (t : TokenRow) : Prop := active_token_row (db w) (clock (ticks w)) t = true.

Lemma active_token_Ok secret w v w' :
  active_token secret w = (Ok v, w') ->
  api_tokens (db w) !! v.1 = Some v.2 /\ tk_hash v.2 = hash_secret secret /\ live_at w v.2 /\ db w' = db w.
Proof.
  unfold active_token. intros Hr. req_step Hr. req_step Hr. apply call_Ok, get_active_Ok in E as (? & ? & ? & ?).
  destruct (hashes_equal _ _); [|done]. by apply rret_Ok in Hr as [-> ->].
Qed.

Lemma resolved_row secret w ctx :
  resolved w secret ctx ->
  exists id t, api_tokens (db w) !! id = Some t /\ tk_hash t = hash_secret secret /\ live_at w t
               /\ context_of (db w) id t ctx.
Proof.
  intros Hr. assert (exists v w1 w2, active_token secret w = (Ok v, w1) /\ active_token_context v w1 = (Ok ctx, w2))
    as (v & w1 & w2 & Ha & Hc).
  { destruct Hr as [Hr|Hr]; unfold resolve_bearer, resolve_resource_bearer in Hr.
    - destruct (rbind _ _ w) as [r w'] eqn:E. cbn in Hr. subst r. apply rbind_Ok_inv in E as (v & w1 & Ha & Hc).
      destruct (tk_oauth v.2); [done|]. eauto.
    - destruct (rbind _ _ w) as [r w'] eqn:E. cbn in Hr. subst r. apply rbind_Ok_inv in E as (v & w1 & Ha & Hc). eauto. }
  apply active_token_Ok in Ha as (? & ? & ? & Hd). apply active_context_Ok in Hc. rewrite Hd in Hc. by exists v.1, v.2.
Qed.

Lemma resolve_id_row id w ctx w' :
  resolve_token_id id w = (Ok ctx, w') ->
  exists t, api_tokens (db w) !! id = Some t /\ live_at w t /\ context_of (db w) id t ctx.
Proof.
  unfold resolve_token_id. intros Hr. req_step Hr. apply call_Ok in E. unfold get_token in E. rewrite bind_read in E.
  apply ok_or_Ok in E as [Ht ->]. req_step Hr. apply call_Ok, get_active_Ok in E as (Hv & _ & Hl & Hd).
  case_decide as Hid; [|done]. apply active_context_Ok in Hr. rewrite Hd, Hid in *. by exists a0.2.
Qed.

Lemma live_unrevoked w t : live_at w t -> tk_revoked t = None.
Proof. unfold live_at, active_token_row. rewrite !andb_true_iff, bool_decide_eq_true. naive_solver. Qed.

Lemma live_before w t e : live_at w t -> tk_expires t = Some e -> (clock (ticks w) < e)%Z.
Proof. unfold live_at, active_token_row. rewrite !andb_true_iff. intros [[[[[_ Ht] _] _] _] _] He. rewrite He in Ht. lia. Qed.

Lemma live_grant w t g :
  live_at w t -> tk_grant t = Some g ->
  exists row, delegation_grants (db w) !! g = Some row /\ dg_revoked row = None.
Proof.
  unfold live_at, active_token_row. rewrite !andb_true_iff. intros [[[[_ Hg] _] _] _] He. rewrite He in Hg. cbn in Hg.
  destruct (delegation_grants (db w) !! g) as [row|]; [|done]. exists row. split; [done|].
  apply andb_prop in Hg as [[Hr%bool_decide_eq_true _]%andb_prop _]. done.
Qed.

(** ** The token a secret names *)

Definition owns (w : World) (id : N) (row : TokenRow) : Prop :=
  api_tokens (db w) !! id = Some row
  /\ forall j u, api_tokens (db w) !! j = Some u -> tk_hash u = tk_hash row -> j = id.

Lemma insert_owns id row w v w' : insert_token id row w = (Ok v, w') -> v = (id, row) /\ owns w' id row.
Proof.
  intros Hr. pose proof (insert_token_run id row w) as Hi. rewrite Hr in Hi. destruct Hi as (-> & [Hid Hh] & ->).
  split; [done|]. split; cbn; [by rewrite lookup_insert_eq|]. intros j u Hj Hu.
  apply lookup_insert_Some in Hj as [[<- _]|[_ Hj]]; [done|]. by apply Hh in Hj.
Qed.

Lemma audited_token_Ok m f w v w' :
  audited_token m f w = (Ok v, w') -> exists w1, m w = (Ok v, w1) /\ evolves w1 w'.
Proof.
  unfold audited_token, audit_on_tx. intros Hr%commit_Ok. run_step Hr. run_step Hr. apply ret_Ok in Hr as [-> ->].
  exists w0. split; [done|]. run_step E0. apply ret_Ok in E0 as [_ ->].
  destruct (keeps_append_scoped evolves 0 (OwnerWorkspace (tk_ws a.2)) (f a) w0) as [_ Hk]; [lia|]. by rewrite E1 in Hk.
Qed.

Lemma call_evolves {E A} (into : StoreError -> E) (m : Tx A) w a w' :
  keeps 0 evolves m -> call into m w = (Ok a, w') -> evolves w w'.
Proof. intros Hm Hr%call_Ok. destruct (Hm w) as [_ Hk]; [lia|]. by rewrite Hr in Hk. Qed.

(** A secret keeps naming its token, which keeps its limits. *)
Lemma owned_context w w' id row secret ctx :
  owns w id row -> evolves w w' -> tk_hash row = hash_secret secret -> resolved w' secret ctx ->
  exists t, token_kept row t /\ live_at w' t /\ context_of (db w') id t ctx.
Proof.
  intros [Hrow Hown] [(Hk & Hn & _) _] Hh Hr. apply resolved_row in Hr as (j & t & Hj & Hjh & Hl & Hc).
  destruct (api_tokens (db w) !! j) as [u|] eqn:Hu.
  - destruct (Hk j u Hu) as (t' & Ht' & Hkept). rewrite Hj in Ht'. simplify_eq.
    assert (j = id) as ->. { eapply Hown; [done|]. destruct Hkept as ((_ & _ & _ & Hh') & _). congruence. }
    simplify_eq. eauto.
  - exfalso. apply (Hn j t id row Hu Hj Hrow). congruence.
Qed.

(** ** What each route mints *)

Lemma find_none_sub (held l : list str) : List.find (fun c => negb (Auth.holds held c)) l = None -> l ⊆ held.
Proof.
  intros Hf c Hc. apply list_elem_of_In in Hc. apply (find_none _ _ Hf), negb_false_iff, bool_decide_eq_true in Hc. done.
Qed.

Lemma unique_sub l out : foldl (fun out c => if Auth.holds out c then out else out ++ [c]) out l ⊆ out ++ l.
Proof.
  revert out. induction l as [|c l IH]; intros out; cbn; [set_solver|]. etrans; [apply IH|]. destruct (Auth.holds out c); set_solver.
Qed.

Lemma attenuate_sub held requested caps : attenuate held requested = Ok caps -> caps ⊆ held /\ caps ⊆ requested.
Proof.
  unfold attenuate, validate_held. destruct requested as [|c l]; [done|]. set (r := c :: l).
  destruct (validate_list r); [|done]. destruct (first_not_held held r) eqn:Hf; [done|]. intros [= <-].
  apply find_none_sub in Hf. pose proof (unique_sub r []) as Hu. split; [|exact Hu]. etrans; [exact Hu|exact Hf].
Qed.

Lemma attenuate_expiry_Ok p req now r :
  attenuate_expiry (Some p) req now = Ok r -> exists e, r = Some e /\ (e <= p)%Z.
Proof.
  unfold attenuate_expiry. destruct req as [e|]; [|intros [= <-]; by exists p].
  destruct (e <=? now)%Z; [done|]. destruct (p <? e)%Z eqn:Hp; [done|]. intros [= <-]. exists e. split; [done|lia].
Qed.

Lemma delegated_expiry_Ok ge pe req now e :
  delegated_expiry ge pe req now = Ok e ->
  (now < e /\ e <= now + secs DELEGATED_TOKEN_MAX_TTL_SECS /\ e <= ge)%Z /\ forall p, pe = Some p -> (e <= p)%Z.
Proof.
  unfold delegated_expiry. set (x := match req with Some r => r | None => _ end).
  destruct (x <=? now)%Z eqn:H1'; [done|]. destruct (_ <? x)%Z eqn:H2'; [done|]. destruct (ge <? x)%Z eqn:H3'; [done|].
  destruct pe as [p|].
  - destruct (p <? x)%Z eqn:H4'; [done|]. intros [= <-]. split; [lia|]. intros ? [= <-]. lia.
  - intros [= <-]. split; [lia|done].
Qed.

Lemma parent_expires_Ok auth w r w' :
  parent_expires_at auth w = (Ok r, w') ->
  w' = w /\ forall p t, ac_token auth = Some p -> api_tokens (db w) !! p = Some t -> r = tk_expires t.
Proof.
  unfold parent_expires_at. destruct (ac_token auth) as [p|].
  - intros Hr. req_step Hr. apply rret_Ok in Hr as [-> ->]. apply call_Ok in E. unfold get_token in E.
    rewrite bind_read in E. apply ok_or_Ok in E as [Ht ->]. split; [done|]. intros p' t [= <-] Ht'. congruence.
  - intros Hr. apply rret_Ok in Hr as [-> ->]. split; [done|]. done.
Qed.

Lemma create_on_owns new w v w' :
  create_on new w = (Ok v, w') ->
  exists now, v.2 = new_token_row new (nt_app new) now (nt_expires new) None None /\ owns w' v.1 v.2.
Proof.
  unfold create_on. intros Hr. run_step Hr. run_step Hr. apply insert_owns in Hr as [-> Ho]. eauto.
Qed.

Lemma create_attenuated_owns new p w v w' :
  create_attenuated_on new p w = (Ok v, w') ->
  exists now, v.2 = new_token_row new (nt_app new) now (nt_expires new) (Some p) (api_tokens (db w) !! p ≫= tk_grant)
              /\ owns w' v.1 v.2.
Proof.
  unfold create_attenuated_on. intros Hr. run_step Hr. injection E as _ <-. run_step Hr. injection E as _ <-.
  rewrite bind_read in Hr. apply insert_owns in Hr as [-> Ho]. eauto.
Qed.

Lemma create_delegated_owns new g dl p w v w' :
  create_delegated_on new g dl p w = (Ok v, w') ->
  exists now e, nt_expires new = Some e /\ v.2 = new_token_row new None now (Some e) p (Some g) /\ owns w' v.1 v.2.
Proof.
  unfold create_delegated_on. intros Hr. rewrite bind_read in Hr. run_step Hr. run_step Hr. run_step Hr.
  apply lift_Ok in E1 as [He ->]. run_step Hr. run_step Hr. rewrite bind_read in Hr.
  lazymatch type of Hr with (if ?ok then _ else _) _ = _ => destruct ok; [|done] end.
  apply insert_owns in Hr as [-> Ho]. unfold validate_exchange in He. destruct (nt_expires new) as [e|]; [|done].
  repeat case_match; simplify_eq; eauto.
Qed.

(** A caller that may do no more than [held] in [ws]. *)
Definition within (ws member : N) (held : list str) (ctx : AuthContext) : Prop :=
  ac_workspace ctx = ws /\ ac_member ctx = member /\ ac_bypass ctx = false /\ ac_capabilities ctx ⊆ held.

Lemma kept_within w t row id ctx held :
  token_kept row t -> context_of (db w) id t ctx -> tk_capabilities row ⊆ held ->
  ac_token ctx = Some id /\ within (tk_ws row) (tk_member row) held ctx /\ ac_grant ctx = tk_grant row.
Proof.
  intros ((Hw & Hm & _ & _) & (Hc & _ & Hg & _) & _) (? & ? & ? & ? & ? & Hsub & _) Hh.
  unfold within. split_and!; try congruence. rewrite Hc in Hsub. etrans; [exact Hsub|exact Hh].
Qed.

Lemma holder_grant_held auth : ac_bypass auth = false -> holder_grant auth = ac_capabilities auth.
Proof. unfold holder_grant. by intros ->. Qed.

Lemma list_quotas_same id w : (list_quotas id w).2 = w.
Proof.
  unfold list_quotas. rewrite bind_read. generalize (quota_rows (db w) id) as l. intros l. revert w.
  induction l as [|e l IH]; intros w; [done|]. cbn [for_each]. unfold bind at 1.
  destruct (row_to_quota e); cbn; [|done]. unfold bind. specialize (IH w).
  destruct (for_each _ l w) as [[]]; cbn in *; done.
Qed.

Lemma attenuated_context auth body secret w m w' w2 ctx :
  ac_bypass auth = false -> attenuate_api_token auth body secret w = (Ok m, w') -> evolves w' w2 -> resolved w2 secret ctx ->
  ac_token ctx = Some (mi_id m) /\ within (ac_workspace auth) (ac_member auth) (ac_capabilities auth) ctx
  /\ forall p t, ac_token auth = Some p -> api_tokens (db w) !! p = Some t ->
       ac_grant ctx = tk_grant t /\ forall e, tk_expires t = Some e -> (clock (ticks w2) < e)%Z.
Proof.
  intros Hb Hr Hev Hres. unfold attenuate_api_token, cap in Hr. req_step Hr. req_step Hr. rename a0 into caps.
  rewrite holder_grant_held in H4 by done. apply attenuate_sub in H4 as [Hcaps _]. req_step Hr.
  assert (w0 = w) as -> by (destruct (List.find _ _); [done|by apply rret_Ok in E as [_ ->]]). clear E.
  req_step Hr. apply parent_expires_Ok in E as [-> Hpar]. req_step Hr. apply call_Ok in E. injection E as <- <-.
  req_step Hr. rename a2 into expires. cbv zeta in Hr. req_step Hr. rename a2 into inherited.
  assert (db w0 = db w) as Hd0.
  { destruct (ac_token auth); [|by apply rret_Ok in E as [_ ->]]. apply call_Ok in E.
    pose proof (list_quotas_same n {| db := db w; ticks := S (ticks w); ids := ids w |}) as Hq. rewrite E in Hq.
    cbn in Hq. by subst. }
  clear E. req_step Hr. rename a2 into record.
  assert (exists now parent, record.2 = new_token_row
            {| nt_ws := ac_workspace auth; nt_member := ac_member auth; nt_app := ac_installation auth;
               nt_hash := hash_secret secret; nt_label := at_label body; nt_capabilities := caps; nt_expires := expires |}
            (ac_installation auth) now expires parent (p ← ac_token auth; t ← api_tokens (db w) !! p; tk_grant t)
          /\ exists w4, owns w4 record.1 record.2 /\ evolves w4 w1) as (now & parent & Hrow & w4 & Hown & Hev4).
  { destruct (ac_token auth) as [p|]; apply call_Ok, audited_token_Ok in E as (w4 & Hc & He).
    - apply create_attenuated_owns in Hc as (now & Hrow & Ho). rewrite Hd0 in Hrow. exists now, (Some p). eauto.
    - apply create_on_owns in Hc as (now & Hrow & Ho). exists now, None. eauto. }
  clear E. req_step Hr. assert (evolves w1 w3) as Hev3.
  { destruct inherited; [by apply rret_Ok in E as [_ ->]|]. eapply call_evolves; [|exact E]. apply keeps_replace_quotas. }
  apply rret_Ok in Hr as [-> ->]. cbn [mi_id].
  edestruct (owned_context w4 w2 record.1 record.2) as (t & Hk & Hl & Hc); [done|by do 2 (etrans; [done|])|by rewrite Hrow|done|].
  eapply kept_within in Hc as (Hid & Hin & Hg); [|done|by rewrite Hrow]. rewrite Hrow in Hin, Hg. split_and!; [done|done|].
  intros p t' Hp Ht'. rewrite Hp in Hg. cbn in Hg. rewrite Ht' in Hg. split; [exact Hg|]. intros e He.
  rewrite (Hpar p t' Hp Ht'), He in H4. apply attenuate_expiry_Ok in H4 as (e' & -> & Hle).
  enough (clock (ticks w2) < e')%Z by lia. eapply live_before; [exact Hl|].
  destruct Hk as (_ & (_ & -> & _) & _). by rewrite Hrow.
Qed.

Lemma delegated_context auth body secret w m w' w2 ctx :
  ac_bypass auth = false -> delegate_api_token auth body secret w = (Ok m, w') -> evolves w' w2 -> resolved w2 secret ctx ->
  exists g, delegation_grants (db w) !! de_grant body = Some g
    /\ ac_token ctx = Some (mi_id m) /\ ac_grant ctx = Some (de_grant body)
    /\ (dg_revoked g = None /\ dg_ws g = ac_workspace auth /\ dg_delegate g = ac_actor auth)
    /\ ac_actor ctx = ac_actor auth /\ within (ac_workspace auth) (dg_subject g) (ac_capabilities auth) ctx
    /\ ac_capabilities ctx ⊆ dg_capabilities g /\ ac_capabilities ctx ⊆ DELEGATABLE
    /\ (clock (ticks w2) < dg_expires g)%Z /\ (clock (ticks w2) < clock (ticks w) + secs DELEGATED_TOKEN_MAX_TTL_SECS)%Z
    /\ forall p t e, ac_token auth = Some p -> api_tokens (db w) !! p = Some t -> tk_expires t = Some e ->
         (clock (ticks w2) < e)%Z.
Proof.
  intros Hb Hr Hev Hres. unfold delegate_api_token, cap in Hr. req_step Hr. req_step Hr.
  assert (w0 = w) as -> by (destruct (ac_grant auth); [done|by apply rret_Ok in E as [_ ->]]). clear E.
  req_step Hr. rename a1 into g. apply call_Ok in E. unfold get_grant in E. rewrite bind_read in E.
  apply ok_or_Ok in E as [Hg ->]. req_step Hr. rewrite Hb in E. cbn [negb andb] in E.
  destruct (bool_decide _) eqn:Hws in E; [|done]. apply bool_decide_eq_true in Hws.
  apply rret_Ok in E as [_ ->]. req_step Hr. case_decide as Hdl; [|done].
  apply rret_Ok in E as [_ ->]. req_step Hr. apply call_Ok in E. injection E as <- <-. req_step Hr.
  destruct (_ || _) eqn:Hlive in E; [done|]. apply rret_Ok in E as [_ ->].
  apply orb_false_iff in Hlive as [Hrev%bool_decide_eq_false _]. rewrite <- eq_None_not_Some in Hrev. cbv zeta in Hr.
  req_step Hr. apply attenuate_sub in H4 as [Hcaps1 _]. req_step Hr. rewrite holder_grant_held in H4 by done.
  apply attenuate_sub in H4 as [Hheld Hcaps2].
  req_step Hr. apply parent_expires_Ok in E as [-> Hpar]. cbn [db] in Hpar. req_step Hr.
  apply delegated_expiry_Ok in H4 as [(_ & Hhour & Hge) Hpe]. req_step Hr. apply rret_Ok in Hr as [-> ->]. cbn [mi_id].
  assert (evolves w w0) as Hev0.
  { etrans; [|eapply call_evolves; [|exact E]]; [by apply evolves_same|apply keeps_audited_token, keeps_create_delegated]. }
  apply call_Ok, audited_token_Ok in E as (w4 & Hc & He). apply create_delegated_owns in Hc as (now & e & Hexp & Hrow & Hown).
  cbn [nt_expires] in Hexp. injection Hexp as <-.
  edestruct (owned_context w4 w2 _ _ secret ctx Hown) as (t & Hk & Hl & Hctx); [by etrans|by rewrite Hrow|done|].
  assert (tk_grant t = Some (de_grant body)) as Htg. { destruct Hk as (_ & (_ & _ & -> & _) & _). by rewrite Hrow. }
  assert (clock (ticks w2) < a7)%Z as Hlt.
  { eapply live_before; [exact Hl|]. destruct Hk as (_ & (_ & -> & _) & _). by rewrite Hrow. }
  pose proof Hctx as (_ & _ & _ & _ & _ & _ & Hact). rewrite Htg in Hact. destruct Hact as (g2 & Hg2 & Hact & Hdel).
  pose proof Hctx as (_ & _ & _ & _ & _ & Hcc & _).
  assert (dg_delegate g2 = dg_delegate g) as Hsame.
  { destruct Hev0 as (_ & Hg0 & _), Hev as (_ & Hg' & _). destruct (Hg0 _ _ Hg) as (g1 & Hg1 & (_ & _ & Hd1 & _)).
    destruct (Hg' _ _ Hg1) as (g2' & Hg2' & (_ & _ & Hd2 & _)). simplify_eq. congruence. }
  rewrite (proj1 (proj1 (proj2 Hk))), Hrow in Hcc. cbn in Hcc.
  eapply kept_within in Hctx as (Hid & Hin & Hgr); [|done|by rewrite Hrow]. rewrite Hrow in Hin, Hgr.
  exists g. unfold within in *. cbn in *. split_and!; try done; try lia; try congruence; try naive_solver.
  - set_solver.
  - set_solver.
  - intros p u e Hp Hu He'. rewrite (Hpar p u Hp Hu) in Hpe. specialize (Hpe e He'). lia.
Qed.

Lemma minted_context auth ws member body secret w m w' w2 ctx :
  ac_bypass auth = false -> mint_api_token auth ws member body secret w = (Ok m, w') -> evolves w' w2 ->
  resolved w2 secret ctx ->
  ac_token ctx = Some (mi_id m) /\ within (ac_workspace auth) member (ac_capabilities auth) ctx /\ ws = ac_workspace auth
  /\ TOKEN_ADMIN ∈ ac_capabilities auth /\ ac_grant ctx = None.
Proof.
  intros Hb Hr Hev Hres. unfold mint_api_token, cap, ensure_ws in Hr. req_step Hr.
  unfold require_capability, has_capability in H3. rewrite Hb in H3. cbn in H3.
  destruct (Auth.holds _ _) eqn:Hadm in H3; [|done]. apply bool_decide_eq_true in Hadm. clear H3.
  req_step Hr. unfold ensure_workspace in H3. rewrite Hb in H3. cbn in H3. destruct (bool_decide _) eqn:Hws in H3; [|done].
  apply bool_decide_eq_true in Hws. req_step Hr. clear E. cbv zeta in Hr. req_step Hr. clear E. rename a2 into caps.
  req_step Hr. destruct (List.find _ _) eqn:Hf in E; [done|]. clear E.
  assert (caps ⊆ ac_capabilities auth) as Hcaps.
  { apply find_none_sub. rewrite <- Hf. unfold has_capability. by rewrite Hb. }
  req_step Hr. req_step Hr. apply call_Ok, audited_token_Ok in E as (wn & Hc & He).
  apply create_on_owns in Hc as (now & Hrow & Hown).
  assert (evolves wn w') as Hn.
  { etrans; [exact He|]. req_step Hr. etrans.
    - destruct (mt_quotas body); [by apply rret_Ok in E as [_ ->]|]. eapply call_evolves; [|exact E]. apply keeps_replace_quotas.
    - req_step Hr. apply rret_Ok in Hr as [_ ->]. apply call_Ok in E0. eapply (f_equal snd) in E0.
      rewrite list_quotas_same in E0. cbn in E0. by subst. }
  assert (mi_id m = a4.1) as -> by (do 2 req_step Hr; by apply rret_Ok in Hr as [-> _]). clear Hr.
  edestruct (owned_context wn w2 _ _ secret ctx Hown) as (t & Hk & Hl & Hctx); [by etrans|by rewrite Hrow|done|].
  eapply kept_within in Hctx as (Hid & Hin & Hg); [|done|by rewrite Hrow]. rewrite Hrow in Hin, Hg. subst ws.
  by split_and!.
Qed.

(** C7: authority only shrinks as it is passed on. Let a caller without the bypass mint a token as an admin, attenuate its own, or exchange a delegation grant; then, whatever the store and the token routes do afterwards, in any order, that token's secret resolves only to the token minted, in the caller's workspace, with capabilities the caller held. An attenuated one acts as the caller, under the grant of the caller's own token, and only before that token's expiry. An exchanged one acts as the grant's subject in the name of the caller, whose grant it was and was not revoked; with capabilities of the grant and of no administrative kind; and only before the expiry of the grant, of the caller's token and one hour. *)
Theorem derived_authority_bounded auth secret ctx w w' m l :
  ac_bypass auth = false -> resolved (acts l w') secret ctx ->
  let now := clock (ticks (acts l w')) in
  let held := ac_capabilities auth in
  let parent_outlives := forall p t e, ac_token auth = Some p -> api_tokens (db w) !! p = Some t ->
                           tk_expires t = Some e -> (now < e)%Z in
  (forall ws member body, mint_api_token auth ws member body secret w = (Ok m, w') ->
     ac_token ctx = Some (mi_id m) /\ within (ac_workspace auth) member held ctx /\ ws = ac_workspace auth
     /\ TOKEN_ADMIN ∈ held /\ ac_grant ctx = None)
  /\ (forall body, attenuate_api_token auth body secret w = (Ok m, w') ->
        ac_token ctx = Some (mi_id m) /\ within (ac_workspace auth) (ac_member auth) held ctx /\ parent_outlives
        /\ forall p t, ac_token auth = Some p -> api_tokens (db w) !! p = Some t -> ac_grant ctx = tk_grant t)
  /\ (forall body, delegate_api_token auth body secret w = (Ok m, w') ->
        exists g, delegation_grants (db w) !! de_grant body = Some g
          /\ ac_token ctx = Some (mi_id m) /\ ac_grant ctx = Some (de_grant body)
          /\ (dg_revoked g = None /\ dg_ws g = ac_workspace auth /\ dg_delegate g = ac_actor auth)
          /\ ac_actor ctx = ac_actor auth /\ within (ac_workspace auth) (dg_subject g) held ctx
          /\ ac_capabilities ctx ⊆ dg_capabilities g /\ ac_capabilities ctx ⊆ DELEGATABLE
          /\ (now < dg_expires g)%Z /\ (now < clock (ticks w) + secs DELEGATED_TOKEN_MAX_TTL_SECS)%Z /\ parent_outlives).
Proof.
  intros Hb Hr. pose proof (acts_evolve l w') as He. split_and!; intros.
  - by eapply minted_context.
  - edestruct attenuated_context as (? & ? & Hp); [done..|]. split_and!; [done..| |]; intros p t *; naive_solver.
  - by eapply delegated_context.
Qed.

(** ** Revocation *)

Definition derived (ts : gmap N TokenRow) (p c : N) : Prop := exists t, ts !! c = Some t /\ tk_parent t = Some p.

Lemma child_edges_derived ts p c : depends (child_edges ts) p c <-> derived ts p c.
Proof.
  unfold depends, child_edges, derived. split.
  - intros [z Hz]. apply elem_of_list_to_map_2, list_elem_of_omap in Hz as ([c' t] & Hin & Hp).
    apply elem_of_map_to_list in Hin. cbn in Hp. destruct (tk_parent t) as [p'|] eqn:Ht; cbn in Hp; [|done].
    simplify_eq. eauto.
  - intros (t & Ht & Hp). apply not_eq_None_Some. rewrite <- not_elem_of_list_to_map. intros Hn. apply Hn.
    apply list_elem_of_fmap. exists ((p, c), 0%Z). split; [done|]. apply list_elem_of_omap. exists (c, t).
    split; [by apply elem_of_map_to_list|]. cbn. by rewrite Hp.
Qed.

Lemma derived_update ts id t t' p c :
  ts !! id = Some t -> tk_parent t' = tk_parent t -> derived (<[id := t']> ts) p c <-> derived ts p c.
Proof.
  intros Hid Hp. unfold derived. destruct (decide (c = id)) as [->|Hne].
  - rewrite lookup_insert_eq, Hid. split; intros (u & [= <-] & Hu); eexists; (split; [done|]); congruence.
  - by rewrite lookup_insert_ne by done.
Qed.

Lemma revoke_all_spec ids now ts id t :
  ts !! id = Some t -> id ∈ ids -> exists t', revoke_all ids now ts !! id = Some t' /\ is_Some (tk_revoked t').
Proof.
  intros Ht Hid. unfold revoke_all. rewrite map_lookup_imap, Ht. cbn. rewrite bool_decide_eq_true_2 by done. cbn.
  eexists. split; [done|]. case_bool_decide as Hn; [by eexists|]. by apply not_eq_None_Some.
Qed.

Definition revoked_in (w : World) (c : N) : Prop :=
  exists t, api_tokens (db w) !! c = Some t /\ is_Some (tk_revoked t).

Lemma revoke_on_revokes id w v w' c :
  revoke_on id w = (Ok v, w') -> c = id \/ tc (derived (api_tokens (db w))) id c -> revoked_in w' c.
Proof.
  intros Hr Hc. pose proof (revoke_on_run id w) as Hrun. rewrite Hr in Hrun.
  destruct Hrun as (t & Ht & _ & _ & Hm & _). cbv zeta in Hm. set (m := <[id := _]> (api_tokens (db w))) in Hm.
  unfold revoked_in. rewrite Hm. destruct (decide (c = id)) as [->|Hne].
  - unfold revoke_all. rewrite map_lookup_imap. unfold m. rewrite lookup_insert_eq. cbn.
    eexists. split; [done|]. case_match; by eexists.
  - destruct Hc as [|Hc]; [done|]. assert (exists p, derived (api_tokens (db w)) p c) as (p & u & Hu & _).
    { clear -Hc. induction Hc; eauto. }
    eapply revoke_all_spec; [unfold m; rewrite lookup_insert_ne by done; exact Hu|].
    apply elem_of_reachable. apply (tc_congruence (fun x => x) (depends (child_edges m))) in Hc; [done|].
    intros x y Hd. apply child_edges_derived. by eapply derived_update.
Qed.

Lemma revoked_evolves w w' c : evolves w w' -> revoked_in w c -> revoked_in w' c.
Proof. intros [[Hk _] _] (t & Ht & Hr). destruct (Hk _ _ Ht) as (t' & Ht' & _ & _ & Hm). exists t'. auto. Qed.

Lemma revoked_rejected w c secret ctx :
  revoked_in w c ->
  ~ (resolved w secret ctx /\ ac_token ctx = Some c) /\ (resolve_token_id c w).1 <> Ok ctx.
Proof.
  intros (t & Ht & Hr). split.
  - intros [(id & u & Hu & _ & Hl & Hid & _)%resolved_row Hc]. apply live_unrevoked in Hl. rewrite Hc in Hid.
    simplify_eq. rewrite Hl in Hr. by apply is_Some_None in Hr.
  - destruct (resolve_token_id c w) as [res w'] eqn:E. cbn. intros ->. apply resolve_id_row in E as (u & Hu & Hl & _).
    apply live_unrevoked in Hl. simplify_eq. rewrite Hl in Hr. by apply is_Some_None in Hr.
Qed.

(** C8: a revocation is final. Once a token is revoked, no secret and no identifier ever resolves to it, nor to any token derived from it by then through any number of steps; and once a delegation grant is revoked, no secret ever resolves to a caller acting under that grant: whatever the store and the token routes do afterwards. *)
Theorem revocation_is_final auth id w l secret ctx :
  (forall r w' c, revoke_api_token auth id w = (Ok r, w') -> c = id \/ tc (derived (api_tokens (db w))) id c ->
     ~ (resolved (acts l w') secret ctx /\ ac_token ctx = Some c) /\ (resolve_token_id c (acts l w')).1 <> Ok ctx)
  /\ (forall ws g r w', revoke_delegation_grant auth ws g w = (Ok r, w') ->
        ~ (resolved (acts l w') secret ctx /\ ac_grant ctx = Some g)).
Proof.
  split.
  - intros r w' c Hr Hc. apply revoked_rejected. apply (revoked_evolves w'); [apply acts_evolve|].
    unfold revoke_api_token, cap, ensure_ws in Hr. req_step Hr. req_step Hr. apply call_Ok in E. unfold get_token in E.
    rewrite bind_read in E. apply ok_or_Ok in E as [_ ->]. req_step Hr.
    apply call_Ok, audited_token_Ok in Hr as (w1 & Hrev & He). eapply revoked_evolves; [exact He|]. by eapply revoke_on_revokes.
  - intros ws g r w' Hr [Hres Hg].
    assert (exists row, delegation_grants (db w') !! g = Some row /\ is_Some (dg_revoked row)) as (row & Hrow & Hrev).
    { unfold revoke_delegation_grant, cap, ensure_ws in Hr. req_step Hr. req_step Hr. req_step Hr. apply call_Ok in E.
      unfold get_grant in E. rewrite bind_read in E. apply ok_or_Ok in E as [Hg0 ->]. req_step Hr. case_decide as Hws; [|done].
      apply rret_Ok in E as [_ ->]. req_step Hr. apply call_Ok in Hr. unfold get_grant in Hr. rewrite bind_read in Hr.
      apply ok_or_Ok in Hr as [_ ->]. apply call_Ok in E. unfold grant_revoke_audited in E. apply commit_Ok in E.
      run_step E. pose proof (grant_revoke_run ws g w) as Hrun. rewrite E0 in Hrun. destruct Hrun as (Hrun & _).
      destruct (Hrun _ Hg0 Hws) as (g' & Hg' & Hs). run_step E. apply ret_Ok in E as [_ ->].
      destruct (keeps_append_scoped evolves 0 (OwnerWorkspace ws)
        (grant_audit ws (lit "delegation_grant.revoke") (ac_actor auth) g
           [(lit "workspace_id", id_json ws); (lit "subject_id", id_json (dg_subject a1));
            (lit "delegate_id", id_json (dg_delegate a1))]) w1) as [_ (_ & Hk & _)]; [lia|].
      rewrite E1 in Hk. cbn in Hk. destruct (Hk _ _ Hg') as (g2 & Hg2 & Hkg). exists g2. split; [done|]. by apply Hkg. }
    apply resolved_row in Hres as (i & t & Ht & _ & Hl & _ & _ & _ & Hgr & _). rewrite Hg in Hgr.
    destruct (live_grant _ _ g Hl) as (row' & Hrow' & Hn); [done|].
    destruct (acts_evolve l w') as (_ & Hk & _). destruct (Hk _ _ Hrow) as (row2 & Hrow2 & Hkg). simplify_eq.
    destruct Hkg as (_ & _ & _ & _ & _ & Hmono). apply Hmono in Hrev. rewrite Hn in Hrev. by apply is_Some_None in Hrev.
Qed.
End laws.

(** ** Which events a caller sees *)

Section visibility.
Context (auth : AuthContext) (w : World).

(** The caller is a member of its workspace, and no thread is the talk of both a
    pair and a group. *)
Definition resolved_member : Prop :=
  ac_bypass auth = false /\ exists m, members (db w) !! ac_member auth = Some m /\ m_ws m = ac_workspace auth.
Definition talks_apart (d : Db) : Prop := forall t, dm_conversations d !! t = None \/ group_dms d !! t = None.

(** What an event tells without the answers remembered. *)
Definition channel_readable (d : Db) (c : N) : bool :=
  match channels d !! c with
  | Some row => bool_decide (c_ws row = ac_workspace auth) && negb (bool_decide (c_name row = DM_CHANNEL_NAME))
                && (negb (c_private row) || bool_decide ((c, ac_member auth) ∈ channel_members d))
  | None => false
  end.
Definition event_readable (d : Db) (e : option N * option N) : bool :=
  match e with
  | (Some t, _) => readable_thread d t (Some (ac_workspace auth)) (ac_member auth)
  | (None, Some c) => channel_readable d c
  | (None, None) => true
  end.

(** A reader asks about one event after another. *)
Fixpoint answers (l : list (option N * option N)) (v : EventVisibility) : Req StoreError (list bool) :=
  match l with
  | [] => rret []
  | e :: l =>
      r <- allows_in auth e.1 e.2 v ;;
      rest <- answers l r.2 ;;
      rret (r.1 :: rest)
  end.

Lemma participant_run thread :
  talks_apart (db w) ->
  ensure_dm_participant auth thread w
  = (if match dm_conversations (db w) !! thread with
        | Some (low, high) => bool_decide (ac_member auth = low) || bool_decide (ac_member auth = high)
        | None => false
        end
        || match group_dms (db w) !! thread with
           | Some g => bool_decide ((g, ac_member auth) ∈ group_dm_members (db w))
           | None => false
           end
     then Ok tt else Err (Forbidden NotDmParticipant), w).
Proof.
  intros Ha. unfold ensure_dm_participant, rbind, call, dm_conversation_for_thread, group_dm_for_thread, read.
  destruct (Ha thread) as [Hd|Hd]; rewrite Hd.
  - destruct (group_dms (db w) !! thread) as [g|]; [|done]. cbn [fmap option_fmap option_map orb].
    case_decide as Hin; case_bool_decide as Hg; try done; exfalso.
    + apply elem_of_map in Hin as ([g' m] & Hm & [Hg' Hin]%elem_of_filter). cbn in *. subst. done.
    + apply Hin, elem_of_map. exists (g, ac_member auth). split; [done|]. by apply elem_of_filter.
  - destruct (dm_conversations (db w) !! thread) as [[low high]|]; [|cbn; by rewrite Hd].
    rewrite orb_false_r, (bool_decide_ext (low = _) (ac_member auth = low)), (bool_decide_ext (high = _) (ac_member auth = high))
      by (split; congruence).
    by destruct (_ || _).
Qed.

Lemma thread_access_agrees thread :
  resolved_member -> talks_apart (db w) ->
  settle (can_access_thread auth thread) w
  = (Ok (readable_thread (db w) thread (Some (ac_workspace auth)) (ac_member auth)), w).
Proof.
  intros (Hb & m & Hm & Hws) Ha. unfold settle, can_access_thread, allowed, ensure_thread_access. rewrite Hb.
  unfold authorize_thread, readable_thread, get_thread, get_channel, call, rbind, read, bind, ok_or, channel_is_member.
  destruct (threads (db w) !! thread) as [t|]; [|done]. cbn [ret fail]. unfold ret, fail.
  destruct (channels (db w) !! t_channel t) as [c|]; [|done]. rewrite Hb, Hm, Hws. unfold ensure_workspace. rewrite Hb.
  cbn [orb]. destruct (decide (ac_workspace auth = c_ws c)) as [->|Hne].
  - rewrite !bool_decide_eq_true_2 by done. cbn [check_ rret andb]. unfold rret.
    case_decide; [rewrite participant_run by done; by destruct (_ || _)|].
    destruct (c_private c); cbn; [|done]. by destruct (bool_decide _).
  - rewrite !bool_decide_eq_false_2 by congruence. done.
Qed.

Lemma channel_access_agrees c :
  channel_event_allowed auth c w = (Ok (channel_readable (db w) c), w).
Proof.
  unfold channel_event_allowed, channel_readable, get_channel, bind, read, ok_or, ret, fail, call, channel_is_member, read.
  destruct (channels (db w) !! c) as [row|]; [|done]. destruct (bool_decide (c_ws row = _)); [|done]. cbn [negb andb].
  case_decide as Hn; [by rewrite (bool_decide_eq_true_2 (c_name row = _))|].
  rewrite (bool_decide_eq_false_2 (c_name row = _)) by done. by destruct (c_private row).
Qed.

(** The remembered answers are right. *)
Definition remembers (v : EventVisibility) : Prop :=
  (forall t b, vis_threads v !! t = Some b -> b = event_readable (db w) (Some t, None))
  /\ (forall c b, vis_channels v !! c = Some b -> b = event_readable (db w) (None, Some c)).

Lemma allows_in_agrees e v :
  resolved_member -> talks_apart (db w) -> remembers v ->
  exists v', allows_in auth e.1 e.2 v w = (Ok (event_readable (db w) e, v'), w) /\ remembers v'.
Proof.
  intros Hm Ha Hv. unfold allows_in. rewrite (proj1 Hm). destruct e as [[t|] [c|]]; cbn [fst snd].
  1,2: destruct (vis_threads v !! t) as [b|] eqn:Hb; [exists v; by rewrite (proj1 Hv _ _ Hb)|];
    unfold rbind; rewrite thread_access_agrees by done; eexists; (split; [done|]);
    (split; cbn; [|apply Hv]); intros t' b Hb'; apply lookup_insert_Some in Hb' as [[<- <-]|[_ Hb']]; [done|by apply Hv].
  - destruct (vis_channels v !! c) as [b|] eqn:Hb; [exists v; by rewrite (proj2 Hv _ _ Hb)|].
    unfold rbind. rewrite channel_access_agrees. eexists. split; [done|]. split; cbn; [apply Hv|].
    intros c' b Hb'. apply lookup_insert_Some in Hb' as [[<- <-]|[_ Hb']]; [done|by apply Hv].
  - by exists v.
Qed.

(** What a caller may read is what the queue lets it work on. For a resolved member, in a store where no thread is the talk of both a pair and a group, the access check of the routes answers, for every thread, exactly what the store's own reading rule answers in the claim queue (a thread or channel that is gone reads as refused, never as an error); and a reader that asks about any sequence of events, remembering its answers per thread and channel, gets for each the answer it would get afresh, changing nothing. *)
Theorem event_visibility_exact l :
  resolved_member -> talks_apart (db w) ->
  (forall t, settle (can_access_thread auth t) w
             = (Ok (readable_thread (db w) t (Some (ac_workspace auth)) (ac_member auth)), w))
  /\ answers l new_visibility w = (Ok (event_readable (db w) <$> l), w).
Proof.
  intros Hm Ha. split; [intros; by apply thread_access_agrees|].
  assert (remembers new_visibility) as Hv by done. revert Hv. generalize new_visibility as v.
  induction l as [|e l IH]; intros v Hv; [done|]. cbn [answers]. unfold rbind at 1.
  destruct (allows_in_agrees e v Hm Ha Hv) as (v' & -> & Hv'). cbn [snd fst]. unfold rbind. by rewrite (IH v' Hv').
Qed.
End visibility.

(** ** On a small store

    An admin token of member 5, and one of member 6 bound to the MCP resource by
    an OAuth grant. *)
Module TokenSample.
Import Sample.
#[export] Instance texts : TimeText := {| time_text := fun _ => [] |}.

Definition token (member : N) (secret : str) (caps : list str) (oauth : option N) : TokenRow :=
  {| tk_ws := 1; tk_member := member; tk_app := None; tk_hash := hash_secret secret; tk_label := None;
     tk_capabilities := caps; tk_created := start; tk_expires := Some (start + 86400000000000)%Z; tk_revoked := None;
     tk_parent := None; tk_grant := None; tk_oauth := oauth |}.
Definition issued : World :=
  {| db := upd_delegation_grants
             (fun _ => {[80%N := {| dg_ws := 1; dg_subject := 7; dg_delegate := 5; dg_capabilities := [MESSAGE_POST; WORKSPACE_READ];
                                    dg_purpose := lit "cover"; dg_authorized_by := 5; dg_expires := start + 1800000000000;
                                    dg_revoked := None; dg_created := start |}]})
             (upd_api_tokens (fun _ => <[30%N := token 5 (lit "root") [TOKEN_ADMIN; WORKSPACE_READ; MESSAGE_POST] None]>
                                         {[31%N := token 6 (lit "mcp") [WORKSPACE_READ; MESSAGE_POST] (Some 3%N)]}) tables);
     ticks := 0; ids := 50 |}.
Definition admin : AuthContext := from_token 30 5 1 [TOKEN_ADMIN; WORKSPACE_READ; MESSAGE_POST].
Definition child : AttenuateToken := {| at_capabilities := [WORKSPACE_READ]; at_expires := None; at_label := None |}.
Definition exchange : DelegateToken := {| de_grant := 80; de_capabilities := []; de_expires := None; de_label := None |}.

(** What a request that succeeds returns. *)
Lemma req_value {E A} (m : Req E A) w (p : A * World -> bool) :
  match m w with (Ok a, w') => p (a, w') | (Err _, _) => false end = true -> exists a w', m w = (Ok a, w') /\ p (a, w') = true.
Proof. destruct (m w) as [[a|e] w']; [eauto|done]. Qed.

Definition accepts (secret : str) (w : World) : bool :=
  match (resolve_bearer secret w).1 with Ok _ => true | Err _ => false end.

Lemma accepts_resolved secret w : accepts secret w = true -> exists ctx, resolved w secret ctx.
Proof. unfold accepts, resolved. destruct (resolve_bearer secret w).1 as [ctx|]; [|done]. eauto. Qed.

Lemma derived_authority_bounded_witness :
  exists m w' ctx, delegate_api_token admin exchange (lit "s1") issued = (Ok m, w') /\ resolved w' (lit "s1") ctx
    /\ ac_actor ctx = 5%N /\ ac_member ctx = 7%N /\ ac_capabilities ctx ⊆ DELEGATABLE
    /\ (clock (ticks w') < clock 0 + secs DELEGATED_TOKEN_MAX_TTL_SECS)%Z.
Proof.
  destruct (req_value (delegate_api_token admin exchange (lit "s1")) issued (fun r => accepts (lit "s1") r.2))
    as (m & w' & E & Ha); [by vm_compute|]. apply accepts_resolved in Ha as [ctx Hr]. exists m, w', ctx.
  split; [exact E|]. split; [exact Hr|].
  destruct (derived_authority_bounded admin (lit "s1") ctx issued w' m [] eq_refl Hr) as (_ & _ & Hd).
  destruct (Hd exchange E) as (g & Hg & _ & _ & _ & Hact & Hin & _ & Hdel & _ & Hh & _).
  assert (dg_subject g = 7%N) as Hs. { apply (f_equal (fmap dg_subject)) in Hg. vm_compute in Hg. by injection Hg. }
  split; [exact Hact|]. split; [rewrite <- Hs; exact (proj1 (proj2 Hin))|]. split; [exact Hdel|exact Hh].
Defined.

(** A child of the admin's token, and the admin's token revoked. *)
Definition branched : World := (attenuate_api_token admin child (lit "s2") issued).2.

Lemma revocation_is_final_witness :
  exists r w', revoke_api_token admin 30 branched = (Ok r, w') /\ accepts (lit "s2") branched = true
    /\ forall ctx, (resolve_token_id 50 (acts [AToken (TAttenuate admin child (lit "s3"))] w')).1 <> Ok ctx.
Proof.
  destruct (req_value (revoke_api_token admin 30) branched (fun _ => true)) as (r & w' & E & _); [by vm_compute|].
  exists r, w'. split; [exact E|]. split; [by vm_compute|]. intros ctx.
  refine (proj2 (proj1 (revocation_is_final admin 30 branched _ (lit "s2") ctx) r w' 50%N E _)).
  right. apply tc_once. eexists. split; [vm_compute; reflexivity|reflexivity].
Defined.

(** Member 6's bound token is refused outside the resource; what it attenuates
    is not: the child carries no OAuth grant. *)
Definition bound : AuthContext := from_token 31 6 1 [WORKSPACE_READ; MESSAGE_POST].
Lemma oauth_binding_shed :
  accepts (lit "mcp") issued = false
  /\ (resolve_resource_bearer (lit "mcp") issued).1 = Ok bound
  /\ accepts (lit "s4") (attenuate_api_token bound child (lit "s4") issued).2 = true
  /\ accepts (lit "s5") (rotate_api_token bound 31 (lit "s5") issued).2 = true.
Proof. split_and!; by vm_compute. Qed.

Lemma event_visibility_exact_witness :
  answers admin [(Some 100%N, None); (Some 100%N, None); (None, Some 11%N); (None, None)] new_visibility issued
  = (Ok [true; true; false; true], issued).
Proof.
  etrans; [apply (event_visibility_exact admin issued)|by vm_compute].
  - split; [done|]. exists member. by vm_compute.
  - intros t. by left.
Defined.
End TokenSample.
