(* ===== verification/OAuthLaws.v ===== *)
(** * Laws of the OAuth authorization server

    Whatever the store, the token routes and the OAuth endpoints do, in any
    order, a row of the authorization server comes from an earlier row, which
    keeps its parties, its scope and its lineage and never comes back to life, or
    is new; and what an OAuth token may do stays within the grant it was minted
    under. *)

From stdpp Require Import strings relations.
From S2P Require Import Prelude Text Json EventChain EventLog Footprint Fsm Review Db Auth Budget TxLogic AuditTrail Claimability Threads Deps Tokens OAuthStore OAuthClients Attributes Gates LandGate Packets Landing Reviews Closing FootprintStore Creation Dispatch Access TokenRoutes OAuthServer Governance StoreRels FlowLogic StoreOps Samples ClaimLaws AuditLaws DepsLaws AuthLaws.
Local Open Scope req_scope.

(** ** How the rows of the server evolve *)

Definition og_kept (g g' : OAuthGrantRow) : Prop :=
  (og_client g' = og_client g /\ og_member g' = og_member g /\ og_ws g' = og_ws g /\ og_scope g' = og_scope g
   /\ og_lineage g' = og_lineage g)
  /\ (is_Some (og_revoked g) -> is_Some (og_revoked g')).
Definition co_kept (c c' : OAuthCodeRow) : Prop :=
  (co_client c' = co_client c /\ co_challenge c' = co_challenge c /\ co_lineage c' = co_lineage c
   /\ co_redirect c' = co_redirect c)
  /\ (is_Some (co_used c) -> is_Some (co_used c')).
Definition or_kept (r r' : OAuthRefreshRow) : Prop :=
  (or_grant r' = or_grant r /\ or_client r' = or_client r /\ or_lineage r' = or_lineage r)
  /\ (is_Some (or_used r) -> is_Some (or_used r')) /\ (is_Some (or_revoked r) -> is_Some (or_revoked r')).

#[export] Instance og_kept_preorder : PreOrder og_kept.
Proof. split; [intros g; by split_and!|]. unfold og_kept. intros ??? ? ?. naive_solver congruence. Qed.
#[export] Instance co_kept_preorder : PreOrder co_kept.
Proof. split; [intros g; by split_and!|]. unfold co_kept. intros ??? ? ?. naive_solver congruence. Qed.
#[export] Instance or_kept_preorder : PreOrder or_kept.
Proof. split; [intros g; by split_and!|]. unfold or_kept. intros ??? ? ?. naive_solver congruence. Qed.

(** Every row comes from one that was there, or is new. *)
Definition rows_from {K A} `{Countable K} (kept : relation A) (new : K -> A -> Prop) (m m' : gmap K A) : Prop :=
  forall k a', m' !! k = Some a' -> (exists a, m !! k = Some a /\ kept a a') \/ new k a'.

Section rows.
Context {K A : Type} `{Countable K} (kept : relation A) `{!PreOrder kept}.
Implicit Types (new : K -> A -> Prop) (m : gmap K A).

Lemma rows_from_refl new m : rows_from kept new m m.
Proof. intros k a Ha. left. by exists a. Qed.

Lemma rows_from_trans new1 new2 new m1 m2 m3 :
  (forall k a, new1 k a -> forall a', kept a a' -> new k a') -> (forall k a, new2 k a -> new k a) ->
  rows_from kept new1 m1 m2 -> rows_from kept new2 m2 m3 -> rows_from kept new m1 m3.
Proof.
  intros H1 H2 R1 R2 k a3 Ha3. destruct (R2 k a3 Ha3) as [(a2 & Ha2 & K2)|Hn]; [|by auto].
  destruct (R1 k a2 Ha2) as [(a1 & Ha1 & K1)|Hn]; [|by eauto]. left. exists a1. split; [done|]. by etrans.
Qed.

Lemma rows_from_insert new m k a : new k a -> rows_from kept new m (<[k := a]> m).
Proof. intros Hn j b. rewrite lookup_insert_Some. intros [[<- <-]|[_ Hb]]; [by right|]. left. by exists b. Qed.

Lemma rows_from_update new m k a a' : m !! k = Some a -> kept a a' -> rows_from kept new m (<[k := a']> m).
Proof. intros Ha Hk j b. rewrite lookup_insert_Some. left. destruct H0 as [[<- <-]|[_ Hb]]; eauto. by exists b. Qed.

Lemma rows_from_map new m (f : A -> A) : (forall a, kept a (f a)) -> rows_from kept new m (f <$> m).
Proof. intros Hf k a'. rewrite lookup_fmap_Some. intros (a & <- & Ha). left. eauto. Qed.

Lemma rows_from_filter new m (P : K * A -> Prop) `{!forall x, Decision (P x)} : rows_from kept new m (filter P m).
Proof. intros k a'. rewrite map_lookup_filter_Some. intros [Ha _]. left. by exists a'. Qed.
End rows.

(** A token's row agrees with the grant it is bound to. *)
Definition bound (t : TokenRow) (g : OAuthGrantRow) : Prop :=
  tk_ws t = og_ws g /\ tk_member t = og_member g /\ tk_capabilities t ⊆ og_scope g /\ tk_grant t = None
  /\ is_Some (tk_expires t).

(** A refresh token's row names the lineage of its grant. *)
Definition tied (grants : gmap N OAuthGrantRow) (r : OAuthRefreshRow) : Prop :=
  exists g, grants !! or_grant r = Some g /\ og_lineage g = or_lineage r.

(** Scopes asked for and granted are of the kind that describes doing work, and
    every OAuth token and refresh token is bound to a grant, which holds what the
    token may do. *)
Definition confined (d : Db) : Prop :=
  (forall i p, oauth_pending d !! i = Some p -> op_scope p ⊆ DELEGATABLE)
  /\ (forall i g, oauth_grants d !! i = Some g -> og_scope g ⊆ DELEGATABLE)
  /\ (forall i t g, api_tokens d !! i = Some t -> tk_oauth t = Some g ->
        exists row, oauth_grants d !! g = Some row /\ bound t row)
  /\ (forall h r, oauth_refresh d !! h = Some r -> tied (oauth_grants d) r).

Section laws.
Context `{JsonText, Sha256, Env, TimeText, Web, OAuthConfig}.

Section steps.
(** The hashes of the secrets drawn meanwhile, and the identifiers given out
    before. *)
Context (drawn : str -> Prop) (n : nat).

(** A new grant begins a lineage of its own. *)
Definition new_lineage (_ : N) (g : OAuthGrantRow) : Prop := exists i, n <= i /\ og_lineage g = uuid i.
Definition new_secret {A} (h : str) (_ : A) : Prop := drawn h.

Definition ostep (w w' : World) : Prop :=
  ids w <= ids w'
  /\ rows_from og_kept new_lineage (oauth_grants (db w)) (oauth_grants (db w'))
  /\ rows_from co_kept new_secret (oauth_codes (db w)) (oauth_codes (db w'))
  /\ rows_from or_kept new_secret (oauth_refresh (db w)) (oauth_refresh (db w')).

#[export] Instance ostep_preorder : PreOrder ostep.
Proof.
  split; [intros w; split_and!; [done|apply rows_from_refl; apply _..]|].
  intros w1 w2 w3 (Hi & Hg & Hc & Hr) (Hi' & Hg' & Hc' & Hr'). split_and!; [lia|..].
  - eapply rows_from_trans; [apply _| | |exact Hg|exact Hg'].
    + intros k a (i & ? & Hl) a' [(_ & _ & _ & _ & Hk) _]. exists i. split; [done|congruence].
    + done.
  - by eapply rows_from_trans; [apply _| | |exact Hc|exact Hc'].
  - by eapply rows_from_trans; [apply _| | |exact Hr|exact Hr'].
Qed.

(** Worlds that differ elsewhere only. *)
Lemma ostep_same w w' :
  ids w <= ids w' -> oauth_grants (db w') = oauth_grants (db w) -> oauth_codes (db w') = oauth_codes (db w) ->
  oauth_refresh (db w') = oauth_refresh (db w) -> ostep w w'.
Proof. unfold ostep. intros Hi -> -> ->. split_and!; [done|apply rows_from_refl; apply _..]. Qed.

(** ** Calls, one at a time *)

(** A call from a confined store keeps it so, and its rows evolve. *)
Definition safe {E A} (m : Req E A) (w : World) : Prop :=
  n <= ids w -> confined (db w) -> confined (db (m w).2) /\ ostep w (m w).2.

Lemma safe_same {E A} (m : Req E A) w : db (m w).2 = db w -> ids w <= ids (m w).2 -> safe m w.
Proof. intros Hd Hi Hn Hc. rewrite Hd. split; [done|]. apply ostep_same; by rewrite ?Hd. Qed.

Lemma safe_bind {E A B} (m : Req E A) (k : A -> Req E B) w :
  safe m w -> (forall a w', m w = (Ok a, w') -> n <= ids w -> confined (db w) -> safe (k a) w') -> safe (rbind m k) w.
Proof.
  intros Hm Hk Hn Hc. destruct (Hm Hn Hc) as [Hc' Ho]. unfold rbind. destruct (m w) as [[a|e] w1]; cbn [snd] in *; [|done].
  destruct (Hk a w1 eq_refl Hn Hc) as [Hc2 Ho2]; [etrans; [exact Hn|apply Ho]|done|]. split; [done|]. by etrans.
Qed.
Lemma safe_bind_tx {A B} (m : Tx A) (k : A -> Tx B) w :
  safe (E:=StoreError) m w -> (forall a w', m w = (Ok a, w') -> n <= ids w -> confined (db w) -> safe (E:=StoreError) (k a) w') ->
  safe (E:=StoreError) (bind m k) w.
Proof. apply (safe_bind (E:=StoreError)). Qed.

Lemma safe_call {E A} (into : StoreError -> E) (m : Tx A) w : safe (E:=StoreError) m w -> safe (call into m) w.
Proof. unfold safe, call. by destruct (m w) as [[]]. Qed.

Lemma safe_commit {A} (m : Tx A) w : safe (E:=StoreError) m w -> safe (E:=StoreError) (commit m) w.
Proof.
  unfold safe, commit. intros Hm Hn Hc. destruct (Hm Hn Hc) as [Hc' Ho]. destruct (m w) as [[a|e] w']; cbn [snd db] in *; [done|].
  split; [done|]. apply ostep_same; [apply Ho|done..].
Qed.

Lemma evolves_confined w w' : evolves w w' -> confined (db w) -> confined (db w').
Proof.
  intros ((Hk & _ & Hn) & _ & (_ & Hp & _ & Hg & Hr)) (Cp & Cg & Ct & Cr). unfold confined. rewrite Hp, Hg, Hr.
  split_and!; [done..| |done].
  intros i t' g Ht' Ho. destruct (api_tokens (db w) !! i) as [t|] eqn:Ht; [|by rewrite (Hn i t' Ht Ht') in Ho].
  destruct (Hk i t Ht) as (t2 & Ht2 & K). simplify_eq. destruct K as ((Ew & Em & _) & (Ec & Ee & Ed & Eo) & _).
  destruct (Ct i t g Ht) as (row & Hrow & Hb); [congruence|]. exists row. split; [done|].
  unfold bound. by rewrite Ew, Em, Ec, Ed, Ee.
Qed.

Lemma evolves_ostep w w' : ids w <= ids w' -> evolves w w' -> ostep w w'.
Proof. intros Hi (_ & _ & (_ & _ & Hc & Hg & Hr)). by apply ostep_same. Qed.

(** What the rest of the store may do. *)
Lemma safe_keeps {A} (m : Tx A) w : keeps 0 evolves m -> safe (E:=StoreError) m w.
Proof.
  intros Hm Hn Hc. destruct (Hm w) as [Hi He]; [lia|]. split; [by eapply evolves_confined|by apply evolves_ostep].
Qed.

(** ** The writes of the server *)

Lemma safe_write f w :
  (confined (db w) -> confined (f (db w))) ->
  rows_from og_kept new_lineage (oauth_grants (db w)) (oauth_grants (f (db w))) ->
  rows_from co_kept new_secret (oauth_codes (db w)) (oauth_codes (f (db w))) ->
  rows_from or_kept new_secret (oauth_refresh (db w)) (oauth_refresh (f (db w))) ->
  safe (E:=StoreError) (write f) w.
Proof. intros Hf Hg Hc Hr Hn Hw. split; [by apply Hf|]. by split_and!. Qed.

Lemma safe_clients f w : safe (E:=StoreError) (write (upd_oauth_clients f)) w.
Proof. by apply safe_write; [|apply rows_from_refl; apply _..]. Qed.

Lemma safe_pending f w :
  (forall i p, f (oauth_pending (db w)) !! i = Some p -> oauth_pending (db w) !! i = Some p \/ op_scope p ⊆ DELEGATABLE) ->
  safe (E:=StoreError) (write (upd_oauth_pending f)) w.
Proof.
  intros Hf. apply safe_write; [|apply rows_from_refl; apply _..]. intros (Cp & Cg & Ct & Cr). split_and!; [|done..].
  intros i p Hp. destruct (Hf i p Hp) as [Ho|Hs]; [by eapply Cp|done].
Qed.

Lemma safe_codes f w :
  rows_from co_kept new_secret (oauth_codes (db w)) (f (oauth_codes (db w))) ->
  safe (E:=StoreError) (write (upd_oauth_codes f)) w.
Proof. intros Hf. by apply safe_write; [|apply rows_from_refl; apply _|exact Hf|apply rows_from_refl; apply _]. Qed.

Lemma safe_refresh f w :
  rows_from or_kept (fun h r => drawn h /\ tied (oauth_grants (db w)) r) (oauth_refresh (db w)) (f (oauth_refresh (db w))) ->
  safe (E:=StoreError) (write (upd_oauth_refresh f)) w.
Proof.
  intros Hf. apply safe_write; [|apply rows_from_refl; apply _|apply rows_from_refl; apply _|].
  - intros (Cp & Cg & Ct & Cr). split_and!; [done..|]. intros h r' Hr'.
    destruct (Hf h r' Hr') as [(r & Hr & (Eg & _ & El) & _)|[_ Ht]]; [|done].
    unfold tied. rewrite Eg, El. by apply (Cr h r).
  - intros h r' Hr'. destruct (Hf h r' Hr') as [?|[? _]]; [by left|by right].
Qed.

(** Grants that end. *)
Lemma safe_grants_end (f : OAuthGrantRow -> OAuthGrantRow) w :
  (forall g, og_kept g (f g)) -> safe (E:=StoreError) (write (upd_oauth_grants (fmap f))) w.
Proof.
  intros Hf. apply safe_write; [|by apply rows_from_map|apply rows_from_refl; apply _..].
  intros (Cp & Cg & Ct & Cr). split_and!; [done|..]; cbn.
  - intros i g. rewrite lookup_fmap_Some. intros (g0 & <- & Hg0). destruct (Hf g0) as [(_ & _ & _ & -> & _) _]. by eapply Cg.
  - intros i t g Ht Ho. destruct (Ct i t g Ht Ho) as (row & Hrow & Hb). exists (f row). rewrite lookup_fmap, Hrow.
    split; [done|]. destruct (Hf row) as [(_ & Em & Ew & Es & _) _]. unfold bound. by rewrite Em, Ew, Es.
  - intros h r Hr. destruct (Cr h r Hr) as (g & Hg & Hl). exists (f g). rewrite lookup_fmap, Hg. split; [done|].
    destruct (Hf g) as [(_ & _ & _ & _ & ->) _]. done.
Qed.

(** A grant that begins. *)
Lemma safe_grant_new id row w :
  oauth_grants (db w) !! id = None -> og_scope row ⊆ DELEGATABLE -> new_lineage id row ->
  safe (E:=StoreError) (write (upd_oauth_grants (fun m => <[id := row]> m))) w.
Proof.
  intros Hid Hs Hl. apply safe_write; [|apply rows_from_insert; [apply _|done]|apply rows_from_refl; apply _..].
  intros (Cp & Cg & Ct & Cr). split_and!; [done|..]; cbn.
  - intros i g. rewrite lookup_insert_Some. intros [[<- <-]|[_ Hg]]; [done|by eapply Cg].
  - intros i t g Ht Ho. destruct (Ct i t g Ht Ho) as (r & Hr & Hb). exists r. split; [|done].
    rewrite lookup_insert_ne by congruence. done.
  - intros h r Hr. destruct (Cr h r Hr) as (g & Hg & Ht). exists g. by rewrite lookup_insert_ne by congruence.
Qed.

Lemma tokens_fmap m (f : TokenRow -> TokenRow) : (forall t, token_kept t (f t)) -> tokens_evolved m (f <$> m).
Proof.
  intros Hf. replace (f <$> m) with (map_imap (fun _ t => Some (f t)) m); [by apply tokens_map|].
  apply map_eq. intros j. rewrite map_lookup_imap, lookup_fmap. by destruct (m !! j).
Qed.

(** Tokens that end, and a token minted under a grant. *)
Lemma safe_tokens_end (f : TokenRow -> TokenRow) w :
  (forall t, token_kept t (f t)) -> safe (E:=StoreError) (write (upd_api_tokens (fmap f))) w.
Proof.
  intros Hf. apply safe_keeps, keeps_write. intros w'. split_and!; [|done..]. by apply tokens_fmap.
Qed.

Lemma safe_token_new id row g grant w :
  tk_oauth row = Some g -> oauth_grants (db w) !! g = Some grant -> bound row grant ->
  safe (E:=StoreError) (insert_token id row) w.
Proof.
  intros Ho Hg Hb Hn Hc. pose proof (insert_token_run id row w) as Hr.
  destruct (insert_token id row w) as [[v|e] w']; cbn [snd]; [|by subst].
  destruct Hr as (_ & _ & ->). split; [|by apply ostep_same]. destruct Hc as (Cp & Cg & Ct & Cr). split_and!; [done..| |done].
  intros i t g'. cbn. rewrite lookup_insert_Some. intros [[<- <-]|[_ Ht]] Ho'; [simplify_eq; eauto|by eapply Ct].
Qed.

Lemma safe_drop gone w : safe (E:=StoreError) (write (drop_clients gone)) w.
Proof.
  apply safe_write; [|apply rows_from_filter; apply _..]. intros (Cp & Cg & Ct & Cr). split_and!; cbn.
  - exact Cp.
  - intros i g. rewrite map_lookup_filter_Some. intros [Hg _]. by eapply Cg.
  - intros i t g Ht Ho. apply lookup_fmap_Some in Ht as (t0 & Hkt & [Ht0 Hg0]%map_lookup_filter_Some). cbn in Hg0.
    assert (token_kept t0 t) as ((Ew & Em & _) & (Ec & Ee & Ed & Eo) & _).
    { rewrite <- Hkt. destruct (tk_parent t0) as [p|]; [|done].
      lazymatch goal with |- token_kept _ (if ?b then _ else _) => destruct b end; [apply reparented_kept|done]. }
    rewrite Eo in Ho. rewrite Ho in Hg0. destruct (Ct i t0 g Ht0 Ho) as (row & Hrow & Hb). rewrite Hrow in Hg0.
    exists row. split; [|unfold bound; by rewrite Ew, Em, Ec, Ed, Ee]. by apply map_lookup_filter_Some.
  - intros h r [Hr Hg]%map_lookup_filter_Some. destruct (Cr h r Hr) as (g & Hrow & Hl). cbn in Hg. rewrite Hrow in Hg.
    exists g. split; [|done]. by apply map_lookup_filter_Some.
Qed.

(** ** The store's operations *)

Lemma safe_check {E F A} (into : E -> F) (r : result E A) w : safe (check_ into r) w.
Proof. by destruct r; apply safe_same. Qed.
Lemma safe_ok_or {A} (o : option A) e w : safe (E:=StoreError) (ok_or o e) w.
Proof. by destruct o; apply safe_same. Qed.
Lemma safe_append owner new w : safe (E:=StoreError) (append_scoped owner new) w.
Proof. apply safe_keeps. apply keeps_append_scoped; apply _. Qed.
Lemma safe_known_fk {A} (table : Db -> gmap N A) i w : safe (E:=StoreError) (known_fk table i) w.
Proof. apply safe_keeps, keeps_known_fk. Qed.
Lemma safe_client_fk c w : safe (E:=StoreError) (client_fk c) w.
Proof. unfold client_fk, bind, read. apply safe_same; by destruct (bool_decide _). Qed.
Lemma safe_member_fk m w : safe (E:=StoreError) (member_fk m) w.
Proof. apply safe_keeps, keeps_member_fk. apply _. Qed.
Lemma safe_workspace_fk m w : safe (E:=StoreError) (workspace_fk m) w.
Proof. apply safe_keeps, keeps_workspace_fk. apply _. Qed.
Lemma safe_uuid w : safe (E:=StoreError) new_uuid w.
Proof. apply safe_same; [done|]. cbn. lia. Qed.

(** A reference that is checked changes nothing. *)
Lemma client_fk_Ok c w u w' : client_fk c w = (Ok u, w') -> w' = w.
Proof. unfold client_fk, bind, read. destruct (bool_decide _); [|done]. by intros [= _ <-]. Qed.

Lemma rwhen_Ok {E} b (e : E) w u w' : rwhen b (rfail e) w = (Ok u, w') -> b = false /\ w' = w.
Proof. destruct b; [done|]. by intros [= _ <-]. Qed.

(** What a call that succeeded says. *)
Ltac safe_inv E :=
  lazymatch type of E with
  | call _ _ _ = _ => apply call_Ok in E; safe_inv E
  | read _ _ = _ => apply read_Ok in E as [-> ->]
  | new_uuid _ = _ => injection E as <- <-
  | utc_now _ = _ => injection E as <- <-
  | ret _ _ = _ => apply ret_Ok in E as [-> ->]
  | rret _ _ = _ => apply rret_Ok in E as [-> ->]
  | rwhen _ (rfail _) _ = _ => apply rwhen_Ok in E as [E ->]
  | client_fk _ _ = _ => apply client_fk_Ok in E as ->
  | member_fk _ _ = _ => apply member_fk_Ok in E as ->
  | workspace_fk _ _ = _ => apply workspace_fk_Ok in E as ->
  | check_ _ _ _ = _ => apply check_Ok in E as [E ->]
  | ok_or _ _ _ = _ => apply ok_or_Ok in E as [E ->]
  | _ => idtac
  end.
Ltac safe_next := let a := fresh "a" in let w := fresh "w" in let E := fresh "E" in let C := fresh "C" in
  let Hn := fresh "Hn" in intros a w E Hn C; safe_inv E.
Ltac safe_step :=
  lazymatch goal with
  | |- safe (rbind _ _) _ => apply safe_bind; [|safe_next]
  | |- safe (bind _ _) _ => apply safe_bind_tx; [|safe_next]
  | |- safe (call _ _) _ => apply safe_call
  | |- safe (commit _) _ => apply safe_commit
  | |- safe (check_ _ _) _ => apply safe_check
  | |- safe (ok_or _ _) _ => apply safe_ok_or
  | |- safe (append_scoped _ _) _ => apply safe_append
  | |- safe (known_fk _ _) _ => apply safe_known_fk
  | |- safe (client_fk _) _ => apply safe_client_fk
  | |- safe (member_fk _) _ => apply safe_member_fk
  | |- safe (workspace_fk _) _ => apply safe_workspace_fk
  | |- safe new_uuid _ => apply safe_uuid
  | |- safe utc_now _ => by apply safe_same
  | |- safe (rret _) _ => by apply safe_same
  | |- safe (rfail _) _ => by apply safe_same
  | |- safe (ret _) _ => by apply safe_same
  | |- safe (fail _) _ => by apply safe_same
  | |- safe (read _) _ => by apply safe_same
  | |- safe (find_grant _ _ _ _) _ => by apply safe_same
  | |- safe (write (upd_oauth_clients _)) _ => apply safe_clients
  | |- safe (rwhen ?b _) _ => destruct b eqn:?; cbn [rwhen]
  | |- safe (let _ := _ in _) _ => cbv zeta
  | |- safe (match ?x with _ => _ end) _ => destruct x eqn:?
  end.
Ltac safe_auto := repeat safe_step.

Lemma safe_insert_client_row c row w : safe (E:=StoreError) (insert_client_row c row) w.
Proof. unfold insert_client_row. safe_auto. Qed.
Lemma safe_insert_client new w : safe (E:=StoreError) (insert_client new) w.
Proof. unfold insert_client. safe_auto. apply safe_insert_client_row. Qed.
Lemma safe_registered new now w : safe (E:=StoreError) (insert_registered_client new now) w.
Proof. unfold insert_registered_client. safe_auto. apply safe_insert_client_row. Qed.
Lemma safe_upsert new url w : safe (E:=StoreError) (upsert_metadata_client new url) w.
Proof. unfold upsert_metadata_client. safe_auto. Qed.
Lemma safe_sweep a b w : safe (E:=StoreError) (sweep_registered_clients a b) w.
Proof. unfold sweep_registered_clients. safe_auto. apply safe_drop. Qed.

Lemma safe_insert_code new w : drawn (nd_hash new) -> safe (E:=StoreError) (insert_code new) w.
Proof.
  intros Hd. unfold insert_code. safe_auto; apply safe_codes; [apply rows_from_filter; apply _|].
  apply rows_from_insert; [apply _|done].
Qed.

Lemma safe_consume_code h w : safe (E:=StoreError) (consume_code h) w.
Proof.
  unfold consume_code. safe_auto. apply safe_codes. destruct (oauth_codes _ !! h) as [c|] eqn:Hc; cbn in *; [|done].
  case_decide; simplify_eq. eapply rows_from_update; [apply _|done|]. by split_and!.
Qed.

Lemma safe_pending_new new w : np_scope new ⊆ DELEGATABLE -> safe (E:=StoreError) (create_pending_request new) w.
Proof.
  intros Hs. unfold create_pending_request. safe_auto. apply safe_pending. intros i p.
  rewrite lookup_insert_Some. intros [[<- <-]|[_ Hp]]; [by right|by left].
Qed.

(** A consent request taken to be decided carries a scope that may be granted. *)
Lemma safe_consume_pending id m ws now w : safe (E:=StoreError) (consume_pending_request id m ws now) w.
Proof.
  unfold consume_pending_request. safe_auto. apply safe_pending. intros i p. rewrite lookup_delete_Some. intros [_ ?]. by left.
Qed.
Lemma consumed_scope id m ws now w p w' :
  confined (db w) -> consume_pending_request id m ws now w = (Ok (Some p), w') -> op_scope p ⊆ DELEGATABLE.
Proof.
  intros (Cp & _) Hr. unfold consume_pending_request in Hr. rewrite bind_read in Hr.
  destruct (oauth_pending (db w) !! id) as [q|] eqn:Hq; cbn in Hr; [|by injection Hr].
  case_decide; [|by injection Hr]. run_step Hr. apply ret_Ok in Hr as [[= ->] _]. by eapply Cp.
Qed.

Lemma safe_insert_grant new f w :
  nl_scope new ⊆ DELEGATABLE -> (exists i, n <= i /\ nl_lineage new = uuid i) ->
  safe (E:=StoreError) (insert_grant_audited new f) w.
Proof.
  intros Hs (i & Hi & Hl). unfold insert_grant_audited, insert_grant_on. safe_auto.
  apply orb_false_iff in Heqb as [Hid%bool_decide_eq_false _]. rewrite <- eq_None_not_Some in Hid.
  apply safe_grant_new; [done..|]. by exists i.
Qed.

(** A grant that is found is in the table, and live. *)
Lemma find_grant_Ok client m ws scope w e w' :
  find_grant client m ws scope w = (Ok (Some e), w') ->
  w' = w /\ oauth_grants (db w) !! e.1 = Some e.2 /\ same_grant client m ws scope e.2 = true.
Proof.
  intros [He ->]%read_Ok. symmetry in He. apply list_elem_of_lookup_2, elem_of_order_by, elem_of_bfilter in He as [Hin Hs].
  destruct e. by apply elem_of_map_to_list in Hin.
Qed.

(** A minted token is bound to its grant when what it asks for is the grant's. *)
Lemma safe_mint new g grant w :
  oauth_grants (db w) !! g = Some grant -> nt_ws new = og_ws grant -> nt_member new = og_member grant ->
  nt_capabilities new ⊆ og_scope grant -> is_Some (nt_expires new) -> safe (E:=StoreError) (mint_token_on new g) w.
Proof.
  intros Hg Hw Hm Hc He. unfold mint_token_on. safe_auto. eapply safe_token_new; [done|exact Hg|]. split_and!; try done.
  cbn. intros c [Hc' _]%elem_of_bfilter. by apply Hc.
Qed.

Lemma known_fk_Ok {A} (table : Db -> gmap N A) i w u w' : known_fk table i w = (Ok u, w') -> w' = w.
Proof. unfold known_fk, bind, read. destruct i; [destruct (bool_decide _); [|done]|]; by intros [= _ <-]. Qed.

Lemma safe_insert_refresh new grant w :
  oauth_grants (db w) !! nr_grant new = Some grant -> og_lineage grant = nr_lineage new -> drawn (nr_hash new) ->
  safe (E:=StoreError) (insert_refresh_on new) w.
Proof.
  intros Hg Hl Hd. unfold insert_refresh_on. safe_auto. apply known_fk_Ok in E as ->.
  apply safe_refresh, rows_from_insert; [apply _|]. split; [done|]. by exists grant.
Qed.

(** Minting adds one row. *)
Lemma mint_Ok new g w v w' :
  mint_token_on new g w = (Ok v, w') ->
  db w' = upd_api_tokens (fun m => <[v.1 := v.2]> m) (db w)
  /\ tk_hash v.2 = nt_hash new /\ tk_oauth v.2 = Some g /\ tk_member v.2 = nt_member new /\ tk_ws v.2 = nt_ws new
  /\ tk_capabilities v.2 = sanitized_capabilities (nt_capabilities new).
Proof.
  unfold mint_token_on. intros Hr. do 2 run_step Hr. injection E as _ <-. injection E0 as _ <-.
  lazymatch type of Hr with insert_token ?i ?row ?w0 = _ => pose proof (insert_token_run i row w0) as Hi end.
  rewrite Hr in Hi. by destruct Hi as (-> & _ & ->).
Qed.
Lemma mint_grants new g w v w' : mint_token_on new g w = (Ok v, w') -> oauth_grants (db w') = oauth_grants (db w).
Proof. by intros (-> & _)%mint_Ok. Qed.

Lemma safe_mint_pair access g refresh f grant w :
  oauth_grants (db w) !! g = Some grant -> nt_ws access = og_ws grant -> nt_member access = og_member grant ->
  nt_capabilities access ⊆ og_scope grant -> is_Some (nt_expires access) ->
  nr_lineage refresh = og_lineage grant -> drawn (nr_hash refresh) ->
  safe (E:=StoreError) (mint_token_pair_audited access g refresh f) w.
Proof.
  intros ???? ? Hl ?. unfold mint_token_pair_audited. safe_auto; [by eapply safe_mint|].
  eapply safe_insert_refresh; [erewrite mint_grants by done|..]; [|done..]. by destruct (decide (nr_grant refresh = g)) as [->|].
Qed.

(** ** The end of a lineage *)

Lemma end_grant_kept lineage now g :
  og_kept g (if decide (og_lineage g = lineage /\ og_revoked g = None) then end_grant now g else g).
Proof. case_decide; by split_and!. Qed.
Lemma end_refresh_kept lineage now r :
  or_kept r (if decide (or_lineage r = lineage /\ or_revoked r = None) then end_refresh now r else r).
Proof. case_decide; by split_and!. Qed.

Lemma safe_revoke_lineage lineage w : safe (E:=StoreError) (revoke_lineage_on lineage) w.
Proof.
  unfold revoke_lineage_on. safe_auto.
  - apply safe_grants_end. apply end_grant_kept.
  - apply safe_tokens_end. intros t. case_match; [apply revoked_kept|done].
  - apply safe_refresh, rows_from_map. intros r. apply end_refresh_kept.
Qed.

Lemma safe_revoke_audited lineage f w : safe (E:=StoreError) (revoke_lineage_audited lineage f) w.
Proof. unfold revoke_lineage_audited. safe_auto. apply safe_revoke_lineage. Qed.

Lemma safe_revoke_used_code h f w : safe (E:=StoreError) (revoke_lineage_for_used_code h f) w.
Proof. unfold revoke_lineage_for_used_code. safe_auto. apply safe_revoke_lineage. Qed.

Lemma safe_refuse rotation f w : safe (E:=StoreError) (refuse_rotation rotation f) w.
Proof. unfold refuse_rotation. safe_auto. apply safe_revoke_lineage. Qed.

Lemma claimable_Some d now h r :
  claimable_refresh d now h = Some r ->
  oauth_refresh d !! h = Some r /\ or_used r = None /\ or_revoked r = None
  /\ exists g, oauth_grants d !! or_grant r = Some g /\ og_revoked g = None.
Proof.
  unfold claimable_refresh. destruct (oauth_refresh d !! h) as [r'|]; cbn; [|done]. case_decide as Hd; [|done].
  intros [= <-]. destruct Hd as (? & ? & _ & Hg). split_and!; try done.
  destruct (oauth_grants d !! or_grant r') as [g|]; [|done]. cbn in Hg. exists g. by injection Hg.
Qed.

Lemma all_held (scope l : list str) : existsb (fun c => negb (Auth.holds scope c)) l = false -> l ⊆ scope.
Proof.
  rewrite existsb_false. intros Hf c Hc. specialize (Hf c Hc). by apply negb_false_iff, bool_decide_eq_true in Hf.
Qed.

Lemma safe_rotate rotation f g w :
  drawn (ro_refresh_hash rotation) -> safe (E:=StoreError) (rotate_refresh_token rotation f g) w.
Proof.
  intros Hd. unfold rotate_refresh_token. safe_auto; [..|apply safe_refuse].
  - apply claimable_Some in Heqo as (Hr & _). apply safe_refresh. eapply rows_from_update; [apply _|done|by split_and!].
  - eapply safe_mint; [done..|by apply all_held|by eexists].
  - apply claimable_Some in Heqo as (Hr & _). injection E as _ <-. destruct C as (_ & _ & _ & Cr).
    destruct (Cr _ _ Hr) as (grant & Hg & Hl). eapply safe_insert_refresh; [|exact Hl|done].
    erewrite mint_grants by done. exact Hg.
Qed.

(** A token ended alone. *)
Lemma safe_token_end i t now w :
  api_tokens (db w) !! i = Some t -> safe (E:=StoreError) (write (upd_api_tokens (fun m => <[i := upd_revoked now t]> m))) w.
Proof.
  intros Ht Hn Hc. assert (evolves w (write (upd_api_tokens (fun m => <[i := upd_revoked now t]> m)) w).2) as He.
  { split_and!; [|done..]. by apply (tokens_update _ i t), revoked_kept. }
  split; [by eapply evolves_confined|by apply evolves_ostep].
Qed.

Lemma safe_revoke_access h c f w : safe (E:=StoreError) (revoke_access_token_audited h c f) w.
Proof.
  unfold revoke_access_token_audited. safe_auto. apply find_some in Heqo as [Hin _].
  destruct p as [i t]. apply list_elem_of_In, elem_of_map_to_list in Hin. by apply safe_token_end.
Qed.

(** ** The endpoints *)

Lemma safe_resolve_document c w : safe (resolve_document c) w.
Proof.
  unfold resolve_document. safe_auto; try apply safe_upsert.
  all: apply safe_same; unfold fetch; by destruct (fetch_document (ticks _) _).
Qed.
Lemma safe_resolve_client c w : safe (resolve_client c) w.
Proof. unfold resolve_client, get_client_by_client_id. safe_auto; apply safe_resolve_document. Qed.

Lemma safe_load clients w : safe (load_preregistered_clients clients) w.
Proof.
  revert w. induction clients as [|c l IH]; intros w; cbn [load_preregistered_clients]; [by apply safe_same|].
  unfold get_client_by_client_id. safe_auto; auto using safe_insert_client.
Qed.

Lemma safe_preregistered creds w : safe (authenticate_preregistered creds) w.
Proof. unfold authenticate_preregistered, get_client_by_client_id. safe_auto. Qed.
Lemma safe_authenticate creds p w : safe (authenticate_in creds p) w.
Proof.
  unfold authenticate_in. safe_auto. pose proof (safe_resolve_client (cc_client creds) w) as Hs. unfold safe in *.
  destruct (resolve_client _ _) as [[]]; exact Hs.
Qed.

(** What may be asked for may be granted. *)
Lemma check_scopes_delegatable auth c scope u : check_scopes auth c scope = Ok u -> scope ⊆ DELEGATABLE.
Proof.
  induction scope as [|cap l IH]; cbn; [set_solver|]. unfold is_delegatable. destruct (Auth.holds DELEGATABLE cap) eqn:Hc; [|done].
  apply bool_decide_eq_true in Hc. cbn. destruct (negb _); [done|]. destruct (negb _); [done|]. set_solver.
Qed.

Lemma elem_of_btree_set c l : c ∈ btree_set l <-> c ∈ l.
Proof. unfold btree_set, sort_strs. by rewrite merge_sort_Permutation, elem_of_remove_dups. Qed.

Lemma safe_authorize auth q w : safe (authorize auth q) w.
Proof.
  unfold authorize. safe_auto; try apply safe_resolve_client.
  all: apply safe_pending_new; intros c; cbn [np_scope]; rewrite elem_of_btree_set.
  all: lazymatch goal with Hs : check_scopes _ _ _ = Ok _ |- _ => apply (check_scopes_delegatable _ _ _ _ Hs) end.
Qed.

Lemma safe_ensure_grant p w : op_scope p ⊆ DELEGATABLE -> safe (ensure_grant p) w.
Proof.
  intros Hs. unfold ensure_grant. safe_auto.
  pose proof (safe_insert_grant {| nl_client := op_client p; nl_member := op_member p; nl_ws := op_ws p;
    nl_scope := op_scope p; nl_lineage := uuid (ids w0) |} (grant_audit_for p)
    {| db := db w0; ticks := ticks w0; ids := S (ids w0) |} Hs) as Hi.
  assert (exists i, n <= i /\ uuid (ids w0) = uuid i) as Hl by (exists (ids w0); by split).
  specialize (Hi Hl). unfold safe in *. destruct (insert_grant_audited _ _ _) as [[|[]]]; exact Hi.
Qed.

Lemma safe_consent s h request approved code w :
  drawn (opaque_hash code) -> safe (decide_consent s h request approved code) w.
Proof.
  intros Hd. unfold decide_consent. safe_auto; try apply safe_consume_pending.
  - apply safe_ensure_grant. by eapply consumed_scope.
  - by apply safe_insert_code.
Qed.

Lemma safe_reused_code h c w : safe (revoke_for_reused_code h c) w.
Proof. unfold revoke_for_reused_code. safe_auto. apply safe_revoke_used_code. Qed.
Lemma safe_note_used c w : safe (note_registered_client_used c) w.
Proof. unfold note_registered_client_used, mark_registered_client_used. safe_auto. Qed.

Lemma grant_of_Ok c w g w' :
  grant_of c w = (Ok g, w') ->
  w' = w /\ oauth_grants (db w) !! g.1 = Some g.2 /\ same_grant (co_client c) (co_member c) (co_ws c) (co_scope c) g.2 = true.
Proof.
  unfold grant_of. intros Hr. req_step Hr. apply call_Ok in E. destruct a as [e|]; [|done].
  apply find_grant_Ok in E as (-> & He). by apply rret_Ok in Hr as [-> ->].
Qed.
Lemma safe_grant_of c w : safe (grant_of c) w.
Proof. unfold grant_of. safe_auto. Qed.

Lemma safe_pair g resource access refresh w :
  oauth_grants (db w) !! g.1 = Some g.2 -> drawn (opaque_hash refresh) -> safe (mint_pair g resource access refresh) w.
Proof. intros Hg Hd. unfold mint_pair. safe_auto. eapply safe_mint_pair; [exact Hg|done..|by eexists|done|done]. Qed.

Lemma safe_exchange origin creds p form access refresh w :
  drawn (opaque_hash refresh) -> safe (exchange_code origin creds p form access refresh) w.
Proof.
  intros Hd. unfold exchange_code, get_code. safe_auto;
    try (apply safe_reused_code || apply safe_authenticate || apply safe_consume_code || apply safe_note_used
         || apply safe_grant_of).
  all: lazymatch goal with Hg : grant_of _ _ = _ |- _ => apply grant_of_Ok in Hg as (-> & Hg & _) end.
  all: by apply safe_pair.
Qed.

Lemma safe_refresh_grant origin creds p form access refresh w :
  drawn (opaque_hash refresh) -> safe (refresh_grant origin creds p form access refresh) w.
Proof.
  intros Hd. unfold refresh_grant, get_refresh_token, get_oauth_grant. safe_auto;
    try (apply safe_revoke_audited || apply safe_authenticate || apply safe_note_used); by apply safe_rotate.
Qed.

Lemma safe_token h form access refresh w : drawn (opaque_hash refresh) -> safe (token h form access refresh) w.
Proof.
  intros Hd. unfold token. safe_auto; auto using safe_exchange, safe_refresh_grant, safe_preregistered.
Qed.

Lemma safe_revoke_endpoint h form w : safe (revoke_endpoint h form) w.
Proof.
  unfold revoke_endpoint, revoke_access, revoke_refresh, get_refresh_token. safe_auto;
    auto using safe_preregistered, safe_revoke_access, safe_revoke_audited.
Qed.

Lemma safe_revoke_member_grant s h g w : safe (revoke_member_grant s h g) w.
Proof. unfold revoke_member_grant, get_oauth_grant. safe_auto. apply safe_revoke_audited. Qed.

Lemma safe_register r w : safe (register r) w.
Proof. unfold register, count_unauthorized_registered_clients. safe_auto. apply safe_registered. Qed.
End steps.

(** ** Sequences of calls *)

Inductive OAct :=
| Plain (a : Act)
| LoadClients (clients : list NewOAuthClient)
| Authorize (auth : AuthContext) (q : AuthorizeQuery)
| Consent (s : SessionContext) (h : Headers) (request : option N) (approved : bool) (code : str)
| TokenCall (h : Headers) (form : OAuthTokenRequest) (access refresh : str)
| RevokeCall (h : Headers) (form : OAuthRevokeRequest)
| RevokeGrant (s : SessionContext) (h : Headers) (grant : N)
| Register (r : ClientRegistrationRequest)
| SweepClients (now : Z).

Definition oact (a : OAct) (w : World) : World :=
  match a with
  | Plain a => act a w
  | LoadClients clients => (load_preregistered_clients clients w).2
  | Authorize auth q => (authorize auth q w).2
  | Consent s h r ok code => (decide_consent s h r ok code w).2
  | TokenCall h form access refresh => (token h form access refresh w).2
  | RevokeCall h form => (revoke_endpoint h form w).2
  | RevokeGrant s h g => (revoke_member_grant s h g w).2
  | Register r => (register r w).2
  | SweepClients now => (sweep_clients now w).2
  end.
Definition oacts (l : list OAct) (w : World) : World := foldl (fun w a => oact a w) w l.

(** The secrets kept by their hash that a call draws. *)
Definition draws (a : OAct) (h : str) : Prop :=
  match a with
  | Consent _ _ _ _ code => h = opaque_hash code
  | TokenCall _ _ _ refresh => h = opaque_hash refresh
  | _ => False
  end.
Definition drawn_in (l : list OAct) (h : str) : Prop := Exists (fun a => draws a h) l.

Lemma act_ids a w : ids w <= ids (act a w).
Proof.
  destruct a as [o|t]; cbn; [|by apply token_op_evolves].
  apply (exec_kept evolves o w). intros w1 m' _ _. by apply evolves_same.
Qed.

Lemma oact_safe (drawn : str -> Prop) n a w :
  (forall h, draws a h -> drawn h) -> n <= ids w -> confined (db w) ->
  confined (db (oact a w)) /\ ostep drawn n w (oact a w).
Proof.
  intros Hd. destruct a; cbn [oact draws] in *.
  - intros _ Hc. pose proof (act_evolves a w) as He. split; [by eapply evolves_confined|].
    apply evolves_ostep; [apply act_ids|done].
  - apply (safe_load drawn n).
  - apply (safe_authorize drawn n).
  - apply (safe_consent drawn n). by apply Hd.
  - apply (safe_token drawn n). by apply Hd.
  - apply (safe_revoke_endpoint drawn n).
  - apply (safe_revoke_member_grant drawn n).
  - apply (safe_register drawn n).
  - unfold sweep_clients. exact (safe_sweep drawn n _ _ w).
Qed.

Lemma oacts_safe (drawn : str -> Prop) n l w :
  (forall h, drawn_in l h -> drawn h) -> n <= ids w -> confined (db w) ->
  confined (db (oacts l w)) /\ ostep drawn n w (oacts l w).
Proof.
  revert w. induction l as [|a l IH]; intros w Hd Hn Hc; [by split|]. cbn.
  destruct (oact_safe drawn n a w) as [Hc1 Ho1]; [intros h Hh; apply Hd; by left|done..|].
  destruct (IH (oact a w)) as [Hc2 Ho2]; [intros h Hh; apply Hd; by right|etrans; [exact Hn|apply Ho1]|done|].
  split; [done|]. by etrans.
Qed.

(** ** What an OAuth token may do *)

(** The grant a caller's token was minted under. *)
Definition under (w : World) (ctx : AuthContext) (g : N) : Prop :=
  exists id t, ac_token ctx = Some id /\ api_tokens (db w) !! id = Some t /\ tk_oauth t = Some g.

Lemma live_oauth w t g :
  live_at w t -> tk_oauth t = Some g -> exists row, oauth_grants (db w) !! g = Some row /\ og_revoked row = None.
Proof.
  unfold live_at, active_token_row. rewrite !andb_true_iff. intros [[[_ Hg] _] _] He. rewrite He in Hg. cbn in Hg.
  apply bool_decide_eq_true in Hg. rewrite lookup_fmap in Hg. destruct (oauth_grants (db w) !! g) as [row|]; [|done].
  exists row. split; [done|]. by injection Hg.
Qed.

(** C12: an OAuth token's authority stays within its consent. From a store in which every OAuth token and refresh token is bound to its grant, whatever the store, the token routes and the OAuth endpoints do, in any order, the store stays so; and a secret that resolves to a token minted under an OAuth grant does so on the resource surface only, while that grant is not revoked and before the token expires, to the grant's own member in the grant's workspace, acting for nobody else, with capabilities the grant's scope holds, none of which is administrative. *)
Theorem oauth_authority_confined l w :
  confined (db w) ->
  let w' := oacts l w in
  confined (db w')
  /\ forall secret ctx g, resolved w' secret ctx -> under w' ctx g ->
     (resolve_bearer secret w').1 <> Ok ctx
     /\ exists row id t, oauth_grants (db w') !! g = Some row /\ og_revoked row = None
        /\ within (og_ws row) (og_member row) (og_scope row) ctx /\ og_scope row ⊆ DELEGATABLE
        /\ ac_actor ctx = og_member row
        /\ api_tokens (db w') !! id = Some t /\ ac_token ctx = Some id
        /\ exists e, tk_expires t = Some e /\ (clock (ticks w') < e)%Z.
Proof.
  intros Hc w'. destruct (oacts_safe (drawn_in l) 0 l w) as [Hc' _]; [done|lia|done|]. fold w' in Hc'. clearbody w'.
  split; [exact Hc'|].
  intros secret ctx g Hr (id & t & Hid & Ht & Hg). split.
  - intros Hb. unfold resolve_bearer in Hb. destruct (rbind _ _ w') as [r w2] eqn:E. cbn in Hb. subst r.
    apply rbind_Ok_inv in E as (v & w1 & Ha & E). destruct (tk_oauth v.2) eqn:Ho; [done|].
    apply active_token_Ok in Ha as (Hv & _). apply active_context_Ok in E as (Hi & _). congruence.
  - apply resolved_row in Hr as (i & u & Hu & _ & Hl & Hctx). pose proof Hctx as (Hi & Hw & Hm & _ & Hb & Hcaps & Hact).
    rewrite Hi in Hid. simplify_eq. destruct (live_oauth _ _ _ Hl Hg) as (row & Hrow & Hn).
    destruct Hc' as (_ & Cg & Ct & _). destruct (Ct id u g Hu Hg) as (row' & Hrow' & Bw & Bm & Bc & Bg & e & He).
    rewrite Hrow in Hrow'. simplify_eq. rewrite Bg in Hact. exists row', id, u. split_and!; try done.
    + unfold within. split_and!; try congruence. by etrans.
    + by eapply Cg.
    + congruence.
    + exists e. split; [done|]. by eapply live_before.
Qed.

(** ** A lineage that has ended *)

Definition dead (lineage : N) (d : Db) : Prop :=
  forall g row, oauth_grants d !! g = Some row -> og_lineage row = lineage -> is_Some (og_revoked row).

(** Identifiers given out from [n] on are not this one. *)
Definition not_again (n : nat) (lineage : N) : Prop := forall i, n <= i -> uuid i <> lineage.

Lemma dead_ostep drawn n L w w' : not_again n L -> ostep drawn n w w' -> dead L (db w) -> dead L (db w').
Proof.
  intros Hn (_ & Hg & _) Hd g row' Hr Hl. destruct (Hg g row' Hr) as [(row & Hrow & (_ & _ & _ & _ & El) & Hm)|(i & Hi & El)].
  - apply Hm, (Hd g); [done|]. congruence.
  - exfalso. apply (Hn i Hi). congruence.
Qed.

Lemma dead_same L d d' : oauth_grants d' = oauth_grants d -> dead L d -> dead L d'.
Proof. unfold dead. by intros ->. Qed.

Lemma revoke_lineage_run L w : exists rv w', revoke_lineage_on L w = (Ok rv, w') /\ dead L (db w') /\ ids w <= ids w'.
Proof.
  eexists _, _. split; [reflexivity|]. split; [|done]. intros g row Hrow.
  change (end_grants L (clock (ticks w)) (oauth_grants (db w)) !! g = Some row) in Hrow.
  apply lookup_fmap_Some in Hrow as (g0 & <- & Hg0). intros Hl. case_decide as Hd; [by eexists|]. apply not_eq_None_Some. tauto.
Qed.

(** The revocation's own record is always accepted. *)
Lemma append_lineage reason client actor rv w :
  exists row w', append_scoped (lineage_owner rv) (lineage_audit_as reason client actor rv) w = (Ok row, w')
                 /\ oauth_grants (db w') = oauth_grants (db w) /\ ids w' = ids w.
Proof.
  unfold append_scoped, lineage_owner, lineage_audit_as. rewrite bind_read. unfold check.
  rewrite decide_True by (by destruct (lv_ws rv)). unfold append_on, bind, lift, ret, utc_now, read, write. cbn.
  destruct (audit_principal actor) as [[a b] c]. by eexists _, _.
Qed.

Lemma revoke_audited_run L reason client actor w :
  exists rv w', revoke_lineage_audited L (lineage_audit_as reason client actor) w = (Ok rv, w') /\ dead L (db w')
                /\ ids w <= ids w'.
Proof.
  unfold revoke_lineage_audited. destruct (revoke_lineage_run L w) as (rv & w1 & E & Hd & Hi).
  destruct (append_lineage reason client actor rv w1) as (row & w2 & E2 & Hg & Hi2). exists rv, w2.
  unfold commit. rewrite (bind_Ok _ _ _ _ _ E), (bind_Ok _ _ _ _ _ E2). split; [done|].
  split; [by eapply dead_same|]. by rewrite Hi2.
Qed.

(** No caller and no refresh token of the lineage is accepted. *)
Definition ended (lineage : N) (w : World) : Prop :=
  (forall secret ctx g row, resolved w secret ctx -> under w ctx g -> oauth_grants (db w) !! g = Some row ->
     og_lineage row <> lineage)
  /\ (forall origin creds p form access refresh s r, required (tr_refresh form) = Ok s ->
        oauth_refresh (db w) !! opaque_hash s = Some r -> or_lineage r = lineage ->
        exists e, (refresh_grant origin creds p form access refresh w).1 = Err e).

(** What a rotation asks of the token presented. *)
Lemma refresh_grant_live origin creds p form access refresh w resp w' s r :
  refresh_grant origin creds p form access refresh w = (Ok resp, w') -> required (tr_refresh form) = Ok s ->
  oauth_refresh (db w) !! opaque_hash s = Some r ->
  or_client r = cc_client creds /\ or_used r = None /\ or_revoked r = None
  /\ exists g, oauth_grants (db w) !! or_grant r = Some g /\ og_revoked g = None.
Proof.
  intros Hr Hs Hrow. unfold refresh_grant, get_refresh_token in Hr. rewrite Hs in Hr. req_step Hr. simplify_eq.
  req_step Hr. apply call_Ok, read_Ok in E as [-> ->]. rewrite Hrow in Hr. req_step Hr. apply rwhen_Ok in E as [Hc ->].
  apply negb_false_iff, bool_decide_eq_true in Hc. req_step Hr.
  destruct (or_used r) eqn:Hu; [cbn in E; by apply rbind_Ok_inv in E as (? & ? & _ & ?)|].
  rewrite bool_decide_eq_false_2 in E by (by intros []). apply rret_Ok in E as [_ ->].
  req_step Hr. apply rwhen_Ok in E as [Hv%bool_decide_eq_false ->]. rewrite <- eq_None_not_Some in Hv.
  req_step Hr. apply call_Ok in E. injection E as <- <-. req_step Hr. apply rwhen_Ok in E as [_ ->].
  req_step Hr. apply call_Ok, read_Ok in E as [-> ->]. cbn [db] in Hr.
  destruct (oauth_grants (db w) !! or_grant r) as [g|]; cbn [mbind option_bind] in Hr; [|done].
  case_decide; [|done]. split_and!; try done. eauto.
Qed.

Lemma dead_ended L w : confined (db w) -> dead L (db w) -> ended L w.
Proof.
  intros (_ & _ & _ & Cr) Hd. split.
  - intros secret ctx g row Hr (id & t & Hid & Ht & Hg) Hrow Hl.
    apply resolved_row in Hr as (i & u & Hu & _ & Hlive & (Hi & _)).
    assert (i = id) as -> by congruence. assert (u = t) as -> by congruence.
    destruct (live_oauth _ _ _ Hlive Hg) as (row' & Hrow' & Hn).
    destruct (Hd g row Hrow Hl) as [z Hz]. congruence.
  - intros origin creds p form access refresh s r Hs Hr Hl.
    destruct (refresh_grant origin creds p form access refresh w) as [[resp|e] w'] eqn:E; [|by exists e]. exfalso.
    destruct (refresh_grant_live _ _ _ _ _ _ _ _ _ _ _ E Hs Hr) as (_ & _ & _ & g & Hg & Hn).
    destruct (Cr _ _ Hr) as (g' & Hg' & Hgl). rewrite Hl in Hgl. destruct (Hd _ _ Hg' Hgl) as [z Hz]. congruence.
Qed.

Lemma ended_forever L n l w :
  not_again n L -> n <= ids w -> confined (db w) -> dead L (db w) -> ended L (oacts l w).
Proof.
  intros Hn Hi Hc Hd. destruct (oacts_safe (drawn_in l) n l w) as [Hc' Ho]; [done..|]. apply dead_ended; [done|].
  by eapply dead_ostep.
Qed.

(** ** A refresh token is rotated once *)

(** A token of this client and lineage that was presented before, unless its row
    is gone. *)
Definition spent_as (client : str) (lineage : N) (h : str) (d : Db) : Prop :=
  forall r, oauth_refresh d !! h = Some r -> or_client r = client /\ or_lineage r = lineage /\ is_Some (or_used r).

Lemma spent_ostep (drawn : str -> Prop) n c L h w w' :
  ~ drawn h -> ostep drawn n w w' -> spent_as c L h (db w) -> spent_as c L h (db w').
Proof.
  intros Hn (_ & _ & _ & Hr) Hs r' Hr'. destruct (Hr h r' Hr') as [(r & Hrow & (_ & Ec & El) & Hu & _)|]; [|done].
  destruct (Hs r Hrow) as (? & ? & ?). split_and!; [congruence..|auto].
Qed.

Lemma insert_refresh_Ok new w v w' :
  insert_refresh_on new w = (Ok v, w') ->
  oauth_refresh (db w) !! nr_hash new = None
  /\ exists row, db w' = upd_oauth_refresh (fun m => <[nr_hash new := row]> m) (db w).
Proof.
  unfold insert_refresh_on. intros Hr. run_step Hr. injection E as _ <-. rewrite bind_read in Hr.
  case_bool_decide as Ht; [done|]. rewrite <- eq_None_not_Some in Ht. split; [done|].
  run_step Hr. apply known_fk_Ok in E as ->. run_step Hr. injection E as _ <-. apply ret_Ok in Hr as [_ ->]. by eexists.
Qed.

Lemma rotate_spends rotation f g w a b w' c L :
  rotate_refresh_token rotation f g w = (Ok (Rotated a b), w') ->
  (forall r, oauth_refresh (db w) !! ro_presented rotation = Some r -> or_client r = c /\ or_lineage r = L) ->
  spent_as c L (ro_presented rotation) (db w').
Proof.
  unfold rotate_refresh_token. intros Hr Hw. run_step Hr. injection E as _ <-. apply commit_Ok in Hr.
  rewrite bind_read in Hr. cbn [db] in Hr.
  destruct (claimable_refresh (db w) _ _) as [r|] eqn:Hc.
  2: { unfold refuse_rotation in Hr. rewrite bind_read in Hr. destruct (oauth_refresh _ !! _); [|done].
       case_decide; [done|]. run_step Hr. run_step Hr. done. }
  apply claimable_Some in Hc as (Hrow & _). run_step Hr. injection E as _ <-. rewrite bind_read in Hr.
  run_step Hr. apply ok_or_Ok in E as [_ ->]. destruct (existsb _ _); [done|]. run_step Hr. apply mint_Ok in E as (Hm & _).
  run_step Hr. apply insert_refresh_Ok in E as (Hfree & row & Hins). run_step Hr. apply append_scoped_Ok in E as (Hap & _).
  apply ret_Ok in Hr as [_ ->]. rewrite Hm in Hfree, Hins. intros r' Hr'. rewrite Hap, Hins in Hr'. cbn in Hfree, Hr'.
  destruct (Hw r Hrow) as [Hcl Hl]. apply lookup_insert_Some in Hr' as [[Heq _]|[Hne Hr']].
  - exfalso. rewrite Heq, lookup_insert_eq in Hfree. done.
  - rewrite lookup_insert_eq in Hr'. simplify_eq. split_and!; [done..|by eexists].
Qed.

Lemma note_used_refresh c w u w' :
  note_registered_client_used c w = (Ok u, w') -> oauth_refresh (db w') = oauth_refresh (db w).
Proof.
  unfold note_registered_client_used. destruct (oc_registered c.2); [|by intros [_ ->]%rret_Ok].
  intros Hr. req_step Hr. apply call_Ok in E, Hr. injection E as _ <-. by injection Hr as _ <-.
Qed.

Lemma refresh_grant_spends origin creds p form access refresh w resp w' s r :
  confined (db w) -> refresh_grant origin creds p form access refresh w = (Ok resp, w') ->
  required (tr_refresh form) = Ok s -> oauth_refresh (db w) !! opaque_hash s = Some r ->
  spent_as (or_client r) (or_lineage r) (opaque_hash s) (db w').
Proof.
  intros Hconf Hr Hs Hrow. pose proof (refresh_grant_live _ _ _ _ _ _ _ _ _ _ _ Hr Hs Hrow) as (_ & Hu & Hv & g & Hg & Hgn).
  unfold refresh_grant, get_refresh_token, get_oauth_grant in Hr. rewrite Hs in Hr. req_step Hr. simplify_eq.
  req_step Hr. apply call_Ok, read_Ok in E as [-> ->]. rewrite Hrow in Hr. req_step Hr. apply rwhen_Ok in E as [_ ->].
  rewrite Hu in Hr. req_step Hr. apply rret_Ok in E as [_ ->]. req_step Hr. apply rwhen_Ok in E as [_ ->].
  req_step Hr. apply call_Ok in E. injection E as <- <-. req_step Hr. apply rwhen_Ok in E as [_ ->].
  req_step Hr. apply call_Ok, read_Ok in E as [-> ->]. cbn [db] in Hr. rewrite Hg in Hr. cbn [mbind option_bind] in Hr.
  rewrite decide_True in Hr by done.
  req_step Hr. rename E into Hauth. do 3 req_step Hr. apply rwhen_Ok in E as [_ ->]. req_step Hr.
  req_step Hr. apply call_Ok in E. injection E as <- <-. req_step Hr. apply call_Ok in E. injection E as <- <-.
  req_step Hr. apply call_Ok in E. destruct a9 as [t row|rv|]; [|done..]. req_step Hr. apply rret_Ok in Hr as [_ ->].
  apply note_used_refresh in E0. intros r' Hr'. rewrite E0 in Hr'. revert r' Hr'.
  eapply (rotate_spends _ _ _ _ _ _ _ _ _ E). cbn [db ro_presented]. intros r1 Hr1.
  destruct (safe_authenticate (fun _ => False) 0 creds p {| db := db w; ticks := S (ticks w); ids := ids w |})
    as [_ (_ & _ & _ & Hrows)]; [lia|done|]. rewrite Hauth in Hrows.
  destruct (Hrows _ _ Hr1) as [(r0 & Hr0 & (_ & Ec & El) & _)|[]]. cbn [db snd] in Hr0. split; congruence.
Qed.

(** A spent token presented again. *)
Lemma reuse_ends origin creds p form access refresh w s r :
  required (tr_refresh form) = Ok s -> oauth_refresh (db w) !! opaque_hash s = Some r -> or_client r = cc_client creds ->
  is_Some (or_used r) ->
  exists w', refresh_grant origin creds p form access refresh w = (Err denied, w') /\ dead (or_lineage r) (db w').
Proof.
  intros Hs Hrow Hc Hu.
  destruct (revoke_audited_run (or_lineage r) (lit "refresh_token_reuse") (cc_client creds) None w) as (rv & w' & E & Hd & _).
  exists w'. split; [|done]. unfold refresh_grant, get_refresh_token. rewrite Hs. unfold rbind at 1. cbn [check_ rret].
  unfold rret at 1, rbind at 1, call at 1, read. rewrite Hrow. rewrite (bool_decide_eq_true_2 (or_client r = _)) by done.
  cbn [negb rwhen]. unfold rbind at 1. rewrite (bool_decide_eq_true_2 (is_Some _)) by done. cbn [rwhen]. unfold rret at 1.
  unfold rbind at 1 2, call at 1. unfold lineage_audit. rewrite E. done.
Qed.

(** C13: a refresh token works once, and presenting it again ends its lineage. After the token endpoint has rotated a refresh token, whatever the store and the OAuth endpoints do in between (drawing no secret of the same hash), its client presenting it again is refused; and if the token's row still exists (its client was not swept away meanwhile), from then on, for good, whatever anyone does: no access token minted under a grant of the lineage resolves, and no refresh token of the lineage is exchanged, the one the rotation handed out included. *)
Theorem refresh_reuse_ends_lineage origin creds p form access refresh resp w w1 s r l :
  confined (db w) -> required (tr_refresh form) = Ok s -> oauth_refresh (db w) !! opaque_hash s = Some r ->
  not_again (ids w) (or_lineage r) ->
  refresh_grant origin creds p form access refresh w = (Ok resp, w1) ->
  ~ drawn_in l (opaque_hash s) ->
  forall creds' p' form' access' refresh', required (tr_refresh form') = Ok s -> cc_client creds' = or_client r ->
  exists w3, refresh_grant origin creds' p' form' access' refresh' (oacts l w1) = (Err denied, w3)
    /\ (is_Some (oauth_refresh (db (oacts l w1)) !! opaque_hash s) -> forall l', ended (or_lineage r) (oacts l' w3)).
Proof.
  intros Hconf Hs Hrow Hnot Hrot Hl creds' p' form' access' refresh' Hs' Hc'.
  pose proof (refresh_grant_spends _ _ _ _ _ _ _ _ _ _ _ Hconf Hrot Hs Hrow) as Hspent.
  destruct (safe_refresh_grant (eq (opaque_hash refresh)) (ids w) origin creds p form access refresh w) as [Hc1 Ho1]; [done..|].
  rewrite Hrot in Hc1, Ho1. cbn [snd] in Hc1, Ho1.
  destruct (oacts_safe (drawn_in l) (ids w) l w1) as [Hc2 Ho2]; [done|apply Ho1|done|].
  eapply spent_ostep in Hspent; [|exact Hl|exact Ho2].
  destruct (oauth_refresh (db (oacts l w1)) !! opaque_hash s) as [r2|] eqn:Hr2.
  - destruct (Hspent r2 Hr2) as (Hcl & Hli & Hu).
    destruct (reuse_ends origin creds' p' form' access' refresh' (oacts l w1) s r2) as (w3 & E & Hd); [done..|congruence|done|].
    exists w3. split; [done|]. intros _ l'.
    destruct (safe_refresh_grant (eq (opaque_hash refresh')) (ids w) origin creds' p' form' access' refresh' (oacts l w1))
      as [Hc3 Ho3]; [done|etrans; [apply Ho1|apply Ho2]|done|]. rewrite E in Hc3, Ho3. cbn [snd] in *.
    rewrite Hli in Hd. eapply (ended_forever _ (ids w)); [done| |done|done].
    etrans; [apply Ho1|]. etrans; [apply Ho2|apply Ho3].
  - exists (oacts l w1). split; [|by intros []]. unfold refresh_grant, get_refresh_token. rewrite Hs'.
    unfold rbind at 1. cbn [check_ rret]. unfold rret at 1, rbind at 1, call at 1, read. rewrite Hr2. done.
Qed.

(** ** A code is exchanged once *)

Definition spent_code (c : OAuthCodeRow) (h : str) (d : Db) : Prop :=
  forall c', oauth_codes d !! h = Some c' ->
    (co_client c' = co_client c /\ co_challenge c' = co_challenge c /\ co_lineage c' = co_lineage c) /\ is_Some (co_used c').

Lemma spent_code_ostep (drawn : str -> Prop) n c h w w' :
  ~ drawn h -> ostep drawn n w w' -> spent_code c h (db w) -> spent_code c h (db w').
Proof.
  intros Hn (_ & _ & Hr & _) Hs c' Hc'. destruct (Hr h c' Hc') as [(c0 & Hrow & (E1 & E2 & E3 & _) & Hu)|]; [|done].
  destruct (Hs c0 Hrow) as ((? & ? & ?) & ?). split_and!; [congruence..|auto].
Qed.

Lemma spent_code_same c h d d' : oauth_codes d' = oauth_codes d -> spent_code c h d -> spent_code c h d'.
Proof. unfold spent_code. by intros ->. Qed.

Lemma consume_spends h w v w' c :
  consume_code h w = (Ok (Some v), w') -> (forall c1, oauth_codes (db w) !! h = Some c1 -> co_kept c c1) ->
  spent_code c h (db w').
Proof.
  unfold consume_code. intros Hr Hk. run_step Hr. injection E as _ <-. rewrite bind_read in Hr. cbn [db] in Hr.
  destruct (oauth_codes (db w) !! h) as [c1|] eqn:Hc1; cbn [mbind option_bind] in Hr; [|done].
  case_decide; [|done]. run_step Hr. injection E as _ <-. apply ret_Ok in Hr as [_ ->]. intros c'. cbn.
  rewrite lookup_insert_eq. intros [= <-]. destruct (Hk c1 eq_refl) as [(? & ? & ? & _) _]. split; [by split_and!|by eexists].
Qed.

(** The pair a code is exchanged for. *)
Lemma mint_pair_Ok g resource access refresh w v w' :
  mint_pair g resource access refresh w = (Ok v, w') ->
  api_tokens (db w') !! v.1 = Some v.2 /\ oauth_codes (db w') = oauth_codes (db w) /\ oauth_grants (db w') = oauth_grants (db w)
  /\ tk_hash v.2 = hash_secret access /\ tk_oauth v.2 = Some g.1 /\ tk_member v.2 = og_member g.2 /\ tk_ws v.2 = og_ws g.2
  /\ tk_capabilities v.2 = sanitized_capabilities (og_scope g.2).
Proof.
  unfold mint_pair. intros Hr. do 2 req_step Hr. apply call_Ok in E, E0, Hr. injection E as <- <-. injection E0 as <- <-.
  unfold mint_token_pair_audited in Hr. rewrite decide_False in Hr by (cbn; congruence). apply commit_Ok in Hr.
  run_step Hr. apply mint_Ok in E as (Hm & Hf). run_step Hr. apply insert_refresh_Ok in E as (_ & row & Hi).
  run_step Hr. apply append_scoped_Ok in E as (Ha & _). apply ret_Ok in Hr as [-> ->]. rewrite Ha, Hi, Hm. cbn.
  rewrite lookup_insert_eq. by split_and!; [..|apply Hf|apply Hf|apply Hf|apply Hf|apply Hf].
Qed.

Lemma note_used_rest c w u w' :
  note_registered_client_used c w = (Ok u, w') ->
  oauth_codes (db w') = oauth_codes (db w) /\ oauth_grants (db w') = oauth_grants (db w) /\ api_tokens (db w') = api_tokens (db w).
Proof.
  unfold note_registered_client_used. destruct (oc_registered c.2); [|by intros [_ ->]%rret_Ok].
  intros Hr. req_step Hr. apply call_Ok in E, Hr. injection E as _ <-. by injection Hr as _ <-.
Qed.

(** The token a code was exchanged for, under the grant that was found. *)
Definition exchanged (d : Db) (c : OAuthCodeRow) (access : str) (scope : list str) : Prop :=
  exists g row id t, oauth_grants d !! g = Some row /\ same_grant (co_client c) (co_member c) (co_ws c) (co_scope c) row = true
    /\ api_tokens d !! id = Some t /\ tk_hash t = hash_secret access /\ tk_oauth t = Some g
    /\ tk_member t = co_member c /\ tk_ws t = co_ws c
    /\ tk_capabilities t = sanitized_capabilities (co_scope c) /\ scope = tk_capabilities t.

(** The checks on a code, its verifier and its redirect. *)
Definition code_answers (creds : ClientCredentials) (form : OAuthTokenRequest) (c : OAuthCodeRow) : Prop :=
  co_client c = cc_client creds /\ co_used c = None /\ required (tr_redirect form) = Ok (co_redirect c)
  /\ exists v, required (tr_verifier form) = Ok v /\ opaque_hash v = co_challenge c.

Lemma exchange_Ok origin creds p form access refresh w resp w' code :
  confined (db w) -> exchange_code origin creds p form access refresh w = (Ok resp, w') -> required (tr_code form) = Ok code ->
  exists c, oauth_codes (db w) !! opaque_hash code = Some c /\ code_answers creds form c
    /\ exchanged (db w') c access (ts_scope resp) /\ spent_code c (opaque_hash code) (db w').
Proof.
  intros Hconf Hr Hcode. unfold exchange_code, get_code in Hr. rewrite Hcode in Hr. req_step Hr. simplify_eq.
  req_step Hr. req_step Hr. req_step Hr. apply call_Ok, read_Ok in E as [-> ->].
  destruct (oauth_codes (db w) !! opaque_hash a) as [c|] eqn:Hc; [|done]. exists c. split; [done|].
  req_step Hr. apply rwhen_Ok in E as [Hcl%negb_false_iff%bool_decide_eq_true ->]. req_step Hr.
  destruct (co_used c) eqn:Hu; [cbn in E; by apply rbind_Ok_inv in E as (? & ? & _ & ?)|].
  rewrite bool_decide_eq_false_2 in E by (by intros []). apply rret_Ok in E as [_ ->].
  req_step Hr. rename E into Hauth. req_step Hr. apply call_Ok in E. injection E as <- <-.
  req_step Hr. apply rwhen_Ok in E as [_ ->]. req_step Hr. apply rwhen_Ok in E as [Hred%negb_false_iff%bool_decide_eq_true ->].
  do 2 req_step Hr. apply rwhen_Ok in E as [_ ->]. req_step Hr. apply rwhen_Ok in E as [Hch%negb_false_iff%bool_decide_eq_true ->].
  do 2 req_step Hr. apply call_Ok in E.
  lazymatch type of E with _ = (Ok ?o, _) => destruct o as [v|] end; [|by req_step Hr].
  assert (spent_code c (opaque_hash a) (db w1)) as Hspent.
  { eapply consume_spends; [exact E|]. cbn [db]. intros c1 Hc1.
    destruct (safe_authenticate (fun _ => False) 0 creds p w) as [_ (_ & _ & Hrows & _)]; [lia|done|]. rewrite Hauth in Hrows.
    destruct (Hrows _ _ Hc1) as [(c0 & Hc0 & Hk)|[]]. by assert (c0 = c) as <- by congruence. }
  req_step Hr. apply grant_of_Ok in E0 as (-> & Hg & Hsame). req_step Hr. apply rwhen_Ok in E0 as [_ ->].
  req_step Hr. apply mint_pair_Ok in E0 as (Ht & Mc & Mg & Hh & Ho & Hm & Hw & Hcaps).
  req_step Hr. apply note_used_rest in E0 as (Nc & Ng & Nt). apply rret_Ok in Hr as [-> ->].
  split; [split_and!; [done..|congruence|eauto]|]. split; [|eapply spent_code_same; [|exact Hspent]; congruence].
  pose proof Hsame as Hs. unfold same_grant in Hs. rewrite !andb_true_iff, !bool_decide_eq_true in Hs.
  destruct Hs as ((((_ & Sm) & Sw) & Ss) & _). eexists _, _, _, _. rewrite Ng, Nt, Mg. split_and!; [exact Hg|exact Hsame|exact Ht|..];
    first [done|congruence].
Qed.

(** A used code is never exchanged, and presenting it with its verifier ends the
    lineage it names. *)
Lemma used_code_refused origin creds p form access refresh w code c :
  required (tr_code form) = Ok code -> oauth_codes (db w) !! opaque_hash code = Some c -> is_Some (co_used c) ->
  exists e, (exchange_code origin creds p form access refresh w).1 = Err e.
Proof.
  intros Hcode Hc Hu. destruct (exchange_code origin creds p form access refresh w) as [[resp|e] w'] eqn:Hr; [|by exists e].
  exfalso. unfold exchange_code, get_code in Hr. rewrite Hcode in Hr. do 4 req_step Hr. simplify_eq.
  apply call_Ok, read_Ok in E as [-> ->]. rewrite Hc in Hr. req_step Hr. req_step Hr.
  rewrite bool_decide_eq_true_2 in E0 by done. cbn [rwhen] in E0. by req_step E0.
Qed.

Lemma code_reuse_ends origin creds p form access refresh w code c redirect v L :
  required (tr_code form) = Ok code -> required (tr_redirect form) = Ok redirect -> required (tr_verifier form) = Ok v ->
  oauth_codes (db w) !! opaque_hash code = Some c -> is_Some (co_used c) -> co_client c = cc_client creds ->
  opaque_hash v = co_challenge c -> co_lineage c = Some L ->
  exists w', exchange_code origin creds p form access refresh w = (Err denied, w') /\ dead L (db w').
Proof.
  intros Hcode Hred Hv Hc Hu Hcl Hch HL. destruct (revoke_lineage_run L w) as (rv & w1 & E & Hd & _).
  destruct (append_lineage (lit "code_reuse") (cc_client creds) None rv w1) as (row & w2 & E2 & Hg & _).
  exists w2. split; [|by eapply dead_same]. unfold exchange_code, get_code. rewrite Hcode, Hred, Hv.
  unfold rbind at 1 2 3 4. cbn [check_]. unfold rret at 1 2 3, call at 1, read. rewrite Hc.
  rewrite (bool_decide_eq_true_2 (co_client c = _)) by done. cbn [negb rwhen]. unfold rbind at 1 2, rret at 1.
  rewrite (bool_decide_eq_true_2 (is_Some _)) by done. cbn [rwhen]. rewrite (bool_decide_eq_true_2 (opaque_hash v = _)) by done.
  cbn [rwhen]. unfold rbind at 1, revoke_for_reused_code, rbind at 1, call at 1, revoke_lineage_for_used_code, commit.
  rewrite bind_read, Hc. destruct Hu as [z Hz]. cbn [mbind option_bind]. rewrite Hz. cbn [mbind option_bind]. rewrite HL.
  rewrite (bind_Ok _ _ _ _ _ E). unfold lineage_audit. by rewrite (bind_Ok _ _ _ _ _ E2).
Qed.

(** C14: a code is exchanged once, by the client it was issued to, and for what was consented to. When the token endpoint exchanges a code, the code had not been used and was issued to this client; the redirect presented is the one it was issued for and the verifier hashes to its challenge; and the access token handed out acts for the consenting member in its workspace with the scope consented to, under a live grant of that client, member, workspace and scope. Whatever the store and the OAuth endpoints do afterwards (drawing no secret of the same hash), the code is never exchanged again; and when the client presents it again with its verifier while the code is still stored (expired codes are swept when another is issued), the lineage recorded on the code ends for good, and with it the token handed out where the grant it was exchanged under is of that lineage. *)
Theorem code_exchanged_once origin creds p form access refresh resp w w1 code :
  confined (db w) -> exchange_code origin creds p form access refresh w = (Ok resp, w1) -> required (tr_code form) = Ok code ->
  exists c, oauth_codes (db w) !! opaque_hash code = Some c /\ code_answers creds form c
    /\ exchanged (db w1) c access (ts_scope resp)
    /\ forall l creds' p' form' access' refresh', ~ drawn_in l (opaque_hash code) -> required (tr_code form') = Ok code ->
       (exists e, (exchange_code origin creds' p' form' access' refresh' (oacts l w1)).1 = Err e)
       /\ forall redirect v L, is_Some (oauth_codes (db (oacts l w1)) !! opaque_hash code) ->
          required (tr_redirect form') = Ok redirect -> required (tr_verifier form') = Ok v ->
          cc_client creds' = co_client c -> opaque_hash v = co_challenge c -> co_lineage c = Some L ->
          not_again (ids w) L ->
          exists w3, exchange_code origin creds' p' form' access' refresh' (oacts l w1) = (Err denied, w3)
                     /\ forall l', ended L (oacts l' w3).
Proof.
  intros Hconf Hr Hcode. destruct (exchange_Ok _ _ _ _ _ _ _ _ _ _ Hconf Hr Hcode) as (c & Hc & Hans & Hex & Hspent).
  exists c. split_and!; [done..|]. intros l creds' p' form' access' refresh' Hl Hcode'.
  destruct (safe_exchange (eq (opaque_hash refresh)) (ids w) origin creds p form access refresh w) as [Hc1 Ho1]; [done..|].
  rewrite Hr in Hc1, Ho1. cbn [snd] in Hc1, Ho1.
  destruct (oacts_safe (drawn_in l) (ids w) l w1) as [Hc2 Ho2]; [done|apply Ho1|done|].
  eapply spent_code_ostep in Hspent; [|exact Hl|exact Ho2].
  destruct (oauth_codes (db (oacts l w1)) !! opaque_hash code) as [c2|] eqn:Hc0.
  - destruct (Hspent c2 Hc0) as [(Ecl & Ech & Eli) Hu]. split; [by eapply used_code_refused|].
    intros redirect v L _ Hred Hv Hcl Hch HL Hn.
    destruct (code_reuse_ends origin creds' p' form' access' refresh' (oacts l w1) code c2 redirect v L) as (w3 & E & Hd);
      [done..|congruence|congruence|congruence|]. exists w3. split; [done|]. intros l'.
    destruct (safe_exchange (eq (opaque_hash refresh')) (ids w) origin creds' p' form' access' refresh' (oacts l w1))
      as [Hc3 Ho3]; [done|etrans; [apply Ho1|apply Ho2]|done|]. rewrite E in Hc3, Ho3. cbn [snd] in *.
    eapply (ended_forever _ (ids w)); [done| |done|done]. etrans; [apply Ho1|]. etrans; [apply Ho2|apply Ho3].
  - split; [|by intros ? ? ? []]. unfold exchange_code, get_code. rewrite Hcode'.
    destruct (required (tr_redirect form')); [|by eexists]. destruct (required (tr_verifier form')); [|by eexists].
    unfold rbind at 1 2 3 4. cbn [check_]. unfold rret at 1 2 3, call at 1, read. rewrite Hc0. by eexists.
Qed.
End laws.

(** ** On a small store

    A client the operator lists asks member 5 for its scope, member 5
    consents, and the client exchanges the code. *)
Module OAuthSample.
Import Sample TokenSample.
#[export] Instance web : Web :=
  {| url_parse := fun s => if starts_with s (lit "https://")
                           then Some {| url_scheme := lit "https"; url_host := None; url_host_str := None; url_port := None;
                                        url_username := []; url_password := None; url_fragment := None; url_portless := s |}
                           else None;
     base64_text := fun _ => None; base64url_encode := fun b => b; percent_decode := Some;
     percent_encode := fun s => s; fetch_document := fun _ _ => FetchFailed |}.
#[export] Instance config : OAuthConfig :=
  {| public_origin := Some (lit "https://m"); dynamic_registration := None; metadata_hosts := [] |}.

Definition origin : str := lit "https://m".
Definition cli : NewOAuthClient :=
  {| nk_client := lit "cli"; nk_name := lit "CLI"; nk_redirects := [lit "https://app/cb"]; nk_secret := None;
     nk_scopes := [WORKSPACE_READ; MESSAGE_POST] |}.
Definition asker : AuthContext := from_token 30 5 1 [WORKSPACE_READ; MESSAGE_POST; TOKEN_ADMIN].
Definition ask : AuthorizeQuery :=
  {| aq_client := lit "cli"; aq_redirect := lit "https://app/cb"; aq_challenge := opaque_hash (lit "verifier");
     aq_method := lit "S256"; aq_scope := None; aq_state := lit "x"; aq_resource := Some (mcp_resource origin);
     aq_response_type := lit "code" |}.
Definition session : SessionContext := {| se_member := 5; se_ws := 1; se_token := None |}.
Definition headers : Headers :=
  {| h_authorization := None; h_sec_fetch_site := Some (Some (lit "same-origin")); h_origin := None; h_host := None |}.
Definition blank : World := {| db := tables; ticks := 0; ids := 50 |}.
Definition client_of (w : World) : World := oact (LoadClients [cli]) w.
(** The request the next authorization makes, and the consent to it. *)
Definition request_in (w : World) : option N :=
  match (authorize asker ask w).1 with Ok r => Some r.1 | Err _ => None end.
Definition consents (code : str) (w : World) : World :=
  oacts [Authorize asker ask; Consent session headers (request_in w) true code] w.
Definition creds : ClientCredentials := {| cc_client := lit "cli"; cc_secret := None; cc_method := MethodNone |}.
Definition by_code (code : str) : OAuthTokenRequest :=
  {| tr_grant_type := Some (lit "authorization_code"); tr_code := Some code; tr_redirect := Some (lit "https://app/cb");
     tr_client := Some (lit "cli"); tr_verifier := Some (lit "verifier"); tr_secret := None;
     tr_resource := Some (mcp_resource origin); tr_refresh := None; tr_scope := None |}.
Definition by_refresh (s : str) : OAuthTokenRequest :=
  {| tr_grant_type := Some (lit "refresh_token"); tr_code := None; tr_redirect := None;
     tr_client := Some (lit "cli"); tr_verifier := None; tr_secret := None;
     tr_resource := Some (mcp_resource origin); tr_refresh := Some s; tr_scope := None |}.
Definition consented : World := consents (lit "c1") (client_of blank).
Definition tokened : World := oact (TokenCall headers (by_code (lit "c1")) (lit "a1") (lit "r1")) consented.

Lemma blank_confined : confined (db blank).
Proof.
  split_and!; try by intros.
  unfold blank, tables. cbn [db oauth_grants]. intros i g [_ <-]%lookup_singleton_Some. cbn. set_solver.
Qed.

Lemma under_of w id ctx g :
  ac_token ctx = Some id -> tk_oauth <$> api_tokens (db w) !! id = Some (Some g) -> under w ctx g.
Proof. intros Hid Ho. destruct (api_tokens (db w) !! id) as [t|] eqn:Ht; [|done]. injection Ho as Ho. by exists id, t. Qed.
Lemma resource_resolved w s ctx w' : resolve_resource_bearer s w = (Ok ctx, w') -> resolved w s ctx.
Proof. intros E. right. by rewrite E. Qed.

(** The access token of the first exchange, under the grant of the consent. *)
Lemma first_token : exists ctx, resolved tokened (lit "a1") ctx /\ under tokened ctx 53.
Proof.
  destruct (req_value (resolve_resource_bearer (lit "a1")) tokened
    (fun r => bool_decide (ac_token r.1 = Some 54%N))) as (ctx & w' & E & Hp); [by vm_compute|].
  apply bool_decide_eq_true in Hp. exists ctx. split; [exact (resource_resolved _ _ _ _ E)|].
  apply (under_of _ 54%N); [exact Hp|by vm_compute].
Qed.

Lemma oauth_authority_confined_witness :
  exists ctx row, resolved tokened (lit "a1") ctx /\ oauth_grants (db tokened) !! 53%N = Some row
    /\ ac_capabilities ctx ⊆ og_scope row /\ (resolve_bearer (lit "a1") tokened).1 <> Ok ctx.
Proof.
  destruct first_token as (ctx & Hr & Hu).
  destruct (oauth_authority_confined
    [LoadClients [cli]; Authorize asker ask; Consent session headers (request_in (client_of blank)) true (lit "c1");
     TokenCall headers (by_code (lit "c1")) (lit "a1") (lit "r1")] blank blank_confined) as [_ Hall].
  destruct (Hall (lit "a1") ctx 53%N Hr Hu) as (Hb & row & _ & _ & Hrow & _ & (_ & _ & _ & Hc) & _).
  exists ctx, row. split; [exact Hr|]. split; [exact Hrow|]. split; [exact Hc|exact Hb].
Defined.

Definition cli_of (w : World) : option OAuthClient := (fun r => (lit "cli", r)) <$> oauth_clients (db w) !! lit "cli".

Lemma reached_confined l : confined (db (oacts l blank)).
Proof. apply (oacts_safe (drawn_in l) 0); [done|lia|apply blank_confined]. Qed.
Definition steps_to_token : list OAct :=
  [LoadClients [cli]; Authorize asker ask; Consent session headers (request_in (client_of blank)) true (lit "c1");
   TokenCall headers (by_code (lit "c1")) (lit "a1") (lit "r1")].

Lemma consented_confined : confined (db consented).
Proof.
  refine (proj1 (oacts_safe (drawn_in [Authorize asker ask; Consent session headers (request_in (client_of blank)) true (lit "c1")])
    0 [Authorize asker ask; Consent session headers (request_in (client_of blank)) true (lit "c1")] (client_of blank) _ _ _)).
  - done.
  - lia.
  - exact (reached_confined [LoadClients [cli]]).
Qed.

Lemma later_ids n L : (L < N.of_nat n)%N -> not_again n L.
Proof. intros HL i Hi. cbn. lia. Qed.

Lemma refresh_reuse_ends_lineage_witness :
  exists resp w1 w3, refresh_grant origin creds (cli_of tokened) (by_refresh (lit "r1")) (lit "a2") (lit "r2") tokened = (Ok resp, w1)
    /\ refresh_grant origin creds None (by_refresh (lit "r1")) (lit "a3") (lit "r3") (oacts [Authorize asker ask] w1) = (Err denied, w3)
    /\ forall l', ended 52 (oacts l' w3).
Proof.
  destruct (req_value (refresh_grant origin creds (cli_of tokened) (by_refresh (lit "r1")) (lit "a2") (lit "r2")) tokened
    (fun r => bool_decide (is_Some (oauth_refresh (db (oacts [Authorize asker ask] r.2)) !! opaque_hash (lit "r1")))))
    as (resp & w1 & E & Hrow); [by vm_compute|]. apply bool_decide_eq_true in Hrow.
  assert (exists r, oauth_refresh (db tokened) !! opaque_hash (lit "r1") = Some r /\ or_client r = lit "cli" /\ or_lineage r = 52%N)
    as (r & Hr & Hc & Hl).
  { eexists. split; [vm_compute; reflexivity|]. by split; vm_compute. }
  destruct (refresh_reuse_ends_lineage origin creds (cli_of tokened) (by_refresh (lit "r1")) (lit "a2") (lit "r2") resp tokened w1
    (lit "r1") r [Authorize asker ask] (reached_confined steps_to_token) eq_refl Hr) with (creds' := creds) (p' := @None OAuthClient)
    (form' := by_refresh (lit "r1")) (access' := lit "a3") (refresh' := lit "r3") as (w3 & E3 & Hend).
  - rewrite Hl. apply later_ids. by vm_compute.
  - exact E.
  - intros Hd. inversion Hd as [? ? Hd'|? ? Hd']; [exact Hd'|inversion Hd'].
  - reflexivity.
  - symmetry. exact Hc.
  - exists resp, w1, w3. split; [exact E|]. split; [exact E3|]. rewrite <- Hl. exact (Hend Hrow).
Defined.

Lemma code_exchanged_once_witness :
  exists resp w1, exchange_code origin creds (cli_of consented) (by_code (lit "c1")) (lit "a1") (lit "r1") consented = (Ok resp, w1)
    /\ (exists e, (exchange_code origin creds (cli_of consented) (by_code (lit "c1")) (lit "a2") (lit "r2")
                     (oacts [Authorize asker ask] w1)).1 = Err e)
    /\ exists c, oauth_codes (db consented) !! opaque_hash (lit "c1") = Some c /\ exchanged (db w1) c (lit "a1") (ts_scope resp).
Proof.
  destruct (req_value (exchange_code origin creds (cli_of consented) (by_code (lit "c1")) (lit "a1") (lit "r1")) consented
    (fun _ => true)) as (resp & w1 & E & _); [by vm_compute|].
  destruct (code_exchanged_once origin creds (cli_of consented) (by_code (lit "c1")) (lit "a1") (lit "r1") resp consented w1 (lit "c1")
    consented_confined E eq_refl) as (c & Hc & _ & Hex & Hall).
  exists resp, w1. split; [exact E|]. split; [|exact (ex_intro _ c (conj Hc Hex))].
  refine (proj1 (Hall [Authorize asker ask] creds (cli_of consented) (by_code (lit "c1")) (lit "a2") (lit "r2") _ eq_refl)).
  intros Hd. inversion Hd as [? ? Hd'|? ? Hd']; [exact Hd'|inversion Hd'].
Defined.

(** A code outlives the grant it was issued under: member 5 revokes the first
    grant and consents again, and the first code is exchanged under the second
    grant. Presented again, it ends the lineage it names, and the token it was
    exchanged for stays accepted. *)
Definition revoked_first : World := oact (RevokeGrant session headers 53) consented.
Definition second_consent : World := consents (lit "c2") revoked_first.
Definition late_exchange : World := oact (TokenCall headers (by_code (lit "c1")) (lit "a1") (lit "r1")) second_consent.
Definition late_reuse : World := oact (TokenCall headers (by_code (lit "c1")) (lit "a2") (lit "r2")) late_exchange.

Definition takes (w : World) (secret : str) : bool :=
  match (resolve_resource_bearer secret w).1 with Ok _ => true | Err _ => false end.

Lemma code_outlives_its_grant :
  is_Some ((oauth_grants (db revoked_first) !! 53%N) ≫= og_revoked)
  /\ match (OAuthServer.token headers (by_code (lit "c1")) (lit "a1") (lit "r1") revoked_first).1 with Ok _ => false | Err _ => true end = true
  /\ takes late_exchange (lit "a1") = true
  /\ match (OAuthServer.token headers (by_code (lit "c1")) (lit "a2") (lit "r2") late_exchange).1 with Ok _ => false | Err _ => true end = true
  /\ takes late_reuse (lit "a1") = true.
Proof. split_and!; [by eexists; vm_compute|by vm_compute..]. Qed.
End OAuthSample.
