(* ===== verification/LedgerLaws.v ===== *)
(** * Laws of the usage ledger

    An accounted report is charged once: whatever the store does in between, a
    retry answers with the entry of the first call and writes nothing. The token
    tiers of a thread's budget are the sums of its entries, under every sequence
    of the store's operations. *)

From stdpp Require Import strings.
From S2P Require Import Prelude Text Json EventChain EventLog Footprint Fsm Usage UsageLaws Db Budget TxLogic AuditTrail Claimability Threads FootprintStore Ledger StoreRels FlowLogic StoreOps ClaimLaws BudgetLaws Samples.
Local Open Scope tx_scope.

(** ** Worlds with the same ledger and the same tiers *)

Definition untouched (w w' : World) : Prop :=
  usage_ledger (db w') = usage_ledger (db w)
  /\ forall thread, tiers_at (thread_budgets (db w')) thread = tiers_at (thread_budgets (db w)) thread.

Global Instance untouched_preorder : PreOrder untouched.
Proof. split; [by split|]. intros w1 w2 w3 [Hl Ht] [Hl' Ht']. split; [by rewrite Hl'|]. intros thread. by rewrite Ht'. Qed.

Lemma untouched_same w w' :
  usage_ledger (db w') = usage_ledger (db w) -> thread_budgets (db w') = thread_budgets (db w) -> untouched w w'.
Proof. intros Hl Hb. split; [done|]. by rewrite Hb. Qed.

Section laws.
Context `{JsonText, Sha256, Env}.

Global Instance untouched_store : StoreRel untouched.
Proof.
  assert (TxRel untouched) as Htx.
  { constructor; [intros; by apply untouched_same|]. intros w1 w2 w3 _ _ ? ?. by etrans. }
  constructor; [|intros w d' (_ & _ & _ & _ & _ & _ & _ & _ & _ & Hl & Hb & _); by apply untouched_same
                |intros; by apply untouched_same..].
  constructor; try (intros; by apply untouched_same); [done| |intros w m Hm; by split].
  intros n s e w _. destruct (append_event_frame s e w) as [Hi [Hd|(l & o & Hd)]]; (split; [by rewrite Hi|]);
    apply untouched_same; by rewrite Hd.
Qed.

Lemma exec_untouched o w : accounted o = false -> untouched w (exec o w).2.
Proof. intros Ho. apply (exec_kept_plain untouched o w Ho). intros w1 m' _ _. by apply untouched_same. Qed.

(** ** What an accounted report writes *)

(** The row of a report, as it is once finished. *)
Definition ledger_row (new : NewUsageLedgerEntry) (ws : N) (now : Z) (o : option UsageOutcome) : UsageRow :=
  {| u_report := nu_report new; u_ws := ws; u_thread := nu_thread new; u_reporter := nu_reporter new;
     u_lease := nu_lease new; u_model := trim (nu_model new); u_tokens := nu_tokens new;
     u_prices := nu_prices new; u_usd_micros := nu_usd_micros new; u_turns := nu_turns new;
     u_evidence := nu_evidence new; u_accepted := now; u_outcome := o |}.

Definition plus_tokens (a b : TokenUsage) : TokenUsage :=
  {| tu_input := tu_input a + tu_input b; tu_output := tu_output a + tu_output b;
     tu_cache_read := tu_cache_read a + tu_cache_read b; tu_write_5m := tu_write_5m a + tu_write_5m b;
     tu_write_1h := tu_write_1h a + tu_write_1h b |}.

(** Five sums that 64-bit columns hold. *)
Definition tiers_fit (u : TokenUsage) : bool :=
  forallb (fun n => (I64_MIN <=? n)%Z && (n <=? I64_MAX)%Z)
    [tu_input u; tu_output u; tu_cache_read u; tu_write_5m u; tu_write_1h u].
Lemma row_fits_tiers b : row_fits b = true -> tiers_fit (tiers b) = true.
Proof. unfold row_fits, tiers_fit. cbn [forallb tiers tu_input tu_output tu_cache_read tu_write_5m tu_write_1h]. by rewrite !andb_true_iff; intuition. Qed.

(** The ledger has one more entry, and its thread's tiers count it. *)
Definition booked (new : NewUsageLedgerEntry) (ws : N) (e : UsageLedgerEntry) (w w' : World) : Prop :=
  report_row (db w) (nu_report new) = None
  /\ (exists now o, usage_ledger (db w') = usage_ledger (db w) ++ [ledger_row new ws now (Some o)]
                    /\ row_to_entry (ledger_row new ws now (Some o)) = Ok e)
  /\ (forall thread, tiers_at (thread_budgets (db w')) thread
                     = if decide (thread = nu_thread new)
                       then plus_tokens (tiers_at (thread_budgets (db w)) thread) (nu_tokens new)
                       else tiers_at (thread_budgets (db w)) thread)
  /\ tiers_fit (plus_tokens (tiers_at (thread_budgets (db w)) (nu_thread new)) (nu_tokens new)) = true.

Lemma reserve_Ok new ws w b w' :
  reserve_in_tx new ws w = (Ok b, w') ->
  (b = false /\ db w' = db w)
  \/ (b = true /\ report_row (db w) (nu_report new) = None
      /\ exists now, db w' = upd_usage_ledger (fun l => l ++ [ledger_row new ws now None]) (db w)).
Proof.
  unfold reserve_in_tx, sql_datetime, workspace_fk, thread_fk, member_fk, bind, read, utc_now, ret. cbn [db].
  case_bool_decide as Hr; cbn [orb]; [intros [= <- <-]; by left|].
  destruct (model_checked _); cbn [negb]; [|intros [= <- <-]; by left]. cbn [db].
  do 3 (case_bool_decide; [|done]). cbn. intros [= <- <-]. right. split; [done|].
  split; [|by eexists]. destruct (report_row _ _); [|done]. destruct Hr. by eexists.
Qed.

Lemma find_app {A} (f : A -> bool) l1 l2 :
  List.find f (l1 ++ l2) = match List.find f l1 with Some a => Some a | None => List.find f l2 end.
Proof. induction l1 as [|a l1 IH]; [done|]. cbn. by destruct (f a). Qed.

Lemma report_row_None d id : report_row d id = None -> Forall (fun u => u_report u <> id) (usage_ledger d).
Proof.
  unfold report_row. intros Hf. apply Forall_forall. intros u Hu Heq.
  pose proof (List.find_none _ _ Hf u (proj1 (list_elem_of_In _ _) Hu)) as Hn. cbn in Hn. by rewrite bool_decide_eq_true_2 in Hn.
Qed.

(** Finishing the row that was appended. *)
Lemma finish_last new ws now o l :
  Forall (fun u => u_report u <> nu_report new) l ->
  with_outcome (nu_report new) o <$> (l ++ [ledger_row new ws now None]) = l ++ [ledger_row new ws now (Some o)].
Proof.
  intros Hl. rewrite fmap_app. f_equal; [|cbn [fmap list_fmap]; unfold with_outcome; by rewrite decide_True].
  rewrite <- (list_fmap_id l) at 2. apply list_fmap_ext. intros i u Hu. unfold with_outcome.
  rewrite decide_False; [done|]. by apply (Forall_lookup_1 _ _ _ _ Hl Hu).
Qed.

Lemma keeps_untouched {A} (m : Tx A) w a w' : keeps 0 untouched m -> m w = (Ok a, w') -> untouched w w'.
Proof. intros Hm E. destruct (Hm w) as [_ HR]; [lia|]. by rewrite E in HR. Qed.

Lemma keeps_stop n new ws c r b : keeps n untouched (stop_accounted new ws c r b).
Proof.
  unfold stop_accounted. keeps_auto. intros w _. unfold kept_at, update_thread.
  destruct (threads (db w) !! nu_thread new); [|by split]. destruct (_ && _); [|by split]. by split; [|apply untouched_same].
Qed.

Lemma finish_Ok report o w e w' :
  finish_in_tx report o w = (Ok e, w') ->
  db w' = upd_usage_ledger (fun l => with_outcome report o <$> l) (db w)
  /\ exists u, report_row (db w') report = Some u /\ row_to_entry u = Ok e.
Proof.
  unfold finish_in_tx. intros (u0 & w1 & E & Er)%bind_Ok_inv. injection E as <- <-. apply bind_Ok_inv in Er as (row & w2 & Er & Eo).
  apply read_Ok in Er as [-> ->]. apply bind_Ok_inv in Eo as (u & w3 & Eo & El). apply ok_or_Ok in Eo as [Eu ->].
  apply lift_Ok in El as [El ->]. split; [done|]. by exists u.
Qed.

Lemma add_accounted_Ok new w b w' :
  add_accounted_usage_in_tx new w = (Ok b, w') ->
  usage_ledger (db w') = usage_ledger (db w)
  /\ (forall thread, tiers_at (thread_budgets (db w')) thread
                     = if decide (thread = nu_thread new)
                       then plus_tokens (tiers_at (thread_budgets (db w)) thread) (nu_tokens new)
                       else tiers_at (thread_budgets (db w)) thread)
  /\ tiers_fit (plus_tokens (tiers_at (thread_budgets (db w)) (nu_thread new)) (nu_tokens new)) = true.
Proof.
  unfold add_accounted_usage_in_tx. intros (f & w1 & El & Eu)%bind_Ok_inv. apply lift_Ok in El as [_ ->].
  destruct (decide (is_Some (threads (db w) !! nu_thread new))) as [Ht|Ht].
  - rewrite upsert_read_run in Eu by done. destruct (row_fits _) eqn:Ef; [|done]. injection Eu as _ <-. split; [done|]. cbn [db upd_thread_budgets thread_budgets].
    assert (tiers_at (<[nu_thread new := upserted (with_accounted f new) (clock (ticks w)) (db w) (nu_thread new)]> (thread_budgets (db w)))
              (nu_thread new) = plus_tokens (tiers_at (thread_budgets (db w)) (nu_thread new)) (nu_tokens new)) as Hp.
    { unfold tiers_at. rewrite lookup_insert_eq. unfold upserted. cbn [from_option]. by destruct (thread_budgets (db w) !! nu_thread new). }
    split; [|rewrite <- Hp; unfold tiers_at; rewrite lookup_insert_eq; by apply row_fits_tiers].
    intros thread. case_decide as Heq; [by subst|]. unfold tiers_at. by rewrite lookup_insert_ne.
  - unfold upsert_budget, bind, read in Eu. by rewrite bool_decide_eq_false_2 in Eu.
Qed.

(** After the charge only the outcome is written. *)
Lemma charge_accounted_Ok new t ws w r w' :
  charge_accounted new t ws w = (Ok r, w') ->
  (exists o, usage_ledger (db w') = (with_outcome (nu_report new) o <$> usage_ledger (db w)))
  /\ (exists u, report_row (db w') (nu_report new) = Some u /\ row_to_entry u = Ok r.1)
  /\ (forall thread, tiers_at (thread_budgets (db w')) thread
                     = if decide (thread = nu_thread new)
                       then plus_tokens (tiers_at (thread_budgets (db w)) thread) (nu_tokens new)
                       else tiers_at (thread_budgets (db w)) thread)
  /\ tiers_fit (plus_tokens (tiers_at (thread_budgets (db w)) (nu_thread new)) (nu_tokens new)) = true.
Proof.
  unfold charge_accounted. intros (b & w1 & Ea & E)%bind_Ok_inv. apply add_accounted_Ok in Ea as (Hl & Ht & Hfit).
  apply bind_Ok_inv in E as (now & w2 & E1 & E). apply keeps_untouched in E1; [|destruct (t_started t); keeps_auto].
  apply bind_Ok_inv in E as (b' & w3 & E2 & E). apply keeps_untouched in E2; [|destruct (exceeded _ _); keeps_auto].
  apply bind_Ok_inv in E as (at_ & w4 & E3 & E). apply keeps_untouched in E3; [|keeps_auto].
  apply bind_Ok_inv in E as (ev & w5 & E4 & E). apply keeps_untouched in E4; [|keeps_auto].
  apply bind_Ok_inv in E as (failed & w6 & E5 & E).
  apply keeps_untouched in E5; [|destruct (exceeded _ _); keeps_auto; apply keeps_stop].
  apply bind_Ok_inv in E as (entry & w7 & Ef & E). apply ret_Ok in E as [-> ->]. cbn [fst].
  apply finish_Ok in Ef as (Hd & Hrow).
  assert (untouched w1 w6) as [Hl' Ht'] by (repeat (etrans; [eassumption|]); done).
  split_and!; [eexists; rewrite Hd; cbn; by rewrite Hl', Hl|done| |done]. intros thread. rewrite Hd. cbn. by rewrite Ht', Ht.
Qed.

(** A report that is accepted for the first time books one entry; a retry and a
    refusal leave the store as it was. *)
Lemma report_accounted_cases new w r w' :
  report_accounted_usage new w = (r, w') ->
  match r with
  | Ok (e, evs) =>
      exists t ws, live_thread (db w) (nu_thread new) = Some (t, ws) /\ usage_validate new = Ok tt
        /\ matches_request e new = true /\ py_payer (le_stamp e) = ws
        /\ ((evs = [] /\ db w' = db w /\ exists u, report_row (db w) (nu_report new) = Some u /\ row_to_entry u = Ok e)
            \/ booked new ws e w w')
  | Err _ => db w' = db w
  end.
Proof.
  unfold report_accounted_usage. destruct (usage_validate new) as [[]|e] eqn:Ev; [|by intros [= <- <-]]. cbn [lift].
  erewrite bind_Ok by done. destruct r as [[e evs]|e]; [|apply commit_Err].
  intros E%commit_Ok. apply bind_Ok_inv in E as (ctx & w1 & Er & E). apply read_Ok in Er as [-> ->].
  apply bind_Ok_inv in E as ([t ws] & w1 & Er & E). apply ok_or_Ok in Er as [Hlive ->]. cbn [fst snd] in E.
  exists t, ws. split; [done|]. split; [done|]. apply bind_Ok_inv in E as (b & w1 & Er & E).
  apply reserve_Ok in Er as [[-> Hd]|(-> & Hfree & now & Hd)]; cbn [negb] in E.
  - apply bind_Ok_inv in E as (row & w2 & Er & E). apply read_Ok in Er as [-> ->].
    apply bind_Ok_inv in E as (u & w2 & Er & E). apply ok_or_Ok in Er as [Hu ->].
    apply bind_Ok_inv in E as (ex & w2 & Er & E). apply lift_Ok in Er as [Hex ->].
    destruct (_ || _) eqn:Em; [done|]. apply ret_Ok in E as [[= -> ->] ->]. rewrite Hd in Hu.
    apply orb_false_iff in Em as [Ep%negb_false_iff Em%negb_false_iff]. apply bool_decide_eq_true in Ep.
    split_and!; [done..|]. left. split_and!; [done..|by exists u].
  - destruct (negb _); [done|]. apply charge_accounted_Ok in E as ((o & Hl) & (u & Hu & Heu) & Ht & Hfit). cbn [fst] in Heu.
    rewrite Hd in Hl. cbn in Hl. rewrite finish_last in Hl by (by apply report_row_None).
    unfold report_row in Hu. rewrite Hl, find_app in Hu. fold (report_row (db w) (nu_report new)) in Hu. rewrite Hfree in Hu.
    cbn in Hu. rewrite bool_decide_eq_true_2 in Hu by done. injection Hu as <-.
    assert (matches_request e new = true /\ py_payer (le_stamp e) = ws) as [Hm Hp].
    { cbn in Heu. injection Heu as <-. split; [|done]. unfold matches_request. cbn. by rewrite !bool_decide_eq_true_2. }
    split_and!; [done..|]. right. split_and!; [done|by exists now, o| |by rewrite Hd in Hfit]. intros thread. by rewrite Ht, Hd.
Qed.

(** ** Across operations *)

(** The ledger only ever gains an entry that is complete. *)
Lemma exec_ledger o w :
  untouched w (exec o w).2 \/ exists new ws e, booked new ws e w (exec o w).2.
Proof.
  destruct (accounted o) eqn:Ea; [|left; by apply exec_untouched]. destruct o; try done. cbn [exec].
  destruct (report_accounted_usage new w) as [[[e evs]|e] w'] eqn:E; pose proof (report_accounted_cases _ _ _ _ E) as Hc.
  - erewrite bind_Ok by exact E. cbn [snd ret]. destruct Hc as (t & ws & _ & _ & _ & _ & [(_ & Hd & _)|Hb]); [|eauto].
    left. apply untouched_same; by rewrite Hd.
  - erewrite bind_Err by exact E. left. apply untouched_same; cbn [snd]; by rewrite Hc.
Qed.

Lemma entry_kept ops w id u : report_row (db w) id = Some u -> report_row (db (run ops w)) id = Some u.
Proof.
  revert w. induction ops as [|o ops IH]; intros w Hu; [done|]. cbn. apply IH. unfold report_row in *.
  destruct (exec_ledger o w) as [[-> _]|(new & ws & e & _ & (now & out & -> & _) & _)]; [done|].
  by rewrite find_app, Hu.
Qed.

(** A call with an id that was used. *)
Lemma report_again new w t ws u e :
  usage_validate new = Ok tt -> live_thread (db w) (nu_thread new) = Some (t, ws) ->
  report_row (db w) (nu_report new) = Some u -> row_to_entry u = Ok e ->
  exists w', db w' = db w /\
    report_accounted_usage new w
    = (if decide (py_payer (le_stamp e) = ws /\ matches_request e new = true) then Ok (e, []) else Err (Conflict UsageIdReused), w').
Proof.
  intros Hv Hl Hu He. unfold report_accounted_usage. rewrite Hv. cbn [lift]. erewrite bind_Ok by done.
  unfold commit. rewrite bind_read, Hl. cbn [ok_or]. erewrite bind_Ok by done. cbn [fst snd].
  assert (reserve_in_tx new ws w = (Ok false, {| db := db w; ticks := S (ticks w); ids := ids w |})) as Er.
  { unfold reserve_in_tx, sql_datetime, bind, read, utc_now, ret. cbn [db]. rewrite Hu. by rewrite bool_decide_eq_true_2. }
  erewrite bind_Ok by exact Er. cbn [negb]. rewrite bind_read. cbn [db]. rewrite Hu. cbn [ok_or]. erewrite bind_Ok by done.
  rewrite He. cbn [lift]. erewrite bind_Ok by done.
  destruct (decide _) as [[-> ->]|Hn].
  - rewrite bool_decide_eq_true_2 by done. cbn. eexists. by split; [|reflexivity].
  - destruct (negb _ || negb _) eqn:Eb; [eexists; by split; [|reflexivity]|]. exfalso. apply Hn.
    apply orb_false_iff in Eb as [Ep%negb_false_iff Em%negb_false_iff]. by apply bool_decide_eq_true in Ep.
Qed.

(** What a report asks to book: its model's name without the white space around. *)
Definition booking (new : NewUsageLedgerEntry) : NewUsageLedgerEntry :=
  {| nu_report := nu_report new; nu_thread := nu_thread new; nu_reporter := nu_reporter new; nu_lease := nu_lease new;
     nu_model := trim (nu_model new); nu_tokens := nu_tokens new; nu_usd_micros := nu_usd_micros new;
     nu_prices := nu_prices new; nu_turns := nu_turns new; nu_evidence := nu_evidence new |}.
Lemma matches_exact e new new' :
  matches_request e new = true -> matches_request e new' = true -> booking new' = booking new.
Proof.
  unfold matches_request. intros Hm Hm'. repeat (apply andb_true_iff in Hm as [Hm ?%bool_decide_eq_true]).
  repeat (apply andb_true_iff in Hm' as [Hm' ?%bool_decide_eq_true]). apply bool_decide_eq_true in Hm, Hm'.
  unfold booking. congruence.
Qed.

(** C18: a usage report is charged once. After a report was accepted, and whatever operations the store runs after it, sending the same report again while its thread is there answers with the very entry of the first call, emits no event and writes nothing; and a valid report that reuses the id for any other content, or for a thread of another workspace, is refused as a conflict and writes nothing. *)
Theorem usage_report_once new w e evs w1 ops :
  report_accounted_usage new w = (Ok (e, evs), w1) ->
  (forall t, live_thread (db (run ops w1)) (nu_thread new) = Some (t, py_payer (le_stamp e)) ->
     exists w3, report_accounted_usage new (run ops w1) = (Ok (e, []), w3) /\ db w3 = db (run ops w1))
  /\ (forall new' t ws, nu_report new' = nu_report new -> usage_validate new' = Ok tt ->
        live_thread (db (run ops w1)) (nu_thread new') = Some (t, ws) ->
        ws <> py_payer (le_stamp e) \/ booking new' <> booking new ->
        exists w3, report_accounted_usage new' (run ops w1) = (Err (Conflict UsageIdReused), w3) /\ db w3 = db (run ops w1)).
Proof.
  intros E. pose proof (report_accounted_cases _ _ _ _ E) as (t0 & ws0 & _ & Hv & Hm & Hp & Hc).
  assert (exists u, report_row (db w1) (nu_report new) = Some u /\ row_to_entry u = Ok e) as (u & Hu & He).
  { destruct Hc as [(_ & -> & Hu)|(Hn & (now & o & Hl & He) & _)]; [done|]. eexists. split; [|exact He].
    unfold report_row in *. rewrite Hl, find_app, Hn. cbn. by rewrite bool_decide_eq_true_2. }
  apply (entry_kept ops) in Hu. split.
  - intros t Hl. destruct (report_again new (run ops w1) _ _ u e Hv Hl Hu He) as (w3 & Hd & E3).
    exists w3. rewrite E3, decide_True; done.
  - intros new' t ws Hid Hv' Hl Hd. rewrite <- Hid in Hu.
    destruct (report_again new' (run ops w1) _ _ u e Hv' Hl Hu He) as (w3 & Hd3 & E3).
    exists w3. rewrite E3, decide_False; [done|]. intros [? Hm'].
    pose proof (matches_exact e new new' Hm Hm'). destruct Hd; congruence.
Qed.

(** ** The books balance *)

(** What the entries of a thread used, tier by tier. *)
Definition tokens_of (rows : list UsageRow) (thread : N) : TokenUsage :=
  foldr plus_tokens no_tokens (u_tokens <$> List.filter (fun u => bool_decide (u_thread u = thread)) rows).

Record books (d : Db) : Prop := {
  bk_ids : NoDup (u_report <$> usage_ledger d);
  bk_finished : Forall (fun u => is_Some (u_outcome u)) (usage_ledger d);
  bk_tiers : forall thread, tiers_at (thread_budgets d) thread = tokens_of (usage_ledger d) thread;
  bk_fit : forall thread, tiers_fit (tokens_of (usage_ledger d) thread) = true
}.

Lemma plus_tokens_assoc a b c : plus_tokens a (plus_tokens b c) = plus_tokens (plus_tokens a b) c.
Proof. unfold plus_tokens. cbn. f_equal; lia. Qed.
Lemma plus_tokens_0 a : plus_tokens a no_tokens = a.
Proof. destruct a. unfold plus_tokens. cbn. f_equal; lia. Qed.

Lemma tokens_of_app l1 l2 thread : tokens_of (l1 ++ l2) thread = plus_tokens (tokens_of l1 thread) (tokens_of l2 thread).
Proof.
  unfold tokens_of. rewrite List.filter_app, fmap_app. induction (u_tokens <$> _) as [|a l IH]; cbn.
  - generalize (foldr plus_tokens no_tokens (u_tokens <$> List.filter (fun u => bool_decide (u_thread u = thread)) l2)).
    intros []. unfold plus_tokens. cbn. f_equal; lia.
  - by rewrite IH, plus_tokens_assoc.
Qed.

Lemma tokens_of_snoc l new ws now o thread :
  tokens_of (l ++ [ledger_row new ws now o]) thread
  = if decide (thread = nu_thread new) then plus_tokens (tokens_of l thread) (nu_tokens new) else tokens_of l thread.
Proof.
  rewrite tokens_of_app. unfold tokens_of at 2. cbn. case_decide as Heq.
  - rewrite bool_decide_eq_true_2 by done. cbn. by rewrite plus_tokens_0.
  - rewrite bool_decide_eq_false_2 by congruence. cbn. by rewrite plus_tokens_0.
Qed.

Lemma exec_books o w : books (db w) -> books (db (exec o w).2).
Proof.
  intros [Hi Hf Ht Hx]. destruct (exec_ledger o w) as [[Hl Hb]|(new & ws & e & Hn & (now & out & Hl & _) & Hb & Hfit)].
  - constructor; rewrite Hl; [done..| |done]. intros thread. by rewrite Hb.
  - constructor; rewrite Hl.
    + rewrite fmap_app. apply NoDup_app. split; [done|]. split; [|apply NoDup_singleton].
      intros i Hin ->%list_elem_of_singleton. apply report_row_None in Hn. rewrite Forall_forall in Hn.
      apply list_elem_of_fmap in Hin as (u & Heq & Hu). by apply (Hn u Hu).
    + apply Forall_app. split; [done|]. constructor; [by eexists|constructor].
    + intros thread. by rewrite Hb, tokens_of_snoc, <- Ht.
    + intros thread. rewrite tokens_of_snoc. case_decide as Heq; [|done]. subst. by rewrite <- Ht.
Qed.

(** C17: the ledger and the budgets agree. Under every sequence of the store's operations, usage reports, retries and refused calls among them, the input, output and three cache tiers a thread's budget counts are exactly the sums over the entries the ledger holds for it, those sums fit 64-bit columns, no report id is entered twice and no entry is left without its outcome. A report whose sums would not fit fails as a whole (accounted_overflow). *)
Theorem ledger_balances ops w : books (db w) -> books (db (run ops w)).
Proof. revert w. induction ops as [|o ops IH]; intros w Hb; [done|]. cbn. by apply IH, exec_books. Qed.
(** ** A report of the holder lands *)

Lemma find_with_outcome id o l u :
  List.find (fun u => bool_decide (u_report u = id)) l = Some u ->
  List.find (fun u => bool_decide (u_report u = id)) (with_outcome id o <$> l) = Some (with_outcome id o u).
Proof.
  assert (forall v, u_report (with_outcome id o v) = u_report v) as Hid by (intros v; unfold with_outcome; by case_decide).
  induction l as [|v l IH]; [done|]. cbn. rewrite Hid. case_bool_decide; [by intros [= ->]|exact IH].
Qed.

Lemma finish_run id o w u :
  report_row (db w) id = Some u ->
  exists e, finish_in_tx id o w = (Ok e, {| db := upd_usage_ledger (fun l => with_outcome id o <$> l) (db w);
                                            ticks := ticks w; ids := ids w |})
    /\ le_stopped e = uo_stopped o /\ le_budget e = uo_budget o /\ le_reason e = uo_reason o.
Proof.
  intros Hu. assert (u_report u = id) as Hid.
  { apply List.find_some in Hu as [_ Hu]. by apply bool_decide_eq_true in Hu. }
  unfold finish_in_tx. erewrite bind_Ok by reflexivity. rewrite bind_read.
  unfold report_row in *. cbn [db upd_usage_ledger usage_ledger]. rewrite (find_with_outcome id o _ u Hu). cbn [ok_or].
  erewrite bind_Ok by reflexivity. unfold row_to_entry, with_outcome. rewrite decide_True by done. cbn.
  by eexists.
Qed.

(** The stop of the run the report names. *)
Lemma stop_accounted_run new ws c reason b w t :
  threads (db w) !! nu_thread new = Some t -> t_assignee t = Some (nu_reporter new) -> t_lease t = Some (nu_lease new) ->
  exists ev dead stamp w', stop_accounted new ws c reason b w = (Ok ev, w')
    /\ threads (db w') = <[nu_thread new := clear_claim stamp t]> (threads (db w))
    /\ thread_budgets (db w') = thread_budgets (db w)
    /\ dead_letters (db w') = dead_letters (db w) ++ [dead]
    /\ d_thread dead = nu_thread new /\ d_member dead = nu_reporter new /\ d_reason dead = reason_as_str reason.
Proof.
  intros Ht Ha Hl. unfold stop_accounted. erewrite bind_Ok by reflexivity. set (now := clock (ticks w)).
  set (w1 := put {| db := db w; ticks := S (ticks w); ids := ids w |} (nu_thread new) (clear_claim now t)).
  rewrite (bind_Ok _ _ _ (Some (clear_claim now t)) w1)
    by (unfold update_thread; cbn [db]; by rewrite Ht, !bool_decide_eq_true_2). cbn [ok_or]. erewrite bind_Ok by reflexivity.
  destruct (fail_claim_run ws c (nu_thread new) (clear_claim now t) (nu_reporter new) reason b w1)
    as (ev & dead & w2 & E & (Hf1 & _ & Hf3) & Hdl & Hdt & Hdm & Hdr & _).
  exists ev, dead, now, w2. by split_and!.
Qed.

(** What the charge of a reserved report leaves, stopping the run or not. *)
Definition settled_as (new : NewUsageLedgerEntry) (t : ThreadRow) (b : BudgetRow) (wall : option Z)
    (e : UsageLedgerEntry) (w w' : World) : Prop :=
  le_stopped e = bool_decide (is_Some (exceeded b wall)) /\ le_reason e = reason_as_str <$> exceeded b wall
  /\ match exceeded b wall with
     | None => threads (db w') = threads (db w) /\ dead_letters (db w') = dead_letters (db w) /\ le_budget e = b
     | Some reason =>
         exists stamp dead,
           threads (db w') = <[nu_thread new := clear_claim stamp t]> (threads (db w))
           /\ dead_letters (db w') = dead_letters (db w) ++ [dead]
           /\ d_thread dead = nu_thread new /\ d_member dead = nu_reporter new /\ d_reason dead = reason_as_str reason
           /\ used_wall_secs (le_budget e) = (used_wall_secs b + Z.max (default 0 wall) 0)%Z
           /\ over_budget (db w') (nu_thread new) (clear_claim stamp t) = true
     end.

(** The budget settled and the event stored: the tables the stop reads. *)
Lemma settle_budget_run new t b wall w :
  threads (db w) !! nu_thread new = Some t -> thread_budgets (db w) !! nu_thread new = Some b ->
  exists b' w',
    (match exceeded b wall with Some _ => keep_stopped_wall (nu_thread new) b wall | None => ret b end) w = (Ok b', w')
    /\ threads (db w') = threads (db w) /\ dead_letters (db w') = dead_letters (db w)
    /\ usage_ledger (db w') = usage_ledger (db w)
    /\ thread_budgets (db w') !! nu_thread new = Some b'
    /\ (exceeded b wall = None -> b' = b)
    /\ (is_Some (exceeded b wall) ->
        limits_of b' = limits_of b /\ used_tokens b' = used_tokens b /\ used_usd_micros b' = used_usd_micros b
        /\ used_turns b' = used_turns b /\ used_wall_secs b' = (used_wall_secs b + Z.max (default 0 wall) 0)%Z).
Proof.
  intros Ht Hb. destruct (exceeded b wall) as [reason|].
  - destruct (keep_stopped_wall_run (nu_thread new) b wall w Hb) as (b' & w' & E & Ht' & _ & Hd & Hb' & Hr); [by eexists|].
    pose proof (keeps_untouched _ _ _ _ (keeps_keep_stopped untouched 0 (nu_thread new) b wall) E) as [Hl _].
    exists b', w'. split_and!; try done. rewrite Hb'. apply lookup_insert_eq.
  - exists b, w. by split_and!.
Qed.

Lemma charge_accounted_run new t ws f w u :
  threads (db w) !! nu_thread new = Some t -> t_assignee t = Some (nu_reporter new) -> t_lease t = Some (nu_lease new) ->
  fresh (nu_tokens new) = Ok f -> report_row (db w) (nu_report new) = Some u ->
  let b := upserted (with_accounted f new) (clock (ticks w)) (db w) (nu_thread new) in
  let wall := (fun s => num_seconds (clock (S (ticks w)) - s)) <$> t_started t in
  row_fits b = true ->
  exists e ev evs w', charge_accounted new t ws w = (Ok (e, ev :: evs), w') /\ settled_as new t b wall e w w'.
Proof.
  intros Ht Ha Hl Hf Hu b wall Hfit. unfold charge_accounted, add_accounted_usage_in_tx. rewrite Hf. cbn [lift].
  erewrite bind_Ok by (erewrite bind_Ok by reflexivity; apply upsert_read_fits; [by eexists|done]). fold b.
  set (w1 := {| db := upd_thread_budgets (fun m => <[nu_thread new := b]> m) (db w);
                ticks := match t_started t with Some _ => S (S (ticks w)) | None => S (ticks w) end; ids := ids w |}).
  rewrite (bind_Ok _ _ _ (match t_started t with Some _ => Some (clock (S (ticks w))) | None => None end) w1)
    by (unfold w1; destruct (t_started t); reflexivity).
  match goal with |- context [exceeded b ?o] =>
    assert (o = wall) as -> by (unfold wall; by destruct (t_started t)) end.
  destruct (settle_budget_run new t b wall w1) as (b' & w2 & E2 & Ht2 & Hd2 & Hl2 & Hb2 & Hnone & Hsome);
    [done|apply lookup_insert_eq|].
  erewrite bind_Ok by exact E2. erewrite bind_Ok by reflexivity.
  edestruct (append_event_total (fun v => v)) as (ev & l & E3). erewrite bind_Ok by exact E3. clear E3.
  match goal with |- context [bind _ _ ?w0] => set (w3 := w0) end.
  assert (threads (db w3) = threads (db w)) as Ht3 by (unfold w3; cbn; by rewrite Ht2).
  assert (report_row (db w3) (nu_report new) = Some u) as Hu3 by (unfold report_row, w3; cbn; by rewrite Hl2).
  destruct (exceeded b wall) as [reason|] eqn:Ex.
  - destruct (stop_accounted_run new ws (t_channel t) reason b' w3 t)
      as (fe & dead & stamp & w4 & E4 & Ht4 & Hb4 & Hdl & Hdt & Hdm & Hdr); [by rewrite Ht3|done..|].
    pose proof (keeps_untouched _ _ _ _ (keeps_stop 0 new ws (t_channel t) reason b') E4) as [Hl4 _].
    erewrite bind_Ok by (erewrite bind_Ok by exact E4; reflexivity).
    edestruct (finish_run (nu_report new) (Build_UsageOutcome b' (bool_decide (is_Some (Some reason)))
                 (reason_as_str <$> Some reason) (e_id ev) (e_id <$> Some fe)) w4 u) as (e & E5 & Hs & Hbud & Hr);
      [unfold report_row in *; by rewrite Hl4|].
    erewrite bind_Ok by exact E5. eexists e, ev, _, _. split; [reflexivity|]. unfold settled_as. rewrite Ex.
    destruct (Hsome ltac:(by eexists)) as (H1' & H2' & H3' & H4' & H5'). cbn [uo_stopped uo_budget uo_reason] in *.
    split_and!; [done..|]. exists stamp, dead. cbn. rewrite Ht4, Ht3, Hdl, Hbud. split_and!; try done.
    + unfold w3. cbn. by rewrite Hd2.
    + apply (stopped_over_budget _ _ b b' wall reason); try done. cbn. by rewrite Hb4.
  - erewrite bind_Ok by reflexivity.
    edestruct (finish_run (nu_report new) (Build_UsageOutcome b' (bool_decide (is_Some (@None BudgetReason)))
                 (reason_as_str <$> None) (e_id ev) (e_id <$> None)) w3 u Hu3) as (e & E5 & Hs & Hbud & Hr).
    erewrite bind_Ok by exact E5. eexists e, ev, _, _. split; [reflexivity|]. unfold settled_as. rewrite Ex.
    cbn [uo_stopped uo_budget uo_reason] in *. rewrite (Hnone eq_refl) in Hbud. split_and!; try done.
Qed.

(** A report of the claim's holder is never lost. A valid report under the lease the thread is held under, with an id not used yet and sums that fit their columns, is always accepted: one entry is booked with the tokens it names, the run is stopped exactly when the usage with the time worked is over one of the thread's limits, and the stop clears the claim, charges the time worked, dead-letters the run under the reporter and leaves the thread over its budget for the claim queue; otherwise no thread changes. *)
Theorem accounted_report_lands new w t ws f :
  usage_validate new = Ok tt -> fresh (nu_tokens new) = Ok f ->
  live_thread (db w) (nu_thread new) = Some (t, ws) ->
  report_row (db w) (nu_report new) = None -> model_checked (trim (nu_model new)) = true ->
  is_Some (workspaces (db w) !! ws) -> is_Some (members (db w) !! nu_reporter new) ->
  t_assignee t = Some (nu_reporter new) -> t_lease t = Some (nu_lease new) ->
  let b := upserted (with_accounted f new) (clock (S (ticks w))) (db w) (nu_thread new) in
  let wall := (fun s => num_seconds (clock (S (S (ticks w))) - s)) <$> t_started t in
  row_fits b = true ->
  exists e ev evs w', report_accounted_usage new w = (Ok (e, ev :: evs), w')
    /\ booked new ws e w w' /\ settled_as new t b wall e w w'.
Proof.
  intros Hv Hf Hlive Hfree Hm Hws Hmem Ha Hl b wall Hfit. pose proof (live_row _ _ _ _ Hlive) as Ht.
  set (w1 := {| db := upd_usage_ledger (fun l => l ++ [ledger_row new ws (clock (ticks w) - clock (ticks w) mod 1000000000)%Z None]) (db w);
                ticks := S (ticks w); ids := ids w |}).
  destruct (charge_accounted_run new t ws f w1 (ledger_row new ws (clock (ticks w) - clock (ticks w) mod 1000000000)%Z None))
    as (e & ev & evs & w' & E & Hs); [done..| |exact Hfit|].
  { unfold report_row in *. cbn. rewrite find_app, Hfree. cbn. by rewrite bool_decide_eq_true_2. }
  assert (report_accounted_usage new w = (Ok (e, ev :: evs), w')) as Er.
  { unfold report_accounted_usage. rewrite Hv. cbn [lift]. erewrite bind_Ok by done. unfold commit.
    rewrite bind_read, Hlive. cbn [ok_or]. erewrite bind_Ok by done. cbn [fst snd].
    rewrite (bind_Ok _ _ _ true w1).
    - cbn [negb]. rewrite !bool_decide_eq_true_2 by done. cbn [andb negb]. by rewrite E.
    - unfold reserve_in_tx, sql_datetime, workspace_fk, thread_fk, member_fk, bind, read, utc_now, ret. cbn [db].
      rewrite Hfree, Hm. rewrite bool_decide_eq_false_2 by (by intros [? ?]). cbn [orb negb db].
      by rewrite !bool_decide_eq_true_2 by (done || by rewrite Ht). }
  exists e, ev, evs, w'. split; [done|]. split; [|exact Hs].
  destruct (report_accounted_cases _ _ _ _ Er) as (t' & ws' & Hlive' & _ & _ & _ & [(Hnil & _)|Hb]); [done|].
  by simplify_eq.
Qed.

(** A report whose sums a 64-bit column does not hold fails, and leaves the tables. *)
Lemma accounted_overflow new t ws f w :
  fresh (nu_tokens new) = Ok f -> is_Some (threads (db w) !! nu_thread new) ->
  row_fits (upserted (with_accounted f new) (clock (ticks w)) (db w) (nu_thread new)) = false ->
  exists w', commit (charge_accounted new t ws) w = (Err Database, w') /\ db w' = db w.
Proof.
  intros Hf Ht Hx. pose proof (upsert_read_run (nu_thread new) (with_accounted f new) w Ht) as E. cbn zeta in E. rewrite Hx in E.
  unfold commit, charge_accounted, add_accounted_usage_in_tx. rewrite Hf. cbn [lift].
  erewrite bind_Err by (erewrite bind_Ok by reflexivity; exact E). by eexists.
Qed.
End laws.

(** ** On the sample store *)

Import Sample.

Definition report_1 : NewUsageLedgerEntry :=
  {| nu_report := 900; nu_thread := 100; nu_reporter := 5; nu_lease := 40; nu_model := lit " model-x ";
     nu_tokens := {| tu_input := 8; tu_output := 4; tu_cache_read := 100; tu_write_5m := 0; tu_write_1h := 0 |};
     nu_usd_micros := 1; nu_prices := {| ps_input := 1000; ps_output := 5000; ps_cache_read := 100; ps_write_5m := 0; ps_write_1h := 0 |};
     nu_turns := 1; nu_evidence := no_evidence |}.
(** The same id with another count of turns. *)
Definition report_2 : NewUsageLedgerEntry :=
  {| nu_report := 900; nu_thread := 100; nu_reporter := 5; nu_lease := 40; nu_model := lit "model-x";
     nu_tokens := nu_tokens report_1; nu_usd_micros := 1; nu_prices := nu_prices report_1;
     nu_turns := 2; nu_evidence := no_evidence |}.

Definition reported : World := (report_accounted_usage report_1 limited).2.

Lemma accounted_report_lands_witness :
  exists e ev evs w', report_accounted_usage report_1 limited = (Ok (e, ev :: evs), w')
    /\ le_stopped e = true /\ le_reason e = Some "tokens"%string
    /\ tiers_at (thread_budgets (db w')) 100 = nu_tokens report_1.
Proof.
  destruct (accounted_report_lands report_1 limited (held_by 5 40 (start + 60000000000) (free (lit "one"))) 1 12)
    as (e & ev & evs & w' & E & Hb & Hs); [done..|by eexists|by eexists|done|done|vm_compute; reflexivity|].
  exists e, ev, evs, w'. split; [exact E|]. destruct Hs as (Hs & Hr & _).
  assert (exceeded (upserted (with_accounted 12 report_1) (clock (S (ticks limited))) (db limited) (nu_thread report_1))
            ((fun s => num_seconds (clock (S (S (ticks limited))) - s)) <$> t_started (held_by 5 40 (start + 60000000000) (free (lit "one"))))
          = Some Tokens) as Hx by (vm_compute; reflexivity).
  rewrite Hx in Hs, Hr. split_and!; [exact Hs|exact Hr|]. destruct Hb as (_ & _ & Ht & _). rewrite Ht. by vm_compute.
Defined.

Lemma usage_report_once_witness :
  exists e, (report_accounted_usage report_1 limited).1 = Ok e
    /\ (exists w3, report_accounted_usage report_1 (run [OReportUnacknowledged 0 0 10; ORelease 100 5 40 true] reported) = (Ok (e.1, []), w3)
         /\ db w3 = db (run [OReportUnacknowledged 0 0 10; ORelease 100 5 40 true] reported))
    /\ (exists w3, report_accounted_usage report_2 (run [OReportUnacknowledged 0 0 10; ORelease 100 5 40 true] reported)
                   = (Err (Conflict UsageIdReused), w3)).
Proof.
  destruct (run_value (report_accounted_usage report_1) limited
              (fun e => (py_payer (le_stamp e.1) =? 1)%N))
    as ([e evs] & w1 & E & Hp); [vm_compute; reflexivity|].
  exists (e, evs). split; [by rewrite E|]. assert (reported = w1) as Hw by (unfold reported; by rewrite E). rewrite Hw.
  apply N.eqb_eq in Hp. cbn [fst] in *.
  destruct (usage_report_once report_1 limited e evs w1 [OReportUnacknowledged 0 0 10; ORelease 100 5 40 true] E) as [H1 H2].
  rewrite Hp in H1, H2. split.
  - assert (exists t, live_thread (db (run [OReportUnacknowledged 0 0 10; ORelease 100 5 40 true] w1)) 100 = Some (t, 1%N)) as [t Ht]
      by (rewrite <- Hw; vm_compute; by eexists).
    by apply (H1 t Ht).
  - assert (exists t, live_thread (db (run [OReportUnacknowledged 0 0 10; ORelease 100 5 40 true] w1)) 100 = Some (t, 1%N)) as [t Ht]
      by (rewrite <- Hw; vm_compute; by eexists).
    destruct (H2 report_2 t 1%N eq_refl) as (w3 & E3 & _); [vm_compute; reflexivity|exact Ht|right; by vm_compute|by exists w3].
Defined.

Lemma ledger_balances_witness :
  books (db (run [OReportAccounted report_1; OReportAccounted report_1; OReportAccounted report_2; OAddUsage 100 {| d_tokens := 3; d_usd_micros := 0; d_turns := 0 |}] limited)).
Proof.
  apply ledger_balances. constructor; [constructor|constructor| |done]. intros thread.
  change (tiers_at {[100%N := default (empty_budget 0) (thread_budgets (db limited) !! 100%N)]} thread = no_tokens).
  unfold tiers_at. destruct (decide (thread = 100%N)) as [->|Hn]; [by rewrite lookup_singleton_eq|by rewrite lookup_singleton_ne].
Defined.
