(* ===== verification/StoreLaws.v ===== *)
(** * Laws of the event log, the outbox and the worker record

    Every operation of [StoreOps] writes its events to the log and to the
    outbox together, keeps every workspace's chain verifiable, and never
    forgets who held a thread. *)

From stdpp Require Import strings.
From S2P Require Import Prelude Text Json EventChain EventLog Footprint Fsm Db Budget TxLogic AuditTrail Claimability Threads FootprintStore Deps Landing StoreRels FlowLogic StoreOps ClaimLaws Samples.
Local Open Scope tx_scope.

Section log.
Context `{JsonTextLaws, Sha256Laws, Env}.

(** An outbox row nobody has relayed yet. *)
Definition fresh_outbox_row (r : OutboxRow) : Prop :=
  o_published r = None /\ o_quarantined r = None /\ o_claimed r = None /\ o_attempts r = 0%Z.

(** [w'] extends [w]'s log by some events, and its outbox by one row for each of
    them, in the same order. *)
Definition log_extended (w w' : World) : Prop :=
  (exists new queued,
     rows (log (db w')) = rows (log (db w)) ++ new
     /\ o_rows (outbox (db w')) = o_rows (outbox (db w)) ++ queued
     /\ o_log <$> queued = e_id <$> new
     /\ Forall fresh_outbox_row queued)
  /\ (log_wf (log (db w)) -> log_wf (log (db w'))).

Lemma log_extended_same w w' :
  log (db w') = log (db w) -> outbox (db w') = outbox (db w) -> log_extended w w'.
Proof.
  intros Hl Ho. unfold log_extended. rewrite Hl, Ho. split; [|done]. exists [], []. by rewrite !app_nil_r.
Qed.

Lemma append_with_keys_rows seal now ev l row l' :
  append_with_keys_in_tx seal now ev l = Ok (row, l') -> rows l' = rows l ++ [row].
Proof.
  unfold append_with_keys_in_tx. intros (h & Hh & Heq)%rbind_ok. apply (inj Ok) in Heq. by injection Heq as <- <-.
Qed.

Lemma log_extended_append n s e : keeps n log_extended (append_event s e).
Proof.
  intros w _. unfold kept_at. rewrite append_event_eq.
  destruct (append_with_keys_in_tx _ _ _ _) as [[row l]|] eqn:Ea; cbn; (split; [done|]);
    [|by apply log_extended_same].
  split; [|intros Hwf; by eapply append_wf].
  exists [row], [enqueued (outbox (db w)) (e_id row) (clock (S (ticks w)))]. cbn.
  split; [by eapply append_with_keys_rows|]. split; [done|]. split; [done|]. by repeat constructor.
Qed.

Global Instance log_extended_store : StoreRel log_extended.
Proof.
  constructor; [|intros w d' (_ & _ & _ & _ & Hl & Ho & _); by apply log_extended_same|intros; by apply log_extended_same..].
  constructor; try (intros; by apply log_extended_same); [|apply log_extended_append].
  constructor; [intros; by apply log_extended_same|].
  intros w1 w2 w3 _ _ [(n1 & q1 & Hr1 & Ho1 & Hi1 & Hf1) Hwf1] [(n2 & q2 & Hr2 & Ho2 & Hi2 & Hf2) Hwf2].
  split; [|by auto]. exists (n1 ++ n2), (q1 ++ q2).
  rewrite Hr2, Hr1, Ho2, Ho1, !fmap_app, Hi1, Hi2, !app_assoc. split_and!; auto. by apply Forall_app.
Qed.

Global Instance log_extended_ledger : LedgerRel log_extended.
Proof. constructor; intros; by apply log_extended_same. Qed.

Lemma run_log_extended ops w : log_extended w (run ops w).
Proof.
  revert w. induction ops as [|o ops IH]; intros w; [by apply log_extended_same|]. cbn.
  destruct (exec_kept log_extended o w) as [Hi He]; [intros w1 m' _ _; by apply log_extended_same|].
  eapply tx_trans; [| |exact He|apply IH]; [done|]. clear.
  generalize (exec o w).2 as w0. induction ops as [|o' ops IH]; intros w0; [done|]. cbn.
  etrans; [apply exec_ids|apply IH].
Qed.

(** C5: the transactional outbox. Whatever operations of [Op] run (every modelled operation that writes events; retention, which deletes them, is not one), in whatever order and whether each succeeds or fails, the event log only grows at its end, the outbox grows by exactly one unpublished row per new event, in the order of the log, and every workspace's chain still verifies. *)
Theorem operations_log_and_enqueue_together ops w :
  log_wf (log (db w)) ->
  (exists new queued,
     rows (log (db (run ops w))) = rows (log (db w)) ++ new
     /\ o_rows (outbox (db (run ops w))) = o_rows (outbox (db w)) ++ queued
     /\ o_log <$> queued = e_id <$> new
     /\ Forall fresh_outbox_row queued)
  /\ forall ws, exists report, verify_chain (log (db (run ops w))) ws = Some report /\ ok report = true.
Proof.
  intros Hwf. destruct (run_log_extended ops w) as [Hext Hkeep]. split; [exact Hext|]. intros ws.
  destruct (log_wf_verifies _ ws (Hkeep Hwf)) as (report & Hr & Hok & _). eauto.
Qed.
End log.

(** ** The worker record *)

Section workers.
Context `{JsonText, Sha256, Env}.

Definition recorded (d : Db) (thread member : N) : Prop := is_Some (thread_workers d !! (thread, member)).

(** Whoever holds a thread is in its worker record. *)
Definition holders_recorded (d : Db) : Prop :=
  forall id t m, threads d !! id = Some t -> t_assignee t = Some m -> recorded d id m.

Definition workers_grow (w w' : World) : Prop :=
  forall thread m, recorded (db w) thread m -> recorded (db w') thread m.

(** No row written, and nobody forgotten. *)
Definition calm (w w' : World) : Prop := threads (db w') = threads (db w) /\ workers_grow w w'.

Lemma calm_same w w' :
  threads (db w') = threads (db w) -> thread_workers (db w') = thread_workers (db w) -> calm w w'.
Proof. intros Ht Hw. split; [done|]. intros t m. unfold recorded. by rewrite Hw. Qed.

Global Instance calm_store : StoreRel calm.
Proof.
  constructor; [|intros w d' (Ht & Hw & _); by apply calm_same|intros; by apply calm_same..].
  constructor; try (intros; by apply calm_same).
  - constructor; [intros; by apply calm_same|].
    intros w1 w2 w3 _ _ [Ht1 Hg1] [Ht2 Hg2]. split; [by rewrite Ht2|]. intros t m ?. by apply Hg2, Hg1.
  - intros n s e w _. unfold kept_at. destruct (append_event_frame s e w) as [-> [Hd|(l & o & Hd)]];
      (split; [done|]); apply calm_same; by rewrite Hd.
  - intros w t m. split; [done|]. intros t1 m1. unfold recorded. cbn.
    destruct (thread_workers (db w) !! (t, m)) eqn:E; [done|]. intros [x Hx].
    rewrite lookup_insert_ne by congruence. by exists x.
  - intros w t m s. split; [done|]. intros t1 m1. unfold recorded. cbn. rewrite lookup_alter.
    case_decide; [|done]. intros [x Hx]. simplify_eq. rewrite Hx. by eexists.
Qed.

Lemma calm_trans w1 w2 w3 : calm w1 w2 -> calm w2 w3 -> calm w1 w3.
Proof. intros [Ht1 Hg1] [Ht2 Hg2]. split; [by rewrite Ht2|]. intros t m ?. by apply Hg2, Hg1. Qed.

(** A call that keeps [calm], by what it returned. *)
Lemma keeps_calm {A} (m : Tx A) w r w' : keeps 0 calm m -> m w = (r, w') -> calm w w'.
Proof. intros Hk E. destruct (Hk w) as [_ Hc]; [lia|]. by rewrite E in Hc. Qed.

Lemma insert_worker_recorded t m w u w' : insert_worker t m w = (Ok u, w') -> recorded (db w') t m.
Proof.
  unfold insert_worker. intros E. repeat run_step E. injection E as <- <-. unfold recorded. cbn.
  destruct (thread_workers (db w2) !! (t, m)) eqn:Em; [by rewrite Em|]. rewrite lookup_insert_eq. by eexists.
Qed.

Lemma record_recorded t m w u w' : record_in_tx t m w = (Ok u, w') -> recorded (db w') t m.
Proof.
  unfold record_in_tx. cbn [for_each]. intros E. run_step E. run_step E0. run_step E0.
  apply insert_worker_recorded in E1. apply ret_Ok in E0 as [-> ->]. run_step E. apply read_Ok in E0 as [-> ->].
  apply keeps_calm in E2 as [_ Hg]; [|keeps_auto]. apply Hg in E1.
  injection E as _ <-. unfold recorded in *. cbn. rewrite lookup_alter_eq.
  destruct E1 as [x ->]. by eexists.
Qed.

(** [m] was given thread [id], and only that row was written. *)
Definition takes (id m : N) (w w' : World) : Prop :=
  exists t', threads (db w') = <[id := t']> (threads (db w)) /\ t_assignee t' = Some m
             /\ recorded (db w') id m /\ workers_grow w w'.

Lemma takes_calm id m w1 w2 w3 w4 :
  calm w1 w2 -> takes id m w2 w3 -> calm w3 w4 -> takes id m w1 w4.
Proof.
  intros [Ht1 Hg1] (t' & Ht & Ha & Hr & Hg) [Ht4 Hg4]. exists t'. rewrite Ht4, Ht, Ht1.
  split; [done|]. split; [done|]. split; [by apply Hg4|]. intros t m0 ?. by apply Hg4, Hg, Hg1.
Qed.

(** The row an [UPDATE] wrote, then the worker record. *)
Lemma update_then_record id m where_ set w t' w1 u w2 :
  update_thread id where_ set w = (Ok (Some t'), w1) -> t_assignee t' = Some m ->
  record_in_tx id m w1 = (Ok u, w2) -> takes id m w w2.
Proof.
  intros (t & Ht & _ & -> & ->)%update_thread_Ok Ha E2. pose proof (record_recorded _ _ _ _ _ E2) as Hr.
  apply keeps_calm in E2 as [Ht2 Hg]; [|keeps_auto]. exists (set t). by rewrite Ht2.
Qed.

Lemma assignment_event_recorded id row actor prev note m w ev w' :
  t_assignee row = Some m -> append_assignment_event id row actor prev note w = (Ok ev, w') ->
  recorded (db w') id m /\ calm w w'.
Proof.
  intros Ha E. pose proof (keeps_calm _ _ _ _ (keeps_assignment_event calm 0 id row actor prev note) E) as Hc.
  split; [|done]. unfold append_assignment_event in E. rewrite Ha in E. run_step E.
  apply record_recorded in E0. apply keeps_calm in E as [_ Hg]; [|keeps_auto]. by apply Hg.
Qed.

Lemma update_then_event id m where_ set w t' w1 actor prev note ev w2 :
  update_thread id where_ set w = (Ok (Some t'), w1) -> t_assignee t' = Some m ->
  append_assignment_event id t' actor prev note w1 = (Ok ev, w2) -> takes id m w w2.
Proof.
  intros (t & Ht & _ & -> & ->)%update_thread_Ok Ha E2.
  destruct (assignment_event_recorded _ _ _ _ _ m _ _ _ Ha E2) as [Hr [Ht2 Hg]].
  exists (set t). by rewrite Ht2.
Qed.

(** Every call of a run that keeps [calm] as that fact. *)
Ltac calm_facts :=
  repeat match goal with
  | E : ?m ?w = (Ok _, ?w') |- _ =>
      lazymatch m with
      | update_thread _ _ _ => fail
      | _ => apply keeps_calm in E; [|solve [keeps_auto]]
      end
  end.
Ltac calm_chain := calm_facts; solve [eauto 10 using calm_trans, calm_same].

Lemma take_claim_assignee id where_ m l e s w t' w' :
  update_thread id where_ (take_claim m l e s) w = (Ok (Some t'), w') -> t_assignee t' = Some m.
Proof. by intros (? & _ & _ & -> & _)%update_thread_Ok. Qed.

Lemma assign_takes thread a w t' w' : assign thread a w = (Ok t', w') -> takes thread a w w'.
Proof.
  unfold assign. intros E. run_step E. apply commit_Ok in E. do 7 run_step E.
  apply ok_or_Ok in E6 as [-> ->]. apply ret_Ok in E as [-> ->].
  pose proof (update_then_record _ _ _ _ _ _ _ _ _ E5 (take_claim_assignee _ _ _ _ _ _ _ _ _ E5) E7) as Ht.
  eapply takes_calm; [|exact Ht|by apply calm_same]. clear E5 E7 Ht. calm_chain.
Qed.

Lemma assign_with_event_takes thread a actor note w r w' :
  assign_with_event thread a actor note w = (Ok r, w') -> takes thread a w w'.
Proof.
  unfold assign_with_event. intros E. apply commit_Ok in E. do 10 run_step E.
  apply ok_or_Ok in E8 as [-> ->]. apply ret_Ok in E as [-> ->].
  pose proof (update_then_event _ _ _ _ _ _ _ _ _ _ _ _ E7 (take_claim_assignee _ _ _ _ _ _ _ _ _ E7) E9) as Ht.
  eapply takes_calm; [|exact Ht|by apply calm_same]. clear E7 E9 Ht. calm_chain.
Qed.

(** Either nothing was taken or [m] was given the thread. *)
Definition takes_or_calm (id m : N) (w w' : World) : Prop := calm w w' \/ takes id m w w'.

Lemma claim_update_Ok thread m lease stamped w r w' :
  claim_update thread m lease stamped w = (Ok r, w') ->
  match r with
  | None => w' = w
  | Some t' => update_thread thread
                 (fun d t => bool_decide (t_assignee t = None) && live t && negb (refused_to d m thread))
                 (take_claim m lease None stamped) w = (Ok (Some t'), w')
  end.
Proof.
  unfold claim_update. intros E. run_step E. destruct a as [t'|].
  - run_step E. apply ret_Ok in E as [-> ->]. unfold member_fk in E1. run_step E1.
    apply read_Ok in E as [-> ->]. case_bool_decide; [|done]. by apply ret_Ok in E1 as [_ ->].
  - apply ret_Ok in E as [-> ->]. by apply update_thread_Ok in E0 as [-> _].
Qed.

Lemma refuse_duplicate_Ok thread w u w' : refuse_duplicate_claim_on thread w = (Ok u, w') -> w' = w.
Proof.
  unfold refuse_duplicate_claim_on. intros E. run_step E. apply read_Ok in E0 as [-> ->].
  case_match; [done|]. by apply ret_Ok in E as [_ ->].
Qed.

Lemma claim_takes thread m w r w' : claim thread m w = (Ok r, w') -> takes_or_calm thread m w w'.
Proof.
  unfold claim. intros E. run_step E. run_step E. apply commit_Ok in E1. do 4 run_step E1.
  apply claim_update_Ok in E5. destruct a4 as [t'|].
  - do 2 run_step E1. apply ret_Ok in E1 as [-> ->]. apply ret_Ok in E as [-> ->]. right.
    apply refuse_duplicate_Ok in E6 as ->.
    pose proof (update_then_record _ _ _ _ _ _ _ _ _ E5 (take_claim_assignee _ _ _ _ _ _ _ _ _ E5) E7) as Ht.
    eapply takes_calm; [|exact Ht|by apply calm_same]. clear E5 E7 Ht. calm_chain.
  - left. apply ret_Ok in E1 as [-> ->]. subst. calm_chain.
Qed.

Lemma claim_with_event_takes thread m w r w' : claim_with_event thread m w = (Ok r, w') -> takes_or_calm thread m w w'.
Proof.
  unfold claim_with_event. intros E. run_step E. apply commit_Ok in E0. do 5 run_step E0.
  apply claim_update_Ok in E5. destruct a4 as [t'|].
  - do 2 run_step E0. apply ret_Ok in E0 as [-> ->]. apply ret_Ok in E as [-> ->]. right.
    apply refuse_duplicate_Ok in E6 as ->.
    pose proof (update_then_event _ _ _ _ _ _ _ _ _ _ _ _ E5 (take_claim_assignee _ _ _ _ _ _ _ _ _ E5) E7) as Ht.
    eapply takes_calm; [|exact Ht|by apply calm_same]. clear E5 E7 Ht. calm_chain.
  - left. apply ret_Ok in E0 as [-> ->]. subst. calm_chain.
Qed.

Definition next_deadline (now : Z) (lease_secs : option Z) : option Z :=
  (fun s => truncate_micros now + secs s)%Z <$> lease_secs.

Lemma take_candidate_Ok id m now s w t' w' :
  take_candidate id m now s w = (Ok t', w') ->
  exists t, threads (db w) !! id = Some t
            /\ t' = take_claim m (uuid (ids w)) (next_deadline now s) (truncate_micros now) t
            /\ db w' = upd_threads (fun rows => <[id := t']> rows) (db w).
Proof.
  unfold take_candidate. intros E. run_step E. injection E0 as <- <-. run_step E. do 2 run_step E.
  apply ok_or_Ok in E1 as [-> ->]. apply ret_Ok in E as [-> ->].
  apply update_thread_Ok in E0 as (t & Ht & _ & -> & ->). exists t. cbn in Ht. split_and!; [done..|].
  unfold member_fk in E2. run_step E2. apply read_Ok in E as [-> ->]. case_bool_decide; [|done].
  by apply ret_Ok in E2 as [_ ->].
Qed.

(** The query claim_next asks, when it starts in [w]. *)
Definition next_query (g : ClaimGrace) (scope : ClaimScope) (m : N) (repo : option str)
    (engine : option TaskEngine) (lane : option TaskLane) (w : World) : Ask :=
  let now := truncate_micros (clock (ticks w)) in
  ask m scope now (lease_clock g now) (clock (S (ticks w))) repo engine lane.

(** What a pull that returned leaves: nothing was eligible and no row was
    written, or the query's answer was given to [m] under a new token. *)
Definition next_outcome (q : Ask) (s : option Z) (w w' : World) (r : option (N * ThreadRow)) : Prop :=
  match r with
  | None => candidate_select (db w) q = None /\ db w' = db w
  | Some (id, t') =>
      exists t, candidate_select (db w) q = Some (id, t)
                /\ t' = take_claim (q_member q) (uuid (ids w)) (next_deadline (truncate_micros (clock (ticks w))) s)
                          (truncate_micros (truncate_micros (clock (ticks w)))) t
                /\ threads (db w') = <[id := t']> (threads (db w))
                /\ recorded (db w') id (q_member q) /\ workers_grow w w'
  end.

Lemma claim_next_outcome g c m s e w r w' :
  claim_next g c m s e w = (Ok r, w') ->
  next_outcome (next_query g (InChannel c) m None e None w) s w w' r.
Proof.
  unfold claim_next. intros E. run_step E. injection E0 as <- <-. apply commit_Ok in E. run_step E.
  unfold claim_next_candidate in E0. run_step E0. injection E1 as <- <-. apply read_Ok in E0 as [-> ->].
  cbn [db ticks ids] in E. change (ask m _ _ _ _ _ _ _) with (next_query g (InChannel c) m None e None w) in E.
  destruct (candidate_select (db w) _) as [[id t]|] eqn:Ec; [|by apply ret_Ok in E as [-> ->]].
  do 3 run_step E. apply ret_Ok in E as [-> ->].
  apply take_candidate_Ok in E0 as (t1 & Ht1 & Ht' & Hd). cbn [db ids] in *.
  pose proof (candidate_eligible _ _ _ _ Ec) as [Ht _]. assert (t1 = t) as -> by congruence.
  exists t. split; [done|]. split; [done|].
  pose proof (record_recorded _ _ _ _ _ E1) as Hr. apply keeps_calm in E1 as [Ht2 Hg2]; [|keeps_auto].
  apply keeps_calm in E2 as [Ht3 Hg3]; [|keeps_auto]. rewrite Ht3, Ht2, Hd. split; [done|].
  split; [by apply Hg3|]. intros t0 m0 ?. apply Hg3, Hg2. unfold recorded in *. by rewrite Hd.
Qed.

Lemma claim_next_with_event_outcome g sc m s repo e lane w r evs w' :
  claim_next_with_event g sc m s repo e lane w = (Ok (r, evs), w') ->
  next_outcome (next_query g sc m repo e lane w) s w w' r.
Proof.
  unfold claim_next_with_event. intros E. apply commit_Ok in E. run_step E. injection E0 as <- <-. run_step E.
  unfold claim_next_candidate in E0. run_step E0. injection E1 as <- <-. apply read_Ok in E0 as [-> ->].
  cbn [db ticks ids] in E. change (ask m _ _ _ _ _ _ _) with (next_query g sc m repo e lane w) in E.
  destruct (candidate_select (db w) _) as [[id t]|] eqn:Ec; [|by apply ret_Ok in E as [[= -> _] ->]].
  do 3 run_step E. apply ret_Ok in E as [[= -> _] ->].
  apply take_candidate_Ok in E0 as (t1 & Ht1 & Ht' & Hd). cbn [db ids] in *.
  pose proof (candidate_eligible _ _ _ _ Ec) as [Ht _]. assert (t1 = t) as -> by congruence.
  exists t. split; [done|]. split; [done|].
  assert (t_assignee a = Some m) as Ha by (by rewrite Ht').
  destruct (assignment_event_recorded _ _ _ _ _ m _ _ _ Ha E2) as [Hr [Ht3 Hg3]].
  apply keeps_calm in E1 as [Ht2 Hg2]; [|keeps_auto]. rewrite Ht3, Ht2, Hd. split; [done|].
  split; [done|]. intros t0 m0 ?. apply Hg3, Hg2. unfold recorded in *. by rewrite Hd.
Qed.

(** A call that failed wrote nothing. *)
Definition undone {A} (m : Tx A) : Prop := forall w e w', m w = (Err e, w') -> db w' = db w.

Lemma undone_commit {A} (m : Tx A) : undone (commit m).
Proof. intros w e w'. apply commit_Err. Qed.

(** A first call that writes no table leaves the rest to undo. *)
Lemma undone_after {A B} (m : Tx A) (k : A -> Tx B) :
  (forall w, db (m w).2 = db w) -> (forall a, undone (k a)) -> undone (bind m k).
Proof.
  intros Hm Hk w e w' E. pose proof (Hm w) as Hd. apply bind_Err_inv in E as [E|(a & w1 & E1 & E2)].
  - by rewrite E in Hd.
  - rewrite E1 in Hd. cbn in Hd. rewrite <- Hd. by eapply Hk.
Qed.

(** What a taking operation leaves, whether it returned or failed. *)
Definition takes_one (w w' : World) : Prop := calm w w' \/ exists id m, takes id m w w'.

Lemma undone_calm {A} (m : Tx A) w e w' : undone m -> m w = (Err e, w') -> calm w w'.
Proof. intros Hu E. apply calm_same; by rewrite (Hu _ _ _ E). Qed.

Lemma assign_takes_one t a ev w : takes_one w (exec (OAssign t a ev) w).2.
Proof.
  destruct ev as [[actor note]|]; cbn [exec]; unfold bind at 1.
  - destruct (assign_with_event t a actor note w) as [[r|e] w'] eqn:E; cbn.
    + right. exists t, a. by eapply assign_with_event_takes.
    + left. eapply undone_calm; [|exact E]. apply undone_commit.
  - destruct (assign t a w) as [[r|e] w'] eqn:E; cbn.
    + right. exists t, a. by eapply assign_takes.
    + left. eapply undone_calm; [|exact E]. apply undone_after; [done|]. intros l. apply undone_commit.
Qed.

Lemma next_takes_one q s w w' r : next_outcome q s w w' r -> takes_one w w'.
Proof.
  destruct r as [[id t']|]; cbn.
  - intros (t & Hc & -> & Ht & Hr & Hg). right. exists id, (q_member q). eexists. by split_and!.
  - intros [_ Hd]. left. by apply calm_same; rewrite Hd.
Qed.

Lemma claim_next_takes_one o w :
  match o with OClaimNext _ _ _ _ _ | OClaimNextEvent _ _ _ _ _ _ _ => True | _ => False end ->
  takes_one w (exec o w).2.
Proof.
  intros Ho. destruct o; try done; cbn [exec]; unfold bind at 1.
  - destruct (claim_next _ _ _ _ _ w) as [[r|e] w'] eqn:E; cbn.
    + apply claim_next_outcome in E. by eapply next_takes_one.
    + left. eapply undone_calm; [|exact E]. apply undone_after; [done|]. intros l. apply undone_commit.
  - destruct (claim_next_with_event _ _ _ _ _ _ _ w) as [[[r evs]|e] w'] eqn:E; cbn.
    + apply claim_next_with_event_outcome in E. by eapply next_takes_one.
    + left. eapply undone_calm; [|exact E]. apply undone_commit.
Qed.

Lemma get_Err thread w e w' : get thread w = (Err e, w') -> w' = w.
Proof. unfold get, bind, read, ok_or. cbn. destruct (threads (db w) !! thread); cbn; by intros [= _ <-]. Qed.

(** A named claim that lost its compare-and-set and then failed to read the
    thread wrote nothing. *)
Lemma claim_lost_calm {A B} (m : Tx (option A)) (k : A -> Tx B) (f : ThreadRow -> B) thread w e w' :
  undone m -> (forall w1, m w = (Ok None, w1) -> calm w w1) -> (forall a w1, is_ok (k a w1).1 = true) ->
  bind m (fun won => match won with Some a => k a | None => t <- get thread ;; ret (f t) end) w = (Err e, w') ->
  calm w w'.
Proof.
  intros Hu Hn Hk E. apply bind_Err_inv in E as [E|([a|] & w1 & E1 & E2)].
  - by eapply undone_calm.
  - specialize (Hk a w1). by rewrite E2 in Hk.
  - apply bind_Err_inv in E2 as [E2|(t & w2 & E2 & E3)]; [|done]. apply get_Err in E2 as ->. by apply Hn.
Qed.

Ltac claim_update_cases :=
  match goal with E : claim_update _ _ _ _ _ = (Ok ?r, _) |- _ => apply claim_update_Ok in E; destruct r end.

Lemma claim_takes_one t m ev w : takes_one w (exec (OClaim t m ev) w).2.
Proof.
  destruct ev; cbn [exec]; unfold bind at 1.
  - destruct (claim_with_event t m w) as [[r|e] w'] eqn:E; cbn.
    + apply claim_with_event_takes in E as [Hc|Ht]; [by left|right; eauto].
    + left. unfold claim_with_event in E.
      eapply (claim_lost_calm _ (fun '(r, stored) => ret ({| cr_thread := r; cr_claimed := true |}, Some stored)));
        [apply undone_commit| |by intros [] ?|exact E].
      intros w1 E1. apply commit_Ok in E1. do 5 run_step E1. claim_update_cases; [do 2 run_step E1; by apply ret_Ok in E1 as [? _]|].
      apply ret_Ok in E1 as [_ ->]. subst. clear E. calm_chain.
  - destruct (claim t m w) as [[r|e] w'] eqn:E; cbn.
    + apply claim_takes in E as [Hc|Ht]; [by left|right; eauto].
    + left. unfold claim in E. apply bind_Err_inv in E as [E|(l & w0 & E0 & E)]; [done|].
      apply (calm_trans _ w0); [clear E; calm_chain|].
      eapply (claim_lost_calm _ (fun r => ret {| cr_thread := r; cr_claimed := true |}));
        [apply undone_commit| |done|exact E].
      intros w1 E1. apply commit_Ok in E1. do 4 run_step E1. claim_update_cases; [do 2 run_step E1; by apply ret_Ok in E1 as [? _]|].
      apply ret_Ok in E1 as [_ ->]. subst. clear E E0. calm_chain.
Qed.

(** The operations that hand a thread to someone. *)
Definition taking (o : Op) : bool :=
  match o with
  | OAssign _ _ _ | OClaim _ _ _ | OClaimNext _ _ _ _ _ | OClaimNextEvent _ _ _ _ _ _ _ => true
  | _ => false
  end.

Lemma taking_takes_one o w : taking o = true -> takes_one w (exec o w).2.
Proof.
  intros Ho. destruct o; try done;
    [apply assign_takes_one|apply claim_takes_one|by apply claim_next_takes_one..].
Qed.

(** An assignee is kept or cleared. *)
Definition assignee_kept (_ : N) (t t' : ThreadRow) : Prop :=
  t_assignee t' = None \/ t_assignee t' = t_assignee t.
Global Instance assignee_kept_preorder id : PreOrder (assignee_kept id).
Proof.
  split; [by right|]. intros t1 t2 t3 [H12|H12] [H23|H23]; unfold assignee_kept; rewrite ?H23, ?H12; auto.
Qed.

Definition unheld (_ : N) (t : ThreadRow) : Prop := t_assignee t = None.
Global Instance unheld_inherits : Inherits assignee_kept unheld.
Proof. intros id t t' Ht [Hn|He]; unfold unheld in *; congruence. Qed.

Global Instance workers_grow_store : StoreRel workers_grow.
Proof.
  assert (forall w w', calm w w' -> workers_grow w w') as Hc by (by intros w w' []).
  constructor; [constructor|..]; try (intros; apply Hc; first [by apply sr_frame|by apply sr_budgets|apply sr_versions
    |apply sr_dlq|apply sr_status|apply sr_worker|apply sr_held|by apply sr_dep_add|apply sr_dep_remove|apply sr_audit]).
  - constructor; [intros w t i _ th m Hr; exact Hr|]. intros w1 w2 w3 _ _ H1' H2' t m ?. by apply H2', H1'.
  - intros n s e w Hn. destruct (sr_append_event (R := calm) n s e w Hn) as [Hi [_ Hg]]. by split.
Qed.

Global Instance workers_grow_ledger : LedgerRel workers_grow.
Proof. constructor; intros w f t m Hm; exact Hm. Qed.

Lemma not_taking_kept o w :
  taking o = false -> workers_grow w (exec o w).2 /\ rows_rel assignee_kept unheld w (exec o w).2.
Proof.
  intros Ho. split; [apply (exec_kept workers_grow o w); by intros w1 m' _ _ t m|].
  apply (exec_rows assignee_kept unheld); [intros id d t t' _ Hs|by intros ? ? (? & ? & ? & ? & ? & ? & ->)].
  destruct Hs; try done; try solve [by left|by right]. unfold assignee_kept. cbn.
  destruct (is_terminal to); [by left|by right].
Qed.

Lemma holders_recorded_takes id m w w' :
  holders_recorded (db w) -> takes id m w w' -> holders_recorded (db w').
Proof.
  intros Hw (t' & Ht & Ha & Hr & Hg) id1 t1 m1. rewrite Ht.
  destruct (decide (id1 = id)) as [->|Hne].
  - rewrite lookup_insert_eq. intros [= <-] ?. by simplify_eq.
  - rewrite lookup_insert_ne by done. intros Ht1 Ha1. apply Hg. by eapply Hw.
Qed.

Lemma worker_step o w :
  holders_recorded (db w) -> holders_recorded (db (exec o w).2) /\ workers_grow w (exec o w).2.
Proof.
  intros Hw. destruct (taking o) eqn:Ho.
  - destruct (taking_takes_one o w Ho) as [[Ht Hg]|(id & m & Ht)].
    + split; [|done]. intros id t m. rewrite Ht. intros. apply Hg. by eapply Hw.
    + split; [by eapply holders_recorded_takes|]. by destruct Ht as (? & _ & _ & _ & Hg).
  - destruct (not_taking_kept o w Ho) as [Hg Hr]. split; [|done]. intros id t' m Ht' Ha.
    specialize (Hr id). rewrite Ht' in Hr. destruct (threads (db w) !! id) as [t|] eqn:Ht; [|by unfold unheld in Hr; congruence].
    destruct Hr as [Hn|He]; [congruence|]. apply Hg. eapply Hw; [done|congruence].
Qed.

Lemma run_workers ops w :
  holders_recorded (db w) -> holders_recorded (db (run ops w)) /\ workers_grow w (run ops w).
Proof.
  revert w. induction ops as [|o ops IH]; intros w0 Hw0; [by split; [|intros t m]|]. cbn.
  destruct (worker_step o w0 Hw0) as [Hw1 Hg1]. destruct (IH _ Hw1) as [Hw2 Hg2].
  split; [done|]. intros t m ?. by apply Hg2, Hg1.
Qed.

(** Separation of duties has its evidence. Every member who holds a thread is in the thread's worker record, and no store operation ever removes anyone from it, so whoever held the thread at any time is still named after a release, a lapse or a reassignment. *)
Theorem worker_record_durable ops1 ops2 w :
  holders_recorded (db w) ->
  forall thread t m,
    threads (db (run ops1 w)) !! thread = Some t -> t_assignee t = Some m ->
    has_worked thread m (run ops2 (run ops1 w)) = (Ok true, run ops2 (run ops1 w)).
Proof.
  intros Hw thread t m Ht Ha. destruct (run_workers ops1 w Hw) as [Hw1 _].
  destruct (run_workers ops2 _ Hw1) as [_ Hg]. unfold has_worked, read. f_equal. f_equal.
  apply (bool_decide_eq_true_2 _). apply Hg. by eapply Hw1.
Qed.
End workers.

(** ** On the sample store *)

Import Sample.

Lemma operations_log_and_enqueue_together_witness :
  exists report,
    verify_chain (log (db (run [OClaim 101 7 true; OReap no_grace (start + 1) 10; OUnassign 9 None] world))) 1
    = Some report /\ ok report = true.
Proof. apply operations_log_and_enqueue_together. apply log_wf_empty. Defined.

Lemma world_recorded : holders_recorded tables.
Proof.
  intros id t m Ht Ha. apply (bool_decide_eq_true (recorded _ _ _)).
  revert id t Ht m Ha.
  assert (forall id t, threads tables !! id = Some t ->
            match t_assignee t with Some m => bool_decide (recorded tables id m) | None => true end = true) as Hall
    by (apply (threads_all (fun id t => match t_assignee t with Some m => bool_decide (recorded tables id m) | None => true end));
        by vm_compute).
  intros id t Ht m Ha. specialize (Hall id t Ht). by rewrite Ha in Hall.
Qed.

Lemma worker_record_durable_witness :
  has_worked 101 7 (run [OUnassign 101 None] (run [OClaim 101 7 true] world))
  = (Ok true, run [OUnassign 101 None] (run [OClaim 101 7 true] world)).
Proof.
  eapply worker_record_durable; [|vm_compute; reflexivity|reflexivity].
  apply world_recorded.
Defined.
