(* ===== verification/LandingLaws.v ===== *)
(** * Laws of the close gates

    What a thread needs to close: the boolean reading of the gates of
    [Landing], that a transition to [Closed] passes exactly through them, and
    what they mean (distinct live members outside the work, bound to the evidence
    the review was handed). *)

From stdpp Require Import strings.
From S2P Require Import Prelude Text Json EventChain EventLog Footprint Fsm Review Db Budget TxLogic AuditTrail Claimability Threads Deps Attributes Gates LandGate Packets Landing Reviews Closing StoreRels FlowLogic StoreOps ClaimLaws StoreLaws Samples.
Local Open Scope tx_scope.

Section laws.
Context `{JsonText, Sha256, Env}.

(** ** The gates as conditions on the tables *)

(** The evidence is what the newest packet with this root pinned. *)
Definition unchanged (d : Db) (thread : N) (r : str) : bool :=
  match first_by newer (List.filter (fun p => bool_decide (pk_thread p = thread) && bool_decide (pk_root p = r))
                          (review_packets d)), evidence d thread with
  | Some p, Ok e => same_evidence (pk_manifest p) e.1.1
  | _, _ => false
  end.
Definition evidence_stands (d : Db) (thread : N) : bool :=
  match latest_root d thread with None => true | Some r => unchanged d thread r end.

Definition reviews_met (d : Db) (thread : N) : bool :=
  (required_count d thread <=? 0)%Z
  || (required_count d thread <=? Z.of_nat (length (approvers d thread)))%Z && evidence_stands d thread.

Definition land_met (d : Db) (thread : N) : bool :=
  match gate_reading d thread with Unarmed => true | PendingPass => false | Recorded p => qualifies p end.

Definition gates_met (d : Db) (thread : N) : bool :=
  reviews_met d thread && negb (refuted d thread) && land_met d thread.

Definition barred (d : Db) (thread : N) (t : ThreadRow) (actor : N) (to : ThreadState) : bool :=
  bool_decide (is_Some (t_owner t)) && is_terminal to
  && (bool_decide (t_assignee t = Some actor) || has_worked_on d thread actor && negb (outside_approval d thread)).

Definition parent_allows (d : Db) (thread : N) (t : ThreadRow) (to : ThreadState) : bool :=
  match t_parent t with
  | None => true
  | Some p =>
      match threads d !! p with
      | None => false
      | Some parent =>
          is_ok (parent_allows_transition (t_state parent)
                   (if is_plan_child d thread || is_review d thread then Open else to))
      end
  end.

(** A call that only reads: it answers by a condition and leaves the world. *)
Definition decides (m : Tx unit) (p : Db -> bool) : Prop :=
  forall w, exists e, m w = (if p (db w) then Ok tt else Err e, w).

Ltac answer := first [by exists NotFound|by eexists].

Lemma decides_seq (m1 m2 : Tx unit) p1 p2 :
  decides m1 p1 -> decides m2 p2 -> decides (m1 ;; m2) (fun d => p1 d && p2 d).
Proof.
  intros H1' H2' w. destruct (H1' w) as [e1 E1]. destruct (H2' w) as [e2 E2].
  destruct (p1 (db w)) eqn:Ep1; cbn.
  - exists e2. by rewrite (bind_Ok _ _ _ _ _ E1).
  - exists e1. by rewrite (bind_Err _ _ _ _ _ E1).
Qed.

Lemma decides_ext m p q : (forall d, p d = q d) -> decides m p -> decides m q.
Proof. intros Hpq Hm w. rewrite <- Hpq. apply Hm. Qed.

Lemma ensure_unchanged_decides thread r : decides (ensure_unchanged_in_tx thread r) (fun d => unchanged d thread r).
Proof.
  intros w. unfold ensure_unchanged_in_tx, unchanged, manifest_in_tx, evidence_in_tx, bind, read, lift. cbn.
  destruct (evidence (db w) thread) as [e|e]; cbn; [|by exists e; destruct (first_by newer _)].
  destruct (first_by newer _) as [p|]; cbn; [|answer]. destruct (same_evidence _ _); answer.
Qed.

Lemma review_gate_decides thread :
  decides (review_gate_in_tx thread) (fun d => reviews_met d thread && negb (refuted d thread)).
Proof.
  intros w. unfold review_gate_in_tx, reviews_met, evidence_stands.
  unfold bind at 1, read at 1. cbn.
  destruct (Z.ltb_spec 0 (required_count (db w) thread)) as [Hr|Hr].
  - rewrite (proj2 (Z.leb_gt _ _)) by lia. cbn. unfold latest_root_in_tx.
    destruct (latest_root (db w) thread) as [r|] eqn:El; unfold bind, read; cbn; rewrite El.
    + destruct (ensure_unchanged_decides thread r w) as [e ->]. destruct (unchanged (db w) thread r); cbn.
      * rewrite Z.ltb_antisym. destruct (_ <=? _)%Z; cbn; [|answer]. destruct (refuted (db w) thread); answer.
      * rewrite andb_false_r. answer.
    + rewrite andb_true_r, Z.ltb_antisym. destruct (_ <=? _)%Z; cbn; [|answer].
      destruct (refuted (db w) thread); answer.
  - rewrite (proj2 (Z.leb_le _ _)) by lia. cbn. destruct (refuted (db w) thread); answer.
Qed.

Lemma land_gate_decides thread : decides (land_gate_in_tx thread) (fun d => land_met d thread).
Proof.
  intros w. unfold land_gate_in_tx, land_met, bind, read. cbn.
  destruct (gate_reading (db w) thread) as [| |p]; [answer|answer|]. destruct (qualifies p); answer.
Qed.

Lemma duties_decides thread t actor to :
  decides (separation_of_duties_in_tx thread t actor to) (fun d => negb (barred d thread t actor to)).
Proof.
  intros w. unfold separation_of_duties_in_tx, barred, bind, read. cbn. case_match; answer.
Qed.

Lemma close_gates_decides thread :
  decides (review_gate_in_tx thread ;; land_gate_in_tx thread) (fun d => gates_met d thread).
Proof.
  eapply decides_ext; [|by apply decides_seq; [apply review_gate_decides|apply land_gate_decides]]. done.
Qed.

(** ** The move itself *)

Lemma upd_thread_budgets_id d : upd_thread_budgets (fun m => m) d = d.
Proof. by destruct d. Qed.

(** Charging an open claim writes the budget at most. *)
Lemma charge_open_run thread t w :
  threads (db w) !! thread = Some t ->
  exists b k, charge_open_claim_in_tx thread w
              = (Ok tt, {| db := upd_thread_budgets b (db w); ticks := k; ids := ids w |}).
Proof.
  intros Ht. unfold charge_open_claim_in_tx, get, bind, read, utc_now. cbn. rewrite Ht. cbn.
  unfold charge_wall_in_tx, worked_secs. destruct (t_started t) as [s|]; cbn.
  - unfold upsert_budget, bind, read, utc_now. cbn. rewrite bool_decide_eq_true_2 by (by rewrite Ht). by eexists _, _.
  - exists (fun m => m), (S (ticks w)). by rewrite upd_thread_budgets_id.
Qed.

Definition transition_row (id thread : N) (from to : ThreadState) (actor : N) (at_ : Z) : TransitionRow :=
  {| tr_id := id; tr_thread := thread; tr_from := from; tr_to := to; tr_actor := actor; tr_at := at_ |}.

(** What a move leaves: the row in its new state, one transition more, and nothing
    else of the thread. *)
Definition moved (thread : N) (t : ThreadRow) (actor : N) (to : ThreadState) (d d' : Db) (r : ThreadTransitionResult) : Prop :=
  exists id now,
    r = {| tt_id := thread; tt_thread := move_to to now t; tt_from := t_state t; tt_to := to |}
    /\ threads d' = <[thread := move_to to now t]> (threads d)
    /\ thread_transitions d' = thread_transitions d ++ [transition_row id thread (t_state t) to actor now].

Lemma parent_check_decides thread t to :
  decides (match t_parent t with
           | None => ret tt
           | Some p =>
               parent <- read (fun d => threads d !! p) ;;
               parent <- ok_or parent NotFound ;;
               ahead <- read (fun d => is_plan_child d thread || is_review d thread) ;;
               lift (fun e => Conflict (ParentRefuses e))
                 (parent_allows_transition (t_state parent) (if ahead then Open else to))
           end) (fun d => parent_allows d thread t to).
Proof.
  intros w. unfold parent_allows. destruct (t_parent t) as [p|]; [|answer]. unfold bind, read. cbn.
  destruct (threads (db w) !! p) as [parent|]; cbn; [|answer]. unfold lift.
  destruct (parent_allows_transition _ _) as [[]|e]; cbn; answer.
Qed.

Lemma member_fk_decides m : decides (member_fk m) (fun d => bool_decide (is_Some (members d !! m))).
Proof. intros w. unfold member_fk, bind, read. cbn. destruct (bool_decide _); answer. Qed.

Lemma stamp_run thread (b : bool) w :
  exists now k, (if b
                 then
                   floor <- read (fun d => accepted_cap d thread) ;;
                   now <- db_now ;;
                   ret (after_floor now floor)
                 else utc_now) w = (Ok now, {| db := db w; ticks := k; ids := ids w |}).
Proof. destruct b; by eexists _, _. Qed.

Lemma land_run thread t actor to w :
  threads (db w) !! thread = Some t ->
  match land_in_tx thread t actor to w with
  | (Ok r, w') => parent_allows (db w) thread t to = true /\ is_Some (members (db w) !! actor)
                  /\ moved thread t actor to (db w) (db w') r
  | (Err _, _) => parent_allows (db w) thread t to = false \/ members (db w) !! actor = None
  end.
Proof.
  intros Ht. unfold land_in_tx. destruct (parent_check_decides thread t to w) as [e E].
  destruct (parent_allows (db w) thread t to); [|rewrite (bind_Err _ _ _ _ _ E); by left].
  rewrite (bind_Ok _ _ _ _ _ E). clear E. erewrite bind_Ok by reflexivity.
  destruct (stamp_run thread (bool_decide (t_state t = InReview) && bool_decide (to = Open))
              {| db := db w; ticks := ticks w; ids := S (ids w) |}) as (now & k & E).
  rewrite (bind_Ok _ _ _ _ _ E). clear E. destruct (member_fk_decides actor {| db := db w; ticks := k; ids := S (ids w) |}) as [e' E].
  cbn [db ids] in *. case_bool_decide as Hm; [|rewrite (bind_Err _ _ _ _ _ E); right; by apply eq_None_not_Some].
  rewrite (bind_Ok _ _ _ _ _ E). clear E. erewrite bind_Ok by reflexivity. cbn [db ids ticks].
  set (d1 := upd_thread_transitions _ (db w)).
  assert (exists b k', when (is_terminal to) (charge_open_claim_in_tx thread)
            {| db := d1; ticks := k; ids := S (ids w) |} = (Ok tt, {| db := upd_thread_budgets b d1; ticks := k'; ids := S (ids w) |}))
    as (b & k' & E).
  { unfold when. destruct (is_terminal to); [by apply (charge_open_run thread t {| db := d1; ticks := k; ids := S (ids w) |})|].
    exists (fun m => m), k. by rewrite upd_thread_budgets_id. }
  rewrite (bind_Ok _ _ _ _ _ E). clear E. unfold bind, update_thread, d1. cbn. rewrite Ht. cbn.
  split; [done|]. split; [done|]. by exists (uuid (ids w)), now.
Qed.

(** ** Closing is passing the gates *)

Definition closable (d : Db) (thread actor : N) : bool :=
  match threads d !! thread with
  | Some t =>
      live t && bool_decide (t_state t = InReview) && negb (barred d thread t actor Closed) && gates_met d thread
      && parent_allows d thread t Closed && bool_decide (is_Some (members d !! actor))
  | None => false
  end.

Lemma apply_close s to : apply s Close = Ok to <-> s = InReview /\ to = Closed.
Proof. destruct s; naive_solver. Qed.

Lemma close_run thread actor w :
  match transition_in_spawning thread actor Close w with
  | (Ok (r, spawned), w') =>
      closable (db w) thread actor = true /\ spawned = []
      /\ exists t, threads (db w) !! thread = Some t /\ moved thread t actor Closed (db w) (db w') r
  | (Err _, _) => closable (db w) thread actor = false
  end.
Proof.
  unfold transition_in_spawning, closable. erewrite bind_Ok by reflexivity.
  destruct (threads (db w) !! thread) as [t|] eqn:Ht; [|done]. erewrite bind_Ok by reflexivity.
  destruct (live t); [|done]. erewrite bind_Ok by reflexivity. cbn [andb].
  destruct (decide (t_state t = InReview)) as [Hs|Hs].
  2: { rewrite bool_decide_eq_false_2 by done. by destruct (t_state t). }
  rewrite bool_decide_eq_true_2 by done. rewrite Hs. erewrite bind_Ok by reflexivity. cbn [andb].
  destruct (duties_decides thread t actor Closed w) as [e E]. destruct (negb (barred _ _ _ _ _)); [|by rewrite (bind_Err _ _ _ _ _ E)].
  rewrite (bind_Ok _ _ _ _ _ E). clear E. cbn [andb]. erewrite bind_Ok by reflexivity.
  destruct (close_gates_decides thread w) as [e' E]. destruct (gates_met (db w) thread); cbn [andb] in *.
  2: { rewrite (bind_Err _ _ _ _ _ E). done. }
  erewrite bind_Ok by exact E. clear E. pose proof (land_run thread t actor Closed w Ht) as Hl.
  unfold bind. destruct (land_in_tx thread t actor Closed w) as [[r|e2] w'].
  - destruct Hl as (-> & Hm & Hmv). rewrite bool_decide_eq_true_2 by done. split; [done|]. split; [done|]. by exists t.
  - destruct Hl as [->| ->]; [done|]. rewrite andb_comm. by rewrite bool_decide_eq_false_2.
Qed.

(** ** What the gates mean *)

(** A live member of the workspace with no part in the work: not its owner, not
    its holder, and never its holder. *)
Definition independent (d : Db) (thread : N) (t : ThreadRow) (ws m : N) : Prop :=
  (exists row, members d !! m = Some row /\ m_ws row = ws /\ m_tombstoned row = None)
  /\ t_owner t <> Some m /\ t_assignee t <> Some m /\ thread_workers d !! (thread, m) = None.

(** [m] gave, itself or for a reviewer it acted for, an approval that stands and
    names what the latest hand-off showed. *)
Definition approved_by (d : Db) (thread : N) (t : ThreadRow) (ws m : N) : Prop :=
  exists reviewer r,
    reviews d !! (thread, reviewer) = Some r /\ rv_decision r = Approve /\ rv_dismissed r = None
    /\ m = default reviewer (rv_actor r) /\ independent d thread t ws reviewer /\ independent d thread t ws m
    /\ (forall packet, latest_packet d thread = Some packet -> rv_root r = Some (pk_root packet))
    /\ ((forall m', reviewers d !! (thread, m') = None) \/ is_Some (reviewers d !! (thread, reviewer))).

Lemma live_member_spec d ws m :
  live_member d ws m = true <-> exists row, members d !! m = Some row /\ m_ws row = ws /\ m_tombstoned row = None.
Proof.
  unfold live_member. destruct (members d !! m) as [row|]; [|naive_solver]. split.
  - intros. bool_simpl. eauto.
  - intros (row' & [= <-] & -> & ->). by rewrite !bool_decide_eq_true_2.
Qed.

Lemma independent_spec d thread t ws m :
  live_member d ws m && not_owner t m && not_assignee t m && never_worked d thread m = true
  <-> independent d thread t ws m.
Proof.
  unfold independent, not_owner, not_assignee, never_worked, has_worked_on.
  rewrite !andb_true_iff, live_member_spec, !negb_true_iff, !bool_decide_eq_false, <- eq_None_not_Some. tauto.
Qed.

Lemma named_reviewer_spec d thread m :
  named_reviewer d thread m = true <-> (forall m', reviewers d !! (thread, m') = None) \/ is_Some (reviewers d !! (thread, m)).
Proof.
  assert (forall x, x ∈ named_set d thread <-> is_Some (reviewers d !! (thread, x))) as Hel.
  { intros x. unfold named_set. rewrite list_elem_of_fmap. split.
    - intros ([[t y] z] & -> & Hin). apply elem_of_bfilter in Hin as [Hin Hp]. apply elem_of_map_to_list in Hin. cbn in *.
      bool_simpl. subst. by eexists.
    - intros [z Hz]. exists (thread, x, z). split; [done|]. apply elem_of_bfilter. rewrite elem_of_map_to_list.
      split; [done|]. by apply bool_decide_eq_true_2. }
  unfold named_reviewer. rewrite orb_true_iff, !bool_decide_eq_true, Hel. split; (intros [Hn|?]; [left|by right]).
  - intros m'. apply eq_None_not_Some. rewrite <- Hel, Hn. apply not_elem_of_nil.
  - destruct (named_set d thread) as [|x l]; [done|]. destruct (proj1 (Hel x)) as [z Hz]; [by left|]. by rewrite Hn in Hz.
Qed.

Lemma bound_to_packet_spec d thread r :
  bound_to_packet d thread r = true <-> forall packet, latest_packet d thread = Some packet -> rv_root r = Some (pk_root packet).
Proof.
  unfold bound_to_packet, latest_root. destruct (latest_packet d thread) as [p|]; cbn; [|naive_solver].
  rewrite bool_decide_eq_true. naive_solver.
Qed.

Lemma approval_counts_spec d thread t ws reviewer r :
  approval_counts d thread t ws reviewer r = true
  <-> rv_decision r = Approve /\ rv_dismissed r = None
      /\ independent d thread t ws reviewer /\ independent d thread t ws (default reviewer (rv_actor r))
      /\ (forall packet, latest_packet d thread = Some packet -> rv_root r = Some (pk_root packet))
      /\ ((forall m', reviewers d !! (thread, m') = None) \/ is_Some (reviewers d !! (thread, reviewer))).
Proof.
  rewrite <- named_reviewer_spec, <- bound_to_packet_spec, <- !independent_spec.
  unfold approval_counts, standing_approval. rewrite !andb_true_iff, !bool_decide_eq_true.
  destruct (rv_actor r) as [a|]; cbn; rewrite ?andb_true_iff; tauto.
Qed.

(** The counted approvers are exactly those. *)
Lemma elem_of_approvers d thread t c m :
  threads d !! thread = Some t -> channels d !! t_channel t = Some c ->
  m ∈ approvers d thread <-> approved_by d thread t (c_ws c) m.
Proof.
  intros Ht Hc. unfold approvers. rewrite Ht, Hc, elem_of_remove_dups, list_elem_of_fmap. split.
  - intros ([reviewer r] & -> & Hin). apply elem_of_bfilter in Hin as [Hin Hp]. cbn in *.
    unfold reviews_of in Hin. apply list_elem_of_fmap in Hin as ([[th rv] r'] & [= -> ->] & Hin).
    apply elem_of_bfilter in Hin as [Hin Hth]. apply elem_of_map_to_list in Hin. cbn in *. bool_simpl. subst.
    apply approval_counts_spec in Hp as (? & ? & ? & ? & ? & ?). by exists rv, r'.
  - intros (reviewer & r & Hr & ? & ? & -> & ? & ? & ? & ?). exists (reviewer, r). split; [done|].
    apply elem_of_bfilter. cbn. split; [|by apply approval_counts_spec].
    unfold reviews_of. apply list_elem_of_fmap. exists (thread, reviewer, r). split; [done|].
    apply elem_of_bfilter. rewrite elem_of_map_to_list. split; [done|]. by apply bool_decide_eq_true_2.
Qed.

Lemma approvers_NoDup d thread : NoDup (approvers d thread).
Proof. unfold approvers. repeat case_match; try constructor. apply NoDup_remove_dups. Qed.

(** Every reason a close of [thread] by [actor] needs. *)
Record close_justified (d : Db) (thread : N) (t : ThreadRow) (actor : N) : Prop := {
  cj_approvals : (0 < required_count d thread)%Z ->
    exists c approved,
      channels d !! t_channel t = Some c /\ NoDup approved
      /\ (required_count d thread <= Z.of_nat (length approved))%Z
      /\ forall m, m ∈ approved -> approved_by d thread t (c_ws c) m;
  cj_evidence : (0 < required_count d thread)%Z -> forall packet, latest_packet d thread = Some packet ->
    exists pinned shown,
      pk_thread pinned = thread /\ pk_root pinned = pk_root packet /\ evidence d thread = Ok shown
      /\ em_result (pk_manifest pinned) = em_result shown.1.1
      /\ em_artifacts (pk_manifest pinned) = em_artifacts shown.1.1;
  cj_unrefuted : forall r, r ∈ references d -> rf_dst_kind (rf_key r) = SideThread -> rf_dst (rf_key r) = thread ->
    rf_relation (rf_key r) <> lit "refutes";
  cj_landed : forall g, land_gates d !! thread = Some g ->
    exists v, lg_verdict g = Some v /\ lv_status v = Pass /\ lv_land v = Green
              /\ is_Some (member_skills d !! (lv_by v, LAND_GATE_SKILL))
              /\ t_owner t <> Some (lv_by v) /\ t_assignee t <> Some (lv_by v)
              /\ thread_workers d !! (thread, lv_by v) = None;
  cj_duties : is_Some (t_owner t) ->
    t_assignee t <> Some actor /\ (thread_workers d !! (thread, actor) = None \/ outside_approval d thread = true)
}.

Lemma refuted_false d thread :
  refuted d thread = false ->
  forall r, r ∈ references d -> rf_dst_kind (rf_key r) = SideThread -> rf_dst (rf_key r) = thread ->
    rf_relation (rf_key r) <> lit "refutes".
Proof.
  unfold refuted. rewrite existsb_false. intros Hall r Hr Hk Hd Hrel. specialize (Hall r Hr).
  by rewrite !bool_decide_eq_true_2 in Hall.
Qed.

Lemma land_met_spec d thread t g :
  threads d !! thread = Some t -> land_gates d !! thread = Some g -> land_met d thread = true ->
  exists v, lg_verdict g = Some v /\ lv_status v = Pass /\ lv_land v = Green
            /\ is_Some (member_skills d !! (lv_by v, LAND_GATE_SKILL))
            /\ t_owner t <> Some (lv_by v) /\ t_assignee t <> Some (lv_by v)
            /\ thread_workers d !! (thread, lv_by v) = None.
Proof.
  intros Ht Hg. unfold land_met, gate_reading. rewrite Hg, Ht. destruct (lg_verdict g) as [v|]; [|done].
  unfold qualifies, is_qualifying_pass, recorder_worked, skilled, has_worked_on. cbn. intros. bool_simpl.
  exists v. split_and!; try done. by apply eq_None_not_Some.
Qed.

Lemma evidence_stands_spec d thread packet :
  latest_packet d thread = Some packet -> evidence_stands d thread = true ->
  exists pinned shown,
    pk_thread pinned = thread /\ pk_root pinned = pk_root packet /\ evidence d thread = Ok shown
    /\ em_result (pk_manifest pinned) = em_result shown.1.1
    /\ em_artifacts (pk_manifest pinned) = em_artifacts shown.1.1.
Proof.
  unfold evidence_stands, latest_root, unchanged. intros ->. cbn.
  destruct (first_by newer _) as [p|] eqn:Ep; [|done]. destruct (evidence d thread) as [e|]; [|done].
  apply first_by_elem, elem_of_bfilter in Ep as [_ Ep]. unfold same_evidence. intros. bool_simpl. exists p, e. by split_and!.
Qed.

Lemma gates_justify d thread t actor :
  threads d !! thread = Some t -> gates_met d thread = true -> barred d thread t actor Closed = false ->
  close_justified d thread t actor.
Proof.
  intros Ht Hg Hb. unfold gates_met, reviews_met in Hg. bool_simpl. constructor.
  - intros Hr. apply orb_true_iff in H2 as [?|?]; bool_simpl; [lia|].
    destruct (channels d !! t_channel t) as [c|] eqn:Hc.
    + exists c, (approvers d thread). split_and!; [done|apply approvers_NoDup|done|].
      intros m. by apply elem_of_approvers.
    + unfold approvers in H2. rewrite Ht, Hc in H2. cbn in H2. lia.
  - intros Hr packet Hp. apply orb_true_iff in H2 as [?|?]; bool_simpl; [lia|]. by apply evidence_stands_spec.
  - by apply refuted_false.
  - intros g Hg. by eapply land_met_spec.
  - intros Ho. unfold barred in Hb. rewrite bool_decide_eq_true_2 in Hb by done. cbn in Hb.
    apply orb_false_iff in Hb as [Ha Hw]. split; [by bool_simpl|]. apply andb_false_iff in Hw as [Hw|Hw].
    + left. unfold has_worked_on in Hw. apply eq_None_not_Some. by bool_simpl.
    + right. by apply negb_false_iff.
Qed.

(** A transition that reports a close was a [Close]. *)
Lemma transition_closed_action thread actor action w r spawned w' :
  transition_in_spawning thread actor action w = (Ok (r, spawned), w') -> tt_to r = Closed -> action = Close.
Proof.
  unfold transition_in_spawning. intros E Hc. do 4 run_step E. do 4 run_step E. apply ret_Ok in E as [[= -> ->] ->].
  unfold land_in_tx in E7. do 8 run_step E7. apply ret_Ok in E7 as [-> _]. cbn in Hc. subst.
  unfold lift in E3. destruct (apply (t_state a0) action) eqn:Ea; [|done]. apply ret_Ok in E3 as [<- _].
  destruct (t_state a0), action; done.
Qed.

Lemma closed_justified thread actor action w r spawned w' :
  transition_in_spawning thread actor action w = (Ok (r, spawned), w') -> tt_to r = Closed ->
  exists t, threads (db w) !! thread = Some t /\ close_justified (db w) thread t actor.
Proof.
  intros E Hc. pose proof (transition_closed_action _ _ _ _ _ _ _ E Hc) as ->.
  pose proof (close_run thread actor w) as Hr. rewrite E in Hr. destruct Hr as (Hcl & _ & t & Ht & _).
  exists t. split; [done|]. unfold closable in Hcl. rewrite Ht in Hcl. bool_simpl. by apply gates_justify.
Qed.

(** What recording a close's reference changes of what the gates read: nothing
    but the references, which grow. *)
Definition references_grown (d d' : Db) : Prop :=
  exists refs l o, d' = upd_outbox o (upd_log l (upd_references (fun x => x ++ refs) d)).

Lemma references_grown_refl d : references_grown d d.
Proof. exists [], (fun l => l), (fun o => o). destruct d. unfold upd_references. cbn. by rewrite app_nil_r. Qed.

Lemma record_reference_grown src dst kind w evs w' :
  record_reference src dst kind w = (Ok evs, w') -> references_grown (db w) (db w').
Proof.
  unfold record_reference. intros E. do 2 run_step E. injection E0 as <- <-. injection E1 as <- <-. run_step E.
  apply read_Ok in E0 as [-> ->]. destruct (existsb _ _); [apply ret_Ok in E as [_ ->]; apply references_grown_refl|].
  do 2 run_step E. injection E0 as _ <-. injection E1 as <- <-. run_step E. apply ret_Ok in E as [_ ->].
  unfold append_in_tx in E0.
  match type of E0 with append_event ?sl ?ev ?w1 = _ => destruct (append_event_frame sl ev w1) as [_ Hd]; rewrite E0 in Hd end.
  cbn in Hd. destruct Hd as [->|(l & o & ->)]; [|by eexists _, _, o].
  eexists _, (fun x => x), (fun x => x). by destruct (db w).
Qed.

Lemma gates_before_reference d d' thread t actor to :
  references_grown d d' -> gates_met d' thread = true -> barred d' thread t actor to = false ->
  gates_met d thread = true /\ barred d thread t actor to = false.
Proof.
  intros (refs & l & o & ->) Hg Hb. split; [|exact Hb]. unfold gates_met in *.
  apply andb_true_iff in Hg as [Hg Hland]. apply andb_true_iff in Hg as [Hrev H2]. apply negb_true_iff in H2.
  change (reviews_met d thread = true) in Hrev. change (land_met d thread = true) in Hland. rewrite Hrev, Hland.
  assert (forall p, existsb p (references (upd_outbox o (upd_log l (upd_references (fun x => x ++ refs) d))))
                    = existsb p (references d) || existsb p refs) as Happ by (intros; apply existsb_app).
  unfold refuted in *. rewrite Happ in H2. bool_simpl. by rewrite H2.
Qed.

Lemma abandoned_justified thread actor m close new w r evs w' :
  close_abandoned thread actor m close new w = (Ok (r, evs), w') -> is_Some (thread_results (db w) !! thread) ->
  exists t, threads (db w) !! thread = Some t /\ close_justified (db w) thread t actor.
Proof.
  unfold close_abandoned. intros E Hres. apply commit_Ok in E. do 2 run_step E. apply read_Ok in E0 as [-> ->].
  apply ok_or_Ok in E1 as [Ht ->]. do 3 run_step E. do 2 run_step E.
  destruct (live a0); [|done]. apply ret_Ok in E0 as [_ ->]. destruct (not_finished a0); [|done]. apply ret_Ok in E1 as [_ ->].
  destruct (bool_decide (t_created_by a0 = Some actor) || _ || _); [|done]. apply ret_Ok in E2 as [_ ->].
  unfold lift in E3. destruct (close_relation thread close) as [rel|]; [|done]. apply ret_Ok in E3 as [-> ->].
  assert (references_grown (db w) (db w4)) as Hgrown.
  { destruct rel as [[[[src dst] kind] other]|]; [|apply ret_Ok in E4 as [_ ->]; apply references_grown_refl].
    do 2 run_step E4. unfold thread_scope_in_tx in E0. run_step E0. apply read_Ok in E2 as [-> ->].
    apply ok_or_Ok in E0 as [_ ->]. apply read_Ok in E1 as [-> ->]. 
    match type of E4 with (if ?b then _ else _) _ = _ => destruct b; [|done] end.
    by eapply record_reference_grown. }
  run_step E. apply read_Ok in E0 as [-> ->]. destruct Hgrown as (refs & l & o & Hd).
  run_step E. rewrite bool_decide_eq_true_2 in E0 by (by rewrite Hd).
  destruct (decides_seq _ _ _ _ (duties_decides thread a0 actor Closed) (close_gates_decides thread) w4) as [e Hg].
  rewrite Hg in E0. destruct (negb _ && _) eqn:Eg; [|done]. bool_simpl.
  destruct (gates_before_reference (db w) (db w4) thread a0 actor Closed) as [Hm Hb]; [by exists refs, l, o|done|done|].
  exists a0. split; [done|]. by apply gates_justify.
Qed.

(** Every call that closes a thread past its gates. *)
Definition closes_past_gates (thread actor : N) (w : World) : Prop :=
  (exists action r evs w', transition_with_event thread actor action w = (Ok (r, evs), w') /\ tt_to r = Closed)
  \/ (exists action r w', transition thread actor action w = (Ok r, w') /\ tt_to r = Closed)
  \/ (exists maintainer close new r evs w', close_abandoned thread actor maintainer close new w = (Ok (r, evs), w')
                                           /\ is_Some (thread_results (db w) !! thread)).

Lemma closing_justified thread actor w :
  closes_past_gates thread actor w ->
  exists t, threads (db w) !! thread = Some t /\ close_justified (db w) thread t actor.
Proof.
  intros [(action & r & evs & w' & E & Hc)|[(action & r & w' & E & Hc)|(mt & close & new & r & evs & w' & E & Hres)]].
  - unfold transition_with_event in E. apply commit_Ok in E. do 4 run_step E.
    destruct a as [r0 spawned]. apply ret_Ok in E as [[= -> _] _]. by eapply closed_justified.
  - unfold transition in E. apply commit_Ok in E. do 3 run_step E.
    apply ret_Ok in E as [-> _]. unfold transition_in_tx in E0. run_step E0. destruct a2 as [r0 spawned].
    apply ret_Ok in E0 as [-> _]. by eapply closed_justified.
  - by eapply abandoned_justified.
Qed.

(** C1: no thread closes on its worker's word. Whenever a transition reports that it closed a thread, and whenever a thread with a posted result is closed as abandoned, the tables it started from held every reason: at least the required number of distinct approvers, each a live member of the workspace who is not the owner, not the holder and never was the holder, with an undismissed approval of what the latest hand-off showed and, where reviewers are named, one of them; the result and linked artifacts are still those that hand-off pinned; nothing refutes the thread; an armed land gate has a green pass by a skilled member outside the work; and on an owned thread the closer is not its holder, and a past holder only with an approval from outside. *)
Theorem close_is_justified thread actor :
  (forall action w r evs w',
     transition_with_event thread actor action w = (Ok (r, evs), w') -> tt_to r = Closed ->
     exists t, threads (db w) !! thread = Some t /\ close_justified (db w) thread t actor)
  /\ (forall action w r w',
        transition thread actor action w = (Ok r, w') -> tt_to r = Closed ->
        exists t, threads (db w) !! thread = Some t /\ close_justified (db w) thread t actor)
  /\ (forall maintainer close new w r evs w',
        close_abandoned thread actor maintainer close new w = (Ok (r, evs), w') ->
        is_Some (thread_results (db w) !! thread) ->
        exists t, threads (db w) !! thread = Some t /\ close_justified (db w) thread t actor).
Proof.
  split_and!; intros; apply closing_justified.
  - left. by do 4 eexists.
  - right. left. by do 3 eexists.
  - right. right. by do 6 eexists.
Qed.

(** C19: a close passes exactly the gates. A request to close a thread goes through exactly when the thread is live and in review, separation of duties does not bar the caller, the required reviews are met with unchanged evidence, nothing refutes it, its land gate is not armed or has a qualifying pass, its parent's state allows it and the caller is a member; it then moves that thread alone to closed, ends its claim and appends one transition. *)
Theorem close_passes_gates thread actor w :
  match transition_in_spawning thread actor Close w with
  | (Ok (r, spawned), w') =>
      closable (db w) thread actor = true /\ spawned = []
      /\ exists t id now,
           threads (db w) !! thread = Some t
           /\ tt_thread r = move_to Closed now t /\ t_assignee (tt_thread r) = None /\ t_lease (tt_thread r) = None
           /\ threads (db w') = <[thread := tt_thread r]> (threads (db w))
           /\ thread_transitions (db w')
              = thread_transitions (db w) ++ [transition_row id thread InReview Closed actor now]
  | (Err _, _) => closable (db w) thread actor = false
  end.
Proof.
  pose proof (close_run thread actor w) as Hr.
  destruct (transition_in_spawning thread actor Close w) as [[[r spawned]|e] w'] eqn:E; [|done].
  destruct Hr as (Hc & -> & t & Ht & id & now & -> & Hth & Htr). split; [done|]. split; [done|]. exists t, id, now.
  unfold closable in Hc. rewrite Ht in Hc. bool_simpl. cbn. split_and!; [done..|]. by rewrite Htr; f_equal; f_equal; congruence.
Qed.

(** ** Whoever held a thread stays out of its approvals *)

(** C6: having held a thread is for ever. Whoever held a thread at any time is, after any sequence of further store operations, among no approvals a close counts; and when it closes an owned thread itself, by a transition or, the thread having a result, as abandoned, it no longer holds it and an approval from outside stands. (Cancelling a thread, and abandoning one that has no result yet, ask for no approval of anybody.) *)
Theorem past_holder_never_approves ops1 ops2 w thread t m :
  holders_recorded (db w) ->
  threads (db (run ops1 w)) !! thread = Some t -> t_assignee t = Some m ->
  let w' := run ops2 (run ops1 w) in
  (m ∉ approvers (db w') thread)
  /\ (forall t', threads (db w') !! thread = Some t' -> is_Some (t_owner t') -> closes_past_gates thread m w' ->
        t_assignee t' <> Some m /\ outside_approval (db w') thread = true).
Proof.
  intros Hw Ht Ha w'. set (d := db w'). destruct (run_workers ops1 w Hw) as [Hw1 _]. destruct (run_workers ops2 _ Hw1) as [_ Hg].
  assert (is_Some (thread_workers d !! (thread, m))) as Hrec by (apply Hg; by eapply Hw1). split.
  - intros Hm. destruct (threads d !! thread) as [t'|] eqn:Ht'.
    2: { unfold approvers in Hm. rewrite Ht' in Hm. by apply not_elem_of_nil in Hm. }
    destruct (channels d !! t_channel t') as [c|] eqn:Hc.
    2: { unfold approvers in Hm. rewrite Ht', Hc in Hm. by apply not_elem_of_nil in Hm. }
    destruct (proj1 (elem_of_approvers d thread t' c m Ht' Hc) Hm) as (? & ? & _ & _ & _ & _ & _ & (_ & _ & _ & Hnone) & _).
    rewrite Hnone in Hrec. by destruct Hrec.
  - intros t' Ht' Ho (t1 & Ht1 & [_ _ _ _ Hd])%closing_justified. fold d in Ht1, Hd. simplify_eq.
    destruct (Hd Ho) as [? [Hn|?]]; [|done]. rewrite Hn in Hrec. by destruct Hrec.
Qed.

(** ** The standings agree with the gates *)

(** The land-gate standing an operator reads is the gate the close enforces: a close is let through exactly when the standing says landable, and a refusal says that no pass is recorded when the standing has no pointer, and the standing's colour otherwise. *)
Theorem landable_agrees thread w :
  let s := standing_of (db w) thread in
  match land_gate_in_tx thread w with
  | (Ok _, w') => w' = w /\ ls_landable s = true
  | (Err e, w') => w' = w /\ ls_landable s = false /\ ls_required s = true
                   /\ e = Conflict (match ls_pointer s with None => LandGateRequired | Some _ => LandGateIs (ls_land s) end)
  end.
Proof.
  cbv zeta. unfold land_gate_in_tx, standing_of, gate_reading, bind, read. cbn.
  destruct (land_gates (db w) !! thread) as [g|]; [|done]. destruct (threads (db w) !! thread) as [t|]; [|done].
  destruct (lg_verdict g) as [v|]; cbn; [|done]. unfold qualifies. cbn.
  destruct (is_qualifying_pass _ _ _ _ _ _ _) eqn:E; cbn; [done|]. rewrite bool_decide_eq_false_2; [done|]. by case_match.
Qed.
End laws.

(** ** On the sample store *)

Import Sample.

Lemma close_is_justified_witness :
  exists t, threads (db approved) !! 101%N = Some t /\ close_justified (db approved) 101 t 6.
Proof.
  destruct (run_value (transition_with_event 101 6 Close) approved (fun r => bool_decide (tt_to r.1 = Closed)))
    as ([r evs] & w' & E & Hc); [by vm_compute|]. apply bool_decide_eq_true in Hc.
  by apply (proj1 (close_is_justified 101 6) Close approved r evs w').
Defined.

(** Member 7 held thread 101, handed it over, was approved by member 6, gave the
    claim up and then closes it. *)
Definition to_review : list Op :=
  [OSide (SSetRequirement 101 1 (Some 2%Z) false (fun _ => note)); OSide (SRequireLandGate 101);
   OSide (SSetResult 101 7 50 (Object [])); OFlow (FTransition 101 7 StartReview true);
   OSide (SGrantSkill 6 LAND_GATE_SKILL note); OSide (SSetPointer 101 6 Pass (Some (lit "abc")) None);
   OFlow (FSubmitReview 101 7 Approve None None None);
   OFlow (FSubmitReview 101 6 Approve None (latest_root (db handed) 101) None); OUnassign 101 None].

Lemma past_holder_never_approves_witness :
  (7%N ∉ approvers (db (run to_review (run [OSetOwner 101 (Some 5%N); OClaim 101 7 true] world))) 101)
  /\ outside_approval (db (run to_review (run [OSetOwner 101 (Some 5%N); OClaim 101 7 true] world))) 101 = true.
Proof.
  destruct (past_holder_never_approves [OSetOwner 101 (Some 5%N); OClaim 101 7 true] to_review world 101
              (default (free []) (threads (db (run [OSetOwner 101 (Some 5%N); OClaim 101 7 true] world)) !! 101%N)) 7)
    as [Ha Hc]; [apply world_recorded|vm_compute; reflexivity|vm_compute; reflexivity|].
  split; [exact Ha|].
  refine (proj2 (Hc (default (free []) (threads (db (run to_review (run [OSetOwner 101 (Some 5%N); OClaim 101 7 true] world))) !! 101%N))
                    _ _ _)); [vm_compute; reflexivity|vm_compute; by eexists|].
  left. destruct (run_value (transition_with_event 101 7 Close) (run to_review (run [OSetOwner 101 (Some 5%N); OClaim 101 7 true] world))
                    (fun r => bool_decide (tt_to r.1 = Closed))) as ([r evs] & w' & E & Hr); [by vm_compute|].
  apply bool_decide_eq_true in Hr. exists Close, r, evs, w'. split; [exact E|exact Hr].
Defined.
