(* ===== verification/ReviewLaws.v ===== *)
(** * Laws of reviews

    What a verdict does to its thread: the standing shown to reviewers against
    the gate, the send-back of a change request, the cap on rounds of review,
    and the guards on lowering a requirement. *)

From stdpp Require Import strings.
From S2P Require Import Prelude Text Json EventChain EventLog Footprint Fsm Review Db Budget TxLogic AuditTrail Claimability Threads Deps Attributes Gates LandGate Packets Landing Reviews Closing Dispatch Governance StoreRels FlowLogic StoreOps ClaimLaws AuditLaws StoreLaws LandingLaws Samples.
Local Open Scope tx_scope.

Section laws.
Context `{JsonText, Sha256, Env}.

(** ** The standing against the gate *)

Lemma evidence_changed_run thread w :
  evidence_changed thread w = (Ok (negb (evidence_stands (db w) thread)), w).
Proof.
  unfold evidence_changed, evidence_stands, latest_root_in_tx, bind, read. cbn.
  destruct (latest_root (db w) thread) as [r|]; [|done].
  destruct (ensure_unchanged_decides thread r w) as [e ->]. by destruct (unchanged (db w) thread r).
Qed.

Lemma review_status_run thread w :
  exists st, review_status thread w = (Ok st, w)
    /\ st_met st = (required_count (db w) thread =? 0)%Z
                   || (required_count (db w) thread
                       <=? if (0 <? Z.of_nat (length (status_approvers (db w) thread)))%Z
                              && negb (evidence_stands (db w) thread)
                           then 0 else Z.of_nat (length (status_approvers (db w) thread)))%Z.
Proof.
  unfold review_status. do 2 (erewrite bind_Ok by reflexivity). cbv beta.
  destruct (0 <? _)%Z; cbn [andb].
  - erewrite bind_Ok by apply evidence_changed_run. erewrite bind_Ok by reflexivity. by eexists.
  - erewrite bind_Ok by reflexivity. erewrite bind_Ok by reflexivity. by eexists.
Qed.

(** An approval the gate counts is one the standing counts. *)
Lemma counts_in_status d thread t ws reviewer r :
  approval_counts d thread t ws reviewer r
  = status_counts d thread t reviewer r && live_member d ws reviewer
    && match rv_actor r with None => true | Some a => live_member d ws a end.
Proof.
  apply eq_true_iff_eq. unfold approval_counts, status_counts. destruct (rv_actor r) as [a|];
    rewrite !andb_true_iff; tauto.
Qed.

Lemma approvers_le_status d thread :
  length (approvers d thread) <= length (status_approvers d thread).
Proof.
  apply submseteq_length, NoDup_submseteq; [apply approvers_NoDup|]. intros m. unfold approvers, status_approvers.
  destruct (threads d !! thread) as [t|]; [|done]. destruct (channels d !! t_channel t) as [c|]; [|by intros ?%not_elem_of_nil].
  rewrite !elem_of_remove_dups, !list_elem_of_fmap. intros ([reviewer r] & -> & Hin).
  apply elem_of_bfilter in Hin as [Hin Hp]. cbn in Hp. rewrite counts_in_status in Hp. bool_simpl.
  exists (reviewer, r). split; [done|]. by apply elem_of_bfilter.
Qed.

(** The reviewers of a thread, and who acted for them, are live members. *)
Definition reviewers_live (d : Db) (thread ws : N) : Prop :=
  forall reviewer r, reviews d !! (thread, reviewer) = Some r ->
    live_member d ws reviewer = true /\ forall a, rv_actor r = Some a -> live_member d ws a = true.

Lemma approvers_status d thread ws ch :
  thread_scope d thread = Some (ws, ch) -> reviewers_live d thread ws -> approvers d thread = status_approvers d thread.
Proof.
  unfold thread_scope, approvers, status_approvers. destruct (threads d !! thread) as [t|]; [|done]. cbn.
  destruct (channels d !! t_channel t) as [c|]; [|done]. cbn. intros [= <- _] Hl. do 2 f_equal.
  apply List.filter_ext_in. intros [reviewer r] Hin%list_elem_of_In. cbn. rewrite counts_in_status.
  unfold reviews_of in Hin. apply list_elem_of_fmap in Hin as ([[th rv] r'] & [= -> ->] & Hin).
  apply elem_of_bfilter in Hin as [Hin Hth]. apply elem_of_map_to_list in Hin. cbn in *. bool_simpl. subst.
  destruct (Hl _ _ Hin) as [-> Ha]. rewrite andb_true_r. destruct (rv_actor r') as [a|]; [rewrite (Ha a) by done|];
    by rewrite andb_true_r.
Qed.

(** The review standing shown to reviewers against the gate that closes. The standing is always answered and changes nothing; whenever the gate would let a close through it says the requirement is met, and when it says so, on a thread nothing refutes and whose reviewers are still live members, the gate lets the close through. *)
Theorem review_status_agrees thread w :
  exists st, review_status thread w = (Ok st, w)
    /\ ((review_gate_in_tx thread w).1 = Ok tt -> st_met st = true)
    /\ (forall ws ch, thread_scope (db w) thread = Some (ws, ch) -> reviewers_live (db w) thread ws ->
          refuted (db w) thread = false -> st_met st = true -> (review_gate_in_tx thread w).1 = Ok tt).
Proof.
  destruct (review_status_run thread w) as (st & Hst & Hmet). exists st. split; [done|]. rewrite Hmet. clear Hst Hmet.
  destruct (review_gate_decides thread w) as [e ->]. cbn. unfold reviews_met.
  pose proof (approvers_le_status (db w) thread) as Hle. split.
  - destruct (_ && negb (refuted (db w) thread)) eqn:Eg; [|done]. intros _. bool_simpl.
    apply orb_true_iff in H2 as [?|?]; bool_simpl.
    + apply orb_true_iff. right. apply Z.leb_le. case_match; lia.
    + apply orb_true_iff. right. rewrite H4, andb_false_r. apply Z.leb_le. lia.
  - intros ws ch Hs Hl -> Hmet. rewrite andb_true_r, (approvers_status _ _ ws ch) by done.
    apply orb_true_iff in Hmet as [?|Hmet]; bool_simpl.
    { by rewrite (proj2 (Z.leb_le _ 0)) by lia. }
    destruct (Z.leb_spec (required_count (db w) thread) 0); [done|]. cbn.
    destruct (evidence_stands (db w) thread); cbn in *.
    + rewrite andb_false_r in Hmet. by rewrite (proj2 (Z.leb_le _ _) Hmet).
    + rewrite andb_true_r in Hmet. case_match; bool_simpl; lia.
Qed.

(** ** Sending a thread back *)

(** What follows a send-back in its transaction leaves the verdicts, the history
    and every state alone. *)
Definition settled (w w' : World) : Prop :=
  reviews (db w') = reviews (db w) /\ thread_transitions (db w') = thread_transitions (db w)
  /\ forall id, t_state <$> threads (db w') !! id = t_state <$> threads (db w) !! id.

Lemma settled_same w w' :
  reviews (db w') = reviews (db w) -> thread_transitions (db w') = thread_transitions (db w) ->
  threads (db w') = threads (db w) -> settled w w'.
Proof. intros Hr Ht Hth. split_and!; [done..|]. by rewrite Hth. Qed.

Global Instance settled_claims : ClaimRel settled.
Proof.
  constructor; try (intros; by apply settled_same).
  - constructor; [intros; by apply settled_same|]. intros w1 w2 w3 _ _ (Hr & Ht & Hs) (Hr' & Ht' & Hs').
    split_and!; [congruence..|]. intros id. by rewrite Hs', Hs.
  - intros n sl e w _. unfold kept_at. destruct (append_event_frame sl e w) as [-> [Hd|(l & o & Hd)]];
      (split; [done|]); apply settled_same; by rewrite Hd.
Qed.

Lemma settled_state_changed n a r : keeps n settled (state_changed_in_tx a r).
Proof. unfold state_changed_in_tx. keeps_plain. Qed.

Lemma settled_escalate n ws c thread r note : keeps n settled (escalate_round_cap ws c thread r note).
Proof.
  unfold escalate_round_cap, round_standing, open_review_round_cap, gate_fks. keeps_plain.
  - apply keeps_update; [apply _|]. intros w t _ Ht _. split_and!; [done..|]. intros id. cbn.
    destruct (decide (id = thread)) as [->|Hne]; [by rewrite lookup_insert_eq, Ht|by rewrite lookup_insert_ne].
  - apply keeps_write. intros w. by apply settled_same.
Qed.

(** The rounds since the last accepted cap are below the cap, or the cap is
    waiting on a person. *)
Definition within_cap (d : Db) (thread : N) : Prop :=
  max_rounds_of d thread = 0%Z \/ (send_backs_of d thread < max_rounds_of d thread)%Z \/ cap_pending d thread = true.

Lemma pending_cap d id thread g :
  approval_gates d !! id = Some g -> g_thread g = Some thread -> g_round_cap g = true -> g_state g = GPending ->
  cap_pending d thread = true.
Proof.
  intros Hg Ht Hc Hs. unfold cap_pending. apply existsb_true. exists (id, g).
  split; [by apply elem_of_map_to_list|]. cbn. by rewrite Ht, Hc, Hs, !bool_decide_eq_true_2.
Qed.

Lemma open_cap_run ws thread m prompt w g w' :
  open_review_round_cap ws thread m prompt w = (Ok g, w') ->
  approval_gates (db w') !! g.1 = Some g.2 /\ g_thread g.2 = Some thread /\ g_round_cap g.2 = true /\ g_state g.2 = GPending.
Proof.
  unfold open_review_round_cap. intros E. do 4 run_step E. apply ret_Ok in E as [-> ->]. injection E3 as _ <-. cbn.
  by rewrite lookup_insert_eq.
Qed.

Lemma escalate_within ws c thread r note w x w' :
  escalate_round_cap ws c thread r note w = (Ok x, w') -> within_cap (db w') thread.
Proof.
  unfold escalate_round_cap, round_standing. intros E. run_step E. apply read_Ok in E0 as [-> ->].
  destruct (_ || _ || _) eqn:Ec.
  - apply ret_Ok in E as [_ ->]. unfold within_cap. apply orb_true_iff in Ec as [Ec|Ec]; [apply orb_true_iff in Ec as [Ec|Ec]|];
      bool_simpl; auto.
  - do 4 run_step E. apply ret_Ok in E as [_ ->]. apply open_cap_run in E2 as (Hg & Ht & Hc & Hs). right. right.
    match type of E3 with append_in_tx ?ev ?w1 = _ =>
      destruct (append_event_frame (fun v => v) ev w1) as [_ Hd]; unfold append_in_tx in E3; rewrite E3 in Hd end.
    cbn in Hd. eapply (pending_cap _ a1.1 thread a1.2); [|done..]. destruct Hd as [->|(l & o & ->)]; done.
Qed.

Lemma reopen_run thread actor w r w' :
  transition_in_tx thread actor RequestChanges w = (Ok r, w') ->
  exists t, threads (db w) !! thread = Some t /\ t_state t = InReview /\ moved thread t actor Open (db w) (db w') r.
Proof.
  unfold transition_in_tx, transition_in_spawning. intros E. run_step E. apply ret_Ok in E as [-> ->]. do 4 run_step E0.
  apply read_Ok in E as [-> ->]. apply ok_or_Ok in E1 as [Ht ->]. destruct (live a1); [|done]. apply ret_Ok in E2 as [_ ->].
  unfold lift in E3. destruct (apply (t_state a1) RequestChanges) as [to|] eqn:Ea; [|done]. apply ret_Ok in E3 as [-> ->].
  assert (t_state a1 = InReview /\ to = Open) as [Hs ->] by (destruct (t_state a1); naive_solver).
  do 4 run_step E0. destruct (duties_decides thread a1 actor Open w) as [err Hd]. rewrite Hd in E.
  destruct (negb _); [|done]. injection E as _ <-. apply ret_Ok in E1 as [_ ->]. apply ret_Ok in E2 as [_ ->].
  apply ret_Ok in E0 as [-> ->]. pose proof (land_run thread a1 actor Open w Ht) as Hl. rewrite E3 in Hl.
  destruct Hl as (_ & _ & Hm). by exists a1.
Qed.

(** No approval of the thread is left standing. *)
Lemma dismissed_none thread now m reviewer r :
  dismiss_approvals thread now m !! (thread, reviewer) = Some r -> standing_approval r = false.
Proof.
  unfold dismiss_approvals. rewrite map_lookup_imap. destruct (m !! (thread, reviewer)) as [r0|]; [|done]. cbn.
  intros [= <-]. rewrite bool_decide_eq_true_2 by done. cbn. destruct (standing_approval r0) eqn:Es; [|done].
  unfold standing_approval. cbn. by rewrite andb_false_r.
Qed.

Lemma no_approvers d thread :
  (forall reviewer r, reviews d !! (thread, reviewer) = Some r -> standing_approval r = false) -> approvers d thread = [].
Proof.
  intros Hn. unfold approvers. destruct (threads d !! thread) as [t|]; [|done].
  destruct (channels d !! t_channel t) as [c|]; [|done]. rewrite bfilter_none; [done|].
  intros [reviewer r] Hin. unfold reviews_of in Hin. apply list_elem_of_fmap in Hin as ([[th rv] r'] & [= -> ->] & Hin).
  apply elem_of_bfilter in Hin as [Hin Hth]. apply elem_of_map_to_list in Hin. cbn in *. bool_simpl. subst.
  unfold approval_counts. rewrite (Hn _ _ Hin). by rewrite andb_false_r.
Qed.

Lemma thread_fk_Ok t w r w' : thread_fk t w = (Ok r, w') -> w' = w.
Proof. unfold thread_fk. intros E. run_step E. apply read_Ok in E0 as [-> ->]. destruct (bool_decide _); [by apply ret_Ok in E as [_ ->]|done]. Qed.

Lemma verify_root_Ok thread r w u w' : verify_root_in_tx thread r w = (Ok u, w') -> w' = w.
Proof.
  unfold verify_root_in_tx, latest_root_in_tx. intros E. run_step E. apply read_Ok in E0 as [-> ->].
  destruct (latest_root (db w) thread) as [l|]; [|done]. destruct (decide (l = r)); [|done].
  destruct (ensure_unchanged_decides thread l w) as [err He]. rewrite He in E. destruct (unchanged _ _ _); [|done].
  by injection E as _ <-.
Qed.

Lemma scope_Ok t w r w' : thread_scope_in_tx t w = (Ok r, w') -> w' = w.
Proof. unfold thread_scope_in_tx. intros E. run_step E. apply read_Ok in E0 as [-> ->]. by apply ok_or_Ok in E as [_ ->]. Qed.

Lemma keeps_Ok {A} n (R : World -> World -> Prop) (m : Tx A) w r w' : keeps n R m -> m w = (r, w') -> n <= ids w -> R w w'.
Proof. intros Hk E Hn. specialize (Hk w Hn) as [_ Hk]. by rewrite E in Hk. Qed.

(** What a submitted verdict leaves, by whether it sends the thread back. *)
Lemma submit_cases thread reviewer decision note root head w s w' :
  submit_review_on thread reviewer decision note root head w = (Ok s, w') ->
  if bool_decide (decision = RequestChangesDecision) && sends_back (db w) thread reviewer (delegate_acting_for reviewer)
  then
    is_Some (sb_reopened s) /\ within_cap (db w') thread
    /\ exists t w2 r, threads (db w) !! thread = Some t /\ t_state t = InReview
         /\ moved thread t reviewer Open (db w) (db w2) r /\ settled w2 w'
         /\ forall rv rr, reviews (db w2) !! (thread, rv) = Some rr -> standing_approval rr = false
  else
    sb_reopened s = None /\ threads (db w') = threads (db w) /\ thread_transitions (db w') = thread_transitions (db w).
Proof.
  unfold submit_review_on. intros E. do 9 run_step E.
  assert (w0 = w) as -> by (destruct root; [by eapply verify_root_Ok|by apply ret_Ok in E0 as [_ ->]]).
  apply read_Ok in E1 as [-> ->]. unfold lift in E2. destruct (verdict_head _ _) as [hd|]; [|done]. apply ret_Ok in E2 as [-> ->].
  injection E3 as <- <-. apply thread_fk_Ok in E4 as ->. apply member_fk_Ok in E5 as ->. apply read_Ok in E6 as [-> ->].
  injection E7 as _ <-. injection E8 as _ <-. clear E0. cbn [db ticks ids] in E.
  match type of E with bind _ _ ?w1 = _ => set (w1' := w1) in E end.
  set (back := bool_decide (decision = RequestChangesDecision) && sends_back (db w) thread reviewer (delegate_acting_for reviewer)).
  run_step E. assert (a0 = back /\ w0 = w1') as [-> ->].
  { unfold back. case_decide as Hd; [|by apply ret_Ok in E0 as [-> ->]; rewrite bool_decide_eq_false_2].
    apply read_Ok in E0 as [-> ->]. by rewrite bool_decide_eq_true_2. }
  clear E0. destruct back; run_step E; [|apply ret_Ok in E0 as [-> ->]].
  - do 2 run_step E0. apply ret_Ok in E0 as [-> ->]. injection E2 as _ <-. apply reopen_run in E1 as (t & Ht & Hs & Hm).
    match type of E with _ ?w2 = _ => assert (settled w2 w') as Hset end.
    { eapply (keeps_Ok 0 settled); [|apply E|lia]. unfold thread_scope_in_tx, last_worker_in_tx. keeps_plain.
      all: first [apply settled_state_changed|apply settled_escalate]. }
    do 5 run_step E. apply ret_Ok in E as [-> ->]. apply escalate_within in E4. cbn [sb_reopened].
    split_and!; [by eexists|done|]. eexists t, _, _. refine (conj Ht (conj Hs (conj _ (conj Hset _)))); [exact Hm|].
    cbn. intros rv rr. apply dismissed_none.
  - do 3 run_step E. apply ret_Ok in E as [-> ->]. cbn.
    apply scope_Ok in E0 as ->.
    apply read_Ok in E1 as [-> ->].
    match type of E2 with append_in_tx ?ev ?w1 = _ =>
      destruct (append_event_frame (fun v => v) ev w1) as [_ Hd]; unfold append_in_tx in E2; rewrite E2 in Hd end.
    cbn in Hd. by destruct Hd as [->|(l & o & ->)].
Qed.
(** C15: sending a change back. A submitted review returns the thread to work exactly when it asks for changes and its reviewer has a say (the owner, or an eligible reviewer who never worked on it, and so for who acts through them); then the thread, which was in review, is open, exactly one transition from review to open is recorded under the reviewer, no approval of it counts any more, and its rounds are within the cap or the cap waits on a person. Every other verdict moves no thread. *)
Theorem send_back_resets thread reviewer decision note root head w s w' :
  submit_review_at_head thread reviewer decision note root head w = (Ok s, w') ->
  if bool_decide (decision = RequestChangesDecision) && sends_back (db w) thread reviewer (delegate_acting_for reviewer)
  then
    is_Some (sb_reopened s)
    /\ t_state <$> threads (db w) !! thread = Some InReview
    /\ t_state <$> threads (db w') !! thread = Some Open
    /\ (exists id now, thread_transitions (db w')
                       = thread_transitions (db w) ++ [transition_row id thread InReview Open reviewer now])
    /\ approvers (db w') thread = []
    /\ within_cap (db w') thread
  else
    sb_reopened s = None /\ threads (db w') = threads (db w) /\ thread_transitions (db w') = thread_transitions (db w).
Proof.
  unfold submit_review_at_head. intros E%commit_Ok. pose proof (submit_cases _ _ _ _ _ _ _ _ _ E) as Hc.
  destruct (_ && _); [|done].
  destruct Hc as (Hr & Hcap & t & w2 & r & Ht & Hs & (id & now & -> & Hth & Htr) & (Sr & St & Ss) & Hno).
  split_and!; [done|by rewrite Ht; cbn; rewrite Hs| | | |done].
  - by rewrite Ss, Hth, lookup_insert_eq.
  - exists id, now. by rewrite St, Htr, Hs.
  - apply no_approvers. intros rv rr. rewrite Sr. apply Hno.
Qed.
End laws.

(** ** On the sample store *)

Import Sample.

Lemma send_back_resets_witness :
  exists s w', submit_review_at_head 101 6 RequestChangesDecision (Some (lit "redo")) None None approved = (Ok s, w')
    /\ approvers (db approved) 101 = [6%N] /\ approvers (db w') 101 = [] /\ within_cap (db w') 101.
Proof.
  destruct (run_value (submit_review_at_head 101 6 RequestChangesDecision (Some (lit "redo")) None None) approved (fun _ => true))
    as (s & w' & E & _); [by vm_compute|]. exists s, w'. split; [done|]. split; [by vm_compute|].
  apply send_back_resets in E.
  assert (bool_decide (RequestChangesDecision = RequestChangesDecision)
          && sends_back (db approved) 101 6 (delegate_acting_for 6) = true) as Hb by (by vm_compute).
  rewrite Hb in E. destruct E as (_ & _ & _ & _ & Ha & Hc). exact (conj Ha Hc).
Defined.
