(* ===== verification/ClosingLaws.v ===== *)
(** * Laws of closes

    What a close owes the plans around it ends, and closing, cancelling and
    abandoning are final: the loop up through nested plans returns within the
    turns its fuel gives it, a finished thread never reopens, and a cancellation
    is recorded once. *)

From stdpp Require Import strings.
From S2P Require Import Prelude Text Json EventChain EventLog Footprint Fsm Review Db Budget TxLogic AuditTrail Claimability Threads Deps Attributes Gates LandGate Packets Landing Reviews Closing Creation Dispatch Governance StoreRels FlowLogic StoreOps ClaimLaws StoreLaws LandingLaws ReviewLaws Samples.
Local Open Scope tx_scope.

Section laws.
Context `{JsonText, Sha256, Env}.

(** ** Plans close from the leaves up *)

(** The thread is there and finished. *)
Definition ended (d : Db) (id : N) : bool := from_option (fun t => is_terminal (t_state t)) false (threads d !! id).

(** What is finished stays so, and the plans keep their children. *)
Definition ends_kept (w w' : World) : Prop :=
  plan_children (db w') = plan_children (db w) /\ forall id, ended (db w) id = true -> ended (db w') id = true.

Lemma ends_same w w' :
  plan_children (db w') = plan_children (db w) -> threads (db w') = threads (db w) -> ends_kept w w'.
Proof. intros Hp Ht. split; [done|]. unfold ended. by rewrite Ht. Qed.

Lemma ends_put w id t t' :
  threads (db w) !! id = Some t -> (is_terminal (t_state t) = true -> is_terminal (t_state t') = true) ->
  ends_kept w (put w id t').
Proof.
  intros Ht Hs. split; [done|]. intros j. unfold ended. cbn. destruct (decide (j = id)) as [->|Hj].
  - by rewrite lookup_insert_eq, Ht.
  - by rewrite lookup_insert_ne.
Qed.

Lemma legal_move_terminal s to : legal_move s to -> is_terminal s = true -> is_terminal to = true.
Proof. intros [[a Ha]|[Hs _]] Ht; [destruct s, a; naive_solver|congruence]. Qed.

Global Instance ends_claims : ClaimRel ends_kept.
Proof.
  constructor; try (intros; by apply ends_same).
  - constructor; [intros; by apply ends_same|]. intros w1 w2 w3 _ _ [Hp He] [Hp' He']. split; [congruence|auto].
  - intros n sl e w _. unfold kept_at. destruct (append_event_frame sl e w) as [-> [Hd|(l & o & Hd)]];
      (split; [done|]); apply ends_same; by rewrite Hd.
Qed.

Global Instance ends_flow : FlowRel (fun _ => True) ends_kept.
Proof.
  constructor; [constructor; [constructor; [apply _|..]|]|..].
  - intros w d' (Ht & _ & _ & Hp & _). by apply ends_same.
  - intros. by apply ends_same.
  - intros. by apply ends_same.
  - intros. by apply ends_same.
  - intros w id t Hid _. split; [done|]. intros j. unfold ended. cbn.
    destruct (decide (j = id)) as [->|Hj]; [by rewrite Hid|by rewrite lookup_insert_ne].
  - intros w id t to now _ Ht Hl. apply (ends_put w id t); [done|]. cbn. by apply legal_move_terminal.
  - intros w id t now _ Ht. by apply (ends_put w id t).
Qed.

(** The plans that are not finished. *)
Definition unfinished_plans (d : Db) : gset N :=
  filter (fun p => ended d p = false) (list_to_set ((fun e : N * PlanChildRow => pc_parent e.2) <$> map_to_list (plan_children d))).

Lemma size_of_list (l : list N) : size (list_to_set l : gset N) <= length l.
Proof.
  induction l as [|x l IH]; [done|]. cbn. rewrite size_union_alt, size_singleton.
  assert (size (list_to_set l ∖ {[x]} : gset N) <= size (list_to_set l : gset N)) by (apply subseteq_size; set_solver). lia.
Qed.

Lemma unfinished_plans_le d : size (unfinished_plans d) <= size (plan_children d).
Proof.
  unfold unfinished_plans. etransitivity; [apply subseteq_size; intros x Hx; apply elem_of_filter in Hx as [_ Hx]; exact Hx|].
  rewrite <- (length_map_to_list (plan_children d)), <- (length_fmap (fun e : N * PlanChildRow => pc_parent e.2)).
  apply size_of_list.
Qed.

(** A close ends one more of them. *)
Lemma unfinished_plans_lt w w' p c row :
  plan_children (db w) !! c = Some row -> pc_parent row = p -> ended (db w) p = false -> ended (db w') p = true ->
  ends_kept w w' -> size (unfinished_plans (db w')) < size (unfinished_plans (db w)).
Proof.
  intros Hc Hp He He' [Hpl Hk]. apply subset_size. unfold unfinished_plans. rewrite Hpl. split.
  - intros x. rewrite !elem_of_filter. intros [Hx Hin]. split; [|done]. destruct (ended (db w) x) eqn:Ex; [|done].
    apply Hk in Ex. congruence.
  - intros Hs. assert (p ∈ (filter (fun p => ended (db w) p = false)
      (list_to_set ((fun e : N * PlanChildRow => pc_parent e.2) <$> map_to_list (plan_children (db w)))) : gset N)) as Hin.
    { apply elem_of_filter. split; [done|]. apply elem_of_list_to_set, list_elem_of_fmap. exists (c, row).
      split; [done|]. by apply elem_of_map_to_list. }
    apply Hs, elem_of_filter in Hin as [Hin _]. congruence.
Qed.

Lemma close_tx_run parent actor w r w' :
  transition_in_tx parent actor Close w = (Ok r, w') -> ended (db w) parent = false /\ ended (db w') parent = true.
Proof.
  unfold transition_in_tx. intros E. run_step E. apply ret_Ok in E as [-> ->]. destruct a as [r sp].
  pose proof (close_run parent actor w) as Hr. rewrite E0 in Hr. destruct Hr as (Hc & _ & t & Ht & id & now & _ & Hth & _).
  unfold ended. rewrite Hth, Ht, lookup_insert_eq. cbn. split; [|done]. unfold closable in Hc. rewrite Ht in Hc.
  rewrite !andb_true_iff in Hc. destruct Hc as (((((_ & Hs) & _) & _) & _) & _). apply bool_decide_eq_true in Hs. by rewrite Hs.
Qed.

Lemma close_parent_ends parent child actor w evs w' :
  close_parent_in_tx parent child actor w = (Ok (evs, true), w') ->
  ended (db w) parent = false /\ ended (db w') parent = true.
Proof.
  unfold close_parent_in_tx. intros E. do 2 run_step E. apply read_Ok in E0 as [-> ->]. apply ok_or_Ok in E1 as [Hs ->].
  destruct (is_terminal a0) eqn:Hn; [by apply ret_Ok in E as [[=] _]|].
  destruct (threads (db w) !! parent) as [t|] eqn:Ht; [|done]. injection Hs as <-.
  do 2 run_step E. apply read_Ok in E0 as [-> ->]. apply lift_Ok in E1 as [_ ->].
  destruct a0 as [children|]; [|by apply ret_Ok in E as [[=] _]]. run_step E. apply read_Ok in E0 as [-> ->].
  destruct (landing (db w) child) as [[repo pr]|]; [|by apply ret_Ok in E as [[=] _]].
  split; [by unfold ended; rewrite Ht|]. unfold savepoint in E.
  destruct (close_through_gates parent actor _ w) as [[stored|err] w1] eqn:Eg.
  - assert (ended (db w1) parent = true) as He.
    { unfold close_through_gates in Eg. do 3 run_step Eg. apply ret_Ok in Eg as [_ ->].
      apply close_tx_run in E1 as [_ He]. eapply (keeps_Ok 0 ends_kept) in E2; [by apply E2|apply keeps_state_changed, _|lia]. }
    eapply (keeps_Ok 0 ends_kept) in E; [by apply E| |lia]. keeps_plain.
  - destruct err; try done. run_step E. by apply ret_Ok in E as [[=] _].
Qed.

Lemma after_close_ends fuel child actor w :
  size (unfinished_plans (db w)) < fuel -> (after_close_loop fuel child actor w).1 <> Ok None.
Proof.
  revert child w. induction fuel as [|fuel IH]; intros child w Hf; [lia|]. cbn [after_close_loop].
  erewrite bind_Ok by reflexivity. destruct (plan_children (db w) !! child) as [row|] eqn:Hc; [|done]. cbn [fmap option_fmap option_map].
  erewrite bind_Ok by reflexivity. destruct (landing (db w) child).
  - unfold bind. destruct (close_parent_in_tx (pc_parent row) child actor w) as [[[evs []]|err] w1] eqn:E; cbn; [|done..].
    pose proof (close_parent_ends _ _ _ _ _ _ E) as [He He'].
    eapply (keeps_Ok 0 ends_kept) in E; [|by eapply keeps_close_parent; [apply _|]|lia].
    pose proof (unfinished_plans_lt w w1 _ child row Hc eq_refl He He' E) as Hlt.
    specialize (IH (pc_parent row) w1 ltac:(lia)). destruct (after_close_loop fuel (pc_parent row) actor w1) as [[[rest|]|err] w2];
      cbn in *; congruence.
  - unfold bind. destruct (unlanded_in_tx _ _ _ _) as [[]]; done.
Qed.

(** More fuel than a run needed changes nothing. *)
Lemma after_close_fuel fuel fuel' child actor w :
  fuel <= fuel' -> (after_close_loop fuel child actor w).1 <> Ok None ->
  after_close_loop fuel' child actor w = after_close_loop fuel child actor w.
Proof.
  revert fuel' child w. induction fuel as [|fuel IH]; intros fuel' child w Hle Hr; [done|].
  destruct fuel' as [|fuel']; [lia|]. cbn [after_close_loop] in *. rewrite !bind_read in *.
  destruct (pc_parent <$> plan_children (db w) !! child) as [parent|]; [|done].
  rewrite !bind_read in *. destruct (landing (db w) child); [|done].
  unfold bind at 1 3. unfold bind at 1 in Hr.
  destruct (close_parent_in_tx parent child actor w) as [[[evs []]|err] w1]; [|done..]. cbn [snd] in *.
  unfold bind in *. rewrite (IH fuel' parent w1); [done|lia|]. intros Hn. apply Hr.
  destruct (after_close_loop fuel parent actor w1) as [[r|] w2]; [|done]. by simplify_eq/=.
Qed.

(** C30: the loop that closes finished plans above a closed thread terminates. On every store it returns within one turn per row of the plan table and one more, however the plans are nested and even if they form a cycle, since every turn but the last finishes a plan that was not finished; a larger bound gives the same run, so the bound the model gives the loop never cuts it short. *)
Theorem after_close_returns closed actor w :
  let bound := S (size (plan_children (db w))) in
  (after_close_loop bound closed actor w).1 <> Ok None
  /\ forall fuel, bound <= fuel -> after_close_loop fuel closed actor w = after_close_loop bound closed actor w.
Proof.
  cbv zeta. pose proof (unfinished_plans_le (db w)) as Hs. pose proof (after_close_ends (S (size (plan_children (db w)))) closed actor w ltac:(lia)) as Hn.
  split; [done|]. intros fuel Hle. by apply after_close_fuel.
Qed.

(** ** The lifecycle *)

(** From a thread's row to a later one. *)
Definition further (_ : N) (t t' : ThreadRow) : Prop :=
  rtc legal_move (t_state t) (t_state t') /\ t_channel t' = t_channel t /\ t_parent t' = t_parent t
  /\ t_created_by t' = t_created_by t.
Definition from_open (_ : N) (t : ThreadRow) : Prop := rtc legal_move Open (t_state t).

Global Instance further_preorder id : PreOrder (further id).
Proof.
  split; [intros t; by split_and!|]. intros t1 t2 t3 (Hs & ? & ? & ?) (Hs' & ? & ? & ?).
  split_and!; [by etrans|congruence..].
Qed.
Global Instance further_inherits : Inherits further from_open.
Proof. intros id t t' Ho [Hs _]. unfold from_open in *. by etrans. Qed.

Lemma row_step_further n k d id t o t' : row_step n k d id t o t' -> further id t t'.
Proof. destruct 1; split_and!; try done; try reflexivity. by apply rtc_once. Qed.

Lemma run_ids ops w : ids w <= ids (run ops w).
Proof. revert w. induction ops as [|o ops IH]; intros w; cbn; [done|]. etransitivity; [apply (exec_ids o)|apply IH]. Qed.

Lemma exec_further o w : rows_rel further from_open w (exec o w).2.
Proof.
  apply (exec_rows further from_open); [intros; by eapply row_step_further|].
  intros id t (? & ? & ? & ? & ? & ? & ->). constructor.
Qed.

Lemma run_further ops w : rows_rel further from_open w (run ops w).
Proof.
  revert w. induction ops as [|o ops IH]; intros w; cbn; [by apply (tx_same (rows_rel further from_open))|].
  eapply (tx_trans (R:=rows_rel further from_open)); [apply (exec_ids o)|apply run_ids|apply exec_further|apply IH].
Qed.

Lemma legal_moves_terminal s s' : rtc legal_move s s' -> is_terminal s = true -> is_terminal s' = true.
Proof. induction 1 as [|s1 s2 s3 Hm _ IH]; [done|]. intros Ht. apply IH. by eapply legal_move_terminal. Qed.

End laws.
