(* ===== verification/GovernanceLaws.v ===== *)
(** * Laws of the gates and of governance

    Gates are decided once and confirmation links are used once; a thread at its
    round cap is handed to nobody; a frozen member holds nothing and is given
    nothing; a requirement is loosened only by those allowed to. *)

From stdpp Require Import strings.
From S2P Require Import Prelude Text Json EventChain EventLog Footprint Fsm Review Db Budget TxLogic AuditTrail Claimability Threads Deps Attributes Gates LandGate Packets Landing Reviews Closing Creation Dispatch Governance StoreRels FlowLogic StoreOps ClaimLaws AuditLaws StoreLaws LandingLaws ReviewLaws Samples.
Local Open Scope tx_scope.

Section laws.
Context `{JsonText, Sha256, Env}.

(** ** A call that is refused *)

(** The call fails and leaves the tables as they were. *)
Definition refused {A} (m : Tx A) (w : World) : Prop := exists e, (m w).1 = Err e /\ db (m w).2 = db w.
(** It returns nothing and leaves the tables as they were. *)
Definition nothing {A} (a : A) (m : Tx A) (w : World) : Prop := (m w).1 = Ok a /\ db (m w).2 = db w.

(** ** The round cap holds the thread *)

Lemma candidate_in d q id t : candidate_select d q = Some (id, t) -> eligible d q (id, t) = true /\ threads d !! id = Some t.
Proof.
  unfold candidate_select. intros Hc%first_by_elem. apply elem_of_bfilter in Hc as [Hin He].
  by apply elem_of_map_to_list in Hin.
Qed.

Lemma capped_not_eligible d q thread t : round_capped d thread = true -> eligible d q (thread, t) = false.
Proof.
  intros Hc. destruct (eligible d q (thread, t)) eqn:He; [|done]. unfold eligible in He.
  destruct (channels d !! t_channel _); [|done]. cbn [fst snd] in He. unfold claimable, withheld, stalled in He.
  bool_simpl. apply orb_true_iff in Hc as [Hc|Hc].
  - assert (GATED d thread = true); [|bool_simpl; congruence]. unfold GATED. apply existsb_true in Hc as (e & Hin & Hp).
    bool_simpl. apply existsb_true. exists e. split; [done|]. by rewrite !bool_decide_eq_true_2.
  - assert (PARKED d thread = true); [|bool_simpl; congruence]. unfold PARKED. bool_simpl.
    apply bool_decide_eq_true. by destruct (thread_unclaimable d !! thread).
Qed.

Lemma cap_first {A} thread member (k : Tx A) w :
  round_capped (db w) thread = true ->
  exists e, (refuse_same_family_in_tx thread member ;; refuse_round_cap_claim thread ;; k) w = (Err e, w).
Proof.
  intros Hc. unfold refuse_same_family_in_tx, refuse_round_cap_claim, bind, read.
  destruct (shared_family (db w) member thread); cbn; [by eexists|]. rewrite Hc. by eexists.
Qed.

(** [claim_next_candidate] reads the clock and the tables. *)
Lemma candidate_run scope m now lc repo engine lane w :
  exists sql_now w', claim_next_candidate scope m now lc repo engine lane w
    = (Ok (candidate_select (db w) (ask m scope now lc sql_now repo engine lane)), w') /\ db w' = db w.
Proof. unfold claim_next_candidate, utc_now, bind, read. by eexists _, _. Qed.

Lemma claim_next_takes g c m s e w id row :
  (claim_next g c m s e w).1 = Ok (Some (id, row)) -> exists q t, q_member q = m /\ eligible (db w) q (id, t) = true.
Proof.
  destruct (claim_next g c m s e w) as [r w'] eqn:E. cbn. intros ->. unfold claim_next in E. run_step E.
  injection E0 as <- <-. apply commit_Ok in E. run_step E.
  match type of E0 with claim_next_candidate ?sc ?mm ?now ?lc ?re ?en ?la ?w1 = _ =>
    destruct (candidate_run sc mm now lc re en la w1) as (sql & w2 & Hr & Hd) end.
  rewrite Hr in E0. injection E0 as <- <-. destruct (candidate_select _ _) as [[id' before]|] eqn:Ec; [|by apply ret_Ok in E as [[=] _]].
  apply candidate_in in Ec as [He _]. do 3 run_step E. apply ret_Ok in E as [[= -> _] _]. by refine (ex_intro _ _ (ex_intro _ before (conj _ He))).
Qed.

Lemma claim_next_event_takes g sc m s re e la w id row evs :
  (claim_next_with_event g sc m s re e la w).1 = Ok (Some (id, row), evs) ->
  exists q t, q_member q = m /\ eligible (db w) q (id, t) = true.
Proof.
  destruct (claim_next_with_event g sc m s re e la w) as [r w'] eqn:E. cbn. intros ->. unfold claim_next_with_event in E.
  apply commit_Ok in E. do 2 run_step E. injection E0 as <- <-.
  match type of E1 with claim_next_candidate ?sc ?mm ?now ?lc ?re ?en ?la ?w1 = _ =>
    destruct (candidate_run sc mm now lc re en la w1) as (sql & w2 & Hr & Hd) end.
  rewrite Hr in E1. injection E1 as <- <-. destruct (candidate_select _ _) as [[id' before]|] eqn:Ec; [|by apply ret_Ok in E as [[=] _]].
  apply candidate_in in Ec as [He _]. do 3 run_step E. apply ret_Ok in E as [[= -> _] _]. by refine (ex_intro _ _ (ex_intro _ before (conj _ He))).
Qed.

(** A thread at its review-round cap waits for a person. While a round cap is pending on a thread, or a person declined another round, no claim and no assignment of it succeeds, whoever it is for, each leaving the tables as they were, and no pull of the next task returns it. *)
Theorem round_cap_holds thread w :
  round_capped (db w) thread = true ->
  (forall m, refused (claim thread m) w /\ refused (claim_with_event thread m) w /\ refused (assign thread m) w
     /\ forall actor note, refused (assign_with_event thread m actor note) w)
  /\ (forall g c m s e id row, (claim_next g c m s e w).1 = Ok (Some (id, row)) -> id <> thread)
  /\ (forall g sc m s re e la id row evs,
        (claim_next_with_event g sc m s re e la w).1 = Ok (Some (id, row), evs) -> id <> thread).
Proof.
  intros Hc. split; [|split].
  - intros m. assert (forall A (k : Tx A) w0, db w0 = db w ->
        refused (commit (refuse_same_family_in_tx thread m ;; refuse_round_cap_claim thread ;; k)) w0) as Hr.
    { intros A k w0 Hw. rewrite <- Hw in Hc. destruct (cap_first thread m k w0 Hc) as [e He].
      exists e. unfold commit. by rewrite He. }
    assert (forall A B (m1 : Tx A) (k : A -> Tx B) w0, refused m1 w0 -> refused (bind m1 k) w0) as Hbind.
    { intros A B m1 k w0 (e & He & Hd). exists e. unfold bind. destruct (m1 w0) as [[a|e'] w1]; by simplify_eq/=. }
    split_and!.
    + apply (Hbind _ _ _ _ {| db := db w; ticks := ticks w; ids := S (ids w) |}). by apply Hr.
    + by apply Hbind, Hr.
    + by apply (Hr _ _ {| db := db w; ticks := ticks w; ids := S (ids w) |}).
    + intros actor note. by apply Hr.
  - intros g c m s e id row (q & t & _ & He)%claim_next_takes ->. by rewrite capped_not_eligible in He.
  - intros g sc m s re e la id row evs (q & t & _ & He)%claim_next_event_takes ->. by rewrite capped_not_eligible in He.
Qed.

(** ** Freezing a member *)

Definition rows_kept (w w' : World) : Prop :=
  threads (db w') = threads (db w) /\ member_freezes (db w') = member_freezes (db w).
Global Instance rows_kept_claims : ClaimRel rows_kept.
Proof.
  constructor; try (intros; by split).
  constructor; [intros; by split|]. intros w1 w2 w3 _ _ [? ?] [? ?]. split; congruence.
Qed.

Lemma rows_kept_audit n owner new : keeps n rows_kept (append_scoped owner new).
Proof. unfold append_scoped, append_on. keeps_plain. apply keeps_write. by split. Qed.

(** An unfinished live claim of [member]. *)
Definition working (member : N) (t : ThreadRow) : bool :=
  bool_decide (t_assignee t = Some member) && live t && not_finished t.

Lemma release_member_run member w n w' :
  release_member_claims_in_tx member w = (Ok n, w') ->
  n = length (List.filter (fun e : N * ThreadRow => working member e.2) (map_to_list (threads (db w))))
  /\ member_freezes (db w') = member_freezes (db w)
  /\ exists now, threads (db w') = (fun t => if working member t then clear_claim now t else t) <$> threads (db w).
Proof.
  unfold release_member_claims_in_tx. intros E. do 4 run_step E. injection E0 as <- <-. apply read_Ok in E1 as [-> ->].
  apply ret_Ok in E as [-> ->]. injection E3 as _ <-.
  eapply (keeps_Ok 0 rows_kept) in E2 as [Ht Hf]; [|keeps_plain|lia]. cbn in *. split; [done|]. split; [done|].
  eexists. by rewrite Ht.
Qed.

Lemma frozen_not_eligible d q e : is_Some (member_freezes d !! q_member q) -> eligible d q e = false.
Proof.
  intros Hf. unfold eligible. destruct (channels d !! t_channel e.2); [|done]. rewrite (bool_decide_eq_true_2 _ Hf).
  cbn [negb]. by rewrite andb_false_r, !andb_false_l.
Qed.

Lemma frozen_candidate d q : is_Some (member_freezes d !! q_member q) -> candidate_select d q = None.
Proof.
  intros Hf. destruct (candidate_select d q) as [[id t]|] eqn:Ec; [|done]. apply candidate_in in Ec as [He _].
  by rewrite frozen_not_eligible in He.
Qed.

Lemma frozen_idle member w :
  is_Some (member_freezes (db w) !! member) ->
  (forall g c s e, nothing None (claim_next g c member s e) w)
  /\ (forall g sc s re e la, nothing (None, []) (claim_next_with_event g sc member s re e la) w).
Proof.
  intros Hz. split.
  - intros g c s e. unfold nothing, claim_next. erewrite bind_Ok by reflexivity. unfold commit.
    match goal with |- context [bind (claim_next_candidate ?sc ?mm ?now ?lc ?re ?en ?la) _ ?w2] =>
      destruct (candidate_run sc mm now lc re en la w2) as (sql & w3 & Hr & Hd) end.
    rewrite frozen_candidate in Hr by done. erewrite bind_Ok by exact Hr. by split.
  - intros g sc s re e la. unfold nothing, claim_next_with_event, commit. erewrite bind_Ok by reflexivity. cbv beta.
    match goal with |- context [bind (claim_next_candidate ?sc ?mm ?now ?lc ?re ?en ?la) _ ?w2] =>
      destruct (candidate_run sc mm now lc re en la w2) as (sql & w3 & Hr & Hd) end.
    rewrite frozen_candidate in Hr by done. erewrite bind_Ok by exact Hr. by split.
Qed.

(** Freezing a member takes its work away and gives it none. A freeze leaves the member frozen, ends every unfinished live claim it held (as many as it reports) and changes no other thread's row; from then on, while the freeze stands, a pull of the next task by that member returns nothing and changes nothing. *)
Theorem freeze_stops_member member by_ reason audit_for w fz n ev w' :
  freeze_member member by_ reason audit_for w = (Ok (fz, n, ev), w') ->
  member_freezes (db w') !! member = Some fz
  /\ n = length (List.filter (fun e : N * ThreadRow => working member e.2) (map_to_list (threads (db w))))
  /\ (exists now, forall id, threads (db w') !! id
        = (fun t => if working member t then clear_claim now t else t) <$> threads (db w) !! id)
  /\ (forall id t, threads (db w') !! id = Some t -> working member t = false)
  /\ forall w1, is_Some (member_freezes (db w1) !! member) ->
       (forall g c s e, nothing None (claim_next g c member s e) w1)
       /\ (forall g sc s re e la, nothing (None, []) (claim_next_with_event g sc member s re e la) w1).
Proof.
  unfold freeze_member, audited. intros E%commit_Ok. do 2 run_step E. apply ret_Ok in E as [<- ->]. cbn [fst] in E1.
  eapply (keeps_Ok 0 rows_kept) in E1 as [At Af]; [|keeps_plain; apply rows_kept_audit|lia].
  unfold freeze_on in E0. do 6 run_step E0. apply ret_Ok in E0 as [[= -> -> ->] ->]. injection E as <- <-.
  unfold member_workspace_in_tx in E1. run_step E1. apply read_Ok in E as [-> ->]. apply ok_or_Ok in E1 as [_ ->].
  apply member_fk_Ok in E2 as ->. injection E3 as _ <-. apply release_member_run in E4 as (-> & Hf & now & Ht).
  eapply (keeps_Ok 0 rows_kept) in E5 as [Et Ef]; [|unfold append_in_tx; apply sr_append_event|lia]. cbn in *.
  rewrite At, Af, Et, Ef, Hf, Ht. split_and!.
  - by rewrite lookup_insert_eq.
  - done.
  - exists now. intros id. by rewrite lookup_fmap.
  - intros id t. rewrite lookup_fmap. destruct (threads (db w) !! id) as [t0|]; [|done]. cbn. intros [= <-].
    destruct (working member t0) eqn:Ew; [|done]. unfold working. cbn. done.
  - intros w0' Hz. by apply frozen_idle.
Qed.

(** ** What the review requirement asks *)

Lemma scoped_run owner new w row w' :
  append_scoped owner new w = (Ok row, w') -> db w' = upd_audit (fun rows => rows ++ [row]) (db w).
Proof.
  unfold append_scoped, append_on. intros E. do 2 run_step E. apply read_Ok in E0 as [-> ->]. apply lift_Ok in E1 as [_ ->].
  do 2 run_step E. injection E0 as <- <-. apply read_Ok in E1 as [-> ->]. destruct (audit_principal _) as [[actor subject] grant].
  run_step E. injection E0 as _ <-. by apply ret_Ok in E as [-> ->].
Qed.

Lemma set_requirement_run thread required rounds w row w' :
  set_requirement_on thread required rounds w = (Ok row, w') ->
  db w' = upd_review_reqs (fun m => <[thread := row]> m) (db w) /\ rq_count row = required
  /\ rq_max_rounds row = default (max_rounds_of (db w) thread) rounds.
Proof.
  unfold set_requirement_on. intros E. run_step E. destruct (_ || _); [done|]. apply ret_Ok in E0 as [_ ->]. do 4 run_step E.
  injection E0 as <- <-. apply thread_fk_Ok in E1 as ->. apply read_Ok in E2 as [-> ->]. apply ret_Ok in E as [-> ->].
  injection E3 as _ <-. cbn. unfold max_rounds_of. by destruct (review_reqs (db w) !! thread).
Qed.

(** A review requirement is loosened only by those allowed to. Without the authority to lower it, an accepted change leaves the thread needing at least as many approvals as before and its cap on rounds no looser; with or without it, the requirement written is the one asked for and exactly one audit record comes with it, and a refused change changes nothing. *)
Theorem requirement_not_loosened thread required rounds allow audit_for w :
  match set_review_requirement thread required rounds allow audit_for w with
  | (Ok change, w') =>
      required_count (db w') thread = required
      /\ max_rounds_of (db w') thread = default (max_rounds_of (db w) thread) rounds
      /\ (exists row, audit (db w') = audit (db w) ++ [row])
      /\ (allow = false ->
           (required_count (db w) thread <= required_count (db w') thread)%Z
           /\ max_rounds_loosens (max_rounds_of (db w) thread) (max_rounds_of (db w') thread) = false)
  | (Err _, w') => db w' = db w
  end.
Proof.
  destruct (set_review_requirement _ _ _ _ _ _) as [[change|e] w'] eqn:E.
  2: { unfold set_review_requirement, audited, commit in E. by repeat case_match; simplify_eq/=. }
  unfold set_review_requirement, audited in E. apply commit_Ok in E. do 2 run_step E. apply ret_Ok in E as [-> ->].
  run_step E1. apply ret_Ok in E1 as [_ ->]. apply scoped_run in E. unfold get_requirement in E0. do 4 run_step E0.
  apply read_Ok in E1 as [-> ->]. apply ret_Ok in E0 as [-> ->]. 
  destruct ((required <? _)%Z && negb allow) eqn:El; [done|]. apply ret_Ok in E2 as [_ ->].
  assert (w4 = w /\ forall next, rounds = Some next -> max_rounds_loosens (max_rounds_of (db w) thread) next && negb allow = false) as [-> Hr].
  { destruct rounds as [next|]; [|by apply ret_Ok in E3 as [_ ->]]. destruct (next <? 0)%Z; [done|].
    destruct (max_rounds_loosens _ next && negb allow) eqn:Em; [done|]. apply ret_Ok in E3 as [_ ->].
    split; [done|]. by intros ? [= <-]. }
  apply set_requirement_run in E4 as (Hd & Hc & Hm). rewrite E. unfold required_count at 1 3, max_rounds_of at 1 4.
  rewrite Hd. cbn. rewrite lookup_insert_eq. cbn. rewrite Hm. split_and!; [done..|by eexists|]. intros ->.
  rewrite andb_true_r in El. split; [unfold required_count; bool_simpl; lia|].
  destruct rounds as [next|]; cbn; [specialize (Hr next eq_refl); by rewrite andb_true_r in Hr|].
  unfold max_rounds_loosens. lia.
Qed.

(** ** Gates and their confirmation links *)

Definition tokens_unique (d : Db) : Prop :=
  forall k1 k2 c1 c2, approval_confirmations d !! k1 = Some c1 -> approval_confirmations d !! k2 = Some c2 ->
    cf_token_hash c1 = cf_token_hash c2 -> k1 = k2.

Lemma find_elem {A} (p : A -> bool) (l : list A) x : List.find p l = Some x -> x ∈ l /\ p x = true.
Proof. intros E%List.find_some. by rewrite list_elem_of_In. Qed.

Lemma by_token_Some d tok e :
  by_token d tok = Some e -> approval_confirmations d !! e.1 = Some e.2 /\ cf_token_hash e.2 = tok.
Proof.
  unfold by_token. intros [Hin Hp]%find_elem. destruct e as [k c]. apply elem_of_map_to_list in Hin. by bool_simpl.
Qed.

Lemma by_token_unique d tok k c e :
  tokens_unique d -> approval_confirmations d !! k = Some c -> cf_token_hash c = tok -> by_token d tok = Some e -> e = (k, c).
Proof.
  intros Hu Hk Ht [He Hte]%by_token_Some. destruct e as [k' c']. cbn in *.
  assert (k' = k) as -> by (eapply Hu; eauto; congruence). congruence.
Qed.

Definition links_kept (w w' : World) : Prop := approval_confirmations (db w') = approval_confirmations (db w).
Global Instance links_kept_claims : ClaimRel links_kept.
Proof.
  constructor; try (intros; done). constructor; [intros; done|]. unfold links_kept. congruence.
Qed.
Lemma links_kept_audit n owner new : keeps n links_kept (append_scoped owner new).
Proof. unfold append_scoped, append_on. keeps_plain. by apply keeps_write. Qed.
Lemma links_kept_resolve n id m s c v : keeps n links_kept (resolve_on id m s c v).
Proof. unfold resolve_on. keeps_plain; by apply keeps_write. Qed.

(** What an accepted or late confirmation leaves. *)
Lemma confirm_run tok ws m now audit_for w out w' :
  confirm tok ws m now audit_for w = (Ok out, w') -> out <> ConfirmNotFound ->
  exists k c, by_token (db w) tok = Some (k, c) /\ cf_ws c = ws /\ k.2 = m /\ link_dead (truncate_millis now) c = false
    /\ approval_confirmations (db w') = <[k := spent (truncate_millis now) c]> (approval_confirmations (db w)).
Proof.
  unfold confirm, transaction. intros E Hout.
  match type of E with match ?m ?w with _ => _ end = _ => destruct (m w) as [[[o b]|e] w1] eqn:Em end; [|done].
  run_step Em. apply read_Ok in E0 as [-> ->].
  destruct (by_token (db w) tok) as [[k c]|] eqn:Eb; cbn in Em; [|by apply ret_Ok in Em as [[= -> ->] ->]; simplify_eq].
  destruct (bool_decide (cf_ws c = ws) && _ && _) eqn:Ec; [|by apply ret_Ok in Em as [[= -> ->] ->]; simplify_eq].
  bool_simpl. do 2 run_step Em. injection E0 as _ <-. eapply (keeps_Ok 0 links_kept) in E1; [|apply links_kept_resolve|lia].
  assert (b = true /\ links_kept w2 w1) as [-> Hl].
  { destruct a0 as [g|]; [|by apply ret_Ok in Em as [[= _ ->] ->]]. run_step Em. apply ret_Ok in Em as [[= _ ->] ->]. split; [done|].
    by eapply (keeps_Ok 0 links_kept) in E0; [|apply links_kept_audit|lia]. }
  simplify_eq. exists k, c. split_and!; [done..|]. unfold links_kept in *. by rewrite Hl, E1.
Qed.

(** A link that is spent confirms nothing. *)
Lemma spent_link_dead tok w k c :
  tokens_unique (db w) -> approval_confirmations (db w) !! k = Some c -> cf_token_hash c = tok -> is_Some (cf_used c) ->
  forall ws m now audit_for, nothing ConfirmNotFound (confirm tok ws m now audit_for) w.
Proof.
  intros Hu Hk Ht Hused ws m now audit_for. unfold nothing, confirm, transaction. erewrite bind_Ok by reflexivity.
  destruct (by_token (db w) tok) as [e|] eqn:Eb; [|done]. pose proof (by_token_unique _ _ _ _ _ Hu Hk Ht Eb) as ->.
  cbn [mbind option_bind fst snd]. assert (link_dead (truncate_millis now) c = true) as ->; [|by rewrite andb_false_r].
  unfold link_dead. by rewrite bool_decide_eq_true_2.
Qed.

(** A confirmation link works once. A link that was used to accept a gate, or found its gate already decided, is the member's own link of that workspace, live until then; after it every further attempt with the same token, by anyone, at any time, finds nothing and changes nothing, and tokens stay unique. *)
Theorem confirmation_single_use tok ws m now audit_for w out w' :
  tokens_unique (db w) -> confirm tok ws m now audit_for w = (Ok out, w') -> out <> ConfirmNotFound ->
  (exists gate c, approval_confirmations (db w) !! (gate, m) = Some c /\ cf_token_hash c = tok /\ cf_ws c = ws
                  /\ cf_used c = None /\ (truncate_millis now < cf_expires c)%Z)
  /\ tokens_unique (db w')
  /\ forall ws' m' now' audit_for', nothing ConfirmNotFound (confirm tok ws' m' now' audit_for') w'.
Proof.
  intros Hu E Hout. destruct (confirm_run _ _ _ _ _ _ _ _ E Hout) as ([gate m'] & c & Hb & Hws & Hm & Hd & Hc). cbn in Hm. subst m'.
  apply by_token_Some in Hb as [Hk Ht]. cbn in Hk, Ht.
  assert (tokens_unique (db w')) as Hu'.
  { intros k1 k2 c1 c2. rewrite Hc. rewrite !lookup_insert_Some.
    intros [[<- <-]|[? H1']] [[<- <-]|[? H2']] Heq; try done; eapply Hu; eauto. }
  split; [|split; [done|]].
  - exists gate, c. unfold link_dead in Hd. bool_simpl. split_and!; try done. by apply eq_None_not_Some.
  - apply (spent_link_dead tok w' (gate, m) (spent (truncate_millis now) c)); [done| |exact Ht|by eexists]. by rewrite Hc, lookup_insert_eq.
Qed.

Lemma held_capped d t by_ at_ :
  round_capped (upd_thread_unclaimable
                  (fun m => <[t := {| uc_reason := REVIEW_ROUND_HELD_REASON; uc_by := by_; uc_at := at_ |}]> m) d) t = true.
Proof.
  unfold round_capped. apply orb_true_iff. right. apply bool_decide_eq_true. unfold upd_thread_unclaimable.
  cbn [thread_unclaimable]. rewrite lookup_insert_eq. reflexivity.
Qed.

Lemma decided_run id by_ st c v w :
  (forall g, approval_gates (db w) !! id = Some g -> g_state g <> GPending) ->
  exists w', resolve_on id by_ st c v w = (Ok None, w') /\ db w' = db w.
Proof.
  intros Hg. unfold resolve_on. eexists. erewrite bind_Ok by reflexivity. erewrite bind_Ok by reflexivity. cbn.
  destruct (approval_gates (db w) !! id) as [g|]; cbn; [|done]. rewrite decide_False by (by apply Hg). done.
Qed.

(** A gate is decided once. A decision takes a gate that was pending, records the decision and its maker on it, and holds a thread whose round cap was declined or cancelled; after it no further decision of that gate, with or without audit, changes anything. *)
Theorem gate_decided_once id by_ st content w g w' :
  st <> GPending -> resolve id by_ st content w = (Ok (Some g), w') ->
  (exists g0, approval_gates (db w) !! id = Some g0 /\ g_state g0 = GPending)
  /\ approval_gates (db w') !! id = Some g /\ g_state g = st /\ g_resolved_by g = Some by_
  /\ (forall t, g_round_cap g = true -> g_thread g = Some t -> st = GDeclined \/ st = GCancelled -> round_capped (db w') t = true)
  /\ (forall by' st' content', nothing None (resolve id by' st' content') w'
       /\ forall v audit_for, nothing None (resolve_audited id by' st' content' v audit_for) w').
Proof.
  intros Hst E. unfold resolve in E. apply commit_Ok in E. unfold resolve_on in E. do 2 run_step E. injection E0 as <- <-.
  apply read_Ok in E1 as [-> ->]. cbn [db] in *.
  destruct (approval_gates (db w) !! id) as [g0|] eqn:Eg; cbn in E; [|by apply ret_Ok in E as [[=] _]].
  destruct (decide (g_state g0 = GPending)) as [Hp|]; cbn in E; [|by apply ret_Ok in E as [[=] _]].
  do 3 run_step E. apply ret_Ok in E as [[= ->] ->]. apply member_fk_Ok in E0 as ->. injection E1 as _ <-.
  assert (approval_gates (db w2) !! id = Some (resolved by_ st content (clock (ticks w)) (delegate_acting_for by_) None g0)
    /\ (forall t, g_round_cap g0 = true -> g_thread g0 = Some t -> st = GDeclined \/ st = GCancelled -> round_capped (db w2) t = true))
    as [Hg Hr].
  { change (g_round_cap (resolved _ _ _ _ _ _ g0)) with (g_round_cap g0) in E2.
    change (g_thread (resolved _ _ _ _ _ _ g0)) with (g_thread g0) in E2.
    change (g_state (resolved by_ st content (clock (ticks w)) (delegate_acting_for by_) None g0)) with st in E2.
    destruct (g_round_cap g0), (g_thread g0) as [t|], st.
    all: lazymatch type of E2 with
         | ret _ _ = _ => apply ret_Ok in E2 as [_ ->]; split; [apply lookup_insert_eq|by intros ? ? ? [?|?]]
         | _ => idtac
         end.
    all: run_step E2; injection E as <- <-; injection E2 as _ <-; split; [apply lookup_insert_eq|].
    all: intros ? _ [= <-] _; apply held_capped. }
  split_and!; [by exists g0|done..|].
  intros by' st' content'. assert (forall g, approval_gates (db w2) !! id = Some g -> g_state g <> GPending) as Hdec.
  { rewrite Hg. by intros ? [= <-]. }
  split.
  - destruct (decided_run id by' st' content' None w2 Hdec) as (w3 & Hw & Hd). unfold nothing, resolve, commit. by rewrite Hw.
  - intros v af. destruct (decided_run id by' st' content' (Some v) w2 Hdec) as (w3 & Hw & Hd).
    unfold nothing, resolve_audited, commit. by rewrite (bind_Ok _ _ _ _ _ Hw).
Qed.
End laws.

(** ** On the sample store *)

Import Sample.

Lemma round_cap_holds_witness : refused (claim 101 5) capped /\ refused (assign 101 6) capped.
Proof.
  destruct (round_cap_holds 101 capped) as [Hr _]; [by vm_compute|]. destruct (Hr 5%N) as (H5 & _). destruct (Hr 6%N) as (_ & _ & H6 & _). exact (conj H5 H6).
Defined.

Lemma freeze_stops_member_witness :
  exists fz ev w', freeze_member 5 6 None (fun _ => note) world = (Ok (fz, 1, ev), w')
    /\ forall id t, threads (db w') !! id = Some t -> working 5 t = false.
Proof.
  destruct (run_value (freeze_member 5 6 None (fun _ => note)) world (fun r => bool_decide (r.1.2 = 1)))
    as ([[fz n] ev] & w' & E & Hn); [by vm_compute|]. apply bool_decide_eq_true in Hn. cbn in Hn. subst n.
  exists fz, ev, w'. split; [exact E|]. apply freeze_stops_member in E as (_ & _ & _ & Hw & _). exact Hw.
Defined.

(** A gate in workspace 1 and member 6's link to it. *)
Definition gated : World := (create_gate {| ng_ws := 1; ng_thread := Some 101%N; ng_requested_by := 5; ng_prompt := lit "ship?";
                                            ng_schema := None; ng_risk := RiskHigh |} world).2.
Definition linked : World :=
  (issue_confirmation
     {| nc_gate := 50; nc_member := 6; nc_ws := 1; nc_actor := None; nc_nonce := 9; nc_token_hash := lit "t0";
        nc_client := None; nc_version := None; nc_client_id := None; nc_source := SourceNone; nc_note := None;
        nc_now := start; nc_expires := start + 600000000000 |} (fun _ => note) gated).2.

Lemma linked_unique : tokens_unique (db linked).
Proof.
  intros k1 k2 c1 c2. assert (exists c, approval_confirmations (db linked) = {[(50%N, 6%N) := c]}) as [c ->].
  { vm_compute. by eexists. }
  intros [<- _]%lookup_singleton_Some [<- _]%lookup_singleton_Some. done.
Qed.

Lemma confirmation_single_use_witness :
  exists out w', confirm (lit "t0") 1 6 (start + 1000000000) (fun _ => note) linked = (Ok out, w') /\ out <> ConfirmNotFound
    /\ nothing ConfirmNotFound (confirm (lit "t0") 1 6 (start + 2000000000) (fun _ => note)) w'.
Proof.
  destruct (run_value (confirm (lit "t0") 1 6 (start + 1000000000) (fun _ => note)) linked
              (fun o => match o with ConfirmNotFound => false | _ => true end)) as (out & w' & E & Ho); [by vm_compute|].
  assert (out <> ConfirmNotFound) as Hne by (by intros ->). exists out, w'. split; [exact E|]. split; [exact Hne|].
  destruct (confirmation_single_use _ _ _ _ _ _ _ _ linked_unique E Hne) as (_ & _ & Hn). apply Hn.
Defined.

Lemma gate_decided_once_witness :
  exists g w', resolve 50 6 GDeclined None gated = (Ok (Some g), w') /\ g_state g = GDeclined
    /\ nothing None (resolve 50 5 GAccepted None) w'.
Proof.
  destruct (run_value (resolve 50 6 GDeclined None) gated (fun g => bool_decide (is_Some g))) as (o & w' & E & Ho); [by vm_compute|].
  destruct o as [g|]; [|done]. exists g, w'. split; [exact E|].
  destruct (gate_decided_once 50 6 GDeclined None gated g w' ltac:(done) E) as (_ & _ & Hs & _ & _ & Hn).
  split; [exact Hs|]. apply Hn.
Defined.
