(* ===== verification/CreationLaws.v ===== *)
(** * Laws of thread creation

    The fingerprint of a task against its brief, the forest of parents, and the
    bounds of the spawn budget. *)

From stdpp Require Import strings.
From S2P Require Import Prelude Text Json EventChain EventLog Footprint Fsm Review Db Budget TxLogic AuditTrail Claimability Threads Attributes LandGate Packets Landing FootprintStore Creation StoreRels FlowLogic StoreOps ClaimLaws Samples.
Local Open Scope tx_scope.

(** ** The bytes of a brief determine it *)

Lemma utf8_char_inj c c' r r' : utf8_char c ++ r = utf8_char c' ++ r' -> c = c' /\ r = r'.
Proof.
  unfold utf8_char. repeat case_match; rewrite ?N.ltb_lt, ?N.ltb_ge in *; cbn; intros Heq; injection Heq; clear Heq; intros.
  all: try (exfalso; zify; Z.to_euclidean_division_equations; lia). all: split; [|done].
  all: zify; Z.to_euclidean_division_equations; lia.
Qed.

(** A length a machine word holds. *)
Definition fits (v : option str) : Prop := from_option (fun v => (N.of_nat (byte_len v) < 2 ^ 64)%N) True v.

Lemma as_bytes_eq s s' : as_bytes s = as_bytes s' -> s = s'.
Proof.
  revert s'. induction s as [|c s IH]; intros [|c' s']; rewrite ?as_bytes_cons; [done| | |].
  - intros Heq. exfalso. revert Heq. unfold utf8_char. by repeat case_match.
  - intros Heq. exfalso. revert Heq. unfold utf8_char. by repeat case_match.
  - by intros [-> ->%IH]%utf8_char_inj.
Qed.

Lemma field_inj v v' r r' : fits v -> fits v' -> field v ++ r = field v' ++ r' -> v = v' /\ r = r'.
Proof.
  destruct v as [v|], v' as [v'|]; cbn [field fits from_option]; intros Hv Hv'; cbn [app]; [|by intros [=]..|by intros [=]].
  rewrite <- !app_assoc. intros Heq%(f_equal (drop 1)). cbn [drop] in Heq. apply app_inj_1 in Heq as [Hl Hs]; [|by rewrite !length_be_bytes].
  apply be_bytes_inj in Hl; [|done..]. apply app_inj_1 in Hs as [Hs ->]; [|unfold byte_len in Hl; lia].
  by apply as_bytes_eq in Hs as ->.
Qed.

Lemma fields_inj l l' :
  length l = length l' -> Forall fits l -> Forall fits l' -> l ≫= field = l' ≫= field -> l = l'.
Proof.
  intros Hlen Hl. revert l' Hlen. induction Hl as [|v l Hv _ IH]; intros [|v' l'] Hlen Hl'; try done.
  inversion Hl' as [|? ? Hv' Hl'']; subst. cbn. intros [-> Heq]%field_inj; [|done..]. f_equal. apply IH; [by injection Hlen|done..].
Qed.

Section fingerprint.
Context `{!Sha256, !Sha256Laws}.

(** What of a task its fingerprint speaks of: title, description, acceptance and
    issue without the white space around them, kind, engine and threat model. *)
Definition brief (title description : option str) (a : AttributeRow) :
    option str * option str * TaskKind * option TaskEngine * bool * option str * option str :=
  (trimmed title, trimmed description, a_kind a, a_engine a, a_threat_model a, trim <$> a_acceptance a,
   trim <$> a_linear_issue a).

(** Its texts are within what a machine word counts. *)
Definition brief_fits (title description : option str) (a : AttributeRow) : Prop :=
  fits (trimmed title) /\ fits (trimmed description) /\ fits (trim <$> a_acceptance a) /\ fits (trim <$> a_linear_issue a).

Lemma brief_bytes_inj title description a title' description' a' :
  brief_fits title description a -> brief_fits title' description' a' ->
  brief_bytes (trimmed title) (trimmed description) a = brief_bytes (trimmed title') (trimmed description') a' ->
  brief title description a = brief title' description' a'.
Proof.
  intros (Ht & Hd & Ha & Hi) (Ht' & Hd' & Ha' & Hi') Heq. unfold brief_bytes in Heq.
  assert (forall a, fits (engine_str <$> a_engine a)) as He by (intros b; destruct (a_engine b) as [[]|]; vm_compute; done).
  assert (forall a, fits (Some (kind_str (a_kind a)))) as Hk by (intros b; destruct (a_kind b); vm_compute; done).
  assert (forall a, fits (Some (if a_threat_model a then lit "1" else lit "0"))) as Hm
    by (intros b; destruct (a_threat_model b); vm_compute; done).
  apply fields_inj in Heq; [|done|unfold brief_fields; by repeat constructor..].
  unfold brief_fields in Heq. injection Heq as H1 H2 H3 H4 H5 H6 H7. unfold brief.
  rewrite H1, H2, H6, H7. f_equal. f_equal. f_equal; [f_equal; [f_equal|]|].
  - destruct (a_kind a), (a_kind a'); done.
  - destruct (a_engine a) as [[]|], (a_engine a') as [[]|]; done.
  - destruct (a_threat_model a), (a_threat_model a'); done.
Qed.

(** A task's fingerprint stands for its brief. Two tasks have the same fingerprint exactly when both have a title or a description and their briefs agree, up to the white space around their texts, unless SHA-256 itself collides on the two encoded briefs: the length-prefixed fields keep one text from running into the next. *)
Theorem fingerprint_is_brief title description a title' description' a' :
  brief_fits title description a -> brief_fits title' description' a' ->
  no_collision [brief_bytes (trimmed title) (trimmed description) a; brief_bytes (trimmed title') (trimmed description') a'] ->
  is_Some (task_fingerprint title description a) ->
  (task_fingerprint title description a = task_fingerprint title' description' a'
   <-> brief title description a = brief title' description' a').
Proof.
  intros Hf Hf' Hn [h Hh]. 
  assert (forall t d b, task_fingerprint t d b = if decide (trimmed t = None /\ trimmed d = None) then None
     else Some (sha256_hex (brief_bytes (trimmed t) (trimmed d) b))) as Hdef.
  { intros t d b. unfold task_fingerprint. destruct (trimmed t), (trimmed d); case_decide; naive_solver. }
  rewrite Hdef in Hh. rewrite !Hdef. case_decide as Hd; [done|]. clear Hh h. split.
  - case_decide; [done|]. intros [= Heq]. apply brief_bytes_inj; [done..|]. by apply sha256_hex_inj.
  - intros Hb. injection Hb as H1 H2 H3 H4 H5 H6 H7. rewrite <- H1, <- H2. rewrite decide_False by done. unfold brief_bytes, brief_fields.
    by rewrite H3, H4, H5, H6, H7.
Qed.
End fingerprint.

(** ** The forest of parents *)

(** Every parent is there, and following parents ends. *)
Definition forest (m : gmap N ThreadRow) : Prop :=
  exists rank : N -> nat, forall id t p, m !! id = Some t -> t_parent t = Some p -> is_Some (m !! p) /\ rank p < rank id.

(** The threads at or below a rank: a step to the parent leaves one behind. *)
Definition ranked (rank : N -> nat) (m : gmap N ThreadRow) (r : nat) : gset N := filter (fun j => rank j <= r) (dom m).

Lemma ranked_le rank m r : size (ranked rank m r) <= size m.
Proof. rewrite <- size_dom. apply subseteq_size. unfold ranked. set_solver. Qed.

Lemma ranked_lt rank m id r : is_Some (m !! id) -> r < rank id -> size (ranked rank m r) < size (ranked rank m (rank id)).
Proof.
  intros Hid Hr. apply subset_size. unfold ranked. split.
  - intros j. rewrite !elem_of_filter. intros [? ?]. split; [lia|done].
  - intros Hs. assert (id ∈ (filter (fun j => rank j <= r) (dom m) : gset N)) as Hin.
    { apply Hs, elem_of_filter. split; [done|]. by apply elem_of_dom. }
    apply elem_of_filter in Hin as [? _]. lia.
Qed.

(** Past the height of the forest more fuel changes nothing. *)
Lemma depth_walk_fuel rank d fuel fuel' id :
  (forall id t p, threads d !! id = Some t -> t_parent t = Some p -> is_Some (threads d !! p) /\ rank p < rank id) ->
  size (ranked rank (threads d) (rank id)) <= fuel -> fuel <= fuel' -> depth_walk fuel' d id = depth_walk fuel d id.
Proof.
  intros Hr. revert id fuel'. induction fuel as [|fuel IH]; intros id fuel' Hs Hle.
  - destruct fuel' as [|fuel']; [done|]. cbn. destruct (threads d !! id) as [t|] eqn:Ht; [|done].
    assert (size (ranked rank (threads d) (rank id)) <> 0); [|lia].
    intros H0%size_empty_inv. assert (id ∈ ranked rank (threads d) (rank id)); [|set_solver].
    unfold ranked. apply elem_of_filter. split; [done|]. apply elem_of_dom. by rewrite Ht.
  - destruct fuel' as [|fuel']; [lia|]. cbn. destruct (threads d !! id) as [t|] eqn:Ht; [|done].
    destruct (t_parent t) as [p|] eqn:Hp; [|done]. destruct (Hr _ _ _ Ht Hp) as [_ Hlt]. f_equal. apply IH; [|lia].
    pose proof (ranked_lt rank (threads d) id (rank p) ltac:(by rewrite Ht) Hlt). lia.
Qed.

(** The depth is that of the forest, with no bound in it. *)
Lemma thread_depth_eq d id :
  forest (threads d) ->
  thread_depth d id
  = match threads d !! id with
    | None => 0
    | Some t => 1 + match t_parent t with Some p => thread_depth d p | None => 0 end
    end%Z.
Proof.
  intros [rank Hr]. unfold thread_depth at 1. cbn [depth_walk]. destruct (threads d !! id) as [t|]; [|done].
  destruct (t_parent t) as [p|]; [|done]. f_equal. symmetry. unfold thread_depth.
  eapply depth_walk_fuel; [done|apply ranked_le|lia].
Qed.

(** A new row leaves the depths there were. *)
Lemma depth_walk_birth fuel d d' id t p :
  forest (threads d) -> threads d !! id = None -> threads d' = <[id := t]> (threads d) -> is_Some (threads d !! p) ->
  depth_walk fuel d' p = depth_walk fuel d p.
Proof.
  intros [rank Hr] Hid Hd. revert p. induction fuel as [|fuel IH]; intros p Hp; [done|]. cbn.
  rewrite Hd, lookup_insert_ne by (intros ->; destruct Hp; congruence).
  destruct (threads d !! p) as [tp|] eqn:Ep; [|done]. destruct (t_parent tp) as [q|] eqn:Eq; [|done].
  destruct (Hr _ _ _ Ep Eq) as [Hq _]. by rewrite (IH q Hq).
Qed.

Lemma thread_depth_birth d d' id t p :
  forest (threads d) -> threads d !! id = None -> threads d' = <[id := t]> (threads d) -> is_Some (threads d !! p) ->
  thread_depth d' p = thread_depth d p.
Proof.
  intros Hf Hid Hd Hp. unfold thread_depth. rewrite (depth_walk_birth _ d d' id t p) by done.
  destruct Hf as [rank Hr]. eapply depth_walk_fuel; [done| |].
  - etransitivity; [apply (ranked_le rank)|lia].
  - rewrite Hd, map_size_insert_None by done. lia.
Qed.

(** ** The forest is kept *)

Section forest.
Context `{JsonText, Sha256, Env}.

Definition forest_kept (w w' : World) : Prop := forest (threads (db w)) -> forest (threads (db w')).

Global Instance forest_store : StoreRel forest_kept.
Proof.
  assert (forall w w', threads (db w') = threads (db w) -> forest_kept w w') as Hsame by (intros w w' Heq; unfold forest_kept; by rewrite Heq).
  constructor; try (intros; by apply Hsame); [|intros w d' (Ht & _); by apply Hsame].
  constructor; try (intros; by apply Hsame).
  - constructor; [intros; by apply Hsame|]. unfold forest_kept. auto.
  - intros n s e w _. unfold kept_at. destruct (append_event_frame s e w) as [-> [Hd|(l & o & Hd)]];
      (split; [done|]); apply Hsame; by rewrite Hd.
Qed.

Global Instance forest_ledger : LedgerRel forest_kept.
Proof. constructor; intros w f Hf; exact Hf. Qed.

Lemma row_step_parent n k d id t o t' : row_step n k d id t o t' -> t_parent t' = t_parent t.
Proof. by destruct 1. Qed.

Lemma exec_forest o w : forest (threads (db w)) -> forest (threads (db (exec o w).2)).
Proof.
  destruct (exec_kept forest_kept o w) as [_ HR]; [|exact HR]. intros w0 m' _ Hm [rank Hr]. cbn.
  exists (fun j => match threads (db w0) !! j with
           | Some _ => rank j
           | None => match m' !! j with Some t => S (from_option rank 0 (t_parent t)) | None => 0 end
           end). intros id t p Ht Hp. pose proof (Hm id) as Hid. rewrite Ht in Hid.
  destruct (threads (db w0) !! id) as [t0|] eqn:E0.
  - assert (t_parent t0 = Some p) as Hp0 by (destruct Hid as [->|Hs]; [done|by rewrite <- (row_step_parent _ _ _ _ _ _ _ Hs)]).
    destruct (Hr _ _ _ E0 Hp0) as [[tp Htp] Hlt]. rewrite Htp. split; [|done].
    specialize (Hm p). rewrite Htp in Hm. destruct (m' !! p); [done|by destruct Hm].
  - destruct Hid as (_ & _ & Hroot). destruct (Hroot p Hp) as [tp Htp]. rewrite Htp, Ht, Hp. cbn. split; [|lia].
    specialize (Hm p). rewrite Htp in Hm. destruct (m' !! p); [done|by destruct Hm].
Qed.

(** C32: parents form a forest, and depth is well defined. Whatever store operations run, every thread's parent exists and no thread is its own ancestor, so the recursive query behind the spawn budget's depth ends; what it returns satisfies the depth's own equation (nothing for a missing thread, one for a root, one more than the parent's otherwise), so the bound on the walk never cuts it short. *)
Theorem thread_forest ops w id :
  forest (threads (db w)) ->
  let d := db (run ops w) in
  forest (threads d)
  /\ thread_depth d id
     = match threads d !! id with
       | None => 0
       | Some t => 1 + match t_parent t with Some p => thread_depth d p | None => 0 end
       end%Z.
Proof.
  intros Hf d. assert (forest (threads d)) as Hd; [|split; [done|by apply thread_depth_eq]].
  unfold d. clear d. revert w Hf. induction ops as [|o ops IH]; intros w Hf; [done|]. cbn. by apply IH, exec_forest.
Qed.

(** ** Threads stay, under the parents they have *)

Definition parents_kept (w w' : World) : Prop :=
  forall id t, threads (db w) !! id = Some t -> exists t', threads (db w') !! id = Some t' /\ t_parent t' = t_parent t.

Lemma parents_kept_same w w' : threads (db w') = threads (db w) -> parents_kept w w'.
Proof. intros Heq id t Ht. exists t. by rewrite Heq. Qed.

Global Instance parents_store : StoreRel parents_kept.
Proof.
  constructor; try (intros; by apply parents_kept_same); [|intros w d' (Ht & _); by apply parents_kept_same].
  constructor; try (intros; by apply parents_kept_same).
  - constructor; [intros; by apply parents_kept_same|]. intros w1 w2 w3 _ _ H12 H23 id t Ht.
    destruct (H12 id t Ht) as (t2 & Ht2 & Hp2). destruct (H23 id t2 Ht2) as (t3 & Ht3 & Hp3). exists t3. split; congruence.
  - intros n s e w _. unfold kept_at. destruct (append_event_frame s e w) as [-> [Hd|(l & o & Hd)]];
      (split; [done|]); apply parents_kept_same; by rewrite Hd.
Qed.

Global Instance parents_ledger : LedgerRel parents_kept.
Proof. constructor; intros; by apply parents_kept_same. Qed.

Lemma run_kept ops w : forest (threads (db w)) -> parents_kept w (run ops w) /\ forest (threads (db (run ops w))).
Proof.
  revert w. induction ops as [|o ops IH]; intros w Hf; [by split; [apply parents_kept_same|]|].
  assert (parents_kept w (exec o w).2) as H1'.
  { destruct (exec_kept parents_kept o w) as [_ HR]; [|exact HR]. intros w0 m' _ Hm id t Ht. cbn.
    specialize (Hm id). rewrite Ht in Hm. destruct (m' !! id) as [t'|]; [|by destruct Hm]. exists t'. split; [done|].
    destruct Hm as [->|Hs]; [done|by eapply row_step_parent]. }
  destruct (IH (exec o w).2 (exec_forest o w Hf)) as [H2' Hf2]. split; [|exact Hf2].
  intros id t Ht. destruct (H1' id t Ht) as (t1 & Ht1 & Hp1). destruct (H2' id t1 Ht1) as (t2 & Ht2 & Hp2).
  exists t2. split; [exact Ht2|congruence].
Qed.

Lemma depth_kept w w' p :
  forest (threads (db w)) -> forest (threads (db w')) -> parents_kept w w' -> is_Some (threads (db w) !! p) ->
  thread_depth (db w') p = thread_depth (db w) p.
Proof.
  intros Hf Hf' Hk. pose proof Hf as [rank Hr].
  assert (forall n q, rank q < n -> is_Some (threads (db w) !! q) -> thread_depth (db w') q = thread_depth (db w) q) as Hn;
    [|intros Hp; by apply (Hn (S (rank p)) p (Nat.lt_succ_diag_r _))].
  induction n as [|n IH]; intros q Hq [t Ht]; [lia|]. destruct (Hk q t Ht) as (t' & Ht' & Hpt).
  rewrite (thread_depth_eq _ _ Hf), (thread_depth_eq _ _ Hf'), Ht, Ht', Hpt. destruct (t_parent t) as [a|] eqn:Ha; [|done].
  destruct (Hr q t a Ht Ha) as [Hs Hlt]. by rewrite IH by (done || lia).
Qed.

(** ** The spawn budget *)

(** The live children of a thread in one state of the tables that it did not have
    in another. *)
Definition live_child (d : Db) (parent id : N) : bool :=
  match threads d !! id with Some t => bool_decide (t_parent t = Some parent) && live t | None => false end.
Definition newcomers (d d' : Db) (parent : N) : Z :=
  Z.of_nat (length (List.filter (fun e : N * ThreadRow => live_child d' parent e.1 && negb (live_child d parent e.1))
                      (map_to_list (threads d')))).

Lemma count_live_child d p :
  count_active_children d p
  = Z.of_nat (length (List.filter (fun e : N * ThreadRow => live_child d p e.1) (map_to_list (threads d)))).
Proof.
  unfold count_active_children. do 2 f_equal. apply List.filter_ext_in. intros [id t] Hin%list_elem_of_In.
  apply elem_of_map_to_list in Hin. unfold live_child. cbn. by rewrite Hin.
Qed.

Lemma newcomers_self d p : newcomers d d p = 0%Z.
Proof.
  unfold newcomers. induction (map_to_list (threads d)) as [|[id t] l IH]; [done|]. cbn. by destruct (live_child d p id).
Qed.

Lemma count_newcomers d d' p : (count_active_children d' p <= count_active_children d p + newcomers d d' p)%Z.
Proof.
  rewrite !count_live_child. unfold newcomers. rewrite <- Nat2Z.inj_add. apply Nat2Z.inj_le.
  assert (forall l : list (N * ThreadRow), length (List.filter (fun e => live_child d' p e.1) l)
            = length (List.filter (fun e => live_child d' p e.1 && live_child d p e.1) l)
              + length (List.filter (fun e => live_child d' p e.1 && negb (live_child d p e.1)) l)) as ->.
  { induction l as [|[id t] l IH]; [done|]. cbn. destruct (live_child d' p id), (live_child d p id); cbn; lia. }
  apply Nat.add_le_mono_r. rewrite <- !(length_fmap fst). apply submseteq_length, NoDup_submseteq.
  - eapply sublist_NoDup; [apply (NoDup_fst_map_to_list (threads d'))|]. apply fmap_sublist. 
    induction (map_to_list (threads d')) as [|e l IH]; [constructor|]. cbn. destruct (_ && _); by constructor.
  - intros id ([id' t'] & -> & [_ Hb]%elem_of_bfilter)%list_elem_of_fmap. cbn in *. apply andb_true_iff in Hb as [_ Hb].
    unfold live_child in Hb. destruct (threads d !! id') as [t|] eqn:Ht; [|done].
    apply list_elem_of_fmap. exists (id', t). split; [done|]. apply elem_of_bfilter. split; [by apply elem_of_map_to_list|].
    cbn. unfold live_child. by rewrite Ht.
Qed.

Definition same_threads (w w' : World) : Prop := threads (db w') = threads (db w).
Global Instance same_threads_store : StoreRel same_threads.
Proof.
  unfold same_threads. constructor; try (intros; done); [|intros w d' (Ht & _); done]. constructor; try (intros; done).
  constructor; [intros; done|]. congruence.
Qed.

Lemma keeps_run {A} (R : World -> World -> Prop) (m : Tx A) w r w' : keeps 0 R m -> m w = (r, w') -> R w w'.
Proof. intros Hk E. destruct (Hk w ltac:(lia)) as [_ HR]. by rewrite E in HR. Qed.

(** What the checks before an insert found. *)
Definition within_budget (d : Db) (channel parent : N) : Prop :=
  forall b, (c ← channels d !! channel; spawn_budgets d !! c_ws c) = Some b ->
    (forall limit, max_children b = Some limit -> (count_active_children d parent < limit)%Z)
    /\ (forall limit, max_depth b = Some limit -> (thread_depth d parent < limit)%Z).

Lemma precheck_run new p w u w' :
  nt_parent new = Some p -> precheck new w = (Ok u, w') ->
  w' = w /\ is_Some (threads (db w) !! p) /\ within_budget (db w) (nt_channel new) p.
Proof.
  unfold precheck, validate_parent, enforce_spawn_budget. intros -> E. run_step E.
  assert (w0 = w /\ is_Some (threads (db w) !! p)) as [-> Hpar].
  { run_step E0. unfold get in E1. run_step E1. apply read_Ok in E2 as [-> ->]. apply ok_or_Ok in E1 as [Hrow ->].
    split; [|by eexists]. repeat case_match; try done; by apply ret_Ok in E0 as [_ ->]. }
  cut (w' = w /\ within_budget (db w) (nt_channel new) p); [tauto|].
  clear E0. run_step E. apply read_Ok in E0 as [-> ->]. unfold within_budget.
  destruct (channels (db w) !! nt_channel new ≫= _) as [b|]; [|by apply ret_Ok in E as [_ ->]].
  run_step E. assert (w0 = w /\ forall limit, max_children b = Some limit -> (count_active_children (db w) p < limit)%Z) as [-> Hc].
  { destruct (max_children b) as [limit|]; [|by apply ret_Ok in E0 as [_ ->]]. run_step E0. apply read_Ok in E1 as [-> ->].
    destruct (Z.leb_spec limit (count_active_children (db w) p)); [done|]. apply ret_Ok in E0 as [_ ->]. naive_solver. }
  clear E0. destruct (max_depth b) as [limit|] eqn:Hm.
  - run_step E. apply read_Ok in E0 as [-> ->]. destruct (Z.leb_spec limit (thread_depth (db w) p)); [done|].
    apply ret_Ok in E as [_ ->]. split; [done|]. intros b' [= <-]. split; [done|]. rewrite Hm. by intros ? [= <-].
  - apply ret_Ok in E as [_ ->]. split; [done|]. intros b' [= <-]. split; [done|]. by rewrite Hm.
Qed.

Lemma args_run new fp a pr w r w' : creation_args new fp a pr w = (Ok r, w') -> w' = w.
Proof.
  unfold creation_args. intros E. do 3 run_step E. apply lift_Ok in E0 as [_ ->]. apply lift_Ok in E1 as [_ ->].
  apply lift_Ok in E2 as [_ ->]. by apply ret_Ok in E as [_ ->].
Qed.

Lemma insert_thread_run c p ti de now by_ w id t w' :
  insert_thread c p ti de now by_ w = (Ok (id, t), w') ->
  threads (db w) !! id = None /\ threads (db w') = <[id := t]> (threads (db w)) /\ t_parent t = p /\ live t = true
  /\ forall q, p = Some q -> is_Some (threads (db w) !! q).
Proof.
  unfold insert_thread. intros E. do 3 run_step E. injection E0 as <- <-. apply read_Ok in E1 as [-> ->]. cbn [db] in *.
  case_bool_decide; [|done]. apply ret_Ok in E2 as [_ ->]. run_step E.
  assert (w0 = {| db := db w; ticks := ticks w; ids := S (ids w) |} /\ forall q, p = Some q -> is_Some (threads (db w) !! q)) as [-> Hp].
  { destruct p as [q|]; [|by apply ret_Ok in E0 as [_ ->]]. unfold thread_fk in E0. run_step E0. apply read_Ok in E1 as [-> ->].
    case_bool_decide; [|done]. apply ret_Ok in E0 as [_ ->]. naive_solver. }
  clear E0. run_step E. assert (db w0 = db w) as Hw.
  { destruct by_ as [m|]; [|by apply ret_Ok in E0 as [_ ->]]. unfold member_fk in E0. run_step E0. apply read_Ok in E1 as [-> ->].
    case_bool_decide; [|done]. by apply ret_Ok in E0 as [_ ->]. }
  do 2 run_step E. apply read_Ok in E1 as [-> ->]. case_bool_decide as Ht; [done|]. apply ret_Ok in E2 as [_ ->].
  run_step E. injection E1 as _ <-. apply ret_Ok in E as [[= -> ->] ->]. cbn. rewrite Hw in *.
  split_and!; [by apply eq_None_not_Some|done..].
Qed.

(** One child more, one level down. *)
Lemma birth_counts d d' id t p :
  forest (threads d) -> threads d !! id = None -> threads d' = <[id := t]> (threads d) -> t_parent t = Some p ->
  live t = true -> is_Some (threads d !! p) ->
  count_active_children d' p = (1 + count_active_children d p)%Z /\ thread_depth d' id = (1 + thread_depth d p)%Z.
Proof.
  intros Hf Hid Hd Hp Hl Hpar. split.
  - unfold count_active_children. rewrite Hd. rewrite (Permutation_length (bfilter_perm _ _ _ (map_to_list_insert (threads d) id t Hid))). cbn.
    rewrite bool_decide_eq_true_2 by done. rewrite Hl. cbn. lia.
  - rewrite thread_depth_eq.
    + rewrite Hd, lookup_insert_eq, Hp. by rewrite (thread_depth_birth d d' id t p).
    + destruct Hf as [rank Hr]. exists (fun j => if decide (j = id) then S (rank p) else rank j). intros j tj q Hj Hq.
      rewrite Hd in *. destruct (decide (j = id)) as [->|Hne].
      * rewrite lookup_insert_eq in Hj. simplify_eq. rewrite lookup_insert_ne by (intros <-; destruct Hpar; congruence).
        split; [done|]. rewrite decide_False by (intros ->; destruct Hpar; congruence). lia.
      * rewrite lookup_insert_ne in Hj by done. destruct (Hr _ _ _ Hj Hq) as [Hs Hlt].
        rewrite lookup_insert_ne by (intros <-; destruct Hs; congruence). split; [done|].
        rewrite decide_False by (intros ->; destruct Hs; congruence). done.
Qed.

(** The children of [p] are within the budget but for [extra], and the depth of
    [id] is within it. *)
Definition budget_respected (b : SpawnBudgetRow) (p id : N) (extra : Z) (d : Db) : Prop :=
  (forall limit, max_children b = Some limit -> (count_active_children d p <= limit + extra)%Z)
  /\ (forall limit, max_depth b = Some limit -> (thread_depth d id <= limit)%Z).

(** A birth, the checks having run at [w] and the insert at [w1]. *)
Lemma birth_respects b c p id t w w1 w2 w' ti de now by_ :
  forest (threads (db w)) -> forest (threads (db w1)) -> parents_kept w w1 -> is_Some (threads (db w) !! p) ->
  within_budget (db w) c p -> (ch ← channels (db w) !! c; spawn_budgets (db w) !! c_ws ch) = Some b ->
  threads (db w2) = threads (db w1) ->
  insert_thread c (Some p) ti de now by_ w2 = (Ok (id, t), w') -> budget_respected b p id (newcomers (db w) (db w1) p) (db w').
Proof.
  intros Hf Hf1 Hk Hp Hb Hrow Hw2 (Hid & Hth & Hpt & Hl & Hpar)%insert_thread_run. rewrite Hw2 in *. destruct (Hb b Hrow) as [Hc Hd].
  destruct (birth_counts (db w1) (db w') id t p) as [Hcn Hdp]; [done..|by apply Hpar|]. unfold budget_respected. rewrite Hcn, Hdp.
  rewrite (depth_kept w w1 p Hf Hf1 Hk Hp). pose proof (count_newcomers (db w) (db w1) p) as Hnew.
  split; intros limit Hlim; [specialize (Hc limit Hlim)|specialize (Hd limit Hlim)]; lia.
Qed.

Lemma respected_same b p id extra w w' :
  same_threads w w' -> budget_respected b p id extra (db w) -> budget_respected b p id extra (db w').
Proof.
  unfold same_threads, budget_respected, count_active_children, thread_depth. intros Hs. rewrite Hs.
  assert (forall fuel i, depth_walk fuel (db w') i = depth_walk fuel (db w) i) as Hdw.
  { induction fuel as [|fuel IH]; intros i; cbn; [done|]. rewrite Hs. destruct (threads (db w) !! i) as [t|]; [|done].
    by destruct (t_parent t); rewrite ?IH. }
  by rewrite Hdw.
Qed.

(** Both transactions, after checks that passed at [w] and operations in between. *)
Lemma checked_births new p b ops w :
  forest (threads (db w)) -> nt_parent new = Some p -> is_Some (threads (db w) !! p) ->
  (c ← channels (db w) !! nt_channel new; spawn_budgets (db w) !! c_ws c) = Some b -> within_budget (db w) (nt_channel new) p ->
  let w1 := run ops w in let extra := newcomers (db w) (db w1) p in
  (forall id t w', create_checked new w1 = (Ok (id, t), w') -> budget_respected b p id extra (db w'))
  /\ (forall fp a pr id t ev w',
        commit (insert_on new fp a pr) w1 = (Ok (id, t, ev), w') -> budget_respected b p id extra (db w')).
Proof.
  intros Hf Hp Hpar Hrow Hb w1 extra. destruct (run_kept ops w Hf) as [Hk Hf1]. split.
  - intros id t w' E. unfold create_checked in E. run_step E. injection E0 as <- <-. apply commit_Ok in E. do 3 run_step E.
    apply ret_Ok in E as [<- ->]. cbn [fst snd] in *. rewrite Hp in E0.
    apply (birth_respects b _ p id t w w1) in E0; [|done..]. eapply (keeps_run same_threads) in E1; [|apply keeps_default_engine, _].
    eapply (keeps_run same_threads) in E2; [|unfold record_on, insert_fingerprint; keeps_plain; keeps_frame].
    eapply respected_same; [apply E2|]. by eapply respected_same.
  - intros fp a pr id t ev w' E. apply commit_Ok in E. unfold insert_on in E. do 2 run_step E. injection E0 as <- <-. rewrite Hp in E1.
    destruct a1 as [i row]. apply (birth_respects b _ p i row w w1) in E1 as Hi; [|done..].
    assert (i = id) as -> by (do 8 run_step E; by apply ret_Ok in E as [[= -> _ _] _]).
    eapply respected_same; [|exact Hi]. eapply (keeps_run same_threads); [|exact E].
    unfold insert_items_on, insert_item_on, record_on, insert_fingerprint. keeps_plain; keeps_frame.
Qed.

(** C33: the spawn budget bounds what is created. The checks of a create run before its transaction, on their own. When they pass for a child of a thread and any store operations run before the transaction inserts it, by either way of creating, then the new child is within the workspace's limit of depth, and its parent has at most the limit of live children and those it gained in between. A create that nothing disturbs leaves its parent within the limit of children. *)
Theorem spawn_budget_bounds new p b w :
  forest (threads (db w)) -> nt_parent new = Some p ->
  (c ← channels (db w) !! nt_channel new; spawn_budgets (db w) !! c_ws c) = Some b ->
  (forall u w0 ops, precheck new w = (Ok u, w0) ->
     let w1 := run ops w0 in let extra := newcomers (db w) (db w1) p in
     (forall id t w', create_checked new w1 = (Ok (id, t), w') -> budget_respected b p id extra (db w'))
     /\ (forall fp a pr id t ev w',
           commit (insert_on new fp a pr) w1 = (Ok (id, t, ev), w') -> budget_respected b p id extra (db w')))
  /\ (forall id t w', create new w = (Ok (id, t), w') -> budget_respected b p id 0 (db w'))
  /\ (forall fp a pr id t ev w',
        create_with_footprint new fp a pr w = (Ok (id, t, ev), w') -> budget_respected b p id 0 (db w')).
Proof.
  intros Hf Hp Hrow. split_and!.
  - intros u w0 ops E. apply (precheck_run new p) in E as (-> & Hpar & Hb); [|done]. by apply checked_births.
  - intros id t w' E. unfold create in E. run_step E. apply (precheck_run new p) in E0 as (-> & Hpar & Hb); [|done].
    rewrite <- (newcomers_self (db w) p). by apply (checked_births new p b [] w) in E.
  - intros fp a pr id t ev w' E. unfold create_with_footprint in E. do 2 run_step E.
    assert (w0 = w) as -> by (by apply args_run in E0). apply (precheck_run new p) in E1 as (-> & Hpar & Hb); [|done].
    rewrite <- (newcomers_self (db w) p). by apply (checked_births new p b [] w) in E.
Qed.
End forest.

(** ** On the sample store *)

Import Sample.

Lemma world_forest : forest (threads (db world)).
Proof.
  exists (fun _ => 0). intros id t p Ht Hp.
  pose proof (threads_all (fun _ t => match t_parent t with None => true | Some _ => false end) tables ltac:(by vm_compute) id t Ht) as Hn.
  cbn in Hn. by rewrite Hp in Hn.
Qed.

Definition child : NewThread :=
  {| nt_channel := 10; nt_parent := Some 100%N; nt_title := Some (lit "part"); nt_description := None; nt_created_by := None |}.

Lemma thread_forest_witness :
  forest (threads (db (run [OFlow (FCreate child); OUnassign 100 None] world)))
  /\ thread_depth (db (run [OFlow (FCreate child); OUnassign 100 None] world)) 50 = 2%Z.
Proof.
  destruct (thread_forest [OFlow (FCreate child); OUnassign 100 None] world 50 world_forest) as [Hf Hd].
  split; [exact Hf|]. rewrite Hd. by vm_compute.
Defined.

Definition budgeted : World := run [OSide (SSetSpawnBudget 1 (Some 1%Z) (Some 2%Z) None)] world.

(** The checks of a second child pass, a first child is created before the second
    is inserted, and the parent has two under a limit of one. *)
Definition first_child : Op := OFlow (FCreate child).

Lemma spawn_budget_bounds_witness :
  exists u b id t w', precheck child budgeted = (Ok u, budgeted)
    /\ create_checked child (run [first_child] budgeted) = (Ok (id, t), w')
    /\ newcomers (db budgeted) (db (run [first_child] budgeted)) 100 = 1%Z
    /\ max_children b = Some 1%Z /\ count_active_children (db w') 100 = 2%Z
    /\ budget_respected b 100 id 1 (db w').
Proof.
  destruct (run_value (precheck child) budgeted (fun _ => true)) as (u & w0 & Eu & _); [by vm_compute|].
  assert (w0 = budgeted) as -> by (apply (precheck_run child 100) in Eu; [apply Eu|reflexivity]).
  destruct (run_value (create_checked child) (run [first_child] budgeted) (fun _ => true)) as ([id t] & w' & E & _); [by vm_compute|].
  assert (exists b, (c ← channels (db budgeted) !! nt_channel child; spawn_budgets (db budgeted) !! c_ws c) = Some b
                    /\ max_children b = Some 1%Z) as (b & Hb & Hmax) by (vm_compute; by eexists).
  assert (newcomers (db budgeted) (db (run [first_child] budgeted)) 100 = 1%Z) as Hn by (vm_compute; reflexivity).
  assert (count_active_children (db (create_checked child (run [first_child] budgeted)).2) 100 = 2%Z) as Hc by (vm_compute; reflexivity).
  rewrite E in Hc. exists u, b, id, t, w'. split_and!; [exact Eu|exact E|exact Hn|exact Hmax|exact Hc|]. rewrite <- Hn.
  refine (proj1 (proj1 (spawn_budget_bounds child 100 b budgeted _ eq_refl Hb) u budgeted [first_child] Eu) id t w' E).
  apply (exec_forest (OSide (SSetSpawnBudget 1 (Some 1%Z) (Some 2%Z) None)) world), world_forest.
Defined.

Lemma fingerprint_is_brief_witness :
  task_fingerprint (Some (lit " fix it ")) None default_attributes = task_fingerprint (Some (lit "fix it")) (Some (lit " ")) default_attributes
  /\ task_fingerprint (Some (lit "fix")) (Some (lit "it")) default_attributes
     <> task_fingerprint (Some (lit "fi")) (Some (lit "xit")) default_attributes.
Proof.
  split.
  - apply fingerprint_is_brief; [repeat split; by vm_compute..| |by vm_compute; eexists|by vm_compute].
    apply SampleSha.no_collision_eval. by vm_compute.
  - intros Heq. apply fingerprint_is_brief in Heq; [by vm_compute in Heq|repeat split; by vm_compute..| |by vm_compute; eexists].
    apply SampleSha.no_collision_eval. by vm_compute.
Defined.
