(* ===== verification/EvidenceLaws.v ===== *)
(** * Laws of review evidence

    The root a review packet is named by determines what was put in front of the
    reviewers. *)

From stdpp Require Import strings.
From S2P Require Import Prelude Text Json EventChain Review.

(** A membership among literal keys, by computation. *)
Ltac decide_in H := apply (bool_decide_eq_true_2 _) in H; vm_compute in H; discriminate H.

(** ** Objects with sorted keys *)

Lemma sorted_entries (f g : str -> Value) (l l' : list str) :
  (fun k => (k, f k)) <$> l = (fun k => (k, g k)) <$> l' -> l = l' /\ forall k, k ∈ l -> f k = g k.
Proof.
  revert l'. induction l as [|k l IH]; intros [|k' l']; try done; [by split; [|set_solver]|]. cbn.
  intros [= -> Hf Hr]. apply IH in Hr as [-> Hr]. split; [done|]. intros x [->|Hx]%elem_of_cons; auto.
Qed.

(** Objects that are the same up to the order of keys have the same keys, and
    under each the same value up to the order of keys. *)
Lemma sort_keys_get m m' :
  sort_keys (Object m) = sort_keys (Object m') ->
  (forall k, k ∈ m.*1 <-> k ∈ m'.*1)
  /\ forall k, k ∈ m.*1 -> sort_keys (assoc Null k m) = sort_keys (assoc Null k m').
Proof.
  cbn. intros [= Heq]. apply sorted_entries in Heq as [Hk Hv]. rewrite !fmap_fst in *.
  assert (forall k, k ∈ m.*1 <-> k ∈ m'.*1) as Hkeys.
  { intros k. rewrite <- (sort_strs_elem k m.*1), <- (sort_strs_elem k m'.*1). by rewrite Hk. }
  split; [done|]. intros k Hin. rewrite <- !(assoc_map sort_keys Null Null k); [|by apply Hkeys|done].
  apply Hv. by apply sort_strs_elem.
Qed.

(** ** Manifests *)

Definition result_small (r : ResultEvidence) : Prop := (re_produced_by r < 2 ^ 128)%N.
Definition attestation_small (a : EvidenceAttestation) : Prop := (ea_by a < 2 ^ 128)%N.
(** The identifiers are 128 bits wide. *)
Definition manifest_small (m : EvidenceManifest) : Prop :=
  (em_thread m < 2 ^ 128)%N /\ from_option result_small True (em_result m) /\ Forall attestation_small (em_attestations m).

Lemma str_keys_inj s s' : sort_keys (Str s) = sort_keys (Str s') -> s = s'.
Proof. by intros [=]. Qed.

Lemma result_value_inj r r' :
  from_option result_small True r -> from_option result_small True r' ->
  sort_keys (result_value r) = sort_keys (result_value r') -> r = r'.
Proof.
  destruct r as [[s b]|], r' as [[s' b']|]; unfold result_value; try done. cbn [from_option re_sha256 re_produced_by].
  unfold result_small. cbn [re_produced_by]. intros Hb Hb' [_ Hv]%sort_keys_get.
  assert (s = s') as -> by (apply str_keys_inj, (Hv (lit "sha256")); set_solver).
  assert (uuid_text b = uuid_text b') as Heq by (apply str_keys_inj, (Hv (lit "produced_by")); set_solver).
  by apply uuid_text_inj in Heq as ->.
Qed.

Lemma evidence_kind_str_inj k k' : evidence_kind_str k = evidence_kind_str k' -> k = k'.
Proof. by destruct k, k'. Qed.
Lemma tier_as_str_inj t t' : tier_as_str t = tier_as_str t' -> t = t'.
Proof. by destruct t, t'. Qed.

Lemma attestation_value_inj a a' :
  attestation_small a -> attestation_small a' ->
  sort_keys (attestation_value_of a) = sort_keys (attestation_value_of a') -> a = a'.
Proof.
  destruct a as [k s t b], a' as [k' s' t' b']. unfold attestation_small, attestation_value_of.
  cbn [ea_kind ea_sha256 ea_tier ea_by]. intros Hb Hb' [Hk Hv]%sort_keys_get.
  assert (s = s') as ->.
  { specialize (Hk (lit "sha256")). destruct s as [s|], s' as [s'|]; [|exfalso..|done].
    - f_equal. apply str_keys_inj, (Hv (lit "sha256")). set_solver.
    - assert (lit "sha256" ∈ [lit "kind"; lit "tier"; lit "attested_by"]) as Hin by (apply Hk; set_solver). by decide_in Hin.
    - assert (lit "sha256" ∈ [lit "kind"; lit "tier"; lit "attested_by"]) as Hin by (apply Hk; set_solver). by decide_in Hin. }
  assert (evidence_kind_str k = evidence_kind_str k') as ->%evidence_kind_str_inj.
  { apply str_keys_inj, (Hv (lit "kind")). set_solver. }
  assert (tier_as_str t = tier_as_str t') as ->%tier_as_str_inj.
  { destruct s'; apply str_keys_inj, (Hv (lit "tier")); set_solver. }
  assert (uuid_text b = uuid_text b') as ->%uuid_text_inj; [|done..].
  destruct s'; apply str_keys_inj, (Hv (lit "attested_by")); set_solver.
Qed.

Lemma fmap_keys_inj {A} (f : A -> Value) (P : A -> Prop) (l l' : list A) :
  (forall a a', P a -> P a' -> sort_keys (f a) = sort_keys (f a') -> a = a') -> Forall P l -> Forall P l' ->
  sort_keys (Array (f <$> l)) = sort_keys (Array (f <$> l')) -> l = l'.
Proof.
  intros Hf Hl. revert l'. induction Hl as [|a l Ha _ IH]; intros [|a' l'] Hl' Heq; try done.
  inversion Hl' as [|? ? Ha' Hl'']; subst. cbn in Heq. injection Heq as He Hr. f_equal; [by apply Hf|].
  apply IH; [done|]. cbn. by f_equal.
Qed.

Lemma manifest_value_inj m m' :
  manifest_small m -> manifest_small m' -> sort_keys (manifest_value m) = sort_keys (manifest_value m') -> m = m'.
Proof.
  destruct m as [t r l a], m' as [t' r' l' a']. unfold manifest_small, manifest_value.
  cbn [em_thread em_result em_artifacts em_attestations]. intros (Ht & Hr & Ha) (Ht' & Hr' & Ha') [Hk Hv]%sort_keys_get.
  assert (t = t') as ->.
  { apply uuid_text_inj; [done..|]. apply str_keys_inj, (Hv (lit "thread_id")). set_solver. }
  assert (r = r') as ->.
  { apply result_value_inj; [done..|]. apply (Hv (lit "result")). set_solver. }
  assert (l = l') as ->.
  { apply (fmap_keys_inj Str (fun _ => True)); [by intros ? ? _ _ ?%str_keys_inj|by apply Forall_true..|].
    apply (Hv (lit "artifacts")). set_solver. }
  f_equal. specialize (Hk (lit "attestations")). destruct a as [|x a], a' as [|x' a']; [done|exfalso..|].
  - assert (lit "attestations" ∈ [lit "thread_id"; lit "result"; lit "artifacts"]) as Hin by (apply Hk; set_solver).
    by decide_in Hin.
  - assert (lit "attestations" ∈ [lit "thread_id"; lit "result"; lit "artifacts"]) as Hin by (apply Hk; set_solver).
    by decide_in Hin.
  - apply (fmap_keys_inj attestation_value_of attestation_small); [apply attestation_value_inj|done..|].
    apply (Hv (lit "attestations")). set_solver.
Qed.

Lemma attestation_value_wf a : value_wf (attestation_value_of a).
Proof.
  unfold attestation_value_of. apply wf_object; [|destruct (ea_sha256 a); repeat constructor].
  destruct (ea_sha256 a); apply (bool_decide_eq_true_1 _); by vm_compute.
Qed.

Lemma manifest_value_wf m : value_wf (manifest_value m).
Proof.
  unfold manifest_value. apply wf_object.
  - destruct (em_attestations m); apply (bool_decide_eq_true_1 _); by vm_compute.
  - apply Forall_app. split.
    + repeat constructor; cbn.
      * unfold result_value. destruct (em_result m) as [r|]; constructor; [|repeat constructor].
        apply (bool_decide_eq_true_1 _). by vm_compute.
      * apply Forall_fmap, Forall_true. constructor.
    + destruct (em_attestations m) as [|a l]; [constructor|]. constructor; [|constructor]. cbn [snd]. constructor.
      apply Forall_fmap, Forall_true. apply attestation_value_wf.
Qed.

Section root.
Context `{JsonText, !JsonTextLaws, !Sha256, !Sha256Laws}.

(** C29: a review packet's root determines its evidence. Every manifest has a root, and two manifests (thread, result hash and its producer, linked artifacts, attestations) with the same root are the same manifest unless SHA-256 itself collides on their canonical bytes: a verdict that names a root names one body of evidence. *)
Theorem evidence_root_binds m m' :
  manifest_small m -> manifest_small m' ->
  no_collision [write_canonical (manifest_value m); write_canonical (manifest_value m')] ->
  is_ok (root m) = true /\ (root m = root m' <-> m = m').
Proof.
  intros Hm Hm' Hn. split; [done|]. split; [|by intros ->]. intros Heq. unfold root, canonical_json in Heq. cbn in Heq.
  apply (inj Ok), sha256_hex_inj in Heq; [|done]. apply manifest_value_inj; [done..|].
  apply sort_keys_of_canonical; [apply manifest_value_wf..|done].
Qed.
End root.

(** ** On a sample *)

Definition manifest_of (artifacts : list str) : EvidenceManifest :=
  {| em_thread := 7; em_result := Some {| re_sha256 := lit "00"; re_produced_by := 5 |}; em_artifacts := artifacts;
     em_attestations := [{| ea_kind := KindResult; ea_sha256 := None; ea_tier := SelfReported; ea_by := 5 |}] |}.

Lemma evidence_root_binds_witness :
  root (H := SampleText.text) (manifest_of [lit "aa"]) <> root (H := SampleText.text) (manifest_of [lit "ab"]).
Proof.
  intros Heq. apply (evidence_root_binds (H := SampleText.text)) in Heq; [done|repeat split; repeat constructor..|].
  apply SampleSha.no_collision_eval. by vm_compute.
Defined.
