(* ===== verification/NextLaws.v ===== *)
(** * Laws of pulling work

    [claim_next] hands out the first claimable thread of the queue's order
    and only such a thread, never fails to hand one out when there is one,
    and keeps live claims off each other's footprints and within the slots'
    capacities; the queue's counts partition the open threads by the same
    rules. *)

From stdpp Require Import strings.
From S2P Require Import Prelude Text Json EventChain EventLog Footprint Fsm Db Budget TxLogic AuditTrail Claimability Threads FootprintStore StoreRels FlowLogic StoreOps ClaimLaws StoreLaws Samples.
Local Open Scope tx_scope.

(** ** The queue's order *)

Lemma lex_ltb_irrefl a : lex_ltb a a = false.
Proof. induction a as [|x a IH]; [done|]. cbn. rewrite Z.ltb_irrefl, Z.eqb_refl. done. Qed.

(** On keys of one length the order is total. *)
Lemma lex_ltb_total a b : length a = length b -> lex_ltb a b = false -> lex_ltb b a = false -> a = b.
Proof.
  revert b. induction a as [|x a IH]; intros [|y b] Hl; cbn; try done. intros Hab Hba.
  apply orb_false_iff in Hab as [Hab1 Hab2], Hba as [Hba1 Hba2]. bool_simpl.
  assert (x = y) as -> by lia. rewrite Z.eqb_refl in *. f_equal. apply IH; [by injection Hl|done..].
Qed.

Lemma lex_ltb_trans a b c :
  length a = length b -> length b = length c -> lex_ltb a b = true -> lex_ltb b c = true -> lex_ltb a c = true.
Proof.
  revert b c. induction a as [|x a IH]; intros [|y b] [|z c] Hab Hbc; cbn; try done.
  rewrite !orb_true_iff, !andb_true_iff, !Z.ltb_lt, !Z.eqb_eq.
  intros [?|[-> ?]] [?|[-> ?]]; try (left; lia). right. split; [done|].
  apply (IH b c); [by injection Hab|by injection Hbc|done..].
Qed.

Lemma lex_ltb_neg_trans a b c :
  length a = length b -> length b = length c -> lex_ltb a b = false -> lex_ltb b c = false -> lex_ltb a c = false.
Proof.
  intros Hab Hbc H1 H2. destruct (lex_ltb a c) eqn:H3; [|done].
  destruct (lex_ltb c b) eqn:H4.
  - rewrite (lex_ltb_trans a c b) in H1; congruence.
  - rewrite (lex_ltb_total c b) in H3; congruence.
Qed.

Lemma sort_key_inj d q a b : sort_key d q a = sort_key d q b -> a.1 = b.1.
Proof. unfold sort_key. intros [= _ _ _ _ ?]. by apply N2Z.inj. Qed.

(** The chosen row goes strictly before every other eligible row. *)
Lemma candidate_first d q id t e :
  candidate_select d q = Some (id, t) -> threads d !! e.1 = Some e.2 -> eligible d q e = true -> e.1 <> id ->
  precedes d q (id, t) e = true.
Proof.
  intros Hc He Hel Hne. assert (precedes d q e (id, t) = false) as Hle.
  { eapply (first_by_least (precedes d q)); [..|exact Hc|]; unfold precedes.
    - intros. apply lex_ltb_irrefl.
    - intros a b c. by apply lex_ltb_trans.
    - intros a b c. by apply lex_ltb_neg_trans.
    - apply elem_of_bfilter. split; [|done]. destruct e. by apply elem_of_map_to_list. }
  unfold precedes in *. destruct (lex_ltb (sort_key d q (id, t)) (sort_key d q e)) eqn:E; [done|].
  apply lex_ltb_total in E; [|done|done]. by apply sort_key_inj in E.
Qed.

Lemma candidate_none d q : candidate_select d q = None -> forall id t, threads d !! id = Some t -> eligible d q (id, t) = false.
Proof.
  intros Hc%first_by_None id t Ht. destruct (eligible d q (id, t)) eqn:E; [|done].
  assert ((id, t) ∈ List.filter (eligible d q) (map_to_list (threads d))) as Hin
    by (apply elem_of_bfilter; by rewrite elem_of_map_to_list).
  rewrite Hc in Hin. by apply not_elem_of_nil in Hin.
Qed.

Section next.
Context `{JsonText, Sha256, Env}.

(** C3: a pull of work that returns gives the caller the one thread of its scope that is eligible (open, unheld or lapsed, not parked, duplicated, over budget, finished, blocked, waiting, gated or deferred, readable by the caller, for its skills, engine and repository, not its own family's change, not behind a warming sibling) and that the queue's order puts strictly before every other eligible thread, under a token not used before; it changes no other thread, and it returns nothing exactly when no thread is eligible. *)
Theorem claim_next_correct g scope m lease_secs repo engine lane w r evs w' :
  claim_next_with_event g scope m lease_secs repo engine lane w = (Ok (r, evs), w') ->
  let q := next_query g scope m repo engine lane w in
  match r with
  | None => (forall id t, threads (db w) !! id = Some t -> eligible (db w) q (id, t) = false)
            /\ db w' = db w
  | Some (id, t') =>
      exists t, threads (db w) !! id = Some t /\ eligible (db w) q (id, t) = true
                /\ (forall e, threads (db w) !! e.1 = Some e.2 -> eligible (db w) q e = true -> e.1 <> id ->
                      precedes (db w) q (id, t) e = true)
                /\ t' = take_claim m (uuid (ids w)) (next_deadline (truncate_micros (clock (ticks w))) lease_secs)
                          (truncate_micros (truncate_micros (clock (ticks w)))) t
                /\ threads (db w') = <[id := t']> (threads (db w))
  end.
Proof.
  intros E q. apply claim_next_with_event_outcome in E. fold q in E. destruct r as [[id t']|]; cbn in E.
  - destruct E as (t & Hc & Ht' & Ht & _). exists t. pose proof (candidate_eligible _ _ _ _ Hc) as [Hin Hel].
    split_and!; [done..| |done|done]. intros e He Hee Hne. by eapply candidate_first.
  - destruct E as [Hc Hd]. split; [|done]. by apply candidate_none.
Qed.

(** ** A pull always succeeds *)

(** [m] returns a value from every world of [P], and stays in [P]. *)
Definition succeeds {A} (P : World -> Prop) (m : Tx A) : Prop :=
  forall w, P w -> exists a w', m w = (Ok a, w') /\ P w'.

Lemma succeeds_bind {A B} P (m : Tx A) (k : A -> Tx B) :
  succeeds P m -> (forall a, succeeds P (k a)) -> succeeds P (bind m k).
Proof.
  intros Hm Hk w Hw. destruct (Hm w Hw) as (a & w1 & E1 & H1'). destruct (Hk a w1 H1') as (b & w2 & E2 & H2').
  exists b, w2. by rewrite (bind_Ok _ _ _ _ _ E1).
Qed.

Lemma succeeds_ret {A} P (a : A) : succeeds P (ret a).
Proof. intros w Hw. by exists a, w. Qed.

Lemma succeeds_for_each {A B} P (f : A -> Tx B) l :
  (forall x, x ∈ l -> succeeds P (f x)) -> succeeds P (for_each f l).
Proof.
  induction l as [|x l IH]; intros Hf; cbn; [apply succeeds_ret|].
  apply succeeds_bind; [apply Hf; left|]. intros y. apply succeeds_bind; [apply IH; intros; apply Hf; by right|].
  intros ys. apply succeeds_ret.
Qed.

(** The thread and its channel are there, and the members [ms]. *)
Definition present (id : N) (ms : list N) (w : World) : Prop :=
  (exists t c, threads (db w) !! id = Some t /\ channels (db w) !! t_channel t = Some c)
  /\ forall m, m ∈ ms -> is_Some (members (db w) !! m).

Section present.
Context (id : N) (ms : list N).

Lemma succeeds_read {A} (f : Db -> A) : succeeds (present id ms) (read f).
Proof. intros w Hw. by eexists _, w. Qed.

Lemma succeeds_utc_now : succeeds (present id ms) utc_now.
Proof. intros w Hw. by eexists _, _. Qed.

Lemma succeeds_new_uuid : succeeds (present id ms) new_uuid.
Proof. intros w Hw. by eexists _, _. Qed.

Lemma succeeds_write f :
  (forall d, threads (f d) = threads d) -> (forall d, channels (f d) = channels d) ->
  (forall d, members (f d) = members d) -> succeeds (present id ms) (write f).
Proof.
  intros Ht Hc Hm w [Hw1 Hw2]. eexists _, _. split; [done|]. unfold present. cbn. rewrite Ht, Hc, Hm. done.
Qed.

Lemma succeeds_append e : succeeds (present id ms) (append_in_tx e).
Proof.
  intros w Hw. unfold append_in_tx. destruct (append_event_total (fun v => v) e w) as (row & l & ->). by eexists _, _.
Qed.

Lemma succeeds_scope : succeeds (present id ms) (thread_scope_in_tx id).
Proof.
  intros w Hw. destruct Hw as [(t & c & Ht & Hc) Hm] eqn:Eq. clear Eq. exists (c_ws c, t_channel t), w.
  split; [|done]. unfold thread_scope_in_tx, bind, read, thread_scope. cbn. by rewrite Ht; cbn; rewrite Hc.
Qed.

Lemma succeeds_member_fk m : m ∈ ms -> succeeds (present id ms) (member_fk m).
Proof.
  intros Hin w Hw. exists tt, w. split; [|done]. unfold member_fk, bind, read. cbn.
  by rewrite bool_decide_eq_true_2 by (by apply Hw).
Qed.

Lemma succeeds_upsert f : succeeds (present id ms) (upsert_budget id f).
Proof.
  intros w Hw. unfold upsert_budget, bind, read. cbn.
  rewrite bool_decide_eq_true_2 by (destruct Hw as [(t & c & -> & _) _]; by eexists). cbn.
  by eexists _, _.
Qed.

Lemma succeeds_charge s : succeeds (present id ms) (charge_wall_in_tx id s).
Proof.
  unfold charge_wall_in_tx. destruct s as [s|]; [|apply succeeds_read].
  apply succeeds_bind; [apply succeeds_upsert|]. intros. apply succeeds_ret.
Qed.

Lemma succeeds_insert_worker m : m ∈ ms -> succeeds (present id ms) (insert_worker id m).
Proof.
  intros Hin w Hw. unfold insert_worker.
  rewrite (bind_Ok (read _) _ w true w)
    by (unfold read; rewrite bool_decide_eq_true_2; [done|destruct Hw as [(t & c & -> & _) _]; by eexists]).
  rewrite (bind_Ok (ret tt) _ w tt w) by done.
  destruct (succeeds_member_fk m Hin w Hw) as ([] & w1 & E1 & H1'). rewrite (bind_Ok _ _ _ _ _ E1).
  by apply succeeds_write.
Qed.

Lemma succeeds_record m :
  m ∈ ms -> (forall actor, delegate_acting_for m = Some actor -> actor ∈ ms) -> succeeds (present id ms) (record_in_tx id m).
Proof.
  intros Hin Hd. unfold record_in_tx. apply succeeds_bind.
  - apply succeeds_for_each. intros x [->|Hx]%elem_of_cons; [by apply succeeds_insert_worker|].
    apply succeeds_insert_worker. destruct (delegate_acting_for m); [|by apply not_elem_of_nil in Hx].
    apply list_elem_of_singleton in Hx as ->. by apply Hd.
  - intros _. apply succeeds_bind; [apply succeeds_read|]. intros s. by apply succeeds_write.
Qed.

Lemma succeeds_end_lapsed row m e s : succeeds (present id ms) (end_lapsed_claim_in_tx id row m e s).
Proof.
  unfold end_lapsed_claim_in_tx. apply succeeds_bind; [apply succeeds_charge|]. intros b.
  destruct (b ≫= _) as [[budget reason]|]; (apply succeeds_bind; [apply succeeds_scope|]; intros sc).
  - unfold fail_claim_in_tx. apply succeeds_bind; [apply succeeds_utc_now|]. intros now.
    apply succeeds_bind; [apply succeeds_append|]. intros ev.
    apply succeeds_bind; [|intros; apply succeeds_ret]. unfold dlq_record_in_tx.
    apply succeeds_bind; [apply succeeds_new_uuid|]. intros i.
    apply succeeds_bind; [apply succeeds_utc_now|]. intros now'.
    apply succeeds_bind; [by apply succeeds_write|]. intros _. apply succeeds_ret.
  - apply succeeds_bind; [apply succeeds_utc_now|]. intros now. apply succeeds_append.
Qed.

Lemma succeeds_assignment_event row m actor prev note :
  t_assignee row = Some m -> m ∈ ms -> (forall actor, delegate_acting_for m = Some actor -> actor ∈ ms) ->
  succeeds (present id ms) (append_assignment_event id row actor prev note).
Proof.
  intros Ha Hin Hd. unfold append_assignment_event. rewrite Ha.
  apply succeeds_bind; [by apply succeeds_record|]. intros _.
  apply succeeds_bind; [apply succeeds_scope|]. intros sc.
  apply succeeds_bind; [apply succeeds_utc_now|]. intros now. apply succeeds_append.
Qed.
End present.

(** An eligible thread's channel exists, and so does its reader. *)
Lemma eligible_present d q id t :
  eligible d q (id, t) = true ->
  (exists c, channels d !! t_channel t = Some c) /\ is_Some (members d !! q_member q).
Proof.
  unfold eligible, readable_by, readable_thread. cbn. destruct (channels d !! t_channel t) as [c|]; [|done].
  intros Hel. bool_simpl. split; [by exists c|].
  destruct (threads d !! id) as [t1|]; [|done]. destruct (channels d !! t_channel t1); [|done].
  by destruct (members d !! q_member q).
Qed.

Lemma take_candidate_succeeds id m now s w ms :
  present id ms w -> m ∈ ms ->
  exists t w', take_candidate id m now s w = (Ok t, w') /\ t_assignee t = Some m /\ present id ms w'.
Proof.
  intros [(t & c & Ht & Hc) Hm] Hin. unfold take_candidate, new_uuid, bind, update_thread, member_fk, read.
  cbn. rewrite Ht. cbn. rewrite bool_decide_eq_true_2 by (by apply Hm). cbn.
  eexists _, _. split; [done|]. split; [done|]. split; [|done]. cbn. rewrite lookup_insert_eq.
  by eexists _, c.
Qed.

(** Pulling work never fails and never starves: when the delegate the request acts through, if any, is a member, claim_next returns without an error, and it hands out a thread whenever one is eligible for the caller. *)
Theorem claim_next_progress g scope m lease_secs repo engine lane w :
  (forall actor, delegate_acting_for m = Some actor -> is_Some (members (db w) !! actor)) ->
  exists r evs w',
    claim_next_with_event g scope m lease_secs repo engine lane w = (Ok (r, evs), w')
    /\ ((exists id t, threads (db w) !! id = Some t
                      /\ eligible (db w) (next_query g scope m repo engine lane w) (id, t) = true) ->
        is_Some r).
Proof.
  intros Hd. set (q := next_query g scope m repo engine lane w).
  set (now := truncate_micros (clock (ticks w))).
  set (w1 := {| db := db w; ticks := S (S (ticks w)); ids := ids w |}).
  set (w0 := {| db := db w; ticks := S (ticks w); ids := ids w |}).
  unfold claim_next_with_event, commit. rewrite (bind_Ok db_now _ w now w0) by done.
  rewrite (bind_Ok (claim_next_candidate _ _ _ _ _ _ _) _ w0 (candidate_select (db w) q) w1) by done.
  destruct (candidate_select (db w) q) as [[id t]|] eqn:Ec.
  - apply candidate_eligible in Ec as [Ht Hel]. pose proof (eligible_present _ _ _ _ Hel) as [[c Hc] Hm].
    set (ms := m :: match delegate_acting_for m with Some a => [a] | None => [] end).
    assert (present id ms w1) as Hp.
    { split; [by exists t, c|]. intros x [->|Hx]%elem_of_cons; [done|].
      destruct (delegate_acting_for m); [|by apply not_elem_of_nil in Hx].
      apply list_elem_of_singleton in Hx as ->. by apply Hd. }
    assert (forall actor, delegate_acting_for m = Some actor -> actor ∈ ms) as Hds
      by (intros actor Ha; unfold ms; rewrite Ha; right; left).
    destruct (take_candidate_succeeds id m now lease_secs w1 ms Hp) as (t' & w2 & E2 & Ha & Hp2); [left|].
    rewrite (bind_Ok _ _ _ _ _ E2).
    match goal with |- context [bind ?m ?k w2] => assert (succeeds (present id ms) (bind m k)) as Hs end.
    { apply succeeds_bind.
      - destruct (lapsed_claim t) as [[[h e] st]|]; [|apply succeeds_ret].
        apply succeeds_bind; [apply succeeds_end_lapsed|]. intros. apply succeeds_ret.
      - intros ended. apply succeeds_bind; [|intros; apply succeeds_ret].
        eapply succeeds_assignment_event; [done|left|done]. }
    destruct (Hs w2 Hp2) as ([r evs] & w3 & E3 & _). rewrite E3. exists r, evs, w3. split; [done|]. intros _.
    do 2 apply bind_Ok_inv in E3 as (? & ? & _ & E3). apply ret_Ok in E3 as [[= -> _] _]. by eexists.
  - cbn. eexists _, _, _. split; [done|]. intros (id & t & Ht & Hel).
    by rewrite (candidate_none _ _ Ec id t Ht) in Hel.
Qed.
End next.

(** ** Live claims keep apart *)

Lemma sql_prefix_spec a b : sql_prefix a b = true <-> exists r, a = b ++ r.
Proof.
  unfold sql_prefix. rewrite bool_decide_eq_true. split.
  - intros Ht. exists (drop (length b) a). rewrite <- Ht at 1. by rewrite take_drop.
  - intros [r ->]. by rewrite take_app_length.
Qed.

Lemma items_overlap_sym a b : items_overlap a b = items_overlap b a.
Proof.
  unfold items_overlap. destruct (decide (f_namespace b = f_namespace a)) as [Hns|Hns].
  - rewrite !Hns. rewrite !(bool_decide_eq_true_2 (f_namespace a = f_namespace a)) by done.
    rewrite (bool_decide_ext (f_ws b = f_ws a) (f_ws a = f_ws b)) by done.
    rewrite (bool_decide_ext (f_repo b = f_repo a) (f_repo a = f_repo b)) by done.
    rewrite (bool_decide_ext (f_thread b = f_thread a) (f_thread a = f_thread b)) by done.
    rewrite (orb_comm (bool_decide (f_mode a = Exclusive))).
    f_equal. case_decide; [apply orb_comm|]. by apply bool_decide_ext.
  - rewrite !(bool_decide_eq_false_2 _ Hns), (bool_decide_eq_false_2 (f_namespace a = f_namespace b)) by congruence.
    by rewrite !andb_false_r.
Qed.

(** No two live claims of a workspace share a part of a repository. *)
Definition disjoint_claims (d : Db) (now : Z) : Prop :=
  forall x y, x ∈ footprints d -> y ∈ footprints d ->
    live_claim_of d (f_thread x) now = true -> live_claim_of d (f_thread y) now = true ->
    items_overlap x y = false.

Lemma disjoint_claims_eval d now :
  forallb (fun x => forallb (fun y => negb (live_claim_of d (f_thread x) now && live_claim_of d (f_thread y) now)
                                      || negb (items_overlap x y)) (footprints d)) (footprints d) = true ->
  disjoint_claims d now.
Proof.
  rewrite forallb_true. intros Hall x y Hx Hy Hlx Hly. specialize (Hall x Hx). rewrite forallb_true in Hall.
  specialize (Hall y Hy). rewrite Hlx, Hly in Hall. cbn in Hall. by destruct (items_overlap x y).
Qed.

(** No slot has more live claims than its capacity. *)
Definition slots_within (d : Db) (now : Z) : Prop :=
  forall ws slot cap, slot_capacities d !! (ws, slot) = Some cap ->
    (Z.of_nat (size (slot_threads d ws slot now)) <= cap)%Z.

(** Taking one thread leaves the other threads' claims as they were. *)
Lemma live_claim_other d d' id t' j now :
  threads d' = <[id := t']> (threads d) -> j <> id -> live_claim_of d' j now = live_claim_of d j now.
Proof. intros Ht Hj. unfold live_claim_of. rewrite Ht. by rewrite lookup_insert_ne. Qed.

Lemma not_deferred d id now :
  deferred d id now = false ->
  overlapping d id now = [] /\ forall f, f ∈ footprint_of d id -> slot_at_capacity d now f = false.
Proof.
  unfold deferred, conflicts_with_live_claims, slot_full. intros Hd. bool_simpl. split.
  - destruct (overlapping d id now); done.
  - by apply existsb_false.
Qed.

Lemma elem_of_footprint_of d id f : f ∈ footprint_of d id <-> f ∈ footprints d /\ f_thread f = id.
Proof. unfold footprint_of. rewrite elem_of_bfilter, bool_decide_eq_true. done. Qed.

Lemma take_disjoint d d' id t' now :
  threads d' = <[id := t']> (threads d) -> footprints d' = footprints d -> deferred d id now = false ->
  disjoint_claims d now -> disjoint_claims d' now.
Proof.
  intros Ht Hf Hdef Hdis. apply not_deferred in Hdef as [Hov _].
  assert (forall x y, x ∈ footprints d -> y ∈ footprints d -> f_thread x = id ->
            live_claim_of d' (f_thread y) now = true -> items_overlap x y = false) as Hmine.
  { intros x y Hx Hy Hid Hl. destruct (items_overlap x y) eqn:Eo; [|done].
    assert (f_thread y <> id) as Hne.
    { unfold items_overlap in Eo. bool_simpl. congruence. }
    rewrite (live_claim_other d d' id t') in Hl by done.
    assert (y ∈ overlapping d id now) as Hin.
    { unfold overlapping. apply elem_of_bfilter. split; [done|]. rewrite andb_true_iff. split; [|done].
      apply existsb_true. exists x. split; [|done]. by apply elem_of_footprint_of. }
    rewrite Hov in Hin. by apply not_elem_of_nil in Hin. }
  intros x y. rewrite Hf. intros Hx Hy Hlx Hly.
  destruct (decide (f_thread x = id)) as [Hxi|Hxi]; [by apply Hmine|].
  destruct (decide (f_thread y = id)) as [Hyi|Hyi]; [rewrite items_overlap_sym; by apply Hmine|].
  rewrite (live_claim_other d d' id t') in Hlx, Hly by done. by apply Hdis.
Qed.

Lemma take_slots d d' id t' now :
  threads d' = <[id := t']> (threads d) -> footprints d' = footprints d ->
  slot_capacities d' = slot_capacities d -> deferred d id now = false ->
  slots_within d now -> slots_within d' now.
Proof.
  intros Ht Hf Hc Hdef Hs ws slot cap. rewrite Hc. intros Hcap. apply not_deferred in Hdef as [_ Hslot].
  set (others := list_to_set (f_thread <$> slot_holders d ws slot id now) : gset N).
  assert (slot_threads d' ws slot now ⊆ {[id]} ∪ others) as Hsub.
  { intros j. unfold slot_threads, others, slot_holders. rewrite elem_of_union, elem_of_singleton, !elem_of_list_to_set.
    rewrite !list_elem_of_fmap. intros (f & -> & Hin). rewrite Hf in Hin. apply elem_of_bfilter in Hin as [Hin Hb].
    destruct (decide (f_thread f = id)) as [->|Hne]; [by left|right]. exists f. split; [done|].
    apply elem_of_bfilter. split; [done|]. rewrite (live_claim_other d d' id t') in Hb by done.
    rewrite (bool_decide_eq_false_2 _ Hne). by rewrite andb_true_r. }
  assert (others ⊆ slot_threads d ws slot now) as Hoth.
  { intros j. unfold slot_threads, others, slot_holders. rewrite !elem_of_list_to_set, !list_elem_of_fmap.
    intros (f & -> & [Hin Hb]%elem_of_bfilter). exists f. split; [done|]. apply elem_of_bfilter. split; [done|].
    bool_simpl. rewrite !andb_true_iff, !bool_decide_eq_true. done. }
  destruct (decide (id ∈ slot_threads d' ws slot now)) as [Hin|Hout].
  - apply elem_of_list_to_set, list_elem_of_fmap in Hin as (f & Hid & Hin). rewrite Hf in Hin.
    apply elem_of_bfilter in Hin as [Hin Hb]. bool_simpl. subst ws slot.
    assert (f ∈ footprint_of d id) as Hmine by (by apply elem_of_footprint_of).
    pose proof (Hslot f Hmine) as Hfree. unfold slot_at_capacity in Hfree.
    rewrite bool_decide_eq_true_2, Hcap in Hfree by done. bool_simpl. unfold slot_in_use in Hfree.
    rewrite <- Hid in Hfree. fold others in Hfree. apply subseteq_size in Hsub.
    rewrite size_union_alt, size_singleton in Hsub.
    assert (size (others ∖ {[id]}) <= size others) by (apply subseteq_size; set_solver). lia.
  - assert (slot_threads d' ws slot now ⊆ slot_threads d ws slot now) as Hle by set_solver.
    apply subseteq_size in Hle. specialize (Hs ws slot cap Hcap). lia.
Qed.

Section apart.
Context `{JsonText, Sha256, Env}.

(** The tables of footprints and capacities. *)
Definition footprints_same (w w' : World) : Prop :=
  footprints (db w') = footprints (db w) /\ slot_capacities (db w') = slot_capacities (db w).

Global Instance footprints_same_claims : ClaimRel footprints_same.
Proof.
  constructor; try (intros; by split).
  constructor; [intros; by split|]. intros w1 w2 w3 _ _ [Hf1 Hc1] [Hf2 Hc2].
    split; [by rewrite Hf2|by rewrite Hc2].
Qed.

Lemma claim_next_footprints g scope m s repo engine lane w :
  footprints_same w (claim_next_with_event g scope m s repo engine lane w).2.
Proof.
  assert (keeps 0 footprints_same (claim_next_with_event g scope m s repo engine lane)) as Hk.
  { unfold claim_next_with_event, claim_next_candidate, take_candidate. keeps_auto.
    apply keeps_update; [apply _|]. intros. by split. }
  apply Hk. lia.
Qed.

(** C28: a swarm pulling from one queue stays off overlapping work: when live claims are pairwise disjoint and every slot is within its capacity at the time the call compares leases with, they still are after it, with the new claim counted. *)
Theorem claim_next_keeps_apart g scope m lease_secs repo engine lane w r evs w' :
  claim_next_with_event g scope m lease_secs repo engine lane w = (Ok (r, evs), w') ->
  let now := lease_clock g (truncate_micros (clock (ticks w))) in
  disjoint_claims (db w) now -> slots_within (db w) now ->
  disjoint_claims (db w') now /\ slots_within (db w') now.
Proof.
  intros E now Hdis Hslots. pose proof (claim_next_footprints g scope m lease_secs repo engine lane w) as [Hf Hc].
  rewrite E in Hf, Hc. cbn in Hf, Hc. apply claim_next_with_event_outcome in E.
  destruct r as [[id t']|]; cbn in E; [|by destruct E as [_ ->]].
  destruct E as (t & Hcand & _ & Ht & _). apply candidate_eligible in Hcand as [_ Hel].
  assert (deferred (db w) id now = false) as Hdef.
  { unfold eligible, claimable, stalled in Hel. destruct (channels _ !! _); [|done]. by bool_simpl. }
  split; [by eapply take_disjoint|by eapply take_slots].
Qed.
End apart.

(** ** The queue's counts *)

Lemma held_not_available t now : held t now = negb (available t now).
Proof.
  unfold held, available, not_lapsed. destruct (t_assignee t); cbn; [|done]. destruct (t_expires t); cbn; [|done].
  by rewrite Z.leb_antisym.
Qed.

Lemma count_ext p p' l : (forall e, e ∈ l -> p e = p' e) -> count p l = count p' l.
Proof.
  unfold count. induction l as [|x l IH]; intros Hp; [done|]. cbn. rewrite (Hp x) by left.
  assert (length (List.filter p l) = length (List.filter p' l)) as Hl by (apply IH; intros; apply Hp; by right).
  destruct (p' x); cbn; by rewrite Hl.
Qed.

Lemma count_split p r l : count p l = count (fun e => p e && r e) l + count (fun e => p e && negb (r e)) l.
Proof.
  unfold count. induction l as [|x l IH]; [done|]. cbn. destruct (p x), (r x); cbn; lia.
Qed.

Lemma count_all l : length l = count (fun _ => true) l.
Proof. unfold count. by rewrite bfilter_all. Qed.

(** The rows the counts are over, that claim_next's rules find claimable. *)
Definition ready_rows (d : Db) (scope : ClaimScope) (reader : option N) (repo : option str)
    (engine : option TaskEngine) (now : Z) : list (N * ThreadRow) :=
  List.filter (fun e => claimable d e.1 e.2 now) (open_threads d scope reader repo engine).

Lemma open_threads_open d scope reader repo engine e :
  e ∈ open_threads d scope reader repo engine -> t_state e.2 = Open /\ t_tombstoned e.2 = None.
Proof.
  intros [_ Hb]%elem_of_bfilter. destruct (channels d !! t_channel e.2); [|done]. by bool_simpl.
Qed.

(** The queue depth partitions the open threads: every open thread of the scope is exactly one of ready, assigned, blocked or unclaimable; the ready ones are exactly those claim_next's own rules find claimable; and every thread claim_next would give the reader is among them. *)
Theorem queue_depth_partitions d scope reader repo engine now :
  let depth := queue_depth_select d scope reader repo engine now in
  qd_open depth = qd_ready depth + qd_assigned depth + qd_blocked depth + qd_unclaimable depth
  /\ qd_ready depth = length (ready_rows d scope reader repo engine now)
  /\ (forall q e, q_scope q = scope -> q_now q = now -> Some (q_member q) = reader -> q_repo q = repo ->
        q_engine q = engine -> e ∈ map_to_list (threads d) -> eligible d q e = true ->
        e ∈ ready_rows d scope reader repo engine now).
Proof.
  cbn. set (rows := open_threads d scope reader repo engine). split; [|split].
  - rewrite count_all. rewrite (count_split _ (fun e => available e.2 now)).
    rewrite (count_ext (fun e => held e.2 now) (fun e => true && negb (available e.2 now)))
      by (intros; by rewrite held_not_available).
    cbn. rewrite (count_split (fun e => available e.2 now) (fun e => withheld d e.1 e.2)).
    rewrite (count_split (fun e => available e.2 now && negb (withheld d e.1 e.2)) (fun e => stalled d e.1 now)). lia.
  - unfold ready_rows. fold rows. apply count_ext. intros e He. apply open_threads_open in He as [Ho Ht].
    unfold claimable. by rewrite (bool_decide_eq_true_2 _ Ho), (bool_decide_eq_true_2 _ Ht).
  - intros q e <- <- <- <- <- Hin Hel. unfold eligible in Hel.
    destruct (channels d !! t_channel e.2) as [ch|] eqn:Ech; [|done]. bool_simpl.
    assert (claimable d e.1 e.2 (q_now q) = true) as Hcl by done. unfold claimable in Hcl. bool_simpl.
    apply elem_of_bfilter. split; [|done]. apply elem_of_bfilter. split; [done|]. rewrite Ech.
    rewrite !andb_true_iff, !bool_decide_eq_true. done.
Qed.

(** The occupancy of a channel or workspace partitions its open threads into queued, claimed, working and blocked. *)
Theorem occupancy_partitions d scope reader now :
  let oc := occupancy_select d scope reader now in
  oc_open oc = oc_queued oc + oc_claimed oc + oc_working oc + oc_blocked oc.
Proof.
  cbn. set (rows := open_threads d scope reader None None). rewrite count_all.
  rewrite (count_split _ (fun e => available e.2 now)). cbn.
  rewrite (count_split (fun e => negb (available e.2 now)) (fun e => bool_decide (t_started e.2 = None))).
  rewrite (count_split (fun e => available e.2 now)
             (fun e => available e.2 now && bool_decide (t_state e.2 = Open) && negb (withheld d e.1 e.2)
                       && negb (stalled d e.1 now))).
  rewrite (count_ext (fun e => held e.2 now && bool_decide (t_started e.2 = None))
             (fun e => negb (available e.2 now) && bool_decide (t_started e.2 = None)))
    by (intros; by rewrite held_not_available).
  rewrite (count_ext (fun e => held e.2 now && bool_decide (is_Some (t_started e.2)))
             (fun e => negb (available e.2 now) && negb (bool_decide (t_started e.2 = None))))
    by (intros e _; rewrite held_not_available; by destruct (t_started e.2)).
  rewrite (count_ext (fun e => available e.2 now && (available e.2 now && _ && _ && _))
             (fun e => available e.2 now && bool_decide (t_state e.2 = Open) && negb (withheld d e.1 e.2)
                       && negb (stalled d e.1 now)))
    by (intros e _; by destruct (available e.2 now)).
  cbn. lia.
Qed.

(** ** What the queue does not guard *)

Section renewal.
Context `{Env}.

(** Only the queue keeps claims apart. A heartbeat looks at the token alone, so the holder of a lapsed claim that nobody has reaped renews it even after another thread with an overlapping footprint was handed out, and both are then live at once. *)
Theorem renewal_can_overlap thread member token s w t mine theirs :
  threads (db w) !! thread = Some t -> fenced member token t = true -> t_state t = Open -> (0 <= s)%Z ->
  mine ∈ footprint_of (db w) thread -> theirs ∈ footprints (db w) -> items_overlap mine theirs = true ->
  live_claim_of (db w) (f_thread theirs) (clock (ticks w)) = true ->
  exists t' w', renew_claim thread member token s w = (Ok t', w')
    /\ live_claim_of (db w') thread (clock (ticks w)) = true
    /\ live_claim_of (db w') (f_thread theirs) (clock (ticks w)) = true
    /\ ~ disjoint_claims (db w') (clock (ticks w)).
Proof.
  intros Ht Hf Hopen Hs [Hm Hmt%bool_decide_eq_true]%elem_of_bfilter Hth Hov Hlive.
  assert (f_thread theirs <> thread) as Hne.
  { rewrite <- Hmt. unfold items_overlap in Hov. by bool_simpl. }
  unfold renew_claim. erewrite bind_Ok by reflexivity.
  erewrite bind_Ok by (unfold update_thread; cbn [db]; rewrite Ht, Hf; reflexivity).
  eexists _, _. split; [reflexivity|].
  assert (live_claim_of (upd_threads (fun m => <[thread := upd_updated (fun _ => clock (ticks w))
            (upd_expires (fun _ => Some (clock (ticks w) + secs s)%Z) t)]> m) (db w)) thread (clock (ticks w)) = true) as H1.
  { unfold live_claim_of. cbn [threads upd_threads]. rewrite lookup_insert_eq. unfold fenced, live in Hf. bool_simpl.
    unfold live_claim. cbn. unfold secs. rewrite !bool_decide_eq_true_2 by (done || by eexists). cbn. lia. }
  assert (live_claim_of (upd_threads (fun m => <[thread := upd_updated (fun _ => clock (ticks w))
            (upd_expires (fun _ => Some (clock (ticks w) + secs s)%Z) t)]> m) (db w)) (f_thread theirs) (clock (ticks w)) = true) as H2.
  { erewrite live_claim_other; [exact Hlive|reflexivity|exact Hne]. }
  split_and!; [exact H1|exact H2|]. intros Hd. specialize (Hd mine theirs Hm Hth). rewrite Hmt in Hd.
  by rewrite Hov in Hd; specialize (Hd H1 H2).
Qed.
End renewal.

(** ** On the sample store *)

Import Sample.

Lemma claim_next_correct_witness :
  exists t, eligible tables (next_query no_grace (InChannel 10) 7 None None None world) (101%N, t) = true.
Proof.
  destruct (claim_next_with_event no_grace (InChannel 10) 7 (Some 60%Z) None None None world)
    as [[[[[id t]|] evs]|e] w'] eqn:E; [|exfalso..].
  - pose proof (claim_next_correct _ _ _ _ _ _ _ _ _ _ _ E) as (t0 & _ & He & _).
    exists t0. assert (id = 101%N) as <-; [|exact He]. vm_compute in E. by injection E as <- _ _ _.
  - by vm_compute in E.
  - by vm_compute in E.
Defined.

Lemma claim_next_progress_witness :
  exists r evs w',
    claim_next_with_event no_grace (InChannel 10) 7 (Some 60%Z) None None None world = (Ok (r, evs), w')
    /\ is_Some r.
Proof.
  destruct (claim_next_progress no_grace (InChannel 10) 7 (Some 60%Z) None None None world) as (r & evs & w' & E & Hr).
  { by intros actor Ha. }
  exists r, evs, w'. split; [exact E|]. apply Hr. exists 101%N, (free (lit "two")). by vm_compute.
Defined.

Lemma claim_next_keeps_apart_witness :
  exists r evs w',
    claim_next_with_event no_grace (InChannel 10) 7 (Some 60%Z) None None None world = (Ok (r, evs), w')
    /\ disjoint_claims (db w') start.
Proof.
  eexists _, _, _. split; [vm_compute; reflexivity|].
  refine (proj1 (claim_next_keeps_apart no_grace (InChannel 10) 7 (Some 60%Z) None None None world _ _ _ _ _ _)).
  - vm_compute. reflexivity.
  - apply disjoint_claims_eval. by vm_compute.
  - by intros ws slot cap Hcap.
Defined.

Lemma queue_depth_partitions_witness :
  (101%N, free (lit "two")) ∈ ready_rows tables (InChannel 10) (Some 7%N) None None start.
Proof.
  apply (queue_depth_partitions tables (InChannel 10) (Some 7%N) None None start)
    with (q := next_query no_grace (InChannel 10) 7 None None None world); [done..| |].
  - apply elem_of_map_to_list. done.
  - by vm_compute.
Defined.

Lemma renewal_can_overlap_witness :
  exists t' w', renew_claim 102 6 41 60 world = (Ok t', w') /\ ~ disjoint_claims (db w') start.
Proof.
  destruct (renewal_can_overlap 102 6 41 60 world (held_by 6 41 (start - 60000000000) (free (lit "three")))
              (path_item 102 (lit "src/lib.rs")) (path_item 100 (lit "src/"))) as (t' & w' & E & _ & _ & Hd);
    [done..| | | | |exact (ex_intro _ t' (ex_intro _ w' (conj E Hd)))].
  - left.
  - left.
  - by vm_compute.
  - by vm_compute.
Defined.
