(* ===== verification/DispatchLaws.v ===== *)
(** * Laws of waits, parks and results

    One tick of the sweeper fires the due waits, earliest first and each once, and
    decides nothing; a result is accepted from the holder of the claim only. *)

From stdpp Require Import strings.
From S2P Require Import Prelude Text Json EventChain EventLog Footprint Fsm Review Db Budget TxLogic AuditTrail Claimability Threads Deps Attributes Gates LandGate Packets Landing Reviews Closing Creation Dispatch Sweeper Governance StoreRels FlowLogic StoreOps ClaimLaws AuditLaws StoreLaws ReviewLaws GovernanceLaws NextLaws Samples.
Local Open Scope tx_scope.

Section laws.
Context `{JsonText, Sha256, Env}.

(** ** The sweep decides nothing *)

(** The tables a person's decisions are in. *)
Definition undecided (w w' : World) : Prop :=
  threads (db w') = threads (db w) /\ thread_transitions (db w') = thread_transitions (db w)
  /\ approval_gates (db w') = approval_gates (db w) /\ reviews (db w') = reviews (db w)
  /\ review_verdicts (db w') = review_verdicts (db w) /\ thread_results (db w') = thread_results (db w)
  /\ thread_cancellations (db w') = thread_cancellations (db w) /\ land_gates (db w') = land_gates (db w).

Global Instance undecided_tx : TxRel undecided.
Proof.
  constructor; [by intros; split_and!|]. unfold undecided. intros w1 w2 w3 _ _ (? & ? & ? & ? & ? & ? & ? & ?) (? & ? & ? & ? & ? & ? & ? & ?).
  split_and!; congruence.
Qed.

(** The sweep's own tables. *)
Definition waits_kept (w w' : World) : Prop := thread_waits (db w') = thread_waits (db w).
Global Instance waits_kept_tx : TxRel waits_kept.
Proof. constructor; [done|]. unfold waits_kept. congruence. Qed.

Section both.
Context (R : World -> World -> Prop) `{!TxRel R} (n : nat).
Hypothesis appended : forall e w, kept_at R (append_in_tx e) w.
Hypothesis parked : forall t r m, keeps n R (mark_unclaimable t r m).

Lemma keeps_attempt {A} (m : Tx A) : keeps n R m -> keeps n R (attempt m).
Proof. intros Hm w Hn. specialize (Hm w Hn). unfold kept_at, attempt in *. by destruct (m w). Qed.

Lemma keeps_append_one e : keeps n R (append_one e).
Proof using All. unfold append_one. apply keeps_commit; [done|]. intros w _. apply appended. Qed.

Lemma keeps_retry {A} (m : Tx A) k : keeps n R m -> keeps n R (retry_from k m).
Proof.
  intros Hm. induction k as [|k IH]; cbn [retry_from]; (apply keeps_bind; [done|by apply keeps_attempt|intros r]); destruct r;
    first [apply keeps_ret; done|done].
Qed.

Lemma keeps_publish e : keeps n R (publish e).
Proof using All.
  unfold publish, retry. apply keeps_bind; [done|apply keeps_attempt, keeps_append_one|intros [row|err]]; [by apply keeps_ret|].
  apply keeps_bind; [done|apply keeps_retry, keeps_append_one|intros [row|err']]; by apply keeps_ret.
Qed.

Lemma keeps_escalate_wait thread wait : keeps n R (escalate thread wait).
Proof using All.
  unfold escalate. apply keeps_bind; [done|apply keeps_attempt; unfold get; keeps_plain|intros [t|err]]; [|by apply keeps_ret].
  apply keeps_bind; [done|apply keeps_attempt; keeps_plain|intros [c|err]]; [|by apply keeps_ret].
  apply keeps_bind; [done| |intros _].
  - destruct (wt_policy wait); [by apply keeps_ret|]. apply keeps_bind; [done| |intros; by apply keeps_ret].
    apply keeps_attempt, parked.
  - apply keeps_bind; [done|keeps_plain|intros now]. apply keeps_bind; [done|apply keeps_publish|intros; by apply keeps_ret].
Qed.
End both.

Lemma appended_frame (P : Db -> Db -> Prop) :
  (forall d, P d d) -> (forall d l o, P d (upd_outbox o (upd_log l d))) ->
  forall e w, kept_at (fun w w' => P (db w) (db w')) (append_in_tx e) w.
Proof.
  intros Hr Hp e w. unfold kept_at, append_in_tx. destruct (append_event_frame (fun v => v) e w) as [-> [Hd|(l & o & Hd)]];
    (split; [done|]); by rewrite Hd.
Qed.

Ltac mark_kept := unfold mark_unclaimable, thread_fk, member_fk; keeps_plain; apply keeps_write.

Lemma undecided_escalate n thread wait : keeps n undecided (escalate thread wait).
Proof.
  apply (keeps_escalate_wait undecided); [|intros t r m; mark_kept; by intros; split_and!].
  intros e w. destruct (appended_frame (fun d d' => undecided {| db := d; ticks := 0; ids := 0 |} {| db := d'; ticks := 0; ids := 0 |})
    ltac:(intros; by split_and!) ltac:(intros; by split_and!) e w) as [Hi Hu]. by split.
Qed.

Lemma waits_escalate n thread wait : keeps n waits_kept (escalate thread wait).
Proof.
  apply (keeps_escalate_wait waits_kept); [|intros t r m; by mark_kept].
  intros e w. by apply (appended_frame (fun d d' => thread_waits d' = thread_waits d)).
Qed.

Lemma undecided_sweep n k now : keeps n undecided (sweep_loop k now).
Proof.
  induction k as [|k IH]; cbn [sweep_loop]; [apply keeps_ret; apply _|]. apply keeps_bind; [apply _| |intros [[[thread wait]|]|err]].
  - apply keeps_attempt. unfold claim_next_due. keeps_plain. apply keeps_write. by intros; split_and!.
  - apply keeps_bind; [apply _|apply undecided_escalate|intros _]. apply keeps_bind; [apply _|done|intros; apply keeps_ret; apply _].
  - apply keeps_ret; apply _.
  - apply keeps_ret; apply _.
Qed.

(** ** It fires what is due *)

Definition due_waits (d : Db) (now : Z) : list (N * WaitRow) := List.filter (due now) (map_to_list (thread_waits d)).

Lemma elem_of_due d now thread r :
  (thread, r) ∈ due_waits d now <-> thread_waits d !! thread = Some r /\ due now (thread, r) = true.
Proof. unfold due_waits. by rewrite elem_of_bfilter, elem_of_map_to_list. Qed.

(** Firing a due wait takes it, and it alone, out of what is due. *)
Lemma due_fired d now thread r :
  (thread, r) ∈ due_waits d now ->
  due_waits d now ≡ₚ (thread, r) :: due_waits (upd_thread_waits (fun m => <[thread := fire now r]> m) d) now.
Proof.
  intros [Hr Hd]%elem_of_due. unfold due_waits. cbn [thread_waits upd_thread_waits]. set (m := delete thread (thread_waits d)).
  assert (forall x, List.filter (due now) (map_to_list (<[thread := x]> (thread_waits d)))
                    ≡ₚ List.filter (due now) ((thread, x) :: map_to_list m)) as Hx.
  { intros x. rewrite <- insert_delete_eq. apply bfilter_perm, map_to_list_insert, lookup_delete_eq. }
  rewrite <- (insert_id (thread_waits d) thread r Hr) at 1. rewrite !Hx. cbn [List.filter]. rewrite Hd.
  by assert (due now (thread, fire now r) = false) as -> by (unfold due; by rewrite bool_decide_eq_false_2).
Qed.

Lemma claim_due_run now w :
  match due_waits (db w) now with
  | [] => claim_next_due now w = (Ok None, w)
  | _ => exists thread r, (thread, r) ∈ due_waits (db w) now
           /\ (forall e, e ∈ due_waits (db w) now -> (wt_until r <= wt_until e.2)%Z)
           /\ claim_next_due now w
              = (Ok (Some (thread, fire now r)),
                 {| db := upd_thread_waits (fun m => <[thread := fire now r]> m) (db w); ticks := ticks w; ids := ids w |})
  end.
Proof.
  unfold claim_next_due, commit, next_due. fold (due_waits (db w) now). erewrite bind_Ok by reflexivity.
  fold (due_waits (db w) now). destruct (due_waits (db w) now) as [|e0 l] eqn:El; [done|]. rewrite <- El.
  destruct (first_by _ (due_waits (db w) now)) as [[thread r]|] eqn:Ef; [|apply first_by_None in Ef; congruence].
  exists thread, r. split; [by eapply first_by_elem|]. split; [|done]. intros e He.
  assert (lex_ltb [wt_until e.2; Z.of_N e.1] [wt_until r; Z.of_N thread] = false) as Hl.
  { apply (first_by_least (fun a b : N * WaitRow => lex_ltb [wt_until a.2; Z.of_N a.1] [wt_until b.2; Z.of_N b.1])
             (due_waits (db w) now) (thread, r));
      [intros; apply lex_ltb_irrefl|intros a b c; by apply lex_ltb_trans|intros a b c; by apply lex_ltb_neg_trans|exact Ef|done]. }
  cbn in Hl. apply orb_false_iff in Hl as [Hl _]. bool_simpl. lia.
Qed.

(** Every step of an escalation is answered. *)
Lemma attempt_ok {A} (m : Tx A) w : exists r w', attempt m w = (Ok r, w').
Proof. unfold attempt. destruct (m w). eauto. Qed.

Lemma retry_ok {A} k (m : Tx A) w : exists r w', retry_from k m w = (Ok r, w').
Proof.
  revert w. induction k as [|k IH]; intros w; cbn [retry_from]; destruct (attempt_ok m w) as (r & w1 & E);
    rewrite (bind_Ok _ _ _ _ _ E); destruct r; cbn; eauto.
Qed.

Lemma publish_ok e w : exists r w', publish e w = (Ok r, w').
Proof.
  unfold publish, retry. destruct (attempt_ok (append_one e) w) as (r & w1 & E). rewrite (bind_Ok _ _ _ _ _ E).
  destruct r as [row|err]; [eauto|]. destruct (retry_ok (EVENT_APPEND_ATTEMPTS - 1) (append_one e) w1) as (r' & w2 & E').
  rewrite (bind_Ok _ _ _ _ _ E'). destruct r'; eauto.
Qed.

Lemma escalate_ok thread wait w : exists w', escalate thread wait w = (Ok tt, w').
Proof.
  unfold escalate. destruct (attempt_ok (get thread) w) as (r & w1 & E). rewrite (bind_Ok _ _ _ _ _ E).
  destruct r as [t|]; [|eauto]. match goal with |- context [bind (attempt ?m) _ ?w] => destruct (attempt_ok m w) as (r & w2 & E') end.
  rewrite (bind_Ok _ _ _ _ _ E'). destruct r as [c|]; [|eauto].
  assert (exists w3, (match wt_policy wait with
           | Park => attempt (mark_unclaimable thread (timeout_reason (wt_reason wait)) (wt_by wait)) ;; ret tt
           | Notify => ret tt end) w2 = (Ok tt, w3)) as [w3 E3].
  { destruct (wt_policy wait); [eauto|].
    destruct (attempt_ok (mark_unclaimable thread (timeout_reason (wt_reason wait)) (wt_by wait)) w2) as (r & w3 & E3).
    rewrite (bind_Ok _ _ _ _ _ E3). eauto. }
  rewrite (bind_Ok _ _ _ _ _ E3). erewrite bind_Ok by reflexivity.
  match goal with |- context [bind (publish ?e) _ ?w] => destruct (publish_ok e w) as (r & w4 & E4) end.
  rewrite (bind_Ok _ _ _ _ _ E4). eauto.
Qed.

(** What a bounded run of the loop does to the waits: it fires as many as are due
    and it may, the earliest ones, and no other row changes. *)
Definition fired_waits (now : Z) (fired : nat) (d d' : Db) : Prop :=
  length (due_waits d now) = fired + length (due_waits d' now)
  /\ (forall e, e ∈ due_waits d' now -> e ∈ due_waits d now)
  /\ (forall thread, thread_waits d' !! thread = thread_waits d !! thread
        \/ exists r, (thread, r) ∈ due_waits d now /\ thread_waits d' !! thread = Some (fire now r)
             /\ forall e, e ∈ due_waits d' now -> (wt_until r <= wt_until e.2)%Z).

Lemma fired_none now d : fired_waits now 0 d d.
Proof. split; [done|]. split; [done|]. by left. Qed.

Lemma sweep_loop_run k now w :
  exists fired w', sweep_loop k now w = (Ok fired, w') /\ fired = Nat.min k (length (due_waits (db w) now))
    /\ fired_waits now fired (db w) (db w').
Proof.
  revert w. induction k as [|k IH]; intros w; cbn [sweep_loop]; [exists 0, w; auto using fired_none|].
  pose proof (claim_due_run now w) as Hc. destruct (due_waits (db w) now) as [|e0 l] eqn:El.
  - unfold attempt. erewrite bind_Ok by (by rewrite Hc). cbn. exists 0, w. auto using fired_none.
  - rewrite <- El in *. destruct Hc as (thread & r & Hin & Hmin & Hc).
    set (w1 := {| db := _ |}) in Hc. unfold attempt. erewrite bind_Ok by (by rewrite Hc). cbv beta iota.
    destruct (escalate_ok thread (fire now r) w1) as [w2 E2]. rewrite (bind_Ok _ _ _ _ _ E2).
    destruct (IH w2) as (fired & w3 & E3 & Hf & Hl & Hs & Hr). rewrite (bind_Ok _ _ _ _ _ E3).
    eapply (keeps_Ok 0 waits_kept) in E2; [|apply waits_escalate|lia]. unfold waits_kept in E2.
    pose proof (due_fired (db w) now thread r Hin) as Hp. change (upd_thread_waits _ (db w)) with (db w1) in Hp.
    assert (due_waits (db w2) now = due_waits (db w1) now) as Hd by (unfold due_waits; by rewrite E2). rewrite Hd in *.
    exists (S fired), w3. split; [done|]. rewrite Hp. cbn [length]. split; [lia|]. split; [rewrite (Permutation_length Hp); cbn [length]; lia|].
    split; [intros e He; rewrite Hp; right; auto|]. intros th. destruct (Hr th) as [Heq|(r' & Hr' & Hth & Hle)].
    + rewrite Heq, E2. cbn. destruct (decide (th = thread)) as [->|Hne]; [|left; by rewrite lookup_insert_ne].
      right. exists r. rewrite lookup_insert_eq. split_and!; [done..|]. intros e He. apply Hmin. rewrite Hp. right. auto.
    + right. exists r'. split; [rewrite Hp; by right|done].
Qed.

(** ** A wait with the [park] policy parks its thread *)

(** What the sweep reads stays, and what is parked stays parked. *)
Definition parks_kept (w w' : World) : Prop :=
  threads (db w') = threads (db w) /\ channels (db w') = channels (db w) /\ members (db w') = members (db w)
  /\ forall t, PARKED (db w) t = true -> PARKED (db w') t = true.
Global Instance parks_kept_tx : TxRel parks_kept.
Proof.
  constructor; [by intros; split_and!|]. intros w1 w2 w3 _ _ (? & ? & ? & ?) (? & ? & ? & ?). split_and!; [congruence..|auto].
Qed.

Lemma parks_append e w : kept_at parks_kept (append_in_tx e) w.
Proof.
  destruct (appended_frame (fun d d' => parks_kept {| db := d; ticks := 0; ids := 0 |} {| db := d'; ticks := 0; ids := 0 |})
    ltac:(intros; by split_and!) ltac:(intros; by split_and!) e w) as [Hi Hu]. by split.
Qed.

Lemma parked_insert d t x row :
  PARKED d t = true -> PARKED (upd_thread_unclaimable (fun m => <[x := row]> m) d) t = true.
Proof.
  unfold PARKED. rewrite !bool_decide_eq_true. intros Ht. change (is_Some (<[x := row]> (thread_unclaimable d) !! t)).
  destruct (decide (t = x)) as [->|Hne]; [by rewrite lookup_insert_eq|by rewrite lookup_insert_ne].
Qed.

Lemma parks_mark n t reason m : keeps n parks_kept (mark_unclaimable t reason m).
Proof.
  unfold mark_unclaimable, thread_fk, member_fk. keeps_plain. apply keeps_write. intros w. split_and!; [done..|].
  intros t'. apply parked_insert.
Qed.

Lemma parks_trans w1 w2 w3 : parks_kept w1 w2 -> parks_kept w2 w3 -> parks_kept w1 w3.
Proof. intros (? & ? & ? & ?) (? & ? & ? & ?). split_and!; [congruence..|auto]. Qed.

Lemma parks_escalate n thread wait : keeps n parks_kept (escalate thread wait).
Proof. apply (keeps_escalate_wait parks_kept); [apply parks_append|apply parks_mark]. Qed.

Lemma parks_sweep n k now : keeps n parks_kept (sweep_loop k now).
Proof.
  induction k as [|k IH]; cbn [sweep_loop]; [apply keeps_ret; apply _|]. apply keeps_bind; [apply _| |intros [[[thread wait]|]|err]].
  - apply keeps_attempt. unfold claim_next_due. keeps_plain. apply keeps_write. by intros; split_and!.
  - apply keeps_bind; [apply _|apply parks_escalate|intros _]. apply keeps_bind; [apply _|done|intros; apply keeps_ret; apply _].
  - apply keeps_ret; apply _.
  - apply keeps_ret; apply _.
Qed.

Lemma escalate_parks thread wait w t c w' :
  threads (db w) !! thread = Some t -> channels (db w) !! t_channel t = Some c ->
  escalate thread wait w = (Ok tt, w') ->
  wt_policy wait = Park -> is_Some (members (db w) !! wt_by wait) -> PARKED (db w') thread = true.
Proof.
  intros Ht Hc. unfold escalate, attempt at 1, get. erewrite bind_Ok by (by unfold bind, read; rewrite Ht).
  cbv beta iota. unfold attempt at 1. erewrite bind_Ok by (by unfold bind, read; rewrite Hc). cbv beta iota. intros E.
  intros Hp Hm. run_step E. rewrite Hp in E0. run_step E0. apply ret_Ok in E0 as [_ ->].
  assert (PARKED (db w1) thread = true) as Hpk.
  { unfold attempt, mark_unclaimable in E1. erewrite bind_Ok in E1 by reflexivity. unfold thread_fk, member_fk in E1.
    unfold bind, read, write, ret, PARKED in E1. cbn [db] in E1. rewrite !bool_decide_eq_true_2 in E1 by (by rewrite ?Ht).
    injection E1 as _ <-. unfold PARKED. apply bool_decide_eq_true. unfold upd_thread_unclaimable.
    cbn [db thread_unclaimable]. rewrite lookup_insert_eq. by eexists. }
  eapply (keeps_Ok 0 parks_kept) in E; [by apply E|keeps_plain; apply (keeps_publish parks_kept); [apply parks_append|apply parks_mark]|lia].
Qed.

Lemma sweep_parks k now w fired w' thread r t :
  sweep_loop k now w = (Ok fired, w') -> (thread, r) ∈ due_waits (db w) now ->
  thread_waits (db w') !! thread = Some (fire now r) -> wt_policy r = Park ->
  threads (db w) !! thread = Some t -> is_Some (channels (db w) !! t_channel t) -> is_Some (members (db w) !! wt_by r) ->
  PARKED (db w') thread = true.
Proof.
  revert w fired. induction k as [|k IH]; intros w fired E Hin Hw Hpol Ht [c Hc] Hm; cbn [sweep_loop] in E.
  { apply ret_Ok in E as [-> ->]. apply elem_of_due in Hin as [Hr Hd]. rewrite Hr in Hw. simplify_eq.
    unfold due in Hd. cbn in Hd. rewrite Hw in Hd. by rewrite bool_decide_eq_false_2 in Hd. }
  pose proof (claim_due_run now w) as Hcd. destruct (due_waits (db w) now) as [|e0 l] eqn:El; [by apply not_elem_of_nil in Hin|].
  rewrite <- El in *. destruct Hcd as (th & r0 & Hin0 & _ & Hcd). set (w1 := {| db := _ |}) in Hcd.
  unfold attempt in E. erewrite bind_Ok in E by (by rewrite Hcd). cbv beta iota in E. do 2 run_step E. apply ret_Ok in E as [-> ->].
  destruct a. destruct (decide (th = thread)) as [->|Hne].
  - assert (r0 = r) as -> by (apply elem_of_due in Hin as [? _], Hin0 as [? _]; congruence).
    apply (escalate_parks thread (fire now r) w1 t c) in E0; [|done..].
    eapply (keeps_Ok 0 parks_kept) in E1; [by apply E1|apply parks_sweep|lia].
  - eapply (keeps_Ok 0 waits_kept) in E0 as Hk; [|apply waits_escalate|lia].
    eapply (keeps_Ok 0 parks_kept) in E0 as (Pt & Pc & Pm & _); [|apply parks_escalate|lia].
    eapply IH; [exact E1| |done..|by rewrite Pt|by rewrite Pc; eexists|by rewrite Pm].
    rewrite (due_fired (db w) now th r0 Hin0) in Hin. change (upd_thread_waits _ (db w)) with (db w1) in Hin.
    apply elem_of_cons in Hin as [[= <- _]|Hin]; [done|]. apply elem_of_due in Hin as [Hr Hd]. apply elem_of_due. by rewrite Hk.
Qed.

(** One tick of the wait sweeper. It always ends and reports how many waits it fired: all that are due at its reading of the clock, up to its bound of a thousand, the earliest ones; each is marked fired once and no other wait changes; a wait whose policy is to park leaves its thread parked when the thread, its channel and the wait's author are there; and no thread, transition, gate, review, verdict, result, land gate or cancellation changes, so a time-out is never a decision. *)
Theorem sweep_fires_due w :
  let now := clock (ticks w) in
  exists fired w', sweep_once w = (Ok fired, w') /\ fired = Nat.min MAX_FIRINGS_PER_TICK (length (due_waits (db w) now))
    /\ fired_waits now fired (db w) (db w') /\ undecided w w'
    /\ forall thread r t, (thread, r) ∈ due_waits (db w) now -> thread_waits (db w') !! thread = Some (fire now r) ->
         wt_policy r = Park -> threads (db w) !! thread = Some t -> is_Some (channels (db w) !! t_channel t) ->
         is_Some (members (db w) !! wt_by r) -> PARKED (db w') thread = true.
Proof.
  intros now. unfold sweep_once. erewrite bind_Ok by reflexivity. set (w1 := {| db := db w; ticks := _; ids := _ |}).
  destruct (sweep_loop_run MAX_FIRINGS_PER_TICK now w1) as (fired & w' & E & Hf & Hw). exists fired, w'.
  split; [done|]. split; [done|]. split; [done|]. split.
  - eapply (keeps_Ok 0 undecided) in E; [|apply undecided_sweep|lia]. exact E.
  - intros thread r t Hin Hw' Hp Ht Hc Hm. by eapply (sweep_parks MAX_FIRINGS_PER_TICK now w1).
Qed.

(** Parking a held thread overwrites why it is held, and with it the refusal of
    claims and assignments: the hold of a declined round is lifted by any mark. *)
Lemma parking_lifts_round_hold thread reason m w row w' :
  reason <> REVIEW_ROUND_HELD_REASON -> cap_pending (db w) thread = false ->
  mark_unclaimable thread reason m w = (Ok row, w') -> round_capped (db w') thread = false.
Proof.
  intros Hr Hc. unfold mark_unclaimable. intros E. do 4 run_step E. injection E0 as <- <-. apply thread_fk_Ok in E1 as ->.
  apply member_fk_Ok in E2 as ->. injection E3 as _ <-. apply ret_Ok in E as [_ ->]. unfold round_capped.
  unfold cap_pending in Hc. unfold upd_thread_unclaimable. cbn [db approval_gates thread_unclaimable]. rewrite Hc, lookup_insert_eq.
  apply bool_decide_eq_false. intros [= Heq]. done.
Qed.
End laws.
