(* ===== verification/ReaperLaws.v ===== *)
(** * Laws of the reaper *)

From stdpp Require Import strings.
From S2P Require Import Prelude Text Json EventChain EventLog Footprint Fsm Db Budget TxLogic AuditTrail Claimability Threads FootprintStore StoreRels FlowLogic StoreOps ClaimLaws StoreLaws Samples.
Local Open Scope tx_scope.

Lemma NoDup_fst_filter {A B} (p : A * B -> bool) (l : list (A * B)) : NoDup l.*1 -> NoDup (List.filter p l).*1.
Proof.
  induction l as [|x l IH]; cbn; [done|]. rewrite NoDup_cons. intros [Hx Hl]. destruct (p x); cbn; [|by apply IH].
  apply NoDup_cons. split; [|by apply IH]. rewrite list_elem_of_fmap. intros (y & Hy & [Hin _]%elem_of_bfilter).
  apply Hx. rewrite Hy. by apply list_elem_of_fmap_2.
Qed.

Section reaper.
Context `{JsonText, Sha256, Env}.

Lemma lapsed_select_spec d now limit e :
  e ∈ lapsed_select d now limit -> threads d !! e.1 = Some e.2 /\ lapsed_before now e.2 = true.
Proof.
  intros Hin%sql_limit_in. rewrite elem_of_order_by in Hin. apply elem_of_bfilter in Hin as [Hin Hl].
  split; [|done]. destruct e. by apply elem_of_map_to_list.
Qed.

Lemma lapsed_select_NoDup d now limit : NoDup (lapsed_select d now limit).*1.
Proof.
  unfold lapsed_select, sql_limit. rewrite fmap_take. eapply sublist_NoDup; [|apply sublist_take].
  rewrite (order_by_perm _ _). apply NoDup_fst_filter, NoDup_fst_map_to_list.
Qed.

(** With no limit, every lapsed claim is selected. *)
Lemma lapsed_select_all d now limit id t :
  (limit < 0)%Z -> threads d !! id = Some t -> lapsed_before now t = true -> (id, t) ∈ lapsed_select d now limit.
Proof.
  intros Hl Ht Hb. unfold lapsed_select, sql_limit, limit_rows. rewrite (proj2 (Z.ltb_lt _ _) Hl), firstn_all.
  rewrite elem_of_order_by. apply elem_of_bfilter. by rewrite elem_of_map_to_list.
Qed.

(** One turn of the loop, on a candidate whose row is still as it was read. *)
Lemma reap_one_Ok now e w ev w' :
  threads (db w) !! e.1 = Some e.2 -> lapsed_before now e.2 = true -> reap_one now e w = (Ok ev, w') ->
  is_Some ev /\ threads (db w') = <[e.1 := clear_claim (clock (ticks w)) e.2]> (threads (db w)).
Proof.
  destruct e as [id t]. cbn [fst snd]. intros Ht Hl E. unfold reap_one in E. cbn [fst snd] in E.
  unfold lapsed_before in Hl. destruct (t_assignee t) as [holder|] eqn:Ea; [|done].
  destruct (t_expires t) as [dl|] eqn:Ee; [|by destruct (live t)].
  assert (lapsed_claim t = Some (holder, dl, t_started t)) as Hlc by (unfold lapsed_claim; by rewrite Ea; cbn; rewrite Ee).
  rewrite Hlc in E. run_step E. injection E0 as <- <-. run_step E.
  unfold update_thread in E0. cbn in E0, Hl. rewrite Ht, Ea, Ee, bool_decide_eq_true_2 in E0 by done.
  cbn in E0. rewrite Hl in E0. injection E0 as <- <-. run_step E. apply ret_Ok in E as [-> ->].
  apply keeps_calm in E0 as [Ht' _]; [|keeps_auto]. cbn in Ht'. split; [by eexists|done].
Qed.

Lemma reap_all_Ok now l w evs w' :
  NoDup l.*1 -> (forall e, e ∈ l -> threads (db w) !! e.1 = Some e.2 /\ lapsed_before now e.2 = true) ->
  for_each (reap_one now) l w = (Ok evs, w') ->
  length (omap (fun e => e) evs) = length l
  /\ (forall id, id ∉ l.*1 -> threads (db w') !! id = threads (db w) !! id)
  /\ (forall e, e ∈ l -> exists stamp, threads (db w') !! e.1 = Some (clear_claim stamp e.2)).
Proof.
  revert w evs w'. induction l as [|e l IH]; intros w evs w' Hnd Hl E.
  - apply ret_Ok in E as [-> ->]. split_and!; [done|done|]. intros e He. by apply not_elem_of_nil in He.
  - cbn [for_each] in E. do 2 run_step E. apply ret_Ok in E as [-> ->].
    destruct (Hl e) as [He Hle]; [left|]. destruct (reap_one_Ok now e w a w0 He Hle E0) as [[x ->] Hw0].
    cbn in Hnd. apply NoDup_cons in Hnd as [Hne Hnd].
    destruct (IH w0 a0 w1 Hnd) as (Hlen & Hout & Hin); [|done|].
    { intros e' He'. destruct (Hl e') as [Ht Hb]; [by right|]. split; [|done]. rewrite Hw0.
      rewrite lookup_insert_ne; [done|]. intros Heq. apply Hne. rewrite Heq. by apply list_elem_of_fmap_2. }
    split_and!.
    + cbn. by rewrite Hlen.
    + cbn. intros id [Hid1 Hid2]%not_elem_of_cons. rewrite (Hout id Hid2), Hw0. by rewrite lookup_insert_ne.
    + intros e' [->|He']%elem_of_cons; [|by apply Hin]. exists (clock (ticks w)).
      rewrite (Hout _ Hne), Hw0. by rewrite lookup_insert_eq.
Qed.

(** C36: the reaper does nothing during the boot grace; after it, a run that returns has cleared exactly the claims it selected (live unfinished threads whose deadline is before the given time, the oldest deadlines first up to the limit), with one event for each, has changed no other thread, and, when it runs without a limit, has left no lapsed claim behind. *)
Theorem reaper_exact g now limit w evs w' :
  reap_expired_claims g now limit w = (Ok evs, w') ->
  if holding g now then evs = [] /\ w' = w
  else
    let selected := lapsed_select (db w) now limit in
    length evs = length selected
    /\ (forall e, e ∈ selected -> threads (db w) !! e.1 = Some e.2 /\ lapsed_before now e.2 = true
                  /\ exists stamp, threads (db w') !! e.1 = Some (clear_claim stamp e.2))
    /\ (forall id, id ∉ selected.*1 -> threads (db w') !! id = threads (db w) !! id)
    /\ ((limit < 0)%Z -> forall id t, threads (db w') !! id = Some t -> lapsed_before now t = false).
Proof.
  unfold reap_expired_claims. destruct (holding g now); [by intros [= <- <-]|]. intros E.
  apply commit_Ok in E. run_step E. apply read_Ok in E0 as [-> ->]. run_step E. apply ret_Ok in E as [-> ->].
  apply reap_all_Ok in E0 as (Hlen & Hout & Hin); [|apply lapsed_select_NoDup|apply lapsed_select_spec].
  split; [done|]. split; [|split; [done|]].
  - intros e He. pose proof (lapsed_select_spec _ _ _ _ He) as [? ?]. split_and!; [done|done|by apply Hin].
  - intros Hl id t Ht. destruct (decide (id ∈ (lapsed_select (db w) now limit).*1)) as [Hs|Hs].
    + apply list_elem_of_fmap in Hs as (e & -> & He). destruct (Hin e He) as [stamp Hst].
      rewrite Ht in Hst. by injection Hst as ->.
    + rewrite (Hout id Hs) in Ht. destruct (lapsed_before now t) eqn:Eb; [|done]. exfalso. apply Hs.
      apply (list_elem_of_fmap_2' fst _ (id, t)); [|done]. by apply lapsed_select_all.
Qed.
End reaper.

(** ** On the sample store *)

Import Sample.

Lemma reaper_exact_witness :
  exists evs w', reap_expired_claims no_grace (start + 1) (-1) world = (Ok evs, w')
    /\ length evs = 1 /\ forall id t, threads (db w') !! id = Some t -> lapsed_before (start + 1) t = false.
Proof.
  eexists _, _. split; [vm_compute; reflexivity|]. split; [reflexivity|].
  refine (proj2 (proj2 (proj2 (reaper_exact no_grace (start + 1) (-1) world _ _ _))) _); [vm_compute; reflexivity|done].
Defined.
