(* ===== verification/OutboxLaws.v ===== *)
(** * Laws of the outbox relay

    Several relays share one outbox, each dying whenever it likes, while
    producers append. A replica's relay moves by [Outbox.turn_step], one store call
    or publish at a time, and the replicas are interleaved at that grain; the
    invariant is that nothing is marked published that the bus did not accept. *)

From S2P Require Import Prelude Text Json EventChain EventLog Footprint Fsm Db Budget TxLogic AuditTrail Claimability Threads FootprintStore StoreRels FlowLogic StoreOps ClaimLaws StoreLaws Outbox Samples.
Local Open Scope tx_scope.

(** The shared store and bus, and where the turn of each replica's relay is. *)
Record Cluster := { shared : RelayWorld; turns : gmap N Turn }.

Definition stored (s : RelayWorld) : list OutboxRow := o_rows (outbox (db (rw s))).

Section cluster.
Context `{JsonTextLaws, Sha256Laws, Env, OutboxKeys, Bus} (max_attempts : Z).

(** What can happen next: a relay makes the next call of its turn; a relay dies or,
    its turn over, starts another, from the claim; a producer runs an operation,
    whatever it returns; an operator asks for a quarantined row again. *)
Inductive Act :=
| Steps (i : N)
| Restarts (i : N)
| Produces (o : Op)
| Replays (id : Z) (ws : N).

Definition act (a : Act) (c : Cluster) : Cluster :=
  match a with
  | Steps i =>
      match turns c !! i with
      | Some t => let '(t, s) := turn_step max_attempts t (shared c) in {| shared := s; turns := <[i := t]> (turns c) |}
      | None => c
      end
  | Restarts i =>
      match turns c !! i with
      | Some _ => {| shared := shared c; turns := <[i := TClaim]> (turns c) |}
      | None => c
      end
  | Produces o =>
      {| shared := {| rw := (exec o (rw (shared c))).2; sent := sent (shared c); calls := calls (shared c) |};
         turns := turns c |}
  | Replays id ws => {| shared := (in_store (replay_quarantined id ws) (shared c)).2; turns := turns c |}
  end.
Definition acts (l : list Act) (c : Cluster) : Cluster := foldl (fun c a => act a c) c l.

(** ** What every store call of a relay does to the rows *)

(** The ids and log ids of the rows stay, and a row that becomes published is one
    of [marked]. *)
Definition row_moved (marked : list Z) (r r' : OutboxRow) : Prop :=
  o_id r' = o_id r /\ o_log r' = o_log r
  /\ (is_Some (o_published r') -> is_Some (o_published r) \/ o_id r ∈ marked).
Definition outbox_moved (marked : list Z) (w w' : World) : Prop :=
  Forall2 (row_moved marked) (o_rows (outbox (db w))) (o_rows (outbox (db w')))
  /\ o_seq (outbox (db w')) = o_seq (outbox (db w)) /\ log (db w') = log (db w).

Lemma row_moved_refl marked r : row_moved marked r r.
Proof. split_and!; auto. Qed.

Lemma row_moved_trans marked r1 r2 r3 : row_moved marked r1 r2 -> row_moved marked r2 r3 -> row_moved marked r1 r3.
Proof.
  intros (Hi & Hl & Hp) (Hi' & Hl' & Hp'). split_and!; [congruence|congruence|]. intros Hs.
  destruct (Hp' Hs) as [Hs2|Hm]; [auto|]. right. congruence.
Qed.

Global Instance row_moved_transitive marked : Transitive (row_moved marked).
Proof. intros r1 r2 r3. apply row_moved_trans. Qed.

Lemma outbox_moved_same marked w w' :
  outbox (db w') = outbox (db w) -> log (db w') = log (db w) -> outbox_moved marked w w'.
Proof.
  intros Heq Hlog. unfold outbox_moved. rewrite Heq. split; [|done].
  apply Forall_Forall2_diag, Forall_true, row_moved_refl.
Qed.

Global Instance outbox_moved_rel marked : TxRel (outbox_moved marked).
Proof.
  constructor; [intros; by apply outbox_moved_same|].
  intros w1 w2 w3 _ _ (H12 & Hs12 & Hl12) (H23 & Hs23 & Hl23). split; [|split; congruence].
  by eapply (transitivity (R := Forall2 (row_moved marked))).
Qed.

Lemma keeps_update_outbox n marked where_ set :
  (forall d row, where_ d row = true -> row_moved marked row (set row)) ->
  keeps n (outbox_moved marked) (update_outbox where_ set).
Proof.
  intros Hs w _. split; [done|]. cbn. split; [|done]. cbn.
  apply Forall2_fmap_r, Forall_Forall2_diag, Forall_true. intros row. unfold compose. cbv beta.
  destruct (where_ (db w) row) eqn:E; [by eapply Hs|apply row_moved_refl].
Qed.

Lemma keeps_open n R `{!TxRel R} pending : keeps n R (open_pending pending).
Proof. intros w _. unfold kept_at, open_pending. destruct (omap _ _); (split; [done|]); destruct w; by apply (tx_advance {| db := db; ticks := ticks; ids := ids |}). Qed.

Lemma relay_calls_moved n :
  (forall limit lease, keeps n (outbox_moved []) (claim_pending limit lease))
  /\ (forall id, keeps n (outbox_moved []) (record_attempt id))
  /\ (forall id, keeps n (outbox_moved []) (quarantine id))
  /\ (forall id ws, keeps n (outbox_moved []) (replay_quarantined id ws))
  /\ (forall ids, keeps n (outbox_moved ids) (mark_published_batch ids)).
Proof.
  unfold claim_pending, record_attempt, quarantine, replay_quarantined, mark_published_batch, sql_now.
  split_and!; intros; keeps_auto; try (apply keeps_open; apply _);
    apply keeps_update_outbox; intros; bool_simpl; split_and!; cbn; auto.
Qed.

(** A relay's call on the shared store. *)
Lemma in_store_moved {A} marked (m : Tx A) s r s' :
  keeps 0 (outbox_moved marked) m -> in_store m s = (r, s') ->
  outbox_moved marked (rw s) (rw s') /\ sent s' = sent s.
Proof.
  intros Hk E. unfold in_store in E. pose proof (Hk (rw s)) as [_ Hm]; [lia|].
  destruct (m (rw s)) as [r1 w1]. by injection E as <- <-.
Qed.

(** ** The invariant *)

Definition numbered (d : Db) : Prop :=
  NoDup (o_id <$> o_rows (outbox d)) /\ Forall (fun i => i <= o_seq (outbox d))%Z (o_id <$> o_rows (outbox d)).

(** What a turn has in hand names rows of the table, and what it will mark was
    accepted by the bus. *)
Definition names_rows (d : Db) (pending : list Pending) : Prop :=
  Forall (fun p => exists r, r ∈ o_rows (outbox d) /\ o_id r = pd_id p /\ o_log r = pd_log p) pending.
Definition names_sent (d : Db) (sent : list Z) (published : list Z) : Prop :=
  Forall (fun id => exists r, r ∈ o_rows (outbox d) /\ o_id r = id /\ o_log r ∈ sent) published.
Definition turn_ok (d : Db) (sent : list Z) (t : Turn) : Prop :=
  match t with
  | TClaim | TDone _ => True
  | TRow _ pending published | TAttempt _ _ pending published | TQuarantine _ _ pending published =>
      names_rows d pending /\ names_sent d sent published
  end.

(** Every event has its outbox row. *)
Definition covered (d : Db) : Prop :=
  Forall (fun e => exists r, r ∈ o_rows (outbox d) /\ o_log r = e_id e) (rows (log d)).

Record cluster_ok (c : Cluster) : Prop := {
  ok_covered : covered (db (rw (shared c)));
  ok_numbered : numbered (db (rw (shared c)));
  ok_published : Forall (fun r => is_Some (o_published r) -> o_log r ∈ sent (shared c)) (stored (shared c));
  ok_turns : map_Forall (fun _ t => turn_ok (db (rw (shared c))) (sent (shared c)) t) (turns c)
}.

Lemma moved_find marked w w' r :
  outbox_moved marked w w' -> r ∈ o_rows (outbox (db w)) ->
  exists r', r' ∈ o_rows (outbox (db w')) /\ o_id r' = o_id r /\ o_log r' = o_log r.
Proof.
  intros [Hm _] Hr. apply list_elem_of_lookup in Hr as [i Hi].
  destruct (Forall2_lookup_l _ _ _ _ _ Hm Hi) as (r' & Hi' & Hid & Hl & _).
  exists r'. split; [by eapply list_elem_of_lookup_2|done].
Qed.

Lemma moved_numbered marked w w' : outbox_moved marked w w' -> numbered (db w) -> numbered (db w').
Proof.
  intros (Hm & Hs & _) [Hnd Hle]. unfold numbered. rewrite Hs.
  assert (o_id <$> o_rows (outbox (db w')) = o_id <$> o_rows (outbox (db w))) as Heq.
  { clear -Hm. induction Hm as [|r r' l l' (Hid & _) _ IH]; [done|]. cbn. by rewrite Hid, IH. }
  by rewrite Heq.
Qed.

Lemma turn_ok_moved marked w w' sent sent' l :
  outbox_moved marked w w' -> (forall x, x ∈ sent -> x ∈ sent') -> turn_ok (db w) sent l -> turn_ok (db w') sent' l.
Proof.
  intros Hm Hs.
  assert (forall pending published, names_rows (db w) pending /\ names_sent (db w) sent published ->
                                    names_rows (db w') pending /\ names_sent (db w') sent' published) as Hok; [|destruct l; try done; apply Hok].
  intros pending published [Hp Hd]. split.
  - eapply Forall_impl; [exact Hp|]. intros p (r & Hr & Hid & Hl).
    destruct (moved_find _ _ _ _ Hm Hr) as (r' & Hr' & Hid' & Hl'). exists r'. split_and!; [done|congruence..].
  - eapply Forall_impl; [exact Hd|]. intros i (r & Hr & Hid & Hl).
    destruct (moved_find _ _ _ _ Hm Hr) as (r' & Hr' & Hid' & Hl'). exists r'. split_and!; [done|congruence|].
    rewrite Hl'. auto.
Qed.

(** A call that moves rows keeps the invariant when what it marks was sent. *)
Lemma moved_ok marked s s' L :
  outbox_moved marked (rw s) (rw s') -> (forall x, x ∈ sent s -> x ∈ sent s') ->
  (forall r, r ∈ stored s -> o_id r ∈ marked -> o_log r ∈ sent s) ->
  cluster_ok {| shared := s; turns := L |} -> cluster_ok {| shared := s'; turns := L |}.
Proof.
  intros Hm Hs Hmk [Hc Hn Hp Hl]. cbn in *. constructor; cbn.
  - unfold covered. pose proof Hm as (_ & _ & ->). eapply Forall_impl; [exact Hc|]. intros e (r & Hr & He).
    destruct (moved_find _ _ _ _ Hm Hr) as (r' & Hr' & _ & Hlog). exists r'. split; [done|congruence].
  - by eapply moved_numbered.
  - apply Forall_forall. intros r' Hr' Hpub. apply list_elem_of_lookup in Hr' as [i Hi'].
    pose proof Hm as [Hf _]. destruct (Forall2_lookup_r _ _ _ _ _ Hf Hi') as (r & Hi & Hid & Hlog & Himp).
    assert (r ∈ stored s) as Hr by (by eapply list_elem_of_lookup_2). rewrite Hlog. apply Hs.
    destruct (Himp Hpub) as [Hold|Hmark]; [|by apply Hmk]. rewrite Forall_forall in Hp. by apply Hp.
  - intros i l Hi. eapply turn_ok_moved; [done|done|]. by eapply Hl.
Qed.

Lemma turn_set i l s L :
  cluster_ok {| shared := s; turns := L |} -> turn_ok (db (rw s)) (sent s) l ->
  cluster_ok {| shared := s; turns := <[i := l]> L |}.
Proof. intros [Hc Hn Hp Hl] Hok. constructor; cbn in *; [done..|]. by apply map_Forall_insert_2. Qed.

(** ** Producers *)

Definition keeps_numbered (w w' : World) : Prop := numbered (db w) -> numbered (db w').

Lemma keeps_numbered_same w w' : outbox (db w') = outbox (db w) -> keeps_numbered w w'.
Proof. intros Heq. unfold keeps_numbered, numbered. by rewrite Heq. Qed.

Global Instance keeps_numbered_store : StoreRel keeps_numbered.
Proof.
  constructor; [|intros w d' (_ & _ & _ & _ & _ & Ho & _); by apply keeps_numbered_same|intros; by apply keeps_numbered_same..].
  constructor; try (intros; by apply keeps_numbered_same).
  - constructor; [intros; by apply keeps_numbered_same|]. intros w1 w2 w3 _ _ H12 H23 Hn. by apply H23, H12.
  - intros n s e w _. unfold kept_at. rewrite append_event_eq.
    destruct (append_with_keys_in_tx _ _ _ _) as [[row l]|]; (split; [done|]); [|by apply keeps_numbered_same].
    intros [Hnd Hle]. unfold numbered. cbn. rewrite fmap_app. cbn. split.
    + apply NoDup_app. split; [done|]. split; [|apply NoDup_singleton]. intros i Hi Hin.
      apply list_elem_of_singleton in Hin as ->. rewrite Forall_forall in Hle. apply Hle in Hi. lia.
    + apply Forall_app. split; [|constructor; [lia|constructor]].
      eapply Forall_impl; [exact Hle|]. intros i Hi. cbn in Hi. lia.
Qed.

Global Instance keeps_numbered_ledger : LedgerRel keeps_numbered.
Proof. constructor; intros; by apply keeps_numbered_same. Qed.

Lemma store_runs_ok o s L :
  cluster_ok {| shared := s; turns := L |} ->
  cluster_ok {| shared := {| rw := (exec o (rw s)).2; sent := sent s; calls := calls s |}; turns := L |}.
Proof.
  intros [Hc Hn Hp Hl]. cbn in *.
  destruct (exec_kept (fun w w' => log_extended w w' /\ keeps_numbered w w') o (rw s))
    as (_ & [(new & queued & Hlog & Hq & Hids & Hf) _] & Hnum).
  { intros w1 m' _ _. split; [by apply log_extended_same|by apply keeps_numbered_same]. }
  constructor; cbn.
  - unfold covered. rewrite Hlog, Hq. apply Forall_app. split.
    + eapply Forall_impl; [exact Hc|]. intros e (r & Hr & He). exists r. rewrite elem_of_app. auto.
    + apply Forall_forall. intros e He. apply (list_elem_of_fmap_2 e_id) in He. rewrite <- Hids in He.
      apply list_elem_of_fmap in He as (r & Hr & Hin). exists r. rewrite elem_of_app. auto.
  - by apply Hnum.
  - unfold stored in *. cbn. rewrite Hq. apply Forall_app. split; [done|].
    eapply Forall_impl; [exact Hf|]. intros r (-> & _) [x Hx]. done.
  - intros i l Hi. specialize (Hl i l Hi). cbn in Hl.
    assert (forall d pending published, o_rows (outbox d) = o_rows (outbox (db (rw s))) ++ queued ->
              names_rows (db (rw s)) pending /\ names_sent (db (rw s)) (sent s) published ->
              names_rows d pending /\ names_sent d (sent s) published) as Hgrow; [|destruct l; try done; by apply Hgrow].
    intros d pending published Hd [H1' H2']. split; (eapply Forall_impl; [eassumption|]); intros x (r & Hr & Hx);
      exists r; (split; [|done]); rewrite Hd; apply elem_of_app; by left.
Qed.

Lemma open_pending_Ok pending w r w' : open_pending pending w = (Ok r, w') -> r = pending /\ w' = w.
Proof. unfold open_pending. destruct (omap _ _); [by intros [= <- <-]|done]. Qed.

Lemma claim_pending_rows limit lease w pending w' :
  claim_pending limit lease w = (Ok pending, w') -> names_rows (db w') pending.
Proof.
  unfold claim_pending. intros E. do 2 run_step E. apply open_pending_Ok in E as [-> ->]. apply commit_Ok in E1. do 2 run_step E1.
  apply read_Ok in E1 as [-> ->]. apply Forall_forall. intros p Hp. apply list_elem_of_omap in Hp as (r & Hr & Hp).
  unfold order_by in Hr. rewrite merge_sort_Permutation in Hr. apply elem_of_bfilter in Hr as [Hr _].
  exists r. split; [done|]. unfold pending_of in Hp. destruct (event_of _ _); [|done]. by injection Hp as <-.
Qed.

(** ** Every step keeps the invariant *)

(** A call that marks nothing. *)
Lemma unmarked_ok {A} (m : Tx A) s r s' L :
  keeps 0 (outbox_moved []) m -> in_store m s = (r, s') ->
  cluster_ok {| shared := s; turns := L |} -> cluster_ok {| shared := s'; turns := L |}.
Proof.
  intros Hk E. eapply in_store_moved in E as [Hm Hs]; [|exact Hk]. apply (moved_ok []); [done|by rewrite Hs|].
  intros r1 _ Hin. by apply not_elem_of_nil in Hin.
Qed.

(** A call to the bus. *)
Lemma relay_one_ok p s b s' L :
  relay_one p s = (b, s') -> cluster_ok {| shared := s; turns := L |} ->
  cluster_ok {| shared := s'; turns := L |} /\ rw s' = rw s /\ (b = true -> pd_log p ∈ sent s')
  /\ forall x, x ∈ sent s -> x ∈ sent s'.
Proof.
  unfold relay_one. intros E Hok.
  assert (rw s' = rw s /\ (b = true -> pd_log p ∈ sent s') /\ forall x, x ∈ sent s -> x ∈ sent s') as Hs.
  { destruct (bus_accepts _ _); injection E as <- <-; cbn; split_and!; try done.
    - intros _. apply elem_of_app. right. left.
    - intros x Hx. apply elem_of_app. by left. }
  split; [|done]. destruct Hs as (Hrw & _ & Hin). eapply (moved_ok []); [|exact Hin| |exact Hok].
  - by apply outbox_moved_same; rewrite Hrw.
  - intros r _ Hr. by apply not_elem_of_nil in Hr.
Qed.

(** The batch mark: the rows it names were sent. *)
Lemma mark_ok published s r s' L :
  in_store (mark_published_batch published) s = (r, s') -> names_sent (db (rw s)) (sent s) published ->
  cluster_ok {| shared := s; turns := L |} -> cluster_ok {| shared := s'; turns := L |}.
Proof.
  intros E Hd Hok. destruct (relay_calls_moved 0) as (_ & _ & _ & _ & Hmark).
  eapply in_store_moved in E as [Hm Hs]; [|apply Hmark]. eapply moved_ok; [exact Hm|by rewrite Hs| |done].
  intros r1 Hr1 Hin. unfold names_sent in Hd. rewrite Forall_forall in Hd. destruct (Hd _ Hin) as (r2 & Hr2 & Hid & Hlog).
  pose proof (ok_numbered _ Hok) as [Hnd _]. cbn in Hnd.
  assert (r1 = r2) as ->; [|done]. by eapply (NoDup_fmap_inj_elem o_id).
Qed.

(** One call of a turn. *)
Lemma turn_step_ok i t s L t' s' :
  turn_step max_attempts t s = (t', s') -> L !! i = Some t ->
  cluster_ok {| shared := s; turns := L |} -> cluster_ok {| shared := s'; turns := <[i := t']> L |}.
Proof.
  destruct (relay_calls_moved 0) as (Hclaim & Hattempt & Hquar & _ & _). intros E Hi Hok.
  pose proof (ok_turns _ Hok i t Hi) as Ht. cbn [shared] in Ht. destruct t as [|n [|row rest] pub|n row rest pub|n row rest pub|o]; cbn [turn_step] in E.
  - destruct (in_store _ s) as [[pending|e] s1] eqn:Ec; injection E as <- <-;
      (apply turn_set; [by eapply unmarked_ok|]); [|done].
    split; [|constructor]. unfold in_store in Ec. destruct (claim_pending _ _ (rw s)) as [r1 w1] eqn:E1.
    injection Ec as -> <-. by eapply claim_pending_rows.
  - destruct Ht as [_ Hd]. destruct (in_store _ s) as [[u|e] s1] eqn:Em; injection E as <- <-;
      (apply turn_set; [by eapply mark_ok|done]).
  - destruct Ht as [Hp Hd]. apply Forall_cons in Hp as [(r & Hr & Hid & Hlog) Hp].
    destruct (relay_one row s) as [b s1] eqn:Er. destruct (relay_one_ok _ _ _ _ _ Er Hok) as (Hok' & Hrw & Hsent & Hmono).
    assert (names_sent (db (rw s1)) (sent s1) pub) as Hd1.
    { rewrite Hrw. eapply Forall_impl; [exact Hd|]. intros x (r' & ? & ? & ?). exists r'. auto. }
    assert (names_rows (db (rw s1)) rest) as Hp1 by (by rewrite Hrw).
    destruct b; injection E as <- <-; (apply turn_set; [done|]); split; try done.
    apply Forall_app. split; [done|]. constructor; [|constructor]. exists r. rewrite Hrw, Hlog. split_and!; auto.
  - destruct (in_store _ s) as [[a|e] s1] eqn:Ea; pose proof (unmarked_ok _ _ _ _ _ (Hattempt _) Ea Hok) as Hok1.
    + pose proof (ok_turns _ Hok1 i _ Hi) as Ht1. destruct (_ <=? _)%Z; injection E as <- <-; by apply turn_set.
    + injection E as <- <-. by apply turn_set.
  - destruct (in_store _ s) as [a s1] eqn:Eq. injection E as <- <-. pose proof (unmarked_ok _ _ _ _ _ (Hquar _) Eq Hok) as Hok1.
    apply turn_set; [done|]. exact (ok_turns _ Hok1 i _ Hi).
  - injection E as <- <-. by apply turn_set.
Qed.

Lemma act_ok a c : cluster_ok c -> cluster_ok (act a c).
Proof.
  destruct c as [s L]. intros Hok. destruct a as [i|i|o|id ws]; cbn.
  - destruct (L !! i) as [t|] eqn:Hi; [|done]. destruct (turn_step max_attempts t s) as [t' s'] eqn:E. by eapply turn_step_ok.
  - destruct (L !! i); [|done]. by apply turn_set.
  - by apply store_runs_ok.
  - destruct (in_store _ s) as [r s'] eqn:E. eapply unmarked_ok; [|exact E|done]. by apply relay_calls_moved.
Qed.

(** C20: at-least-once delivery. Start from an empty log and outbox with every relay before its claim, and let any number of relays move, one store call or publish of [run_once] at a time and in any interleaving, the store, the keys and the bus failing at will, any relay dying and starting again at any point, while producers run store operations and operators replay quarantined rows. Then every event of the log has its outbox row, and a row is marked published only if the bus accepted its event, so an event the bus has not accepted is still waiting or quarantined. *)
Theorem relay_at_least_once s0 L0 l :
  rows (log (db (rw s0))) = [] -> stored s0 = [] -> map_Forall (fun _ t => t = TClaim) L0 ->
  let s := shared (acts l {| shared := s0; turns := L0 |}) in
  (forall r, r ∈ stored s -> is_Some (o_published r) -> o_log r ∈ sent s)
  /\ forall e, e ∈ rows (log (db (rw s))) ->
       exists r, r ∈ stored s /\ o_log r = e_id e
                 /\ (o_log r ∈ sent s \/ relayable r = true \/ quarantined_row r = true).
Proof.
  intros Hlog Hout Hidle. assert (cluster_ok {| shared := s0; turns := L0 |}) as Hok.
  { unfold stored in Hout. constructor; cbn; unfold covered, numbered, stored; rewrite ?Hlog, ?Hout; [done| |done|].
    - split; constructor.
    - intros i t Hi. by rewrite (Hidle i t Hi). }
  assert (cluster_ok (acts l {| shared := s0; turns := L0 |})) as [Hc _ Hp _].
  { revert Hok. generalize {| shared := s0; turns := L0 |}. unfold acts. induction l as [|a l IH]; intros c Hok; [done|].
    cbn. by apply IH, act_ok. }
  cbv zeta. rewrite Forall_forall in Hp. split; [done|]. intros e He. unfold covered in Hc. rewrite Forall_forall in Hc.
  destruct (Hc e He) as (r & Hr & Hlg). exists r. split_and!; [done..|].
  destruct (o_published r) as [x|] eqn:Ep; [left; by apply Hp|right].
  unfold relayable, quarantined_row. rewrite !Ep. destruct (o_quarantined r); [by right|by left].
Qed.
End cluster.

(** ** The lease between relays *)

Section lease.
Context `{Env, OutboxKeys}.

Definition stamp (now : Z) (picked : list Z) (r : OutboxRow) : OutboxRow :=
  if bool_decide (o_id r ∈ picked) then upd_claimed (fun _ => Some now) r else r.

(** The loop of [UPDATE]s stamps the picked rows and nothing else. *)
Lemma stamp_all now picked w ns w' :
  for_each (fun id => update_outbox (fun _ r => bool_decide (o_id r = id)) (upd_claimed (fun _ => Some now)))
    picked w = (Ok ns, w') ->
  o_rows (outbox (db w')) = stamp now picked <$> o_rows (outbox (db w))
  /\ log (db w') = log (db w) /\ ticks w' = ticks w.
Proof.
  revert w ns w'. induction picked as [|id picked IH]; intros w ns w' E.
  - apply ret_Ok in E as [_ ->]. split; [|done]. rewrite <- list_fmap_id at 1. by apply list_fmap_ext.
  - cbn [for_each] in E. do 2 run_step E. apply ret_Ok in E as [_ ->]. injection E0 as <- <-.
    apply IH in E1 as (-> & -> & ->). cbn. split; [|done]. rewrite <- list_fmap_compose.
    apply list_fmap_ext. intros i r _. unfold compose, stamp.
    destruct (decide (o_id r = id)) as [Heq|Hne].
    + rewrite (bool_decide_eq_true_2 (o_id r = id)) by done.
      rewrite (bool_decide_eq_true_2 (o_id r ∈ id :: picked)) by (rewrite Heq; left).
      cbn. by case_bool_decide.
    + rewrite (bool_decide_eq_false_2 (o_id r = id)) by done.
      by rewrite (bool_decide_ext (o_id r ∈ picked) (o_id r ∈ id :: picked)) by set_solver.
Qed.

(** The ids a claim picks. *)
Definition picked_ids (d : Db) (limit cutoff : Z) : list Z :=
  o_id <$> sql_limit limit (order_by (fun r => [o_id r]) (List.filter (claimable_row cutoff) (o_rows (outbox d)))).

Lemma claim_pending_Ok limit lease w pending w' :
  claim_pending limit lease w = (Ok pending, w') ->
  let now := clock (ticks w) in
  let picked := picked_ids (db w) limit (now - secs lease)%Z in
  o_rows (outbox (db w')) = stamp now picked <$> o_rows (outbox (db w))
  /\ log (db w') = log (db w) /\ ticks w' = S (ticks w)
  /\ pending = omap (pending_of (db w'))
                 (order_by (fun r => [o_id r])
                    (List.filter (fun r => bool_decide (o_id r ∈ picked)) (o_rows (outbox (db w'))))).
Proof.
  unfold claim_pending. intros E. do 2 run_step E. injection E0 as <- <-. apply open_pending_Ok in E as [-> ->].
  apply commit_Ok in E1. do 2 run_step E1.
  apply read_Ok in E as [-> ->]. apply read_Ok in E1 as [-> ->]. apply stamp_all in E0 as (Hr & Hl & Ht).
  cbn [db ticks] in *. fold (picked_ids (db w) limit (clock (ticks w) - secs lease)) in *. by split_and!.
Qed.

Lemma elem_of_picked d limit cutoff id :
  id ∈ picked_ids d limit cutoff ->
  exists r, r ∈ o_rows (outbox d) /\ o_id r = id /\ claimable_row cutoff r = true.
Proof.
  unfold picked_ids. intros (r & -> & Hr%sql_limit_in)%list_elem_of_fmap. unfold order_by in Hr.
  rewrite merge_sort_Permutation in Hr. apply elem_of_bfilter in Hr as [? ?]. eauto.
Qed.

Lemma pending_picked limit lease w pending w' p :
  claim_pending limit lease w = (Ok pending, w') -> p ∈ pending ->
  pd_id p ∈ picked_ids (db w) limit (clock (ticks w) - secs lease).
Proof.
  intros (_ & _ & _ & ->)%claim_pending_Ok (r & Hr & Hp)%list_elem_of_omap. unfold order_by in Hr.
  rewrite merge_sort_Permutation in Hr. apply elem_of_bfilter in Hr as [_ Hid%bool_decide_eq_true].
  unfold pending_of in Hp. destruct (event_of _ _); [|done]. by injection Hp as <-.
Qed.

(** Two relays do not publish the same row at once: a claim made within the lease of an earlier one returns none of the rows the earlier one returned. *)
Theorem claims_disjoint_within_lease limit1 limit2 lease w pending1 w1 pending2 w2 :
  claim_pending limit1 lease w = (Ok pending1, w1) -> claim_pending limit2 lease w1 = (Ok pending2, w2) ->
  (clock (ticks w1) <= clock (ticks w) + secs lease)%Z ->
  forall p q, p ∈ pending1 -> q ∈ pending2 -> pd_id p <> pd_id q.
Proof.
  intros E1 E2 Hclk p q Hp Hq Heq. pose proof (pending_picked _ _ _ _ _ _ E1 Hp) as Hpk.
  pose proof (pending_picked _ _ _ _ _ _ E2 Hq) as (r & Hr & Hid & Hcl)%elem_of_picked.
  apply claim_pending_Ok in E1 as (Hrows & _ & _ & _). rewrite Hrows in Hr.
  apply list_elem_of_fmap in Hr as (r0 & -> & Hr0). unfold stamp in *.
  destruct (decide (o_id r0 ∈ picked_ids (db w) limit1 (clock (ticks w) - secs lease))) as [Hin|Hout].
  - rewrite bool_decide_eq_true_2 in Hcl by done. unfold claimable_row in Hcl. cbn in Hcl. bool_simpl. lia.
  - rewrite bool_decide_eq_false_2 in Hid by done. apply Hout. by rewrite Hid, <- Heq.
Qed.
End lease.

(** ** Draining *)

Lemma length_filter_in {A B} `{EqDecision B} (f : A -> B) (l : list A) (ks : list B) :
  NoDup (f <$> l) -> NoDup ks -> (forall k, k ∈ ks -> exists x, x ∈ l /\ f x = k) ->
  length (List.filter (fun x => bool_decide (f x ∈ ks)) l) = length ks.
Proof.
  intros Hl Hk Hin. rewrite <- (length_fmap f). apply Permutation_length, NoDup_Permutation; [|done|].
  - clear -Hl. induction l as [|x l IH]; cbn; [constructor|]. cbn in Hl. apply NoDup_cons in Hl as [Hx Hl].
    case_bool_decide; [|by apply IH]. cbn. apply NoDup_cons. split; [|by apply IH].
    intros (y & Hy & [Hyl _]%elem_of_bfilter)%list_elem_of_fmap. apply Hx. rewrite Hy. by apply list_elem_of_fmap_2.
  - intros k. rewrite list_elem_of_fmap. split.
    + intros (x & -> & [_ Hx%bool_decide_eq_true]%elem_of_bfilter). done.
    + intros Hkk. destruct (Hin k Hkk) as (x & Hx & <-). exists x. split; [done|]. apply elem_of_bfilter.
      by rewrite bool_decide_eq_true.
Qed.

Lemma omap_all_length {A B} (f : A -> option B) (l : list A) :
  (forall x, x ∈ l -> is_Some (f x)) -> length (omap f l) = length l.
Proof.
  induction l as [|x l IH]; intros Hf; [done|]. cbn. destruct (Hf x) as [y Hy]; [left|]. rewrite Hy. cbn.
  f_equal. apply IH. intros z Hz. apply Hf. by right.
Qed.

Lemma filter_fmap_length {A} (g : A -> A) (p q : A -> bool) (l : list A) :
  (forall x, p (g x) = q x) -> length (List.filter p (g <$> l)) = length (List.filter q l).
Proof.
  intros Hpq. induction l as [|x l IH]; [done|]. cbn. rewrite Hpq. destruct (q x); cbn; by rewrite IH.
Qed.

Lemma filter_split_length {A} (p q : A -> bool) (l : list A) :
  length (List.filter p l)
  = length (List.filter (fun x => p x && q x) l) + length (List.filter (fun x => p x && negb (q x)) l).
Proof. induction l as [|x l IH]; [done|]. cbn. destruct (p x), (q x); cbn; lia. Qed.

Section drain.
Context `{Env, OutboxKeys, Bus}.

Lemma stamp_total now picked w : exists ns w',
  for_each (fun id => update_outbox (fun _ r => bool_decide (o_id r = id)) (upd_claimed (fun _ => Some now)))
    picked w = (Ok ns, w').
Proof.
  revert w. induction picked as [|id picked IH]; intros w; [by eexists _, _|]. cbn [for_each].
  destruct (update_outbox (fun _ r => bool_decide (o_id r = id)) (upd_claimed (fun _ => Some now)) w) as [[n|e] w1] eqn:E1;
    [|done]. rewrite (bind_Ok _ _ _ _ _ E1). destruct (IH w1) as (ns & w' & E).
  rewrite (bind_Ok _ _ _ _ _ E). by eexists _, _.
Qed.

Lemma claim_pending_total limit lease w :
  (forall n p, open_fails n p = None) -> exists pending w', claim_pending limit lease w = (Ok pending, w').
Proof.
  intros Hopen. unfold claim_pending. erewrite bind_Ok by done.
  destruct (stamp_total (clock (ticks w))
    (picked_ids (db w) limit (clock (ticks w) - secs lease)) {| db := db w; ticks := S (ticks w); ids := ids w |})
    as (ns & w' & E).
  erewrite bind_Ok by (unfold commit; erewrite bind_Ok by done; erewrite bind_Ok by exact E; reflexivity).
  assert (forall k l, omap (open_fails k) l = []) as Hnil by (intros k l; induction l as [|p l IH]; [done|]; cbn; by rewrite Hopen).
  unfold open_pending. rewrite Hnil. by eexists _, _.
Qed.

(** ** A turn ends *)

(** The calls a turn has before it at most, and what the claim can add. *)
Definition calls_left (t : Turn) : nat :=
  match t with
  | TClaim | TDone _ => 0
  | TRow _ pending _ => 1 + 3 * length pending
  | TAttempt _ _ rest _ => 3 + 3 * length rest
  | TQuarantine _ _ rest _ => 2 + 3 * length rest
  end.

Lemma turn_ends fuel max_attempts t s :
  t <> TClaim -> calls_left t <= fuel -> exists outcome s', turn_steps fuel max_attempts t s = (TDone outcome, s').
Proof.
  revert t s. induction fuel as [|fuel IH]; intros t s Hc Hf.
  - destruct t; cbn in Hf; try lia; [done|by eexists _, _].
  - cbn [turn_steps]. destruct (turn_step max_attempts t s) as [t' s'] eqn:E. apply IH.
    + destruct t as [|n [|row rest] pub|n row rest pub|n row rest pub|o]; cbn [turn_step] in E; repeat case_match; congruence.
    + destruct t as [|n [|row rest] pub|n row rest pub|n row rest pub|o]; cbn [turn_step] in E; repeat case_match;
        simplify_eq; cbn in *; lia.
Qed.

Lemma omap_length_le {A B} (f : A -> option B) (l : list A) : length (omap f l) <= length l.
Proof. induction l as [|x l IH]; [done|]. cbn. destruct (f x); cbn; lia. Qed.

Lemma claimed_length limit lease w pending w' :
  claim_pending limit lease w = (Ok pending, w') -> length pending <= length (o_rows (outbox (db w))).
Proof.
  intros (Hr & _ & _ & ->)%claim_pending_Ok. etrans; [apply omap_length_le|]. unfold order_by. rewrite merge_sort_Permutation.
  etrans; [apply List.filter_length_le|]. by rewrite Hr, length_fmap.
Qed.

(** An undisturbed turn ends, in the calls [run_once] gives it. *)
Lemma run_once_returns max_attempts s : is_Some (run_once max_attempts s).
Proof.
  unfold run_once. cbn [Nat.add turn_steps turn_step].
  destruct (in_store (claim_pending BATCH CLAIM_LEASE_SECS) s) as [[pending|e] s1] eqn:E.
  - assert (length pending <= length (o_rows (outbox (db (rw s))))) as Hl.
    { unfold in_store in E. destruct (claim_pending _ _ (rw s)) as [r1 w1] eqn:E1. injection E as -> _. by eapply claimed_length. }
    destruct (turn_ends (S (3 * length (o_rows (outbox (db (rw s)))))) max_attempts (TRow (length pending) pending []) s1)
      as (outcome & s' & Ht); [done|cbn [calls_left]; lia|]. cbn [turn_steps] in Ht. rewrite Ht. eauto.
  - destruct (turn_ends (S (3 * length (o_rows (outbox (db (rw s)))))) max_attempts (TDone (Err e)) s1)
      as (outcome & s' & Ht); [done|cbn; lia|]. cbn [turn_steps] in Ht. rewrite Ht. eauto.
Qed.

Lemma turn_steps_done fuel max_attempts outcome s : turn_steps fuel max_attempts (TDone outcome) s = (TDone outcome, s).
Proof. by induction fuel. Qed.

(** A bus that accepts everything. *)
Lemma turn_steps_accepted fuel max_attempts n pending published s :
  (forall n p, bus_accepts n p = true) ->
  turn_steps (length pending + fuel) max_attempts (TRow n pending published) s
  = turn_steps fuel max_attempts (TRow n [] (published ++ (pd_id <$> pending)))
      {| rw := rw s; sent := sent s ++ (pd_log <$> pending); calls := calls s + length pending |}.
Proof.
  intros Hb. revert published s. induction pending as [|p pending IH]; intros published s; cbn [length Nat.add turn_steps].
  - cbn. rewrite !app_nil_r, Nat.add_0_r. by destruct s.
  - cbn [turn_step]. unfold relay_one. rewrite Hb. rewrite IH. cbn. rewrite <- !app_assoc. cbn. do 2 f_equal. lia.
Qed.

Definition mark (now : Z) (marked : list Z) (r : OutboxRow) : OutboxRow :=
  if bool_decide (o_published r = None) && bool_decide (o_id r ∈ marked)
  then upd_published (fun _ => Some now) r else r.

Lemma mark_published_batch_Ok marked w :
  exists now w', mark_published_batch marked w = (Ok tt, w')
                 /\ o_rows (outbox (db w')) = mark now marked <$> o_rows (outbox (db w))
                 /\ log (db w') = log (db w) /\ ticks w <= ticks w'.
Proof.
  unfold mark_published_batch. case_decide as Hm.
  - exists 0%Z, w. split_and!; [done| |done..]. rewrite <- list_fmap_id at 1. apply list_fmap_ext. intros i r _.
    unfold mark. subst. rewrite (bool_decide_eq_false_2 (o_id r ∈ [])) by set_solver. by rewrite andb_false_r.
  - eexists _, _. cbn. split_and!; [done..|cbn; lia].
Qed.

(** The state a drain starts from: ids are unique, no relayable row is under a
    live lease, and the event of each is there. *)
Definition drainable (s : RelayWorld) : Prop :=
  NoDup (o_id <$> stored s)
  /\ forall r, r ∈ stored s -> relayable r = true ->
       claimable_row (clock (ticks (rw s)) - secs CLAIM_LEASE_SECS) r = true
       /\ is_Some (event_of (db (rw s)) (o_log r)).

(** The rows relayable now. *)
Definition backlog (s : RelayWorld) : nat := length (List.filter relayable (stored s)).

Lemma drainable_picked s :
  drainable s ->
  let picked := picked_ids (db (rw s)) BATCH (clock (ticks (rw s)) - secs CLAIM_LEASE_SECS) in
  NoDup picked /\ length picked = Nat.min 64 (backlog s)
  /\ forall id, id ∈ picked -> exists r, r ∈ stored s /\ o_id r = id /\ relayable r = true.
Proof.
  intros [Hnd Hr] picked. set (cutoff := (clock (ticks (rw s)) - secs CLAIM_LEASE_SECS)%Z) in *.
  assert (List.filter (claimable_row cutoff) (stored s) = List.filter relayable (stored s)) as Hf.
  { apply List.filter_ext_in. intros r Hin. apply list_elem_of_In in Hin.
    destruct (relayable r) eqn:E; [by apply Hr|]. unfold claimable_row. by rewrite E. }
  assert (picked = take 64 (o_id <$> order_by (fun r => [o_id r]) (List.filter relayable (stored s)))) as Hp.
  { unfold picked, picked_ids, sql_limit, limit_rows. fold (stored s). rewrite Hf.
    change (BATCH <? 0)%Z with false. cbn [Z.to_nat BATCH]. by rewrite <- fmap_take. }
  assert (NoDup (o_id <$> List.filter relayable (stored s))) as Hndf.
  { clear -Hnd. unfold stored in *. induction (o_rows _) as [|r l IH]; cbn; [constructor|]. cbn in Hnd.
    apply NoDup_cons in Hnd as [Hx Hnd]. destruct (relayable r); cbn; [|by apply IH]. apply NoDup_cons.
    split; [|by apply IH]. intros (y & Hy & [Hyl _]%elem_of_bfilter)%list_elem_of_fmap. apply Hx.
    rewrite Hy. by apply list_elem_of_fmap_2. }
  split; [|split].
  - rewrite Hp. eapply sublist_NoDup; [|apply sublist_take]. unfold order_by. by rewrite merge_sort_Permutation.
  - rewrite Hp, length_take, length_fmap. unfold order_by. by rewrite merge_sort_Permutation.
  - intros id (r & Hin & Hid & Hcl)%elem_of_picked. exists r. split_and!; [done..|].
    unfold claimable_row in Hcl. by bool_simpl.
Qed.

(** What a drainable tick fetches: every picked row, with its event. *)
Lemma drainable_pending s pending w' :
  drainable s -> claim_pending BATCH CLAIM_LEASE_SECS (rw s) = (Ok pending, w') ->
  let picked := picked_ids (db (rw s)) BATCH (clock (ticks (rw s)) - secs CLAIM_LEASE_SECS) in
  length pending = length picked /\ forall id, id ∈ pd_id <$> pending <-> id ∈ picked.
Proof.
  intros Hd E picked. pose proof (drainable_picked s Hd) as (Hndp & _ & Hrel). fold picked in Hndp, Hrel.
  destruct Hd as [Hnd Hr]. pose proof (pending_picked BATCH CLAIM_LEASE_SECS (rw s) pending w') as Hpk.
  apply claim_pending_Ok in E as E'. destruct E' as (Hrows & Hlog & _ & Hpend). fold picked in Hrows, Hpend.
  set (sel := List.filter (fun r => bool_decide (o_id r ∈ picked)) (o_rows (outbox (db w')))) in *.
  assert (forall r, r ∈ sel -> is_Some (pending_of (db w') r)) as Hsome.
  { intros r [Hin Hid%bool_decide_eq_true]%elem_of_bfilter. rewrite Hrows in Hin.
    apply list_elem_of_fmap in Hin as (r0 & -> & Hr0). assert (o_id (stamp (clock (ticks (rw s))) picked r0) = o_id r0
      /\ o_log (stamp (clock (ticks (rw s))) picked r0) = o_log r0) as [Hi Hl] by (unfold stamp; by case_match).
    rewrite Hi in Hid. destruct (Hrel _ Hid) as (r1 & Hr1 & Hid1 & Hrl).
    assert (r1 = r0) as -> by exact (NoDup_fmap_inj_elem o_id _ _ _ Hnd Hr1 Hr0 Hid1).
    destruct (Hr r0 Hr1 Hrl) as [_ [ev Hev]]. unfold pending_of, event_of in *. rewrite Hl, Hlog, Hev. by eexists. }
  assert (length sel = length picked) as Hlen.
  { unfold sel. rewrite Hrows. rewrite (filter_fmap_length _ _ (fun r => bool_decide (o_id r ∈ picked)))
      by (intros r; unfold stamp; by repeat case_match).
    apply length_filter_in; [done|done|]. intros id Hid. destruct (Hrel id Hid) as (r & ? & ? & _). eauto. }
  split.
  - rewrite Hpend, omap_all_length; [unfold order_by; by rewrite merge_sort_Permutation|].
    intros r Hin. apply Hsome. unfold order_by in Hin. by rewrite merge_sort_Permutation in Hin.
  - intros id. split; [intros (p & -> & Hp)%list_elem_of_fmap; by apply Hpk|]. intros Hid.
    destruct (Hrel id Hid) as (r & Hin & <- & _).
    assert (stamp (clock (ticks (rw s))) picked r ∈ sel) as Hsel.
    { apply elem_of_bfilter. split; [rewrite Hrows; by apply list_elem_of_fmap_2|].
      apply bool_decide_eq_true. unfold stamp. by case_match. }
    destruct (Hsome _ Hsel) as [p Hp]. apply list_elem_of_fmap. exists p. split.
    + unfold pending_of in Hp. destruct (event_of _ _); [|done]. injection Hp as <-. cbn. unfold stamp. by case_match.
    + rewrite Hpend. apply list_elem_of_omap. eexists. split; [|exact Hp].
      unfold order_by. by rewrite merge_sort_Permutation.
Qed.

(** A row through one tick that publishes the rows of [picked]. *)
Lemma relayable_ticked now1 now2 picked marked r :
  (forall id, id ∈ marked <-> id ∈ picked) ->
  relayable (mark now2 marked (stamp now1 picked r)) = relayable r && negb (bool_decide (o_id r ∈ picked)).
Proof.
  intros Heq. unfold mark, stamp. rewrite <- !(bool_decide_ext _ _ (Heq _)).
  destruct (decide (o_id r ∈ marked)) as [Hin|Hout].
  - rewrite (bool_decide_eq_true_2 (o_id r ∈ marked)) by done. cbn.
    rewrite (bool_decide_eq_true_2 (o_id r ∈ marked)) by done. unfold relayable. cbn.
    destruct (o_published r) as [x|] eqn:E; cbn; rewrite ?E; cbn; rewrite ?andb_false_r; done.
  - rewrite (bool_decide_eq_false_2 (o_id r ∈ marked)) by done. cbn.
    rewrite (bool_decide_eq_false_2 (o_id r ∈ marked)) by done. cbn. by rewrite !andb_false_r, !andb_true_r.
Qed.

(** One tick over a drainable outbox with a bus that accepts everything and keys at
    hand. *)
Lemma run_once_drains max_attempts s :
  (forall n p, bus_accepts n p = true) -> (forall n p, open_fails n p = None) -> drainable s ->
  exists now1 now2 picked marked s',
    run_once max_attempts s
    = Some (Ok {| fetched := Nat.min 64 (backlog s); relayed := Nat.min 64 (backlog s) |}, s')
    /\ (forall id, id ∈ marked <-> id ∈ picked)
    /\ NoDup picked /\ length picked = Nat.min 64 (backlog s)
    /\ (forall id, id ∈ picked -> exists r, r ∈ stored s /\ o_id r = id /\ relayable r = true)
    /\ stored s' = (mark now2 marked ∘ stamp now1 picked) <$> stored s
    /\ log (db (rw s')) = log (db (rw s)) /\ ticks (rw s) <= ticks (rw s')
    /\ exists out, sent s' = sent s ++ out /\ length out = Nat.min 64 (backlog s)
       /\ forall r, r ∈ stored s -> o_id r ∈ picked -> o_log r ∈ out.
Proof.
  intros Hb Hopen Hd. pose proof (drainable_picked s Hd) as (Hnd & Hlen & Hrel).
  set (picked := picked_ids _ _ _) in *.
  destruct (claim_pending_total BATCH CLAIM_LEASE_SECS (rw s) Hopen) as (pending & w1 & E1).
  pose proof (drainable_pending s pending w1 Hd E1) as [Hpl Hpm]. fold picked in Hpl, Hpm.
  pose proof (claim_pending_rows _ _ _ _ _ E1) as Hrows1.
  apply claim_pending_Ok in E1 as E1'. destruct E1' as (Hr1 & Hlog1 & Ht1 & _). fold picked in Hr1.
  destruct (mark_published_batch_Ok (pd_id <$> pending) w1) as (now2 & w2 & E2 & Hr2 & Hlog2 & Ht2).
  exists (clock (ticks (rw s))), now2, picked, (pd_id <$> pending). eexists. split_and!.
  - unfold run_once. pose proof (claimed_length _ _ _ _ _ E1) as Hle.
    replace (2 + 3 * length (o_rows (outbox (db (rw s)))))
      with (S (length pending + S (3 * length (o_rows (outbox (db (rw s)))) - length pending))) by lia.
    generalize (3 * length (o_rows (outbox (db (rw s)))) - length pending). intros k.
    cbn [turn_steps turn_step]. unfold in_store at 1. rewrite E1. rewrite turn_steps_accepted by done.
    cbn [turn_steps turn_step app]. unfold in_store. cbn [rw sent calls]. rewrite E2, turn_steps_done.
    rewrite length_fmap, Hpl, Hlen. done.
  - done.
  - done.
  - done.
  - done.
  - unfold stored. cbn. by rewrite Hr2, Hr1, <- list_fmap_compose.
  - cbn. congruence.
  - cbn. lia.
  - cbn. eexists. split_and!; [done|by rewrite length_fmap, Hpl|]. intros r Hr Hin.
    apply Hpm, list_elem_of_fmap in Hin as (p & Hid & Hp). unfold names_rows in Hrows1. rewrite Forall_forall in Hrows1.
    destruct (Hrows1 p Hp) as (r1 & Hin1 & Hid1 & Hlog). rewrite Hr1 in Hin1.
    apply list_elem_of_fmap in Hin1 as (r0 & -> & Hr0). destruct Hd as [Hndd _].
    assert (r0 = r) as ->.
    { eapply (NoDup_fmap_inj_elem o_id); [exact Hndd|done|exact Hr|]. rewrite Hid, <- Hid1. unfold stamp. by case_match. }
    apply list_elem_of_fmap. exists p. split; [|done]. rewrite <- Hlog. unfold stamp. by case_match.
Qed.

Lemma ticked_id now1 now2 picked marked r :
  o_id (mark now2 marked (stamp now1 picked r)) = o_id r
  /\ o_log (mark now2 marked (stamp now1 picked r)) = o_log r.
Proof. unfold mark, stamp. by repeat case_match. Qed.

(** A row a tick leaves relayable is one it did not touch. *)
Lemma ticked_untouched now1 now2 picked marked r :
  (forall id, id ∈ marked <-> id ∈ picked) -> o_id r ∉ picked -> mark now2 marked (stamp now1 picked r) = r.
Proof.
  intros Heq Hout. unfold mark, stamp. rewrite (bool_decide_eq_false_2 (o_id r ∈ picked)) by done.
  rewrite (bool_decide_eq_false_2 (o_id r ∈ marked)) by (by rewrite Heq). by rewrite andb_false_r.
Qed.

Lemma backlog_ticked now1 now2 picked marked s s' :
  drainable s -> (forall id, id ∈ marked <-> id ∈ picked) -> NoDup picked ->
  (forall id, id ∈ picked -> exists r, r ∈ stored s /\ o_id r = id /\ relayable r = true) ->
  stored s' = (mark now2 marked ∘ stamp now1 picked) <$> stored s ->
  backlog s' = backlog s - length picked.
Proof.
  intros [Hnd _] Heq Hndp Hrel Hst. unfold backlog. rewrite Hst.
  rewrite (filter_fmap_length _ _ (fun r => relayable r && negb (bool_decide (o_id r ∈ picked))))
    by (intros r; by apply relayable_ticked).
  rewrite (filter_split_length relayable (fun r => bool_decide (o_id r ∈ picked))).
  assert (List.filter (fun r => relayable r && bool_decide (o_id r ∈ picked)) (stored s)
          = List.filter (fun r => bool_decide (o_id r ∈ picked)) (stored s)) as ->.
  { apply List.filter_ext_in. intros r Hr%list_elem_of_In. case_bool_decide as Hin; [|by rewrite andb_false_r].
    destruct (Hrel _ Hin) as (r0 & Hr0 & Hid & Hrl).
    assert (r0 = r) as -> by exact (NoDup_fmap_inj_elem o_id _ _ _ Hnd Hr0 Hr Hid). by rewrite Hrl. }
  rewrite (length_filter_in o_id); [lia|exact Hnd|done|]. intros k Hk. destruct (Hrel k Hk) as (r & ? & ? & _). eauto.
Qed.

(** What a turn leaves. *)
Definition tick (max_attempts : Z) (s : RelayWorld) : RelayWorld := from_option snd s (run_once max_attempts s).

(** One tick relays up to 64 rows of the backlog and leaves a drainable outbox. *)
Lemma tick_drains max_attempts s :
  (forall n p, bus_accepts n p = true) -> (forall n p, open_fails n p = None) ->
  (forall i j, i <= j -> (clock i <= clock j)%Z) -> drainable s ->
  let s' := tick max_attempts s in
  drainable s' /\ backlog s' = backlog s - 64
  /\ length (sent s') = length (sent s) + Nat.min 64 (backlog s)
  /\ (forall x, x ∈ sent s -> x ∈ sent s')
  /\ (forall r, r ∈ stored s -> relayable r = true -> o_log r ∈ sent s' \/ r ∈ stored s').
Proof.
  intros Hb Hopen Hclk Hd. unfold tick. pose proof (run_once_drains max_attempts s Hb Hopen Hd)
    as (now1 & now2 & picked & marked & s' & -> & Heq & Hnd & Hlen & Hrel & Hst & Hlog & Ht & out & Hout & Hlo & Hin).
  cbn. pose proof (backlog_ticked _ _ _ _ _ _ Hd Heq Hnd Hrel Hst) as Hbl. split_and!.
  - destruct Hd as [Hn Hr]. split.
    + rewrite Hst, <- list_fmap_compose.
      rewrite (list_fmap_ext _ o_id) by (intros i r _; unfold compose; apply ticked_id). exact Hn.
    + intros r' Hr' Hrl. rewrite Hst in Hr'. apply list_elem_of_fmap in Hr' as (r & -> & Hr'). unfold compose in *.
      rewrite relayable_ticked in Hrl by done. bool_simpl. rewrite ticked_untouched by done.
      destruct (Hr r Hr') as [Hcl Hev]; [done|]. unfold event_of in *. rewrite Hlog. split; [|done].
      unfold claimable_row in *. bool_simpl. apply andb_true_intro. split; [done|]. destruct (o_claimed r); [|done].
      specialize (Hclk _ _ Ht). lia.
  - lia.
  - by rewrite Hout, length_app, Hlo.
  - intros x Hx. rewrite Hout. apply elem_of_app. by left.
  - intros r Hr Hrl. rewrite Hout, Hst. destruct (decide (o_id r ∈ picked)) as [Hp|Hp].
    + left. apply elem_of_app. right. by apply Hin.
    + right. apply list_elem_of_fmap. exists r. split; [|done]. unfold compose. by rewrite ticked_untouched.
Qed.

(** The relay makes progress: from an outbox where every waiting row is claimable and its event is stored, with a bus that accepts, keys at hand and a clock that does not go back, each turn sends 64 waiting rows (or all of them) and takes them off the backlog, so once [64 * k] reaches the backlog, [k] turns have sent every waiting event and nothing waits. *)
Theorem relay_drains max_attempts s k :
  (forall n p, bus_accepts n p = true) -> (forall n p, open_fails n p = None) ->
  (forall i j, i <= j -> (clock i <= clock j)%Z) -> drainable s ->
  let s' := Nat.iter k (tick max_attempts) s in
  backlog s' = backlog s - 64 * k
  /\ length (sent s') = length (sent s) + Nat.min (64 * k) (backlog s)
  /\ (backlog s <= 64 * k -> forall r, r ∈ stored s -> relayable r = true -> o_log r ∈ sent s').
Proof.
  intros Hb Hopen Hclk Hd. cbv zeta.
  assert (forall k, let s' := Nat.iter k (tick max_attempts) s in
    drainable s' /\ backlog s' = backlog s - 64 * k
    /\ length (sent s') = length (sent s) + Nat.min (64 * k) (backlog s)
    /\ (forall r, r ∈ stored s -> relayable r = true -> o_log r ∈ sent s' \/ r ∈ stored s')) as Hk.
  { clear k. intros k. induction k as [|k IH]; cbn zeta in *.
    - change (Nat.iter 0 _ s) with s. split_and!; [done|lia|lia|auto].
    - rewrite Nat.iter_succ. set (s1 := Nat.iter k _ s) in *.
      destruct IH as (Hdk & Hbk & Hlk & Hrk).
      destruct (tick_drains max_attempts _ Hb Hopen Hclk Hdk) as (Hd' & Hb' & Hl' & Hm' & Hr').
      split_and!; [done|rewrite Hb'; lia|rewrite Hl'; lia|]. intros r Hr Hrl. destruct (Hrk r Hr Hrl) as [Hs|Hs]; [auto|by apply Hr']. }
  destruct (Hk k) as (_ & Hbk & Hlk & Hrk). split_and!; [done..|]. intros Hle r Hr Hrl.
  destruct (Hrk r Hr Hrl) as [|Hs]; [done|]. exfalso.
  assert (r ∈ List.filter relayable (stored (Nat.iter k (tick max_attempts) s))) as Hin
    by (by apply elem_of_bfilter).
  unfold backlog in Hbk at 1. destruct (List.filter _ _); [by apply not_elem_of_nil in Hin|]. cbn in Hbk. lia.
Qed.
End drain.

(** ** On the sample store *)

Import Sample.

Definition two_events : World := run [OClaim 101 7 true; OUnassign 100 (Some 5%N)] world.

(** A bus that refuses its first call. Two producers run; relay 1 claims both rows,
    is refused the first, records the attempt, publishes the second and marks it;
    relay 2, which claims the first again, dies after it published it. *)
Definition fussy : Bus := {| bus_accepts := fun n _ => negb (n =? 0)%nat |}.
Definition two_relays : list Act :=
  [Produces (OClaim 101 7 true); Produces (OUnassign 100 (Some 5%N)); Steps 1; Steps 1; Steps 1; Steps 2; Steps 1; Steps 2;
   Steps 1; Restarts 2; Steps 2].
Definition relayed_once : RelayWorld :=
  shared (acts (H5 := fussy) 16 two_relays
            {| shared := {| rw := world; sent := []; calls := 0 |}; turns := <[2%N := TClaim]> {[1%N := TClaim]} |}).

Lemma relay_at_least_once_witness :
  (forall r, r ∈ stored relayed_once -> is_Some (o_published r) -> o_log r ∈ sent relayed_once)
  /\ (forall e, e ∈ rows (log (db (rw relayed_once))) ->
        exists r, r ∈ stored relayed_once /\ o_log r = e_id e
                  /\ (o_log r ∈ sent relayed_once \/ relayable r = true \/ quarantined_row r = true))
  /\ sent relayed_once = [2; 1]%Z /\ (relayable <$> stored relayed_once) = [true; false].
Proof.
  destruct (relay_at_least_once (H5 := fussy) 16 {| rw := world; sent := []; calls := 0 |} (<[2%N := TClaim]> {[1%N := TClaim]}) two_relays)
    as [Hp He]; [reflexivity|reflexivity| |].
  - apply map_Forall_insert_2; [done|]. by apply map_Forall_singleton.
  - split_and!; [exact Hp|exact He|vm_compute; reflexivity|vm_compute; reflexivity].
Defined.

Lemma claims_disjoint_within_lease_witness :
  exists pending1 w1 pending2 w2,
    claim_pending 1 60 two_events = (Ok pending1, w1) /\ claim_pending 64 60 w1 = (Ok pending2, w2)
    /\ (length pending1, length pending2) = (1, 1)
    /\ forall p q, p ∈ pending1 -> q ∈ pending2 -> pd_id p <> pd_id q.
Proof.
  eexists _, _, _, _. split; [vm_compute; reflexivity|]. split; [vm_compute; reflexivity|]. split; [reflexivity|].
  refine (claims_disjoint_within_lease 1 64 60 two_events _ _ _ _ _ _ _);
    [vm_compute; reflexivity|vm_compute; reflexivity|by vm_compute].
Defined.

Definition waiting : RelayWorld := {| rw := two_events; sent := []; calls := 0 |}.

Lemma relay_drains_witness :
  backlog waiting = 2 /\ backlog (Nat.iter 1 (tick 16) waiting) = 0.
Proof.
  split; [by vm_compute|].
  refine (proj1 (relay_drains 16 waiting 1 _ _ _ _)); [done|done|exact clock_mono|]. split.
  - apply (bool_decide_eq_true (NoDup _)). by vm_compute.
  - assert (forallb (fun r => claimable_row (clock (ticks (rw waiting)) - secs CLAIM_LEASE_SECS) r
                              && bool_decide (is_Some (event_of (db (rw waiting)) (o_log r)))) (stored waiting) = true) as Hall
      by (by vm_compute).
    rewrite forallb_true in Hall. intros r Hr _. specialize (Hall r Hr). by bool_simpl.
Defined.
