(* ===== verification/Seal.v ===== *)
(** * Sealed message words

    [crates/maidan-types/src/content_seal.rs]: the words of a message are moved
    out of its event's payload into a block encrypted under the message's own
    key before the event is hashed, and put back when the event is read while
    that key is live. A payload whose key is gone stays as the log has it.

    The cipher, base64, the JSON parser and the UUID type are other people's
    crates: [SealEnv] is what the model takes of them. *)

From stdpp Require Import strings.
From S2P Require Import Prelude Text Json.
Local Open Scope res.

(** ** Objects of [serde_json] *)

Fixpoint obj_get (k : str) (m : list (str * Value)) : option Value :=
  match m with
  | [] => None
  | (k', v) :: m => if decide (k = k') then Some v else obj_get k m
  end.
Definition obj_remove (k : str) (m : list (str * Value)) : list (str * Value) :=
  List.filter (fun e => negb (bool_decide (e.1 = k))) m.
(** [Map::insert]: the value of a key that is present is replaced. *)
Definition obj_insert (k : str) (v : Value) (m : list (str * Value)) : list (str * Value) :=
  obj_remove k m ++ [(k, v)].
Definition value_get (k : str) (v : Value) : option Value :=
  match v with Object m => obj_get k m | _ => None end.
Definition as_str (v : Value) : option str := match v with Str s => Some s | _ => None end.

(** ** Sealing and opening a payload *)

Class SealEnv := {
  (** XChaCha20-Poly1305: key, nonce, associated data, message. *)
  encrypt : list N -> list N -> list N -> list N -> option (list N);
  decrypt : list N -> list N -> list N -> list N -> option (list N);
  base64_encode : list N -> str;
  base64_decode : str -> option (list N);
  json_parse : list N -> option Value;
  uuid_parse : str -> option N;
  uuid_bytes : N -> list N
}.

(** What the documentation of the cipher and of base64 promises. *)
Class SealLaws `{SealEnv} : Prop := {
  decrypt_encrypt key nonce aad msg c :
    encrypt key nonce aad msg = Some c -> decrypt key nonce aad c = Some msg;
  base64_roundtrip b : base64_decode (base64_encode b) = Some b
}.

Definition SEALED_ALG : str := lit "xchacha20poly1305".
Definition SEALED_FIELDS : list str := [lit "body"; lit "metadata"; lit "content"].
Definition NONCE_LEN : nat := 24.
Definition SEAL_DOMAIN : list N := lit "maidan.content.seal/1".

Inductive SealError :=
| NoMessage
| Malformed
| UnsupportedAlg (alg : str)
| Authentication
| UnknownKek (id : str)
| InvalidKey
| Refused
| Unavailable.

Record SealedContent := { sl_alg : str; sl_nonce : str; sl_ciphertext : str }.
Definition sealed_value (s : SealedContent) : Value :=
  Object [(lit "alg", Str (sl_alg s)); (lit "nonce", Str (sl_nonce s)); (lit "ciphertext", Str (sl_ciphertext s))].
(** [serde_json::from_value]: a struct is read from an object by its fields'
    names, or from an array of its fields in order. *)
Definition sealed_of_value (v : Value) : option SealedContent :=
  match v with
  | Object m =>
      alg ← obj_get (lit "alg") m ≫= as_str;
      nonce ← obj_get (lit "nonce") m ≫= as_str;
      ciphertext ← obj_get (lit "ciphertext") m ≫= as_str;
      Some {| sl_alg := alg; sl_nonce := nonce; sl_ciphertext := ciphertext |}
  | Array [Str alg; Str nonce; Str ciphertext] =>
      Some {| sl_alg := alg; sl_nonce := nonce; sl_ciphertext := ciphertext |}
  | _ => None
  end.

Inductive Openness := Plain | Opened | Shredded.

Section seal.
Context `{JsonText, SealEnv}.

Definition payload_message_id (payload : Value) : option N :=
  message ← value_get (lit "message") payload;
  id ← value_get (lit "id") message;
  as_str id ≫= uuid_parse.

Definition seal_aad (message_id : N) : list N := SEAL_DOMAIN ++ [0%N] ++ uuid_bytes message_id.

(** The loop over [SEALED_FIELDS]: each field that is present moves from the
    message to the words. *)
Fixpoint take_words (fields : list str) (message words : list (str * Value)) :
    list (str * Value) * list (str * Value) :=
  match fields with
  | [] => (message, words)
  | f :: fields =>
      match obj_get f message with
      | Some v => take_words fields (obj_remove f message) (obj_insert f v words)
      | None => take_words fields message words
      end
  end.

(** [nonce] is what [generate_nonce] drew. *)
Definition seal_payload (nonce : list N) (payload : Value) (key : list N) : result SealError (Value * N) :=
  let*? message_id := (match payload_message_id payload with Some id => Ok id | None => Err NoMessage end) in
  match payload with
  | Object fields =>
      match obj_get (lit "message") fields with
      | Some (Object message) =>
          let '(message, words) := take_words SEALED_FIELDS message [] in
          let message := obj_insert (lit "body") (Str []) message in
          match canonical_json (Object words) with
          | Err _ => Err Malformed
          | Ok plaintext =>
              match encrypt key nonce (seal_aad message_id) plaintext with
              | None => Err Authentication
              | Some ciphertext =>
                  let sealed := {| sl_alg := SEALED_ALG; sl_nonce := base64_encode nonce;
                                   sl_ciphertext := base64_encode ciphertext |} in
                  Ok (Object (obj_insert (lit "sealed") (sealed_value sealed)
                                (obj_insert (lit "message") (Object message) fields)), message_id)
              end
          end
      | _ => Err NoMessage
      end
  | _ => Err NoMessage
  end.

(** The loop that puts the words back. *)
Definition put_words (words message : list (str * Value)) : list (str * Value) :=
  fold_left (fun m e => if bool_decide (e.1 ∈ SEALED_FIELDS) then obj_insert e.1 e.2 m else m) words message.

Definition open_payload (payload : Value) (key : option (list N)) : result SealError (Openness * Value) :=
  match value_get (lit "sealed") payload, key with
  | None, _ => Ok (Plain, payload)
  | Some _, None => Ok (Shredded, payload)
  | Some sealed, Some key =>
      match sealed_of_value sealed with
      | None => Err Malformed
      | Some sealed =>
          if negb (bool_decide (sl_alg sealed = SEALED_ALG)) then Err (UnsupportedAlg (sl_alg sealed))
          else
            match payload_message_id payload with
            | None => Err NoMessage
            | Some message_id =>
                match base64_decode (sl_nonce sealed) with
                | None => Err Malformed
                | Some nonce =>
                    if negb (length nonce =? NONCE_LEN)%nat then Err Malformed
                    else
                      match base64_decode (sl_ciphertext sealed) with
                      | None => Err Malformed
                      | Some ciphertext =>
                          match decrypt key nonce (seal_aad message_id) ciphertext with
                          | None => Err Authentication
                          | Some plaintext =>
                              match json_parse plaintext with
                              | Some (Object words) =>
                                  match payload with
                                  | Object fields =>
                                      let object := obj_remove (lit "sealed") fields in
                                      match obj_get (lit "message") object with
                                      | Some (Object message) =>
                                          Ok (Opened, Object (obj_insert (lit "message")
                                                                (Object (put_words words message)) object))
                                      | _ => Err NoMessage
                                      end
                                  | _ => Err NoMessage
                                  end
                              | _ => Err Malformed
                              end
                          end
                      end
                end
            end
      end
  end.
End seal.
