(* ===== verification/SealLaws.v ===== *)
(** * Sealing keeps the words for who holds the key

    A sealed payload opened under its key is the payload that was sealed; without
    the key it stays as the log has it, and none of the words are in it. *)

From stdpp Require Import strings.
From S2P Require Import Prelude Text Json Seal.

(** ** Objects by their keys *)

Lemma obj_get_app k m1 m2 :
  obj_get k (m1 ++ m2) = match obj_get k m1 with Some v => Some v | None => obj_get k m2 end.
Proof. induction m1 as [|[k' v] m1 IH]; simpl; [done|]. by destruct (decide (k = k')). Qed.

Lemma obj_get_remove k k' m : obj_get k (obj_remove k' m) = if decide (k = k') then None else obj_get k m.
Proof.
  unfold obj_remove. induction m as [|[k0 v] m IH]; simpl; [by destruct (decide _)|].
  case_bool_decide as Hk; simpl; [subst; rewrite IH; by repeat case_decide|].
  rewrite IH. repeat case_decide; congruence.
Qed.

Lemma obj_get_insert k k' v m : obj_get k (obj_insert k' v m) = if decide (k = k') then Some v else obj_get k m.
Proof. unfold obj_insert. rewrite obj_get_app, obj_get_remove. simpl. case_decide; [done|]. by destruct (obj_get k m). Qed.

Lemma obj_get_In k v m : obj_get k m = Some v -> k ∈ m.*1.
Proof. induction m as [|[k' v'] m IH]; simpl; [done|]. case_decide; [subst; set_solver|]. intros Hg. set_solver. Qed.

Lemma obj_get_None k m : k ∉ m.*1 -> obj_get k m = None.
Proof. destruct (obj_get k m) eqn:E; [|done]. by apply obj_get_In in E. Qed.

Lemma obj_get_perm k m m' : m ≡ₚ m' -> NoDup m.*1 -> obj_get k m = obj_get k m'.
Proof.
  induction 1 as [|[k0 v] m m' Hp IH|[k1 v1] [k2 v2] m|m1 m2 m3 H12 IH1 H23 IH2]; simpl; intros Hd; [done|..].
  - apply NoDup_cons in Hd as [_ Hd]. by rewrite IH.
  - apply NoDup_cons in Hd as [Hn _]. repeat case_decide; subst; set_solver.
  - rewrite IH1 by done. apply IH2. by rewrite <- H12.
Qed.

Lemma remove_keys k m : (obj_remove k m).*1 = List.filter (fun x => negb (bool_decide (x = k))) m.*1.
Proof. unfold obj_remove. induction m as [|[k' v] m IH]; cbn; [done|].
  destruct (bool_decide (k' = k)); cbn; [exact IH|f_equal; exact IH].
Qed.

Lemma insert_NoDup k v m : NoDup m.*1 -> NoDup (obj_insert k v m).*1.
Proof.
  intros Hd. unfold obj_insert. rewrite fmap_app, remove_keys. simpl. apply NoDup_app. split_and!.
  - apply NoDup_ListNoDup, List.NoDup_filter. by apply NoDup_ListNoDup.
  - intros x [_ Hx]%list_elem_of_In%List.filter_In. apply negb_true_iff, bool_decide_eq_false in Hx. set_solver.
  - apply NoDup_singleton.
Qed.

(** Two objects with the same value under every key. *)
Definition same_fields (m m' : list (str * Value)) : Prop := forall k, obj_get k m = obj_get k m'.

#[export] Instance same_fields_equiv : Equivalence same_fields.
Proof. split; [by intros m k|by intros m m' Hm k|]. intros m1 m2 m3 H12 H23 k. by rewrite (H12 k). Qed.
#[export] Instance obj_get_proper k : Proper (same_fields ==> eq) (obj_get k).
Proof. intros m m' Hm. apply Hm. Qed.
#[export] Instance obj_insert_proper k v : Proper (same_fields ==> same_fields) (obj_insert k v).
Proof. intros m m' Hm k'. rewrite !obj_get_insert. by case_decide. Qed.
#[export] Instance obj_remove_proper k : Proper (same_fields ==> same_fields) (obj_remove k).
Proof. intros m m' Hm k'. rewrite !obj_get_remove. by case_decide. Qed.

(** ** The words of a message *)

Lemma if_in_cons {A} (k f : str) (fields : list str) (x y : A) :
  (if decide (k ∈ f :: fields) then x else y) = if decide (k = f) then x else if decide (k ∈ fields) then x else y.
Proof. rewrite (decide_ext (k ∈ f :: fields) (k = f \/ k ∈ fields)) by apply elem_of_cons. repeat case_decide; naive_solver. Qed.

Lemma take_words_spec fields m w m' w' :
  take_words fields m w = (m', w') -> NoDup fields -> (forall f, f ∈ fields -> obj_get f w = None) -> NoDup w.*1 ->
  (forall k, obj_get k m' = if decide (k ∈ fields) then None else obj_get k m)
  /\ (forall k, obj_get k w' = if decide (k ∈ fields) then obj_get k m else obj_get k w) /\ NoDup w'.*1.
Proof.
  revert m w. induction fields as [|f fields IH]; intros m w; cbn [take_words].
  { intros [= <- <-] _ _ Hd. split_and!; [..|done]; intros k; by rewrite decide_False by set_solver. }
  intros Ht Hnd Hw Hd. apply NoDup_cons in Hnd as [Hf Hnd].
  assert (forall f', f' ∈ fields -> f' <> f) as Hne by (by intros f' Hf' ->).
  destruct (obj_get f m) as [v|] eqn:Ef.
  - apply IH in Ht as (Hm & Hw' & Hd'); [|done| |by apply insert_NoDup].
    2:{ intros f' Hf'. rewrite obj_get_insert, decide_False by auto. apply Hw. by apply list_elem_of_further. }
    split_and!; [..|done]; intros k; rewrite ?Hm, ?Hw', ?obj_get_remove, ?obj_get_insert, if_in_cons;
      destruct (decide (k = f)) as [->|]; [by rewrite decide_False|done|by rewrite decide_False|done].
  - apply IH in Ht as (Hm & Hw' & Hd'); [|done|intros f' Hf'; apply Hw; by apply list_elem_of_further|done].
    split_and!; [..|done]; intros k; rewrite ?Hm, ?Hw', if_in_cons;
      destruct (decide (k = f)) as [->|]; [by rewrite decide_False|done| |done].
    rewrite decide_False, Ef by done. apply Hw. apply list_elem_of_here.
Qed.

Lemma put_words_spec words m k :
  NoDup words.*1 ->
  obj_get k (put_words words m)
  = match (if decide (k ∈ SEALED_FIELDS) then obj_get k words else None) with Some v => Some v | None => obj_get k m end.
Proof.
  unfold put_words. revert m. induction words as [|[f v] words IH]; intros m Hd; simpl; [by case_decide|].
  apply NoDup_cons in Hd as [Hf Hd]. rewrite IH by done. clear IH. destruct (decide (k = f)) as [->|Hk].
  - rewrite (obj_get_None f words) by done.
    destruct (decide (f ∈ SEALED_FIELDS)); [rewrite bool_decide_true by done|rewrite bool_decide_false by done].
    + by rewrite obj_get_insert, decide_True.
    + done.
  - assert (obj_get k (if bool_decide (f ∈ SEALED_FIELDS) then obj_insert f v m else m) = obj_get k m) as ->; [|done].
    case_bool_decide; [|done]. by rewrite obj_get_insert, decide_False.
Qed.

Section seal.
Context `{JsonText, SealLaws}.

(** What a payload that sealed is. *)
Lemma seal_payload_Ok nonce fields message key sealed id :
  obj_get (lit "message") fields = Some (Object message) ->
  seal_payload nonce (Object fields) key = Ok (sealed, id) ->
  let '(bare, words) := take_words SEALED_FIELDS message [] in
  let blank := obj_insert (lit "body") (Str []) bare in
  payload_message_id (Object fields) = Some id
  /\ exists ciphertext, encrypt key nonce (seal_aad id) (write_canonical (Object words)) = Some ciphertext
    /\ sealed = Object (obj_insert (lit "sealed")
                          (sealed_value {| sl_alg := SEALED_ALG; sl_nonce := base64_encode nonce;
                                           sl_ciphertext := base64_encode ciphertext |})
                          (obj_insert (lit "message") (Object blank) fields)).
Proof.
  intros Hm. unfold seal_payload. destruct (payload_message_id (Object fields)) as [id'|]; [|done]. cbn [rbind]. rewrite Hm.
  destruct (take_words SEALED_FIELDS message []) as [bare words]. unfold canonical_json. cbn iota zeta.
  destruct (encrypt _ _ _ _) as [c|] eqn:Ee; [|done]. intros [= <- <-]. eauto.
Qed.

Lemma words_split message bare words :
  take_words SEALED_FIELDS message [] = (bare, words) ->
  (forall k, obj_get k bare = if decide (k ∈ SEALED_FIELDS) then None else obj_get k message)
  /\ (forall k, obj_get k words = if decide (k ∈ SEALED_FIELDS) then obj_get k message else None) /\ NoDup words.*1.
Proof.
  intros Ht. apply take_words_spec in Ht; [done| |done|constructor]. apply (bool_decide_unpack _). by vm_compute.
Qed.

Lemma sealed_of_sealed_value s : sealed_of_value (sealed_value s) = Some s.
Proof. by destruct s. Qed.

(** The block and the message of a sealed payload. *)
Lemma sealed_gets fields blank block :
  let payload := obj_insert (lit "sealed") block (obj_insert (lit "message") (Object blank) fields) in
  obj_get (lit "sealed") payload = Some block /\ obj_get (lit "message") payload = Some (Object blank)
  /\ obj_get (lit "message") (obj_remove (lit "sealed") payload) = Some (Object blank).
Proof. simpl. by rewrite obj_get_remove, !obj_get_insert. Qed.

Lemma message_id_kept fields message bare words id :
  obj_get (lit "message") fields = Some (Object message) -> take_words SEALED_FIELDS message [] = (bare, words) ->
  payload_message_id (Object fields) = Some id ->
  forall payload, obj_get (lit "message") payload = Some (Object (obj_insert (lit "body") (Str []) bare)) ->
  payload_message_id (Object payload) = Some id.
Proof.
  intros Hm Ht Hid payload Hp. unfold payload_message_id in *. simpl in *. rewrite Hm in Hid. rewrite Hp. simpl in *.
  apply words_split in Ht as [Hb _]. rewrite obj_get_insert, Hb. exact Hid.
Qed.

(** What is stored of a message once its words are sealed: the words are in the
    ciphertext alone; every other field of the message and of the payload is in
    clear as it was. *)
Definition words_in_ciphertext (nonce key : list N) (id : N) (fields message sealed : list (str * Value)) : Prop :=
  exists blank ciphertext,
    encrypt key nonce (seal_aad id) (write_canonical (Object (take_words SEALED_FIELDS message []).2)) = Some ciphertext
    /\ obj_get (lit "sealed") sealed
       = Some (sealed_value {| sl_alg := SEALED_ALG; sl_nonce := base64_encode nonce; sl_ciphertext := base64_encode ciphertext |})
    /\ obj_get (lit "message") sealed = Some (Object blank)
    /\ (forall k, obj_get k blank = if decide (k = lit "body") then Some (Str [])
                                   else if decide (k ∈ SEALED_FIELDS) then None else obj_get k message)
    /\ forall k, k <> lit "sealed" -> k <> lit "message" -> obj_get k sealed = obj_get k fields.

(** C38: a sealed payload opens to what was sealed, for who holds the key, and
    keeps the words in its ciphertext alone. When the payload of an event is sealed
    (it has a message with a body, and is not sealed yet) and the parser reads back
    the words the printer wrote, then opening it under the key gives a message and
    other fields with the same value under every key. Opening it without the key
    leaves it as it is, marked shredded: the message in clear has an empty body and
    neither metadata nor content, the block next to it has the algorithm, the nonce
    and the ciphertext of the words, and the rest is what was not sealed. *)
Theorem sealed_payload_roundtrip nonce fields message key sealed id words' :
  length nonce = NONCE_LEN -> obj_get (lit "sealed") fields = None ->
  obj_get (lit "message") fields = Some (Object message) -> is_Some (obj_get (lit "body") message) ->
  json_parse (write_canonical (Object (take_words SEALED_FIELDS message []).2)) = Some (Object words') ->
  words' ≡ₚ (take_words SEALED_FIELDS message []).2 ->
  seal_payload nonce (Object fields) key = Ok (sealed, id) ->
  (exists fields' message', open_payload sealed (Some key) = Ok (Opened, Object fields')
     /\ obj_get (lit "message") fields' = Some (Object message') /\ same_fields message' message
     /\ forall k, k <> lit "message" -> obj_get k fields' = obj_get k fields)
  /\ open_payload sealed None = Ok (Shredded, sealed)
  /\ exists stored, sealed = Object stored /\ words_in_ciphertext nonce key id fields message stored.
Proof.
  intros Hn Hns Hm [body Hbody] Hparse Hperm Hseal. pose proof (seal_payload_Ok _ _ _ _ _ _ Hm Hseal) as Hs. clear Hseal.
  destruct (take_words SEALED_FIELDS message []) as [bare words] eqn:Et. cbn [snd] in Hparse, Hperm.
  destruct Hs as [Hid (c & Hc & ->)]. destruct (words_split _ _ _ Et) as (Hbare & Hwords & Hnd).
  set (block := sealed_value _). set (blank := obj_insert (lit "body") (Str []) bare).
  destruct (sealed_gets fields blank block) as (Hgs & Hgm & Hgr). cbn zeta in Hgs, Hgm, Hgr.
  set (payload := obj_insert (lit "sealed") block _) in *.
  pose proof (message_id_kept _ _ _ _ _ Hm Et Hid payload Hgm) as Hid'.
  assert (NoDup words'.*1) as Hnd' by (by rewrite Hperm). split; [|split].
  - exists (obj_insert (lit "message") (Object (put_words words' blank)) (obj_remove (lit "sealed") payload)), (put_words words' blank).
    split_and!.
    + unfold open_payload. cbn [value_get]. rewrite Hgs. unfold block at 1. rewrite sealed_of_sealed_value. simpl sl_alg.
      rewrite bool_decide_true by done. cbn [negb]. rewrite Hid'. simpl sl_nonce. rewrite base64_roundtrip, Hn. simpl.
      rewrite base64_roundtrip, (decrypt_encrypt _ _ _ _ _ Hc), Hparse. by rewrite Hgr.
    + by rewrite obj_get_insert, decide_True.
    + intros k. rewrite put_words_spec by done. rewrite (obj_get_perm k _ _ Hperm Hnd'), Hwords. unfold blank.
      rewrite obj_get_insert, Hbare. destruct (decide (k ∈ SEALED_FIELDS)) as [Hin|Hout].
      * destruct (obj_get k message) eqn:Ek; [done|]. case_decide; [congruence|done].
      * rewrite decide_False; [done|]. intros ->. apply Hout. apply (bool_decide_unpack _). by vm_compute.
    + intros k Hk. rewrite obj_get_insert, decide_False, obj_get_remove by done. unfold payload.
      rewrite !obj_get_insert. destruct (decide (k = lit "sealed")) as [->|]; [by rewrite Hns|].
      by destruct (decide (k = lit "message")).
  - unfold open_payload. cbn [value_get]. by rewrite Hgs.
  - exists payload. split; [done|]. exists blank, c. rewrite Et. cbn [snd]. split_and!; [done..| |].
    + intros k. unfold blank. by rewrite obj_get_insert, Hbare.
    + intros k H1' H2'. unfold payload. by rewrite !obj_get_insert, !decide_False.
Qed.
End seal.

(** ** A sample *)

(** A cipher that shifts by the key's first byte and one, and a text form that
    writes the bytes from the last. *)
Module SealSample.
Definition message : list (str * Value) :=
  [(lit "id", Str (lit "7")); (lit "body", Str (lit "hello")); (lit "content", Array [])].
Definition words : list (str * Value) := [(lit "content", Array []); (lit "body", Str (lit "hello"))].

#[local] Instance env : SealEnv := {|
  encrypt := fun key _ _ m => Some ((fun b => b + 1 + default 0 (head key)) <$> m)%N;
  decrypt := fun key _ _ c => Some ((fun b => b - (1 + default 0 (head key))) <$> c)%N;
  base64_encode := fun b => rev b; base64_decode := fun t => Some (rev t);
  json_parse := fun t => if bool_decide (t = write_canonical (Object words)) then Some (Object words) else None;
  uuid_parse := fun _ => Some 7%N; uuid_bytes := fun _ => []
|}.
#[local] Instance env_laws : SealLaws.
Proof.
  split; [|intros b; cbn; by rewrite rev_involutive].
  intros key nonce aad m c [= <-]. cbn. f_equal. rewrite <- list_fmap_compose. rewrite <- (list_fmap_id m) at 2.
  apply list_fmap_ext. intros i b _. unfold compose, id. lia.
Qed.

(** A text somewhere in another. *)
Fixpoint occurs (word text : str) : bool :=
  starts_with text word || match text with [] => false | _ :: text => occurs word text end.

Lemma sealed_payload_roundtrip_witness :
  exists sealed, seal_payload (replicate 24 0%N) (Object [(lit "message", Object message)]) [1%N] = Ok (sealed, 7%N)
    /\ open_payload sealed None = Ok (Shredded, sealed)
    /\ occurs (lit "hello") (write_canonical (Object [(lit "message", Object message)])) = true
    /\ occurs (lit "hello") (write_canonical sealed) = false
    /\ (exists stored, sealed = Object stored
          /\ words_in_ciphertext (replicate 24 0%N) [1%N] 7 [(lit "message", Object message)] message stored)
    /\ exists fields' message', open_payload sealed (Some [1%N]) = Ok (Opened, Object fields')
         /\ obj_get (lit "message") fields' = Some (Object message') /\ same_fields message' message.
Proof.
  destruct (seal_payload (replicate 24 0%N) (Object [(lit "message", Object message)]) [1%N]) as [[sealed id]|e] eqn:Es;
    [|vm_compute in Es; discriminate].
  assert (id = 7%N) as -> by (vm_compute in Es; congruence).
  destruct (sealed_payload_roundtrip (replicate 24 0%N) [(lit "message", Object message)] message [1%N] sealed 7
              words eq_refl eq_refl eq_refl)
    as ((f & m & Ho & Hm & Hsame & _) & Hnone & Hstored); [by eexists|vm_compute; reflexivity| |exact Es|].
  - apply perm_swap.
  - exists sealed. split_and!; [done|exact Hnone|by vm_compute| |exact Hstored|by exists f, m].
    vm_compute in Es. injection Es as <-. by vm_compute.
Defined.
End SealSample.
