(* ===== verification/Events.v ===== *)
(** * Events, envelopes and filters

    [crates/maidan-types/src/events.rs] and [crates/maidan-types/src/cursor.rs]:
    the kinds of event with their wire names and versioned type ids, the events
    as their accessors see them, the envelope that travels on the bus, the filter
    of a subscription, and the cursor and shape of a projector.

    An [Event] has the source's variants, each with the fields its accessors
    look at; a struct an accessor looks into stands for the looked-at field (a
    workspace's id, a channel's id and its [private] flag, the reporter of a
    payer stamp), and [rest] is the remaining fields as the payload carries them. *)

From stdpp Require Import strings gmap.
From S2P Require Import Prelude Text Json EventChain EventLog Seal Db.

(** ** Kinds *)

Module EventKind.

Inductive EventKind :=
| WorkspaceCreated | MemberJoined | ChannelCreated | ThreadCreated | ThreadStateChanged
| ThreadAssignmentChanged | ThreadReady | ThreadResultSet | ThreadCancelled | ThreadAttributesSet
| ApprovalRequested | ThreadBlocked | BlockedResolved | StatusDeclared | ClaimExpired | ClaimUnacknowledged
| ClaimStalled | ClaimFailed | UsageReported | ThreadLanded | ThreadNotice | ThreadHandoff
| ResultDeliveryFailed | ReviewSubmitted | ApprovalDismissed | WaitTimedOut | EvidenceAdded | ScheduleSkipped
| ThreadSpawnDenied | ProjectorMisconfigured | MemberFrozen | MemberUnfrozen | MemberDisplayNameChanged
| IntakeProposed | IntakeAccepted | IntakeRejected | UsageOverAllowance | MessagePosted | MessageEdited
| MessageTombstoned | MentionRecorded | VoteCast | VoteRetracted | ReactionAdded | ReactionRemoved
| MessagePinned | MessageUnpinned | ReferenceAdded | ArtifactUpserted | MemoryBlockUpdated.

#[global] Instance EventKind_eq : EqDecision EventKind.
Proof. solve_decision. Defined.

Definition as_str (k : EventKind) : str :=
  match k with
  | WorkspaceCreated => lit "workspace_created"
  | MemberJoined => lit "member_joined"
  | ChannelCreated => lit "channel_created"
  | ThreadCreated => lit "thread_created"
  | ThreadStateChanged => lit "thread_state_changed"
  | ThreadAssignmentChanged => lit "thread_assignment_changed"
  | ThreadReady => lit "thread_ready"
  | ThreadResultSet => lit "thread_result_set"
  | ThreadCancelled => lit "thread_cancelled"
  | ThreadAttributesSet => lit "thread_attributes_set"
  | ApprovalRequested => lit "approval_requested"
  | ThreadBlocked => lit "thread_blocked"
  | BlockedResolved => lit "blocked_resolved"
  | StatusDeclared => lit "status_declared"
  | ClaimExpired => lit "claim_expired"
  | ClaimUnacknowledged => lit "claim_unacknowledged"
  | ClaimStalled => lit "claim_stalled"
  | ClaimFailed => lit "claim_failed"
  | UsageReported => lit "usage_reported"
  | ThreadLanded => lit "thread_landed"
  | ThreadNotice => lit "thread_notice"
  | ThreadHandoff => lit "thread_handoff"
  | ResultDeliveryFailed => lit "result_delivery_failed"
  | ReviewSubmitted => lit "review_submitted"
  | ApprovalDismissed => lit "approval_dismissed"
  | EvidenceAdded => lit "evidence_added"
  | WaitTimedOut => lit "wait_timed_out"
  | ScheduleSkipped => lit "schedule_skipped"
  | ThreadSpawnDenied => lit "thread_spawn_denied"
  | ProjectorMisconfigured => lit "projector_misconfigured"
  | MemberFrozen => lit "member_frozen"
  | MemberUnfrozen => lit "member_unfrozen"
  | MemberDisplayNameChanged => lit "member_display_name_changed"
  | IntakeProposed => lit "intake_proposed"
  | IntakeAccepted => lit "intake_accepted"
  | IntakeRejected => lit "intake_rejected"
  | UsageOverAllowance => lit "usage_over_allowance"
  | MessagePosted => lit "message_posted"
  | MessageEdited => lit "message_edited"
  | MessageTombstoned => lit "message_tombstoned"
  | MentionRecorded => lit "mention_recorded"
  | VoteCast => lit "vote_cast"
  | VoteRetracted => lit "vote_retracted"
  | ReactionAdded => lit "reaction_added"
  | ReactionRemoved => lit "reaction_removed"
  | MessagePinned => lit "message_pinned"
  | MessageUnpinned => lit "message_unpinned"
  | ReferenceAdded => lit "reference_added"
  | ArtifactUpserted => lit "artifact_upserted"
  | MemoryBlockUpdated => lit "memory_block_updated"
  end.

(** [match s { "workspace_created" => Some(..), .., _ => None }]. *)
Definition parse_arms : list (string * EventKind) :=
  [("workspace_created", WorkspaceCreated); ("member_joined", MemberJoined);
   ("channel_created", ChannelCreated); ("thread_created", ThreadCreated);
   ("thread_state_changed", ThreadStateChanged); ("thread_assignment_changed", ThreadAssignmentChanged);
   ("thread_ready", ThreadReady); ("thread_result_set", ThreadResultSet);
   ("thread_cancelled", ThreadCancelled); ("thread_attributes_set", ThreadAttributesSet);
   ("approval_requested", ApprovalRequested); ("thread_blocked", ThreadBlocked);
   ("blocked_resolved", BlockedResolved); ("status_declared", StatusDeclared); ("claim_expired", ClaimExpired);
   ("claim_unacknowledged", ClaimUnacknowledged); ("claim_stalled", ClaimStalled);
   ("claim_failed", ClaimFailed); ("usage_reported", UsageReported); ("thread_landed", ThreadLanded);
   ("thread_notice", ThreadNotice); ("thread_handoff", ThreadHandoff);
   ("result_delivery_failed", ResultDeliveryFailed); ("review_submitted", ReviewSubmitted);
   ("approval_dismissed", ApprovalDismissed); ("evidence_added", EvidenceAdded);
   ("wait_timed_out", WaitTimedOut); ("schedule_skipped", ScheduleSkipped);
   ("thread_spawn_denied", ThreadSpawnDenied); ("projector_misconfigured", ProjectorMisconfigured);
   ("member_frozen", MemberFrozen); ("member_unfrozen", MemberUnfrozen);
   ("member_display_name_changed", MemberDisplayNameChanged); ("intake_proposed", IntakeProposed);
   ("intake_accepted", IntakeAccepted); ("intake_rejected", IntakeRejected);
   ("usage_over_allowance", UsageOverAllowance); ("message_posted", MessagePosted);
   ("message_edited", MessageEdited); ("message_tombstoned", MessageTombstoned);
   ("mention_recorded", MentionRecorded); ("vote_cast", VoteCast); ("vote_retracted", VoteRetracted);
   ("reaction_added", ReactionAdded); ("reaction_removed", ReactionRemoved); ("message_pinned", MessagePinned);
   ("message_unpinned", MessageUnpinned); ("reference_added", ReferenceAdded);
   ("artifact_upserted", ArtifactUpserted); ("memory_block_updated", MemoryBlockUpdated)].
Definition parse (s : str) : option EventKind :=
  snd <$> List.find (fun arm => bool_decide (s = lit arm.1)) parse_arms.

(** [maidan.event.{kind}/1]. *)
Definition type_id (k : EventKind) : str := lit "maidan.event." ++ as_str k ++ lit "/1".

(** [str::rsplit_once]. *)
Definition rsplit_once (c : N) (s : str) : option (str * str) :=
  p ← split_once c (reverse s);
  Some (reverse p.2, reverse p.1).

Definition parse_type_id (s : str) : option EventKind :=
  rest ← strip_prefix (lit "maidan.event.") s;
  p ← rsplit_once 47 rest;
  if bool_decide (p.2 = lit "1") then parse p.1 else None.

Definition ALL : list EventKind :=
  [WorkspaceCreated; MemberJoined; ChannelCreated; ThreadCreated; ThreadStateChanged; ThreadAssignmentChanged;
   ThreadReady; ThreadResultSet; ThreadCancelled; ThreadAttributesSet; ApprovalRequested; ThreadBlocked;
   BlockedResolved; StatusDeclared; ClaimExpired; ClaimUnacknowledged; ClaimStalled; ClaimFailed;
   UsageReported; ThreadLanded; ThreadNotice; ThreadHandoff; ResultDeliveryFailed; ReviewSubmitted;
   ApprovalDismissed; WaitTimedOut; EvidenceAdded; ScheduleSkipped; ThreadSpawnDenied; ProjectorMisconfigured;
   MemberFrozen; MemberUnfrozen; MemberDisplayNameChanged; IntakeProposed; IntakeAccepted; IntakeRejected;
   UsageOverAllowance; MessagePosted; MessageEdited; MessageTombstoned; MentionRecorded; VoteCast;
   VoteRetracted; ReactionAdded; ReactionRemoved; MessagePinned; MessageUnpinned; ReferenceAdded;
   ArtifactUpserted; MemoryBlockUpdated].

(** Whether a federated peer may push the kind. *)
Definition federatable (k : EventKind) : bool :=
  match k with
  | WorkspaceCreated | MemberJoined | ChannelCreated | ThreadCreated | ThreadStateChanged
  | ThreadAssignmentChanged | MessagePosted | MessageEdited | MessageTombstoned | MentionRecorded | VoteCast
  | VoteRetracted | ReactionAdded | ReactionRemoved | MessagePinned | MessageUnpinned | ReferenceAdded => true
  | ThreadReady | ThreadResultSet | ThreadCancelled | ThreadAttributesSet | ApprovalRequested | ThreadBlocked
  | BlockedResolved | StatusDeclared | ClaimExpired | ClaimUnacknowledged | ClaimStalled | ClaimFailed
  | UsageReported | ThreadLanded | ThreadNotice | ThreadHandoff | ResultDeliveryFailed | ReviewSubmitted
  | ApprovalDismissed | WaitTimedOut | EvidenceAdded | ScheduleSkipped | ThreadSpawnDenied
  | ProjectorMisconfigured | MemberFrozen | MemberUnfrozen | MemberDisplayNameChanged | IntakeProposed
  | IntakeAccepted | IntakeRejected | UsageOverAllowance | ArtifactUpserted | MemoryBlockUpdated => false
  end.

End EventKind.
Abbreviation EventKind := EventKind.EventKind.

(** ** Events *)

Module Event.

Inductive Event :=
| WorkspaceCreated (occurred_at : Z) (workspace : N) (rest : Value)
| MemberJoined (occurred_at : Z) (workspace_id member : N) (rest : Value)
| ChannelCreated (occurred_at : Z) (workspace_id channel : N) (private : bool) (rest : Value)
| ThreadCreated (occurred_at : Z) (workspace_id channel_id thread : N) (rest : Value)
| ThreadStateChanged (occurred_at : Z) (workspace_id channel_id thread_id actor_id : N) (rest : Value)
| ThreadAssignmentChanged (occurred_at : Z) (workspace_id channel_id thread_id actor_id : N) (rest : Value)
| ThreadReady (occurred_at : Z) (workspace_id channel_id thread_id : N) (rest : Value)
| ThreadResultSet (occurred_at : Z) (workspace_id channel_id thread_id produced_by : N) (rest : Value)
| ThreadAttributesSet (occurred_at : Z) (workspace_id channel_id thread_id actor_id : N) (rest : Value)
| ThreadCancelled (occurred_at : Z) (workspace_id channel_id thread_id cancelled_by : N) (rest : Value)
| ApprovalRequested (occurred_at : Z) (workspace_id : N) (channel_id thread_id : option N) (requested_by : N) (rest : Value)
| ThreadBlocked (occurred_at : Z) (workspace_id channel_id thread_id : N) (rest : Value)
| BlockedResolved (occurred_at : Z) (workspace_id channel_id thread_id resolved_by : N) (rest : Value)
| StatusDeclared (occurred_at : Z) (workspace_id channel_id thread_id declared_by : N) (rest : Value)
| ClaimExpired (occurred_at : Z) (workspace_id channel_id thread_id member_id : N) (rest : Value)
| ClaimUnacknowledged (occurred_at : Z) (workspace_id channel_id thread_id member_id : N) (rest : Value)
| ClaimStalled (occurred_at : Z) (workspace_id channel_id thread_id member_id : N) (rest : Value)
| ClaimFailed (occurred_at : Z) (workspace_id channel_id thread_id member_id : N) (rest : Value)
| UsageReported (occurred_at : Z) (workspace_id channel_id thread_id reporter : N) (rest : Value)
| ThreadNotice (occurred_at : Z) (workspace_id channel_id thread_id : N) (rest : Value)
| ThreadHandoff (occurred_at : Z) (workspace_id channel_id thread_id : N) (rest : Value)
| ResultDeliveryFailed (occurred_at : Z) (workspace_id channel_id thread_id : N) (rest : Value)
| ThreadLanded (occurred_at : Z) (workspace_id channel_id thread_id : N) (rest : Value)
| ReviewSubmitted (occurred_at : Z) (workspace_id channel_id thread_id reviewer_id : N) (rest : Value)
| ApprovalDismissed (occurred_at : Z) (workspace_id channel_id thread_id reviewer_id : N) (rest : Value)
| EvidenceAdded (occurred_at : Z) (workspace_id channel_id thread_id recorded_by : N) (rest : Value)
| WaitTimedOut (occurred_at : Z) (workspace_id channel_id thread_id : N) (rest : Value)
| ThreadSpawnDenied (occurred_at : Z) (workspace_id channel_id thread_id : N) (member_id : option N) (rest : Value)
| ProjectorMisconfigured (occurred_at : Z) (workspace_id : N) (channel_id : option N) (thread_id : N) (rest : Value)
| ScheduleSkipped (occurred_at : Z) (workspace_id channel_id : N) (rest : Value)
| MemberFrozen (occurred_at : Z) (workspace_id member_id : N) (rest : Value)
| MemberUnfrozen (occurred_at : Z) (workspace_id member_id : N) (rest : Value)
| MemberDisplayNameChanged (occurred_at : Z) (workspace_id member_id : N) (rest : Value)
| IntakeProposed (occurred_at : Z) (workspace_id proposed_by : N) (rest : Value)
| IntakeAccepted (occurred_at : Z) (workspace_id thread_id channel_id triaged_by : N) (rest : Value)
| IntakeRejected (occurred_at : Z) (workspace_id triaged_by : N) (rest : Value)
| UsageOverAllowance (occurred_at : Z) (workspace_id : N) (rest : Value)
| MessagePosted (occurred_at : Z) (workspace_id channel_id thread_id : N) (dm_conversation_id : option N) (rest : Value)
| MessageEdited (occurred_at : Z) (workspace_id channel_id thread_id : N) (dm_conversation_id : option N) (editor_id : N) (rest : Value)
| MessageTombstoned (occurred_at : Z) (workspace_id channel_id thread_id : N) (dm_conversation_id : option N) (rest : Value)
| MentionRecorded (occurred_at : Z) (workspace_id thread_id member_id : N) (rest : Value)
| VoteCast (occurred_at : Z) (workspace_id thread_id member_id : N) (rest : Value)
| VoteRetracted (occurred_at : Z) (workspace_id thread_id member_id : N) (rest : Value)
| ReactionAdded (occurred_at : Z) (workspace_id thread_id member_id : N) (rest : Value)
| ReactionRemoved (occurred_at : Z) (workspace_id thread_id member_id : N) (rest : Value)
| MessagePinned (occurred_at : Z) (workspace_id channel_id thread_id member_id : N) (rest : Value)
| MessageUnpinned (occurred_at : Z) (workspace_id channel_id thread_id member_id : N) (rest : Value)
| ReferenceAdded (occurred_at : Z) (rest : Value)
| ArtifactUpserted (occurred_at : Z) (rest : Value)
| MemoryBlockUpdated (occurred_at : Z) (workspace_id updated_by : N) (rest : Value).

Definition kind (e : Event) : EventKind :=
  match e with
  | WorkspaceCreated _ _ _ => EventKind.WorkspaceCreated
  | MemberJoined _ _ _ _ => EventKind.MemberJoined
  | ChannelCreated _ _ _ _ _ => EventKind.ChannelCreated
  | ThreadCreated _ _ _ _ _ => EventKind.ThreadCreated
  | ThreadStateChanged _ _ _ _ _ _ => EventKind.ThreadStateChanged
  | ThreadAssignmentChanged _ _ _ _ _ _ => EventKind.ThreadAssignmentChanged
  | ThreadReady _ _ _ _ _ => EventKind.ThreadReady
  | ThreadResultSet _ _ _ _ _ _ => EventKind.ThreadResultSet
  | ThreadCancelled _ _ _ _ _ _ => EventKind.ThreadCancelled
  | ThreadAttributesSet _ _ _ _ _ _ => EventKind.ThreadAttributesSet
  | ApprovalRequested _ _ _ _ _ _ => EventKind.ApprovalRequested
  | ThreadBlocked _ _ _ _ _ => EventKind.ThreadBlocked
  | BlockedResolved _ _ _ _ _ _ => EventKind.BlockedResolved
  | StatusDeclared _ _ _ _ _ _ => EventKind.StatusDeclared
  | ClaimExpired _ _ _ _ _ _ => EventKind.ClaimExpired
  | ClaimUnacknowledged _ _ _ _ _ _ => EventKind.ClaimUnacknowledged
  | ClaimStalled _ _ _ _ _ _ => EventKind.ClaimStalled
  | ClaimFailed _ _ _ _ _ _ => EventKind.ClaimFailed
  | UsageReported _ _ _ _ _ _ => EventKind.UsageReported
  | ThreadLanded _ _ _ _ _ => EventKind.ThreadLanded
  | ThreadNotice _ _ _ _ _ => EventKind.ThreadNotice
  | ThreadHandoff _ _ _ _ _ => EventKind.ThreadHandoff
  | ResultDeliveryFailed _ _ _ _ _ => EventKind.ResultDeliveryFailed
  | ReviewSubmitted _ _ _ _ _ _ => EventKind.ReviewSubmitted
  | ApprovalDismissed _ _ _ _ _ _ => EventKind.ApprovalDismissed
  | EvidenceAdded _ _ _ _ _ _ => EventKind.EvidenceAdded
  | WaitTimedOut _ _ _ _ _ => EventKind.WaitTimedOut
  | ScheduleSkipped _ _ _ _ => EventKind.ScheduleSkipped
  | ThreadSpawnDenied _ _ _ _ _ _ => EventKind.ThreadSpawnDenied
  | ProjectorMisconfigured _ _ _ _ _ => EventKind.ProjectorMisconfigured
  | MemberFrozen _ _ _ _ => EventKind.MemberFrozen
  | MemberUnfrozen _ _ _ _ => EventKind.MemberUnfrozen
  | MemberDisplayNameChanged _ _ _ _ => EventKind.MemberDisplayNameChanged
  | IntakeProposed _ _ _ _ => EventKind.IntakeProposed
  | IntakeAccepted _ _ _ _ _ _ => EventKind.IntakeAccepted
  | IntakeRejected _ _ _ _ => EventKind.IntakeRejected
  | UsageOverAllowance _ _ _ => EventKind.UsageOverAllowance
  | MessagePosted _ _ _ _ _ _ => EventKind.MessagePosted
  | MessageEdited _ _ _ _ _ _ _ => EventKind.MessageEdited
  | MessageTombstoned _ _ _ _ _ _ => EventKind.MessageTombstoned
  | MentionRecorded _ _ _ _ _ => EventKind.MentionRecorded
  | VoteCast _ _ _ _ _ => EventKind.VoteCast
  | VoteRetracted _ _ _ _ _ => EventKind.VoteRetracted
  | ReactionAdded _ _ _ _ _ => EventKind.ReactionAdded
  | ReactionRemoved _ _ _ _ _ => EventKind.ReactionRemoved
  | MessagePinned _ _ _ _ _ _ => EventKind.MessagePinned
  | MessageUnpinned _ _ _ _ _ _ => EventKind.MessageUnpinned
  | MemoryBlockUpdated _ _ _ _ => EventKind.MemoryBlockUpdated
  | ReferenceAdded _ _ => EventKind.ReferenceAdded
  | ArtifactUpserted _ _ => EventKind.ArtifactUpserted
  end.

Definition occurred_at (e : Event) : Z :=
  match e with
  | WorkspaceCreated x _ _ | MemberJoined x _ _ _ | ChannelCreated x _ _ _ _ | ThreadCreated x _ _ _ _
  | ThreadStateChanged x _ _ _ _ _ | ThreadAssignmentChanged x _ _ _ _ _ | ThreadReady x _ _ _ _
  | ThreadResultSet x _ _ _ _ _ | ThreadCancelled x _ _ _ _ _ | ThreadAttributesSet x _ _ _ _ _
  | ApprovalRequested x _ _ _ _ _ | ThreadBlocked x _ _ _ _ | BlockedResolved x _ _ _ _ _
  | StatusDeclared x _ _ _ _ _ | ClaimExpired x _ _ _ _ _ | ClaimUnacknowledged x _ _ _ _ _
  | ClaimStalled x _ _ _ _ _ | ClaimFailed x _ _ _ _ _ | UsageReported x _ _ _ _ _ | ThreadLanded x _ _ _ _
  | ThreadNotice x _ _ _ _ | ThreadHandoff x _ _ _ _ | ResultDeliveryFailed x _ _ _ _
  | ReviewSubmitted x _ _ _ _ _ | ApprovalDismissed x _ _ _ _ _ | EvidenceAdded x _ _ _ _ _
  | WaitTimedOut x _ _ _ _ | ScheduleSkipped x _ _ _ | ThreadSpawnDenied x _ _ _ _ _
  | ProjectorMisconfigured x _ _ _ _ | MemberFrozen x _ _ _ | MemberUnfrozen x _ _ _
  | MemberDisplayNameChanged x _ _ _ | IntakeProposed x _ _ _ | IntakeAccepted x _ _ _ _ _
  | IntakeRejected x _ _ _ | UsageOverAllowance x _ _ | MessagePosted x _ _ _ _ _ | MessageEdited x _ _ _ _ _ _
  | MessageTombstoned x _ _ _ _ _ | MentionRecorded x _ _ _ _ | VoteCast x _ _ _ _ | VoteRetracted x _ _ _ _
  | ReactionAdded x _ _ _ _ | ReactionRemoved x _ _ _ _ | MessagePinned x _ _ _ _ _
  | MessageUnpinned x _ _ _ _ _ | ReferenceAdded x _ | ArtifactUpserted x _ | MemoryBlockUpdated x _ _ _ => x
  end.

Definition workspace_id (e : Event) : option N :=
  match e with
  | WorkspaceCreated _ x _ | MemberJoined _ x _ _ | ChannelCreated _ x _ _ _ | ThreadCreated _ x _ _ _
  | ThreadStateChanged _ x _ _ _ _ | ThreadAssignmentChanged _ x _ _ _ _ | ThreadReady _ x _ _ _
  | ThreadResultSet _ x _ _ _ _ | ThreadCancelled _ x _ _ _ _ | ThreadAttributesSet _ x _ _ _ _
  | ApprovalRequested _ x _ _ _ _ | ThreadBlocked _ x _ _ _ | BlockedResolved _ x _ _ _ _
  | StatusDeclared _ x _ _ _ _ | ClaimExpired _ x _ _ _ _ | ClaimUnacknowledged _ x _ _ _ _
  | ClaimStalled _ x _ _ _ _ | ClaimFailed _ x _ _ _ _ | UsageReported _ x _ _ _ _ | ThreadLanded _ x _ _ _
  | ThreadNotice _ x _ _ _ | ThreadHandoff _ x _ _ _ | ResultDeliveryFailed _ x _ _ _
  | ReviewSubmitted _ x _ _ _ _ | ApprovalDismissed _ x _ _ _ _ | EvidenceAdded _ x _ _ _ _
  | WaitTimedOut _ x _ _ _ | ScheduleSkipped _ x _ _ | ThreadSpawnDenied _ x _ _ _ _
  | ProjectorMisconfigured _ x _ _ _ | MemberFrozen _ x _ _ | MemberUnfrozen _ x _ _
  | MemberDisplayNameChanged _ x _ _ | IntakeProposed _ x _ _ | IntakeAccepted _ x _ _ _ _
  | IntakeRejected _ x _ _ | UsageOverAllowance _ x _ | MessagePosted _ x _ _ _ _ | MessageEdited _ x _ _ _ _ _
  | MessageTombstoned _ x _ _ _ _ | MentionRecorded _ x _ _ _ | VoteCast _ x _ _ _ | VoteRetracted _ x _ _ _
  | ReactionAdded _ x _ _ _ | ReactionRemoved _ x _ _ _ | MessagePinned _ x _ _ _ _
  | MessageUnpinned _ x _ _ _ _ | MemoryBlockUpdated _ x _ _ => Some x
  | _ => None
  end.

Definition channel_id (e : Event) : option N :=
  match e with
  | ChannelCreated _ _ x _ _ | ThreadCreated _ _ x _ _ | IntakeAccepted _ _ _ x _ _
  | ThreadStateChanged _ _ x _ _ _ | ThreadAssignmentChanged _ _ x _ _ _ | ThreadReady _ _ x _ _
  | ThreadResultSet _ _ x _ _ _ | ThreadCancelled _ _ x _ _ _ | ThreadAttributesSet _ _ x _ _ _
  | BlockedResolved _ _ x _ _ _ | ClaimExpired _ _ x _ _ _ | ClaimUnacknowledged _ _ x _ _ _
  | ClaimStalled _ _ x _ _ _ | ClaimFailed _ _ x _ _ _ | UsageReported _ _ x _ _ _ | ThreadLanded _ _ x _ _
  | ThreadNotice _ _ x _ _ | ThreadHandoff _ _ x _ _ | ResultDeliveryFailed _ _ x _ _
  | ReviewSubmitted _ _ x _ _ _ | ApprovalDismissed _ _ x _ _ _ | EvidenceAdded _ _ x _ _ _
  | WaitTimedOut _ _ x _ _ | ScheduleSkipped _ _ x _ | ThreadSpawnDenied _ _ x _ _ _
  | MessagePosted _ _ x _ _ _ | MessageEdited _ _ x _ _ _ _ | MessageTombstoned _ _ x _ _ _
  | MessagePinned _ _ x _ _ _ | MessageUnpinned _ _ x _ _ _ | StatusDeclared _ _ x _ _ _ => Some x
  | ProjectorMisconfigured _ _ x _ _ | ApprovalRequested _ _ x _ _ _ => x
  | _ => None
  end.

Definition thread_id (e : Event) : option N :=
  match e with
  | IntakeAccepted _ _ x _ _ _ | ThreadCreated _ _ _ x _ | ThreadStateChanged _ _ _ x _ _
  | ThreadAssignmentChanged _ _ _ x _ _ | ThreadReady _ _ _ x _ | ThreadResultSet _ _ _ x _ _
  | ThreadCancelled _ _ _ x _ _ | ThreadAttributesSet _ _ _ x _ _ | BlockedResolved _ _ _ x _ _
  | ClaimExpired _ _ _ x _ _ | ClaimUnacknowledged _ _ _ x _ _ | ClaimStalled _ _ _ x _ _
  | ClaimFailed _ _ _ x _ _ | UsageReported _ _ _ x _ _ | ThreadLanded _ _ _ x _ | ThreadNotice _ _ _ x _
  | ThreadHandoff _ _ _ x _ | ResultDeliveryFailed _ _ _ x _ | ReviewSubmitted _ _ _ x _ _
  | ApprovalDismissed _ _ _ x _ _ | EvidenceAdded _ _ _ x _ _ | WaitTimedOut _ _ _ x _
  | ThreadSpawnDenied _ _ _ x _ _ | ProjectorMisconfigured _ _ _ x _ | MessagePosted _ _ _ x _ _
  | MessageEdited _ _ _ x _ _ _ | MessageTombstoned _ _ _ x _ _ | MentionRecorded _ _ x _ _
  | VoteCast _ _ x _ _ | VoteRetracted _ _ x _ _ | ReactionAdded _ _ x _ _ | ReactionRemoved _ _ x _ _
  | MessagePinned _ _ _ x _ _ | MessageUnpinned _ _ _ x _ _ | StatusDeclared _ _ _ x _ _ => Some x
  | ApprovalRequested _ _ _ x _ _ => x
  | _ => None
  end.

Definition dm_conversation_id (e : Event) : option N :=
  match e with
  | MessagePosted _ _ _ _ x _ | MessageEdited _ _ _ _ x _ _ | MessageTombstoned _ _ _ _ x _ => x
  | _ => None
  end.

Definition member_id (e : Event) : option N :=
  match e with
  | IntakeProposed _ _ x _ | IntakeAccepted _ _ _ _ x _ | IntakeRejected _ _ x _ | MemberJoined _ _ x _
  | ThreadStateChanged _ _ _ _ x _ | ThreadAssignmentChanged _ _ _ _ x _ | ThreadResultSet _ _ _ _ x _
  | ThreadCancelled _ _ _ _ x _ | ThreadAttributesSet _ _ _ _ x _ | ApprovalRequested _ _ _ _ x _
  | BlockedResolved _ _ _ _ x _ | ClaimExpired _ _ _ _ x _ | ClaimUnacknowledged _ _ _ _ x _
  | ClaimStalled _ _ _ _ x _ | ClaimFailed _ _ _ _ x _ | MemberFrozen _ _ x _ | MemberUnfrozen _ _ x _
  | MemberDisplayNameChanged _ _ x _ | ReviewSubmitted _ _ _ _ x _ | ApprovalDismissed _ _ _ _ x _
  | EvidenceAdded _ _ _ _ x _ | UsageReported _ _ _ _ x _ | MentionRecorded _ _ _ x _ | VoteCast _ _ _ x _
  | VoteRetracted _ _ _ x _ | ReactionAdded _ _ _ x _ | ReactionRemoved _ _ _ x _ | MessagePinned _ _ _ _ x _
  | MessageUnpinned _ _ _ _ x _ | MessageEdited _ _ _ _ _ x _ | MemoryBlockUpdated _ _ x _
  | StatusDeclared _ _ _ _ x _ => Some x
  | ThreadSpawnDenied _ _ _ _ x _ => x
  | _ => None
  end.

End Event.
Abbreviation Event := Event.Event.
(** ** Stored events and envelopes *)

(** A row of [maidan_events] as it was read, with the message key joined to it
    while that is live, and the server span it was written under. *)
Record StoredEvent := {
  stored_row : EventRow;
  stored_key : option (list N);
  stored_trace : option str
}.

Record BusEnvelope := {
  log_id : Z;
  event : Event;
  attribution : option Attribution;
  trace : option str
}.

Definition synthetic (e : Event) : BusEnvelope :=
  {| log_id := 0; event := e; attribution := None; trace := None |}.

Inductive OpenEventError := OpenSeal (e : SealError) | OpenJson.

(** serde's reading of an event and of a principal from a value. *)
Class EventCodec := {
  decode_event : Value -> option Event;
  decode_attribution : Value -> option Attribution
}.

Section stored.
Context `{JsonText, SealEnv, EventCodec}.

Definition opened_payload (s : StoredEvent) : result SealError Value :=
  match open_payload (e_payload (stored_row s)) (stored_key s) with
  | Ok (_, payload) => Ok payload
  | Err e => Err e
  end.

Definition from_payload (id : Z) (payload : Value) : result OpenEventError BusEnvelope :=
  let who := value_get (lit "attribution") payload ≫= decode_attribution in
  match decode_event payload with
  | Some e => Ok {| log_id := id; event := e; attribution := who; trace := None |}
  | None => Err OpenJson
  end.

Definition from_stored (s : StoredEvent) : result OpenEventError BusEnvelope :=
  match opened_payload s with
  | Err e => Err (OpenSeal e)
  | Ok payload =>
      match from_payload (e_id (stored_row s)) payload with
      | Err e => Err e
      | Ok env => Ok {| log_id := log_id env; event := event env; attribution := attribution env;
                        trace := stored_trace s |}
      end
  end.

(** For the outbox relay, which holds the payload and its key apart. *)
Definition from_sealed_payload (id : Z) (payload : Value) (key : option (list N)) :
    result OpenEventError BusEnvelope :=
  match open_payload payload key with
  | Err e => Err (OpenSeal e)
  | Ok (_, payload) => from_payload id payload
  end.

(** Whether the words were sealed and their key is gone. *)
Definition is_shredded (s : StoredEvent) : bool :=
  bool_decide (is_Some (value_get (lit "sealed") (e_payload (stored_row s))))
  && negb (bool_decide (is_Some (stored_key s))).
End stored.

(** ** Filters *)

Record EventFilter := {
  f_workspace : option N;
  f_channel : option N;
  f_thread : option N;
  f_dm : option N;
  f_member : option N;
  f_kinds : option (list EventKind);
  f_grants : option (list N);
  f_deny : gset N;
  f_allow : option (gset N)
}.

(** [EventFilter::default] and [EventFilter::all], and the constructors by scope. *)
Definition all : EventFilter :=
  {| f_workspace := None; f_channel := None; f_thread := None; f_dm := None; f_member := None;
     f_kinds := None; f_grants := None; f_deny := ∅; f_allow := None |}.
Definition with_workspace (ws : option N) (f : EventFilter) : EventFilter :=
  {| f_workspace := ws; f_channel := f_channel f; f_thread := f_thread f; f_dm := f_dm f;
     f_member := f_member f; f_kinds := f_kinds f; f_grants := f_grants f; f_deny := f_deny f;
     f_allow := f_allow f |}.
Definition with_scope (channel thread : option N) (f : EventFilter) : EventFilter :=
  {| f_workspace := f_workspace f; f_channel := channel; f_thread := thread; f_dm := f_dm f;
     f_member := f_member f; f_kinds := f_kinds f; f_grants := f_grants f; f_deny := f_deny f;
     f_allow := f_allow f |}.
Definition with_kinds (kinds : option (list EventKind)) (f : EventFilter) : EventFilter :=
  {| f_workspace := f_workspace f; f_channel := f_channel f; f_thread := f_thread f; f_dm := f_dm f;
     f_member := f_member f; f_kinds := kinds; f_grants := f_grants f; f_deny := f_deny f;
     f_allow := f_allow f |}.
Definition with_access (deny : gset N) (allow : option (gset N)) (f : EventFilter) : EventFilter :=
  {| f_workspace := f_workspace f; f_channel := f_channel f; f_thread := f_thread f; f_dm := f_dm f;
     f_member := f_member f; f_kinds := f_kinds f; f_grants := f_grants f; f_deny := deny;
     f_allow := allow |}.
Definition workspace (ws : N) : EventFilter := with_workspace (Some ws) all.

Definition channel_is_granted (f : EventFilter) (ch : N) : bool :=
  match f_grants f with Some grants => bool_decide (ch ∈ grants) | None => false end.

(** [if let Some(x) = wanted && got != Some(x) { return false }]. *)
Definition pins (wanted got : option N) : bool :=
  match wanted with Some x => bool_decide (got = Some x) | None => true end.

(** The guard on the announcement of a private channel. *)
Definition announces_private (f : EventFilter) (e : Event) : bool :=
  match e with
  | Event.ChannelCreated _ _ ch private _ =>
      private && bool_decide (is_Some (f_workspace f)) && negb (channel_is_granted f ch)
  | _ => false
  end.

Definition channel_admitted (f : EventFilter) (e : Event) : bool :=
  match Event.channel_id e with
  | Some ch =>
      negb (bool_decide (ch ∈ f_deny f))
      && match f_allow f with Some allow => bool_decide (ch ∈ allow) | None => true end
  | None => true
  end.

Definition matches (f : EventFilter) (e : Event) : bool :=
  pins (f_workspace f) (Event.workspace_id e)
  && negb (announces_private f e)
  && pins (f_channel f) (Event.channel_id e)
  && channel_admitted f e
  && pins (f_thread f) (Event.thread_id e)
  && pins (f_dm f) (Event.dm_conversation_id e)
  && pins (f_member f) (Event.member_id e)
  && match f_kinds f with Some kinds => bool_decide (Event.kind e ∈ kinds) | None => true end.

Definition matches_envelope (f : EventFilter) (env : BusEnvelope) : bool := matches f (event env).

(** ** Projector shapes ([cursor.rs]) *)

Record ProjectorShape := {
  ps_workspace : N;
  ps_channel : option N;
  ps_thread : option N;
  ps_types : list EventKind
}.

Definition to_filter (s : ProjectorShape) : EventFilter :=
  let f := with_scope (ps_channel s) (ps_thread s) (workspace (ps_workspace s)) in
  match ps_types s with [] => f | types => with_kinds (Some types) f end.

Definition shape_matches (s : ProjectorShape) (e : Event) : bool := matches (to_filter s) e.

(** The same check on the columns of a row; [kind] is the column as parsed. *)
Definition matches_stored (s : ProjectorShape) (kind : EventKind) (r : EventRow) : bool :=
  bool_decide (e_ws r = Some (ps_workspace s))
  && pins (ps_channel s) (e_channel r)
  && pins (ps_thread s) (e_thread r)
  && match ps_types s with [] => true | types => bool_decide (kind ∈ types) end.

(** [s.split(',').map(str::trim).filter(|p| !p.is_empty())], each part parsed. *)
Definition parse_projector_types (s : str) : result str (list EventKind) :=
  rmapM (fun part => match EventKind.parse part with Some k => Ok k | None => Err part end)
    (List.filter (fun part => negb (bool_decide (part = []))) (trim <$> split_on 44 s)).

(** ** Cursors *)

(** [i64::checked_add]. *)
Definition checked_add_i64 (a b : Z) : option Z :=
  if (I64_MIN <=? a + b)%Z && (a + b <=? I64_MAX)%Z then Some (a + b)%Z else None.

Definition cursor_is_too_old (after_id : Z) (oldest_retained_id : option Z) : bool :=
  match oldest_retained_id with
  | Some oldest =>
      (0 <? after_id)%Z
      && match checked_add_i64 after_id 1 with Some next => (next <? oldest)%Z | None => false end
  | None => false
  end.

(** ** The wire names are exact *)

Lemma parse_as_str k : EventKind.parse (EventKind.as_str k) = Some k.
Proof. by destruct k. Qed.

Lemma ALL_complete k : k ∈ EventKind.ALL.
Proof. apply list_elem_of_In. destruct k; vm_compute; tauto. Qed.

Lemma parse_sound s k : EventKind.parse s = Some k -> s = EventKind.as_str k.
Proof.
  unfold EventKind.parse. destruct (List.find _ _) as [[arm k']|] eqn:Hf; [|done]. intros [= ->].
  apply List.find_some in Hf as [Hin ->%bool_decide_eq_true]. simpl.
  assert (Forall (fun arm => lit arm.1 = EventKind.as_str arm.2) EventKind.parse_arms) as Hall.
  { apply (bool_decide_unpack _). by vm_compute. }
  rewrite Forall_forall in Hall. apply (Hall (arm, k)), list_elem_of_In, Hin.
Qed.

Lemma strip_prefix_app pre s : strip_prefix pre (pre ++ s) = Some s.
Proof. induction pre as [|c pre IH]; simpl; [by destruct s|]. by rewrite N.eqb_refl. Qed.

Lemma strip_prefix_sound pre s rest : strip_prefix pre s = Some rest -> s = pre ++ rest.
Proof.
  revert s. induction pre as [|c pre IH]; intros [|d s]; simpl; try congruence.
  destruct (c =? d)%N eqn:E; [|congruence]. apply N.eqb_eq in E as ->. intros ->%IH. done.
Qed.

Lemma split_once_sound c s a b : split_once c s = Some (a, b) -> s = a ++ c :: b.
Proof.
  revert a. induction s as [|d s IH]; intros a; simpl; [congruence|].
  destruct (d =? c)%N eqn:E.
  - intros [= <- <-]. apply N.eqb_eq in E as ->. done.
  - destruct (split_once c s) as [[a' b']|]; [|congruence]. intros [= <- <-]. by rewrite (IH a').
Qed.

Lemma split_once_first c a b : c ∉ a -> split_once c (a ++ c :: b) = Some (a, b).
Proof.
  induction a as [|d a IH]; simpl; intros Hc; [by rewrite N.eqb_refl|].
  rewrite (proj2 (N.eqb_neq d c)) by set_solver. rewrite IH; set_solver.
Qed.

Lemma rsplit_once_last c a b : c ∉ b -> EventKind.rsplit_once c (a ++ c :: b) = Some (a, b).
Proof.
  intros Hc. unfold EventKind.rsplit_once.
  rewrite reverse_app, reverse_cons, <- app_assoc. simpl.
  rewrite split_once_first by (by rewrite elem_of_reverse). simpl. by rewrite !reverse_involutive.
Qed.

Lemma rsplit_once_sound c s a b : EventKind.rsplit_once c s = Some (a, b) -> s = a ++ c :: b.
Proof.
  unfold EventKind.rsplit_once. intros ([p q] & Hs%split_once_sound & [= <- <-])%bind_Some. simpl.
  rewrite <- (reverse_involutive s), Hs, reverse_app, reverse_cons, <- app_assoc. done.
Qed.

(** The observable type of an event is exact. A string is read as a kind if
    and only if it is [maidan.event.], that kind's name and [/1]; so every kind
    reads back from its type, no two kinds share one, and another version of a
    type is no kind at all. *)
Theorem type_id_exact s k : EventKind.parse_type_id s = Some k <-> s = EventKind.type_id k.
Proof.
  unfold EventKind.parse_type_id, EventKind.type_id. split.
  - intros (rest & ->%strip_prefix_sound & ([kind version] & ->%rsplit_once_sound & Hk)%bind_Some)%bind_Some.
    simpl in Hk. case_bool_decide as Hv; [|done]. apply parse_sound in Hk as ->. by rewrite Hv.
  - intros ->. rewrite strip_prefix_app. simpl.
    change (lit "/1") with ([47%N] ++ lit "1"). simpl.
    rewrite (rsplit_once_last 47 (EventKind.as_str k) (lit "1")) by (vm_compute; set_solver).
    apply parse_as_str.
Qed.
