(* ===== verification/Broadcast.v ===== *)
(** * The sharded broadcast

    [crates/maidan-bus/src/sharded.rs], [inmem.rs] and [item.rs]: a publish goes
    to the global channel and to the channel of its event's workspace; a
    subscriber whose filter names a workspace listens on that workspace's
    channel, which is made for its first subscriber and dropped from the map
    after its last one.

    The channel is tokio's [broadcast]: [BroadcastChannel] is what the model
    takes of it. A sender is shared by the map and by the publishers that cloned
    it, so the map holds handles into the store of channels, and a publisher that
    looked its handle up sends on that channel even after the map has dropped
    it. *)

From stdpp Require Import strings gmap.
From S2P Require Import Prelude Text Json EventChain EventLog Seal Db Events.

(** ** The channel *)

(** [live c r]: the receiver [r] has not been dropped. [offered c r] are the
    values sent while [r] was on the channel, in the order they were sent. *)
Class BroadcastChannel (A : Type) := {
  chan : Type;
  chan_new : Z -> chan;
  chan_send : A -> chan -> chan;
  chan_subscribe : chan -> nat * chan;
  chan_drop : nat -> chan -> chan;
  receiver_count : chan -> nat;
  live : chan -> nat -> Prop;
  offered : chan -> nat -> list A
}.

Class BroadcastLaws (A : Type) `{BroadcastChannel A} : Prop := {
  new_silent cap r : ~ live (chan_new cap) r;
  send_live a c r : live (chan_send a c) r <-> live c r;
  send_offered a c r : live c r -> offered (chan_send a c) r = offered c r ++ [a];
  subscribe_fresh c : ~ live c (chan_subscribe c).1;
  subscribe_live c r : live (chan_subscribe c).2 r <-> live c r \/ r = (chan_subscribe c).1;
  subscribe_offered_new c : offered (chan_subscribe c).2 (chan_subscribe c).1 = [];
  subscribe_offered c r : live c r -> offered (chan_subscribe c).2 r = offered c r;
  drop_live c r r' : live (chan_drop r c) r' <-> live c r' /\ r' <> r;
  drop_offered c r r' : live c r' -> r' <> r -> offered (chan_drop r c) r' = offered c r';
  receiver_count_pos c : 0 < receiver_count c <-> exists r, live c r
}.

(** ** The fan-out *)

Section fanout.
Context `{BroadcastChannel BusEnvelope}.

Record ShardedBroadcast := {
  capacity : Z;
  global : chan;
  (** The map under the lock: each workspace's channel, by handle. *)
  shards : gmap N nat;
  (** The channels the handles stand for, and the next handle. *)
  channels_ : gmap nat chan;
  handles : nat
}.

Definition DEFAULT_BROADCAST_CAP : Z := 1024.
Definition MAX_BROADCAST_CAP : Z := 65536.
(** [capacity.clamp(1, MAX_BROADCAST_CAP)]. *)
Definition bounded_broadcast_capacity (capacity : Z) : Z := clamp 1 MAX_BROADCAST_CAP capacity.

Definition new (capacity : Z) : ShardedBroadcast :=
  let capacity := bounded_broadcast_capacity capacity in
  {| capacity := capacity; global := chan_new capacity; shards := ∅; channels_ := ∅; handles := 0 |}.

Definition channel_at (b : ShardedBroadcast) (h : nat) : chan := default (chan_new (capacity b)) (channels_ b !! h).

Definition set_global (c : chan) (b : ShardedBroadcast) : ShardedBroadcast :=
  {| capacity := capacity b; global := c; shards := shards b; channels_ := channels_ b; handles := handles b |}.
Definition set_channel (h : nat) (c : chan) (b : ShardedBroadcast) : ShardedBroadcast :=
  {| capacity := capacity b; global := global b; shards := shards b; channels_ := <[h := c]> (channels_ b);
     handles := handles b |}.
Definition set_shards (m : gmap N nat) (b : ShardedBroadcast) : ShardedBroadcast :=
  {| capacity := capacity b; global := global b; shards := m; channels_ := channels_ b; handles := handles b |}.

(** The three steps of [publish]: the look-up under the lock, the send on the
    global channel, and the send on the workspace's. *)
Definition lookup_shard (b : ShardedBroadcast) (env : BusEnvelope) : option nat :=
  ws ← Event.workspace_id (event env); shards b !! ws.
Definition send_global (env : BusEnvelope) (b : ShardedBroadcast) : ShardedBroadcast :=
  set_global (chan_send env (global b)) b.
Definition send_shard (h : nat) (env : BusEnvelope) (b : ShardedBroadcast) : ShardedBroadcast :=
  set_channel h (chan_send env (channel_at b h)) b.

Definition publish (b : ShardedBroadcast) (env : BusEnvelope) : ShardedBroadcast :=
  match lookup_shard b env with
  | Some h => send_shard h env (send_global env b)
  | None => send_global env b
  end.

(** A receiver: on the global channel, or on the channel of a handle. *)
Inductive Rx := RxGlobal (r : nat) | RxShard (h r : nat).

(** [shards.retain(|_, tx| tx.receiver_count() > 0)]. *)
Definition retain_live (b : ShardedBroadcast) : gmap N nat :=
  filter (fun e => 0 < receiver_count (channel_at b e.2)) (shards b).

(** [entry(ws).or_insert_with(|| broadcast::channel(capacity).0)]. *)
Definition shard_entry (ws : N) (b : ShardedBroadcast) : nat * ShardedBroadcast :=
  match shards b !! ws with
  | Some h => (h, b)
  | None =>
      (handles b,
       {| capacity := capacity b; global := global b; shards := <[ws := handles b]> (shards b);
          channels_ := <[handles b := chan_new (capacity b)]> (channels_ b); handles := S (handles b) |})
  end.

Definition subscribe (b : ShardedBroadcast) (f : EventFilter) : Rx * ShardedBroadcast :=
  match f_workspace f with
  | Some ws =>
      let '(h, b) := shard_entry ws (set_shards (retain_live b) b) in
      let '(r, c) := chan_subscribe (channel_at b h) in
      (RxShard h r, set_channel h c b)
  | None =>
      let '(r, c) := chan_subscribe (global b) in (RxGlobal r, set_global c b)
  end.

(** Dropping a [Receiver]. *)
Definition drop_rx (x : Rx) (b : ShardedBroadcast) : ShardedBroadcast :=
  match x with
  | RxGlobal r => set_global (chan_drop r (global b)) b
  | RxShard h r => set_channel h (chan_drop r (channel_at b h)) b
  end.

Definition shard_count (b : ShardedBroadcast) : nat := size (shards b).

Definition rx_live (b : ShardedBroadcast) (x : Rx) : Prop :=
  match x with RxGlobal r => live (global b) r | RxShard h r => live (channel_at b h) r end.
Definition rx_offered (b : ShardedBroadcast) (x : Rx) : list BusEnvelope :=
  match x with RxGlobal r => offered (global b) r | RxShard h r => offered (channel_at b h) r end.

(** ** Subscription streams ([inmem.rs], [postgres.rs]) *)

(** What the receiver's stream yields: a value, or how many values it missed
    because it fell behind the channel's buffer. *)
Inductive RecvItem := Value_ (env : BusEnvelope) | Lagged_ (skipped : nat).
Inductive BusItem := BusEvent (env : BusEnvelope) | BusLagged (skipped : nat).

(** The [filter_map] of [subscribe]. *)
Definition to_item (f : EventFilter) (msg : RecvItem) : option BusItem :=
  match msg with
  | Value_ env => if matches_envelope f env then Some (BusEvent env) else None
  | Lagged_ n => Some (BusLagged n)
  end.
Definition stream_items (f : EventFilter) (received : list RecvItem) : list BusItem := omap (to_item f) received.

(** tokio's contract: what is received accounts for what was offered, in order,
    with every run of lost values reported by its length. *)
Inductive receives : list BusEnvelope -> list RecvItem -> Prop :=
| receives_nil : receives [] []
| receives_value env sent got : receives sent got -> receives (env :: sent) (Value_ env :: got)
| receives_lagged lost sent got :
    lost <> [] -> receives sent got -> receives (lost ++ sent) (Lagged_ (length lost) :: got).

(** ** Publishers and subscribers side by side *)

(** A publish under way: its envelope, the handle it looked up, and whether it
    has sent on the global channel. *)
Record System := { bus : ShardedBroadcast; flying : gmap nat (BusEnvelope * option nat * bool) }.

Inductive Action :=
| Begin (p : nat) (env : BusEnvelope)
| SendGlobal (p : nat)
| SendShard (p : nat)
| Subscribe (f : EventFilter)
| Drop (x : Rx).

(** One step of one of them, when it can be taken. *)
Definition act (s : System) (a : Action) : option System :=
  match a with
  | Begin p env =>
      match flying s !! p with
      | Some _ => None
      | None => Some {| bus := bus s; flying := <[p := (env, lookup_shard (bus s) env, false)]> (flying s) |}
      end
  | SendGlobal p =>
      match flying s !! p with
      | Some (env, Some h, false) =>
          Some {| bus := send_global env (bus s); flying := <[p := (env, Some h, true)]> (flying s) |}
      | Some (env, None, false) => Some {| bus := send_global env (bus s); flying := delete p (flying s) |}
      | _ => None
      end
  | SendShard p =>
      match flying s !! p with
      | Some (env, Some h, true) => Some {| bus := send_shard h env (bus s); flying := delete p (flying s) |}
      | _ => None
      end
  | Subscribe f => Some {| bus := (subscribe (bus s) f).2; flying := flying s |}
  | Drop x => Some {| bus := drop_rx x (bus s); flying := flying s |}
  end.

Fixpoint acts (s : System) (l : list Action) : option System :=
  match l with
  | [] => Some s
  | a :: l => s ← act s a; acts s l
  end.

Definition start (capacity : Z) : System := {| bus := new capacity; flying := ∅ |}.

(** ** One after another *)

Inductive BusOp := OpPublish (env : BusEnvelope) | OpSubscribe (f : EventFilter) | OpDrop (x : Rx).
Definition run_op (b : ShardedBroadcast) (op : BusOp) : ShardedBroadcast :=
  match op with
  | OpPublish env => publish b env
  | OpSubscribe f => (subscribe b f).2
  | OpDrop x => drop_rx x b
  end.
Definition run (b : ShardedBroadcast) (ops : list BusOp) : ShardedBroadcast := fold_left run_op ops b.

(** The events published, which is what one channel for all would carry. *)
Definition published (ops : list BusOp) : list BusEnvelope :=
  omap (fun op => match op with OpPublish env => Some env | _ => None end) ops.

(** ** What a subscriber is owed *)

(** The events of [ws] whose publish sends on the workspace channel during the
    actions, in that order, given the ones under way at the start; and the ones
    still under way at the end. *)
Fixpoint heard (ws : N) (owed : gmap nat BusEnvelope) (l : list Action) : list BusEnvelope * gmap nat BusEnvelope :=
  match l with
  | [] => ([], owed)
  | Begin p env :: l =>
      if decide (Event.workspace_id (event env) = Some ws) then heard ws (<[p := env]> owed) l else heard ws owed l
  | SendShard p :: l =>
      match owed !! p with
      | Some env => let '(h, rest) := heard ws (delete p owed) l in (env :: h, rest)
      | None => heard ws owed l
      end
  | _ :: l => heard ws owed l
  end.

(** The publishes under way that looked up the handle [h]. *)
Definition bound_for (h : nat) (s : System) : gmap nat BusEnvelope :=
  omap (fun e => if decide (e.1.2 = Some h) then Some e.1.1 else None) (flying s).
End fanout.
