(* ===== verification/BroadcastLaws.v ===== *)
(** * The sharded broadcast delivers what one channel would

    For any interleaving of publishers, subscribers and dropped receivers, a
    subscriber is offered exactly the events of its workspace published since it
    subscribed; and for publishes that run one after another, filtering its
    workspace's channel gives what filtering a single channel would. *)

From stdpp Require Import strings gmap.
From S2P Require Import Prelude Text Json EventChain EventLog Seal Db Events Broadcast.

Section laws.
Context `{BroadcastLaws BusEnvelope}.

(** ** Channels of the store *)

Lemma channel_at_set h h' c b :
  channel_at (set_channel h c b) h' = if decide (h = h') then c else channel_at b h'.
Proof. unfold channel_at, set_channel. simpl. case_decide; subst; by simplify_map_eq. Qed.
Lemma channel_at_global c b h : channel_at (set_global c b) h = channel_at b h.
Proof. done. Qed.
Lemma channel_at_shards m b h : channel_at (set_shards m b) h = channel_at b h.
Proof. done. Qed.
(** ** The routing invariant *)

(** [owner] says for which workspace a channel was made. A channel in the map
    belongs to its workspace, a publish under way looked up a channel of its
    event's workspace, and a channel with a receiver is still in the map. *)
Record routed (owner : gmap nat N) (s : System) : Prop := {
  rt_shard ws h : shards (bus s) !! ws = Some h -> owner !! h = Some ws;
  rt_bound p env h g : flying s !! p = Some (env, Some h, g) ->
    Event.workspace_id (event env) = owner !! h /\ is_Some (owner !! h);
  rt_live h r : live (channel_at (bus s) h) r -> exists ws, owner !! h = Some ws /\ shards (bus s) !! ws = Some h;
  rt_owned h : is_Some (owner !! h) -> h < handles (bus s)
}.

Lemma routed_start cap : routed ∅ (start cap).
Proof.
  split; simpl; try set_solver.
  - intros h r Hl. by apply new_silent in Hl.
  - intros h [? ?]. set_solver.
Qed.

Lemma live_handle owner s h r : routed owner s -> live (channel_at (bus s) h) r -> h < handles (bus s).
Proof. intros Hr (ws & Hw & _)%(rt_live _ _ Hr). eauto using rt_owned. Qed.

Lemma retain_live_lookup b ws h :
  retain_live b !! ws = Some h <-> shards b !! ws = Some h /\ exists r, live (channel_at b h) r.
Proof. unfold retain_live. rewrite map_lookup_filter_Some. simpl. by rewrite receiver_count_pos. Qed.

(** The prune keeps every channel that has a receiver. *)
Lemma routed_prune owner s :
  routed owner s -> routed owner {| bus := set_shards (retain_live (bus s)) (bus s); flying := flying s |}.
Proof.
  intros [Hs Hb Hl Ho]. split; simpl; [|done| |done].
  - intros ws h [Hw _]%retain_live_lookup. eauto.
  - intros h r Hr. destruct (Hl h r Hr) as (ws & Hw & Hm).
    exists ws. split; [done|]. apply retain_live_lookup. eauto.
Qed.

(** Opening a workspace's channel. *)
Lemma routed_entry owner s ws :
  routed owner s ->
  exists owner', routed owner' {| bus := (shard_entry ws (bus s)).2; flying := flying s |} /\ owner ⊆ owner'
    /\ owner' !! (shard_entry ws (bus s)).1 = Some ws
    /\ shards (shard_entry ws (bus s)).2 !! ws = Some (shard_entry ws (bus s)).1
    /\ forall h, h < handles (bus s) -> channel_at (shard_entry ws (bus s)).2 h = channel_at (bus s) h.
Proof.
  intros Hr. pose proof Hr as [Hs Hb Hl Ho]. unfold shard_entry.
  destruct (shards (bus s) !! ws) as [h|] eqn:E; simpl.
  { exists owner. split_and!; eauto. by destruct s. }
  assert (owner !! handles (bus s) = None) as Hfresh.
  { apply eq_None_not_Some. intros Hsome%Ho. lia. }
  exists (<[handles (bus s) := ws]> owner).
  split_and!; [|by apply insert_subseteq|by simplify_map_eq..|].
  2:{ intros h Hh. unfold channel_at. simpl. rewrite lookup_insert_ne by lia. done. }
  split; simpl.
  - intros ws' h. rewrite lookup_insert_Some. intros [[<- <-]|[Hne Hw]]; [by simplify_map_eq|].
    rewrite lookup_insert_ne; [eauto|]. intros <-. apply Hs in Hw. congruence.
  - intros p env h g [Hw Hsome]%Hb. rewrite lookup_insert_ne; [done|].
    intros <-. rewrite Hfresh in Hsome. by destruct Hsome.
  - intros h r. unfold channel_at at 1. simpl. destruct (decide (handles (bus s) = h)) as [<-|Hne].
    { rewrite lookup_insert_eq. by intros ?%new_silent. }
    rewrite lookup_insert_ne by done. intros (ws' & Hw & Hm)%Hl. exists ws'.
    rewrite !lookup_insert_ne; [done|congruence|intros <-; congruence].
  - intros h. rewrite lookup_insert_is_Some. intros [<-|[_ Hsome%Ho]]; lia.
Qed.

(** Another state of the channel [h]: with a receiver more on a channel that is in
    the map, or with none more. *)
Lemma routed_channel owner s h c fl :
  routed owner s ->
  ((exists ws, owner !! h = Some ws /\ shards (bus s) !! ws = Some h)
   \/ (forall r, live c r -> live (channel_at (bus s) h) r)) ->
  (forall p e, fl !! p = Some e -> flying s !! p = Some e) ->
  routed owner {| bus := set_channel h c (bus s); flying := fl |}.
Proof.
  intros [Hs Hb Hl Ho] Hc Hfl. split; simpl; [done|eauto| |done].
  intros h' r. rewrite channel_at_set. case_decide as E; [subst|eauto].
  destruct Hc as [Hin|Hsub]; eauto.
Qed.

(** Publishes under way that change no channel. *)
Lemma routed_flying owner s c fl :
  routed owner s ->
  (forall p env h g, fl !! p = Some (env, Some h, g) ->
     Event.workspace_id (event env) = owner !! h /\ is_Some (owner !! h)) ->
  routed owner {| bus := set_global c (bus s); flying := fl |}.
Proof. intros [Hs Hb Hl Ho] Hfl. by split. Qed.

Lemma lookup_shard_owner owner s env h :
  routed owner s -> lookup_shard (bus s) env = Some h ->
  Event.workspace_id (event env) = owner !! h /\ is_Some (owner !! h).
Proof.
  intros Hr (ws & Hw & Hs)%bind_Some. apply (rt_shard _ _ Hr) in Hs as Ho. rewrite Hw, Ho. eauto.
Qed.

(** ** Every step keeps it *)

Lemma routed_subscribe owner s f :
  routed owner s ->
  exists owner', routed owner' {| bus := (subscribe (bus s) f).2; flying := flying s |} /\ owner ⊆ owner'.
Proof.
  intros Hr. unfold subscribe. destruct (f_workspace f) as [ws|].
  - destruct (routed_entry owner _ ws (routed_prune _ _ Hr)) as (owner' & Hr' & Hsub & Ho & Hs & _).
    simpl in *. destruct (shard_entry ws _) as [h b]. simpl in *.
    destruct (chan_subscribe (channel_at b h)) as [r c] eqn:E. exists owner'. split; [|done].
    apply (routed_channel owner' {| bus := b; flying := flying s |}); simpl; eauto.
  - destruct (chan_subscribe (global (bus s))) as [r c]. exists owner. split; [|done].
    apply routed_flying; [done|]. intros p env h g. apply (rt_bound _ _ Hr).
Qed.

Lemma routed_act owner s a s' :
  routed owner s -> act s a = Some s' -> exists owner', routed owner' s' /\ owner ⊆ owner'.
Proof.
  intros Hr. destruct a as [p env|p|p|f|x]; simpl.
  - destruct (flying s !! p) eqn:Hp; [done|]. intros [= <-]. exists owner. split; [|done].
    replace (bus s) with (set_global (global (bus s)) (bus s)) at 1 by (by destruct (bus s)).
    apply routed_flying; [done|].
    intros p' env' h g. rewrite lookup_insert_Some. intros [[_ [= <- Hl <-]]|[_ Hf]].
    + by apply (lookup_shard_owner _ s).
    + eapply rt_bound; eauto.
  - destruct (flying s !! p) as [[[env [h|]] []]|] eqn:Hp; try done; intros [= <-]; exists owner; split; try done;
      apply routed_flying; try done; intros p' env' h' g.
    + rewrite lookup_insert_Some. intros [[_ [= <- <- <-]]|[_ Hf]]; eapply rt_bound; eauto.
    + rewrite lookup_delete_Some. intros [_ Hf]. eapply rt_bound; eauto.
  - destruct (flying s !! p) as [[[env [h|]] []]|] eqn:Hp; try done. intros [= <-]. exists owner. split; [|done].
    apply routed_channel; [done| |].
    + right. intros r. by rewrite send_live.
    + intros p' e. rewrite lookup_delete_Some. by intros [_ ?].
  - intros [= <-]. by apply routed_subscribe.
  - intros [= <-]. exists owner. split; [|done]. destruct x as [r|h r]; simpl.
    + apply routed_flying; [done|]. intros p env h g. apply (rt_bound _ _ Hr).
    + apply routed_channel; [done| |done]. right. intros r'. rewrite drop_live. by intros [? _].
Qed.

(** ** What a receiver is offered *)

Lemma bound_for_lookup h s p env :
  bound_for h s !! p = Some env <-> exists g, flying s !! p = Some (env, Some h, g).
Proof.
  unfold bound_for. rewrite lookup_omap, bind_Some. split.
  - intros ([[env' o] g] & Hf & He). simpl in He. case_decide; simplify_eq. eauto.
  - intros [g Hf]. exists (env, Some h, g). split; [done|]. simpl. by rewrite decide_True.
Qed.

Lemma bound_for_insert h b' b fl p env o g :
  bound_for h {| bus := b'; flying := <[p := (env, o, g)]> fl |}
  = if decide (o = Some h) then <[p := env]> (bound_for h {| bus := b; flying := fl |})
    else delete p (bound_for h {| bus := b; flying := fl |}).
Proof. unfold bound_for. simpl. rewrite omap_insert. simpl. by case_decide. Qed.
Lemma bound_for_delete h b' b fl p :
  bound_for h {| bus := b'; flying := delete p fl |} = delete p (bound_for h {| bus := b; flying := fl |}).
Proof. unfold bound_for. simpl. by rewrite omap_delete. Qed.
Lemma bound_for_not h s p : (forall env g, flying s !! p <> Some (env, Some h, g)) -> bound_for h s !! p = None.
Proof. intros Hn. apply eq_None_not_Some. intros [env [g Hf]%bound_for_lookup]. by eapply Hn. Qed.

(** A new subscriber changes nothing for a receiver that is there. *)
Lemma subscribe_keeps owner s f h r :
  routed owner s -> live (channel_at (bus s) h) r ->
  live (channel_at (subscribe (bus s) f).2 h) r
  /\ offered (channel_at (subscribe (bus s) f).2 h) r = offered (channel_at (bus s) h) r.
Proof.
  intros Hr Hl. unfold subscribe. destruct (f_workspace f) as [ws|].
  - destruct (routed_entry owner _ ws (routed_prune _ _ Hr)) as (owner' & Hr' & _ & _ & _ & Hc).
    simpl in *. destruct (shard_entry ws _) as [h' b]. simpl in *.
    pose proof (Hc h (live_handle _ _ _ _ Hr Hl)) as Hch. rewrite channel_at_shards in Hch.
    destruct (chan_subscribe (channel_at b h')) as [r' c] eqn:E. simpl. rewrite channel_at_set.
    rewrite <- Hch in Hl |- *. case_decide as Eh; [subst h'|done].
    pose proof (subscribe_live (channel_at b h) r) as Hlive.
    pose proof (subscribe_offered (channel_at b h) r Hl) as Hoff.
    rewrite E in Hlive, Hoff. simpl in *. split; [by apply Hlive; left|done].
  - by destruct (chan_subscribe (global (bus s))) as [r' c].
Qed.

(** One step of the system, seen by a receiver [r] of the workspace [ws] on the
    channel [h]: how it changes what [r] was offered and the publishes under way
    to [h]. *)
Lemma step_heard owner s a s' ws h r :
  routed owner s -> act s a = Some s' -> a <> Drop (RxShard h r) ->
  owner !! h = Some ws -> live (channel_at (bus s) h) r ->
  live (channel_at (bus s') h) r
  /\ offered (channel_at (bus s') h) r
     = offered (channel_at (bus s) h) r ++ (heard ws (bound_for h s) [a]).1
  /\ bound_for h s' = (heard ws (bound_for h s) [a]).2.
Proof.
  intros Hr Ha Hd Ho Hl. destruct (rt_live _ _ Hr _ _ Hl) as (ws' & Ho' & Hs). simplify_eq.
  destruct s as [b fl]. destruct a as [p env|p|p|f|x]; simpl in *.
  - destruct (fl !! p) eqn:Hp; [done|]. simplify_eq. simpl. split; [done|].
    rewrite (bound_for_insert h _ b). unfold lookup_shard.
    assert (bound_for h {| bus := b; flying := fl |} !! p = None) as Hnone.
    { apply bound_for_not. simpl. congruence. }
    case_decide as Hw; simpl.
    + rewrite Hw. simpl. rewrite decide_True by done. by rewrite app_nil_r.
    + rewrite app_nil_r. split; [done|]. rewrite decide_False; [by apply delete_id|].
      intros (ws'' & Hw'' & Hs'')%bind_Some. apply (rt_shard _ _ Hr) in Hs''. simpl in *. congruence.
  - rewrite app_nil_r.
    destruct (fl !! p) as [[[env [h'|]] []]|] eqn:Hp; try done; simplify_eq; simpl; (split; [done|]); (split; [done|]).
    + rewrite (bound_for_insert h _ b). case_decide as E; simplify_eq.
      * apply insert_id, bound_for_lookup. eauto.
      * apply delete_id, bound_for_not. simpl. congruence.
    + rewrite (bound_for_delete h _ b). apply delete_id, bound_for_not. simpl. congruence.
  - destruct (fl !! p) as [[[env [h'|]] []]|] eqn:Hp; try done. simplify_eq. simpl.
    rewrite (bound_for_delete h _ b). unfold send_shard. rewrite channel_at_set.
    case_decide as E; [subst h'|].
    + rewrite (proj2 (bound_for_lookup h {| bus := b; flying := fl |} p env)) by eauto. simpl.
      by rewrite send_live, send_offered.
    + rewrite bound_for_not by (simpl; congruence). simpl. rewrite app_nil_r. split; [done|]. split; [done|].
      apply delete_id, bound_for_not. simpl. congruence.
  - simplify_eq. simpl. rewrite app_nil_r.
    destruct (subscribe_keeps owner {| bus := b; flying := fl |} f h r Hr Hl) as [? ?]. simpl in *. done.
  - simplify_eq. simpl. rewrite app_nil_r.
    destruct x as [r'|h' r']; simpl; [done|]. rewrite channel_at_set. case_decide as E; [subst h'|done].
    assert (r <> r') as Hne by (by intros ->). by rewrite drop_live, drop_offered.
Qed.

Lemma heard_app ws owed l l' :
  heard ws owed (l ++ l')
  = ((heard ws owed l).1 ++ (heard ws (heard ws owed l).2 l').1, (heard ws (heard ws owed l).2 l').2).
Proof.
  revert owed. induction l as [|[p env|p|p|f|x] l IH]; intros owed; simpl; try apply IH.
  - by destruct (heard ws owed l').
  - case_decide; apply IH.
  - destruct (owed !! p); [|apply IH]. rewrite IH. by destruct (heard ws (delete p owed) l).
Qed.

Lemma acts_heard owner s l s' ws h r :
  routed owner s -> acts s l = Some s' -> Drop (RxShard h r) ∉ l ->
  owner !! h = Some ws -> live (channel_at (bus s) h) r ->
  live (channel_at (bus s') h) r
  /\ offered (channel_at (bus s') h) r
     = offered (channel_at (bus s) h) r ++ (heard ws (bound_for h s) l).1
  /\ bound_for h s' = (heard ws (bound_for h s) l).2.
Proof.
  revert owner s. induction l as [|a l IH]; intros owner s Hr Hl Hd Ho Hlive; simpl in Hl.
  { simplify_eq. simpl. by rewrite app_nil_r. }
  apply bind_Some in Hl as (s1 & Ha & Hl). apply not_elem_of_cons in Hd as [Hd1 Hd2].
  destruct (step_heard owner s a s1 ws h r) as (Hlive1 & Hoff1 & Hb1); [done|done|congruence|done..|].
  destruct (routed_act _ _ _ _ Hr Ha) as (owner1 & Hr1 & Hsub).
  destruct (IH owner1 s1) as (Hlive2 & Hoff2 & Hb2); [done|done|done|by eapply lookup_weaken|done|].
  change (a :: l) with ([a] ++ l). rewrite heard_app, Hoff2, Hb2, Hoff1, Hb1. simpl. by rewrite app_assoc.
Qed.

Lemma acts_app s l l' : acts s (l ++ l') = acts s l ≫= fun s1 => acts s1 l'.
Proof. revert s. induction l as [|a l IH]; intros s; simpl; [done|]. destruct (act s a); simpl; auto. Qed.

Lemma routed_acts owner s l s' :
  routed owner s -> acts s l = Some s' -> exists owner', routed owner' s' /\ owner ⊆ owner'.
Proof.
  revert owner s. induction l as [|a l IH]; intros owner s Hr; simpl; [intros [= <-]; eauto|].
  intros (s1 & Ha & Hl)%bind_Some. destruct (routed_act _ _ _ _ Hr Ha) as (owner1 & Hr1 & Hs1).
  destruct (IH owner1 s1 Hr1 Hl) as (owner2 & Hr2 & Hs2). exists owner2. split; [done|]. by etrans.
Qed.

(** A publish under way to the channel stays there until it is heard. *)
Lemma owed_reaches owner s l s' ws h r p env :
  routed owner s -> acts s l = Some s' -> Drop (RxShard h r) ∉ l ->
  owner !! h = Some ws -> live (channel_at (bus s) h) r ->
  bound_for h s !! p = Some env ->
  env ∈ (heard ws (bound_for h s) l).1 \/ bound_for h s' !! p = Some env.
Proof.
  revert owner s. induction l as [|a l IH]; intros owner s Hr Hl Hd Ho Hlive Hp; simpl in Hl.
  { simplify_eq. by right. }
  apply bind_Some in Hl as (s1 & Ha & Hl). apply not_elem_of_cons in Hd as [Hd1 Hd2].
  destruct (step_heard owner s a s1 ws h r) as (Hlive1 & _ & Hb1); [done|done|congruence|done..|].
  destruct (routed_act _ _ _ _ Hr Ha) as (owner1 & Hr1 & Hsub).
  change (a :: l) with ([a] ++ l). rewrite heard_app, <- Hb1. simpl.
  assert (env ∈ (heard ws (bound_for h s) [a]).1 \/ bound_for h s1 !! p = Some env) as [Hin|Hp1].
  { rewrite Hb1. clear -Ha Hp. apply bound_for_lookup in Hp as Hf. destruct Hf as [g Hf].
    destruct a as [p' env'|p'|p'|f|x]; simpl in *; auto.
    - destruct (flying s !! p') eqn:E; [done|]. right. case_decide; simpl; [|done].
      by rewrite lookup_insert_ne by congruence.
    - destruct (decide (p' = p)) as [->|Hne]; [rewrite Hp; left; simpl; set_solver|].
      right. destruct (bound_for h s !! p') eqn:E; simpl; [|done]. by rewrite lookup_delete_ne. }
  { left. apply elem_of_app. by left. }
  destruct (IH owner1 s1) as [Hin|Hin]; [done|done|done|by eapply lookup_weaken|done|done| |by right].
  left. apply elem_of_app. by right.
Qed.

(** Where a subscriber to a workspace lands. *)
Lemma subscribe_lands owner s f ws :
  routed owner s -> f_workspace f = Some ws ->
  exists h r owner', (subscribe (bus s) f).1 = RxShard h r
    /\ routed owner' {| bus := (subscribe (bus s) f).2; flying := flying s |}
    /\ owner' !! h = Some ws
    /\ live (channel_at (subscribe (bus s) f).2 h) r
    /\ offered (channel_at (subscribe (bus s) f).2 h) r = [].
Proof.
  intros Hr Hf. unfold subscribe. rewrite Hf.
  destruct (routed_entry owner _ ws (routed_prune _ _ Hr)) as (owner' & Hr' & Hsub & Ho & Hs & _).
  simpl in *. destruct (shard_entry ws _) as [h b]. simpl in *.
  pose proof (subscribe_live (channel_at b h)) as Hlive.
  pose proof (subscribe_offered_new (channel_at b h)) as Hoff.
  destruct (chan_subscribe (channel_at b h)) as [r c] eqn:E. simpl in *. exists h, r, owner'.
  split; [done|]. split; [|split; [done|]].
  - apply (routed_channel owner' {| bus := b; flying := flying s |}); simpl; eauto.
  - rewrite channel_at_set, decide_True by done. split; [apply Hlive; by right|done].
Qed.

(** Only events of the workspace are owed, so only they are heard. *)
Lemma heard_workspace ws owed l env :
  (forall p e, owed !! p = Some e -> Event.workspace_id (event e) = Some ws) ->
  env ∈ (heard ws owed l).1 -> Event.workspace_id (event env) = Some ws.
Proof.
  revert owed. induction l as [|[p e|p|p|f|y] l IH]; intros owed Howed; simpl; try (by eauto); [set_solver|..].
  - case_decide as E; [|eauto]. apply IH.
    intros p' e'. rewrite lookup_insert_Some. intros [[_ <-]|[_ ?]]; eauto.
  - destruct (owed !! p) as [e|] eqn:Ep; [|eauto].
    destruct (heard ws (delete p owed) l) as [hs rest] eqn:Eh. simpl.
    intros [->|Hin]%elem_of_cons; [eauto|]. apply (IH (delete p owed)); [|by rewrite Eh].
    intros p' e'. rewrite lookup_delete_Some. intros [_ ?]. eauto.
Qed.

(** A publish of the workspace that begins while the receiver is there and is
    over at the end was heard. *)
Lemma begun_reaches owner s l p env l' s' ws h r :
  routed owner s -> acts s (l ++ Begin p env :: l') = Some s' ->
  Drop (RxShard h r) ∉ l ++ Begin p env :: l' ->
  owner !! h = Some ws -> live (channel_at (bus s) h) r ->
  Event.workspace_id (event env) = Some ws -> flying s' !! p = None ->
  env ∈ (heard ws (bound_for h s) (l ++ Begin p env :: l')).1.
Proof.
  intros Hr Hacts Hd Ho Hlive Hw Hdone. rewrite acts_app in Hacts.
  apply bind_Some in Hacts as (sl & Hl & (s1 & Hact & Hl')%bind_Some).
  assert ((Drop (RxShard h r) ∉ l) /\ (Drop (RxShard h r) ∉ l')) as [Hdl Hdl'] by set_solver.
  destruct (acts_heard owner s l sl ws h r Hr Hl Hdl Ho Hlive) as (Hll & _ & Hbl).
  destruct (routed_acts _ _ _ _ Hr Hl) as (owner1 & Hr1 & Hs1).
  pose proof (lookup_weaken _ _ _ _ Ho Hs1) as Ho1.
  destruct (step_heard owner1 sl _ s1 ws h r Hr1 Hact ltac:(done) Ho1 Hll) as (Hl1 & _ & Hb1).
  destruct (routed_act _ _ _ _ Hr1 Hact) as (owner2 & Hr2 & Hs2).
  simpl in Hb1. rewrite decide_True in Hb1 by done. simpl in Hb1.
  destruct (owed_reaches owner2 s1 l' s' ws h r p env Hr2 Hl' Hdl') as [Hin|Hin];
    [by eapply lookup_weaken|done|by rewrite Hb1; simplify_map_eq|..].
  - rewrite heard_app, <- Hbl. simpl. apply elem_of_app. right. rewrite decide_True by done. by rewrite <- Hb1.
  - apply bound_for_lookup in Hin as [g Hg]. congruence.
Qed.

(** C23: no subscriber is stranded, whatever the interleaving. Let any publishers,
    subscribers and dropped receivers run; let a subscriber join with a filter that
    names a workspace, while other publishes are under way; let them all run on.
    As long as it is not dropped, the subscriber is offered exactly the events of its workspace,
    in the order their publishes send on the workspace's channel: those under way to it
    when it joined, and those begun since. A publish of its workspace that began
    after it joined and is over has reached it, and nothing of another workspace
    ever does, however channels were made and pruned meanwhile. *)
Theorem subscriber_never_stranded cap before f ws s1 after s3 :
  acts (start cap) before = Some s1 -> f_workspace f = Some ws ->
  let x := (subscribe (bus s1) f).1 in
  let s2 := {| bus := (subscribe (bus s1) f).2; flying := flying s1 |} in
  acts s2 after = Some s3 -> Drop x ∉ after ->
  (exists h, rx_offered (bus s3) x = (heard ws (bound_for h s2) after).1
             /\ bound_for h s3 = (heard ws (bound_for h s2) after).2)
  /\ (forall env, env ∈ rx_offered (bus s3) x -> Event.workspace_id (event env) = Some ws)
  /\ (forall l p env l', after = l ++ Begin p env :: l' -> Event.workspace_id (event env) = Some ws ->
        flying s3 !! p = None -> env ∈ rx_offered (bus s3) x).
Proof.
  intros Hbefore Hf x s2 Hafter Hd.
  destruct (routed_acts _ _ _ _ (routed_start cap) Hbefore) as (owner & Hr & _).
  destruct (subscribe_lands owner s1 f ws Hr Hf) as (h & r & owner2 & Hx & Hr2 & Ho & Hlive & Hoff).
  assert (x = RxShard h r) as -> by exact Hx. clear Hx. fold s2 in Hr2.
  destruct (acts_heard owner2 s2 after s3 ws h r Hr2 Hafter Hd Ho Hlive) as (Hl3 & Ho3 & Hb3).
  simpl in Ho3 |- *. rewrite Hoff in Ho3. simpl in Ho3. split; [by exists h|]. split.
  - rewrite Ho3. intros env. apply heard_workspace. intros p e [g Hfl]%bound_for_lookup.
    apply (rt_bound _ _ Hr2) in Hfl as [-> _]. done.
  - intros l p env l' -> Hw Hdone. rewrite Ho3. by eapply begun_reaches.
Qed.
(** ** Publishes one after another *)

Definition of_workspace (ws : option N) (env : BusEnvelope) : bool := pins ws (Event.workspace_id (event env)).

Definition quiet (b : ShardedBroadcast) : System := {| bus := b; flying := ∅ |}.

(** An operation as the steps it is made of. *)
Definition op_actions (b : ShardedBroadcast) (op : BusOp) : list Action :=
  match op with
  | OpPublish env =>
      Begin 0 env :: SendGlobal 0 :: match lookup_shard b env with Some _ => [SendShard 0] | None => [] end
  | OpSubscribe f => [Subscribe f]
  | OpDrop x => [Drop x]
  end.

Lemma op_actions_run b op : acts (quiet b) (op_actions b op) = Some (quiet (run_op b op)).
Proof.
  destruct op as [env|f|x]; simpl; [|done..]. unfold publish. rewrite lookup_empty. simpl.
  destruct (lookup_shard b env) as [h|]; simpl; rewrite lookup_insert_eq; simpl.
  - rewrite insert_insert_eq, lookup_insert_eq. simpl. by rewrite delete_insert_id.
  - by rewrite delete_insert_id.
Qed.

Lemma bound_for_quiet h b : bound_for h (quiet b) = ∅.
Proof. unfold bound_for. simpl. apply omap_empty. Qed.

Lemma run_op_scoped owner b op ws h r :
  routed owner (quiet b) -> owner !! h = Some ws -> live (channel_at b h) r -> op <> OpDrop (RxShard h r) ->
  (exists owner', routed owner' (quiet (run_op b op)) /\ owner ⊆ owner')
  /\ live (channel_at (run_op b op) h) r
  /\ offered (channel_at (run_op b op) h) r
     = offered (channel_at b h) r ++ List.filter (of_workspace (Some ws)) (published [op]).
Proof.
  intros Hr Ho Hl Hd. pose proof (op_actions_run b op) as Hacts.
  assert (Drop (RxShard h r) ∉ op_actions b op) as Hdrop.
  { destruct op as [env|f|x]; simpl; [destruct (lookup_shard b env); set_solver|set_solver|].
    rewrite list_elem_of_singleton. congruence. }
  destruct (acts_heard owner _ _ _ ws h r Hr Hacts Hdrop Ho Hl) as (Hl' & Ho' & _).
  simpl bus in Hl', Ho'.
  split; [by eapply routed_acts|]. split; [done|]. rewrite Ho', bound_for_quiet. f_equal.
  destruct op as [env|f|x]; simpl; [|done..]. unfold of_workspace, pins.
  destruct (rt_live _ _ Hr _ _ Hl) as (ws' & Hw & Hs). simplify_eq. simpl in Hs.
  unfold lookup_shard. case_decide as E.
  - rewrite E. simpl. rewrite Hs. simpl. rewrite lookup_insert_eq. simpl. by rewrite bool_decide_true.
  - rewrite bool_decide_false by done. by destruct (_ ≫= _).
Qed.

Lemma run_op_global b op r :
  live (global b) r -> op <> OpDrop (RxGlobal r) ->
  live (global (run_op b op)) r
  /\ offered (global (run_op b op)) r = offered (global b) r ++ published [op].
Proof.
  intros Hl Hd. destruct op as [env|f|[r'|h r']]; simpl; rewrite ?app_nil_r; [| |split|done].
  - unfold publish. destruct (lookup_shard b env); simpl; by rewrite send_live, send_offered.
  - unfold subscribe. destruct (f_workspace f) as [ws|].
    + unfold shard_entry. destruct (shards _ !! ws); simpl; by destruct (chan_subscribe _).
    + pose proof (subscribe_live (global b) r) as Hlive. pose proof (subscribe_offered (global b) r Hl) as Hoff.
      destruct (chan_subscribe (global b)) as [r' c]. simpl in *. split; [by apply Hlive; left|done].
  - apply drop_live. split; [done|congruence].
  - apply drop_offered; [done|congruence].
Qed.

Lemma published_cons op ops : published (op :: ops) = published [op] ++ published ops.
Proof. by destruct op. Qed.

Lemma run_scoped owner b ops ws h r :
  routed owner (quiet b) -> owner !! h = Some ws -> live (channel_at b h) r -> OpDrop (RxShard h r) ∉ ops ->
  offered (channel_at (run b ops) h) r
  = offered (channel_at b h) r ++ List.filter (of_workspace (Some ws)) (published ops).
Proof.
  revert owner b. induction ops as [|op ops IH]; intros owner b Hr Ho Hl Hd; [by rewrite app_nil_r|].
  apply not_elem_of_cons in Hd as [Hd1 Hd2].
  destruct (run_op_scoped owner b op ws h r Hr Ho Hl ltac:(congruence)) as ((owner1 & Hr1 & Hs1) & Hl1 & Ho1).
  change (run b (op :: ops)) with (run (run_op b op) ops).
  rewrite (IH owner1 _ Hr1 ltac:(by eapply lookup_weaken) Hl1 Hd2), Ho1.
  rewrite (published_cons op ops), List.filter_app. by rewrite app_assoc.
Qed.

Lemma run_global b ops r :
  live (global b) r -> OpDrop (RxGlobal r) ∉ ops ->
  offered (global (run b ops)) r = offered (global b) r ++ published ops.
Proof.
  revert b. induction ops as [|op ops IH]; intros b Hl Hd; [by rewrite app_nil_r|].
  apply not_elem_of_cons in Hd as [Hd1 Hd2].
  destruct (run_op_global b op r Hl ltac:(congruence)) as [Hl1 Ho1].
  change (run b (op :: ops)) with (run (run_op b op) ops).
  rewrite (IH _ Hl1 Hd2), Ho1, (published_cons op ops). by rewrite app_assoc.
Qed.

Lemma routed_run owner b ops :
  routed owner (quiet b) -> exists owner', routed owner' (quiet (run b ops)).
Proof.
  revert owner b. induction ops as [|op ops IH]; intros owner b Hr; [by exists owner|].
  destruct (routed_acts _ _ _ _ Hr (op_actions_run b op)) as (owner1 & Hr1 & _). by apply (IH owner1).
Qed.

Lemma matches_of_workspace f env : matches_envelope f env = true -> of_workspace (f_workspace f) env = true.
Proof. unfold matches_envelope, matches. rewrite !andb_true_iff. tauto. Qed.

Lemma filter_filter_implied {A} (p q : A -> bool) l :
  (forall a, p a = true -> q a = true) -> List.filter p (List.filter q l) = List.filter p l.
Proof.
  intros Hpq. induction l as [|a l IH]; simpl; [done|]. destruct (q a) eqn:Eq; simpl; rewrite IH; [done|].
  destruct (p a) eqn:Ep; [|done]. apply Hpq in Ep. congruence.
Qed.

(** What a stream shows of what its receiver was offered: matching events only,
    in order, and a lag item wherever any are missing. *)
Definition shown (items : list BusItem) : list BusEnvelope :=
  omap (fun i => match i with BusEvent env => Some env | BusLagged _ => None end) items.
Definition lag (items : list RecvItem) : nat :=
  sum_list (omap (fun i => match i with Lagged_ n => Some n | Value_ _ => None end) items).

Lemma stream_shows f sent got :
  receives sent got ->
  shown (stream_items f got) `sublist_of` List.filter (matches_envelope f) sent
  /\ (lag got = 0 -> shown (stream_items f got) = List.filter (matches_envelope f) sent).
Proof.
  induction 1 as [|env sent got _ [IH1 IH2]|lost sent got Hne _ [IH1 IH2]]; simpl; [done|..].
  - destruct (matches_envelope f env) eqn:E; simpl; [|done]. split; [by constructor|].
    intros Hlag. f_equal. by apply IH2.
  - split.
    + rewrite List.filter_app. by apply sublist_inserts_l.
    + unfold lag. simpl. destruct lost; simpl; [done|lia].
Qed.

(** C24: the shards offer what one channel would. After any publishes,
    subscriptions and drops, one after the other, a new subscriber's filter picks
    out of what its channel offers it exactly what it would pick out of every event
    published since, in the same order, whether it listens on its workspace's
    channel or on the global one; so its stream shows those events in that order,
    all of them when its receiver does not lag. (How far a receiver lags is the
    channel's business and is not compared.) *)
Theorem sharded_equals_single cap before f after :
  let b1 := run (new cap) before in
  let x := (subscribe b1 f).1 in
  let offered_ := rx_offered (run (subscribe b1 f).2 after) x in
  OpDrop x ∉ after ->
  List.filter (matches_envelope f) offered_ = List.filter (matches_envelope f) (published after)
  /\ forall got, receives offered_ got ->
       shown (stream_items f got) `sublist_of` List.filter (matches_envelope f) (published after)
       /\ (lag got = 0 -> shown (stream_items f got) = List.filter (matches_envelope f) (published after)).
Proof.
  intros b1 x off Hd. cut (List.filter (matches_envelope f) off = List.filter (matches_envelope f) (published after)).
  { intros Heq. split; [done|]. intros got Hgot. rewrite <- Heq. by apply stream_shows. }
  unfold off. clear off. destruct (f_workspace f) as [ws|] eqn:Hf.
  - destruct (routed_run ∅ (new cap) before (routed_start cap)) as (owner & Hr).
    destruct (subscribe_lands owner (quiet b1) f ws Hr Hf) as (h & r & owner2 & Hx & Hr2 & Ho & Hlive & Hoff).
    simpl in *. assert (x = RxShard h r) as Ex by exact Hx. rewrite Ex in *. simpl.
    rewrite (run_scoped owner2 _ after ws h r Hr2 Ho Hlive Hd), Hoff. simpl.
    apply filter_filter_implied. intros env. rewrite <- Hf. apply matches_of_workspace.
  - unfold x in *. clear x. revert Hd. unfold subscribe. rewrite Hf.
    pose proof (subscribe_live (global b1)) as Hlive. pose proof (subscribe_offered_new (global b1)) as Hoff.
    destruct (chan_subscribe (global b1)) as [r c]. simpl in *. intros Hd.
    rewrite run_global; [|by apply Hlive; right|done]. simpl. by rewrite Hoff.
Qed.

End laws.

(** ** A channel that keeps its promises *)

(** Each receiver with what it was offered. *)
Module BroadcastSample.
#[global] Instance channel : BroadcastChannel BusEnvelope := {|
  chan := gmap nat (list BusEnvelope);
  chan_new := fun _ => ∅;
  chan_send := fun env c => (fun sent => sent ++ [env]) <$> c;
  chan_subscribe := fun c => (fresh (dom c), <[fresh (dom c) := []]> c);
  chan_drop := delete;
  receiver_count := size;
  live := fun c r => is_Some (c !! r);
  offered := fun c r => default [] (c !! r)
|}.

#[global] Instance channel_laws : BroadcastLaws BusEnvelope.
Proof.
  split; simpl.
  - intros _ r [? ?]. set_solver.
  - intros a c r. rewrite lookup_fmap, fmap_is_Some. done.
  - intros a c r [sent Hs]. by rewrite lookup_fmap, Hs.
  - intros c Hl. apply (is_fresh (dom c)). by apply elem_of_dom.
  - intros c r. rewrite lookup_insert_is_Some'. naive_solver.
  - intros c. by rewrite lookup_insert_eq.
  - intros c r Hl. rewrite lookup_insert_ne; [done|]. intros <-. by apply (is_fresh (dom c)), elem_of_dom.
  - intros c r r'. rewrite lookup_delete_is_Some. naive_solver.
  - intros c r r' _ Hne. by rewrite lookup_delete_ne.
  - intros c. split.
    + intros Hs. destruct (map_choose c) as (r & sent & Hr); [|by exists r, sent].
      intros ->. rewrite map_size_empty in Hs. lia.
    + intros (r & sent & Hr). destruct (decide (size c = 0)) as [E%map_size_empty_inv|]; [subst; set_solver|lia].
Qed.

Definition event_of (ws n : N) : BusEnvelope :=
  {| log_id := Z.of_N n; event := Event.MemberJoined 0 ws n Null; attribution := None; trace := None |}.

(** A publish of workspace 1 is under way when a subscriber to it joins; a
    publish of workspace 2 and one of workspace 1 follow, and another subscriber
    prunes the map between the look-up and the sends. *)
Definition before_ : list Action := [Subscribe (workspace 2); Begin 0 (event_of 1 10)].
Definition after_ : list Action :=
  [SendGlobal 0; Begin 1 (event_of 1 11); Begin 2 (event_of 2 12); Subscribe (workspace 3);
   SendGlobal 1; SendGlobal 2; SendShard 2; SendShard 1; Begin 3 (event_of 1 13)].
Definition joined : System := default (start 4) (acts (start 4) before_).
Definition joined_rx : Rx := (subscribe (bus joined) (workspace 1)).1.
Definition joined_next : System := {| bus := (subscribe (bus joined) (workspace 1)).2; flying := flying joined |}.
Definition ended : System := default (start 4) (acts joined_next after_).

Lemma after_no_drop x : Drop x ∉ after_.
Proof. unfold after_. rewrite !not_elem_of_cons. split_and!; try done. apply not_elem_of_nil. Qed.

Lemma subscriber_never_stranded_witness :
  rx_offered (bus ended) joined_rx = [event_of 1 11]
  /\ (forall env, env ∈ rx_offered (bus ended) joined_rx -> Event.workspace_id (event env) = Some 1%N)
  /\ event_of 1 11 ∈ rx_offered (bus ended) joined_rx.
Proof.
  assert (acts (start 4) before_ = Some joined) as H1 by (vm_cast_no_check (eq_refl (Some joined))).
  assert (acts joined_next after_ = Some ended) as H2 by (vm_cast_no_check (eq_refl (Some ended))).
  pose proof (subscriber_never_stranded 4 before_ (workspace 1) 1 joined after_ ended H1 eq_refl H2
                (after_no_drop _)) as (_ & Hall & Hin).
  split; [vm_compute; reflexivity|]. split; [exact Hall|].
  by apply (Hin [SendGlobal 0] 1 (event_of 1 11)
              [Begin 2 (event_of 2 12); Subscribe (workspace 3); SendGlobal 1; SendGlobal 2; SendShard 2;
               SendShard 1; Begin 3 (event_of 1 13)]).
Defined.

Definition ops_ : list BusOp := [OpPublish (event_of 1 7); OpPublish (event_of 2 8); OpSubscribe (workspace 2); OpPublish (event_of 1 9)].

Lemma ops_no_drop x : OpDrop x ∉ ops_.
Proof. unfold ops_. rewrite !not_elem_of_cons. split_and!; try done. apply not_elem_of_nil. Qed.

Lemma sharded_equals_single_witness :
  List.filter (matches_envelope (workspace 1))
    (rx_offered (run (subscribe (run (new 4) [OpSubscribe (workspace 2)]) (workspace 1)).2 ops_)
       (subscribe (run (new 4) [OpSubscribe (workspace 2)]) (workspace 1)).1)
  = [event_of 1 7; event_of 1 9].
Proof.
  rewrite (proj1 (sharded_equals_single 4 [OpSubscribe (workspace 2)] (workspace 1) ops_ (ops_no_drop _))). by vm_compute.
Defined.
End BroadcastSample.
