(* ===== verification/NotifyFloor.v ===== *)
(** * The listener of the Postgres bus

    [crates/maidan-bus/src/notify_floor.rs], [postgres.rs], [hydrate_stats.rs],
    [listener_health.rs] and [lib.rs]. A publish notifies a pointer to its
    event's row; the listener of each replica reads the row and hands the
    envelope to its local fan-out. Notifications can be lost and reads can fail,
    so the listener keeps a mark, drains the log up to a pointer that is ahead of
    it, and drains everything above it after a reconnect.

    The log changes while the listener reads it. A read is numbered by how many
    the listener made before it, and [EventLog] answers by that number: what a
    transaction committed between two reads is seen by the second. *)

From stdpp Require Import strings gmap sorting.
From S2P Require Import Prelude Text Json EventChain EventLog Seal Db Events.

Inductive BusError :=
| PayloadTooLarge (bytes : Z)
| BusSerialization
| BusDatabase
| Closed
| HydrateNotFound (id : Z)
| HydrateFailed (id : Z)
| BusStore (e : StoreError).

(** ** The log as the listener reads it *)

(** The trait: each operation with the number of the read. *)
Class EventLog (L : Type) := {
  head : L -> nat -> result BusError Z;
  page_after : L -> nat -> Z -> Z -> result BusError (list (Z * result BusError BusEnvelope));
  get : L -> nat -> Z -> result BusError BusEnvelope
}.

(** What its users rely on: [visible l n] are the ids committed at read [n] and
    [decoded l n id] is the event of a row as an envelope. *)
Class EventLogLaws (L : Type) `{EventLog L} := {
  visible : L -> nat -> gset Z;
  decoded : L -> nat -> Z -> result BusError BusEnvelope;
  page_after_sorted l n after limit page :
    page_after l n after limit = Ok page -> StronglySorted Z.lt page.*1;
  page_after_sound l n after limit page id e :
    page_after l n after limit = Ok page -> (id, e) ∈ page ->
    id ∈ visible l n /\ (after < id)%Z /\ e = decoded l n id;
  page_after_complete l n after limit page id :
    page_after l n after limit = Ok page -> id ∈ visible l n -> (after < id)%Z ->
    id ∈ page.*1 \/ (limit <= Z.of_nat (length page) /\ forall j, j ∈ page.*1 -> j < id)%Z;
  get_sound l n id env : get l n id = Ok env -> id ∈ visible l n /\ decoded l n id = Ok env;
  decoded_id l n id env : decoded l n id = Ok env -> log_id env = id
}.

(** Rows by their ids. *)
Definition id_le {A} (a b : Z * A) : Prop := (a.1 <= b.1)%Z.
#[global] Instance id_le_dec {A} (a b : Z * A) : Decision (id_le a b).
Proof. unfold id_le. apply _. Defined.
#[global] Instance id_le_total {A} : Total (@id_le A).
Proof. intros a b. unfold id_le. lia. Qed.
#[global] Instance id_le_trans {A} : Transitive (@id_le A).
Proof. intros a b c. unfold id_le. lia. Qed.

(** [maidan_events] through a pool: the table at each read, and the reads that
    fail. *)
Record PgEventLog := {
  pg_rows : nat -> gmap Z (result StoreError StoredEvent);
  pg_fails : nat -> option StoreError;
  pg_keyed n id s : pg_rows n !! id = Some (Ok s) -> e_id (stored_row s) = id
}.

Section postgres_log.
Context `{JsonText, SealEnv, EventCodec}.

Definition envelope_from_stored (s : StoredEvent) : result BusError BusEnvelope :=
  match from_stored s with
  | Ok env => Ok env
  | Err _ => Err (HydrateFailed (e_id (stored_row s)))
  end.

(** [SELECT COALESCE(MAX(id), 0)]. *)
Definition max_event_id (rows : gmap Z (result StoreError StoredEvent)) : Z :=
  map_fold (fun id _ acc => Z.max id acc) 0%Z rows.
(** [WHERE e.id > $1 ORDER BY e.id ASC LIMIT $2]. *)
Definition list_after_global_each (rows : gmap Z (result StoreError StoredEvent)) (after limit : Z) :
    list (Z * result StoreError StoredEvent) :=
  take (Z.to_nat limit)
    (merge_sort id_le
       (map_to_list (filter (fun e => (after < e.1)%Z) rows))).

(** How a row of a page becomes an envelope. *)
Definition row_envelope (id : Z) (stored : result StoreError StoredEvent) : result BusError BusEnvelope :=
  match stored with
  | Ok stored => envelope_from_stored stored
  | Err _ => Err (HydrateFailed id)
  end.

Definition pg_head (l : PgEventLog) (n : nat) : result BusError Z :=
  match pg_fails l n with Some e => Err (BusStore e) | None => Ok (max_event_id (pg_rows l n)) end.
Definition pg_page_after (l : PgEventLog) (n : nat) (after limit : Z) :
    result BusError (list (Z * result BusError BusEnvelope)) :=
  match pg_fails l n with
  | Some e => Err (BusStore e)
  | None => Ok ((fun row => (row.1, row_envelope row.1 row.2))
                  <$> list_after_global_each (pg_rows l n) after limit)
  end.
Definition pg_get (l : PgEventLog) (n : nat) (id : Z) : result BusError BusEnvelope :=
  let stored :=
    match pg_fails l n with
    | Some e => Err e
    | None => match pg_rows l n !! id with Some stored => stored | None => Err NotFound end
    end in
  match stored with
  | Ok stored => envelope_from_stored stored
  | Err NotFound => Err (HydrateNotFound id)
  | Err Database => Err BusDatabase
  | Err _ => Err (HydrateFailed id)
  end.

#[global] Instance PgEventLog_log : EventLog PgEventLog :=
  {| head := pg_head; page_after := pg_page_after; get := pg_get |}.
End postgres_log.

(** ** Counters ([hydrate_stats.rs]) *)

Inductive HydrateResult := HydrateOk | HydrateMissing | HydrateFail | InvalidPayload | Backfilled.

Record HydrateStats := { hs_ok : Z; hs_not_found : Z; hs_failed : Z; hs_invalid : Z; hs_backfilled : Z }.
Definition no_stats : HydrateStats :=
  {| hs_ok := 0; hs_not_found := 0; hs_failed := 0; hs_invalid := 0; hs_backfilled := 0 |}.

(** [AtomicU64::fetch_add]. *)
Definition bump (n : Z) : Z := ((n + 1) mod 2 ^ 64)%Z.
Definition record_ (r : HydrateResult) (s : HydrateStats) : HydrateStats :=
  {| hs_ok := match r with HydrateOk => bump (hs_ok s) | _ => hs_ok s end;
     hs_not_found := match r with HydrateMissing => bump (hs_not_found s) | _ => hs_not_found s end;
     hs_failed := match r with HydrateFail => bump (hs_failed s) | _ => hs_failed s end;
     hs_invalid := match r with InvalidPayload => bump (hs_invalid s) | _ => hs_invalid s end;
     hs_backfilled := match r with Backfilled => bump (hs_backfilled s) | _ => hs_backfilled s end |}.

(** ** The floor *)

Definition BACKFILL_BATCH : Z := 256.

Record Drained := { reached : Z; complete : bool }.

(** [last_seen], the calls made to [tx.publish] so far, the counters, and how
    many reads were made. *)
Record NotifyFloor := { last_seen : Z; sent : list BusEnvelope; stats : HydrateStats; reads : nat }.

Definition tx_publish (env : BusEnvelope) (f : NotifyFloor) : NotifyFloor :=
  {| last_seen := last_seen f; sent := sent f ++ [env]; stats := stats f; reads := reads f |}.
Definition count (r : HydrateResult) (f : NotifyFloor) : NotifyFloor :=
  {| last_seen := last_seen f; sent := sent f; stats := record_ r (stats f); reads := reads f |}.
Definition read_once (f : NotifyFloor) : NotifyFloor :=
  {| last_seen := last_seen f; sent := sent f; stats := stats f; reads := S (reads f) |}.
Definition set_last_seen (m : Z) (f : NotifyFloor) : NotifyFloor :=
  {| last_seen := m; sent := sent f; stats := stats f; reads := reads f |}.

Section floor.
Context {L} `{EventLog L}.
Variable log : L.

(** The loop over a page: the cursor after it, and whether it met the upper
    bound, which ends the drain. *)
Fixpoint drain_batch (to_exclusive : option Z) (batch : list (Z * result BusError BusEnvelope)) (cursor : Z)
    (f : NotifyFloor) : Z * bool * NotifyFloor :=
  match batch with
  | [] => (cursor, false, f)
  | (id, envelope) :: batch =>
      if match to_exclusive with Some to => (to <=? id)%Z | None => false end then (cursor, true, f)
      else
        let f := match envelope with
                 | Ok env => tx_publish env (count Backfilled f)
                 | Err _ => count HydrateFail f
                 end in
        drain_batch to_exclusive batch id f
  end.

(** The loop over pages; [None] when [fuel] pages were not enough. *)
Fixpoint drain (fuel : nat) (from_exclusive : Z) (to_exclusive : option Z) (f : NotifyFloor) :
    option (Drained * NotifyFloor) :=
  match fuel with
  | O => None
  | S fuel =>
      match page_after log (reads f) from_exclusive BACKFILL_BATCH with
      | Err _ => Some ({| reached := from_exclusive; complete := false |}, read_once f)
      | Ok batch =>
          let full := (BACKFILL_BATCH <=? Z.of_nat (length batch))%Z in
          let '(cursor, stop, f) := drain_batch to_exclusive batch from_exclusive (read_once f) in
          if stop || negb full then Some ({| reached := cursor; complete := true |}, f)
          else drain fuel cursor to_exclusive f
      end
  end.

Definition start : result BusError NotifyFloor :=
  match head log 0 with
  | Ok seen => Ok {| last_seen := seen; sent := []; stats := no_stats; reads := 1 |}
  | Err e => Err e
  end.

(** A NOTIFY pointing at [log_id]. *)
Definition on_pointer (fuel : nat) (id : Z) (f : NotifyFloor) : option NotifyFloor :=
  '(covered, f) ←
    (if (last_seen f + 1 <? id)%Z then
       '(drained, f) ← drain fuel (last_seen f) (Some id) f;
       Some (if complete drained then (id - 1)%Z else reached drained, f)
     else Some (last_seen f, f));
  let '(delivered, f) :=
    match get log (reads f) id with
    | Ok env => (true, tx_publish env (count HydrateOk (read_once f)))
    | Err (HydrateNotFound _) => (false, count HydrateMissing (read_once f))
    | Err _ => (false, count HydrateFail (read_once f))
    end in
  let reached := if delivered && (id - 1 <=? covered)%Z then Z.max covered id else covered in
  Some (set_last_seen (Z.max (last_seen f) reached) f).

(** The listener reconnected: drain everything above the mark. *)
Definition on_reconnect (fuel : nat) (f : NotifyFloor) : option NotifyFloor :=
  '(drained, f) ← drain fuel (last_seen f) None f;
  Some (set_last_seen (reached drained) f).

(** An event that came inline in its NOTIFY. *)
Definition floor_publish (env : BusEnvelope) (f : NotifyFloor) : NotifyFloor := tx_publish env f.
End floor.

(** [PostgresBus::backfill]: a drain an operator asks for; the listener's mark
    is not its own. *)
Definition backfill {L} `{EventLog L} (log : L) (fuel : nat) (after_id : Z) (f : NotifyFloor) :
    option (Z * NotifyFloor) :=
  '(drained, f) ← drain log fuel after_id None f;
  Some (reached drained, f).

(** ** Notifications ([postgres.rs]) *)

Definition LISTENER_PROBE : str := lit "maidan:listener-probe".
Definition NOTIFY_POINTER_SCHEMA : str := lit "log_id_v1".
Definition PAYLOAD_LIMIT : Z := 7990.

Record NotifyPointerPayload := { np_notify : str; np_log_id : Z; np_workspace : option N }.
Definition new_pointer (id : Z) (ws : option N) : NotifyPointerPayload :=
  {| np_notify := NOTIFY_POINTER_SCHEMA; np_log_id := id; np_workspace := ws |}.
Definition is_pointer (p : NotifyPointerPayload) : bool :=
  bool_decide (np_notify p = NOTIFY_POINTER_SCHEMA) && (0 <? np_log_id p)%Z.

(** serde's texts of the two payloads and its readings of them. *)
Class NotifyCodec := {
  pointer_text : NotifyPointerPayload -> str;
  envelope_text : BusEnvelope -> str;
  read_pointer : str -> option NotifyPointerPayload;
  read_envelope : str -> option BusEnvelope
}.

Inductive NotifyOutcome := Pointer (id : Z) | Inline (env : BusEnvelope) | Probe.

Section notify.
Context `{NotifyCodec}.

Definition decode_notify_payload (payload : str) (s : HydrateStats) : result BusError NotifyOutcome * HydrateStats :=
  if bool_decide (payload = LISTENER_PROBE) then (Ok Probe, s)
  else
    match read_pointer payload with
    | Some p =>
        if is_pointer p then (Ok (Pointer (np_log_id p)), s)
        else match read_envelope payload with
             | Some env => (Ok (Inline env), s)
             | None => (Err BusSerialization, record_ InvalidPayload s)
             end
    | None =>
        match read_envelope payload with
        | Some env => (Ok (Inline env), s)
        | None => (Err BusSerialization, record_ InvalidPayload s)
        end
    end.

(** What [publish] does with an envelope: notify a payload, publish it locally
    in polled mode, or refuse. *)
Inductive PublishAction := NotifyWith (payload : str) | PublishLocally (env : BusEnvelope).
Definition publish_action (notify_on_publish : bool) (env : BusEnvelope) : result BusError PublishAction :=
  if notify_on_publish then
    if (0 <? log_id env)%Z
    then Ok (NotifyWith (pointer_text (new_pointer (log_id env) (Event.workspace_id (event env)))))
    else
      let payload := envelope_text env in
      if (PAYLOAD_LIMIT <? Z.of_nat (byte_len payload))%Z then Err (PayloadTooLarge (Z.of_nat (byte_len payload)))
      else Ok (NotifyWith payload)
  else Ok (PublishLocally env).

(** ** The listener's task *)

Record ListenerHealth := { lh_degraded : bool; lh_last_ok : Z; lh_last_error : Z; lh_errors : Z }.
Definition record_ok (now : Z) (h : ListenerHealth) : ListenerHealth :=
  {| lh_degraded := false; lh_last_ok := now; lh_last_error := lh_last_error h; lh_errors := lh_errors h |}.
Definition record_error (now : Z) (h : ListenerHealth) : ListenerHealth :=
  {| lh_degraded := true; lh_last_ok := lh_last_ok h; lh_last_error := now; lh_errors := bump (lh_errors h) |}.

(** What [listener.recv()] returns. *)
Inductive Received := Note (payload : str) | RecvError.

(** One turn of the loop, at [now]. *)
Definition listen_once {L} `{EventLog L} (log : L) (fuel : nat) (now : Z) (r : Received)
    (st : ListenerHealth * NotifyFloor) : option (ListenerHealth * NotifyFloor) :=
  let '(health, f) := st in
  match r with
  | Note payload =>
      let health := record_ok now health in
      let '(outcome, s) := decode_notify_payload payload (stats f) in
      let f := {| last_seen := last_seen f; sent := sent f; stats := s; reads := reads f |} in
      match outcome with
      | Ok (Pointer id) => f ← on_pointer log fuel id f; Some (health, f)
      | Ok (Inline env) => Some (health, floor_publish env f)
      | Ok Probe | Err _ => Some (health, f)
      end
  | RecvError =>
      f ← on_reconnect log fuel f;
      Some (record_error now health, f)
  end.

Fixpoint listen {L} `{EventLog L} (log : L) (fuel : nat) (inputs : list (Z * Received))
    (st : ListenerHealth * NotifyFloor) : option (ListenerHealth * NotifyFloor) :=
  match inputs with
  | [] => Some st
  | (now, r) :: inputs => st ← listen_once log fuel now r st; listen log fuel inputs st
  end.
End notify.
