(* ===== verification/FloorLaws.v ===== *)
(** * The listener loses nothing above its mark

    Whatever reads fail, pages fill and notifications are lost: an event
    committed while it is above the listener's mark has been handed to the
    fan-out by the time the mark reaches it, only committed events are handed
    on, and a reconnect whose reads succeed brings the mark over everything. *)

From stdpp Require Import strings gmap sorting.
From S2P Require Import Prelude Text Json EventChain EventLog Seal Db Events NotifyFloor.

Section laws.
Context {L} `{EventLogLaws L}.
Variable log : L.

(** ** What a step of the listener may do *)

(** [k] is committed, and its row decodes, at every read between two states. *)
Definition stays (k : Z) (f f' : NotifyFloor) : Prop :=
  forall n, reads f <= n < reads f' -> k ∈ visible log n /\ is_ok (decoded log n k) = true.

(** The events handed to the fan-out between two states. *)
Definition handed (f f' : NotifyFloor) : list BusEnvelope := drop (length (sent f)) (sent f').

(** [env] is a row of the log at a read between two states. *)
Definition from_log (f f' : NotifyFloor) (env : BusEnvelope) : Prop :=
  exists n, reads f <= n < reads f' /\ log_id env ∈ visible log n /\ decoded log n (log_id env) = Ok env.

Record tracks (f f' : NotifyFloor) : Prop := {
  tk_reads : reads f <= reads f';
  tk_mark : (last_seen f <= last_seen f')%Z;
  tk_sent : sent f `prefix_of` sent f';
  tk_loss k : stays k f f' -> (last_seen f < k <= last_seen f')%Z -> k ∈ log_id <$> handed f f'
}.

Lemma stays_sub k f f1 f2 f' :
  reads f <= reads f1 -> reads f2 <= reads f' -> stays k f f' -> stays k f1 f2.
Proof. intros ? ? Hs n Hn. apply Hs. lia. Qed.

Lemma handed_split f f1 f' :
  sent f `prefix_of` sent f1 -> sent f1 `prefix_of` sent f' -> handed f f' = handed f f1 ++ handed f1 f'.
Proof.
  intros [a Ha] [b Hb]. unfold handed. rewrite Hb, Ha, <- app_assoc, !drop_app_length, app_assoc.
  by rewrite drop_app_length.
Qed.

#[global] Instance tracks_refl : Reflexive tracks.
Proof. intros f. split; [lia|lia|done|lia]. Qed.
#[global] Instance tracks_trans : Transitive tracks.
Proof.
  intros f f1 f2 [Hr1 Hm1 Hs1 Hl1] [Hr2 Hm2 Hs2 Hl2]. split; [lia|lia|by etrans|].
  intros k Hk Hrange. rewrite (handed_split f f1 f2 Hs1 Hs2), fmap_app. apply elem_of_app.
  destruct (decide (k <= last_seen f1)%Z).
  - left. apply Hl1; [|lia]. by eapply stays_sub; [..|exact Hk].
  - right. apply Hl2; [|lia]. by eapply stays_sub; [..|exact Hk].
Qed.

(** ** A page *)

Record batch_done (to : option Z) (batch : list (Z * result BusError BusEnvelope)) (cursor : Z) (f : NotifyFloor)
    (cursor' : Z) (stop : bool) (f' : NotifyFloor) : Prop := {
  bd_seen : last_seen f' = last_seen f;
  bd_reads : reads f' = reads f;
  bd_cursor : (cursor <= cursor')%Z /\ (cursor' = cursor \/ cursor' ∈ batch.*1);
  bd_sent : exists pub, sent f' = sent f ++ pub
    /\ (forall env, env ∈ pub -> exists id, (id, Ok env) ∈ batch)
    /\ (forall id env, (id, Ok env) ∈ batch -> (id <= cursor')%Z -> env ∈ pub);
  bd_through : stop = false -> forall id, id ∈ batch.*1 ->
    (id <= cursor')%Z /\ match to with Some t => (id < t)%Z | None => True end;
  bd_stop : stop = true -> exists t, to = Some t
    /\ (exists j, j ∈ batch.*1 /\ (t <= j)%Z)
    /\ (forall id, id ∈ batch.*1 -> (id < t)%Z -> (id <= cursor')%Z);
  bd_below t : to = Some t -> (cursor < t)%Z -> (cursor' < t)%Z
}.

Lemma drain_batch_spec to batch cursor f :
  StronglySorted Z.lt (cursor :: batch.*1) ->
  let '(cursor', stop, f') := drain_batch to batch cursor f in batch_done to batch cursor f cursor' stop f'.
Proof.
  revert cursor f. induction batch as [|[id e] batch IH]; intros cursor f Hs; simpl.
  { split; simpl; try done; [split; [lia|by left]|exists []; rewrite app_nil_r; set_solver|set_solver]. }
  inversion Hs as [|? ? Hs' Hall]; subst. rewrite Forall_forall in Hall.
  assert (cursor < id)%Z as Hlt by (apply Hall; set_solver).
  destruct (match to with Some t => (t <=? id)%Z | None => false end) eqn:Eto.
  - destruct to as [t|]; [|done]. apply Z.leb_le in Eto.
    assert (forall j, j ∈ id :: batch.*1 -> (t <= j)%Z) as Hge.
    { intros j [->|Hj]%elem_of_cons; [done|]. inversion Hs' as [|? ? _ Hall']. rewrite Forall_forall in Hall'.
      apply Hall' in Hj. lia. }
    split; simpl; try done.
    + split; [lia|by left].
    + exists []. rewrite app_nil_r. split; [done|]. split; [set_solver|].
      intros j env Hj Hle. exfalso. assert (j ∈ id :: batch.*1) as Hin by (by apply (list_elem_of_fmap_2 fst) in Hj).
      apply Hall in Hin. lia.
    + intros _. exists t. split; [done|]. split; [exists id; split; [set_solver|lia]|].
      intros j Hj. specialize (Hge j Hj). lia.
  - pose proof (IH id (match e with Ok env => tx_publish env (count Backfilled f) | Err _ => count HydrateFail f end) Hs')
      as Hd.
    destruct (drain_batch to batch id _) as [[c' stop] f'] eqn:Ed. simpl in *.
    destruct Hd as [Hseen Hreads [Hle Hc] (pub & Hpub & Hfrom & Hto) Hthr Hstop Hbelow].
    split.
    + rewrite Hseen. by destruct e.
    + rewrite Hreads. by destruct e.
    + split; [lia|]. right. destruct Hc as [->|Hc]; set_solver.
    + destruct e as [env|err]; simpl in Hpub.
      * exists (env :: pub). rewrite Hpub, <- app_assoc. split; [done|]. split.
        -- intros env' [->|Henv]%elem_of_cons; [exists id; set_solver|]. destruct (Hfrom _ Henv) as [j Hj]. exists j. set_solver.
        -- intros j env' [Hj|Hj]%elem_of_cons Hjc; [simplify_eq; set_solver|]. apply elem_of_cons. right. eauto.
      * exists pub. split; [done|]. split; [intros env' (j & Hj)%Hfrom; exists j; set_solver|].
        intros j env' [Hj|Hj]%elem_of_cons ?; [simplify_eq|eauto].
    + intros ->. intros j [->|Hj]%elem_of_cons; [|by apply Hthr]. split; [done|].
      destruct to; [by apply Z.leb_gt|done].
    + intros Hst. destruct (Hstop Hst) as (t & -> & (j & Hj & Htj) & Hbe). exists t. split; [done|].
      split; [exists j; set_solver|]. intros i [->|Hi]%elem_of_cons Hit; [done|]. by apply Hbe.
    + intros t -> Ht. apply (Hbelow t); [done|]. apply Z.leb_gt in Eto. lia.
Qed.
(** ** A drain *)

Record drain_done (from : Z) (to : option Z) (f : NotifyFloor) (d : Drained) (f' : NotifyFloor) : Prop := {
  dd_seen : last_seen f' = last_seen f;
  dd_reads : reads f < reads f';
  dd_reached : (from <= reached d)%Z;
  dd_sent : sent f `prefix_of` sent f';
  dd_log env : env ∈ handed f f' -> from_log f f' env;
  dd_delivered k : stays k f f' -> (from < k <= reached d)%Z -> k ∈ log_id <$> handed f f';
  dd_complete k : complete d = true -> stays k f f' -> (from < k)%Z ->
    match to with Some t => (k < t)%Z | None => True end -> (k <= reached d)%Z;
  dd_below t : to = Some t -> (from < t)%Z -> (reached d < t)%Z;
  dd_failed : complete d = false ->
    exists n after, reads f <= n < reads f' /\ is_ok (page_after log n after BACKFILL_BATCH) = false
}.

Lemma page_sorted n from limit batch :
  page_after log n from limit = Ok batch -> StronglySorted Z.lt (from :: batch.*1).
Proof.
  intros Hpage. constructor; [by eapply page_after_sorted|]. rewrite Forall_forall.
  intros id ([? e] & -> & Hin)%list_elem_of_fmap. by eapply page_after_sound in Hin as (_ & ? & _).
Qed.

(** One page: what it hands on, and what it leaves for the next. *)
Lemma page_spec from to f batch cursor stop f1 :
  page_after log (reads f) from BACKFILL_BATCH = Ok batch ->
  drain_batch to batch from (read_once f) = (cursor, stop, f1) ->
  last_seen f1 = last_seen f /\ reads f1 = S (reads f) /\ (from <= cursor)%Z /\ sent f `prefix_of` sent f1
  /\ (forall env, env ∈ handed f f1 -> from_log f f1 env)
  /\ (forall k, k ∈ visible log (reads f) -> is_ok (decoded log (reads f) k) = true ->
        (from < k <= cursor)%Z -> k ∈ log_id <$> handed f f1)
  /\ (stop = true \/ (Z.of_nat (length batch) < BACKFILL_BATCH)%Z ->
      forall k, k ∈ visible log (reads f) -> (from < k)%Z ->
        match to with Some t => (k < t)%Z | None => True end -> (k <= cursor)%Z)
  /\ (forall t, to = Some t -> (from < t)%Z -> (cursor < t)%Z)
  /\ (stop = false -> forall id, id ∈ batch.*1 ->
        (id <= cursor)%Z /\ match to with Some t => (id < t)%Z | None => True end).
Proof.
  intros Hpage Hd.
  assert (StronglySorted Z.lt (from :: batch.*1)) as Hsort by (by eapply page_sorted).
  pose proof (drain_batch_spec to batch from (read_once f) Hsort) as Hspec. rewrite Hd in Hspec.
  destruct Hspec as [Hseen Hreads [Hle Hc] (pub & Hpub & Hfrom & Hto) Hthr Hstop Hbelow].
  assert (handed f f1 = pub) as Hh by (unfold handed; rewrite Hpub; apply drop_app_length).
  assert (cursor = from \/ exists e, (cursor, e) ∈ batch) as Hcur.
  { destruct Hc as [->|([? e] & -> & Hin)%list_elem_of_fmap]; eauto. }
  split; [done|]. split; [done|]. split; [done|]. split; [by exists pub|]. rewrite Hh.
  split; [|split; [|split; [|split; [done|done]]]].
  - intros env (id & Hin)%Hfrom. eapply page_after_sound in Hin as (Hv & _ & Hdec); [|done].
    assert (log_id env = id) as <- by (by eapply decoded_id). exists (reads f). rewrite Hreads. simpl. split; [lia|by split].
  - intros k Hv Hok [Hlo Hhi]. destruct (page_after_complete _ _ _ _ _ k Hpage Hv Hlo) as [Hin|[_ Hall]].
    + apply list_elem_of_fmap in Hin as ([? e] & -> & Hin). simpl in *.
      pose proof Hin as Hin'. eapply page_after_sound in Hin' as (_ & _ & He); [|done]. subst e.
      destruct (decoded log (reads f) z) as [env|] eqn:Edec; [|done].
      apply list_elem_of_fmap. exists env. split; [by erewrite decoded_id|]. by eapply Hto.
    + exfalso. destruct Hc as [->|Hc]; [lia|]. apply Hall in Hc. lia.
  - intros Hend k Hv Hlo Hup. destruct (page_after_complete _ _ _ _ _ k Hpage Hv Hlo) as [Hin|[Hlen Hall]].
    + destruct stop; [|by apply (Hthr eq_refl)]. destruct (Hstop eq_refl) as (t & -> & _ & Hbe). by apply Hbe.
    + exfalso. destruct Hend as [->|Hshort]; [|lia].
      destruct (Hstop eq_refl) as (t & -> & (j & Hj & Htj) & _). apply Hall in Hj. lia.
Qed.

Lemma from_log_sub f f1 f2 f' env :
  reads f <= reads f1 -> reads f2 <= reads f' -> from_log f1 f2 env -> from_log f f' env.
Proof. intros ? ? (n & Hn & Hv). exists n. split; [lia|done]. Qed.

Lemma drain_spec fuel from to f d f' :
  drain log fuel from to f = Some (d, f') -> drain_done from to f d f'.
Proof.
  revert from f. induction fuel as [|fuel IH]; intros from f; simpl; [done|].
  destruct (page_after log (reads f) from BACKFILL_BATCH) as [batch|err] eqn:Hpage.
  2:{ intros [= <- <-]. split; simpl; [done|lia|lia|done| |lia|done|done|].
      - unfold handed. simpl. rewrite drop_all. set_solver.
      - intros _. exists (reads f), from. rewrite Hpage. split; [lia|done]. }
  destruct (drain_batch to batch from (read_once f)) as [[cursor stop] f1] eqn:Hd.
  destruct (page_spec from to f batch cursor stop f1 Hpage Hd)
    as (Hseen & Hreads & Hle & Hsent & Hlog & Hdel & Hend & Hbelow & Hthr).
  assert (forall k g, reads f1 <= reads g -> stays k f g ->
            k ∈ visible log (reads f) /\ is_ok (decoded log (reads f) k) = true) as Hnow.
  { intros k g Hg Hs. apply Hs. lia. }
  destruct (stop || negb (BACKFILL_BATCH <=? Z.of_nat (length batch))%Z) eqn:Est.
  - intros [= <- <-]. split; simpl; [done|lia|done|done|done| | |done|done].
    + intros k Hs Hk. destruct (Hnow k f1 ltac:(done) Hs) as [Hv Hok]. by apply Hdel.
    + intros k _ Hs Hk Hup. destruct (Hnow k f1 ltac:(done) Hs) as [Hv _]. apply Hend; try done.
      apply orb_true_iff in Est as [->|Hf]; [by left|right].
      apply negb_true_iff, Z.leb_gt in Hf. done.
  - intros Hrec. apply IH in Hrec as [Rseen Rreads Rreached Rsent Rlog Rdel Rcomp Rbelow Rfail].
    assert (handed f f' = handed f f1 ++ handed f1 f') as Hh by (by apply handed_split).
    split; [congruence|lia|lia|by etrans|..].
    + intros env. rewrite Hh. intros [Hin|Hin]%elem_of_app.
      * apply Hlog in Hin. eapply from_log_sub; [..|exact Hin]; lia.
      * apply Rlog in Hin. eapply from_log_sub; [..|exact Hin]; lia.
    + intros k Hs Hk. rewrite Hh, fmap_app. apply elem_of_app.
      destruct (decide (k <= cursor)%Z).
      * left. destruct (Hnow k f' ltac:(lia) Hs) as [Hv Hok]. apply Hdel; [done|done|lia].
      * right. apply Rdel; [|lia]. eapply stays_sub; [..|exact Hs]; lia.
    + intros k Hcomp Hs Hk Hup. destruct (decide (k <= cursor)%Z); [lia|].
      apply Rcomp; [done| |lia|done]. eapply stays_sub; [..|exact Hs]; lia.
    + intros t Ht Hft. apply (Rbelow t Ht), (Hbelow t Ht Hft).
    + intros Hc. destruct (Rfail Hc) as (n & after & Hn & Hf). exists n, after. split; [lia|done].
Qed.

(** ** Termination *)

(** A page that is full moves the cursor to its last id, at least one above the
    cursor it was read from. *)
Lemma full_page_advances from to f batch cursor f1 :
  page_after log (reads f) from BACKFILL_BATCH = Ok batch ->
  drain_batch to batch from (read_once f) = (cursor, false, f1) ->
  (BACKFILL_BATCH <= Z.of_nat (length batch))%Z ->
  (from < cursor)%Z /\ cursor ∈ visible log (reads f) /\ match to with Some t => (cursor < t)%Z | None => True end.
Proof.
  intros Hpage Hd Hlen.
  destruct (page_spec from to f batch cursor false f1 Hpage Hd) as (_ & _ & Hle & _ & _ & _ & _ & _ & Hthr).
  assert (StronglySorted Z.lt (from :: batch.*1)) as Hsort by (by eapply page_sorted).
  pose proof (drain_batch_spec to _ from (read_once f) Hsort) as Hspec. rewrite Hd in Hspec.
  destruct (bd_cursor _ _ _ _ _ _ _ Hspec) as [_ [->|Hin]].
  - exfalso. destruct batch as [|[id e] batch]; [unfold BACKFILL_BATCH in Hlen; simpl in Hlen; lia|].
    assert (from < id)%Z by (eapply (page_after_sound _ _ _ _ _ id e Hpage); set_solver).
    destruct (Hthr eq_refl id) as [? _]; [set_solver|lia].
  - destruct (Hthr eq_refl _ Hin) as [_ Ht]. apply list_elem_of_fmap in Hin as ([? e'] & -> & Hin).
    by eapply page_after_sound in Hin as (? & ? & _).
Qed.

(** A drain up to a pointer needs no more pages than there are ids below it; one
    without an upper bound, no more than there are ids above its start that any read
    shows. *)
Lemma drain_returns fuel from to f top :
  match to with Some t => (t <= top + 1)%Z | None => forall n k, k ∈ visible log n -> (k <= top)%Z end ->
  (Z.to_nat (top - from) < fuel)%nat -> is_Some (drain log fuel from to f).
Proof.
  revert from f. induction fuel as [|fuel IH]; intros from f Htop Hfuel; simpl; [lia|].
  destruct (page_after log (reads f) from BACKFILL_BATCH) as [batch|err] eqn:Hpage; [|eauto].
  destruct (drain_batch to batch from (read_once f)) as [[cursor stop] f1] eqn:Hd.
  destruct stop; simpl; [eauto|]. destruct (BACKFILL_BATCH <=? Z.of_nat (length batch))%Z eqn:Elen; simpl; [|eauto].
  apply Z.leb_le in Elen. destruct (full_page_advances from to f batch cursor f1 Hpage Hd Elen) as (Hlt & Hv & Hc).
  apply IH; [done|]. destruct to as [t|].
  - simpl in Hc. lia.
  - specialize (Htop _ _ Hv). lia.
Qed.
(** ** The inputs of the listener *)

(** The reads made between two states, all of which succeed. *)
Definition no_faults (f f' : NotifyFloor) : Prop :=
  forall n after, reads f <= n < reads f' -> is_ok (page_after log n after BACKFILL_BATCH) = true.

Lemma complete_of_no_faults from to f d f' :
  drain_done from to f d f' -> no_faults f f' -> complete d = true.
Proof.
  intros Hd Hok. destruct (complete d) eqn:Ec; [done|].
  destruct (dd_failed _ _ _ _ _ Hd Ec) as (n & after & Hn & Hf). by rewrite (Hok n after Hn) in Hf.
Qed.

Lemma reconnect_spec fuel f f' :
  on_reconnect log fuel f = Some f' ->
  tracks f f' /\ (forall env, env ∈ handed f f' -> from_log f f' env)
  /\ (no_faults f f' -> forall k, stays k f f' -> (k <= last_seen f')%Z \/ (k <= last_seen f)%Z).
Proof.
  unfold on_reconnect. intros ([d f1] & Hd%drain_spec & [= <-])%bind_Some. simpl.
  pose proof Hd as [Hseen Hreads Hreached Hsent Hlog Hdel Hcomp _ _]. split; [|split; [exact Hlog|]].
  - split; simpl; [lia|done|done|]. intros k Hs Hk. by apply Hdel.
  - intros Hok k Hs. destruct (decide (k <= last_seen f)%Z); [by right|left].
    apply Hcomp; [|exact Hs|lia|done]. by eapply complete_of_no_faults.
Qed.

(** The read of the pointer's own row. *)
Definition own_read (id : Z) (f : NotifyFloor) : bool * NotifyFloor :=
  match get log (reads f) id with
  | Ok env => (true, tx_publish env (count HydrateOk (read_once f)))
  | Err (HydrateNotFound _) => (false, count HydrateMissing (read_once f))
  | Err _ => (false, count HydrateFail (read_once f))
  end.

Lemma own_read_spec id f :
  let '(delivered, f') := own_read id f in
  last_seen f' = last_seen f /\ reads f' = S (reads f) /\ delivered = is_ok (get log (reads f) id)
  /\ sent f `prefix_of` sent f'
  /\ (forall env, env ∈ handed f f' -> from_log f f' env)
  /\ (delivered = true -> id ∈ log_id <$> handed f f').
Proof.
  unfold own_read, from_log, handed. destruct (get log (reads f) id) as [env|[]] eqn:Eg; simpl;
    rewrite ?drop_all, ?drop_app_length; split_and!; try done; try set_solver; try (by eexists).
  - intros env' ->%list_elem_of_singleton. apply get_sound in Eg as [Hv Hdec].
    rewrite (decoded_id _ _ _ _ Hdec). exists (reads f). split; [lia|done].
  - intros _. apply get_sound in Eg as [_ Hdec]. rewrite <- (decoded_id _ _ _ _ Hdec). set_solver.
Qed.

Lemma pointer_spec fuel id f f' :
  on_pointer log fuel id f = Some f' ->
  tracks f f' /\ (forall env, env ∈ handed f f' -> from_log f f' env)
  /\ (is_ok (get log (pred (reads f')) id) = true ->
       id ∈ log_id <$> handed f f' /\ (no_faults f f' -> (id <= last_seen f')%Z)).
Proof.
  unfold on_pointer. intros ([covered f1] & Hcov & Hf')%bind_Some. fold (own_read id f1) in Hf'.
  pose proof (own_read_spec id f1) as Hown. destruct (own_read id f1) as [delivered f2].
  destruct Hown as (Oseen & Oreads & Odel & Osent & Olog & Oin). injection Hf' as <-. simpl.
  assert (tracks f (set_last_seen (Z.max (last_seen f) covered) f1)
          /\ (forall env, env ∈ handed f f1 -> from_log f f1 env)
          /\ last_seen f1 = last_seen f /\ reads f <= reads f1
          /\ (last_seen f + 1 < id -> covered < id)%Z
          /\ (no_faults f f1 -> id - 1 <= covered)%Z) as (Ht & Hlog & Hseen & Hle & Hlt & Hok).
  { destruct (last_seen f + 1 <? id)%Z eqn:Egap.
    - apply Z.ltb_lt in Egap. apply bind_Some in Hcov as ([d f0] & Hd%drain_spec & [= <- <-]).
      pose proof Hd as [Hseen Hreads Hreached Hsent Hlog Hdel Hcomp Hbelow _].
      specialize (Hbelow id eq_refl ltac:(lia)).
      split; [|split; [done|split; [done|split; [lia|]]]].
      + split; simpl; [lia|lia|done|]. intros k Hs Hk. apply Hdel; [done|]. split; [lia|].
        destruct (complete d) eqn:Ec; [|lia]. apply Hcomp; [done|exact Hs|lia|lia].
      + split; [destruct (complete d); lia|]. intros Hnf. rewrite (complete_of_no_faults _ _ _ _ _ Hd Hnf). lia.
    - apply Z.ltb_ge in Egap. simplify_eq. rewrite Z.max_id. split; [by destruct f1|].
      unfold handed. rewrite drop_all. split; [set_solver|]. split; [done|]. split; [lia|]. lia. }
  destruct Ht as [_ Hmark Hsent Hloss]. simpl in *.
  set (f3 := set_last_seen _ f2).
  assert (handed f f3 = handed f f1 ++ handed f1 f2) as Hh by (apply (handed_split f f1 f3); done).
  split; [|split].
  - split; simpl; [lia|lia|by etrans|]. intros k Hs Hk. rewrite Hh, fmap_app. apply elem_of_app.
    destruct (decide (k <= covered)%Z) as [Hkc|Hkc].
    + left. apply (Hloss k); [|simpl; lia]. eapply stays_sub; [| |exact Hs]; simpl; lia.
    + right. destruct (delivered && (id - 1 <=? covered)%Z) eqn:Ed; [|lia].
      apply andb_true_iff in Ed as [Hdl Hcv%Z.leb_le]. assert (k = id) as -> by lia. by apply Oin.
  - intros env. rewrite Hh. intros [Hin|Hin]%elem_of_app.
    + apply Hlog in Hin. eapply from_log_sub; [..|exact Hin]; simpl; lia.
    + apply Olog in Hin. eapply from_log_sub; [..|exact Hin]; simpl; lia.
  - rewrite Oreads. simpl. rewrite <- Odel. intros Hdl. split.
    + rewrite Hh, fmap_app. apply elem_of_app. right. by apply Oin.
    + intros Hnf. assert (id - 1 <= covered)%Z as Hc.
      { apply Hok. intros n after Hn. apply Hnf. simpl. lia. }
      rewrite Hdl. simpl. rewrite (proj2 (Z.leb_le _ _) Hc). lia.
Qed.
(** ** The task *)

Section task.
Context `{NotifyCodec}.

(** A received payload that carried the event itself. *)
Definition inline_in (inputs : list (Z * Received)) (env : BusEnvelope) : Prop :=
  exists now payload, (now, Note payload) ∈ inputs /\ read_envelope payload = Some env.

Lemma with_stats_tracks s f : tracks f {| last_seen := last_seen f; sent := sent f; stats := s; reads := reads f |}.
Proof. split; simpl; [lia|lia|done|lia]. Qed.

Lemma decode_inline payload s env s' :
  decode_notify_payload payload s = (Ok (Inline env), s') -> read_envelope payload = Some env.
Proof.
  unfold decode_notify_payload. case_bool_decide; [done|].
  destruct (read_pointer payload) as [p|]; [destruct (is_pointer p); [done|]|];
    destruct (read_envelope payload); intros [= -> _]; done.
Qed.

Lemma listen_once_spec fuel now r h f h' f' :
  listen_once log fuel now r (h, f) = Some (h', f') ->
  tracks f f' /\ (forall env, env ∈ handed f f' -> from_log f f' env \/ inline_in [(now, r)] env).
Proof.
  destruct r as [payload|]; simpl.
  - destruct (decode_notify_payload payload (stats f)) as [outcome s] eqn:Ed.
    set (f1 := {| last_seen := last_seen f; sent := sent f; stats := s; reads := reads f |}).
    pose proof (with_stats_tracks s f) as Ht. fold f1 in Ht.
    destruct outcome as [[id|env|]|err].
    + intros (f2 & Hp%pointer_spec & [= <- <-])%bind_Some. destruct Hp as (Ht2 & Hlog & _).
      split; [by etrans|]. intros env Henv. left. by apply Hlog.
    + intros [= <- <-]. split.
      * split; simpl; [lia|lia|by eexists|lia].
      * unfold handed. simpl. rewrite drop_app_length. intros env' ->%list_elem_of_singleton. right.
        exists now, payload. split; [set_solver|by eapply decode_inline].
    + intros [= <- <-]. split; [done|]. unfold handed. simpl. rewrite drop_all. set_solver.
    + intros [= <- <-]. split; [done|]. unfold handed. simpl. rewrite drop_all. set_solver.
  - intros (f2 & Hr%reconnect_spec & [= <- <-])%bind_Some. destruct Hr as (Ht & Hlog & _). eauto.
Qed.

Lemma listen_spec fuel inputs h f h' f' :
  listen log fuel inputs (h, f) = Some (h', f') ->
  tracks f f' /\ (forall env, env ∈ handed f f' -> from_log f f' env \/ inline_in inputs env).
Proof.
  revert h f. induction inputs as [|[now r] inputs IH]; intros h f; simpl listen.
  { intros [= <- <-]. split; [done|]. unfold handed. rewrite drop_all. set_solver. }
  intros ([h1 f1] & Hone%listen_once_spec & Hrest%IH)%bind_Some.
  destruct Hone as [Ht1 Hl1], Hrest as [Ht2 Hl2]. split; [by etrans|]. intros env.
  rewrite (handed_split f f1 f' (tk_sent _ _ Ht1) (tk_sent _ _ Ht2)).
  intros [Hin|Hin]%elem_of_app.
  - destruct (Hl1 env Hin) as [Hf|(n & p & Hn & Hp)].
    + left. eapply from_log_sub; [..|exact Hf]; [done|apply tk_reads, Ht2].
    + right. exists n, p. split; [set_solver|done].
  - destruct (Hl2 env Hin) as [Hf|(n & p & Hn & Hp)].
    + left. eapply from_log_sub; [..|exact Hf]; [apply tk_reads, Ht1|done].
    + right. exists n, p. split; [set_solver|done].
Qed.

(** C21: the listener skips nothing. Over any sequence of notifications, lost
    ones left out, probes, malformed payloads and reconnects, with any reads
    failing: the mark never falls; every event handed to the fan-out is a committed row of the
    log that decoded, or came inline; and an event whose row was committed, and
    decodes, through all the reads since a moment when it was above the mark is handed to the fan-out
    by the time the mark reaches it. *)
Theorem listener_skips_nothing fuel inputs h f h' f' :
  listen log fuel inputs (h, f) = Some (h', f') ->
  (last_seen f <= last_seen f')%Z
  /\ (forall env, env ∈ handed f f' -> from_log f f' env \/ inline_in inputs env)
  /\ (forall k, stays k f f' -> (last_seen f < k <= last_seen f')%Z -> k ∈ log_id <$> handed f f').
Proof. intros [[_ Hm _ Hl] Hlog]%listen_spec. done. Qed.

(** C22: the listener heals. A reconnect returns as long as there is fuel for the
    ids above the mark, and a pointer as long as there is fuel for the ids up to it; and
    when their reads succeed, the reconnect hands on every event that is
    committed above the mark, and the pointer every such event below it and its own
    event, wherever that is. So one fault-free input ends every backlog. *)
Theorem listener_heals fuel now h f top :
  (forall n k, k ∈ visible log n -> (k <= top)%Z) -> (Z.to_nat (top - last_seen f) < fuel)%nat ->
  (exists h' f', listen_once log fuel now RecvError (h, f) = Some (h', f')
     /\ (no_faults f f' -> forall k, stays k f f' -> (last_seen f < k)%Z -> k ∈ log_id <$> handed f f'))
  /\ (forall id, (id <= top + 1)%Z -> exists f', on_pointer log fuel id f = Some f'
     /\ (no_faults f f' -> is_ok (get log (pred (reads f')) id) = true ->
         id ∈ log_id <$> handed f f'
         /\ forall k, stays k f f' -> (last_seen f < k <= id)%Z -> k ∈ log_id <$> handed f f')).
Proof.
  intros Htop Hfuel. split.
  - destruct (drain_returns fuel (last_seen f) None f top Htop Hfuel) as [[d f1] Hd].
    assert (on_reconnect log fuel f = Some (set_last_seen (reached d) f1)) as Hr by (unfold on_reconnect; by rewrite Hd).
    exists (record_error now h), (set_last_seen (reached d) f1). split; [unfold listen_once; by rewrite Hr|].
    destruct (reconnect_spec _ _ _ Hr) as ([_ _ _ Hloss] & _ & Hall). intros Hok k Hs Hk.
    apply Hloss; [done|]. destruct (Hall Hok k Hs); lia.
  - intros id Hid.
    assert (exists f', on_pointer log fuel id f = Some f') as [f' Hp].
    { unfold on_pointer. destruct (last_seen f + 1 <? id)%Z; simpl; [|repeat case_match; eauto].
      destruct (drain_returns fuel (last_seen f) (Some id) f top Hid Hfuel) as [[d f1] Hd]. rewrite Hd. simpl.
      repeat case_match; eauto. }
    exists f'. split; [done|]. destruct (pointer_spec _ _ _ _ Hp) as ([_ _ _ Hloss] & _ & Hown).
    intros Hok Hget. destruct (Hown Hget) as [Hin Hmark]. specialize (Hmark Hok). split; [done|].
    intros k Hs Hk. apply Hloss; [done|lia].
Qed.
End task.
End laws.

(** ** The table keeps the log's promises *)

Section postgres.
Context `{JsonText, SealEnv, EventCodec}.

Lemma list_after_global_each_sorted rows after limit :
  StronglySorted Z.lt (list_after_global_each rows after limit).*1.
Proof.
  unfold list_after_global_each. set (l := map_to_list (filter _ rows)).
  assert (StronglySorted id_le (merge_sort id_le l)) as Hs by apply (StronglySorted_merge_sort id_le).
  assert (NoDup (merge_sort id_le l).*1) as Hnd.
  { rewrite merge_sort_Permutation. apply NoDup_fst_map_to_list. }
  generalize dependent (merge_sort id_le l). clear l. intros l Hs Hnd.
  generalize (Z.to_nat limit). induction l as [|[id s] l IH]; intros [|n]; simpl; try constructor.
  - apply StronglySorted_inv in Hs as [Hs _]. apply NoDup_cons in Hnd as [_ Hnd]. by apply IH.
  - apply StronglySorted_inv in Hs as [_ Hall]. apply NoDup_cons in Hnd as [Hni _].
    rewrite Forall_forall in Hall. apply Forall_forall. intros j ([? s'] & -> & Hin)%list_elem_of_fmap.
    apply elem_of_take in Hin as (i & Hi & _). apply list_elem_of_lookup_2 in Hi.
    specialize (Hall _ Hi). unfold id_le in Hall. simpl in *.
    assert (id <> z) by (intros ->; apply Hni, list_elem_of_fmap; by exists (z, s')). lia.
Qed.

Lemma list_after_global_each_in rows after limit id s :
  (id, s) ∈ list_after_global_each rows after limit -> rows !! id = Some s /\ (after < id)%Z.
Proof.
  unfold list_after_global_each. intros (i & Hi & _)%elem_of_take.
  apply list_elem_of_lookup_2 in Hi. rewrite merge_sort_Permutation, elem_of_map_to_list in Hi.
  by apply map_lookup_filter_Some in Hi.
Qed.

Lemma take_sorted_complete {A} (l : list (Z * A)) n id a :
  StronglySorted id_le l -> NoDup l.*1 -> (id, a) ∈ l ->
  id ∈ (take n l).*1 \/ n <= length (take n l) /\ forall j, j ∈ (take n l).*1 -> (j < id)%Z.
Proof.
  revert n. induction l as [|[i b] l IH]; intros n Hs Hnd Hin; [set_solver|].
  destruct n as [|n]; simpl; [right; split; [lia|set_solver]|].
  apply StronglySorted_inv in Hs as [Hs Hall]. apply NoDup_cons in Hnd as [Hni Hnd].
  apply elem_of_cons in Hin as [[= <- <-]|Hin]; [left; set_solver|].
  destruct (IH n Hs Hnd Hin) as [Hl|[Hlen Hlt]]; [left; set_solver|right]. split; [lia|].
  intros j [->|Hj]%elem_of_cons; [|by apply Hlt].
  rewrite Forall_forall in Hall. specialize (Hall _ Hin). unfold id_le in Hall. simpl in *.
  assert (i <> id) by (intros ->; apply Hni, list_elem_of_fmap; by exists (id, a)). lia.
Qed.

Lemma list_after_global_each_complete rows after limit id :
  id ∈ dom rows -> (after < id)%Z ->
  id ∈ (list_after_global_each rows after limit).*1
  \/ (limit <= Z.of_nat (length (list_after_global_each rows after limit))
      /\ forall j, j ∈ (list_after_global_each rows after limit).*1 -> j < id)%Z.
Proof.
  intros [s Hs]%elem_of_dom Hlt. unfold list_after_global_each.
  set (l := map_to_list (filter _ rows)).
  destruct (take_sorted_complete (merge_sort id_le l) (Z.to_nat limit) id s) as [Hin|[Hlen Hall]].
  - apply (StronglySorted_merge_sort id_le).
  - rewrite merge_sort_Permutation. apply NoDup_fst_map_to_list.
  - rewrite merge_sort_Permutation. apply elem_of_map_to_list, map_lookup_filter_Some. done.
  - by left.
  - right. split; [lia|done].
Qed.

Lemma row_envelope_id id s env :
  (forall st, s = Ok st -> e_id (stored_row st) = id) -> row_envelope id s = Ok env -> log_id env = id.
Proof.
  intros Hid. destruct s as [st|]; simpl; [|done]. rewrite <- (Hid st eq_refl).
  unfold envelope_from_stored, from_stored, from_payload.
  destruct (opened_payload st); [|done]. destruct (decode_event _); [|done]. by intros [= <-].
Qed.

#[global] Program Instance PgEventLog_laws : EventLogLaws PgEventLog := {|
  visible l n := dom (pg_rows l n);
  decoded l n id := match pg_rows l n !! id with Some s => row_envelope id s | None => Err (HydrateNotFound id) end
|}.
Next Obligation.
  intros l n after limit page. simpl. unfold pg_page_after. destruct (pg_fails l n); [done|]. intros [= <-].
  rewrite <- list_fmap_compose. apply list_after_global_each_sorted.
Qed.
Next Obligation.
  intros l n after limit page id e. simpl. unfold pg_page_after. destruct (pg_fails l n); [done|]. intros [= <-].
  intros ([id' s] & [= -> ->] & [Hs Hlt]%list_after_global_each_in)%list_elem_of_fmap. simpl.
  rewrite Hs. split; [by eapply elem_of_dom_2|done].
Qed.
Next Obligation.
  intros l n after limit page id. simpl. unfold pg_page_after. destruct (pg_fails l n); [done|]. intros [= <-] Hv Hlt.
  rewrite <- list_fmap_compose, length_fmap. by apply list_after_global_each_complete.
Qed.
Next Obligation.
  intros l n id env. simpl. unfold pg_get. destruct (pg_fails l n) as [[]|]; try done.
  destruct (pg_rows l n !! id) as [[st|[]]|] eqn:E; try done. intros Henv. split; [by eapply elem_of_dom_2|done].
Qed.
Next Obligation.
  intros l n id env. simpl. destruct (pg_rows l n !! id) as [s|] eqn:E; [|done].
  apply row_envelope_id. intros st ->. by eapply pg_keyed.
Qed.
End postgres.

(** ** What a publish notifies, the listener reads *)

(** serde reads back what it wrote, and an envelope has no [notify] field, which
    a pointer requires. *)
Class NotifyLaws `{NotifyCodec} : Prop := {
  read_pointer_text p : read_pointer (pointer_text p) = Some p;
  read_envelope_text env : read_envelope (envelope_text env) = Some env;
  read_pointer_envelope env : read_pointer (envelope_text env) = None;
  texts_not_probe p env : pointer_text p <> LISTENER_PROBE /\ envelope_text env <> LISTENER_PROBE
}.

Lemma notify_reads_back `{NotifyLaws} env s payload :
  publish_action true env = Ok (NotifyWith payload) ->
  decode_notify_payload payload s
  = (Ok (if (0 <? log_id env)%Z then Pointer (log_id env) else Inline env), s).
Proof.
  unfold publish_action, decode_notify_payload.
  destruct (0 <? log_id env)%Z eqn:Epos.
  - intros [= <-]. rewrite bool_decide_false by apply (texts_not_probe _ env).
    rewrite read_pointer_text. unfold is_pointer, new_pointer. cbn [np_notify np_log_id].
    by rewrite bool_decide_true, Epos.
  - destruct (PAYLOAD_LIMIT <? _)%Z; [done|]. intros [= <-].
    rewrite bool_decide_false by apply (texts_not_probe (new_pointer 0 None) env).
    by rewrite read_pointer_envelope, read_envelope_text.
Qed.

(** ** A listener at work *)

Module FloorSample.
#[global] Instance seal_env : SealEnv := {|
  encrypt := fun _ _ _ m => Some m; decrypt := fun _ _ _ c => Some c;
  base64_encode := fun b => b; base64_decode := Some;
  json_parse := fun _ => None; uuid_parse := fun _ => None; uuid_bytes := fun _ => []
|}.
#[global] Instance event_codec : EventCodec := {|
  decode_event := fun v => Some (Event.UsageOverAllowance 0 1 v); decode_attribution := fun _ => None
|}.
(** A pointer is the text of one character, its id. *)
#[global] Instance notify_codec : NotifyCodec := {|
  pointer_text := fun p => [Z.to_N (np_log_id p)]; envelope_text := fun _ => [];
  read_pointer := fun s => match s with [c] => Some (new_pointer (Z.of_N c) None) | _ => None end;
  read_envelope := fun _ => None
|}.

Definition row (id : Z) : StoredEvent :=
  {| stored_row := {| e_id := id; e_kind := []; e_ws := Some 1%N; e_channel := None; e_thread := None;
                      e_payload := Object []; e_occurred := 0; e_inserted := 0; e_prev := []; e_content := [] |};
     stored_key := None; stored_trace := None |}.
Definition table (ids : list Z) : gmap Z (result StoreError StoredEvent) :=
  list_to_map ((fun id => (id, Ok (row id))) <$> ids).

Lemma table_keyed ids id s : table ids !! id = Some (Ok s) -> e_id (stored_row s) = id.
Proof.
  unfold table. intros Hs%elem_of_list_to_map_2. apply list_elem_of_fmap in Hs as (i & [= -> ->] & _). done.
Qed.

(** Id 2 commits after the second read; the first read fails. *)
Program Definition sample_log : PgEventLog := {|
  pg_rows n := table (if (n <? 2)%nat then [1; 3] else [1; 2; 3])%Z;
  pg_fails n := if (n =? 0)%nat then Some Database else None
|}.
Next Obligation. intros n id s. apply table_keyed. Qed.

Definition fresh_floor : NotifyFloor := {| last_seen := 0; sent := []; stats := no_stats; reads := 0 |}.
Definition fresh_health : ListenerHealth := {| lh_degraded := false; lh_last_ok := 0; lh_last_error := 0; lh_errors := 0 |}.

(** The pointer to 3 arrives and its drain fails; then a reconnect. *)
Definition inputs : list (Z * Received) := [(10%Z, Note [3%N]); (20%Z, RecvError)].
Definition done_ : ListenerHealth * NotifyFloor := default (fresh_health, fresh_floor) (listen sample_log 8 inputs (fresh_health, fresh_floor)).

Lemma stays_1 : stays sample_log 1 fresh_floor done_.2.
Proof.
  intros n Hn. assert (reads done_.2 = 3) as E by reflexivity. rewrite E in Hn. simpl in Hn.
  do 3 (destruct n as [|n]; [split; [apply (bool_decide_unpack _); reflexivity|reflexivity]|]). lia.
Qed.

Lemma listener_skips_nothing_witness :
  (0 <= last_seen done_.2)%Z /\ 1%Z ∈ log_id <$> handed fresh_floor done_.2.
Proof.
  assert (listen sample_log 8 inputs (fresh_health, fresh_floor) = Some (done_.1, done_.2)) as Hrun by reflexivity.
  destruct (listener_skips_nothing sample_log 8 inputs fresh_health fresh_floor done_.1 done_.2 Hrun)
    as (Hm & _ & Hl).
  split; [exact Hm|]. apply Hl; [apply stays_1|]. split; reflexivity || discriminate.
Defined.

(** The gap the module names: an id that commits below the mark and whose
    notification is lost is not handed on. Here 2 commits after the mark
    passed it, and neither a later pointer nor a reconnect brings it. *)
Program Definition late_log : PgEventLog := {|
  pg_rows n := table (if (n <? 2)%nat then [1; 3] else [1; 2; 3; 4])%Z;
  pg_fails _ := None
|}.
Next Obligation. intros n id s. apply table_keyed. Qed.

Lemma late_top n k : k ∈ visible late_log n -> (k <= 4)%Z.
Proof.
  simpl. intros [s Hs]%elem_of_dom. unfold table in Hs. apply elem_of_list_to_map_2 in Hs.
  apply list_elem_of_fmap in Hs as (i & [= -> _] & Hi). destruct (n <? 2)%nat; set_solver by lia.
Qed.
Lemma late_1 n : 1%Z ∈ visible late_log n /\ is_ok (decoded late_log n 1) = true.
Proof. simpl. destruct (n <? 2)%nat; (split; [apply (bool_decide_unpack _)|]); reflexivity. Qed.

Lemma listener_heals_witness :
  exists h' f', listen_once late_log 8 20 RecvError (fresh_health, fresh_floor) = Some (h', f')
    /\ 1%Z ∈ log_id <$> handed fresh_floor f'.
Proof.
  destruct (listener_heals late_log 8 20 fresh_health fresh_floor 4 late_top) as [(h' & f' & Hrun & Hall) _];
    [simpl; lia|]. exists h', f'. split; [exact Hrun|].
  apply Hall; [done|intros n _; apply late_1|done].
Defined.

Lemma late_commit_without_notify_is_missed :
  log_id <$> sent (default (fresh_health, fresh_floor)
                     (listen late_log 8 [(10%Z, Note [3%N]); (20%Z, Note [4%N]); (30%Z, RecvError)]
                        (fresh_health, fresh_floor))).2 = [1; 3; 4]%Z.
Proof. reflexivity. Qed.
End FloorSample.
