(* ===== verification/Delivery.v ===== *)
(** * Delivery to a subscriber

    [crates/maidan-server/src/event_stream.rs] and [delivery.rs], and
    [crates/maidan-store/src/sqlite/delivery_cursor.rs]: the replay of the log to
    a subscriber that resumes, the live stream with its watermark and its replay
    after a lag, the at-least-once loop that reads stable rows from a durable
    cursor, and the paged backfill of a projector's shape.

    What happens around a stream is given by the number of the event: whether a
    frame is taken by the socket's task, whether a read or a cursor write
    succeeds, the table and the clock at a read. *)

From stdpp Require Import strings gmap.
From S2P Require Import Prelude Text Json EventChain EventLog Seal Db Events Broadcast.

Definition REPLAY_LIMIT : Z := 500.
Definition CURSOR_FLUSH_EVENTS : nat := 64.
Definition MAX_CONSUMER_ID_LEN : nat := 256.

(** ** Durable cursors *)

(** [advance_cursor]: never back. *)
Definition advance_cursor (id stored : Z) : Z :=
  let existing := stored in
  let new_id := Z.max id existing in
  if (stored <? new_id)%Z then new_id else stored.

Inductive ConsumerIdError := ConsumerIdEmpty | ConsumerIdTooLong | ConsumerIdChars.
Definition consumer_char (c : N) : bool :=
  is_ascii_alphanumeric c || bool_decide (c ∈ lit ":-_.").
Definition validate_consumer_id (s : str) : result ConsumerIdError unit :=
  if bool_decide (s = []) then Err ConsumerIdEmpty
  else if (MAX_CONSUMER_ID_LEN <? byte_len s)%nat then Err ConsumerIdTooLong
  else if negb (forallb consumer_char s) then Err ConsumerIdChars
  else Ok tt.

(** [cursor] is the stored cursor of the consumer in the workspace, when both
    are given. *)
Definition effective_subscribe_after_id (cursor : option Z) (requested_after_id : Z) : Z :=
  match cursor with Some c => Z.max requested_after_id c | None => requested_after_id end.

(** The store's [ensure_cursor_fresh]. *)
Definition ensure_cursor_fresh (l : Log) (ws : N) (after_id : Z) : result StoreError unit :=
  if (after_id <=? 0)%Z then Ok tt
  else match min_event_id l ws with
       | None => Ok tt
       | Some oldest => if cursor_is_too_old after_id (Some oldest) then Err (CursorTooOld after_id oldest) else Ok tt
       end.
Definition ensure_subscribe_cursor (l : Log) (ws : option N) (after_id : Z) : result StoreError unit :=
  match ws with None => Ok tt | Some ws => ensure_cursor_fresh l ws after_id end.

(** ** Frames *)

(** What a lean frame carries. *)
Record LeanFrame := {
  lf_type : str; lf_log_id : Z; lf_kind : str; lf_workspace : option N; lf_channel : option N;
  lf_thread : option N; lf_member : option N; lf_attribution : option Attribution
}.
Definition lean_frame (env : BusEnvelope) : LeanFrame :=
  let e := event env in
  {| lf_type := EventKind.type_id (Event.kind e); lf_log_id := log_id env; lf_kind := EventKind.as_str (Event.kind e);
     lf_workspace := Event.workspace_id e; lf_channel := Event.channel_id e; lf_thread := Event.thread_id e;
     lf_member := Event.member_id e; lf_attribution := attribution env |}.

(** serde's text of a lean frame, and of an envelope with its [$type]. *)
Class FrameText := {
  lean_text : LeanFrame -> option str;
  full_text : str -> BusEnvelope -> option str
}.
Definition frame_payload `{FrameText} (env : BusEnvelope) (lean : bool) : option str :=
  if lean then lean_text (lean_frame env) else full_text (EventKind.type_id (Event.kind (event env))) env.

(** ** A stream *)

(** The surroundings of a stream. *)
Class StreamEnv := {
  (** The table at each read, and the message key joined to a row. *)
  log_at : nat -> Log;
  join_key : nat -> EventRow -> StoredEvent;
  read_fails : nat -> option StoreError;
  now_at : nat -> Z;
  (** Whether the n-th frame is taken, and whether the n-th cursor write succeeds. *)
  send_ok : nat -> bool;
  advance_ok : nat -> bool;
  (** Whether the flush interval is over at the n-th event. *)
  flush_due : nat -> bool
}.

(** The frames taken, by their envelopes, the numbers of frames tried, reads and
    writes made, and the consumer's stored cursor. *)
Record Stream := {
  taken : list BusEnvelope;
  tries : nat;
  reads_ : nat;
  writes : nat;
  stored : Z
}.

Section stream.
Context `{JsonText, SealEnv, EventCodec, FrameText, StreamEnv}.
Variable filter : EventFilter.
Variable lean : bool.
(** Whether a consumer id was given. *)
Variable consumer : bool.

Definition send (env : BusEnvelope) (s : Stream) : bool * Stream :=
  if send_ok (tries s)
  then (true, {| taken := taken s ++ [env]; tries := S (tries s); reads_ := reads_ s; writes := writes s; stored := stored s |})
  else (false, {| taken := taken s; tries := S (tries s); reads_ := reads_ s; writes := writes s; stored := stored s |}).

(** A frame without an event: a replay hint or a truncation notice. *)
Definition send_notice (s : Stream) : bool * Stream :=
  (send_ok (tries s),
   {| taken := taken s; tries := S (tries s); reads_ := reads_ s; writes := writes s; stored := stored s |}).

Definition advance (id : Z) (s : Stream) : Stream :=
  {| taken := taken s; tries := tries s; reads_ := reads_ s; writes := S (writes s);
     stored := if advance_ok (writes s) then advance_cursor id (stored s) else stored s |}.

Definition did_read (s : Stream) : Stream :=
  {| taken := taken s; tries := tries s; reads_ := S (reads_ s); writes := writes s; stored := stored s |}.

(** ** Replay *)

Record ReplayOutcome := { high_water : Z; truncated : bool }.

(** The loop over the rows; it ends early when the socket's task is gone. *)
Fixpoint replay_rows (rows : list StoredEvent) (high : Z) (s : Stream) : Z * Stream :=
  match rows with
  | [] => (high, s)
  | row :: rows =>
      match from_stored row with
      | Err _ => replay_rows rows high s
      | Ok env =>
          if negb (matches_envelope filter env) then replay_rows rows high s
          else
            match frame_payload env lean with
            | None => replay_rows rows high s
            | Some _ =>
                let '(ok, s) := send env s in
                if ok then replay_rows rows (Z.max high (log_id env)) s else (high, s)
            end
      end
  end.

Definition replay_matching_events (after_id : Z) (s : Stream) : result StoreError ReplayOutcome * Stream :=
  match f_workspace filter with
  | None => (Ok {| high_water := after_id; truncated := false |}, s)
  | Some ws =>
      let n := reads_ s in
      let s := did_read s in
      match read_fails n with
      | Some e => (Err e, s)
      | None =>
          let rows := join_key n <$> list_after (log_at n) ws after_id REPLAY_LIMIT in
          let truncated := (Z.of_nat (length rows) =? REPLAY_LIMIT)%Z in
          let '(high, s) := replay_rows rows after_id s in
          let s := if (after_id <? high)%Z && consumer then advance high s else s in
          (Ok {| high_water := high; truncated := truncated |}, s)
      end
  end.

(** ** The live stream *)

(** [flush_delivery_cursor], with the writer resolved from the consumer and the
    filter's workspace. *)
Definition cursor_writer : bool := consumer && bool_decide (is_Some (f_workspace filter)).
Definition flush_delivery_cursor (pending : option Z) (s : Stream) : Stream :=
  match pending with
  | Some id => if cursor_writer then advance id s else s
  | None => s
  end.

(** [forward_bus_items]: the watermark, the buffered cursor and the events since
    the last flush are the loop's variables; [n] counts events. *)
Fixpoint forward_bus_items (items : list BusItem) (n : nat) (watermark : Z) (pending : option Z) (since : nat)
    (s : Stream) : Stream :=
  match items with
  | [] => flush_delivery_cursor pending s
  | BusEvent env :: items =>
      let id := log_id env in
      if (id <=? watermark)%Z then forward_bus_items items n watermark pending since s
      else
        let watermark := Z.max watermark id in
        let '(pending, since, s) :=
          if cursor_writer then
            let pending := Some (match pending with Some p => Z.max p id | None => id end) in
            let since := S since in
            if (CURSOR_FLUSH_EVENTS <=? since)%nat || flush_due n
            then (None, 0, flush_delivery_cursor pending s)
            else (pending, since, s)
          else (pending, since, s) in
        match frame_payload env lean with
        | None => forward_bus_items items (S n) watermark pending since s
        | Some _ =>
            let '(ok, s) := send env s in
            if ok then forward_bus_items items (S n) watermark pending since s
            else flush_delivery_cursor pending s
        end
  | BusLagged skipped :: items =>
      let hint s :=
        let '(ok, s) := send_notice s in
        if ok then forward_bus_items items n watermark pending since s else flush_delivery_cursor pending s in
      match f_workspace filter with
      | Some _ =>
          match replay_matching_events watermark s with
          | (Ok outcome, s) =>
              let s := if truncated outcome then (send_notice s).2 else s in
              forward_bus_items items n (Z.max watermark (high_water outcome)) pending since s
          | (Err _, s) => hint s
          end
      | None => hint s
      end
  end.

(** ** At least once *)

(** The loop over a batch of stable rows: the highest id looked at, or [None]
    when the socket's task is gone. *)
Fixpoint reconcile_rows (rows : list StoredEvent) (batch_max : Z) (s : Stream) : option Z * Stream :=
  match rows with
  | [] => (Some batch_max, s)
  | row :: rows =>
      let batch_max := Z.max batch_max (e_id (stored_row row)) in
      match from_stored row with
      | Err _ => reconcile_rows rows batch_max s
      | Ok env =>
          if negb (matches_envelope filter env) then reconcile_rows rows batch_max s
          else
            match frame_payload env lean with
            | None => reconcile_rows rows batch_max s
            | Some _ =>
                let '(ok, s) := send env s in
                if ok then reconcile_rows rows batch_max s else (None, s)
            end
      end
  end.

(** The inner loop: every stable row above the cursor, a page at a time. [Some]
    with the cursor when it stops for now; [None] inside when the stream is
    over; no result when [fuel] pages were not enough. *)
Fixpoint reconcile_drain (fuel : nat) (ws : N) (stability : Z) (cursor : Z) (s : Stream) : option (option Z * Stream) :=
  match fuel with
  | O => None
  | S fuel =>
      let n := reads_ s in
      let cutoff := (now_at n - stability)%Z in
      let s := did_read s in
      match read_fails n with
      | Some _ => Some (Some cursor, s)
      | None =>
          match join_key n <$> list_after_stable (log_at n) ws cursor cutoff REPLAY_LIMIT with
          | [] => Some (Some cursor, s)
          | rows =>
              match reconcile_rows rows cursor s with
              | (None, s) => Some (None, s)
              | (Some batch_max, s) =>
                  let s := advance batch_max s in
                  if (Z.of_nat (length rows) <? REPLAY_LIMIT)%Z then Some (Some batch_max, s)
                  else reconcile_drain fuel ws stability batch_max s
              end
          end
      end
  end.

(** The outer loop, for the given number of wakes. *)
Fixpoint reconcile_deliver (wakes fuel : nat) (ws : N) (stability : Z) (cursor : Z) (s : Stream) : option (option Z * Stream) :=
  match wakes with
  | O => Some (Some cursor, s)
  | S wakes =>
      '(r, s) ← reconcile_drain fuel ws stability cursor s;
      match r with
      | Some cursor => reconcile_deliver wakes fuel ws stability cursor s
      | None => Some (None, s)
      end
  end.
End stream.

(** ** The backfill of a shape ([delivery.rs]) *)

Section shape.
(** The table at each read, and what the caller may read when that is asked. *)
Variable table_at : nat -> Log.
Variable visible : option (EventRow -> bool).
Variable shape : ProjectorShape.

(** [row_to_stored]: a kind that does not parse fails the read. *)
Definition with_kind (r : EventRow) : result StoreError (EventKind * EventRow) :=
  match EventKind.parse (e_kind r) with Some k => Ok (k, r) | None => Err (InvalidInput (UnknownEventKind (e_kind r))) end.

Definition shape_page (n : nat) (after limit : Z) : result StoreError (list (EventKind * EventRow)) :=
  rmapM with_kind
    (list_matching (table_at n) (ps_workspace shape) (ps_channel shape) (ps_thread shape)
       (EventKind.as_str <$> ps_types shape) after limit).

Definition row_readable (r : EventRow) : bool := match visible with Some allows => allows r | None => true end.

(** The loop over a page: the cursor, what is collected, and whether that is
    enough. *)
Fixpoint shape_rows (limit : Z) (page : list (EventKind * EventRow)) (after : Z) (out : list EventRow) :
    Z * list EventRow * bool :=
  match page with
  | [] => (after, out, false)
  | (k, row) :: page =>
      let after := e_id row in
      if row_readable row && matches_stored shape k row then
        let out := out ++ [row] in
        if (limit <=? Z.of_nat (length out))%Z then (after, out, true) else shape_rows limit page after out
      else shape_rows limit page after out
  end.

(** The loop over pages, with [fuel] pages at most. *)
Fixpoint shape_pages (fuel n : nat) (limit after : Z) (out : list EventRow) : option (result StoreError (list EventRow)) :=
  match fuel with
  | O => None
  | S fuel =>
      let page_size := Z.max limit 1 in
      match shape_page n after page_size with
      | Err e => Some (Err e)
      | Ok [] => Some (Ok out)
      | Ok page =>
          let short := (Z.of_nat (length page) <? page_size)%Z in
          let '(after, out, enough) := shape_rows limit page after out in
          if enough || short then Some (Ok out) else shape_pages fuel (S n) limit after out
      end
  end.

Definition list_events_for_shape (fuel : nat) (after_id limit : Z) : option (result StoreError (list EventRow)) :=
  match ensure_cursor_fresh (table_at 0) (ps_workspace shape) after_id with
  | Err e => Some (Err e)
  | Ok _ =>
      if negb (bool_decide (is_Some visible)) && bool_decide (ps_channel shape = None)
         && bool_decide (ps_thread shape = None) && bool_decide (ps_types shape = [])
      then
        Some (match rmapM with_kind (list_after (table_at 1) (ps_workspace shape) after_id limit) with
              | Ok rows => Ok rows.*2
              | Err e => Err e
              end)
      else shape_pages fuel 1 limit after_id []
  end.
End shape.
