(* ===== verification/DeliveryLaws.v ===== *)
(** * What a subscriber is sent

    The live stream sends each event once and in the order of the log. The
    at-least-once loop never moves its cursor, in memory or stored, over an
    event it has not sent, provided the log's insert times follow its ids; and
    the paged backfill of a shape returns the first matching rows. *)

From stdpp Require Import strings gmap.
From S2P Require Import Prelude Text Json EventChain EventLog Seal Db Events Broadcast NotifyFloor FloorLaws Delivery.

(** ** Lists in order *)

Lemma StronglySorted_filter {A} (R : A -> A -> Prop) (p : A -> bool) l :
  StronglySorted R l -> StronglySorted R (List.filter p l).
Proof.
  induction 1 as [|a l _ IH Hall]; simpl; [constructor|]. destruct (p a); [|done]. constructor; [done|].
  rewrite Forall_forall in Hall. apply Forall_forall. intros b [Hb _]%list_elem_of_In%List.filter_In.
  by apply Hall, list_elem_of_In.
Qed.

(** What comes no later than an element of a prefix is in the prefix. *)
Lemma take_downward {A} (key : A -> Z) (l : list A) n x y :
  StronglySorted (fun a b => key a < key b)%Z l -> x ∈ l -> y ∈ take n l -> (key x <= key y)%Z -> x ∈ take n l.
Proof.
  intros Hs Hx Hy Hle. rewrite <- (take_drop n l) in Hx. apply elem_of_app in Hx as [Hx|Hx]; [done|exfalso].
  rewrite <- (take_drop n l) in Hs. clear -Hs Hx Hy Hle.
  induction (take n l) as [|a t IH]; simpl in *; [set_solver|].
  apply StronglySorted_inv in Hs as [Hs Hall]. rewrite Forall_forall in Hall.
  apply elem_of_cons in Hy as [->|Hy]; [|by apply IH].
  assert (key a < key x)%Z by (apply Hall; set_solver). lia.
Qed.

Section delivery.
Context `{JsonText, SealEnv, EventCodec, FrameText, StreamEnv}.
Variable filter : EventFilter.
Variable lean : bool.

(** ** The at-least-once loop *)

(** Rows in the order of their ids, inserted in that order. *)
Definition in_insert_order (l : list EventRow) : Prop :=
  StronglySorted (fun a b => e_id a < e_id b /\ e_inserted a <= e_inserted b)%Z l.

Section at_least_once.
Variable ws : N.
Variable stability : Z.
Hypothesis log_grows : forall n, rows (log_at n) `prefix_of` rows (log_at (S n)).
Hypothesis log_ordered : forall n, in_insert_order (rows (log_at n)).
Hypothesis key_joins : forall n r, stored_row (join_key n r) = r.

Definition mine (n : nat) : list EventRow := ws_rows (log_at n) (Some ws).

(** The row was read, and if it opened as an event the filter wants, its frame
    was taken. *)
Definition looked (s s' : Stream) (r : EventRow) : Prop :=
  exists n, reads_ s <= n < reads_ s'
    /\ forall env, from_stored (join_key n r) = Ok env -> matches_envelope filter env = true ->
         is_Some (frame_payload env lean) -> env ∈ drop (length (taken s)) (taken s').

(** Every row of the workspace between two cursors was looked at. *)
Definition covered (s s' : Stream) (from to : Z) : Prop :=
  forall n r, r ∈ mine n -> (from < e_id r <= to)%Z -> looked s s' r.

Record extends (s s' : Stream) : Prop := {
  ex_reads : reads_ s <= reads_ s';
  ex_taken : taken s `prefix_of` taken s'
}.

Lemma extends_trans s s1 s2 : extends s s1 -> extends s1 s2 -> extends s s2.
Proof. intros [? ?] [? ?]. split; [lia|by etrans]. Qed.

Lemma looked_widen s0 s s' s1 r : extends s0 s -> extends s s' -> extends s' s1 -> looked s s' r -> looked s0 s1 r.
Proof.
  intros [Hr0 [a Ha]] [_ [b Hb]] [Hr1 [c Hc]] (n & Hn & Hl). exists n. split; [lia|].
  intros env He Hm Hf. specialize (Hl env He Hm Hf).
  rewrite Hb, drop_app_length in Hl. rewrite Hc, Hb, Ha, <- !app_assoc, drop_app_length. set_solver.
Qed.

Lemma log_prefix n m : n <= m -> rows (log_at n) `prefix_of` rows (log_at m).
Proof. induction 1; [done|]. etrans; [done|apply log_grows]. Qed.

Lemma mine_elem n r : r ∈ mine n <-> r ∈ rows (log_at n) /\ e_ws r = Some ws.
Proof.
  unfold mine, ws_rows, in_ws. rewrite !list_elem_of_In, List.filter_In. by rewrite bool_decide_eq_true.
Qed.

(** A row at or below one that was there was there too. *)
Lemma mine_settled n m r p : r ∈ mine m -> p ∈ rows (log_at n) -> (e_id r <= e_id p)%Z -> r ∈ mine n.
Proof.
  rewrite !mine_elem. intros [Hr Hw] Hp Hle. split; [|done].
  destruct (decide (m <= n)) as [Hmn|Hmn].
  { destruct (log_prefix m n Hmn) as [k Hk]. rewrite Hk. set_solver. }
  destruct (log_prefix n m) as [k Hk]; [lia|]. pose proof (log_ordered m) as Hs.
  rewrite Hk in Hr, Hs. apply elem_of_app in Hr as [Hr|Hr]; [done|exfalso].
  clear -Hs Hr Hp Hle. induction (rows (log_at n)) as [|a l IH]; simpl in *; [set_solver|].
  apply StronglySorted_inv in Hs as [Hs Hall]. rewrite Forall_forall in Hall.
  apply elem_of_cons in Hp as [->|Hp]; [|by apply IH].
  assert (e_id a < e_id r /\ e_inserted a <= e_inserted r)%Z as [? _] by (apply Hall; set_solver). lia.
Qed.

Lemma id_order n : StronglySorted (fun a b => e_id a < e_id b)%Z (mine n).
Proof.
  apply StronglySorted_filter. pose proof (log_ordered n) as Hs. unfold in_insert_order in Hs.
  induction Hs as [|a l _ IH Hall]; constructor; [done|]. eapply Forall_impl; [done|]. simpl. by intros ? [? _].
Qed.

Lemma inserted_order n r p : r ∈ mine n -> p ∈ mine n -> (e_id r <= e_id p)%Z -> (e_inserted r <= e_inserted p)%Z.
Proof.
  rewrite !mine_elem. intros [Hr _] [Hp _] Hle. pose proof (log_ordered n) as Hs. unfold in_insert_order in Hs.
  induction Hs as [|a l _ IH Hall]; [set_solver|]. rewrite Forall_forall in Hall.
  apply elem_of_cons in Hr as [->|Hr], Hp as [->|Hp]; [lia| | |by apply IH].
  - apply Hall in Hp. lia.
  - apply Hall in Hr. lia.
Qed.

Definition stable_page (n : nat) (cursor : Z) : list EventRow :=
  list_after_stable (log_at n) ws cursor (now_at n - stability) REPLAY_LIMIT.

Lemma stable_page_elem n cursor r :
  r ∈ stable_page n cursor -> r ∈ mine n /\ (cursor < e_id r)%Z /\ (e_inserted r <= now_at n - stability)%Z.
Proof.
  intros Hr%sql_limit_in. apply list_elem_of_In, List.filter_In in Hr as [Hr [Hi Ht]%andb_true_iff].
  split; [by apply list_elem_of_In|]. split; [by apply Z.ltb_lt|by apply Z.leb_le].
Qed.

(** A page has every row up to its last. *)
Lemma stable_page_closed n cursor r p :
  r ∈ mine n -> p ∈ stable_page n cursor -> (cursor < e_id r <= e_id p)%Z -> r ∈ stable_page n cursor.
Proof.
  intros Hr Hp [Hlo Hhi]. destruct (stable_page_elem n cursor p Hp) as (Hpm & _ & Hpt).
  unfold stable_page, list_after_stable, sql_limit in *. set (F := List.filter _ _) in *.
  apply (take_downward e_id F _ r p); [by apply StronglySorted_filter, id_order| |done|done].
  apply list_elem_of_In, List.filter_In. split; [by apply list_elem_of_In|].
  apply andb_true_iff. split; [by apply Z.ltb_lt|]. apply Z.leb_le.
  pose proof (inserted_order n r p Hr Hpm Hhi). lia.
Qed.
(** ** A batch *)

Lemma send_spec env s ok s' :
  send env s = (ok, s') ->
  extends s s' /\ reads_ s' = reads_ s /\ stored s' = stored s
  /\ (ok = true -> taken s' = taken s ++ [env]).
Proof.
  unfold send. destruct (send_ok (tries s)); intros [= <- <-]; (split; [split; simpl; [lia|]|done]);
    [by eexists|done].
Qed.

Lemma drop_later {A} (l l1 l2 : list A) x :
  l `prefix_of` l1 -> l1 `prefix_of` l2 -> x ∈ drop (length l) l1 \/ x ∈ drop (length l1) l2 -> x ∈ drop (length l) l2.
Proof.
  intros [a ->] [b ->]. rewrite <- app_assoc, !drop_app_length, app_assoc, drop_app_length. set_solver.
Qed.

Lemma reconcile_rows_spec rows_ bm s r s' :
  reconcile_rows filter lean rows_ bm s = (r, s') ->
  extends s s' /\ reads_ s' = reads_ s /\ stored s' = stored s
  /\ forall c', r = Some c' ->
     (bm <= c')%Z /\ (c' = bm \/ exists row, row ∈ rows_ /\ e_id (stored_row row) = c')
     /\ (forall row, row ∈ rows_ -> (e_id (stored_row row) <= c')%Z
          /\ forall env, from_stored row = Ok env -> matches_envelope filter env = true ->
               is_Some (frame_payload env lean) -> env ∈ drop (length (taken s)) (taken s')).
Proof.
  revert bm s. induction rows_ as [|row rows_ IH]; intros bm s; simpl.
  { intros [= <- <-]. split; [split; [lia|done]|]. do 2 (split; [done|]). intros c' [= <-].
    split; [lia|]. split; [by left|]. set_solver. }
  assert (forall s1, reconcile_rows filter lean rows_ (Z.max bm (e_id (stored_row row))) s1 = (r, s') ->
            extends s s1 -> reads_ s1 = reads_ s -> stored s1 = stored s ->
            (forall env, from_stored row = Ok env -> matches_envelope filter env = true ->
               is_Some (frame_payload env lean) -> env ∈ drop (length (taken s)) (taken s1)) ->
            extends s s' /\ reads_ s' = reads_ s /\ stored s' = stored s
            /\ forall c', r = Some c' ->
               (bm <= c')%Z /\ (c' = bm \/ exists row0, row0 ∈ row :: rows_ /\ e_id (stored_row row0) = c')
               /\ (forall row0, row0 ∈ row :: rows_ -> (e_id (stored_row row0) <= c')%Z
                    /\ forall env, from_stored row0 = Ok env -> matches_envelope filter env = true ->
                         is_Some (frame_payload env lean) -> env ∈ drop (length (taken s)) (taken s'))) as Hgo.
  { intros s1 Hrec He Hr1 Hs1 Hrow. destruct (IH _ _ Hrec) as (He2 & Hr2 & Hs2 & Hall).
    split; [by eapply extends_trans|]. split; [congruence|]. split; [congruence|]. intros c' Hc.
    destruct (Hall c' Hc) as (Hle & Hc' & Hrows). split; [lia|]. split.
    - destruct Hc' as [->|(row' & Hin & Hid)]; [|right; exists row'; set_solver].
      destruct (Z.max_spec bm (e_id (stored_row row))) as [[_ ->]|[_ ->]]; [right; exists row; set_solver|by left].
    - intros row0 [->|Hin]%elem_of_cons.
      + split; [lia|]. intros env Ho1 Hm1 Hf1. eapply drop_later; [apply He|apply He2|left; eauto].
      + destruct (Hrows row0 Hin) as [? Hsent]. split; [done|]. intros env Ho Hm Hf.
        eapply drop_later; [apply He|apply He2|right; eauto]. }
  destruct (from_stored row) as [env|] eqn:Eo.
  2:{ intros Hrec. apply (Hgo s Hrec); [split; [lia|done]|done|done|congruence]. }
  destruct (matches_envelope filter env) eqn:Em; simpl.
  2:{ intros Hrec. apply (Hgo s Hrec); [split; [lia|done]|done|done|congruence]. }
  destruct (frame_payload env lean) eqn:Ef.
  2:{ intros Hrec. apply (Hgo s Hrec); [split; [lia|done]|done|done|]. intros env' [= <-] _ [? ?]. congruence. }
  destruct (send env s) as [ok s1] eqn:Es. destruct (send_spec _ _ _ _ Es) as (He & Hr1 & Hs1 & Htaken).
  destruct ok.
  - intros Hrec. apply (Hgo s1 Hrec He Hr1 Hs1). intros env' [= <-] _ _. rewrite (Htaken eq_refl), drop_app_length. set_solver.
  - intros [= <- <-]. done.
Qed.

(** ** The loops *)

Lemma advance_extends id s : extends s (advance id s) /\ (stored s <= stored (advance id s) <= Z.max (stored s) id)%Z.
Proof.
  unfold advance, advance_cursor. split; [split; simpl; [lia|done]|]. simpl.
  destruct (advance_ok (writes s)); [|lia]. destruct (stored s <? Z.max id (stored s))%Z eqn:E; lia.
Qed.
Lemma did_read_extends s : extends s (did_read s).
Proof. split; simpl; [lia|done]. Qed.

(** How far the loop got: everything up to [c'] was looked at, and no cursor is
    above it. *)
Record got_to (s : Stream) (from : Z) (r : option Z) (s' : Stream) (c' : Z) : Prop := {
  gt_extends : extends s s';
  gt_from : (from <= c')%Z;
  gt_covered : covered s s' from c';
  gt_stored : (stored s' <= Z.max (stored s) c')%Z;
  gt_cursor c : r = Some c -> c = c'
}.

Lemma covered_nil s s' from : covered s s' from from.
Proof. intros n r _ Hr. lia. Qed.

Lemma page_got_to s cursor bm s1 :
  reads_ s < reads_ s1 -> extends s s1 ->
  (cursor <= bm)%Z -> (exists p, p ∈ stable_page (reads_ s) cursor /\ e_id p = bm) ->
  (forall row, row ∈ join_key (reads_ s) <$> stable_page (reads_ s) cursor -> forall env, from_stored row = Ok env ->
     matches_envelope filter env = true -> is_Some (frame_payload env lean) -> env ∈ drop (length (taken s)) (taken s1)) ->
  covered s s1 cursor bm.
Proof.
  intros Hreads He Hle (p & Hp & <-) Hall n r Hr Hrange.
  destruct (stable_page_elem _ _ _ Hp) as (Hpm & _ & _).
  assert (r ∈ mine (reads_ s)) as Hrn by (apply (mine_settled _ n r p Hr); [by apply mine_elem in Hpm as [? _]|lia]).
  exists (reads_ s). split; [lia|]. intros env Ho. apply (Hall (join_key (reads_ s) r)); [|done].
  apply list_elem_of_fmap. exists r. split; [done|]. by eapply stable_page_closed.
Qed.

Lemma got_to_trans s from c1 s1 r s2 c2 :
  got_to s from (Some c1) s1 c1 -> got_to s1 c1 r s2 c2 -> got_to s from r s2 c2.
Proof.
  intros [E1 F1 C1 S1 _] [E2 F2 C2 S2 G2]. split; [by eapply extends_trans|lia| |lia|done].
  assert (extends s s /\ extends s2 s2) as [Hs Hs2] by (split; split; (lia || done)).
  intros n r0 Hr Hrange. destruct (decide (e_id r0 <= c1)%Z).
  - eapply (looked_widen s s s1 s2); [done|done|done|]. apply (C1 n); [done|lia].
  - eapply (looked_widen s s1 s2 s2); [done|done|done|]. apply (C2 n); [done|lia].
Qed.

Lemma reconcile_drain_S fuel cursor s :
  reconcile_drain filter lean (S fuel) ws stability cursor s
  = let page := join_key (reads_ s) <$> stable_page (reads_ s) cursor in
    if bool_decide (is_Some (read_fails (reads_ s))) then Some (Some cursor, did_read s)
    else if decide (page = []) then Some (Some cursor, did_read s)
    else match reconcile_rows filter lean page cursor (did_read s) with
         | (None, s1) => Some (None, s1)
         | (Some bm, s1) =>
             if (Z.of_nat (length page) <? REPLAY_LIMIT)%Z then Some (Some bm, advance bm s1)
             else reconcile_drain filter lean fuel ws stability bm (advance bm s1)
         end.
Proof.
  cbn [reconcile_drain]. unfold stable_page. destruct (read_fails (reads_ s)); [done|].
  by destruct (join_key (reads_ s) <$> list_after_stable _ _ _ _ _) as [|row page].
Qed.

(** The last row of a page that is not empty. *)
Lemma page_last s cursor bm s1 s2 :
  join_key (reads_ s) <$> stable_page (reads_ s) cursor <> [] ->
  reconcile_rows filter lean (join_key (reads_ s) <$> stable_page (reads_ s) cursor) cursor s1 = (Some bm, s2) ->
  exists p, p ∈ stable_page (reads_ s) cursor /\ e_id p = bm.
Proof.
  intros Hne Hr. destruct (reconcile_rows_spec _ _ _ _ _ Hr) as (_ & _ & _ & Hall).
  destruct (Hall bm eq_refl) as (_ & [->|(row' & Hin & Hid)] & Hrows).
  - exfalso. destruct (stable_page (reads_ s) cursor) as [|p page] eqn:Ep; [done|].
    destruct (Hrows (join_key (reads_ s) p)) as [Hrow _]; [set_solver|].
    destruct (stable_page_elem (reads_ s) cursor p) as (_ & ? & _); [rewrite Ep; set_solver|].
    rewrite key_joins in Hrow. lia.
  - apply list_elem_of_fmap in Hin as (p & -> & Hp). exists p. split; [done|]. by rewrite key_joins in Hid.
Qed.

Lemma reconcile_drain_spec fuel cursor s r s' :
  reconcile_drain filter lean fuel ws stability cursor s = Some (r, s') -> exists c', got_to s cursor r s' c'.
Proof.
  revert cursor s. induction fuel as [|fuel IH]; intros cursor s; [done|]. rewrite reconcile_drain_S. cbv zeta.
  assert (got_to s cursor (Some cursor) (did_read s) cursor) as Hstop.
  { split; [apply did_read_extends|lia|apply covered_nil|simpl; lia|congruence]. }
  case_bool_decide; [intros [= <- <-]; eauto|].
  case_decide as Hne; [intros [= <- <-]; eauto|].
  destruct (reconcile_rows filter lean _ cursor (did_read s)) as [bm s1] eqn:Er.
  destruct (reconcile_rows_spec _ _ _ _ _ Er) as (He & Hr1 & Hs1 & Hall). simpl in Hr1, Hs1.
  pose proof (extends_trans _ _ _ (did_read_extends s) He) as He1.
  destruct bm as [bm|].
  2:{ intros [= <- <-]. exists cursor. split; [done|lia|apply covered_nil|lia|done]. }
  destruct (Hall bm eq_refl) as (Hle & _ & Hrows). destruct (advance_extends bm s1) as [Ha [_ Hst]].
  assert (got_to s cursor (Some bm) (advance bm s1) bm) as Hgot.
  { split; [by eapply extends_trans|done| |lia|congruence].
    apply page_got_to; [simpl; lia|by eapply extends_trans|done|by eapply page_last|].
    intros row' Hin env Ho Hm Hf. by apply (Hrows row' Hin). }
  destruct (Z.of_nat (length _) <? REPLAY_LIMIT)%Z.
  - intros [= <- <-]. eauto.
  - intros [c' Hc']%IH. exists c'. by eapply got_to_trans.
Qed.

Lemma reconcile_deliver_spec wakes fuel cursor s r s' :
  reconcile_deliver filter lean wakes fuel ws stability cursor s = Some (r, s') -> exists c', got_to s cursor r s' c'.
Proof.
  revert cursor s. induction wakes as [|wakes IH]; intros cursor s; simpl.
  { intros [= <- <-]. exists cursor. split; [split; [lia|done]|lia|apply covered_nil|lia|congruence]. }
  intros ([r1 s1] & Hd & Hrest)%bind_Some. destruct (reconcile_drain_spec _ _ _ _ _ Hd) as [c1 Hc1].
  destruct r1 as [c|].
  - assert (c = c1) as -> by (by apply (gt_cursor _ _ _ _ _ Hc1)).
    destruct (IH _ _ Hrest) as [c' Hc']. exists c'. by eapply got_to_trans.
  - simplify_eq. eauto.
Qed.
(** ** A pass without faults *)

Lemma reconcile_rows_total rows_ bm s :
  (forall n, send_ok n = true) -> exists c' s', reconcile_rows filter lean rows_ bm s = (Some c', s').
Proof.
  intros Hok. revert bm s. induction rows_ as [|row rows_ IH]; intros bm s; simpl; [eauto|].
  destruct (from_stored row) as [env|]; [|apply IH]. destruct (negb _); [apply IH|].
  destruct (frame_payload env lean); [|apply IH]. unfold send. rewrite Hok. apply IH.
Qed.

Lemma stable_page_short n cursor r :
  (Z.of_nat (length (stable_page n cursor)) < REPLAY_LIMIT)%Z ->
  r ∈ mine n -> (cursor < e_id r)%Z -> (e_inserted r <= now_at n - stability)%Z -> r ∈ stable_page n cursor.
Proof.
  unfold stable_page, list_after_stable, sql_limit, limit_rows, REPLAY_LIMIT. simpl. set (F := List.filter _ _).
  intros Hlen Hr Hid Ht. rewrite length_take in Hlen. rewrite take_ge by lia.
  apply list_elem_of_In, List.filter_In. split; [by apply list_elem_of_In|].
  apply andb_true_iff. split; [by apply Z.ltb_lt|by apply Z.leb_le].
Qed.

Lemma reconcile_drain_total fuel cursor s top :
  (forall n, read_fails n = None) -> (forall n, send_ok n = true) -> (forall n, now_at n <= now_at (S n))%Z ->
  (forall n r, r ∈ mine n -> e_id r <= top)%Z -> (Z.to_nat (top - cursor) < fuel)%nat ->
  exists c' s', reconcile_drain filter lean fuel ws stability cursor s = Some (Some c', s')
    /\ forall r, r ∈ mine (reads_ s) -> (e_inserted r <= now_at (reads_ s) - stability)%Z -> (e_id r <= c')%Z.
Proof.
  intros Hrd Hsend Hnow Htop. revert cursor s. induction fuel as [|fuel IH]; intros cursor s Hfuel; [lia|].
  rewrite reconcile_drain_S. cbv zeta. rewrite Hrd, bool_decide_false by (by intros [? ?]). case_decide as Hne.
  { apply fmap_nil_inv in Hne. exists cursor, (did_read s). split; [done|]. intros r Hr Ht.
    destruct (decide (cursor < e_id r)%Z) as [Hlt|]; [|lia].
    assert (r ∈ stable_page (reads_ s) cursor) as Hin; [|rewrite Hne in Hin; set_solver].
    apply stable_page_short; [|done..]. rewrite Hne. done. }
  destruct (reconcile_rows_total (join_key (reads_ s) <$> stable_page (reads_ s) cursor) cursor (did_read s) Hsend)
    as (bm & s1 & Er). rewrite Er.
  destruct (reconcile_rows_spec _ _ _ _ _ Er) as (_ & Hr1 & _ & Hall). simpl in Hr1.
  destruct (Hall bm eq_refl) as (Hle & _ & Hrows).
  destruct (page_last _ _ _ _ _ Hne Er) as (p & Hp & Hid). destruct (stable_page_elem _ _ _ Hp) as (Hpm & Hpc & _).
  assert (bm <= top)%Z by (subst bm; eauto).
  destruct (Z.of_nat (length _) <? REPLAY_LIMIT)%Z eqn:Elen.
  - apply Z.ltb_lt in Elen. rewrite length_fmap in Elen. exists bm, (advance bm s1). split; [done|]. intros r Hr Ht.
    destruct (decide (cursor < e_id r)%Z) as [Hlt|]; [|lia].
    destruct (Hrows (join_key (reads_ s) r)) as [Hrow _]; [|by rewrite key_joins in Hrow].
    apply list_elem_of_fmap. exists r. split; [done|]. by apply stable_page_short.
  - destruct (IH bm (advance bm s1)) as (c' & s' & Hd & Hc'); [lia|]. exists c', s'. split; [done|].
    intros r Hr Ht. apply Hc'; simpl; rewrite Hr1.
    + apply mine_elem in Hr as [Hr Hw]. apply mine_elem. split; [|done].
      destruct (log_grows (reads_ s)) as [k ->]. set_solver.
    + specialize (Hnow (reads_ s)). lia.
Qed.

(** C25: at least once. With the log only appended to, in the order of its ids
    and of its insert times, run the loop for any number of wakes, with any
    reads, frames and cursor writes failing. No cursor moves over an event that
    was not sent: every row of the workspace above the cursor the loop started
    from, and at or below the cursor in memory at the end or the one stored for
    the next connection, was read, and if it opened as an event the filter wants, its frame was taken.
    And a wake without faults returns once there is fuel for the ids above the cursor, and
    moves the cursor over every row that was stable when it began. *)
Theorem reconcile_at_least_once wakes fuel cursor s r s' :
  reconcile_deliver filter lean wakes fuel ws stability cursor s = Some (r, s') -> (stored s <= cursor)%Z ->
  (forall n row, row ∈ mine n -> (cursor < e_id row)%Z ->
     (e_id row <= stored s')%Z \/ (exists c', r = Some c' /\ e_id row <= c')%Z -> looked s s' row)
  /\ (forall top, (forall n, read_fails n = None) -> (forall n, send_ok n = true) -> (forall n, now_at n <= now_at (S n))%Z ->
       (forall n row, row ∈ mine n -> e_id row <= top)%Z -> (Z.to_nat (top - cursor) < fuel)%nat ->
       exists c' s1, reconcile_drain filter lean fuel ws stability cursor s = Some (Some c', s1)
         /\ forall row, row ∈ mine (reads_ s) -> (e_inserted row <= now_at (reads_ s) - stability)%Z ->
              (cursor < e_id row)%Z -> (e_id row <= c')%Z /\ looked s s1 row).
Proof.
  intros Hrun Hstored. split.
  - destruct (reconcile_deliver_spec _ _ _ _ _ _ Hrun) as (c' & [_ _ Hcov Hst Hcur]).
    intros n row Hrow Hlo Hhi. apply (Hcov n); [done|]. split; [done|].
    destruct Hhi as [Hhi|(c & Hr & Hle)]; [lia|]. apply Hcur in Hr as ->. done.
  - intros top Hrd Hsend Hnow Htop Hfuel.
    destruct (reconcile_drain_total fuel cursor s top Hrd Hsend Hnow Htop Hfuel) as (c' & s1 & Hd & Hall).
    exists c', s1. split; [done|]. intros row Hrow Ht Hlo. pose proof (Hall row Hrow Ht) as Hle. split; [done|].
    destruct (reconcile_drain_spec _ _ _ _ _ Hd) as (c1 & [_ _ Hcov _ Hcur]).
    specialize (Hcur c' eq_refl) as ->. apply (Hcov _ _ Hrow). lia.
Qed.
End at_least_once.
(** ** The live stream *)

Section live.
Variable consumer : bool.
Hypothesis log_sorted : forall n, id_sorted (rows (log_at n)).
Hypothesis key_joins : forall n r, stored_row (join_key n r) = r.

Section mark.
(** The id the subscriber resumes after. *)
Variable base : Z.

(** The frames taken are above [base], in the order of their ids, and none is
    above [w]. *)
Definition upto (w : Z) (s : Stream) : Prop :=
  StronglySorted Z.lt (base :: (log_id <$> taken s)) /\ forall id, id ∈ base :: (log_id <$> taken s) -> (id <= w)%Z.

Lemma upto_weaken w w' s : upto w s -> (w <= w')%Z -> upto w' s.
Proof. intros [Hs Hle] Hw. split; [done|]. intros id Hid. specialize (Hle id Hid). lia. Qed.

Lemma sorted_snoc l x : StronglySorted Z.lt l -> (forall y, y ∈ l -> (y < x)%Z) -> StronglySorted Z.lt (l ++ [x]).
Proof.
  induction 1 as [|a l _ IH Hall]; simpl; intros Hx; [repeat constructor|]. constructor.
  - apply IH. intros y Hy. apply Hx. set_solver.
  - rewrite Forall_forall in Hall. apply Forall_forall. intros y [Hy|Hy]%elem_of_app; [by apply Hall|].
    apply list_elem_of_singleton in Hy as ->. apply Hx. set_solver.
Qed.

(** A frame above the mark keeps the order. *)
Lemma upto_send w env s ok s' :
  upto w s -> (w < log_id env)%Z -> send env s = (ok, s') -> upto (if ok then log_id env else w) s'.
Proof.
  intros [Hs Hle] Hw. unfold send. destruct (send_ok (tries s)); intros [= <- <-]; [|done]. split; cbn [taken].
  - rewrite fmap_app. apply (sorted_snoc (base :: _)); [done|]. intros y Hy. specialize (Hle y Hy). lia.
  - rewrite fmap_app. intros y [Hy|Hy]%(elem_of_app (base :: _)); [specialize (Hle y Hy); lia|].
    apply list_elem_of_singleton in Hy as ->. lia.
Qed.

Lemma from_stored_id row env : from_stored row = Ok env -> log_id env = e_id (stored_row row).
Proof.
  unfold from_stored, from_payload. destruct (opened_payload row); [|done].
  destruct (decode_event _); [|done]. by intros [= <-].
Qed.

Lemma replay_rows_spec rows_ high s high' s' :
  StronglySorted Z.lt (high :: (e_id ∘ stored_row <$> rows_)) -> upto high s ->
  replay_rows filter lean rows_ high s = (high', s') -> (high <= high')%Z /\ upto high' s'.
Proof.
  revert high s. induction rows_ as [|row rows_ IH]; intros high s Hsort Hup; simpl.
  { intros [= <- <-]. split; [lia|done]. }
  inversion Hsort as [|? ? Hs Hall]; subst. rewrite Forall_forall in Hall.
  assert (high < e_id (stored_row row))%Z as Hlt by (apply Hall; set_solver).
  assert (StronglySorted Z.lt (high :: (e_id ∘ stored_row <$> rows_))) as Hskip.
  { simpl in Hs. apply StronglySorted_inv in Hs as [Hs _]. constructor; [done|]. apply Forall_forall. intros y Hy. apply Hall. set_solver. }
  destruct (from_stored row) as [env|] eqn:Eo; [|by apply IH]. destruct (negb _); [by apply IH|].
  destruct (frame_payload env lean); [|by apply IH]. apply from_stored_id in Eo.
  destruct (send env s) as [ok s1] eqn:Es.
  assert (upto (if ok then log_id env else high) s1) as Hup1 by (eapply upto_send; [done|lia|done]).
  destruct ok; [|intros [= <- <-]; split; [lia|done]].
  replace (Z.max high (log_id env)) with (log_id env) by lia. intros Hrec.
  apply IH in Hrec as [? ?]; [split; [lia|done]| |done]. by rewrite Eo.
Qed.

(** The ids of a page of rows above a cursor. *)
Lemma page_ids_sorted n limit after l :
  id_sorted l -> (forall r, r ∈ l -> (after < e_id r)%Z) ->
  StronglySorted Z.lt (after :: (e_id ∘ stored_row <$> (join_key n <$> sql_limit limit l))).
Proof.
  intros Hs Hlt. rewrite <- list_fmap_compose. constructor.
  - unfold sql_limit. generalize (limit_rows limit l). clear -Hs key_joins.
    induction Hs as [|a l _ IH Hall]; intros [|k]; simpl; constructor; [done|].
    rewrite Forall_forall in Hall. apply Forall_forall. intros y (b & -> & Hb)%list_elem_of_fmap.
    simpl. rewrite !key_joins. apply Hall. apply elem_of_take in Hb as (i & Hi & _). by eapply list_elem_of_lookup_2.
  - apply Forall_forall. intros y (r & -> & Hr)%list_elem_of_fmap. simpl. rewrite key_joins. by eapply Hlt, sql_limit_in.
Qed.

Lemma list_after_sorted n ws after :
  StronglySorted Z.lt (after :: (e_id ∘ stored_row <$> (join_key n <$> list_after (log_at n) ws after REPLAY_LIMIT))).
Proof.
  apply page_ids_sorted; [apply StronglySorted_filter, StronglySorted_filter, log_sorted|].
  by intros r [_ Hlt%Z.ltb_lt]%list_elem_of_In%List.filter_In.
Qed.

Lemma list_after_global_sorted n after limit :
  StronglySorted Z.lt (after :: (e_id ∘ stored_row <$> (join_key n <$> list_after_global (log_at n) after limit))).
Proof.
  apply page_ids_sorted; [apply StronglySorted_filter, log_sorted|].
  by intros r [_ Hlt%Z.ltb_lt]%list_elem_of_In%List.filter_In.
Qed.

Lemma advance_upto w id s : upto w s -> upto w (advance id s).
Proof. done. Qed.
Lemma flush_upto w pending s : upto w s -> upto w (flush_delivery_cursor filter consumer pending s).
Proof. intros Hup. unfold flush_delivery_cursor. destruct pending; [|done]. by destruct (cursor_writer _ _). Qed.
Lemma notice_upto w s : upto w s -> upto w (send_notice s).2.
Proof. done. Qed.

Lemma replay_spec after s r s' :
  upto after s -> replay_matching_events filter lean consumer after s = (r, s') ->
  match r with Ok outcome => (after <= high_water outcome)%Z /\ upto (high_water outcome) s' | Err _ => upto after s' end.
Proof.
  intros Hup. unfold replay_matching_events. destruct (f_workspace filter) as [ws|].
  2:{ intros [= <- <-]. simpl. split; [lia|done]. }
  destruct (read_fails (reads_ s)); [by intros [= <- <-]|].
  destruct (replay_rows filter lean _ after (did_read s)) as [high s1] eqn:Er.
  apply replay_rows_spec in Er as [Hle Hup1]; [|apply list_after_sorted|done].
  intros [= <- <-]. simpl. split; [done|]. by destruct (_ && consumer).
Qed.

Lemma forward_spec items n w pending since s :
  upto w s -> exists w', upto w' (forward_bus_items filter lean consumer items n w pending since s).
Proof.
  revert n w pending since s. induction items as [|[env|skipped] items IH]; intros n w pending since s Hup; simpl.
  { exists w. by apply flush_upto. }
  - destruct (log_id env <=? w)%Z eqn:Ew; [by apply IH|]. apply Z.leb_gt in Ew.
    destruct (if cursor_writer filter consumer then _ else _) as [[pending' since'] s1] eqn:Ec.
    assert (upto w s1) as Hup1.
    { destruct (cursor_writer filter consumer); [|by simplify_eq].
      destruct (_ || _); injection Ec as <- <- <-; [|done]. by destruct pending; apply advance_upto. }
    destruct (frame_payload env lean); [|apply IH; eapply upto_weaken; [done|lia]].
    destruct (send env s1) as [ok s2] eqn:Es. apply (upto_send w) in Es; [|done|lia].
    destruct ok; [|exists w; by apply flush_upto]. apply IH. by replace (Z.max w (log_id env)) with (log_id env) by lia.
  - assert (forall s1, upto w s1 -> exists w', upto w'
      (let '(ok, s2) := send_notice s1 in
       if ok then forward_bus_items filter lean consumer items n w pending since s2
       else flush_delivery_cursor filter consumer pending s2)) as Hhint.
    { intros s1 Hup1. unfold send_notice. destruct (send_ok (tries s1)); [by apply IH|]. exists w. by apply flush_upto. }
    destruct (f_workspace filter) eqn:Ef; [|by apply Hhint].
    destruct (replay_matching_events filter lean consumer w s) as [[outcome|e] s1] eqn:Er.
    + apply replay_spec in Er as [Hle Hup1]; [|done]. rewrite Z.max_r by done. apply IH.
      by destruct (truncated outcome).
    + apply replay_spec in Er; [|done]. by apply Hhint.
Qed.

End mark.

(** C26: the live stream sends each event once and in order. A subscriber that
    resumes after an id is sent a replay of the log and then the bus, whose items
    may repeat, come out of order and lag, with replays in between, reads that fail and a
    socket that closes at any point: the ids of the events it is sent are above that id
    and strictly increase. *)
Theorem stream_once_in_order after_id s outcome s1 items :
  taken s = [] -> replay_matching_events filter lean consumer after_id s = (Ok outcome, s1) ->
  let s2 := forward_bus_items filter lean consumer items 0 (high_water outcome) None 0 s1 in
  StronglySorted Z.lt (after_id :: (log_id <$> taken s2))
  /\ (forall env, env ∈ taken s1 -> (log_id env <= high_water outcome)%Z).
Proof.
  intros Hnil Hr. assert (upto after_id after_id s) as Hup by (split; rewrite Hnil; [repeat constructor|set_solver by lia]).
  apply (replay_spec after_id) in Hr as [_ Hup1]; [|done].
  destruct (forward_spec after_id items 0 (high_water outcome) None 0 s1 Hup1) as [w' [Hs _]]. split; [done|].
  intros env Henv. destruct Hup1 as [_ Hle]. apply Hle. apply list_elem_of_further, list_elem_of_fmap_2, Henv.
Qed.

(** The cursor a consumer resumes from can be ahead of what it was sent: the
    event a closing socket does not take is counted before it is sent. *)
Lemma cursor_ahead_of_delivery env n w s :
  cursor_writer filter consumer = true -> (w < log_id env)%Z -> is_Some (frame_payload env lean) ->
  send_ok (tries s) = false -> advance_ok (writes s) = true -> (stored s < log_id env)%Z ->
  let s' := forward_bus_items filter lean consumer [BusEvent env] n w None 0 s in
  stored s' = log_id env /\ taken s' = taken s.
Proof.
  intros Hc Hw [p Hf] Hsend Hadv Hst. cbn [forward_bus_items]. rewrite (proj2 (Z.leb_gt _ _) Hw), Hc, Hf.
  assert (advance_cursor (log_id env) (stored s) = log_id env) as Ha.
  { unfold advance_cursor. destruct (_ <? _)%Z eqn:E; lia. }
  destruct (_ || _); unfold flush_delivery_cursor, send, advance; rewrite ?Hc; simpl; rewrite Hsend; simpl;
    rewrite ?Hc; simpl; by rewrite Hadv.
Qed.
End live.
End delivery.

(** ** The backfill of a shape *)

Section shape_laws.
Variable l : Log.
Variable visible : option (EventRow -> bool).
Variable shape : ProjectorShape.
Hypothesis table_sorted : id_sorted (rows l).
Hypothesis kinds_parse : forall r, r ∈ rows l -> is_Some (EventKind.parse (e_kind r)).

(** A row of the shape, and the rows of the shape above a cursor. *)
Definition of_shape (r : EventRow) : bool :=
  match ps_channel shape with Some c => bool_decide (e_channel r = Some c) | None => true end
  && match ps_thread shape with Some t => bool_decide (e_thread r = Some t) | None => true end
  && (bool_decide (ps_types shape = []) || bool_decide (e_kind r ∈ EventKind.as_str <$> ps_types shape)).
Definition shape_after (after : Z) : list EventRow :=
  List.filter (fun r => (after <? e_id r)%Z && of_shape r) (ws_rows l (Some (ps_workspace shape))).

(** The reference: every row of the shape above the cursor that the caller may
    read. *)
Definition readable_after (after : Z) : list EventRow := List.filter (row_readable visible) (shape_after after).

Definition keyed (r : EventRow) : EventKind * EventRow := (default EventKind.WorkspaceCreated (EventKind.parse (e_kind r)), r).

Lemma list_matching_shape after limit :
  list_matching l (ps_workspace shape) (ps_channel shape) (ps_thread shape) (EventKind.as_str <$> ps_types shape) after limit
  = sql_limit limit (shape_after after).
Proof.
  unfold list_matching, shape_after. f_equal. apply List.filter_ext. intros r. unfold of_shape.
  assert (bool_decide (EventKind.as_str <$> ps_types shape = []) = bool_decide (ps_types shape = [])) as ->.
  { apply bool_decide_ext. destruct (ps_types shape); simpl; naive_solver. }
  by rewrite !andb_assoc.
Qed.

Lemma shape_after_elem after r :
  r ∈ shape_after after <-> r ∈ rows l /\ e_ws r = Some (ps_workspace shape) /\ (after < e_id r)%Z /\ of_shape r = true.
Proof.
  unfold shape_after, ws_rows, in_ws. rewrite list_elem_of_In, !List.filter_In, <- list_elem_of_In.
  rewrite bool_decide_eq_true, andb_true_iff, Z.ltb_lt. tauto.
Qed.

Lemma rmapM_keyed l' : (forall r, r ∈ l' -> r ∈ rows l) -> rmapM with_kind l' = Ok (keyed <$> l').
Proof.
  induction l' as [|r l' IH]; intros Hin; simpl; [done|].
  unfold with_kind at 1, keyed. destruct (kinds_parse r) as [k ->]; [set_solver|]. simpl.
  rewrite IH by set_solver. done.
Qed.

(** The check of a row that the query already made. *)
Lemma matches_stored_of_shape after r : r ∈ shape_after after -> matches_stored shape (keyed r).1 r = true.
Proof.
  rewrite shape_after_elem. intros (Hin & Hws & _ & Hof). unfold matches_stored, of_shape, pins in *.
  destruct (kinds_parse r Hin) as [k Hk]. unfold keyed. rewrite Hk. simpl.
  rewrite !andb_true_iff in *. destruct Hof as [[Hc Ht] Hty]. rewrite bool_decide_true by done.
  split; [split; [split; [done|]|]|]; [by destruct (ps_channel shape)|by destruct (ps_thread shape)|].
  destruct (ps_types shape) as [|k0 types] eqn:Et; [done|].
  apply orb_true_iff in Hty as [Hty|Hty]; [by apply bool_decide_eq_true in Hty|].
  apply bool_decide_eq_true in Hty. apply list_elem_of_fmap in Hty as (k' & He & Hk').
  rewrite He, parse_as_str in Hk. simplify_eq. by apply bool_decide_true.
Qed.

Lemma shape_rows_spec limit page after out :
  (Z.of_nat (length out) < limit)%Z -> (forall r, r ∈ page -> r ∈ shape_after 0 \/ exists a, r ∈ shape_after a) ->
  let all := out ++ List.filter (row_readable visible) page in
  let '(after', out', enough) := shape_rows visible shape limit (keyed <$> page) after out in
  if enough then out' = take (Z.to_nat limit) all /\ (limit <= Z.of_nat (length all))%Z
  else out' = all /\ (Z.of_nat (length all) < limit)%Z /\ after' = default after (e_id <$> last page).
Proof.
  revert after out. induction page as [|r page IH]; intros after out Hlen Hin; cbn [fmap list_fmap shape_rows].
  { simpl. rewrite app_nil_r. done. }
  assert (matches_stored shape (keyed r).1 r = true) as Hm.
  { destruct (Hin r) as [?|[a ?]]; [set_solver|by eapply matches_stored_of_shape..]. }
  change (keyed r) with ((keyed r).1, r) at 1. cbn iota beta. rewrite Hm, andb_true_r.
  assert (default after (e_id <$> last (r :: page)) = default (e_id r) (e_id <$> last page)) as Hlast.
  { rewrite last_cons. by destruct (last page). }
  simpl List.filter. destruct (row_readable visible r).
  - destruct (limit <=? Z.of_nat (length (out ++ [r])))%Z eqn:E.
    + apply Z.leb_le in E. rewrite length_app in E. simpl in E.
      assert (Z.to_nat limit = length (out ++ [r])) as -> by (rewrite length_app; simpl; lia).
      simpl. split.
      * rewrite (app_assoc out [r] (List.filter (row_readable visible) page)
                   : out ++ r :: _ = (out ++ [r]) ++ _).
        by rewrite take_app_length.
      * rewrite length_app. simpl. lia.
    + apply Z.leb_gt in E. specialize (IH (e_id r) (out ++ [r]) E ltac:(set_solver)). simpl in IH.
      destruct (shape_rows visible shape limit (keyed <$> page) (e_id r) (out ++ [r])) as [[a' o'] en].
      rewrite <- app_assoc in IH. simpl in IH. by rewrite Hlast.
  - specialize (IH (e_id r) out Hlen ltac:(set_solver)). simpl in IH.
    destruct (shape_rows visible shape limit (keyed <$> page) (e_id r) out) as [[a' o'] en]. by rewrite Hlast.
Qed.

Lemma shape_after_next after n r :
  last (take n (shape_after after)) = Some r -> shape_after (e_id r) = drop n (shape_after after).
Proof.
  intros Hl. assert (id_sorted (shape_after after)) as Hs by (by apply StronglySorted_filter, StronglySorted_filter).
  rewrite <- (after_page _ _ _ Hs Hl). unfold shape_after.
  assert (after < e_id r)%Z as Hr.
  { rewrite last_lookup in Hl. apply list_elem_of_lookup_2 in Hl. apply elem_of_take in Hl as (i & Hi & _).
    apply list_elem_of_lookup_2, shape_after_elem in Hi. tauto. }
  induction (ws_rows l (Some (ps_workspace shape))) as [|x L IH]; simpl; [done|].
  destruct (e_id r <? e_id x)%Z eqn:E; simpl.
  - rewrite (proj2 (Z.ltb_lt after (e_id x))) by (apply Z.ltb_lt in E; lia). simpl.
    destruct (of_shape x); simpl; [rewrite E; by f_equal|done].
  - destruct ((after <? e_id x)%Z && of_shape x); simpl; [by rewrite E|done].
Qed.
Lemma shape_pages_spec fuel n limit after out :
  (Z.of_nat (length out) < limit)%Z -> length (shape_after after) < fuel ->
  shape_pages (fun _ => l) visible shape fuel n limit after out
  = Some (Ok (take (Z.to_nat limit) (out ++ readable_after after))).
Proof.
  revert n after out. induction fuel as [|fuel IH]; intros n after out Hlen Hfuel; [lia|]. cbn [shape_pages].
  set (ps := Z.max limit 1). unfold shape_page. rewrite list_matching_shape.
  assert (sql_limit ps (shape_after after) = take (Z.to_nat ps) (shape_after after)) as ->.
  { unfold sql_limit, limit_rows. rewrite (proj2 (Z.ltb_ge ps 0)) by lia. done. }
  set (page := take (Z.to_nat ps) (shape_after after)).
  assert (forall r, r ∈ page -> r ∈ shape_after after) as Hpage by (intros r; apply elem_of_take_in).
  rewrite rmapM_keyed by (intros r Hr%Hpage%shape_after_elem; tauto).
  assert (readable_after after
          = List.filter (row_readable visible) page
            ++ List.filter (row_readable visible) (drop (Z.to_nat ps) (shape_after after))) as Hall.
  { unfold readable_after. rewrite <- List.filter_app. unfold page. by rewrite take_drop. }
  destruct (decide (page = [])) as [Hnil|Hnil].
  { rewrite Hnil. simpl. unfold readable_after. replace (shape_after after) with (@nil EventRow).
    - simpl. rewrite app_nil_r, take_ge; [done|lia].
    - symmetry. apply length_zero_iff_nil. unfold page in Hnil. apply (f_equal length) in Hnil.
      rewrite length_take in Hnil. simpl in Hnil. lia. }
  destruct (keyed <$> page) as [|kr krs] eqn:Ek; [by apply fmap_nil_inv in Ek|]. rewrite <- Ek. clear kr krs Ek.
  pose proof (shape_rows_spec limit page after out Hlen) as Hrows. simpl in Hrows.
  destruct (shape_rows visible shape limit (keyed <$> page) after out) as [[after' out'] enough].
  specialize (Hrows ltac:(eauto)). rewrite length_fmap. destruct enough; simpl.
  { destruct Hrows as [-> Hge]. do 2 f_equal. rewrite Hall, app_assoc. symmetry. apply take_app_le. lia. }
  destruct Hrows as (-> & Hlt & Hafter). destruct (Z.of_nat (length page) <? ps)%Z eqn:Eshort.
  - apply Z.ltb_lt in Eshort. do 2 f_equal. rewrite Hall. rewrite drop_ge; [|unfold page in Eshort; rewrite length_take in Eshort; lia].
    simpl. rewrite app_nil_r, take_ge; [done|lia].
  - apply Z.ltb_ge in Eshort. destruct (last page) as [r|] eqn:El; [|by apply last_None in El].
    simpl in Hafter. subst after'. assert (shape_after (e_id r) = drop (Z.to_nat ps) (shape_after after)) as Hnext
      by (by apply shape_after_next).
    rewrite IH; [|done|rewrite Hnext, length_drop; unfold page in Eshort; rewrite length_take in Eshort; lia].
    do 3 f_equal. rewrite Hall, <- app_assoc. unfold readable_after. by rewrite Hnext.
Qed.

(** The paged backfill is the first [limit] rows of the shape that the caller
    may read, in order: hidden rows never make a page short, and no row is
    checked twice to a different end. *)
Lemma backfill_exact fuel after limit :
  ensure_cursor_fresh l (ps_workspace shape) after = Ok tt -> (0 < limit)%Z -> length (rows l) < fuel ->
  list_events_for_shape (fun _ => l) visible shape fuel after limit
  = Some (Ok (take (Z.to_nat limit) (readable_after after))).
Proof.
  intros Hfresh Hlimit Hfuel. unfold list_events_for_shape. rewrite Hfresh.
  assert (length (shape_after after) < fuel) as Hlen.
  { eapply Nat.le_lt_trans; [|exact Hfuel]. unfold shape_after, ws_rows. etrans; [apply List.filter_length_le|].
    apply List.filter_length_le. }
  destruct (_ && _) eqn:Eplain; [|rewrite shape_pages_spec; [done|simpl; lia|done]].
  rewrite !andb_true_iff in Eplain. destruct Eplain as [[[Hv Hc] Ht] Hty].
  apply negb_true_iff, bool_decide_eq_false in Hv. apply bool_decide_eq_true in Hc, Ht, Hty.
  assert (visible = None) as Hvis by (by apply eq_None_not_Some).
  assert (list_after l (ps_workspace shape) after limit = take (Z.to_nat limit) (shape_after after)) as ->.
  { unfold list_after, sql_limit, limit_rows. rewrite (proj2 (Z.ltb_ge limit 0)) by lia. f_equal.
    unfold shape_after. apply List.filter_ext. intros r. unfold of_shape. rewrite Hc, Ht, Hty. simpl.
    by rewrite andb_true_r. }
  rewrite rmapM_keyed by (intros r Hr%elem_of_take_in%shape_after_elem; tauto).
  assert ((keyed <$> take (Z.to_nat limit) (shape_after after)).*2 = take (Z.to_nat limit) (shape_after after)) as ->.
  { rewrite <- list_fmap_compose. by apply list_fmap_id. }
  do 3 f_equal. unfold readable_after, row_readable. rewrite Hvis.
  clear. induction (shape_after after) as [|r L IH]; simpl; [done|]. by f_equal.
Qed.
End shape_laws.

(** ** Samples *)

Module DeliverySample.
Import FloorSample.
#[global] Instance frames : FrameText := {| lean_text := fun _ => Some []; full_text := fun _ _ => Some [] |}.

Definition at_ (id inserted : Z) : EventRow :=
  {| e_id := id; e_kind := []; e_ws := Some 1%N; e_channel := None; e_thread := None;
     e_payload := Object []; e_occurred := 0; e_inserted := inserted; e_prev := []; e_content := [] |}.
Definition logged (rs : list EventRow) : Log := {| rows := rs; seq := Z.of_nat (length rs) |}.

(** A table that does not change, a clock, and no faults. *)
Definition quiet (rs : list EventRow) (clock : nat -> Z) : StreamEnv := {|
  log_at := fun _ => logged rs;
  join_key := fun _ r => {| stored_row := r; stored_key := None; stored_trace := None |};
  read_fails := fun _ => None; now_at := clock; send_ok := fun _ => true; advance_ok := fun _ => true;
  flush_due := fun _ => false
|}.
Definition fresh : Stream := {| taken := []; tries := 0; reads_ := 0; writes := 0; stored := 0 |}.
Definition of_ws : EventFilter := with_workspace (Some 1%N) all.

(** The insert times need not follow the ids: they come from the clock of the
    server that inserts. Here event 2 was written by a server whose clock is
    ahead; the loop passes over it while it is not stable, moves its cursor to
    3, and never sends it. *)
Lemma skewed_row_is_stranded :
  let _ := quiet [at_ 1 10; at_ 2 200; at_ 3 50] (fun n => 100 + 200 * Z.of_nat n)%Z in
  (fun '(c, s) => (c, stored s, log_id <$> taken s)) <$> reconcile_deliver of_ws false 3 9 1 5 0 fresh
  = Some (Some 3%Z, 3%Z, [1; 3]%Z).
Proof. vm_compute. reflexivity. Qed.
Definition three : list EventRow := [at_ 1 10; at_ 2 20; at_ 3 30].

#[local] Instance three_env : StreamEnv := quiet three (fun _ => 25%Z).

Lemma three_grows n : rows (log_at n) `prefix_of` rows (log_at (S n)).
Proof. done. Qed.
Lemma three_ordered n : in_insert_order (rows (log_at n)).
Proof. repeat constructor; simpl; lia. Qed.

Lemma three_sorted n : id_sorted (rows (log_at n)).
Proof. repeat constructor; simpl; lia. Qed.

Lemma reconcile_at_least_once_witness :
  exists c' s1, reconcile_drain of_ws false 9 1 5 0 fresh = Some (Some c', s1)
    /\ (1 <= c')%Z /\ looked of_ws false fresh s1 (at_ 1 10).
Proof.
  destruct (reconcile_at_least_once of_ws false 1 5 three_grows three_ordered
              (fun _ _ => eq_refl) 0 9 0 fresh (Some 0%Z) fresh eq_refl) as [_ Hwake]; [simpl; lia|].
  destruct (Hwake 3%Z) as (c' & s1 & Hd & Hall); [done|done|simpl; lia| |simpl; lia|].
  - intros n row Hrow%mine_elem. destruct Hrow as [Hrow _]. simpl in Hrow. set_solver by lia.
  - exists c', s1. split; [exact Hd|]. apply (Hall (at_ 1 10)); [|simpl; lia|simpl; lia].
    apply mine_elem. split; [set_solver|done].
Defined.

(** The live stream after a replay: an event comes again, and one out of order. *)
Definition ev (id : Z) : BusItem :=
  BusEvent {| log_id := id; event := Event.UsageOverAllowance 0 1 (Object []); attribution := None; trace := None |}.

Lemma stream_once_in_order_witness :
  StronglySorted Z.lt
    (1%Z :: (log_id <$> taken (forward_bus_items of_ws false true [ev 3; ev 5; BusLagged 2; ev 4] 0 3 None 0
                                 (replay_matching_events of_ws false true 1 fresh).2))).
Proof.
  apply (stream_once_in_order of_ws false true three_sorted (fun _ _ => eq_refl) 1 fresh
           {| high_water := 3; truncated := false |} (replay_matching_events of_ws false true 1 fresh).2
           [ev 3; ev 5; BusLagged 2; ev 4] eq_refl). vm_compute. reflexivity.
Defined.
End DeliverySample.
