(* ===== verification/Subscribe.v ===== *)
(** * Who may subscribe to what

    [crates/maidan-auth/src/subscribe.rs] (the first frame of a subscription and
    its signed resume token), [crates/maidan-server/src/dm.rs]
    ([expand_event_filter]), [subscribe_grants.rs], and the two paths that put
    them together: [read_subscribe] of [ws.rs] and [stream] of [mcp_stream.rs],
    from the decoded request and the resolved caller to the filter that the bus
    is subscribed with.

    The serialization of a filter, base64, hexadecimal and HMAC-SHA256 are other
    crates; they are the class [ResumeCodec]. *)

From stdpp Require Import strings gmap.
From S2P Require Import Prelude Text Json EventChain EventLog Seal Db Auth Budget Claimability Access Events Delivery.
Local Open Scope req_scope.

(** ** Resume tokens *)

Definition MAX_PAYLOAD_BYTES : nat := 4096.
Definition MAX_ENCODED_PAYLOAD_BYTES : nat := (MAX_PAYLOAD_BYTES + 2) / 3 * 4.
Definition MAC_HEX_LEN : nat := 64.

Inductive SubscribeResumeError := PayloadTooLarge | Malformed | Expired | InvalidSignature | Internal.

Record ResumePayload := { rp_filter : EventFilter; rp_after_id : Z; rp_exp : Z }.

Class ResumeCodec := {
  payload_to_vec : ResumePayload -> option (list N);
  payload_from_slice : list N -> option ResumePayload;
  b64url_encode : list N -> str;
  b64url_decode : list N -> option (list N);
  hmac_sha256 : list N -> list N -> list N;
  hex_text : list N -> str;
  hex_bytes : str -> option (list N)
}.

(** What does not travel: the sets filled in at subscribe time are skipped. *)
Definition travels (f : EventFilter) : EventFilter := with_access ∅ None f.

Section resume.
Context `{ResumeCodec}.

Definition mac_for_payload (encoded secret : list N) : list N := hmac_sha256 secret encoded.

Definition sign_resume_token (filter : EventFilter) (after_id : Z) (secret : list N) (ttl_secs now : Z) :
    result SubscribeResumeError str :=
  if bool_decide (secret = []) then Err InvalidSignature
  else if (after_id <? 0)%Z then Err Malformed
  else
    let exp := saturating_add now (if (ttl_secs <=? I64_MAX)%Z then ttl_secs else I64_MAX) in
    match payload_to_vec {| rp_filter := filter; rp_after_id := after_id; rp_exp := exp |} with
    | None => Err Internal
    | Some json =>
        if (MAX_PAYLOAD_BYTES <? length json)%nat then Err PayloadTooLarge
        else
          let encoded := b64url_encode json in
          let mac := mac_for_payload (as_bytes encoded) secret in
          Ok (encoded ++ 46%N :: hex_text mac)
    end.

Definition verify_resume_token (token : str) (secret : list N) (now : Z) : result SubscribeResumeError (EventFilter * Z) :=
  if bool_decide (secret = []) then Err InvalidSignature
  else
    match split_once 46 token with
    | None => Err Malformed
    | Some (encoded, mac_hex) =>
        if (MAX_ENCODED_PAYLOAD_BYTES <? byte_len encoded)%nat then Err PayloadTooLarge
        else if bool_decide (encoded = []) || negb (byte_len mac_hex =? MAC_HEX_LEN)%nat then Err Malformed
        else
          let expected := mac_for_payload (as_bytes encoded) secret in
          match hex_bytes mac_hex with
          | None => Err Malformed
          | Some actual =>
              if negb (length actual =? length expected)%nat || negb (bool_decide (actual = expected))
              then Err InvalidSignature
              else
                match b64url_decode (as_bytes encoded) with
                | None => Err Malformed
                | Some json =>
                    if (MAX_PAYLOAD_BYTES <? length json)%nat then Err PayloadTooLarge
                    else
                      match payload_from_slice json with
                      | None => Err Malformed
                      | Some payload =>
                          if (rp_exp payload <? now)%Z then Err Expired
                          else if (rp_after_id payload <? 0)%Z then Err Malformed
                          else Ok (rp_filter payload, rp_after_id payload)
                      end
                end
          end
    end.
End resume.

(** ** The first frame *)

Record SubscribeFrame := {
  sf_resume_token : option str; sf_filter : EventFilter; sf_after_id : Z; sf_consumer_id : option str;
  sf_member_id : option N; sf_at_least_once : bool; sf_lean : bool
}.

Inductive SubscribeRefusal :=
| ResumeNotConfigured
| InvalidResumeToken (e : SubscribeResumeError)
| ResumeReplayNeedsWorkspace
| NegativeAfterId
| ReplayNeedsWorkspace.

(** [.as_deref().filter(|t| !t.is_empty())]. *)
Definition non_empty (s : option str) : option str :=
  match s with Some (c :: s) => Some (c :: s) | _ => None end.

Definition resolve_subscribe `{ResumeCodec} (frame : SubscribeFrame) (resume_secret : option (list N)) (now : Z) :
    result SubscribeRefusal (EventFilter * Z) :=
  match non_empty (sf_resume_token frame) with
  | Some token =>
      match resume_secret with
      | None => Err ResumeNotConfigured
      | Some secret =>
          match verify_resume_token token secret now with
          | Err e => Err (InvalidResumeToken e)
          | Ok (filter, after_id) =>
              if (0 <? after_id)%Z && bool_decide (f_workspace filter = None) then Err ResumeReplayNeedsWorkspace
              else Ok (filter, after_id)
          end
      end
  | None =>
      if (sf_after_id frame <? 0)%Z then Err NegativeAfterId
      else if (0 <? sf_after_id frame)%Z && bool_decide (f_workspace (sf_filter frame) = None) then Err ReplayNeedsWorkspace
      else Ok (sf_filter frame, sf_after_id frame)
  end.

(** ** Admission *)

(** What a subscription is refused with. *)
Inductive SubscribeReject :=
| Refused (e : SubscribeRefusal)
| RejectAuth (e : AuthError)
| RejectStore (e : StoreError)
| NotThisWorkspace
| MissingSubscribe
| ChannelNotInWorkspace
| ThreadChannelNotFound
| NeedsChannelGrant
| BadConsumerId (e : ConsumerIdError)
| NotThatMember
| PresenceNeedsWorkspace
| UnknownKind (name : str).

(** [resolve_thread_context] of the router. *)
Record ThreadContext := { tc_workspace : N; tc_channel : N; tc_thread : N }.
Definition resolve_thread_context (thread : N) : Req SubscribeReject ThreadContext :=
  t <- call RejectStore (get_thread thread) ;;
  c <- call RejectStore (get_channel (t_channel t)) ;;
  rret {| tc_workspace := c_ws c; tc_channel := t_channel t; tc_thread := thread |}.

(** [bind_to_caller_workspace]. *)
Definition bind_to_caller_workspace (filter : EventFilter) (auth : AuthContext) : result SubscribeReject EventFilter :=
  if ac_bypass auth then Ok filter
  else
    match f_workspace filter with
    | None => Ok (with_workspace (Some (ac_workspace auth)) filter)
    | Some ws => match ensure_workspace auth ws with Ok _ => Ok filter | Err _ => Err NotThisWorkspace end
    end.

(** The asserted grants that hold. *)
Fixpoint verify_grants (auth : AuthContext) (channels : list (N * ChannelRow)) (asserted : list N) (verified : gset N) :
    Req SubscribeReject (gset N) :=
  match asserted with
  | [] => rret verified
  | cid :: asserted =>
      keep <- (match List.find (fun c => bool_decide (c.1 = cid)) channels with
               | Some (_, c) =>
                   if negb (c_private c) || bool_decide (c_name c = DM_CHANNEL_NAME) then rret true
                   else call RejectStore (channel_is_member cid (ac_member auth))
               | None => rret false
               end) ;;
      verify_grants auth channels asserted (if keep : bool then {[cid]} ∪ verified else verified)
  end.

(** [if channel.private && !grants.contains(..) { return Err(..) }]. *)
Definition granted_or_public (channels : list (N * ChannelRow)) (ch : N) (missing : SubscribeReject) (grants : gset N) :
    Req SubscribeReject unit :=
  match List.find (fun c => bool_decide (c.1 = ch)) channels with
  | None => rfail missing
  | Some (_, c) => if c_private c && negb (bool_decide (ch ∈ grants)) then rfail NeedsChannelGrant else rret tt
  end.

(** The private channels that are not granted. *)
Definition denied_channels (channels : list (N * ChannelRow)) (grants : gset N) : gset N :=
  list_to_set (List.filter (fun id => negb (bool_decide (id ∈ grants)))
                 (List.filter (fun c : N * ChannelRow => c_private c.2) channels).*1).

Definition apply_subscribe_grants (auth : AuthContext) (filter : EventFilter) : Req SubscribeReject EventFilter :=
  match f_workspace filter with
  | None => rret filter
  | Some ws =>
      channels <- call RejectStore (list_channels ws) ;;
      let asserted : gset N := match f_grants filter with Some v => list_to_set v | None => ∅ end in
      grants <- (if ac_bypass auth then rret asserted else verify_grants auth channels (elements asserted) ∅) ;;
      grants <- (match f_dm filter, f_thread filter with
                 | Some _, Some th => ctx <- resolve_thread_context th ;; rret ({[tc_channel ctx]} ∪ grants)
                 | _, _ => rret grants
                 end) ;;
      (match f_channel filter with
       | Some ch => granted_or_public channels ch ChannelNotInWorkspace grants
       | None => rret tt
       end) ;;
      (match f_thread filter with
       | Some th => ctx <- resolve_thread_context th ;; granted_or_public channels (tc_channel ctx) ThreadChannelNotFound grants
       | None => rret tt
       end) ;;
      rret (with_access (f_deny filter ∪ denied_channels channels grants)
              (if decide (grants = ∅) then f_allow filter else Some grants) filter)
  end.

Record SubscribeRequest := {
  sr_filter : EventFilter; sr_after_id : Z; sr_from_resume_token : bool; sr_consumer_id : option str;
  sr_member_id : option N; sr_at_least_once : bool; sr_lean : bool
}.

Section admission.
Context `{ResumeCodec}.
(** A conversation's workspace and thread, the cursor stored for a consumer of
    a workspace, and the log. *)
Variable conversation : N -> option (N * N).
Variable stored_cursor : str -> N -> Z.
Variable log : Log.

Definition get_dm_conversation (id : N) : Tx (N * N) := ok_or (conversation id) NotFound.

(** [expand_event_filter]. *)
Definition expand_event_filter (filter : EventFilter) (auth : AuthContext) : Req SubscribeReject EventFilter :=
  filter <- (match f_dm filter with
             | Some dm_id =>
                 dm <- call RejectStore (get_dm_conversation dm_id) ;;
                 rret (with_scope (f_channel filter) (Some dm.2)
                         (with_workspace (Some (default dm.1 (f_workspace filter))) filter))
             | None => rret filter
             end) ;;
  match f_thread filter with
  | Some thread =>
      if ac_bypass auth then rret filter
      else
        (fun w => match ensure_thread_access auth thread w with
                  | (Ok _, w') => (Ok filter, w')
                  | (Err e, w') => (Err (RejectAuth e), w')
                  end)
  | None => rret filter
  end.

(** The cursor, once the consumer id is checked: the end of both paths. *)
Definition settle_cursor (consumer_id : option str) (filter : EventFilter) (after_id : Z) : Req SubscribeReject Z :=
  after_id <- (match consumer_id with
               | Some consumer =>
                   check_ BadConsumerId (validate_consumer_id consumer) ;;
                   rret (effective_subscribe_after_id (stored_cursor consumer <$> f_workspace filter) after_id)
               | None => rret after_id
               end) ;;
  check_ RejectStore (ensure_subscribe_cursor log (f_workspace filter) after_id) ;;
  rret after_id.

(** [read_subscribe] of [ws.rs], from the decoded frame and the caller. *)
Definition read_subscribe (auth_disabled : bool) (secret : option (list N)) (now : Z) (sub : SubscribeFrame)
    (ctx : AuthContext) : Req SubscribeReject SubscribeRequest :=
  asked <- check_ Refused (resolve_subscribe sub secret now) ;;
  let '(filter, after_id) := asked in
  filter <- expand_event_filter filter ctx ;;
  (if auth_disabled then rret tt
   else check_ (fun _ => MissingSubscribe) (require_capability ctx EVENT_SUBSCRIBE)) ;;
  filter <- check_ (fun e => e) (bind_to_caller_workspace filter ctx) ;;
  filter <- apply_subscribe_grants ctx filter ;;
  after_id <- settle_cursor (sf_consumer_id sub) filter after_id ;;
  (match sf_member_id sub with
   | Some claimed =>
       if negb auth_disabled && negb (bool_decide (claimed = ac_member ctx)) then rfail NotThatMember else rret tt
   | None => rret tt
   end) ;;
  (if bool_decide (is_Some (sf_member_id sub)) && bool_decide (f_workspace filter = None)
   then rfail PresenceNeedsWorkspace else rret tt) ;;
  rret {| sr_filter := filter; sr_after_id := after_id;
          sr_from_resume_token := bool_decide (is_Some (non_empty (sf_resume_token sub)));
          sr_consumer_id := sf_consumer_id sub; sr_member_id := sf_member_id sub;
          sr_at_least_once := sf_at_least_once sub && bool_decide (is_Some (f_workspace filter))
                              && bool_decide (is_Some (sf_consumer_id sub));
          sr_lean := sf_lean sub |}.

(** ** The server-sent stream ([mcp_stream.rs]) *)

Record McpStreamQuery := {
  mq_workspace_id : option N; mq_after_id : Z; mq_resume_token : option str; mq_consumer_id : option str;
  mq_dm : option N; mq_channel_grants : list N; mq_channel_id : option N; mq_thread_id : option N;
  mq_member_id : option N; mq_kinds : option str; mq_at_least_once : bool; mq_lean : bool
}.

(** [filter.kinds], when a name is given. *)
Definition query_kinds (kinds : option str) : result SubscribeReject (option (list EventKind)) :=
  match non_empty kinds with
  | None => Ok None
  | Some s =>
      match parse_projector_types s with
      | Err name => Err (UnknownKind name)
      | Ok [] => Ok None
      | Ok set => Ok (Some (remove_dups set))
      end
  end.

(** The filter of the query's own parameters. *)
Definition query_filter (q : McpStreamQuery) (kinds : option (list EventKind)) : EventFilter :=
  {| f_workspace := mq_workspace_id q; f_channel := mq_channel_id q; f_thread := mq_thread_id q; f_dm := mq_dm q;
     f_member := mq_member_id q; f_kinds := kinds;
     f_grants := match mq_channel_grants q with [] => None | grants => Some grants end;
     f_deny := ∅; f_allow := None |}.

Definition resolve_stream_params (secret : option (list N)) (now : Z) (q : McpStreamQuery) (auth : AuthContext) :
    result SubscribeReject (EventFilter * Z * bool) :=
  match non_empty (mq_resume_token q) with
  | Some token =>
      match secret with
      | None => Err (Refused ResumeNotConfigured)
      | Some secret =>
          match verify_resume_token token secret now with
          | Err e => Err (Refused (InvalidResumeToken e))
          | Ok (filter, after_id) =>
              if (0 <? after_id)%Z && bool_decide (f_workspace filter = None)
              then Err (Refused ResumeReplayNeedsWorkspace)
              else
                match f_workspace filter with
                | Some ws => match ensure_workspace auth ws with
                             | Ok _ => Ok (filter, after_id, true)
                             | Err _ => Err NotThisWorkspace
                             end
                | None => Ok (filter, after_id, true)
                end
          end
      end
  | None =>
      if (mq_after_id q <? 0)%Z then Err (Refused NegativeAfterId)
      else
        (let*? u := match mq_workspace_id q with
                    | Some ws => match ensure_workspace auth ws with Ok _ => Ok tt | Err _ => Err NotThisWorkspace end
                    | None => if (0 <? mq_after_id q)%Z then Err (Refused ReplayNeedsWorkspace) else Ok tt
                    end in
         let*? kinds := query_kinds (mq_kinds q) in
         Ok (query_filter q kinds, mq_after_id q, false))%res
  end.

(** [stream], up to the subscription. *)
Definition mcp_stream (secret : option (list N)) (now : Z) (q : McpStreamQuery) (auth : AuthContext) :
    Req SubscribeReject SubscribeRequest :=
  check_ (fun _ => MissingSubscribe) (require_capability auth EVENT_SUBSCRIBE) ;;
  params <- check_ (fun e => e) (resolve_stream_params secret now q auth) ;;
  let '(filter, after_id, from_resume_token) := params in
  filter <- expand_event_filter filter auth ;;
  filter <- check_ (fun e => e) (bind_to_caller_workspace filter auth) ;;
  filter <- apply_subscribe_grants auth filter ;;
  after_id <- settle_cursor (mq_consumer_id q) filter after_id ;;
  rret {| sr_filter := filter; sr_after_id := after_id; sr_from_resume_token := from_resume_token;
          sr_consumer_id := mq_consumer_id q; sr_member_id := None;
          sr_at_least_once := mq_at_least_once q && bool_decide (is_Some (f_workspace filter))
                              && bool_decide (is_Some (mq_consumer_id q));
          sr_lean := mq_lean q |}.
End admission.
