(* ===== verification/SubscribeLaws.v ===== *)
(** * What a subscription can hear

    An admitted subscription hears its caller's workspace only, a thread it
    names only when the caller may read it, and a channel that was private only
    when the caller is in it, with the exception of the channel of direct
    messages; and a resume token gives back what was signed. *)

From stdpp Require Import strings gmap.
From S2P Require Import Prelude Text Json EventChain EventLog Seal Db Auth Budget Claimability Access Events Delivery Subscribe Samples AuthLaws.
Local Open Scope req_scope.

(** ** Reads *)

Lemma call_read {E A} (into : StoreError -> E) (f : Db -> A) w : call into (read f) w = (Ok (f (db w)), w).
Proof. done. Qed.

Lemma get_row_Ok {E A} (into : StoreError -> E) (f : Db -> option A) w a w' :
  call into (bind (read f) (fun row => ok_or row NotFound)) w = (Ok a, w') -> f (db w) = Some a /\ w' = w.
Proof.
  intros Hc%call_Ok. unfold bind, read in Hc. destruct (f (db w)); [|done]. by injection Hc as <- <-.
Qed.

Lemma list_channels_elem ws w id c :
  (id, c) ∈ (fun d => merge_sort (fun a b : N * ChannelRow =>
                               str_leb (c_name a.2) (c_name b.2) = true
                               /\ (c_name a.2 = c_name b.2 -> (a.1 <= b.1)%N))
                   (List.filter (fun e : N * ChannelRow => bool_decide (c_ws e.2 = ws)) (map_to_list (channels d)))) (db w)
  <-> channels (db w) !! id = Some c /\ c_ws c = ws.
Proof.
  cbn beta. rewrite merge_sort_Permutation, list_elem_of_In, List.filter_In, <- list_elem_of_In, elem_of_map_to_list.
  by rewrite bool_decide_eq_true.
Qed.

(** The channels a subscription is checked against. *)
Definition channels_of (d : Db) (ws : N) (l : list (N * ChannelRow)) : Prop :=
  forall id c, (id, c) ∈ l <-> channels d !! id = Some c /\ c_ws c = ws.

Lemma list_channels_Ok {E} (into : StoreError -> E) ws w l w' :
  call into (list_channels ws) w = (Ok l, w') -> channels_of (db w) ws l /\ w' = w.
Proof. unfold list_channels. rewrite call_read. intros [= <- <-]. split; [|done]. intros id c. apply list_channels_elem. Qed.

Lemma find_channel d ws l ch id c :
  channels_of d ws l -> List.find (fun c : N * ChannelRow => bool_decide (c.1 = ch)) l = Some (id, c) ->
  id = ch /\ channels d !! ch = Some c /\ c_ws c = ws.
Proof.
  intros Hl [Hin Heq]%List.find_some. apply bool_decide_eq_true in Heq. simpl in Heq. subst. split; [done|].
  by apply Hl, list_elem_of_In.
Qed.

(** ** Each step *)

Lemma resolve_thread_context_Ok thread w ctx w' :
  resolve_thread_context thread w = (Ok ctx, w') ->
  w' = w /\ exists t c, threads (db w) !! thread = Some t /\ channels (db w) !! t_channel t = Some c /\ tc_channel ctx = t_channel t.
Proof.
  unfold resolve_thread_context, get_thread, get_channel. intros Hr.
  req_step Hr. apply get_row_Ok in E as [Ht ->]. req_step Hr. apply get_row_Ok in E as [Hc ->].
  apply rret_Ok in Hr as [-> ->]. eauto 10.
Qed.

Lemma dm_participant_world auth thread w r w' : ensure_dm_participant auth thread w = (r, w') -> w' = w.
Proof.
  unfold ensure_dm_participant, dm_conversation_for_thread, group_dm_for_thread, rbind. rewrite call_read. 
  destruct (dm_conversations (db w) !! thread) as [[low high]|].
  - destruct (_ || _); by intros [= _ <-].
  - rewrite call_read. destruct (_ <$> _); [destruct (decide _)|]; by intros [= _ <-].
Qed.

(** What access to a thread means for its channel. *)
Lemma thread_access_Ok auth thread w u w' :
  ac_bypass auth = false -> ensure_thread_access auth thread w = (Ok u, w') ->
  w' = w /\ exists t c, threads (db w) !! thread = Some t /\ channels (db w) !! t_channel t = Some c
    /\ c_ws c = ac_workspace auth
    /\ (c_private c = true -> c_name c <> DM_CHANNEL_NAME -> (t_channel t, ac_member auth) ∈ channel_members (db w)).
Proof.
  intros Hb. unfold ensure_thread_access, authorize_thread, get_thread, get_channel. rewrite Hb. intros Hr.
  apply rbind_Ok_inv in Hr as (s & w1 & Hr & [_ <-]%rret_Ok).
  req_step Hr. apply get_row_Ok in E as [Ht ->]. req_step Hr. apply get_row_Ok in E as [Hc ->]. cbn beta zeta iota in Hr.
  req_step Hr. rename H into Hws. unfold ensure_workspace in Hws. rewrite Hb in Hws. simpl in Hws.
  case_bool_decide as Hw; [|done]. apply rbind_Ok_inv in Hr as (u1 & w2 & Hr & [_ <-]%rret_Ok).
  destruct (decide (c_name a0 = DM_CHANNEL_NAME)) as [Hn|Hn].
  { apply dm_participant_world in Hr as ->. split; [done|]. exists a, a0. split_and!; congruence || done. }
  destruct (c_private a0) eqn:Hp.
  - unfold channel_is_member in Hr. apply rbind_Ok_inv in Hr as (inside & w3 & Hi & Hr). rewrite call_read in Hi.
    injection Hi as <- <-. apply guard_Ok in Hr as [Hin%bool_decide_eq_true ->]. split; [done|]. exists a, a0. split_and!; congruence || done.
  - apply rret_Ok in Hr as [_ ->]. split; [done|]. exists a, a0. split_and!; congruence || done.
Qed.

(** What an asserted grant must be to hold. *)
Definition grant_holds (d : Db) (auth : AuthContext) (ws ch : N) : Prop :=
  exists c, channels d !! ch = Some c /\ c_ws c = ws
    /\ (c_private c = false \/ c_name c = DM_CHANNEL_NAME \/ (ch, ac_member auth) ∈ channel_members d).

Lemma verify_grants_Ok auth ws l asserted verified w v w' :
  channels_of (db w) ws l -> verify_grants auth l asserted verified w = (Ok v, w') ->
  w' = w /\ forall ch, ch ∈ v -> ch ∈ verified \/ ch ∈ asserted /\ grant_holds (db w) auth ws ch.
Proof.
  intros Hl. revert verified. induction asserted as [|cid asserted IH]; intros verified; cbn [verify_grants].
  { intros [-> ->]%rret_Ok. naive_solver. }
  intros Hr. apply rbind_Ok_inv in Hr as (keep & w1 & Hk & Hr).
  assert (w1 = w /\ (keep = true -> grant_holds (db w) auth ws cid)) as [-> Hkeep].
  { destruct (List.find _ l) as [[id c]|] eqn:Ef; [|apply rret_Ok in Hk as [-> ->]; done].
    apply (find_channel _ _ _ _ _ _ Hl) in Ef as (-> & Hc & Hws). unfold grant_holds.
    destruct (negb (c_private c) || _) eqn:Ep.
    - apply rret_Ok in Hk as [-> ->]. split; [done|]. intros _. exists c. split; [done|]. split; [done|].
      apply orb_true_iff in Ep as [Ep%negb_true_iff|Ep%bool_decide_eq_true]; auto.
    - unfold channel_is_member in Hk. rewrite call_read in Hk. injection Hk as <- <-. split; [done|].
      intros Hm%bool_decide_eq_true. exists c. auto. }
  apply IH in Hr as [-> Hv]. split; [done|]. intros ch Hch. destruct (Hv ch Hch) as [Hin|[Hin Hh]]; [|set_solver].
  destruct keep; [|auto]. apply elem_of_union in Hin as [->%elem_of_singleton|Hin]; [|auto]. right. split; [set_solver|auto].
Qed.

Lemma bind_workspace_Ok f auth f' :
  ac_bypass auth = false -> bind_to_caller_workspace f auth = Ok f' -> f' = with_workspace (Some (ac_workspace auth)) f.
Proof.
  intros Hb. unfold bind_to_caller_workspace, ensure_workspace. rewrite Hb. destruct (f_workspace f) as [ws|] eqn:Ew.
  - simpl. case_bool_decide as Hw; [|done]. intros [= <-]. rewrite Hw, <- Ew. by destruct f.
  - by intros [= <-].
Qed.

Lemma expand_Ok conversation f auth w f' w' :
  ac_bypass auth = false -> expand_event_filter conversation f auth w = (Ok f', w') ->
  w' = w /\ forall t, f_thread f' = Some t -> ensure_thread_access auth t w = (Ok tt, w).
Proof.
  intros Hb. unfold expand_event_filter. intros Hr. apply rbind_Ok_inv in Hr as (f1 & w1 & Hf & Hr).
  assert (w1 = w) as ->.
  { destruct (f_dm f) as [id|]; [|by apply rret_Ok in Hf as [_ ->]].
    req_step Hf. apply call_Ok in E. apply rret_Ok in Hf as [_ ->]. unfold get_dm_conversation, ok_or in E.
    destruct (conversation id); [|done]. by injection E. }
  destruct (f_thread f1) as [t|] eqn:Et.
  - rewrite Hb in Hr. destruct (ensure_thread_access auth t w) as [[[]|e] w2] eqn:Ea; [|done]. injection Hr as <- <-.
    apply thread_access_Ok in Ea as Ha; [|done]. destruct Ha as [-> _]. split; [done|]. intros t' Ht'. by simplify_eq.
  - apply rret_Ok in Hr as [-> ->]. split; [done|]. intros t Ht. congruence.
Qed.

Lemma granted_or_public_world l ch e grants w u w' :
  granted_or_public l ch e grants w = (Ok u, w') -> w' = w.
Proof.
  unfold granted_or_public. destruct (List.find _ l) as [[id c]|]; [|done]. destruct (_ && _); [done|].
  by intros [_ ->]%rret_Ok.
Qed.

Lemma denied_or_granted d ws l grants ch c :
  channels_of d ws l -> channels d !! ch = Some c -> c_ws c = ws -> c_private c = true ->
  ch ∉ denied_channels l grants -> ch ∈ grants.
Proof.
  intros Hl Hc Hws Hp Hd. destruct (decide (ch ∈ grants)) as [|Hn]; [done|]. destruct Hd.
  unfold denied_channels. apply elem_of_list_to_set, list_elem_of_In, List.filter_In. split.
  - apply list_elem_of_In, list_elem_of_fmap. exists (ch, c). split; [done|].
    apply list_elem_of_In, List.filter_In. split; [|done]. by apply list_elem_of_In, Hl.
  - by rewrite bool_decide_false.
Qed.

(** Why a private channel may be heard. *)
Definition may_hear (d : Db) (auth : AuthContext) (f : EventFilter) (ch : N) (c : ChannelRow) : Prop :=
  (ch, ac_member auth) ∈ channel_members d
  \/ c_name c = DM_CHANNEL_NAME /\ (channel_is_granted f ch = true \/ is_Some (f_dm f) /\ is_Some (f_thread f)).

Lemma apply_grants_Ok auth f ws w f' w' :
  ac_bypass auth = false -> f_workspace f = Some ws ->
  (forall t, f_thread f = Some t -> ensure_thread_access auth t w = (Ok tt, w)) ->
  apply_subscribe_grants auth f w = (Ok f', w') ->
  w' = w /\ (exists deny allow, f' = with_access deny allow f)
  /\ forall ch c, ch ∉ f_deny f' -> channels (db w) !! ch = Some c -> c_ws c = ws -> c_private c = true ->
       may_hear (db w) auth f ch c.
Proof.
  intros Hb Hws Hacc. unfold apply_subscribe_grants. rewrite Hws, Hb. intros Hr.
  apply rbind_Ok_inv in Hr as (l & w1 & Hl & Hr). apply list_channels_Ok in Hl as [Hl ->].
  apply rbind_Ok_inv in Hr as (verified & w1 & Hv & Hr).
  apply (verify_grants_Ok _ _ _ _ _ _ _ _ Hl) in Hv as [-> Hv].
  apply rbind_Ok_inv in Hr as (grants & w1 & Hg & Hr).
  assert (w1 = w /\ forall ch c, ch ∈ grants -> channels (db w) !! ch = Some c -> c_private c = true ->
            may_hear (db w) auth f ch c) as [-> Hgrants].
  { assert (forall ch c, ch ∈ verified -> channels (db w) !! ch = Some c -> c_private c = true ->
              may_hear (db w) auth f ch c) as Hver.
    { intros ch c Hch Hc Hp. destruct (Hv ch Hch) as [?|[Has (c' & Hc' & _ & Hh)]]; [set_solver|]. simplify_eq.
      destruct Hh as [Hh|[Hh|Hh]]; [congruence|right|by left]. split; [done|left]. unfold channel_is_granted.
      destruct (f_grants f); [apply bool_decide_eq_true|]; set_solver. }
    destruct (f_dm f) as [dm|] eqn:Edm; [|apply rret_Ok in Hg as [-> ->]; done].
    destruct (f_thread f) as [t|] eqn:Et; [|apply rret_Ok in Hg as [-> ->]; done].
    req_step Hg. apply resolve_thread_context_Ok in E as (-> & tr & c0 & Ht & Hc0 & Htc).
    apply rret_Ok in Hg as [-> ->]. split; [done|]. intros ch c Hch Hc Hp.
    apply elem_of_union in Hch as [->%elem_of_singleton|Hch]; [|by eapply Hver].
    destruct (thread_access_Ok auth t w tt w Hb (Hacc t eq_refl)) as (_ & tr' & c' & Ht' & Hc' & _ & Hm).
    assert (tr' = tr) as -> by congruence. rewrite Htc in *. assert (c' = c) as -> by congruence.
    destruct (decide (c_name c = DM_CHANNEL_NAME)) as [Hn|Hn].
    - right. split; [done|]. right. by rewrite Edm, Et.
    - left. by apply Hm. }
  req_step Hr. assert (w0 = w) as ->.
  { destruct (f_channel f); [by eapply granted_or_public_world|by apply rret_Ok in E as [_ ->]]. }
  clear E. req_step Hr. assert (w0 = w) as ->.
  { destruct (f_thread f); [|by apply rret_Ok in E as [_ ->]]. req_step E.
    apply resolve_thread_context_Ok in E0 as [-> _]. by eapply granted_or_public_world. }
  apply rret_Ok in Hr as [-> ->]. split; [done|]. split; [eauto|]. cbn [f_deny with_access].
  intros ch c Hd Hc Hcw Hp. apply (Hgrants ch c); [|done..]. eapply denied_or_granted; [done..|]. set_solver.
Qed.

Section admission.
Context `{ResumeCodec}.
Variable conversation : N -> option (N * N).
Variable stored_cursor : str -> N -> Z.
Variable log : Log.

Lemma settle_cursor_world consumer f after w a w' : settle_cursor stored_cursor log consumer f after w = (Ok a, w') -> w' = w.
Proof.
  unfold settle_cursor. intros Hr. apply rbind_Ok_inv in Hr as (a1 & w1 & Ha & Hr).
  assert (w1 = w) as ->. { destruct consumer; [req_step Ha|]; by apply rret_Ok in Ha as [_ ->]. }
  req_step Hr. by apply rret_Ok in Hr as [_ ->].
Qed.

(** What the steps the two paths share make sure of. *)
Lemma admitted_Ok auth f w f1 w1 f2 f3 w3 :
  ac_bypass auth = false ->
  expand_event_filter conversation f auth w = (Ok f1, w1) -> bind_to_caller_workspace f1 auth = Ok f2 ->
  apply_subscribe_grants auth f2 w1 = (Ok f3, w3) ->
  w3 = w /\ forall e, matches f3 e = true ->
    Event.workspace_id e = Some (ac_workspace auth)
    /\ (forall t, f_thread f3 = Some t -> Event.thread_id e = Some t /\ ensure_thread_access auth t w = (Ok tt, w))
    /\ forall ch c, Event.channel_id e = Some ch -> channels (db w) !! ch = Some c ->
         c_ws c = ac_workspace auth -> c_private c = true -> may_hear (db w) auth f3 ch c.
Proof.
  intros Hb [-> Hacc]%expand_Ok Hbind Happly; [|done]. apply bind_workspace_Ok in Hbind as ->; [|done].
  apply (apply_grants_Ok _ _ (ac_workspace auth)) in Happly as (-> & (deny & allow & ->) & Hhear); [|done..].
  split; [done|]. intros e Hm. unfold matches in Hm. rewrite !andb_true_iff in Hm.
  destruct Hm as [[[[[[[Hws _] Hch] Hadm] Hth] _] _] _]. cbn [f_workspace f_thread with_access with_workspace pins] in *.
  apply bool_decide_eq_true in Hws. split_and!; [done| |].
  - intros t Ht. split; [|by apply Hacc]. rewrite Ht in Hth. by apply bool_decide_eq_true in Hth.
  - intros ch c He Hc Hcw Hp. unfold channel_admitted in Hadm. rewrite He in Hadm.
    apply andb_true_iff in Hadm as [Hd%negb_true_iff%bool_decide_eq_false _]. by apply (Hhear ch c).
Qed.

(** C9: a subscription hears only what its caller may. Whatever a caller without
    bypass asks for, over the socket or the server-sent stream, with a resume
    token or without one: if it is admitted, nothing was written, every event
    its filter matches is of the caller's own workspace; if it names a thread
    (itself or by a conversation), the caller may read that thread and hears it
    alone; and an event of a channel that was private is heard only by a member of that
    channel or, when it is the channel of direct messages, by who asserted a
    grant on it or named a conversation. *)
Theorem subscription_confined auth_disabled secret now sub q auth w req w' :
  ac_bypass auth = false ->
  read_subscribe conversation stored_cursor log auth_disabled secret now sub auth w = (Ok req, w')
    \/ mcp_stream conversation stored_cursor log secret now q auth w = (Ok req, w') ->
  w' = w /\ forall e, matches (sr_filter req) e = true ->
    Event.workspace_id e = Some (ac_workspace auth)
    /\ (forall t, f_thread (sr_filter req) = Some t ->
          Event.thread_id e = Some t /\ ensure_thread_access auth t w = (Ok tt, w))
    /\ forall ch c, Event.channel_id e = Some ch -> channels (db w) !! ch = Some c ->
         c_ws c = ac_workspace auth -> c_private c = true -> may_hear (db w) auth (sr_filter req) ch c.
Proof.
  intros Hb [Hr|Hr].
  - unfold read_subscribe in Hr. req_step Hr. destruct a as [f after]. cbn iota beta in Hr.
    req_step Hr. apply rbind_Ok_inv in Hr as (u & w1 & Hcap & Hr).
    assert (w1 = w0) as -> by (destruct auth_disabled; [by apply rret_Ok in Hcap as [_ ->]|by apply check_Ok in Hcap as [_ ->]]).
    req_step Hr. req_step Hr. destruct (admitted_Ok _ _ _ _ _ _ _ _ Hb E H1 E0) as [-> Hall].
    req_step Hr. apply settle_cursor_world in E1 as ->.
    req_step Hr. assert (w1 = w) as ->.
    { destruct (sf_member_id sub); [destruct (_ && _); [done|]|]; by apply rret_Ok in E1 as [_ ->]. }
    req_step Hr. assert (w1 = w) as -> by (destruct (_ && _); [done|by apply rret_Ok in E2 as [_ ->]]).
    apply rret_Ok in Hr as [-> ->]. by split.
  - unfold mcp_stream in Hr. req_step Hr. req_step Hr. destruct a0 as [[f after] from]. cbn iota beta in Hr.
    req_step Hr. req_step Hr. req_step Hr. destruct (admitted_Ok _ _ _ _ _ _ _ _ Hb E H2 E0) as [-> Hall].
    req_step Hr. apply settle_cursor_world in E1 as ->. apply rret_Ok in Hr as [-> ->]. by split.
Qed.
End admission.

(** ** Resume tokens *)

(** What the other crates promise of the text of a payload and of a MAC. *)
Class ResumeLaws `{ResumeCodec} : Prop := {
  payload_reads p json : payload_to_vec p = Some json ->
    payload_from_slice json = Some {| rp_filter := travels (rp_filter p); rp_after_id := rp_after_id p; rp_exp := rp_exp p |};
  payload_object p json : payload_to_vec p = Some json -> json <> [];
  b64_reads p json : payload_to_vec p = Some json -> b64url_decode (as_bytes (b64url_encode json)) = Some json;
  b64_alphabet json : 46%N ∉ b64url_encode json;
  b64_length json : length json <= 3 * (byte_len (b64url_encode json)) /\ byte_len (b64url_encode json) <= (length json + 2) / 3 * 4;
  mac_length secret m : length (hmac_sha256 secret m) = 32;
  hex_reads secret m : hex_bytes (hex_text (hmac_sha256 secret m)) = Some (hmac_sha256 secret m);
  hex_length bytes : byte_len (hex_text bytes) = 2 * length bytes
}.

(** A token is checked by its MAC before anything of it is read. *)
Lemma verified_is_signed `{ResumeCodec} token secret now f after :
  verify_resume_token token secret now = Ok (f, after) ->
  exists encoded mac_hex, token = encoded ++ 46%N :: mac_hex
    /\ hex_bytes mac_hex = Some (mac_for_payload (as_bytes encoded) secret) /\ (0 <= after)%Z.
Proof.
  unfold verify_resume_token. destruct (bool_decide _); [done|].
  destruct (split_once 46 token) as [[encoded mac_hex]|] eqn:Es; [|done]. apply split_once_sound in Es as ->.
  destruct (_ <? _)%nat; [done|]. destruct (_ || _); [done|]. destruct (hex_bytes mac_hex) as [actual|] eqn:Eh; [|done].
  destruct (negb _ || negb _) eqn:Em; [done|]. apply orb_false_iff in Em as [_ Em%negb_false_iff%bool_decide_eq_true].
  destruct (b64url_decode _) as [json|]; [|done]. destruct (_ <? _)%nat; [done|].
  destruct (payload_from_slice json) as [p|]; [|done]. destruct (_ <? _)%Z; [done|].
  destruct (rp_after_id p <? 0)%Z eqn:Ea; [done|]. intros [= <- <-]. exists encoded, mac_hex. subst.
  split_and!; [done..|]. apply Z.ltb_ge, Ea.
Qed.

(** C39: a resume token round trips until it expires. A token that was signed for
    a filter and a cursor verifies, with the same secret, to that cursor and to the filter as it
    travels (without the sets that are filled in at subscribe time), at any time up to its
    expiry, and is expired after it; and any text that verifies carries the MAC of its payload under the secret, and a cursor that
    is not negative. *)
Theorem resume_token_roundtrip `{ResumeLaws} filter after_id secret ttl now token :
  sign_resume_token filter after_id secret ttl now = Ok token ->
  (forall now', verify_resume_token token secret now'
     = if (saturating_add now (Z.min ttl I64_MAX) <? now')%Z then Err Expired else Ok (travels filter, after_id))
  /\ forall text now' f a, verify_resume_token text secret now' = Ok (f, a) ->
       exists encoded mac_hex, text = encoded ++ 46%N :: mac_hex
         /\ hex_bytes mac_hex = Some (mac_for_payload (as_bytes encoded) secret) /\ (0 <= a)%Z.
Proof.
  intros Hs. split; [|intros text now' f a; apply verified_is_signed]. intros now'.
  unfold sign_resume_token in Hs. destruct (bool_decide (secret = [])) eqn:Hsec; [done|].
  destruct (after_id <? 0)%Z eqn:Ha; [done|]. set (exp := saturating_add now _) in Hs.
  replace (saturating_add now (Z.min ttl I64_MAX)) with exp.
  2:{ unfold exp. f_equal. destruct (ttl <=? I64_MAX)%Z eqn:E; lia. }
  set (p := {| rp_filter := filter; rp_after_id := after_id; rp_exp := exp |}) in Hs.
  destruct (payload_to_vec p) as [json|] eqn:Ep; [|done]. destruct (_ <? _)%nat eqn:El; [done|]. injection Hs as <-.
  unfold verify_resume_token. rewrite Hsec, split_once_first by apply b64_alphabet.
  apply Nat.ltb_ge in El. pose proof (b64_length json) as [Hlo Hhi].
  rewrite (proj2 (Nat.ltb_ge _ _)).
  2:{ etrans; [exact Hhi|]. unfold MAX_ENCODED_PAYLOAD_BYTES. apply Nat.mul_le_mono_r, Nat.Div0.div_le_mono. lia. }
  assert (b64url_encode json <> []) as Hne.
  { intros He. rewrite He in Hlo. pose proof (payload_object _ _ Ep). destruct json; [done|]. simpl in Hlo. lia. }
  rewrite bool_decide_false by done. unfold mac_for_payload. rewrite hex_length, mac_length. cbn [orb negb Nat.eqb Nat.mul Nat.add MAC_HEX_LEN].
  rewrite hex_reads, !mac_length, bool_decide_true by done. cbn [orb negb Nat.eqb].
  rewrite (b64_reads _ _ Ep), (proj2 (Nat.ltb_ge _ _)), (payload_reads _ _ Ep) by done. cbn [rp_exp rp_after_id rp_filter p].
  by rewrite Ha.
Qed.

(** ** Samples *)

Module SubscribeSample.
Import Sample.
(** A payload of a workspace filter is its numbers; a MAC is one value. *)
Definition small (n : N) : bool := (n <? 46)%N.
#[global] Instance resume_codec : ResumeCodec := {|
  payload_to_vec p :=
    match rp_filter p with
    | Build_EventFilter (Some ws) None None None None None None _ _ =>
        if small ws && small (Z.to_N (rp_after_id p)) && small (Z.to_N (rp_exp p))
           && (0 <=? rp_after_id p)%Z && (0 <=? rp_exp p)%Z
        then Some [ws; Z.to_N (rp_after_id p); Z.to_N (rp_exp p)] else None
    | _ => None
    end;
  payload_from_slice json :=
    match json with
    | [ws; a; e] => Some {| rp_filter := workspace ws; rp_after_id := Z.of_N a; rp_exp := Z.of_N e |}
    | _ => None
    end;
  b64url_encode json := (fun b => if small b then b else 0%N) <$> json;
  b64url_decode := Some;
  hmac_sha256 _ _ := replicate 32 7%N;
  hex_text bytes := replicate (2 * length bytes) 48%N;
  hex_bytes _ := Some (replicate 32 7%N)
|}.

Lemma payload_shape p json :
  payload_to_vec p = Some json ->
  exists ws a e deny allow, json = [ws; a; e]
    /\ p = {| rp_filter := with_access deny allow (workspace ws); rp_after_id := Z.of_N a; rp_exp := Z.of_N e |}
    /\ small ws = true /\ small a = true /\ small e = true.
Proof.
  destruct p as [[ws ch th dm m k g deny allow] a e]. simpl.
  destruct ws as [ws|], ch, th, dm, m, k, g; try done. destruct (_ && _) eqn:E; [|done]. intros [= <-].
  rewrite !andb_true_iff, !Z.leb_le in E. destruct E as [[[[? ?] ?] ?] ?].
  exists ws, (Z.to_N a), (Z.to_N e), deny, allow. by rewrite !Z2N.id.
Qed.

Lemma encode_ascii json : Forall (fun c => (c < 46)%N) (b64url_encode json).
Proof.
  simpl. induction json as [|b json IH]; constructor; [|done]. unfold small. destruct (b <? 46)%N eqn:E; [|lia].
  by apply N.ltb_lt.
Qed.
Lemma encode_bytes json : as_bytes (b64url_encode json) = b64url_encode json.
Proof. apply as_bytes_ascii. eapply Forall_impl; [apply encode_ascii|]. simpl. intros. lia. Qed.

#[global] Instance resume_laws : ResumeLaws.
Proof.
  split.
  - intros p json (ws & a & e & deny & allow & -> & -> & _)%payload_shape. done.
  - intros p json (ws & a & e & deny & allow & -> & _)%payload_shape. done.
  - intros p json (ws & a & e & deny & allow & -> & _ & Hw & Ha & He)%payload_shape.
    rewrite encode_bytes. simpl. by rewrite Hw, Ha, He.
  - intros json Hin. pose proof (encode_ascii json) as Hall. rewrite Forall_forall in Hall. specialize (Hall _ Hin). simpl in Hall. lia.
  - intros json. unfold byte_len. rewrite encode_bytes. unfold b64url_encode, resume_codec. rewrite length_fmap.
    pose proof (Nat.div_mod_eq (length json + 2) 3). pose proof (Nat.mod_upper_bound (length json + 2) 3). lia.
  - done.
  - done.
  - intros bytes. unfold byte_len. simpl hex_text. rewrite as_bytes_ascii; [by rewrite length_replicate|].
    apply Forall_replicate. lia.
Qed.

Lemma resume_token_roundtrip_witness :
  exists token, sign_resume_token (workspace 1) 9 [1%N] 30 10 = Ok token
    /\ verify_resume_token token [1%N] 40 = Ok (workspace 1, 9%Z) /\ verify_resume_token token [1%N] 41 = Err Expired.
Proof.
  destruct (sign_resume_token (workspace 1) 9 [1%N] 30 10) as [token|e] eqn:Es; [|vm_compute in Es; discriminate].
  exists token. split; [reflexivity|]. destruct (resume_token_roundtrip (workspace 1) 9 [1%N] 30 10 token Es) as [Hv _].
  split; rewrite Hv; vm_compute; reflexivity.
Defined.

(** A workspace with a public channel 10, a private one 11 that member 5 is in,
    and the channel 12 of direct messages, with a conversation of 5 and 6 as
    thread 103. *)
Definition room (name : str) (private : bool) : ChannelRow :=
  {| c_ws := 1; c_name := name; c_topic := None; c_private := private; c_created := start; c_updated := start;
     c_tombstoned := None |}.
Definition in_channel (ch : N) : ThreadRow :=
  {| t_channel := ch; t_parent := None; t_title := None; t_description := None; t_state := Fsm.Open;
     t_created := start; t_updated := start; t_tombstoned := None;
     t_assignee := None; t_expires := None; t_lease := None; t_claimed := None; t_started := None;
     t_owner := None; t_created_by := None; t_unacknowledged := None |}.
Definition upd_channels : (gmap N ChannelRow -> gmap N ChannelRow) -> Db -> Db := ltac:(field_setter eta_Db channels).
Definition upd_channel_members : (gset (N * N) -> gset (N * N)) -> Db -> Db := ltac:(field_setter eta_Db channel_members).
Definition upd_dm_conversations : (gmap N (N * N) -> gmap N (N * N)) -> Db -> Db :=
  ltac:(field_setter eta_Db dm_conversations).
Definition mixed : World :=
  {| db := upd_channels (fun cs => <[11%N := room (lit "secret") true]> (<[12%N := room DM_CHANNEL_NAME true]> cs))
             (upd_channel_members (fun _ => {[(11%N, 5%N)]})
                (upd_dm_conversations (fun _ => {[103%N := (5%N, 6%N)]})
                   (upd_threads (fun ts => <[103%N := in_channel 12]> (<[104%N := in_channel 11]> ts)) tables)));
     ticks := 0; ids := 50 |}.
Definition conversations (id : N) : option (N * N) := if (id =? 60)%N then Some (1%N, 103%N) else None.

(** Member 7 is in neither. *)
Definition caller (m : N) : AuthContext := from_token 30 m 1 [EVENT_SUBSCRIBE].
Definition asks (grants : option (list N)) (dm : option N) : SubscribeFrame :=
  {| sf_resume_token := None;
     sf_filter := {| f_workspace := None; f_channel := None; f_thread := None; f_dm := dm; f_member := None;
                     f_kinds := None; f_grants := grants; f_deny := ∅; f_allow := None |};
     sf_after_id := 0; sf_consumer_id := None; sf_member_id := None; sf_at_least_once := false; sf_lean := false |}.
Definition subscribes (m : N) (grants : option (list N)) (dm : option N) : Req SubscribeReject SubscribeRequest :=
  read_subscribe conversations (fun _ _ => 0%Z) empty_log false None 0 (asks grants dm) (caller m).
Definition hears (m : N) (grants : option (list N)) (dm : option N) (e : Event) : option bool :=
  match (subscribes m grants dm mixed).1 with Ok req => Some (matches (sr_filter req) e) | Err _ => None end.
Definition posted (ch t : N) (dm : option N) : Event := Event.MessagePosted 0 1 ch t dm (Object []).

Lemma subscription_confined_witness :
  exists req, subscribes 5 (Some [11%N]) None mixed = (Ok req, mixed) /\ matches (sr_filter req) (posted 11 104 None) = true
    /\ may_hear (db mixed) (caller 5) (sr_filter req) 11 (room (lit "secret") true).
Proof.
  destruct (subscribes 5 (Some [11%N]) None mixed) as [[req|e] w'] eqn:Es; [|vm_compute in Es; discriminate].
  assert (matches (sr_filter req) (posted 11 104 None) = true) as Hm.
  { assert (hears 5 (Some [11%N]) None (posted 11 104 None) = Some true) as Hh by (vm_compute; reflexivity).
    unfold hears in Hh. rewrite Es in Hh. injection Hh as Hh. exact Hh. }
  destruct (subscription_confined conversations (fun _ _ => 0%Z) empty_log false None 0 (asks (Some [11%N]) None)
              {| mq_workspace_id := None; mq_after_id := 0; mq_resume_token := None; mq_consumer_id := None; mq_dm := None;
                 mq_channel_grants := []; mq_channel_id := None; mq_thread_id := None; mq_member_id := None; mq_kinds := None;
                 mq_at_least_once := false; mq_lean := false |}
              (caller 5) mixed req w' eq_refl (or_introl Es)) as [Hw Hall].
  exists req. split; [by rewrite Hw|]. split; [exact Hm|]. destruct (Hall _ Hm) as (_ & _ & Hh). apply (Hh 11%N); reflexivity.
Defined.

(** An outsider that names the conversation is refused, but one that asserts a
    grant on the channel of direct messages hears every conversation of the workspace. *)
Lemma dm_grant_hears_every_dm :
  hears 7 None (Some 60%N) (posted 12 103 (Some 60%N)) = None
  /\ (ensure_thread_access (caller 7) 103 mixed).1 = Err (Forbidden NotDmParticipant)
  /\ hears 7 (Some [12%N]) None (posted 12 103 (Some 60%N)) = Some true.
Proof. split_and!; by vm_compute. Qed.

(** The denied channels are those of the moment: a private channel made later
    (here 13) is heard by every subscription that asserted no grants. And a
    mention or a reaction in a private channel's thread names no channel. *)
Lemma later_private_channel_is_heard :
  hears 7 None None (posted 11 104 None) = Some false
  /\ hears 7 None None (posted 13 105 None) = Some true
  /\ hears 7 None None (Event.MentionRecorded 0 1 104 5 (Object [])) = Some true.
Proof. split_and!; by vm_compute. Qed.
End SubscribeSample.
