(* ===== verification/Agui.v ===== *)
(** * The AG-UI door

    [crates/maidan-server/src/agui.rs] (an event as AG-UI events: a thread is a
    run), [agui_stream.rs] (replay, the live stream, and the check of each event
    against what the caller may read) and
    [crates/maidan-store/src/lag_resume.rs] (a consumer that lagged reads the
    log).

    The fields of an event's payload that the mapping reads are given by the
    class [AguiRead]; the tables at a check are given by the number of the check. *)

From stdpp Require Import strings gmap.
From S2P Require Import Prelude Text Json EventChain EventLog Fsm Seal Db Auth Claimability Closing Access Events Broadcast Delivery.

(** ** Events as AG-UI events ([agui.rs]) *)

Inductive ContentBlock :=
| CText (text : str)
| CCode (language : option str) (code : str)
| CToolUse (id name : str) (input : Value)
| CToolResult (tool_use_id content : str) (is_error : bool)
| CResourceLink (uri : str) (mime_type title : option str).

Record Message := { am_id : str; am_body : str; am_content : option (list ContentBlock) }.

Inductive AgUiEvent :=
| RunStarted (thread_id run_id : str)
| RunFinished (thread_id run_id : str)
| RunError (message : str) (code : option str)
| StepStarted (step_name : str)
| StepFinished (step_name : str)
| TextMessageStart (message_id role : str)
| TextMessageContent (message_id delta : str)
| TextMessageEnd (message_id : str)
| ToolCallStart (tool_call_id tool_call_name : str) (parent_message_id : option str)
| ToolCallArgs (tool_call_id delta : str)
| ToolCallEnd (tool_call_id : str)
| ToolCallResult (message_id tool_call_id content : str)
| Custom (name : str) (value : Value).

Class AguiRead := {
  uuid_text : N -> str;
  value_text : Value -> str;
  read_to_state : Value -> ThreadState;
  read_reason : Value -> str;
  read_message : Value -> Message;
  read_repo : Value -> Value;
  read_pr_number : Value -> Value
}.

Section mapping.
Context `{AguiRead}.

Definition block_events (mid : str) (block : ContentBlock) : list AgUiEvent :=
  match block with
  | CToolUse id name input =>
      [ToolCallStart id name (Some mid); ToolCallArgs id (value_text input); ToolCallEnd id]
  | CToolResult tool_use_id content _ => [ToolCallResult mid tool_use_id content]
  | _ => []
  end.

Definition message_events (m : Message) : list AgUiEvent :=
  let mid := am_id m in
  [TextMessageStart mid (lit "assistant")]
  ++ (if bool_decide (am_body m = []) then [] else [TextMessageContent mid (am_body m)])
  ++ [TextMessageEnd mid]
  ++ match am_content m with Some blocks => blocks ≫= block_events mid | None => [] end.

Definition agui_events_for (e : Event) : list AgUiEvent :=
  match e with
  | Event.ThreadCreated _ _ _ thread _ => let tid := uuid_text thread in [RunStarted tid tid]
  | Event.ThreadStateChanged _ _ _ thread _ rest =>
      let tid := uuid_text thread in
      let to_state := read_to_state rest in
      if is_terminal to_state then [RunFinished tid tid] else [StepStarted (lit "state:" ++ state_as_str to_state)]
  | Event.ClaimFailed _ _ _ _ _ rest =>
      [RunError (lit "run stopped: budget (" ++ read_reason rest ++ lit ") exceeded") (Some (lit "budget_exceeded"))]
  | Event.MessagePosted _ _ _ _ _ rest => message_events (read_message rest)
  | Event.ThreadLanded _ _ _ thread rest =>
      [Custom (lit "landed")
         (Object [(lit "threadId", Str (uuid_text thread)); (lit "repo", read_repo rest);
                  (lit "prNumber", read_pr_number rest)])]
  | _ => []
  end.
End mapping.

(** ** Lag resume ([lag_resume.rs]) *)

Definition LAG_RESUME_BATCH : Z := 256.

(** The stream of a consumer: the frames taken with the id they carry, and the
    counts of frames tried, reads made and events checked. *)
Record Door := { frames : list (Z * AgUiEvent); sends : nat; page_reads : nat; checks : nat }.

Section door.
Context `{JsonText, SealEnv, EventCodec, AguiRead, StreamEnv}.
(** The tables at a check. *)
Variable world_at : nat -> World.
Variable auth : AuthContext.
Variable filter : EventFilter.

Definition door_read (d : Door) : Door :=
  {| frames := frames d; sends := sends d; page_reads := S (page_reads d); checks := checks d |}.

(** [resume_from_log], over any handler of a page. *)
Fixpoint resume_from_log (fuel : nat) (on_page : list StoredEvent -> Door -> Door) (after_id : Z) (d : Door) :
    option (result StoreError Z * Door) :=
  match fuel with
  | O => None
  | S fuel =>
      let n := page_reads d in
      let d := door_read d in
      match read_fails n with
      | Some e => Some (Err e, d)
      | None =>
          match list_after_global (log_at n) after_id LAG_RESUME_BATCH with
          | [] => Some (Ok after_id, d)
          | page =>
              let short := (Z.of_nat (length page) <? LAG_RESUME_BATCH)%Z in
              let after_id := default after_id (e_id <$> last page) in
              let d := on_page (join_key n <$> page) d in
              if short then Some (Ok after_id, d) else resume_from_log fuel on_page after_id d
          end
      end
  end.

(** ** The stream ([agui_stream.rs]) *)

Definition event_visible (e : Event) (w : World) : bool :=
  match Event.thread_id e with
  | Some t => match (can_access_thread auth t w).1 with Ok b => b | Err _ => false end
  | None =>
      match Event.channel_id e with
      | Some c => match (can_access_channel auth c w).1 with Ok b => b | Err _ => false end
      | None => true
      end
  end.

Definition check_visible (e : Event) (d : Door) : bool * Door :=
  (event_visible e (world_at (checks d)),
   {| frames := frames d; sends := sends d; page_reads := page_reads d; checks := S (checks d) |}).

(** A frame offered to the socket's task. *)
Definition offer (d : Door) : bool * Door :=
  (send_ok (sends d), {| frames := frames d; sends := S (sends d); page_reads := page_reads d; checks := checks d |}).

(** [send_agui]: whether the receiver is still there. *)
Fixpoint send_frames (id : Z) (es : list AgUiEvent) (d : Door) : bool * Door :=
  match es with
  | [] => (true, d)
  | e :: es =>
      let '(ok, d) := offer d in
      if ok
      then send_frames id es
             {| frames := frames d ++ [(id, e)]; sends := sends d; page_reads := page_reads d; checks := checks d |}
      else (false, d)
  end.
Definition send_agui (id : Z) (e : Event) (d : Door) : bool * Door := send_frames id (agui_events_for e) d.

(** The loop of [replay_agui]. *)
Fixpoint replay_page (rows : list StoredEvent) (high : Z) (d : Door) : Z * Door :=
  match rows with
  | [] => (high, d)
  | row :: rows =>
      match from_stored row with
      | Err _ => replay_page rows high d
      | Ok env =>
          if negb (matches_envelope filter env) then replay_page rows high d
          else
            let '(seen, d) := check_visible (event env) d in
            if negb seen then replay_page rows high d
            else
              let '(there, d) := send_agui (log_id env) (event env) d in
              if there then replay_page rows (Z.max high (log_id env)) d else (high, d)
      end
  end.
Definition replay_agui (after_id : Z) (d : Door) : result StoreError Z * Door :=
  match f_workspace filter with
  | None => (Ok after_id, d)
  | Some ws =>
      let n := page_reads d in
      let d := door_read d in
      match read_fails n with
      | Some e => (Err e, d)
      | None =>
          let '(high, d) := replay_page (join_key n <$> list_after (log_at n) ws after_id REPLAY_LIMIT) after_id d in
          (Ok high, d)
      end
  end.

(** The handler of a page after a lag: what is at or below the mark is skipped,
    the rest is checked and sent until the receiver is gone. *)
Fixpoint lag_page (high_water : Z) (page : list StoredEvent) (d : Door) : Door :=
  match page with
  | [] => d
  | row :: page =>
      if (e_id (stored_row row) <=? high_water)%Z then lag_page high_water page d
      else
        match from_stored row with
        | Err _ => lag_page high_water page d
        | Ok env =>
            let '(seen, d) := check_visible (event env) d in
            if negb seen then lag_page high_water page d
            else
              let '(there, d) := send_agui (log_id env) (event env) d in
              if there then lag_page high_water page d else d
        end
  end.

(** [forward_agui]; [None] when [fuel] pages were not enough for a resume. *)
Fixpoint forward_agui (fuel : nat) (items : list BusItem) (high_water : Z) (d : Door) : option Door :=
  match items with
  | [] => Some d
  | BusEvent env :: items =>
      if (log_id env <=? high_water)%Z then forward_agui fuel items high_water d
      else
        let high_water := Z.max high_water (log_id env) in
        let '(seen, d) := check_visible (event env) d in
        if negb seen then forward_agui fuel items high_water d
        else
          let '(there, d) := send_agui (log_id env) (event env) d in
          if there then forward_agui fuel items high_water d else Some d
  | BusLagged _ :: items =>
      '(r, d) ← resume_from_log fuel (lag_page high_water) high_water d;
      let high_water := match r with Ok hw => Z.max high_water hw | Err _ => high_water end in
      let '(ok, d) := offer d in
      if ok then forward_agui fuel items high_water d else Some d
  end.

(** The body of the stream's task. *)
Definition agui_task (fuel : nat) (after_id : Z) (items : list BusItem) (d : Door) : option Door :=
  let '(high_water, d) :=
    if (0 <? after_id)%Z then
      match replay_agui after_id d with (Ok hw, d) => (hw, d) | (Err _, d) => (after_id, d) end
    else (after_id, d) in
  forward_agui fuel items high_water d.
End door.
