(* ===== verification/AguiLaws.v ===== *)
(** * What the AG-UI door shows

    Every frame is of a thread that the caller could read when it was checked,
    frames come in the order of the log, and a lag is answered from the log in
    bounded work. *)

From stdpp Require Import strings gmap.
From S2P Require Import Prelude Text Json EventChain EventLog Fsm Seal Db Auth Claimability Access Events Broadcast Delivery FloorLaws DeliveryLaws Samples Subscribe SubscribeLaws Agui.

(** Only events of a thread have frames. *)
Lemma frames_have_thread `{AguiRead} e f : f ∈ agui_events_for e -> is_Some (Event.thread_id e).
Proof. destruct e; simpl; try (intros Hf; by apply not_elem_of_nil in Hf); eauto. Qed.

Section door.
Context `{JsonText, SealEnv, EventCodec, AguiRead, StreamEnv}.
Variable world_at : nat -> World.
Variable auth : AuthContext.
Variable filter : EventFilter.
Hypothesis log_sorted : forall n, id_sorted (rows (log_at n)).
Hypothesis key_joins : forall n r, stored_row (join_key n r) = r.
(** A receiver that is gone stays gone. *)
Hypothesis gone_stays : forall n, send_ok n = false -> send_ok (S n) = false.
(** The id the stream resumes after. *)
Variable base : Z.

(** The events the stream reads: what the bus hands it, and what the rows of the
    log it pages through hold. *)
Variable source : BusEnvelope -> Prop.
Hypothesis log_source : forall n r env, r ∈ rows (log_at n) -> from_stored (join_key n r) = Ok env -> source env.

(** A frame with its id is of the event of that id, and the event's own thread was
    found readable by one of the first [n] checks. *)
Definition checked (n : nat) (x : Z * AgUiEvent) : Prop :=
  exists env t i, source env /\ log_id env = x.1 /\ x.2 ∈ agui_events_for (event env)
    /\ Event.thread_id (event env) = Some t /\ i < n /\ (can_access_thread auth t (world_at i)).1 = Ok true.

(** No read fails: what keeps the order, as a lag whose reads fail half way has
    sent what it does not remember. *)
Definition reads_succeed : Prop := forall n, read_fails n = None.

(** The frames so far: readable and, while reads succeed, above [base], in order
    and none above [w]. *)
Record shown (w : Z) (d : Door) : Prop := {
  sh_checked : forall x, x ∈ frames d -> checked (checks d) x;
  sh_sorted : reads_succeed -> StronglySorted Z.le (frames d).*1;
  sh_range : reads_succeed -> forall x, x ∈ frames d -> (base < x.1 <= w)%Z
}.

Lemma shown_weaken w w' d : shown w d -> (w <= w')%Z -> shown w' d.
Proof. intros [Hc Hs Hr] Hw. split; [done..|]. intros Hq x Hx. specialize (Hr Hq x Hx). lia. Qed.

Lemma checked_later n m x : n <= m -> checked n x -> checked m x.
Proof. intros Hnm (e & t & i & He & Hl & Hf & Ht & Hi & Ha). exists e, t, i. split_and!; [done..|lia|done]. Qed.

(** What the counters and reads do not touch. *)
Lemma shown_frames w d d' : frames d' = frames d -> checks d <= checks d' -> shown w d -> shown w d'.
Proof.
  intros Hf Hc [Hch Hs Hr]. split; rewrite Hf; [|done..]. intros x Hx. eapply checked_later; [done|]. by apply Hch.
Qed.

Lemma sorted_le_snoc l x : StronglySorted Z.le l -> (forall y, y ∈ l -> (y <= x)%Z) -> StronglySorted Z.le (l ++ [x]).
Proof.
  induction 1 as [|a l _ IH Hall]; simpl; intros Hx; [repeat constructor|]. constructor.
  - apply IH. intros y Hy. apply Hx. set_solver.
  - rewrite Forall_forall in Hall. apply Forall_forall. intros y [Hy|Hy]%elem_of_app; [by apply Hall|].
    apply list_elem_of_singleton in Hy as ->. apply Hx. set_solver.
Qed.

Lemma send_frames_shown id es d there d' :
  (base < id)%Z -> (forall f, f ∈ es -> checked (checks d) (id, f)) -> shown id d -> send_frames id es d = (there, d') ->
  shown id d' /\ checks d' = checks d.
Proof.
  intros Hb. revert d. induction es as [|f es IH]; intros d Hes Hsh; simpl; [by intros [= _ <-]|].
  destruct (send_ok (sends d)).
  2:{ intros [= _ <-]. split; [|done]. by eapply shown_frames; [..|exact Hsh]. }
  intros Hs. apply IH in Hs as [Hs' Hc]; [by split| |].
  - intros f' Hf'. apply Hes. set_solver.
  - destruct Hsh as [Hch Hso Hr]. split; simpl.
    + intros x [Hx|Hx]%elem_of_app; [by apply Hch|]. apply list_elem_of_singleton in Hx as ->. apply Hes. set_solver.
    + intros Hq. rewrite fmap_app. apply sorted_le_snoc; [by apply Hso|]. intros y (x & -> & Hx)%list_elem_of_fmap.
      by apply Hr.
    + intros Hq x [Hx|Hx]%elem_of_app; [by apply Hr|]. apply list_elem_of_singleton in Hx as ->. simpl. lia.
Qed.

(** A failed send means that the receiver is gone; nothing is taken from then on. *)
Definition gone (d : Door) : Prop := send_ok (sends d) = false.

Lemma send_frames_gone id es d there d' :
  send_frames id es d = (there, d') -> (there = false -> gone d') /\ (gone d -> gone d' /\ frames d' = frames d /\ checks d' = checks d).
Proof.
  unfold gone. revert d. induction es as [|f es IH]; intros d; simpl; [by intros [= <- <-]|].
  destruct (send_ok (sends d)) eqn:Eo.
  - intros Hs. apply IH in Hs as [Hf Hg]. split; [done|]. congruence.
  - intros [= <- <-]. simpl. auto.
Qed.

(** Shown up to the mark, or final. *)
Definition calm (w : Z) (d : Door) : Prop := exists w2, shown w2 d /\ ((w2 <= w)%Z \/ gone d).

Lemma calm_weaken w w' d : calm w d -> (w <= w')%Z -> calm w' d.
Proof. intros (w2 & Hs & Hw) Hle. exists w2. split; [done|]. destruct Hw; [left; lia|by right]. Qed.

Lemma door_calm_same w d d' :
  frames d' = frames d -> checks d <= checks d' -> (gone d -> gone d') -> calm w d -> calm w d'.
Proof. intros Hf Hc Hg (w2 & Hs & Hw). exists w2. split; [by eapply shown_frames|]. destruct Hw; auto. Qed.

(** An event above the mark, checked and sent. *)
Lemma send_agui_shown w env d seen d1 there d2 :
  source env -> shown w d -> (w < log_id env)%Z -> (base <= w)%Z -> check_visible world_at auth (event env) d = (seen, d1) ->
  seen = true -> send_agui (log_id env) (event env) d1 = (there, d2) -> shown (log_id env) d2.
Proof.
  intros Hsrc Hsh Hw Hb. unfold check_visible. intros [= Hseen <-] ->. intros Hs.
  eapply send_frames_shown in Hs as [Hs _]; [done|lia| |].
  - intros f Hf. destruct (frames_have_thread (event env) f Hf) as [t Ht]. exists env, t, (checks d). split_and!; [done..|simpl; lia|].
    unfold event_visible in Hseen. rewrite Ht in Hseen. destruct (can_access_thread auth t (world_at (checks d))).1; by subst.
  - eapply shown_weaken; [eapply (shown_frames _ d); [done|simpl; lia|done]|lia].
Qed.

Lemma unseen_shown w e d seen d1 : shown w d -> check_visible world_at auth e d = (seen, d1) -> shown w d1.
Proof. intros Hsh [= _ <-]. eapply (shown_frames _ d); [done|simpl; lia|done]. Qed.

Lemma ids_skip (r : StoredEvent) rs w :
  StronglySorted Z.lt (w :: (e_id ∘ stored_row <$> r :: rs)) ->
  (w < e_id (stored_row r))%Z /\ StronglySorted Z.lt (w :: (e_id ∘ stored_row <$> rs))
  /\ StronglySorted Z.lt (e_id (stored_row r) :: (e_id ∘ stored_row <$> rs)).
Proof.
  intros Hs. apply StronglySorted_inv in Hs as [Hs Hall]. rewrite Forall_forall in Hall. split; [apply Hall; set_solver|].
  split; [|done]. apply StronglySorted_inv in Hs as [Hs _]. constructor; [done|]. apply Forall_forall.
  intros y Hy. apply Hall. set_solver.
Qed.

Lemma check_calm w e d seen d1 : calm w d -> check_visible world_at auth e d = (seen, d1) -> calm w d1.
Proof. intros Hc [= _ <-]. eapply (door_calm_same _ d); [done|simpl; lia|done|done]. Qed.

Lemma send_agui_calm w env d seen d1 there d2 :
  source env -> calm w d -> (w < log_id env)%Z -> (base <= w)%Z -> check_visible world_at auth (event env) d = (seen, d1) ->
  seen = true -> send_agui (log_id env) (event env) d1 = (there, d2) -> calm (if there then log_id env else w) d2.
Proof.
  intros Hsrc (w2 & Hsh & Hw2) Hw Hb Hc Hseen Hs. destruct (send_frames_gone _ _ _ _ _ Hs) as [Hfail Hgone].
  destruct Hw2 as [Hw2|Hg].
  - exists (log_id env). split; [|destruct there; [left; lia|right; by apply Hfail]].
    eapply (send_agui_shown w); [done|by eapply shown_weaken|done..].
  - assert (gone d1) as Hg1 by (by injection Hc as _ <-). destruct (Hgone Hg1) as (Hg2 & Hf & Hch).
    exists w2. split; [|by right]. eapply (shown_frames _ d1); [done|lia|]. by eapply unseen_shown.
Qed.

(** The rows of a page of the log, with their keys. *)
Definition from_log (rs : list StoredEvent) : Prop := forall r env, r ∈ rs -> from_stored r = Ok env -> source env.

Lemma from_log_cons r rs : from_log (r :: rs) -> (forall env, from_stored r = Ok env -> source env) /\ from_log rs.
Proof. intros Hr. split; [intros env; apply Hr, list_elem_of_here|]. intros r' env Hr'. by apply Hr, list_elem_of_further. Qed.

Lemma from_log_page n page : page ⊆ rows (log_at n) -> from_log (join_key n <$> page).
Proof. intros Hp r env (r' & -> & Hr)%list_elem_of_fmap. by apply log_source, Hp. Qed.

Lemma replay_page_calm rs w d w' d' :
  from_log rs ->
  StronglySorted Z.lt (w :: (e_id ∘ stored_row <$> rs)) -> (base <= w)%Z -> calm w d ->
  replay_page world_at auth filter rs w d = (w', d') -> (w <= w')%Z /\ calm w' d'.
Proof.
  intros Hlog. revert w d Hlog. induction rs as [|r rs IH]; intros w d Hlog Hs Hb Hc; cbn [replay_page]; [by intros [= <- <-]|].
  apply from_log_cons in Hlog as [Hsrc Hlog].
  apply ids_skip in Hs as (Hlt & Hskip & Hnext).
  destruct (from_stored r) as [env|] eqn:Eo; [|by apply IH]. specialize (Hsrc env eq_refl). apply from_stored_id in Eo.
  destruct (negb (matches_envelope _ _)); [by apply IH|].
  destruct (check_visible world_at auth (event env) d) as [seen d1] eqn:Ec.
  destruct seen; simpl; [|apply IH; [done..|by eapply check_calm]].
  destruct (send_agui (log_id env) (event env) d1) as [there d2] eqn:Es.
  assert (calm (if there then log_id env else w) d2) as Hc2 by (eapply (send_agui_calm w env); [done|done|lia|done|done|done|done]).
  destruct there; [|by intros [= <- <-]]. replace (Z.max w (log_id env)) with (log_id env) by lia.
  intros Hr. apply IH in Hr as [? ?]; [split; [lia|done]|done|by rewrite Eo|lia|done].
Qed.

Lemma replay_calm after d r d' :
  (base <= after)%Z -> calm after d -> replay_agui world_at auth filter after d = (r, d') ->
  match r with Ok hw => (after <= hw)%Z /\ calm hw d' | Err _ => calm after d' end.
Proof.
  intros Hb Hc. unfold replay_agui. destruct (f_workspace filter) as [ws|]; [|by intros [= <- <-]].
  assert (calm after (door_read d)) as Hc1 by (by eapply (door_calm_same _ d); [..|exact Hc]).
  destruct (read_fails (page_reads d)); [by intros [= <- <-]|].
  destruct (replay_page _ _ _ _ _ _) as [high d1] eqn:Er. intros [= <- <-].
  eapply replay_page_calm; [|by apply list_after_sorted|done..]. apply from_log_page.
  intros r Hr. apply sql_limit_in, list_elem_of_In, List.filter_In in Hr as [Hr _]. apply List.filter_In in Hr as [Hr _]. by apply list_elem_of_In.
Qed.

Lemma lag_page_calm hw w page d :
  from_log page ->
  StronglySorted Z.lt (w :: (e_id ∘ stored_row <$> page)) -> (base <= w)%Z -> calm w d ->
  calm (default w (e_id ∘ stored_row <$> last page)) (lag_page world_at auth hw page d).
Proof.
  intros Hlog. revert w d Hlog. induction page as [|r page IH]; intros w d Hlog Hs Hb Hc; cbn [lag_page]; [done|].
  apply from_log_cons in Hlog as [Hsrc Hlog].
  apply ids_skip in Hs as (Hlt & _ & Hnext).
  assert (default w (e_id ∘ stored_row <$> last (r :: page))
          = default (e_id (stored_row r)) (e_id ∘ stored_row <$> last page)) as ->.
  { rewrite last_cons. by destruct (last page). }
  assert (forall d1, calm w d1 -> calm (default (e_id (stored_row r)) (e_id ∘ stored_row <$> last page))
            (lag_page world_at auth hw page d1)) as Hgo.
  { intros d1 Hd1. apply IH; [done..|lia|]. eapply calm_weaken; [done|lia]. }
  destruct (_ <=? _)%Z; [by apply Hgo|]. destruct (from_stored r) as [env|] eqn:Eo; [|by apply Hgo].
  specialize (Hsrc env eq_refl). apply from_stored_id in Eo. destruct (check_visible world_at auth (event env) d) as [seen d1] eqn:Ec.
  destruct seen; simpl; [|apply Hgo; by eapply check_calm].
  destruct (send_agui (log_id env) (event env) d1) as [there d2] eqn:Es.
  assert (calm (if there then log_id env else w) d2) as Hc2 by (eapply (send_agui_calm w env); [done|done|lia|done|done|done|done]).
  destruct there; [apply IH; [done..|lia|by rewrite <- Eo]|].
  eapply calm_weaken; [done|]. destruct (last page) as [x|] eqn:El; simpl; [|lia].
  apply StronglySorted_inv in Hnext as [_ Hall]. rewrite Forall_forall in Hall.
  assert (e_id (stored_row r) < e_id (stored_row x))%Z; [|lia]. apply Hall. rewrite last_lookup in El.
  apply list_elem_of_lookup_2 in El. apply list_elem_of_fmap. by exists x.
Qed.

(** ** A lag *)

Lemma resume_S fuel on_page after d :
  resume_from_log (S fuel) on_page after d
  = let n := page_reads d in
    let page := list_after_global (log_at n) after LAG_RESUME_BATCH in
    match read_fails n with
    | Some e => Some (Err e, door_read d)
    | None =>
        if decide (page = []) then Some (Ok after, door_read d)
        else
          let after := default after (e_id <$> last page) in
          let d := on_page (join_key n <$> page) (door_read d) in
          if (Z.of_nat (length page) <? LAG_RESUME_BATCH)%Z then Some (Ok after, d) else resume_from_log fuel on_page after d
    end.
Proof. cbn [resume_from_log]. destruct (read_fails _); [done|]. by destruct (list_after_global _ _ _). Qed.

Lemma page_last_id n (page : list EventRow) after :
  default after (e_id ∘ stored_row <$> last (join_key n <$> page)) = default after (e_id <$> last page).
Proof. rewrite fmap_last. destruct (last page); simpl; [by rewrite key_joins|done]. Qed.

(** A page moves the cursor up. *)
Lemma page_moves n after :
  let page := list_after_global (log_at n) after LAG_RESUME_BATCH in
  page <> [] -> exists r, last page = Some r /\ r ∈ rows (log_at n) /\ (after < e_id r)%Z.
Proof.
  intros page Hne. destruct (last page) as [r|] eqn:El; [|by apply last_None in El]. exists r. split; [done|].
  rewrite last_lookup in El. apply list_elem_of_lookup_2, sql_limit_in, list_elem_of_In, List.filter_In in El as [Hin Hlt%Z.ltb_lt].
  by rewrite list_elem_of_In.
Qed.

Lemma resume_calm fuel hw after d r d' :
  (base <= after)%Z -> calm after d -> resume_from_log fuel (lag_page world_at auth hw) after d = Some (r, d') ->
  match r with
  | Ok hw' => (after <= hw')%Z /\ calm hw' d'
  | Err _ => (exists w, calm w d') /\ ~ reads_succeed
  end.
Proof.
  revert after d. induction fuel as [|fuel IH]; intros after d Hb Hc; [done|]. rewrite resume_S. cbn zeta.
  assert (calm after (door_read d)) as Hc1 by (by eapply (door_calm_same _ d); [..|exact Hc]).
  destruct (read_fails (page_reads d)) as [e|] eqn:Ef.
  { intros [= <- <-]. split; [eauto|]. intros Hq. specialize (Hq (page_reads d)). congruence. }
  destruct (decide _) as [Hnil|Hne]; [by intros [= <- <-]|].
  set (page := list_after_global _ _ _) in *. destruct (page_moves _ _ Hne) as (x & Hx & _ & Hlt).
  assert (calm (default after (e_id <$> last page))
            (lag_page world_at auth hw (join_key (page_reads d) <$> page) (door_read d))) as Hc2.
  { rewrite <- (page_last_id (page_reads d)). apply lag_page_calm; [|by apply list_after_global_sorted|done..]. apply from_log_page.
    intros r' Hr. apply sql_limit_in, list_elem_of_In, List.filter_In in Hr as [Hr _]. by apply list_elem_of_In. }
  fold page in Hx. rewrite Hx in *. simpl in *. destruct (_ <? _)%Z.
  - intros [= <- <-]. split; [lia|done].
  - intros Hr. apply IH in Hr; [|lia|done]. destruct r as [hw'|e]; [|done]. destruct Hr. split; [lia|done].
Qed.

Lemma resume_total fuel on_page after d top :
  (forall n r, r ∈ rows (log_at n) -> (e_id r <= top)%Z) -> (Z.to_nat (top - after) < fuel)%nat ->
  is_Some (resume_from_log fuel on_page after d).
Proof.
  intros Htop. revert after d. induction fuel as [|fuel IH]; intros after d Hf; [lia|]. rewrite resume_S. cbn zeta.
  destruct (read_fails _); [eauto|]. destruct (decide _) as [|Hne]; [eauto|].
  destruct (page_moves _ _ Hne) as (x & Hx & Hin & Hlt). rewrite Hx. simpl. destruct (_ <? _)%Z; [eauto|].
  apply IH. specialize (Htop _ _ Hin). lia.
Qed.

Lemma forward_calm fuel items w d d' :
  (forall env, BusEvent env ∈ items -> source env) ->
  (base <= w)%Z -> calm w d -> forward_agui world_at auth fuel items w d = Some d' -> exists w', calm w' d'.
Proof.
  revert w d. induction items as [|i items IH]; intros w d Hsrc; [intros _ Hc [= <-]; eauto|].
  assert (forall env, BusEvent env ∈ items -> source env) as Hrest by (intros; by apply Hsrc, list_elem_of_further).
  specialize (fun w d => IH w d Hrest). destruct i as [env|k]; intros Hb Hc; cbn [forward_agui].
  - destruct (log_id env <=? w)%Z eqn:Ew; [by apply IH|]. apply Z.leb_gt in Ew. rewrite Z.max_r by lia.
    destruct (check_visible world_at auth (event env) d) as [seen d1] eqn:Ec.
    destruct seen; simpl. 2:{ apply IH; [lia|]. eapply calm_weaken; [by eapply check_calm|lia]. }
    destruct (send_agui (log_id env) (event env) d1) as [there d2] eqn:Es.
    assert (calm (if there then log_id env else w) d2) as Hc2 by (eapply (send_agui_calm w env); [by apply Hsrc, list_elem_of_here|done..]).
    destruct there; [apply IH; [lia|done]|intros [= <-]; eauto].
  - destruct (resume_from_log fuel _ w d) as [[r d1]|] eqn:Er; [|done]. simpl.
    apply resume_calm in Er; [|done..].
    assert (exists w1, (w <= w1)%Z /\ calm w1 d1 /\ match r with Ok hw => Z.max w hw | Err _ => w end = w1) as (w1 & Hw1 & Hc1 & ->).
    { destruct r as [hw|e]; [destruct Er; exists hw; split_and!; [done..|lia]|]. exists w. split_and!; [lia| |done].
      destruct Er as [(w2 & w3 & [Hch _ _] & _) Hno]. exists w. split; [|left; lia]. by split. }
    assert (calm w1 (offer d1).2) as Hc2 by (eapply (door_calm_same _ d1); [done|done|apply gone_stays|done]).
    simpl. destruct (send_ok (sends d1)); [apply IH; [lia|done]|intros [= <-]; eauto].
Qed.

Lemma forward_total fuel items w d top :
  (forall n r, r ∈ rows (log_at n) -> (e_id r <= top)%Z) -> (base <= w)%Z -> (Z.to_nat (top - base) < fuel)%nat ->
  is_Some (forward_agui world_at auth fuel items w d).
Proof.
  intros Htop Hb Hf. revert w d Hb. induction items as [|[env|k] items IH]; intros w d Hb; cbn [forward_agui]; [eauto|..].
  - destruct (log_id env <=? w)%Z; [by apply IH|]. destruct (check_visible _ _ _ _) as [[] d1]; simpl; [|apply IH; lia].
    destruct (send_agui _ _ _) as [[] d2]; [apply IH; lia|eauto].
  - destruct (resume_total fuel (lag_page world_at auth w) w d top Htop) as [[r d1] Hr]; [lia|]. rewrite Hr. simpl.
    destruct (send_ok _); [|eauto]. apply IH. destruct r; lia.
Qed.
End door.

Section task.
Context `{JsonText, SealEnv, EventCodec, AguiRead, StreamEnv}.
Variable world_at : nat -> World.
Variable auth : AuthContext.
Variable filter : EventFilter.
Hypothesis log_sorted : forall n, id_sorted (rows (log_at n)).
Hypothesis key_joins : forall n r, stored_row (join_key n r) = r.
Hypothesis gone_stays : forall n, send_ok n = false -> send_ok (S n) = false.

(** C37: the AG-UI door shows only what may be read, in order. Run the stream from
    any id over any bus items, with lags, failing reads and a receiver that may go:
    it ends with bounded pages; each frame it sent carries the id of an event that
    the bus handed over or a row of the log holds, is one of the frames of that very
    event, and the event's own thread was readable by the caller at a check made
    while the stream ran; and when no read fails, the frames carry ids above the one
    the stream resumed after, in the order of the log. *)
Theorem agui_shows_readable_in_order fuel after_id items top d :
  frames d = [] -> (forall n r, r ∈ rows (log_at n) -> (e_id r <= top)%Z) -> (Z.to_nat (top - after_id) < fuel)%nat ->
  exists d', agui_task world_at auth filter fuel after_id items d = Some d'
    /\ (forall x, x ∈ frames d' -> exists env t i,
         (BusEvent env ∈ items \/ exists n r, r ∈ rows (log_at n) /\ from_stored (join_key n r) = Ok env)
         /\ log_id env = x.1 /\ x.2 ∈ agui_events_for (event env) /\ Event.thread_id (event env) = Some t
         /\ i < checks d' /\ (can_access_thread auth t (world_at i)).1 = Ok true)
    /\ ((forall n, read_fails n = None) ->
         StronglySorted Z.le (frames d').*1 /\ forall x, x ∈ frames d' -> (after_id < x.1)%Z).
Proof.
  intros Hnil Htop Hfuel. unfold agui_task.
  set (source := fun env => BusEvent env ∈ items \/ exists n r, r ∈ rows (log_at n) /\ from_stored (join_key n r) = Ok env).
  assert (forall n r env, r ∈ rows (log_at n) -> from_stored (join_key n r) = Ok env -> source env) as Hlog by (right; eauto).
  assert (forall env, BusEvent env ∈ items -> source env) as Hbus by (by left).
  assert (calm world_at auth after_id source after_id d) as Hc.
  { exists after_id. split; [|by left]. split; rewrite Hnil; [set_solver|constructor|set_solver]. }
  assert (exists hw d1, (if (0 <? after_id)%Z
            then match replay_agui world_at auth filter after_id d with (Ok hw, d) => (hw, d) | (Err _, d) => (after_id, d) end
            else (after_id, d)) = (hw, d1) /\ (after_id <= hw)%Z /\ calm world_at auth after_id source hw d1) as (hw & d1 & -> & Hhw & Hc1).
  { destruct (0 <? after_id)%Z; [|by exists after_id, d].
    destruct (replay_agui world_at auth filter after_id d) as [r d1] eqn:Er.
    eapply replay_calm in Er; [|done..]. destruct r as [hw|e]; [by destruct Er; exists hw, d1|by exists after_id, d1]. }
  destruct (forward_total world_at auth after_id fuel items hw d1 top Htop Hhw Hfuel) as [d' Hd']. exists d'.
  split; [done|]. eapply forward_calm in Hd' as (w' & w2 & [Hch Hso Hr] & _); [|done..].
  split; [done|]. intros Hq. split; [by apply Hso|]. intros x Hx. by apply Hr.
Qed.
End task.

(** ** Samples *)

Module AguiSample.
Import Sample FloorSample SubscribeSample.
(** A payload names its thread; each event is of a landed thread. *)
#[local] Instance landed_codec : EventCodec := {|
  decode_event v :=
    match value_get (lit "t") v with Some (Num (Int t)) => Some (Event.ThreadLanded 0 1 10 (Z.to_N t) v) | _ => None end;
  decode_attribution := fun _ => None
|}.
#[local] Instance agui_read : AguiRead := {|
  uuid_text n := [n]; value_text _ := []; read_to_state _ := Fsm.Open; read_reason _ := [];
  read_message _ := {| am_id := []; am_body := []; am_content := None |}; read_repo _ := Null; read_pr_number _ := Null
|}.
Definition row (id t : Z) : EventRow :=
  {| e_id := id; e_kind := lit "thread_landed"; e_ws := Some 1%N; e_channel := Some 10%N; e_thread := Some (Z.to_N t);
     e_payload := Object [(lit "t", Num (Int t))]; e_occurred := 0; e_inserted := 0; e_prev := []; e_content := [] |}.
(** The table, and which reads fail. *)
Definition calm_env (rs : list EventRow) (fails : nat -> bool) : StreamEnv := {|
  log_at := fun _ => {| rows := rs; seq := Z.of_nat (length rs) |};
  join_key := fun _ r => {| stored_row := r; stored_key := None; stored_trace := None |};
  read_fails := fun n => if fails n then Some Database else None; now_at := fun _ => 0%Z;
  send_ok := fun _ => true; advance_ok := fun _ => true; flush_due := fun _ => false
|}.
Definition opened : Door := {| frames := []; sends := 0; page_reads := 0; checks := 0 |}.
Definition of_thread (t : N) : EventFilter := with_scope None (Some t) (workspace 1).
Definition live (id t : Z) : BusItem :=
  BusEvent {| log_id := id; event := Event.ThreadLanded 0 1 10 (Z.to_N t) (Object []); attribution := None; trace := None |}.
Definition ids_of (d : option Door) : option (list Z) := (fun d => (frames d).*1) <$> d.

(** A stream narrowed to thread 100: its replay is, a lag is answered with the
    events of other threads too. *)
Lemma lag_ignores_the_filter :
  let _ := calm_env [row 1 100; row 2 101; row 3 100; row 4 101] (fun _ => false) in
  ids_of (agui_task (fun _ => mixed) (caller 7) (of_thread 100) 9 1 [] opened) = Some [3%Z]
  /\ ids_of (agui_task (fun _ => mixed) (caller 7) (of_thread 100) 9 1 [BusLagged 1] opened) = Some [3; 4]%Z
  /\ ids_of (agui_task (fun _ => mixed) (caller 7) (of_thread 100) 9 0 [BusLagged 1] opened) = Some [1; 2; 3; 4]%Z.
Proof. split_and!; by vm_compute. Qed.

(** A replay stops at the limit and the stream goes on live: the rows between
    are not sent, and nothing says so. *)
Lemma replay_leaves_a_gap :
  let _ := calm_env ((fun n => row (Z.of_nat n) 100) <$> List.seq 1 503) (fun _ => false) in
  (fun ids => (length ids, drop 498 ids))
    <$> ids_of (agui_task (fun _ => mixed) (caller 7) (of_thread 100) 9 1 [live 504 100] opened)
  = Some (501, [500; 501; 504]%Z).
Proof. by vm_compute. Qed.

(** A resume that fails on its second page has sent the first and does not say
    so: a live event of that page is sent again, behind later ids. *)
Lemma failed_resume_sends_again :
  let _ := calm_env ((fun n => row (Z.of_nat n) 100) <$> List.seq 1 300) (fun n => (n =? 1)%nat) in
  (fun ids => drop 254 ids)
    <$> ids_of (agui_task (fun _ => mixed) (caller 7) (of_thread 100) 9 0 [BusLagged 1; live 7 100] opened)
  = Some [255; 256; 7]%Z.
Proof. by vm_compute. Qed.

#[local] Instance two_env : StreamEnv := calm_env [row 1 100; row 2 101] (fun _ => false).

Lemma two_sorted n : id_sorted (rows (log_at n)).
Proof. repeat constructor; simpl; lia. Qed.

Lemma agui_shows_readable_in_order_witness :
  exists d', agui_task (fun _ => mixed) (caller 7) (of_thread 100) 9 0 [BusLagged 1; live 5 100] opened = Some d'
    /\ (frames d').*1 = [1; 2; 5]%Z /\ StronglySorted Z.le (frames d').*1
    /\ forall x, x ∈ frames d' -> exists env t, log_id env = x.1 /\ x.2 ∈ agui_events_for (event env)
         /\ Event.thread_id (event env) = Some t /\ (can_access_thread (caller 7) t mixed).1 = Ok true.
Proof.
  destruct (agui_shows_readable_in_order (fun _ => mixed) (caller 7) (of_thread 100) two_sorted (fun _ _ => eq_refl)
              (fun _ H => H) 9 0 [BusLagged 1; live 5 100] 2 opened eq_refl) as (d' & Hd & Hread & Hord).
  - intros n r Hr. simpl in Hr. set_solver by lia.
  - simpl. lia.
  - exists d'. split_and!; [exact Hd| |apply Hord; intros n; reflexivity|].
    + assert (ids_of (agui_task (fun _ => mixed) (caller 7) (of_thread 100) 9 0 [BusLagged 1; live 5 100] opened) = Some [1; 2; 5]%Z)
        as Hids by (vm_compute; reflexivity).
      rewrite Hd in Hids. by injection Hids.
    + intros x Hx. destruct (Hread x Hx) as (env & t & i & _ & Hl & Hf & Ht & _ & Ha). by exists env, t.
Defined.
End AguiSample.
