(* ===== verification/Keys.v ===== *)
(** * Content keys

    [crates/maidan-types/src/content_seal.rs] from [Kek] to [ContentKeyring],
    [crates/maidan-store/src/content_keys.rs] and
    [crates/maidan-store/src/sqlite/content_keys.rs]: the hierarchy of keys that
    seals the words of messages. A data key per message is wrapped by its
    workspace's key, which a custody wraps: the instance's own keys, or a service.
    A message is erased by destroying its data key; a workspace key is rotated by
    retiring it, moving its data keys under the new one, and destroying it when
    no live data key is left.

    The random draws, the clock and the calls to a custody are numbered. *)

From stdpp Require Import strings gmap.
From S2P Require Import Prelude Text Json EventChain EventLog Seal.

(** ** Wrapping ([Kek]) *)

Definition WRAP_DOMAIN : list N := lit "maidan.content-key.wrap/1".
Definition KEK_ID_DOMAIN : list N := lit "maidan.content-kek.id/1".
Definition WORKSPACE_WRAP_DOMAIN : list N := lit "maidan.workspace-key.wrap/1".
Definition WORKSPACE_KEK_PREFIX : str := lit "w:".
Definition KEY_LEN : nat := 32.
(** Seconds. *)
Definition WORKSPACE_KEY_TTL : Z := 300.

(** Draws, by their number. *)
Class KeyEnv := {
  fresh_key : nat -> list N;
  fresh_nonce : nat -> list N;
  fresh_uuid : nat -> N;
  now_at_ : nat -> Z;
  uuid_text : N -> str
}.

Record WrappedKey := { w_kek : str; w_blob : list N }.
#[export] Instance WrappedKey_eq_dec : EqDecision WrappedKey.
Proof. solve_decision. Defined.

Record Kek := { kek_id : str; kek_key : list N }.

Section kek.
Context `{Sha256, SealEnv, KeyEnv}.

Definition kek_new (key : list N) : Kek :=
  {| kek_id := hex_encode (take 8 (digest (KEK_ID_DOMAIN ++ key))); kek_key := key |}.

Definition kek_seal (k : Kek) (n : nat) (aad key : list N) : result SealError (list N) :=
  let nonce := fresh_nonce n in
  match encrypt (kek_key k) nonce aad key with
  | None => Err Authentication
  | Some ciphertext => Ok (nonce ++ ciphertext)
  end.

Definition kek_open (k : Kek) (aad blob : list N) : result SealError (list N) :=
  if (length blob <=? NONCE_LEN)%nat then Err Malformed
  else
    match decrypt (kek_key k) (take NONCE_LEN blob) aad (drop NONCE_LEN blob) with
    | None => Err Authentication
    | Some bytes => if (length bytes =? KEY_LEN)%nat then Ok bytes else Err Malformed
    end.

Definition workspace_kek_id (id : N) : str := WORKSPACE_KEK_PREFIX ++ uuid_text id.
Definition parse_workspace_kek_id (kid : str) : option N :=
  rest ← strip_prefix WORKSPACE_KEK_PREFIX kid; uuid_parse rest.

Definition workspace_wrap_aad (id : N) : list N := WORKSPACE_WRAP_DOMAIN ++ [0%N] ++ uuid_bytes id.
Definition wrap_aad (subject : N) : list N := WRAP_DOMAIN ++ [0%N] ++ uuid_bytes subject.

(** ** Custodies *)

(** [WorkspaceKeyCustody]: who wraps workspace keys; calls are numbered. *)
Class WorkspaceKeyCustody (C : Type) := {
  custody_name : C -> str;
  (** Whether an id matches [current_wrapping_like]. *)
  is_current : C -> str -> bool;
  owns : C -> str -> bool;
  wrap_key : C -> nat -> N -> list N -> result SealError WrappedKey;
  unwrap_key : C -> nat -> N -> WrappedKey -> result SealError (list N);
  destroy_key : C -> nat -> N -> WrappedKey -> result SealError unit;
  creates_keys : C -> bool
}.

Record LocalCustody := { primary : Kek; previous : list Kek }.
Definition local_new (primary_key : list N) (previous_keys : list (list N)) : LocalCustody :=
  {| primary := kek_new primary_key; previous := kek_new <$> previous_keys |}.

(** [LocalCustody::kek]. *)
Definition local_kek (l : LocalCustody) (kid : str) : result SealError Kek :=
  match List.find (fun k => bool_decide (kek_id k = kid)) (primary l :: previous l) with
  | Some k => Ok k
  | None => Err (UnknownKek kid)
  end.

Definition local_seal (l : LocalCustody) (n : nat) (id : N) (key : list N) : result SealError WrappedKey :=
  match kek_seal (primary l) n (workspace_wrap_aad id) key with
  | Ok blob => Ok {| w_kek := kek_id (primary l); w_blob := blob |}
  | Err e => Err e
  end.
Definition local_open (l : LocalCustody) (id : N) (w : WrappedKey) : result SealError (list N) :=
  match local_kek l (w_kek w) with
  | Ok k => kek_open k (workspace_wrap_aad id) (w_blob w)
  | Err e => Err e
  end.

#[export] Instance local_custody : WorkspaceKeyCustody LocalCustody := {|
  custody_name _ := lit "local";
  is_current l kid := bool_decide (kid = kek_id (primary l));
  owns l kid := match local_kek l kid with Ok _ => true | Err _ => false end;
  wrap_key := local_seal;
  unwrap_key l _ := local_open l;
  destroy_key _ _ _ _ := Ok tt;
  creates_keys _ := false
|}.
End kek.

(** ** The tables and the keyring *)

Record ContentKeyRow := {
  ck_ws : N; ck_kek : option str; ck_wrapped : option (list N); ck_wk : option N; ck_created : Z; ck_shredded : option Z
}.
Record WorkspaceKeyRow := {
  wk_ws : N; wk_custody : str; wk_wrapping : option str; wk_wrapped : option (list N); wk_retired : option Z;
  wk_destroyed : option Z
}.
Record OpenWorkspaceKey := { ow_key : list N; ow_wrapped : WrappedKey; ow_opened_at : Z }.
Record PendingWrap := { pw_wrapping : option str; pw_intended : Z }.

(** The tables, the keys open in memory, the journal of wraps, and the number of
    the next draw. *)
Record Keys := {
  content_keys : gmap N ContentKeyRow;
  workspace_keys : gmap N WorkspaceKeyRow;
  open_keys : gmap N OpenWorkspaceKey;
  pending : gmap N PendingWrap;
  draws : nat
}.

(** [BadRow]: a column that a row must have is empty. *)
Inductive KeyError := SealFailed (e : SealError) | NeedsWorkspaceKey | NoKeyring | BadRow.

(** Operations on them. *)
Definition K (A : Type) : Type := Keys -> result KeyError A * Keys.
Definition kret {A} (a : A) : K A := fun s => (Ok a, s).
Definition kfail {A} (e : KeyError) : K A := fun s => (Err e, s).
Definition kbind {A B} (m : K A) (f : A -> K B) : K B :=
  fun s => match m s with (Ok a, s') => f a s' | (Err e, s') => (Err e, s') end.
Declare Scope key_scope.
Delimit Scope key_scope with keys.
Notation "x <- m ;; k" := (kbind m (fun x => k)) (at level 100, m at next level, right associativity) : key_scope.
Notation "m ;; k" := (kbind m (fun _ => k)) (at level 100, right associativity) : key_scope.
Local Open Scope key_scope.

Definition get {A} (f : Keys -> A) : K A := fun s => (Ok (f s), s).
Definition put (f : Keys -> Keys) : K unit := fun s => (Ok tt, f s).
Definition draw : K nat := fun s =>
  (Ok (draws s), {| content_keys := content_keys s; workspace_keys := workspace_keys s; open_keys := open_keys s;
                    pending := pending s; draws := S (draws s) |}).
Definition sealed {A} (r : result SealError A) : K A := match r with Ok a => kret a | Err e => kfail (SealFailed e) end.

Definition upd_content (f : gmap N ContentKeyRow -> gmap N ContentKeyRow) (s : Keys) : Keys :=
  {| content_keys := f (content_keys s); workspace_keys := workspace_keys s; open_keys := open_keys s;
     pending := pending s; draws := draws s |}.
Definition upd_workspace (f : gmap N WorkspaceKeyRow -> gmap N WorkspaceKeyRow) (s : Keys) : Keys :=
  {| content_keys := content_keys s; workspace_keys := f (workspace_keys s); open_keys := open_keys s;
     pending := pending s; draws := draws s |}.
Definition upd_open (f : gmap N OpenWorkspaceKey -> gmap N OpenWorkspaceKey) (s : Keys) : Keys :=
  {| content_keys := content_keys s; workspace_keys := workspace_keys s; open_keys := f (open_keys s);
     pending := pending s; draws := draws s |}.
Definition upd_pending (f : gmap N PendingWrap -> gmap N PendingWrap) (s : Keys) : Keys :=
  {| content_keys := content_keys s; workspace_keys := workspace_keys s; open_keys := open_keys s;
     pending := f (pending s); draws := draws s |}.

(** A transaction or a savepoint: an error gives the tables back, not the memory. *)
Definition atomically {A} (m : K A) : K A := fun s =>
  match m s with
  | (Ok a, s') => (Ok a, s')
  | (Err e, s') => (Err e, upd_content (fun _ => content_keys s) (upd_workspace (fun _ => workspace_keys s) s'))
  end.

(** ** The keyring ([ContentKeyring]) *)

Section keyring.
Context `{Sha256, SealEnv, KeyEnv}.
Context {C : Type} `{WorkspaceKeyCustody C}.
(** The instance's own keys, and who wraps new workspace keys. *)
Variable local : LocalCustody.
Variable custody : C.

Definition clock_reading : K Z := n <- draw ;; kret (now_at_ n).

Definition fresh_entry (now : Z) (e : OpenWorkspaceKey) : bool := (now - ow_opened_at e <? WORKSPACE_KEY_TTL)%Z.

Definition is_open (id : N) (w : WrappedKey) : K bool :=
  now <- clock_reading ;;
  get (fun s => match open_keys s !! id with
                | Some e => bool_decide (ow_wrapped e = w) && fresh_entry now e
                | None => false
                end).

Definition install (id : N) (key : list N) (w : WrappedKey) : K unit :=
  now <- clock_reading ;;
  put (upd_open (fun m => <[id := {| ow_key := key; ow_wrapped := w; ow_opened_at := now |}]>
                            (filter (fun e : N * OpenWorkspaceKey => fresh_entry now e.2 = true) m))).

Definition forget_workspace_key (id : N) : K unit := put (upd_open (delete id)).

(** [wrap_for_workspace] and [unwrap]: the entry of a workspace key wraps. *)
Definition entry_kek (id : N) (e : OpenWorkspaceKey) : Kek := {| kek_id := workspace_kek_id id; kek_key := ow_key e |}.

Definition wrap_for_workspace (id subject : N) (key : list N) : K WrappedKey :=
  entry <- get (fun s => open_keys s !! id) ;;
  match entry with
  | None => kfail (SealFailed (UnknownKek (workspace_kek_id id)))
  | Some e =>
      n <- draw ;;
      blob <- sealed (kek_seal (entry_kek id e) n (wrap_aad subject) key) ;;
      kret {| w_kek := workspace_kek_id id; w_blob := blob |}
  end.

Definition unwrap (subject : N) (w : WrappedKey) : K (list N) :=
  match parse_workspace_kek_id (w_kek w) with
  | Some id =>
      entry <- get (fun s => open_keys s !! id) ;;
      match entry with
      | None => kfail (SealFailed (UnknownKek (w_kek w)))
      | Some e => sealed (kek_open (entry_kek id e) (wrap_aad subject) (w_blob w))
      end
  | None =>
      match local_kek local (w_kek w) with
      | Ok k => sealed (kek_open k (wrap_aad subject) (w_blob w))
      | Err e => kfail (SealFailed e)
      end
  end.

(** [owner]: the configured custody, or the instance's keys. *)
Inductive Owner := OwnedByCustody | OwnedByLocal.
Definition owner (kid : str) : result SealError Owner :=
  if owns custody kid then Ok OwnedByCustody
  else if owns local kid then Ok OwnedByLocal
  else Err (UnknownKek kid).

Definition owner_unwrap (id : N) (w : WrappedKey) : K (list N) :=
  o <- sealed (owner (w_kek w)) ;;
  n <- draw ;;
  sealed (match o with OwnedByCustody => unwrap_key custody n id w | OwnedByLocal => unwrap_key local n id w end).
Definition owner_destroy (id : N) (w : WrappedKey) : K unit :=
  o <- sealed (owner (w_kek w)) ;;
  n <- draw ;;
  sealed (match o with OwnedByCustody => destroy_key custody n id w | OwnedByLocal => destroy_key local n id w end).

(** The journal in memory. *)
Definition intend (id : N) : K unit :=
  now <- clock_reading ;;
  put (upd_pending (insert id {| pw_wrapping := None; pw_intended := now |})).
Definition record (id : N) (kid : str) : K bool :=
  entry <- get (fun s => pending s !! id) ;;
  match entry with
  | Some e => put (upd_pending (insert id {| pw_wrapping := Some kid; pw_intended := pw_intended e |})) ;; kret true
  | None => kret false
  end.

Definition custody_wrap (id : N) (key : list N) : K WrappedKey :=
  n <- draw ;;
  sealed (wrap_key custody n id key).

Definition journalled_wrap (id : N) (key : list N) : K WrappedKey :=
  if negb (creates_keys custody) then custody_wrap id key
  else
    intend id ;;
    w <- custody_wrap id key ;;
    recorded <- record id (w_kek w) ;;
    if recorded : bool then kret w
    else
      n <- draw ;;
      let _ := destroy_key custody n id w in
      kfail (SealFailed Unavailable).

Definition create_workspace_key (id : N) : K WrappedKey :=
  n <- draw ;;
  let key := fresh_key n in
  w <- journalled_wrap id key ;;
  install id key w ;;
  kret w.

(** The loop over the wanted keys. *)
Fixpoint open_wanted (l : list (N * WrappedKey)) : K unit :=
  match l with
  | [] => kret tt
  | (id, w) :: l =>
      key <- owner_unwrap id w ;;
      install id key w ;;
      open_wanted l
  end.
Fixpoint collect_wanted (stored : list (N * WrappedKey)) (wanted : gmap N WrappedKey) : K (gmap N WrappedKey) :=
  match stored with
  | [] => kret wanted
  | (id, w) :: stored =>
      already <- is_open id w ;;
      collect_wanted stored (if already : bool then wanted else <[id := w]> wanted)
  end.
Definition open_workspace_keys (stored : list (N * WrappedKey)) : K unit :=
  wanted <- collect_wanted stored ∅ ;;
  open_wanted (map_to_list wanted).

Definition require_open (id : N) (w : WrappedKey) : K unit :=
  there <- is_open id w ;;
  if there : bool then kret tt else kfail (SealFailed (UnknownKek (workspace_kek_id id))).

Definition rewrap_workspace_key (id : N) (w : WrappedKey) : K WrappedKey :=
  key <- owner_unwrap id w ;;
  journalled_wrap id key.

Definition destroy_workspace_key (id : N) (w : WrappedKey) : K unit :=
  owner_destroy id w ;;
  forget_workspace_key id.

(** ** What an append does ([store/src/content_keys.rs]) *)

Inductive KeyState := Absent | Live (w : WrappedKey) | KeyShredded.
Definition from_columns (row : option (option str * option (list N))) : KeyState :=
  match row with
  | None => Absent
  | Some (Some kid, Some blob) => Live {| w_kek := kid; w_blob := blob |}
  | Some _ => KeyShredded
  end.

Inductive Write := WNothing | WInsert (w : option WrappedKey) | WShred.
(** What to write, and the key to seal with and whether it is the live one. *)
Definition Decision : Type := Write * option (list N * bool).

Definition decide_ (workspace_key : option N) (subject : N) (state : KeyState) (arrived_shredded : bool) : K Decision :=
  if arrived_shredded then
    kret (match state with Absent => WInsert None | Live _ => WShred | KeyShredded => WNothing end, None)
  else
    match state with
    | Absent =>
        match workspace_key with
        | None => kfail NeedsWorkspaceKey
        | Some wk =>
            n <- draw ;;
            let key := fresh_key n in
            w <- wrap_for_workspace wk subject key ;;
            kret (WInsert (Some w), Some (key, true))
        end
    | Live w => key <- unwrap subject w ;; kret (WNothing, Some (key, true))
    | KeyShredded => n <- draw ;; kret (WNothing, Some (fresh_key n, false))
    end.

(** The workspace key's columns joined beside a data key. *)
Definition Joined : Type := option str * option (list N).
Definition joined_workspace_key (kid : str) (j : Joined) : result SealError (option (N * WrappedKey)) :=
  match parse_workspace_kek_id kid with
  | None => Ok None
  | Some id =>
      match j with
      | (Some wrapping, Some blob) => Ok (Some (id, {| w_kek := wrapping; w_blob := blob |}))
      | _ => Err (UnknownKek kid)
      end
  end.
Definition open_joined (kid : str) (j : Joined) : K unit :=
  stored <- sealed (joined_workspace_key kid j) ;;
  match stored with Some x => open_workspace_keys [x] | None => kret tt end.
Definition require_joined (kid : str) (j : Joined) : K unit :=
  stored <- sealed (joined_workspace_key kid j) ;;
  match stored with Some (id, w) => require_open id w | None => kret tt end.
Definition unwrap_joined (subject : N) (kid : option str) (blob : option (list N)) (j : Joined) : K (option (list N)) :=
  match kid, blob with
  | Some kid, Some blob =>
      require_joined kid j ;;
      key <- unwrap subject {| w_kek := kid; w_blob := blob |} ;;
      kret (Some key)
  | _, _ => kret None
  end.

(** ** The store ([sqlite/content_keys.rs]) *)

Definition joined_of (s : Keys) (row : ContentKeyRow) : Joined :=
  match ck_wk row ≫= fun id => workspace_keys s !! id with
  | Some wk => (wk_wrapping wk, wk_wrapped wk)
  | None => (None, None)
  end.

Definition state_for_update (subject : N) : K (KeyState * Joined) :=
  get (fun s => match content_keys s !! subject with
                | Some row => (from_columns (Some (ck_kek row, ck_wrapped row)), joined_of s row)
                | None => (Absent, (None, None))
                end).

(** [WHERE workspace_id = ? AND retired_at IS NULL]. *)
Definition active_row (s : Keys) (ws : N) : option (N * WorkspaceKeyRow) :=
  List.find (fun e : N * WorkspaceKeyRow => bool_decide (wk_ws e.2 = ws) && bool_decide (wk_retired e.2 = None))
    (map_to_list (workspace_keys s)).

Definition active_workspace_key (ws : N) : K N :=
  row <- get (fun s => active_row s ws) ;;
  match row with
  | Some (id, r) =>
      match wk_wrapping r, wk_wrapped r with
      | Some kid, Some blob => open_workspace_keys [(id, {| w_kek := kid; w_blob := blob |})] ;; kret id
      | _, _ => kfail BadRow
      end
  | None =>
      n <- draw ;;
      let id := fresh_uuid n in
      w <- create_workspace_key id ;;
      put (upd_workspace (insert id {| wk_ws := ws; wk_custody := custody_name custody; wk_wrapping := Some (w_kek w);
                                       wk_wrapped := Some (w_blob w); wk_retired := None; wk_destroyed := None |})) ;;
      kret id
  end.

Definition retire (now : Z) (r : WorkspaceKeyRow) : WorkspaceKeyRow :=
  {| wk_ws := wk_ws r; wk_custody := wk_custody r; wk_wrapping := wk_wrapping r; wk_wrapped := wk_wrapped r;
     wk_retired := Some now; wk_destroyed := wk_destroyed r |}.
Definition rotate_workspace_key (ws : N) : K (option N * N) :=
  atomically
    (now <- clock_reading ;;
     retired <- get (fun s => fst <$> active_row s ws) ;;
     put (upd_workspace (fun m => (fun r => if bool_decide (wk_ws r = ws) && bool_decide (wk_retired r = None)
                                            then retire now r else r) <$> m)) ;;
     active <- active_workspace_key ws ;;
     kret (retired, active)).

Definition insert_in_tx (subject ws : N) (w : option WrappedKey) : K unit :=
  now <- clock_reading ;;
  put (upd_content (insert subject
    {| ck_ws := ws; ck_kek := w_kek <$> w; ck_wrapped := w_blob <$> w;
       ck_wk := w ≫= fun w => parse_workspace_kek_id (w_kek w); ck_created := now;
       ck_shredded := match w with None => Some now | Some _ => None end |})).

Definition shred_row (now : Z) (r : ContentKeyRow) : ContentKeyRow :=
  if decide (ck_shredded r = None) then
    {| ck_ws := ck_ws r; ck_kek := None; ck_wrapped := None; ck_wk := ck_wk r; ck_created := ck_created r;
       ck_shredded := Some now |}
  else r.
Definition shred_in_tx (subject : N) : K bool :=
  now <- clock_reading ;;
  live <- get (fun s => match content_keys s !! subject with
                        | Some r => bool_decide (ck_shredded r = None)
                        | None => false
                        end) ;;
  put (upd_content (alter (shred_row now) subject)) ;;
  kret live.

Inductive Plan := PlanNone | PlanSeal (subject ws : N) (arrived_shredded : bool) | PlanShred (subject : N).

(** What an append records beside the event. *)
Record Sealing := { content_key_id : option N; content_key : option (list N) }.
Definition no_sealing : Sealing := {| content_key_id := None; content_key := None |}.

(** [Decision::apply]: the payload is sealed; the live key is handed on. *)
Definition apply_ (subject : N) (seal_with : option (list N * bool)) (payload : Value) : K (Sealing * Value) :=
  match seal_with with
  | None => kret ({| content_key_id := Some subject; content_key := None |}, payload)
  | Some (key, live) =>
      n <- draw ;;
      out <- sealed (seal_payload (fresh_nonce n) payload key) ;;
      kret ({| content_key_id := Some subject; content_key := if live : bool then Some key else None |}, out.1)
  end.

(** [has_keyring]: words are only written with one. *)
Definition prepare_in_tx (has_keyring : bool) (plan : Plan) (payload : Value) : K (Sealing * Value) :=
  match plan with
  | PlanNone => kret (no_sealing, payload)
  | PlanShred subject => shred_in_tx subject ;; kret (no_sealing, payload)
  | PlanSeal subject ws arrived_shredded =>
      (if has_keyring then kret tt else kfail NoKeyring) ;;
      st <- state_for_update subject ;;
      let '(state, joined) := st in
      workspace_key <- (match state, arrived_shredded with
                        | Live w, _ => open_joined (w_kek w) joined ;; kret None
                        | Absent, false => id <- active_workspace_key ws ;; kret (Some id)
                        | _, _ => kret None
                        end) ;;
      decision <- decide_ workspace_key subject state arrived_shredded ;;
      let '(write, seal_with) := decision in
      (match write with
       | WNothing => kret tt
       | WInsert w => insert_in_tx subject ws w
       | WShred => shred_in_tx subject ;; kret tt
       end) ;;
      apply_ subject seal_with payload
  end.

(** A read of an event: its key, when it is live. *)
Definition read_key (subject : N) : K (option (list N)) :=
  row <- get (fun s => (fun r => (r, joined_of s r)) <$> content_keys s !! subject) ;;
  match row with
  | None => kret None
  | Some (r, joined) =>
      (match ck_kek r with
       | Some kid => match joined_workspace_key kid joined with
                     | Ok (Some x) => open_workspace_keys [x]
                     | _ => kret tt
                     end
       | None => kret tt
       end) ;;
      unwrap_joined subject (ck_kek r) (ck_wrapped r) joined
  end.

(** ** The rewrap pass *)

Record RewrapPass := { changed : Z; skipped : Z; undestroyed : Z }.
Definition no_pass : RewrapPass := {| changed := 0; skipped := 0; undestroyed := 0 |}.
Definition did_change (p : RewrapPass) : RewrapPass :=
  {| changed := changed p + 1; skipped := skipped p; undestroyed := undestroyed p |}.
Definition did_skip (p : RewrapPass) : RewrapPass :=
  {| changed := changed p; skipped := skipped p + 1; undestroyed := undestroyed p |}.
Definition did_not_destroy (p : RewrapPass) : RewrapPass :=
  {| changed := changed p; skipped := skipped p + 1; undestroyed := undestroyed p + 1 |}.

(** Rows by their ids. *)
Definition key_le {A} (a b : N * A) : Prop := (a.1 <= b.1)%N.
#[local] Instance key_le_dec {A} : RelDecision (@key_le A).
Proof. intros a b. unfold key_le. apply _. Defined.

(** [WHERE .. AND id > ? ORDER BY id LIMIT ?]. *)
Definition page {A} (m : gmap N A) (keep : A -> bool) (after : N) (limit : Z) : list (N * A) :=
  sql_limit limit
    (merge_sort key_le
       (List.filter (fun e : N * A => (after <? e.1)%N && keep e.2) (map_to_list m))).

(** The loop over pages: each starts after the last row of the one before, and a
    page that is not full is the last; [None] when [fuel] pages were not enough. *)
Fixpoint paged {X R} (rows : N -> Keys -> list (N * R)) (body : list (N * R) -> X -> K X) (limit : Z) (fuel : nat) (after : N)
    (x : X) : K (option X) :=
  match fuel with
  | O => kret None
  | S fuel =>
      l <- get (rows after) ;;
      match last l with
      | None => kret (Some x)
      | Some (last_id, _) =>
          x <- body l x ;;
          if (Z.of_nat (length l) <? limit)%Z then kret (Some x) else paged rows body limit fuel last_id x
      end
  end.

(** A savepoint whose error is counted and left behind. *)
Definition attempt {A} (m : K A) : K (result KeyError A) := fun s => let '(r, s') := atomically m s in (Ok r, s').

(** The first kind of row: a workspace key under another wrapping key. *)
Definition foreign (r : WorkspaceKeyRow) : bool :=
  bool_decide (wk_destroyed r = None)
  && match wk_wrapping r with Some kid => negb (is_current custody kid) | None => false end.
Definition rewrapped (w : WrappedKey) (r : WorkspaceKeyRow) : WorkspaceKeyRow :=
  {| wk_ws := wk_ws r; wk_custody := custody_name custody; wk_wrapping := Some (w_kek w); wk_wrapped := Some (w_blob w);
     wk_retired := wk_retired r; wk_destroyed := wk_destroyed r |}.
Definition rewrap_row (id : N) (r : WorkspaceKeyRow) : K unit :=
  match wk_wrapping r, wk_wrapped r with
  | Some kid, Some blob =>
      w <- rewrap_workspace_key id {| w_kek := kid; w_blob := blob |} ;;
      put (upd_workspace (alter (rewrapped w) id))
  | _, _ => kfail BadRow
  end.
Fixpoint rewrap_rows (l : list (N * WorkspaceKeyRow)) (p : RewrapPass) : K RewrapPass :=
  match l with
  | [] => kret p
  | (id, r) :: l =>
      done_ <- attempt (rewrap_row id r) ;;
      rewrap_rows l (match done_ with Ok _ => did_change p | Err _ => did_skip p end)
  end.
Definition rewrap_workspace_keys (fuel : nat) (limit : Z) (p : RewrapPass) : K (option RewrapPass) :=
  paged (fun after s => page (workspace_keys s) foreign after limit) rewrap_rows limit fuel 0 p.

(** The second: a live data key under an instance key or a retired workspace key. *)
Definition misplaced (s : Keys) (r : ContentKeyRow) : bool :=
  bool_decide (ck_shredded r = None)
  && match ck_wk r with
     | None => true
     | Some id => match workspace_keys s !! id with Some wk => bool_decide (is_Some (wk_retired wk)) | None => false end
     end.
Definition moved (w : WrappedKey) (active : N) (r : ContentKeyRow) : ContentKeyRow :=
  {| ck_ws := ck_ws r; ck_kek := Some (w_kek w); ck_wrapped := Some (w_blob w); ck_wk := Some active;
     ck_created := ck_created r; ck_shredded := ck_shredded r |}.
Definition move_key (subject : N) (r : ContentKeyRow) (w : WrappedKey) : K unit :=
  key <- unwrap subject w ;;
  active <- active_workspace_key (ck_ws r) ;;
  w <- wrap_for_workspace active subject key ;;
  put (upd_content (alter (moved w active) subject)).

(** One row; the flag says that the custody refused to open its workspace key. *)
Definition move_row (subject : N) (r : ContentKeyRow) (j : Joined) : K (bool * bool) :=
  match ck_kek r, ck_wrapped r with
  | Some kid, Some blob =>
      opened <- attempt (open_joined kid j) ;;
      match opened with
      | Err e => kret (false, match e with SealFailed Refused => true | _ => false end)
      | Ok _ =>
          done_ <- attempt (move_key subject r {| w_kek := kid; w_blob := blob |}) ;;
          kret (match done_ with Ok _ => true | Err _ => false end, false)
      end
  | _, _ => kfail BadRow
  end.
Fixpoint move_rows (l : list (N * (ContentKeyRow * Joined))) (refused : gset N) (p : RewrapPass) : K (gset N * RewrapPass) :=
  match l with
  | [] => kret (refused, p)
  | (subject, (r, j)) :: l =>
      if match ck_wk r with Some id => bool_decide (id ∈ refused) | None => false end
      then move_rows l refused (did_skip p)
      else
        out <- move_row subject r j ;;
        let '(ok, open_refused) := out in
        move_rows l (match ck_wk r with Some id => if open_refused : bool then {[id]} ∪ refused else refused | None => refused end)
          (if ok : bool then did_change p else did_skip p)
  end.
Definition page_rows (limit : Z) (after : N) (s : Keys) : list (N * (ContentKeyRow * Joined)) :=
  (fun e : N * ContentKeyRow => (e.1, (e.2, joined_of s e.2))) <$> page (content_keys s) (misplaced s) after limit.
Definition move_data_keys (fuel : nat) (limit : Z) (p : RewrapPass) : K (option RewrapPass) :=
  out <- paged (page_rows limit) (fun l x => move_rows l x.1 x.2) limit fuel 0 (∅, p) ;;
  kret (snd <$> out).

(** The third: a retired workspace key that no live data key is under. *)
Definition referenced_live (s : Keys) (id : N) : bool :=
  existsb (fun e : N * ContentKeyRow => bool_decide (ck_wk e.2 = Some id) && bool_decide (ck_shredded e.2 = None))
    (map_to_list (content_keys s)).
Definition doomed (s : Keys) : gmap N WorkspaceKeyRow :=
  filter (fun e : N * WorkspaceKeyRow =>
            wk_retired e.2 <> None /\ wk_destroyed e.2 = None /\ referenced_live s e.1 = false) (workspace_keys s).
Definition mark_destroyed (now : Z) (r : WorkspaceKeyRow) : WorkspaceKeyRow :=
  if decide (wk_destroyed r = None) then
    {| wk_ws := wk_ws r; wk_custody := wk_custody r; wk_wrapping := None; wk_wrapped := None; wk_retired := wk_retired r;
       wk_destroyed := Some now |}
  else r.
(** Whether the custody would destroy it; a row without its columns has nothing
    to destroy. *)
Definition destroy_row (id : N) (r : WorkspaceKeyRow) : K bool :=
  match wk_wrapping r, wk_wrapped r with
  | Some kid, Some blob =>
      fun s => match destroy_workspace_key id {| w_kek := kid; w_blob := blob |} s with
               | (Ok _, s') => (Ok true, s')
               | (Err _, s') => (Ok false, s')
               end
  | _, _ => kret true
  end.
Fixpoint destroy_rows (l : list (N * WorkspaceKeyRow)) (p : RewrapPass) : K RewrapPass :=
  match l with
  | [] => kret p
  | (id, r) :: l =>
      destroyed <- destroy_row id r ;;
      if destroyed : bool then
        now <- clock_reading ;;
        fresh <- get (fun s => match workspace_keys s !! id with Some r => bool_decide (wk_destroyed r = None) | None => false end) ;;
        put (upd_workspace (alter (mark_destroyed now) id)) ;;
        destroy_rows l (if fresh : bool then did_change p else p)
      else destroy_rows l (did_not_destroy p)
  end.
Definition destroy_retired (fuel : nat) (limit : Z) (p : RewrapPass) : K (option RewrapPass) :=
  paged (fun after s => page (doomed s) (fun _ => true) after limit) destroy_rows limit fuel 0 p.

(** [rewrap]; [None] when [fuel] pages were not enough. *)
Definition rewrap (fuel : nat) (limit : Z) : K (option RewrapPass) :=
  p <- rewrap_workspace_keys fuel limit no_pass ;;
  match p with
  | None => kret None
  | Some p =>
      p <- move_data_keys fuel limit p ;;
      match p with
      | None => kret None
      | Some p => destroy_retired fuel limit p
      end
  end.

(** ** A store in use *)

Inductive KeyOp :=
| KPrepare (has_keyring : bool) (plan : Plan) (payload : Value)
| KRotate (ws : N)
| KRewrap (fuel : nat) (limit : Z)
| KRead (subject : N)
(** The process starts again: nothing is open. *)
| KRestart.

Definition key_op (op : KeyOp) (s : Keys) : Keys :=
  match op with
  | KPrepare has_keyring plan payload => (atomically (prepare_in_tx has_keyring plan payload) s).2
  | KRotate ws => (rotate_workspace_key ws s).2
  | KRewrap fuel limit => (rewrap fuel limit s).2
  | KRead subject => (read_key subject s).2
  | KRestart => upd_pending (fun _ => ∅) (upd_open (fun _ => ∅) s)
  end.
Definition key_ops (ops : list KeyOp) (s : Keys) : Keys := fold_left (fun s op => key_op op s) ops s.
End keyring.
