(* ===== verification/KeysLaws.v ===== *)
(** * Keys are not lost, and not found again

    Whatever the store does with its keys (sealing, shredding, rotating,
    rewrapping, reading, starting again, with a custody that refuses what it
    likes): a live data key stays the key it was, and a shredded one stays
    shredded. *)

From stdpp Require Import strings gmap.
From S2P Require Import Prelude Text Json EventChain EventLog Seal Keys.
Local Open Scope key_scope.

(** ** What is relied on *)

(** Draws of their lengths, identifiers that do not come again, a cipher that
    adds a tag. *)
Class KeyLaws `{SealLaws, KeyEnv} : Prop := {
  nonce_length n : length (fresh_nonce n) = NONCE_LEN;
  key_length n : length (fresh_key n) = KEY_LEN;
  #[export] uuid_fresh :: Inj (=) (=) fresh_uuid;
  uuid_reads id : uuid_parse (uuid_text id) = Some id;
  cipher_tag key nonce aad m c : encrypt key nonce aad m = Some c -> c <> []
}.

(** A custody gives back, when it does, what it was given: [content] is what it
    holds for a wrapped form. It owns what it wraps, under an id it calls current. *)
Class CustodyLaws (C : Type) `{WorkspaceKeyCustody C} := {
  content : C -> N -> WrappedKey -> option (list N);
  unwrap_content c n id w k : unwrap_key c n id w = Ok k -> content c id w = Some k;
  wrap_content c n id k w : length k = KEY_LEN -> wrap_key c n id k = Ok w -> content c id w = Some k /\ owns c (w_kek w) = true;
  wrap_current c n id k w : wrap_key c n id k = Ok w -> is_current c (w_kek w) = true
}.

Section laws.
Context `{Sha256, KeyLaws}.

Lemma kek_open_seal k n aad key blob :
  length key = KEY_LEN -> kek_seal k n aad key = Ok blob -> kek_open k aad blob = Ok key.
Proof.
  intros Hlen. unfold kek_seal, kek_open. destruct (encrypt _ _ _ _) as [c|] eqn:Ee; [|done]. intros [= <-].
  pose proof (cipher_tag _ _ _ _ _ Ee) as Hc. pose proof (nonce_length n) as Hn.
  rewrite (proj2 (Nat.leb_gt _ _)) by (rewrite length_app, Hn; destruct c; [done|cbn [length]; lia]).
  rewrite take_app_length', drop_app_length' by done. by rewrite (decrypt_encrypt _ _ _ _ _ Ee), Hlen.
Qed.

Lemma parse_kek_id id : parse_workspace_kek_id (workspace_kek_id id) = Some id.
Proof. unfold parse_workspace_kek_id, workspace_kek_id. simpl. apply uuid_reads. Qed.

(** The instance's own keys are a custody. *)
#[export] Instance local_laws : CustodyLaws LocalCustody.
Proof.
  refine {| content l id w := match local_open l id w with Ok k => Some k | Err _ => None end |}.
  - intros l n id w k Hu. simpl in Hu. by rewrite Hu.
  - intros l n id k w Hlen Hw. simpl in Hw. unfold local_seal in Hw.
    destruct (kek_seal _ _ _ _) as [blob|] eqn:Es; [|done]. injection Hw as <-.
    assert (local_kek l (kek_id (primary l)) = Ok (primary l)) as Hk.
    { unfold local_kek. simpl. by rewrite bool_decide_true. }
    simpl. unfold local_open. simpl. rewrite Hk. by rewrite (kek_open_seal _ _ _ _ _ Hlen Es).
  - intros l n id k w Hw. simpl in *. unfold local_seal in Hw. destruct (kek_seal _ _ _ _); [|done].
    injection Hw as <-. by apply bool_decide_eq_true.
Defined.

Context {C : Type} `{CustodyLaws C}.
Variable local : LocalCustody.
Variable custody : C.

(** What the owner of a wrapping key holds. *)
Definition ws_content (id : N) (w : WrappedKey) : option (list N) :=
  match owner local custody (w_kek w) with
  | Ok OwnedByCustody => content custody id w
  | Ok OwnedByLocal => content local id w
  | Err _ => None
  end.

(** A workspace key as a key of data keys. *)
Definition ws_kek (id : N) (key : list N) : Kek := {| kek_id := workspace_kek_id id; kek_key := key |}.

(** ** Memory: steps that leave the tables alone *)

(** [G] is each workspace key's bytes. *)
Definition opened (G : gmap N (list N)) (s : Keys) : Prop :=
  forall id e, open_keys s !! id = Some e -> G !! id = Some (ow_key e).

Definition mem {A} (G : gmap N (list N)) (m : K A) (Q : A -> Prop) : Prop :=
  forall s r s', opened G s -> m s = (r, s') ->
    content_keys s' = content_keys s /\ workspace_keys s' = workspace_keys s /\ draws s <= draws s' /\ opened G s'
    /\ forall a, r = Ok a -> Q a.

Lemma mem_ret {A} G (a : A) (Q : A -> Prop) : Q a -> mem G (kret a) Q.
Proof. intros HQ s r s' Ho [= <- <-]. split_and!; [done..|]. by intros ? [= <-]. Qed.
Lemma mem_fail {A} G e (Q : A -> Prop) : mem G (kfail e) Q.
Proof. intros s r s' Ho [= <- <-]. split_and!; done. Qed.
Lemma mem_sealed {A} G (x : result SealError A) (Q : A -> Prop) : (forall a, x = Ok a -> Q a) -> mem G (sealed x) Q.
Proof. intros HQ. destruct x; [by apply mem_ret, HQ|apply mem_fail]. Qed.
Lemma mem_draw G (Q : nat -> Prop) : (forall n, Q n) -> mem G draw Q.
Proof. intros HQ s r s' Ho [= <- <-]. simpl. split_and!; [done|done|lia|done|]. by intros ? [= <-]. Qed.
Lemma mem_get {A} G (f : Keys -> A) (Q : A -> Prop) : (forall s, opened G s -> Q (f s)) -> mem G (get f) Q.
Proof. intros HQ s r s' Ho [= <- <-]. split_and!; [done..|]. intros ? [= <-]. by apply HQ. Qed.
Lemma mem_bind {A B} G (m : K A) (f : A -> K B) (P : A -> Prop) (Q : B -> Prop) :
  mem G m P -> (forall a, P a -> mem G (f a) Q) -> mem G (kbind m f) Q.
Proof.
  intros Hm Hf s r s' Ho. unfold kbind. destruct (m s) as [[a|e] s1] eqn:Em.
  - destruct (Hm s _ s1 Ho Em) as (Hc & Hw & Hd & Ho1 & HP). intros Hr.
    destruct (Hf a (HP a eq_refl) s1 r s' Ho1 Hr) as (Hc' & Hw' & Hd' & Ho' & HQ).
    split_and!; [congruence|congruence|lia|done|done].
  - intros [= <- <-]. destruct (Hm s _ s1 Ho Em) as (Hc & Hw & Hd & Ho1 & _). by split_and!.
Qed.
Lemma mem_post {A} G (m : K A) (P Q : A -> Prop) : mem G m P -> (forall a, P a -> Q a) -> mem G m Q.
Proof. intros Hm HPQ s r s' Ho Hr. destruct (Hm s r s' Ho Hr) as (? & ? & ? & ? & HP). split_and!; [done..|]. auto. Qed.

Lemma mem_clock G : mem G clock_reading (fun _ => True).
Proof. eapply mem_bind; [by apply (mem_draw G (fun _ => True))|]. intros n _. by apply mem_ret. Qed.

Lemma mem_is_open G id w : mem G (is_open id w) (fun _ => True).
Proof. eapply mem_bind; [apply mem_clock|]. intros now _. by apply mem_get. Qed.

Lemma mem_install G id key w : G !! id = Some key -> mem G (install id key w) (fun _ => True).
Proof.
  intros HG. eapply mem_bind; [apply mem_clock|]. intros now _ s r s' Ho [= <- <-]. split_and!; [done|done|done| |done].
  intros id' e. simpl. rewrite lookup_insert_Some. intros [[<- <-]|[_ He]]; [done|].
  apply map_lookup_filter_Some in He as [He _]. by apply Ho.
Qed.

Lemma mem_forget G id : mem G (forget_workspace_key id) (fun _ => True).
Proof.
  intros s r s' Ho [= <- <-]. split_and!; [done|done|done| |done]. intros id' e. simpl.
  rewrite lookup_delete_Some. intros [_ He]. by apply Ho.
Qed.

Lemma mem_pending G f : mem G (put (upd_pending f)) (fun _ => True).
Proof. intros s r s' Ho [= <- <-]. by split_and!. Qed.

Lemma mem_wrap_for_workspace G id subject key :
  length key = KEY_LEN ->
  mem G (wrap_for_workspace id subject key)
    (fun w => w_kek w = workspace_kek_id id
              /\ exists bytes, G !! id = Some bytes /\ kek_open (ws_kek id bytes) (wrap_aad subject) (w_blob w) = Ok key).
Proof.
  intros Hlen. eapply mem_bind.
  { apply (mem_get G _ (fun o => forall e, o = Some e -> G !! id = Some (ow_key e))). intros s Ho e. apply Ho. }
  intros [e|] He; [|apply mem_fail]. eapply mem_bind; [by apply (mem_draw G (fun _ => True))|]. intros n _.
  eapply mem_bind; [apply (mem_sealed G _ (fun b => kek_open (ws_kek id (ow_key e)) (wrap_aad subject) b = Ok key)); intros b; by apply kek_open_seal|].
  intros blob Hb. apply mem_ret. split; [done|]. exists (ow_key e). auto.
Qed.

(** What a stored data key opens to. *)
Definition data_content (G : gmap N (list N)) (subject : N) (w : WrappedKey) (key : list N) : Prop :=
  match parse_workspace_kek_id (w_kek w) with
  | Some id => exists bytes, G !! id = Some bytes /\ kek_open (ws_kek id bytes) (wrap_aad subject) (w_blob w) = Ok key
  | None => exists k, local_kek local (w_kek w) = Ok k /\ kek_open k (wrap_aad subject) (w_blob w) = Ok key
  end.

Lemma mem_unwrap G subject w : mem G (unwrap local subject w) (data_content G subject w).
Proof.
  unfold unwrap, data_content. destruct (parse_workspace_kek_id (w_kek w)) as [id|].
  - eapply mem_bind.
    { apply (mem_get G _ (fun o => forall e, o = Some e -> G !! id = Some (ow_key e))). intros s Ho e. apply Ho. }
    intros [e|] He; [|apply mem_fail]. apply mem_sealed. intros key Hk. exists (ow_key e). auto.
  - destruct (local_kek local (w_kek w)) as [k|]; [|apply mem_fail]. apply mem_sealed. eauto.
Qed.

Lemma mem_owner_unwrap G id w : mem G (owner_unwrap local custody id w) (fun key => ws_content id w = Some key).
Proof.
  unfold owner_unwrap, ws_content. eapply mem_bind; [by apply (mem_sealed G _ (fun o => owner local custody (w_kek w) = Ok o))|].
  intros o Ho. eapply mem_bind; [by apply (mem_draw G (fun _ => True))|]. intros n _. rewrite Ho.
  apply mem_sealed. destruct o; intros key; apply unwrap_content.
Qed.

Lemma mem_owner_destroy G id w : mem G (owner_destroy local custody id w) (fun _ => True).
Proof.
  unfold owner_destroy. eapply mem_bind; [by apply (mem_sealed G _ (fun _ => True))|].
  intros o _. eapply mem_bind; [by apply (mem_draw G (fun _ => True))|]. intros n _. by apply mem_sealed.
Qed.

Lemma mem_journalled_wrap G id key :
  length key = KEY_LEN -> mem G (journalled_wrap custody id key) (fun w => ws_content id w = Some key /\ is_current custody (w_kek w) = true).
Proof.
  intros Hlen. assert (mem G (custody_wrap custody id key) (fun w => ws_content id w = Some key /\ is_current custody (w_kek w) = true)) as Hw.
  { eapply mem_bind; [by apply (mem_draw G (fun _ => True))|]. intros n _. apply mem_sealed. intros w Hw.
    destruct (wrap_content custody n id key w Hlen Hw) as [Hc Ho]. apply wrap_current in Hw.
    unfold ws_content, owner. by rewrite Ho. }
  unfold journalled_wrap. destruct (negb _); [done|]. eapply mem_bind.
  { eapply mem_bind; [apply mem_clock|]. intros now _. apply mem_pending. }
  intros _ _. eapply mem_bind; [exact Hw|]. intros w Hc. eapply (mem_bind G _ _ (fun _ => True)).
  { eapply mem_bind; [by apply (mem_get G _ (fun _ => True))|]. intros [e|] _; [|by apply mem_ret].
    eapply mem_bind; [apply mem_pending|]. intros _ _. by apply mem_ret. }
  intros [] _; [by apply mem_ret|]. eapply mem_bind; [by apply (mem_draw G (fun _ => True))|]. intros n _. apply mem_fail.
Qed.

(** A stored form is of the key that [G] has. *)
Definition form_of (G : gmap N (list N)) (e : N * WrappedKey) : Prop :=
  forall key, ws_content e.1 e.2 = Some key -> G !! e.1 = Some key.

Lemma mem_open_workspace_keys G stored :
  Forall (form_of G) stored -> mem G (open_workspace_keys local custody stored) (fun _ => True).
Proof.
  intros Hall. assert (forall wanted, map_Forall (fun id w => form_of G (id, w)) wanted ->
    mem G (collect_wanted stored wanted) (map_Forall (fun id w => form_of G (id, w)))) as Hcollect.
  { induction Hall as [|[id w] stored Hf _ IH]; intros wanted Hw; cbn [collect_wanted]; [by apply mem_ret|].
    eapply mem_bind; [apply mem_is_open|]. intros [] _; apply IH; [done|]. by apply map_Forall_insert_2. }
  eapply mem_bind; [apply Hcollect, map_Forall_empty|]. intros wanted Hw. apply map_Forall_to_list in Hw.
  induction Hw as [|[id w] l Hf _ IH]; cbn [open_wanted]; [by apply mem_ret|].
  eapply mem_bind; [apply mem_owner_unwrap|]. intros key Hk. eapply mem_bind; [by apply mem_install, Hf|].
  intros _ _. exact IH.
Qed.

(** ** The invariant *)

Definition row_columns (r : WorkspaceKeyRow) : option WrappedKey :=
  match wk_wrapping r, wk_wrapped r with
  | Some kid, Some blob => Some {| w_kek := kid; w_blob := blob |}
  | _, _ => None
  end.

(** What the owner holds is what [G] has. *)
Definition form (G : gmap N (list N)) (id : N) (w : WrappedKey) : Prop :=
  exists key, G !! id = Some key /\ ws_content id w = Some key.

Definition is_live (w : gmap N WorkspaceKeyRow) (id : N) : Prop := exists r, w !! id = Some r /\ wk_destroyed r = None.

Definition live_row (G : gmap N (list N)) (w : gmap N WorkspaceKeyRow) (subject : N) (r : ContentKeyRow) : Prop :=
  exists x key, ck_kek r = Some (w_kek x) /\ ck_wrapped r = Some (w_blob x) /\ data_content G subject x key
    /\ ck_wk r = parse_workspace_kek_id (w_kek x) /\ forall id, ck_wk r = Some id -> is_live w id.

Definition ws_row (G : gmap N (list N)) (id : N) (r : WorkspaceKeyRow) : Prop :=
  is_Some (G !! id) /\ (wk_destroyed r = None -> is_Some (row_columns r))
  /\ (wk_destroyed r <> None -> wk_retired r <> None) /\ (forall x, row_columns r = Some x -> form G id x).

Record tables (G : gmap N (list N)) (c : gmap N ContentKeyRow) (w : gmap N WorkspaceKeyRow) : Prop := {
  tb_ws : map_Forall (ws_row G) w;
  tb_live subject r : c !! subject = Some r -> ck_shredded r = None -> live_row G w subject r;
  tb_shred subject r : c !! subject = Some r -> ck_shredded r <> None -> ck_kek r = None /\ ck_wrapped r = None
}.

Record sound (G : gmap N (list N)) (s : Keys) : Prop := {
  so_tab : tables G (content_keys s) (workspace_keys s);
  so_open : opened G s;
  so_len : map_Forall (fun _ k => length k = KEY_LEN) G;
  so_fresh id : is_Some (G !! id) -> exists n, n < draws s /\ id = fresh_uuid n
}.

(** A live data key, and a shredded one. *)
Definition holds (G : gmap N (list N)) (s : Keys) (subject : N) (key : list N) : Prop :=
  exists r x, content_keys s !! subject = Some r /\ ck_shredded r = None /\ ck_kek r = Some (w_kek x)
    /\ ck_wrapped r = Some (w_blob x) /\ data_content G subject x key.
Definition gone (s : Keys) (subject : N) : Prop :=
  exists r, content_keys s !! subject = Some r /\ ck_shredded r <> None.

Record evolves (G : gmap N (list N)) (s : Keys) (G' : gmap N (list N)) (s' : Keys) : Prop := {
  ev_sub : G ⊆ G';
  ev_sound : sound G' s';
  ev_holds subject key : holds G s subject key -> gone s' subject \/ holds G' s' subject key;
  ev_gone subject : gone s subject -> gone s' subject
}.

Lemma data_content_mono G G' subject w key : G ⊆ G' -> data_content G subject w key -> data_content G' subject w key.
Proof.
  intros Hsub. unfold data_content. destruct (parse_workspace_kek_id _) as [id|]; [|done].
  intros (b & Hb & Hk). exists b. split; [by eapply lookup_weaken|done].
Qed.
Lemma data_content_fun G subject w key key' :
  data_content G subject w key -> data_content G subject w key' -> key' = key.
Proof.
  unfold data_content. destruct (parse_workspace_kek_id _) as [id|]; intros (b & Hb & Hk) (b' & Hb' & Hk');
    rewrite Hb in Hb'; injection Hb' as <-; congruence.
Qed.
Lemma form_mono G G' id w : G ⊆ G' -> form G id w -> form G' id w.
Proof. intros Hsub (k & Hk & Hc). exists k. split; [by eapply lookup_weaken|done]. Qed.
Lemma form_form_of G id w : form G id w -> form_of G (id, w).
Proof. intros (k & Hk & Hc) k' Hc'. simpl in *. congruence. Qed.
Lemma ws_row_mono G G' id r : G ⊆ G' -> ws_row G id r -> ws_row G' id r.
Proof.
  intros Hsub ([k Hk] & Hl & Hd & Hf). split_and!; [exists k; by eapply lookup_weaken|done|done|].
  intros x Hx. eapply form_mono; eauto.
Qed.
Lemma tables_mono G G' c w : G ⊆ G' -> tables G c w -> tables G' c w.
Proof.
  intros Hsub [Hw Hl Hs]. split; [|intros subject r Hr Hn|done].
  - intros id r Hr. eapply ws_row_mono, Hw; eauto.
  - destruct (Hl subject r Hr Hn) as (x & key & ? & ? & Hd & ? & ?). exists x, key. split_and!; [done|done| |done|done].
    by eapply data_content_mono.
Qed.
Lemma holds_mono G G' s s' subject key :
  G ⊆ G' -> content_keys s' = content_keys s -> holds G s subject key -> holds G' s' subject key.
Proof.
  intros Hsub Hc (r & x & Hr & ? & ? & ? & Hd). exists r, x. rewrite Hc. split_and!; [done..|]. by eapply data_content_mono.
Qed.
Lemma gone_same s s' subject : content_keys s' = content_keys s -> gone s subject -> gone s' subject.
Proof. intros Hc (r & Hr & Hs). exists r. by rewrite Hc. Qed.

(** A change that leaves the data keys' rows. *)
Lemma evolves_data G s G' s' : G ⊆ G' -> sound G' s' -> content_keys s' = content_keys s -> evolves G s G' s'.
Proof. intros Hsub Hs Hc. split; [done|done|right; by eapply holds_mono|intros subject; by apply gone_same]. Qed.
Lemma evolves_trans G s G1 s1 G2 s2 : evolves G s G1 s1 -> evolves G1 s1 G2 s2 -> evolves G s G2 s2.
Proof.
  intros [Hs1 _ Hh1 Hg1] [Hs2 Hok Hh2 Hg2]. split; [by etrans|done| |auto].
  intros subject key Hh. destruct (Hh1 _ _ Hh) as [Hg|Hh']; auto.
Qed.

(** ** Steps that change the tables *)

Definition Tr {A} (G : gmap N (list N)) (s : Keys) (m : K A) (Q : A -> gmap N (list N) -> Keys -> Prop) : Prop :=
  forall r s', m s = (r, s') -> exists G', evolves G s G' s' /\ forall a, r = Ok a -> Q a G' s'.

Lemma Tr_ret {A} G s (a : A) (Q : A -> _ -> _ -> Prop) : sound G s -> Q a G s -> Tr G s (kret a) Q.
Proof. intros Hs HQ r s' [= <- <-]. exists G. split; [by apply evolves_data|]. by intros ? [= <-]. Qed.
Lemma Tr_fail {A} G s e (Q : A -> _ -> _ -> Prop) : sound G s -> Tr G s (kfail e) Q.
Proof. intros Hs r s' [= <- <-]. exists G. split; [by apply evolves_data|done]. Qed.
Lemma Tr_bind {A B} G s (m : K A) (f : A -> K B) P Q :
  Tr G s m P -> (forall a G1 s1, evolves G s G1 s1 -> P a G1 s1 -> Tr G1 s1 (f a) Q) -> Tr G s (kbind m f) Q.
Proof.
  intros Hm Hf r s'. unfold kbind. destruct (m s) as [[a|e] s1] eqn:Em; intros Hr;
    destruct (Hm _ _ Em) as (G1 & He & HP).
  - destruct (Hf a G1 s1 He (HP a eq_refl) r s' Hr) as (G2 & He' & HQ). exists G2. split; [by eapply evolves_trans|done].
  - injection Hr as <- <-. exists G1. by split.
Qed.
Lemma Tr_post {A} G s (m : K A) (P Q : A -> _ -> _ -> Prop) :
  Tr G s m P -> (forall a G1 s1, evolves G s G1 s1 -> P a G1 s1 -> Q a G1 s1) -> Tr G s m Q.
Proof. intros Hm HPQ r s' Hr. destruct (Hm r s' Hr) as (G' & He & HP). exists G'. eauto. Qed.

(** A step in memory, a read of the tables. *)
Definition same_tables (s s' : Keys) : Prop :=
  content_keys s' = content_keys s /\ workspace_keys s' = workspace_keys s /\ draws s <= draws s'.
Lemma Tr_mem {A} G s (m : K A) (Q : A -> Prop) :
  sound G s -> mem G m Q -> Tr G s m (fun a G' s' => Q a /\ G' = G /\ same_tables s s').
Proof.
  intros [Ht Ho Hl Hf] Hm r s' Hr. destruct (Hm s r s' Ho Hr) as (Hc & Hw & Hd & Ho' & HQ). exists G. split; [|intros a Ha; split; [auto|by split_and!]].
  apply evolves_data; [done| |done]. split; [by rewrite Hc, Hw|done|done|].
  intros id Hid. destruct (Hf id Hid) as (n & Hn & ->). exists n. split; [lia|done].
Qed.
Lemma Tr_get {A} G s (f : Keys -> A) : sound G s -> Tr G s (get f) (fun a G' s' => a = f s /\ G' = G /\ s' = s).
Proof. intros Hs r s' [= <- <-]. exists G. split; [by apply evolves_data|]. by intros ? [= <-]. Qed.

Lemma sound_tables G s c w :
  sound G s -> tables G c w -> sound G (upd_content (fun _ => c) (upd_workspace (fun _ => w) s)).
Proof. intros [_ Ho Hl Hf] Ht. by split. Qed.

(** A transaction that fails keeps what is in memory. *)
Lemma Tr_atomically {A} G s (m : K A) Q : sound G s -> Tr G s m Q -> Tr G s (atomically m) Q.
Proof.
  intros Hs Hm r s'. unfold atomically. destruct (m s) as [[a|e] s1] eqn:Em; destruct (Hm _ _ Em) as (G1 & He & HQ).
  - intros [= <- <-]. by exists G1.
  - intros [= <- <-]. exists G1. split; [|done]. apply evolves_data; [apply He| |done].
    apply sound_tables; [apply He|]. eapply tables_mono; [apply He|apply Hs].
Qed.
Lemma Tr_attempt {A} G s (m : K A) Q :
  sound G s -> Tr G s m Q -> Tr G s (attempt m) (fun r G' s' => match r with
    | Ok a => Q a G' s'
    | Err _ => content_keys s' = content_keys s /\ workspace_keys s' = workspace_keys s
    end).
Proof.
  intros Hs Hm r s'. unfold attempt. destruct (atomically m s) as [r1 s1] eqn:Ea. intros [= <- <-].
  destruct (Tr_atomically G s m Q Hs Hm _ _ Ea) as (G' & He & HQ). exists G'. split; [done|]. intros ? [= <-].
  destruct r1 as [a|e]; [auto|]. unfold atomically in Ea. destruct (m s) as [[a|e'] s2]; [done|]. by injection Ea as <- <-.
Qed.

(** ** The active workspace key *)

Lemma Tr_draw G s :
  sound G s -> Tr G s draw (fun n G' s' => G' = G /\ same_tables s s' /\ draws s <= n < draws s').
Proof.
  intros Hs r s' Hr. destruct (Tr_mem G s draw (fun _ => True) Hs (mem_draw G _ (fun _ => I)) r s' Hr) as (G' & He & HQ).
  exists G'. split; [done|]. intros n Hn. destruct (HQ n Hn) as (_ & -> & Ht). injection Hr as Hr <-.
  rewrite <- Hr in Hn. injection Hn as <-. split_and!; [done|exact Ht|done|simpl; lia].
Qed.

Lemma sound_grow G s id key :
  sound G s -> G !! id = None -> (exists n, n < draws s /\ id = fresh_uuid n) -> length key = KEY_LEN ->
  sound (<[id := key]> G) s.
Proof.
  intros [Ht Ho Hl Hf] Hn Hid Hlen. pose proof (insert_subseteq G id key Hn) as Hsub. split.
  - by eapply tables_mono.
  - intros id' e He. eapply lookup_weaken; eauto.
  - by apply map_Forall_insert_2.
  - intros id' Hs. apply lookup_insert_is_Some in Hs as [->|[_ ?]]; auto.
Qed.
Lemma Tr_grow {A} G G1 s (m : K A) Q : G ⊆ G1 -> sound G1 s -> Tr G1 s m Q -> Tr G s m Q.
Proof.
  intros Hsub Hs Hm r s' Hr. destruct (Hm r s' Hr) as (G' & He & HQ). exists G'. split; [|done].
  eapply evolves_trans; [|exact He]. by apply evolves_data.
Qed.

Lemma active_row_in s ws id r :
  active_row s ws = Some (id, r) -> workspace_keys s !! id = Some r /\ wk_ws r = ws /\ wk_retired r = None.
Proof.
  unfold active_row. intros Hf. apply find_some in Hf as [Hin Hb]. simpl in Hb.
  apply list_elem_of_In, elem_of_map_to_list in Hin. apply andb_true_iff in Hb as [Hb1 Hb2].
  by apply bool_decide_eq_true in Hb1, Hb2.
Qed.

Lemma is_live_sub w w' id : w ⊆ w' -> is_live w id -> is_live w' id.
Proof. intros Hsub (r & Hr & Hd). exists r. split; [by eapply lookup_weaken|done]. Qed.
(** More workspace keys. *)
Lemma tables_more G c w w' : w ⊆ w' -> map_Forall (ws_row G) w' -> tables G c w -> tables G c w'.
Proof.
  intros Hsub Hw' [_ Hl Hs]. split; [done| |done]. intros subject r Hr Hn.
  destruct (Hl subject r Hr Hn) as (x & key & ? & ? & ? & ? & Hid). exists x, key. split_and!; [done..|].
  intros id Hwk. by eapply is_live_sub, Hid.
Qed.

Lemma mem_create G id key :
  G !! id = Some key -> length key = KEY_LEN ->
  mem G (w <- journalled_wrap custody id key ;; install id key w ;; kret w)
    (fun w => form G id w /\ is_current custody (w_kek w) = true).
Proof.
  intros HG Hlen. eapply mem_bind; [by apply mem_journalled_wrap|]. intros w [Hw Hcur].
  eapply mem_bind; [by apply mem_install|]. intros _ _. apply mem_ret. split; [by exists key|done].
Qed.

(** In use, for new data keys too. *)
Definition is_active (w : gmap N WorkspaceKeyRow) (id : N) : Prop :=
  exists r, w !! id = Some r /\ wk_destroyed r = None /\ wk_retired r = None.
Lemma active_live w id : is_active w id -> is_live w id.
Proof. intros (r & Hr & Hd & _). by exists r. Qed.

(** More workspace keys, new ones under the custody's current key. *)
Definition grown (w w' : gmap N WorkspaceKeyRow) : Prop :=
  w ⊆ w' /\ forall id r, w' !! id = Some r -> w !! id = Some r \/ foreign custody r = false.
Lemma grown_refl w : grown w w.
Proof. split; [done|auto]. Qed.
Lemma grown_trans w1 w2 w3 : grown w1 w2 -> grown w2 w3 -> grown w1 w3.
Proof.
  intros [Hs1 Hn1] [Hs2 Hn2]. split; [by etrans|]. intros id r Hr. destruct (Hn2 id r Hr) as [Hr2|]; [|auto]. auto.
Qed.

Definition active_post (s : Keys) (id : N) (_ : gmap N (list N)) (s' : Keys) : Prop :=
  content_keys s' = content_keys s /\ grown (workspace_keys s) (workspace_keys s') /\ is_active (workspace_keys s') id.

Lemma Tr_create G s ws :
  sound G s ->
  Tr G s
    (n <- draw ;;
     let id := fresh_uuid n in
     w <- create_workspace_key custody id ;;
     put (upd_workspace (insert id {| wk_ws := ws; wk_custody := custody_name custody; wk_wrapping := Some (w_kek w);
                                      wk_wrapped := Some (w_blob w); wk_retired := None; wk_destroyed := None |})) ;;
     kret id) (active_post s).
Proof.
  intros Hs. eapply Tr_bind; [by apply Tr_draw|]. intros n G1 s1 He1 (-> & (Hc1 & Hw1 & _) & Hn). cbv zeta.
  assert (G !! fresh_uuid n = None) as Hnew.
  { apply eq_None_not_Some. intros Hin. destruct (so_fresh _ _ Hs _ Hin) as (n' & Hlt & Heq). apply (inj _) in Heq. lia. }
  eapply (Tr_bind _ _ _ _ (fun w G' s' => (form G' (fresh_uuid n) w /\ is_current custody (w_kek w) = true) /\ content_keys s' = content_keys s
                                           /\ workspace_keys s' = workspace_keys s)).
  { eapply Tr_bind; [apply Tr_draw, He1|]. intros n2 G2 s2 He2 (-> & (Hc2 & Hw2 & Hd2) & Hn2). cbv zeta.
    assert (sound (<[fresh_uuid n := fresh_key n2]> G) s2) as Hs2.
    { apply sound_grow; [apply He2|done| |apply key_length]. exists n. split; [lia|done]. }
    eapply (Tr_grow _ _ _ _ _ (insert_subseteq _ _ _ Hnew) Hs2).
    eapply Tr_post; [apply Tr_mem; [exact Hs2|]; apply mem_create; [apply lookup_insert_eq|apply key_length]|].
    intros w G3 s3 He3 (Hf & -> & Hc3 & Hw3 & _).
    exact (conj Hf (conj (eq_trans Hc3 (eq_trans Hc2 Hc1)) (eq_trans Hw3 (eq_trans Hw2 Hw1)))). }
  intros w G3 s3 He3 ((Hf & Hcur) & Hc3 & Hw3) r s' [= <- <-].
  assert (workspace_keys s !! fresh_uuid n = None) as Hnone.
  { apply eq_None_not_Some. intros [r Hr]. destruct (tb_ws _ _ _ (so_tab _ _ Hs) _ _ Hr) as [[k Hk] _]. congruence. }
  pose proof (insert_subseteq (workspace_keys s) _ {| wk_ws := ws; wk_custody := custody_name custody; wk_wrapping := Some (w_kek w);
    wk_wrapped := Some (w_blob w); wk_retired := None; wk_destroyed := None |} Hnone) as Hsub.
  exists G3. split; [|intros ? [= <-]; unfold active_post; simpl; rewrite Hc3, Hw3; split_and!; [done| |]].
  - apply evolves_data; [done| |done]. destruct (ev_sound _ _ _ _ He3) as [Ht Ho Hl Hfr]. split; [|done..]. simpl.
    rewrite Hw3 in *. eapply tables_more; [exact Hsub| |exact Ht]. apply map_Forall_insert_2; [|apply Ht].
    split_and!; [destruct Hf as (k & -> & _); done|by eexists|done|]. intros x [= <-]. by destruct w.
  - split; [done|]. intros id r. rewrite lookup_insert_Some. intros [[<- <-]|[_ Hr]]; [|by left]. right.
    unfold foreign. simpl. by rewrite Hcur.
  - eexists. by rewrite lookup_insert_eq.
Qed.

Lemma Tr_active G s ws : sound G s -> Tr G s (active_workspace_key local custody ws) (active_post s).
Proof.
  intros Hs. unfold active_workspace_key. eapply Tr_bind; [by apply Tr_get|]. intros o G1 s1 _ (-> & -> & ->).
  destruct (active_row s ws) as [[id r]|] eqn:Ea; [|by apply Tr_create].
  apply active_row_in in Ea as (Hr & _ & Hn).
  destruct (tb_ws _ _ _ (so_tab _ _ Hs) id r Hr) as (_ & Hlive & Hret & Hform).
  assert (wk_destroyed r = None) as Hd by (destruct (wk_destroyed r); [by destruct Hret|done]).
  destruct (Hlive Hd) as [x Hx]. specialize (Hform x Hx). unfold row_columns in Hx.
  destruct (wk_wrapping r) as [kid|], (wk_wrapped r) as [blob|]; try done. injection Hx as <-.
  eapply Tr_bind.
  { apply Tr_mem; [done|]. apply mem_open_workspace_keys. constructor; [by apply form_form_of|constructor]. }
  intros _ G1 s1 He (_ & -> & Hc & Hw & _). apply Tr_ret; [apply He|]. unfold active_post. rewrite Hc, Hw.
  split_and!; [done|apply grown_refl|]. by exists r.
Qed.

(** ** Sealing and shredding *)

Definition row_goes_on (G : gmap N (list N)) (s : Keys) (subject : N) (r' : ContentKeyRow) : Prop :=
  forall r, content_keys s !! subject = Some r ->
    ck_shredded r = None
    /\ forall key, holds G s subject key -> exists x, ck_kek r' = Some (w_kek x) /\ ck_wrapped r' = Some (w_blob x)
                                         /\ data_content G subject x key.

(** A change of one row. *)
Lemma evolves_row G s subject r' c' :
  sound G s -> c' !! subject = Some r' -> (forall y, y <> subject -> c' !! y = content_keys s !! y) ->
  (ck_shredded r' = None -> live_row G (workspace_keys s) subject r' /\ row_goes_on G s subject r') ->
  (ck_shredded r' <> None -> ck_kek r' = None /\ ck_wrapped r' = None) ->
  evolves G s G (upd_content (fun _ => c') s).
Proof.
  intros Hs Hr' Hoth Hl Hd. split; [done| | |].
  - destruct Hs as [Ht Ho Hlen Hf]. split; [|done..]. split; [apply Ht|simpl; intros y r Hy|simpl; intros y r Hy].
    + destruct (decide (y = subject)) as [->|Hne]; [simplify_eq; intros Hn; by apply Hl|rewrite Hoth in Hy by done; by eapply tb_live].
    + destruct (decide (y = subject)) as [->|Hne]; [simplify_eq; apply Hd|rewrite Hoth in Hy by done; by eapply tb_shred].
  - intros y key Hh. destruct (decide (y = subject)) as [->|Hne].
    + destruct (decide (ck_shredded r' = None)) as [Hn|Hn]; [|left; by exists r'].
      pose proof Hh as (r & x0 & Hr & _). destruct (Hl Hn) as [_ Hg]. destruct (Hg r Hr) as [_ Hk].
      destruct (Hk key Hh) as (x & ? & ? & ?). right. by exists r', x.
    + right. destruct Hh as (r & x & Hr & Hx). exists r, x. simpl. by rewrite Hoth.
  - intros y (r & Hr & Hg). destruct (decide (y = subject)) as [->|Hne]; [|exists r; simpl; by rewrite Hoth].
    exists r'. split; [done|]. intros Hn. destruct (Hl Hn) as [_ Hgo]. by destruct (Hgo r Hr).
Qed.

Lemma Tr_shred G s subject :
  sound G s ->
  Tr G s (shred_in_tx subject) (fun _ G' s' => is_Some (content_keys s !! subject) -> gone s' subject).
Proof.
  intros Hs. eapply Tr_bind; [apply Tr_mem, mem_clock; done|]. intros now G1 s1 He1 (_ & -> & Hc & Hw & _).
  eapply Tr_bind; [apply Tr_get, He1|]. intros live G2 s2 _ (-> & -> & ->). rewrite <- Hc.
  intros rr s' [= <- <-]. exists G. destruct (content_keys s1 !! subject) as [r|] eqn:Er.
  - assert (alter (shred_row now) subject (content_keys s1) !! subject = Some (shred_row now r)) as Hnew.
    { by rewrite lookup_alter_eq, Er. }
    assert (ck_shredded (shred_row now r) <> None) as Hsh by (unfold shred_row; by destruct (decide _)).
    split; [|intros _ _ _; by exists (shred_row now r)].
    apply (evolves_row G s1 subject (shred_row now r) (alter (shred_row now) subject (content_keys s1)));
      [apply He1|done|intros y Hy; by rewrite lookup_alter_ne|done|].
    intros _. unfold shred_row. destruct (decide _); [done|]. eapply tb_shred; [apply He1|done|done].
  - split; [|by intros _ _ [? ?]]. apply evolves_data; [done| |].
    + destruct (ev_sound _ _ _ _ He1) as [Ht Ho Hl Hf]. split; [|done..]. simpl. by rewrite alter_id'.
    + simpl. by apply alter_id'.
Qed.

(** What a first sealing writes: a key under a live workspace key, or none. *)
Lemma Tr_insert G s subject ws w :
  sound G s -> content_keys s !! subject = None ->
  (forall x, w = Some x -> exists id key, w_kek x = workspace_kek_id id /\ is_live (workspace_keys s) id
                                      /\ data_content G subject x key) ->
  Tr G s (insert_in_tx subject ws w) (fun _ G' s' => match w with
    | Some x => forall key, data_content G' subject x key -> holds G' s' subject key
    | None => gone s' subject
    end).
Proof.
  intros Hs Hnone Hw. eapply Tr_bind; [apply Tr_mem, mem_clock; done|]. intros now G1 s1 He1 (_ & -> & Hc & Hwk & _).
  intros rr s' [= <- <-]. exists G. split.
  - eapply (evolves_row G s1 subject _ (<[subject := _]> (content_keys s1))); [apply He1|apply lookup_insert_eq| | |].
    + intros y Hy. by rewrite lookup_insert_ne.
    + simpl. intros Hn. destruct w as [x|]; [|done]. destruct (Hw x eq_refl) as (id & key & Hk & Hl & Hd). split.
      * exists x, key. split_and!; [done..|]. simpl. rewrite Hk, parse_kek_id, Hwk. by intros ? [= <-].
      * intros r Hr. rewrite Hc in Hr. congruence.
    + simpl. by destruct w.
  - intros _ _. destruct w as [x|].
    + intros key Hd. eexists _, x. simpl. rewrite lookup_insert_eq. by split_and!.
    + eexists. simpl. by rewrite lookup_insert_eq.
Qed.

(** What is written, and what is sealed with. *)
Definition decided (G : gmap N (list N)) (wk : option N) (subject : N) (state : KeyState) (arrived : bool) (d : Decision) : Prop :=
  match d.1 with
  | WInsert (Some w) =>
      exists id key, arrived = false /\ state = Absent /\ wk = Some id /\ w_kek w = workspace_kek_id id
        /\ data_content G subject w key /\ d.2 = Some (key, true)
  | WInsert None => state = Absent /\ arrived = true /\ d.2 = None
  | WShred => (exists w, state = Live w) /\ arrived = true /\ d.2 = None
  | WNothing =>
      (state = KeyShredded /\ forall key, d.2 <> Some (key, true))
      \/ exists w key, state = Live w /\ arrived = false /\ data_content G subject w key /\ d.2 = Some (key, true)
  end.
Lemma mem_decide G workspace_key subject state arrived :
  mem G (decide_ local workspace_key subject state arrived) (decided G workspace_key subject state arrived).
Proof.
  unfold decide_, decided. destruct arrived.
  - apply mem_ret. destruct state; simpl; eauto 10.
  - destruct state as [|w|].
    + destruct workspace_key as [id|]; [|apply mem_fail]. eapply mem_bind; [by apply (mem_draw G (fun _ => True))|].
      intros n _. eapply mem_bind; [apply mem_wrap_for_workspace, key_length|]. intros w (Hk & Hb). apply mem_ret. simpl.
      exists id, (fresh_key n). split_and!; [done|done|done|done| |done]. unfold data_content. by rewrite Hk, parse_kek_id.
    + eapply mem_bind; [apply mem_unwrap|]. intros key Hk. apply mem_ret. right. by exists w, key.
    + eapply mem_bind; [by apply (mem_draw G (fun _ => True))|]. intros n _. apply mem_ret. left. split; [done|].
      intros key. simpl. congruence.
Qed.

(** The workspace key that a row's join brings. *)
Lemma joined_sound G s subject r kid x :
  sound G s -> content_keys s !! subject = Some r -> ck_kek r = Some kid ->
  joined_workspace_key kid (joined_of s r) = Ok (Some x) -> form G x.1 x.2.
Proof.
  intros Hs Hr Hk. destruct (decide (ck_shredded r = None)) as [Hn|Hn].
  2: { destruct (tb_shred _ _ _ (so_tab _ _ Hs) _ _ Hr Hn). congruence. }
  destruct (tb_live _ _ _ (so_tab _ _ Hs) _ _ Hr Hn) as (w & key & Hk' & _ & _ & Hwk & _).
  rewrite Hk in Hk'. injection Hk' as ->. unfold joined_workspace_key, joined_of. rewrite Hwk.
  destruct (parse_workspace_kek_id _) as [id|]; [|done]. simpl. destruct (workspace_keys s !! id) as [k|] eqn:Ek; [|done].
  destruct (tb_ws _ _ _ (so_tab _ _ Hs) _ _ Ek) as (_ & _ & _ & Hf). unfold row_columns in Hf.
  destruct (wk_wrapping k), (wk_wrapped k); try done. intros [= <-]. by apply Hf.
Qed.

Lemma mem_open_joined G kid j :
  (forall x, joined_workspace_key kid j = Ok (Some x) -> form G x.1 x.2) ->
  mem G (open_joined local custody kid j) (fun _ => True).
Proof.
  intros Hf. eapply mem_bind; [by apply (mem_sealed G _ (fun o => joined_workspace_key kid j = Ok o))|].
  intros [[id w]|] Ho; [|by apply mem_ret]. apply mem_open_workspace_keys. constructor; [|constructor].
  by apply form_form_of, (Hf _ Ho).
Qed.

Lemma state_live s subject w :
  (from_columns ((fun r => (ck_kek r, ck_wrapped r)) <$> content_keys s !! subject)) = Live w ->
  exists r, content_keys s !! subject = Some r /\ ck_kek r = Some (w_kek w) /\ ck_wrapped r = Some (w_blob w).
Proof.
  destruct (content_keys s !! subject) as [r|]; [|done]. simpl. intros Hs. exists r. split; [done|].
  destruct (ck_kek r), (ck_wrapped r); try done. by injection Hs as <-.
Qed.
Lemma live_holds G s subject r w key :
  sound G s -> content_keys s !! subject = Some r -> ck_kek r = Some (w_kek w) -> ck_wrapped r = Some (w_blob w) ->
  data_content G subject w key -> holds G s subject key.
Proof.
  intros Hs Hr Hk Hb Hd. exists r, w. split_and!; [done| |done|done|done].
  destruct (decide (ck_shredded r = None)) as [|Hn]; [done|]. destruct (tb_shred _ _ _ (so_tab _ _ Hs) _ _ Hr Hn). congruence.
Qed.

(** The workspace key a sealing needs. *)
Lemma Tr_workspace_key G s subject ws arrived st joined :
  sound G s ->
  (st, joined) = match content_keys s !! subject with
                 | Some row => (from_columns (Some (ck_kek row, ck_wrapped row)), joined_of s row)
                 | None => (Absent, (None, None))
                 end ->
  Tr G s (match st, arrived with
          | Live w, _ => open_joined local custody (w_kek w) joined ;; kret None
          | Absent, false => id <- active_workspace_key local custody ws ;; kret (Some id)
          | _, _ => kret None
          end)
    (fun o G' s' => content_keys s' = content_keys s
                    /\ forall id, st = Absent -> arrived = false -> o = Some id -> is_live (workspace_keys s') id).
Proof.
  intros Hs Hst. destruct st as [|w|]; [destruct arrived| |].
  - by apply Tr_ret.
  - eapply Tr_bind; [by apply Tr_active|]. intros id G1 s1 He (Hc & _ & Hl). apply Tr_ret; [apply He|].
    split; [done|]. intros ? _ _ [= <-]. by apply active_live.
  - eapply Tr_bind.
    { apply Tr_mem; [done|]. apply mem_open_joined. intros x Hx. destruct (content_keys s !! subject) as [r|] eqn:Er; [|done].
      injection Hst as Hst ->. simpl in Hst. destruct (ck_kek r) eqn:Ek, (ck_wrapped r); try done. injection Hst as ->.
      by eapply joined_sound. }
    intros _ G1 s1 He (_ & -> & Hc & _). apply Tr_ret; [apply He|]. done.
  - by apply Tr_ret.
Qed.

(** What a plan leaves behind. *)
Definition prepared (plan : Plan) (s : Keys) (o : Sealing * Value) (G' : gmap N (list N)) (s' : Keys) : Prop :=
  match plan with
  | PlanNone => True
  | PlanShred subject => is_Some (content_keys s !! subject) -> gone s' subject
  | PlanSeal subject _ arrived =>
      (arrived = true -> gone s' subject) /\ forall key, content_key o.1 = Some key -> holds G' s' subject key
  end.

Lemma state_shredded G s subject :
  sound G s -> from_columns ((fun r => (ck_kek r, ck_wrapped r)) <$> content_keys s !! subject) = KeyShredded -> gone s subject.
Proof.
  intros Hs Hst. destruct (content_keys s !! subject) as [r|] eqn:Er; [|done]. exists r. split; [done|]. intros Hn.
  destruct (tb_live _ _ _ (so_tab _ _ Hs) _ _ Er Hn) as (w & key & Hk & Hb & _). simpl in Hst. by rewrite Hk, Hb in Hst.
Qed.

Lemma Tr_write G s subject ws arrived wk st write seal_with :
  sound G s -> st = from_columns ((fun r => (ck_kek r, ck_wrapped r)) <$> content_keys s !! subject) ->
  (forall id, st = Absent -> arrived = false -> wk = Some id -> is_live (workspace_keys s) id) ->
  decided G wk subject st arrived (write, seal_with) ->
  Tr G s (match write with
          | WNothing => kret tt
          | WInsert w => insert_in_tx subject ws w
          | WShred => shred_in_tx subject ;; kret tt
          end)
    (fun _ G' s' => (arrived = true -> gone s' subject) /\ forall key, seal_with = Some (key, true) -> holds G' s' subject key).
Proof.
  intros Hs Hst Hwk Hd. unfold decided in Hd. cbn [fst snd] in Hd.
  assert (st = Absent -> content_keys s !! subject = None) as Habsent.
  { rewrite Hst. destruct (content_keys s !! subject) as [r|]; [|done]. simpl. by destruct (ck_kek r), (ck_wrapped r). }
  destruct write as [|[w|]|].
  - apply Tr_ret; [done|]. destruct Hd as [[Hsh Hno]|(w & key & Hl & -> & Hd & ->)].
    + split; [intros _; eapply state_shredded; [done|congruence]|]. intros key Hk. by destruct (Hno key).
    + split; [done|]. intros ? [= <-]. rewrite Hl in Hst. symmetry in Hst. apply state_live in Hst as (r & Hr & Hk & Hb).
      by eapply live_holds.
  - destruct Hd as (id & key & -> & -> & -> & Hk & Hd & ->). eapply Tr_post.
    + apply Tr_insert; [done|auto|]. intros x [= <-]. exists id, key. auto.
    + intros u G1 s1 He Hh. split; [done|]. intros ? [= <-]. apply Hh. eapply data_content_mono; [apply He|done].
  - destruct Hd as (-> & -> & ->). eapply Tr_post; [by apply Tr_insert; [|auto|]|]. intros u G1 s1 _ Hg. by split.
  - destruct Hd as ((w & ->) & -> & ->). eapply Tr_bind; [by apply Tr_shred|]. intros u G1 s1 He Hg.
    apply Tr_ret; [apply He|]. split; [|done]. intros _. apply Hg. symmetry in Hst.
    apply state_live in Hst as (r & Hr & _). by exists r.
Qed.

Lemma mem_apply G subject seal_with payload :
  mem G (apply_ subject seal_with payload) (fun o => forall key, content_key o.1 = Some key -> seal_with = Some (key, true)).
Proof.
  unfold apply_. destruct seal_with as [[key live]|]; [|by apply mem_ret].
  eapply mem_bind; [by apply (mem_draw G (fun _ => True))|]. intros n _.
  eapply mem_bind; [by apply (mem_sealed G _ (fun _ => True))|]. intros out _. apply mem_ret. simpl.
  destruct live; [|done]. by intros ? [= <-].
Qed.

Lemma Tr_prepare G s has_keyring plan payload :
  sound G s -> Tr G s (prepare_in_tx local custody has_keyring plan payload) (prepared plan s).
Proof.
  intros Hs. destruct plan as [|subject ws arrived|subject]; cbn [prepare_in_tx]; [by apply Tr_ret| |].
  2: { eapply Tr_bind; [by apply Tr_shred|]. intros a G1 s1 He Hg. apply Tr_ret; [apply He|exact Hg]. }
  destruct has_keyring; [|by apply Tr_fail].
  eapply (Tr_bind _ _ _ _ (fun _ G' s' => G' = G /\ s' = s)); [by apply Tr_ret|]. intros _ G1 s1 _ (-> & ->).
  eapply Tr_bind; [by apply Tr_get|]. intros [st joined] G1 s1 _ (Hst & -> & ->).
  eapply Tr_bind; [by eapply (Tr_workspace_key G s subject)|]. intros wk G1 s1 He1 (Hc1 & Hwk).
  eapply Tr_bind; [apply Tr_mem; [apply He1|apply mem_decide]|].
  intros [write seal_with] G2 s2 He2 (Hd & -> & Hc2 & Hw2 & _).
  eapply Tr_bind.
  { eapply Tr_write; [apply He2| | |exact Hd].
    - rewrite Hc2, Hc1. destruct (content_keys s !! subject); by injection Hst.
    - rewrite Hw2. exact Hwk. }
  intros a G3 s3 He3 [Hg Hh]. eapply Tr_post; [apply Tr_mem, mem_apply; apply He3|].
  intros o G4 s4 He4 (Ho & -> & Hc4 & _). split; [intros Ha; by apply He4, Hg|].
  intros key Hk. eapply holds_mono; [reflexivity|exact Hc4|by apply Hh, Ho].
Qed.

(** ** Rotating and rewrapping *)

(** A change of workspace keys that leaves alive those with live data keys. *)
Lemma tables_ws G c w w' :
  map_Forall (ws_row G) w' ->
  (forall id subject r, c !! subject = Some r -> ck_shredded r = None -> ck_wk r = Some id -> is_live w id -> is_live w' id) ->
  tables G c w -> tables G c w'.
Proof.
  intros Hw' Hl' [_ Hl Hs]. split; [done| |done]. intros subject r Hr Hn.
  destruct (Hl subject r Hr Hn) as (x & key & ? & ? & ? & ? & Hid). exists x, key. split_and!; [done..|].
  intros id Hi. eapply Hl'; eauto.
Qed.
Lemma Tr_put_ws G s f :
  sound G s -> map_Forall (ws_row G) (f (workspace_keys s)) ->
  (forall id subject r, content_keys s !! subject = Some r -> ck_shredded r = None -> ck_wk r = Some id ->
     is_live (workspace_keys s) id -> is_live (f (workspace_keys s)) id) ->
  Tr G s (put (upd_workspace f))
    (fun _ G' s' => content_keys s' = content_keys s /\ workspace_keys s' = f (workspace_keys s) /\ G' = G).
Proof.
  intros [Ht Ho Hl Hf] Hw Hlive r s' [= <- <-]. exists G. split; [|done]. apply evolves_data; [done| |done].
  split; [|done..]. by eapply tables_ws.
Qed.
(** A change of one workspace key. *)
Lemma map_Forall_alter {A} (P : N -> A -> Prop) (f : A -> A) id (m : gmap N A) :
  map_Forall P m -> (forall x, m !! id = Some x -> P id x -> P id (f x)) -> map_Forall P (alter f id m).
Proof.
  intros Hm Hf id' y. rewrite lookup_alter. destruct (decide (id = id')) as [->|Hne]; [|apply Hm].
  intros (x & Hx & ->)%fmap_Some. by apply Hf; [|apply Hm].
Qed.
Lemma is_live_alter w f id id' :
  (forall r, w !! id = Some r -> wk_destroyed r = None -> id = id' -> wk_destroyed (f r) = None) ->
  is_live w id' -> is_live (alter f id w) id'.
Proof.
  intros Hf (r & Hr & Hd). unfold is_live. rewrite lookup_alter. destruct (decide (id = id')) as [->|Hne]; [|eauto].
  rewrite Hr. exists (f r). split; [done|auto].
Qed.

Lemma Tr_rotate G s ws : sound G s -> Tr G s (rotate_workspace_key local custody ws) (fun _ _ _ => True).
Proof.
  intros Hs. apply Tr_atomically; [done|]. eapply Tr_bind; [apply Tr_mem, mem_clock; done|].
  intros now G1 s1 He1 _. eapply Tr_bind; [apply Tr_get, He1|]. intros retired G2 s2 He2 (_ & -> & ->).
  eapply Tr_bind.
  { apply Tr_put_ws; [apply He1| |].
    - intros id r. rewrite lookup_fmap. intros (r0 & Hr0 & ->)%fmap_Some.
      pose proof (tb_ws _ _ _ (so_tab _ _ (ev_sound _ _ _ _ He1)) _ _ Hr0) as (? & ? & ? & ?).
      destruct (_ && _); [by split_and!|by split_and!].
    - intros id subject r _ _ _ (k & Hk & Hd). unfold is_live. rewrite lookup_fmap, Hk. eexists. split; [done|].
      by destruct (_ && _). }
  intros u G3 s3 He3 _. eapply Tr_bind; [apply Tr_active, He3|]. intros active G4 s4 He4 _. by apply Tr_ret; [apply He4|].
Qed.

Lemma page_in {A} (m : gmap N A) keep after limit e :
  e ∈ page m keep after limit -> m !! e.1 = Some e.2 /\ keep e.2 = true.
Proof.
  unfold page. intros He%sql_limit_in. rewrite merge_sort_Permutation in He. apply list_elem_of_In, filter_In in He as [He Hb].
  apply andb_true_iff in Hb as [_ Hb]. split; [|done]. apply list_elem_of_In in He. destruct e. by apply elem_of_map_to_list.
Qed.
Lemma page_nodup {A} (m : gmap N A) keep after limit : NoDup (page m keep after limit).*1.
Proof.
  unfold page, sql_limit. rewrite fmap_take. eapply sublist_NoDup; [|apply sublist_take].
  rewrite merge_sort_Permutation. eapply sublist_NoDup; [apply (NoDup_fst_map_to_list m)|].
  induction (map_to_list m) as [|e l IH]; simpl; [done|]. destruct (_ && _); by constructor.
Qed.

(** *** Pages *)

#[local] Instance key_le_total {A} : Total (@key_le A).
Proof. intros a b. unfold key_le. lia. Qed.
#[local] Instance key_le_trans {A} : Transitive (@key_le A).
Proof. intros a b c. unfold key_le. lia. Qed.

Lemma page_after {A} (m : gmap N A) keep after limit e : e ∈ page m keep after limit -> (after < e.1)%N.
Proof.
  unfold page. intros He%sql_limit_in. rewrite merge_sort_Permutation in He. apply list_elem_of_In, filter_In in He as [_ Hb].
  apply andb_true_iff in Hb as [Hb _]. by apply N.ltb_lt.
Qed.

(** A row that a page leaves out is behind its last row, and the page is full. *)
Lemma page_covers {A} (m : gmap N A) keep after limit id a :
  limit <> 0%Z -> m !! id = Some a -> keep a = true -> (after < id)%N ->
  (id, a) ∈ page m keep after limit
  \/ exists last_id b, last (page m keep after limit) = Some (last_id, b) /\ (last_id < id)%N
       /\ (Z.of_nat (length (page m keep after limit)) <? limit)%Z = false.
Proof.
  intros Hlim Hm Hk Ha. pose proof (page_nodup m keep after (-1)) as Hnd. unfold page in *.
  set (L := merge_sort key_le _) in *. assert ((id, a) ∈ L) as HL.
  { unfold L. rewrite merge_sort_Permutation. apply list_elem_of_In, filter_In. split.
    - by apply list_elem_of_In, elem_of_map_to_list.
    - simpl. rewrite Hk, andb_true_r. by apply N.ltb_lt. }
  assert (NoDup L.*1) as HndL by (unfold sql_limit, limit_rows in Hnd; simpl in Hnd; by rewrite firstn_all in Hnd). clear Hnd.
  assert (StronglySorted key_le L) as Hsort by (apply StronglySorted_merge_sort; apply _).
  unfold sql_limit. set (k := limit_rows limit L). rewrite <- (take_drop k L) in HL, HndL, Hsort.
  apply elem_of_app in HL as [HL|HL]; [by left|right].
  assert (k < length L) as Hlt.
  { destruct (decide (k < length L)); [done|]. rewrite drop_ge in HL by lia. by apply elem_of_nil in HL. }
  assert (0 < limit)%Z as Hpos.
  { unfold k, limit_rows in Hlt. destruct (limit <? 0)%Z eqn:E; [lia|]. apply Z.ltb_ge in E. lia. }
  assert (k = Z.to_nat limit) as Hkl by (unfold k, limit_rows; by rewrite (proj2 (Z.ltb_ge _ _)) by lia).
  assert (length (take k L) = k) as Hlen by (rewrite length_take; lia).
  destruct (last (take k L)) as [[last_id b]|] eqn:El.
  2: { apply last_None in El. rewrite El in Hlen. simpl in Hlen. lia. }
  apply last_Some_elem_of in El as Hin. exists last_id, b. split; [done|]. rewrite Hlen. split; [|apply Z.ltb_ge; lia].
  pose proof (StronglySorted_app_1_elem_of _ _ _ _ _ Hsort Hin HL) as Hle. unfold key_le in Hle. simpl in Hle.
  rewrite fmap_app in HndL. apply NoDup_app in HndL as (_ & Hdis & _). assert (last_id <> id) as Hne; [|lia].
  intros ->. apply (Hdis id); apply list_elem_of_fmap; [by exists (id, b)|by exists (id, a)].
Qed.

(** How many rows are left. *)
Definition behind (d : gset N) (after : N) : nat := size (filter (fun id => after < id)%N d).
Lemma behind_lt d after last_id : last_id ∈ d -> (after < last_id)%N -> behind d last_id < behind d after.
Proof.
  intros Hin Hlt. apply subset_size. split.
  - intros id. rewrite !elem_of_filter. intros [? ?]. split; [lia|done].
  - intros Hsub. specialize (Hsub last_id). rewrite !elem_of_filter in Hsub. destruct Hsub as [? _]; [done|lia].
Qed.

Section paging.
Context {X A B R : Type}.
(** The table, what of it the pages show, and the loop's body. *)
Variable tab : Keys -> gmap N B.
Variable src : Keys -> gmap N A.
Variable keep : Keys -> A -> bool.
Variable rows : N -> Keys -> list (N * R).
Variable body : list (N * R) -> X -> K X.
Variable limit : Z.
(** How many rows were skipped; how a step may change the rest; what a row becomes. *)
Variable skips : X -> Z.
Variable rel : Keys -> Keys -> Prop.
Variable good : Keys -> N -> Prop.

Record body_post (s : Keys) (l : list N) (x x' : X) (s' : Keys) : Prop := {
  bp_rel : rel s s';
  bp_dom : dom (tab s') = dom (tab s);
  bp_others id : id ∉ l -> tab s' !! id = tab s !! id;
  bp_skips : (skips x <= skips x')%Z;
  bp_good : skips x' = skips x -> Forall (good s') l
}.
Definition body_ok : Prop := forall G s after x, sound G s ->
  exists x1 s1 G1, body (rows after s) x s = (Ok x1, s1) /\ evolves G s G1 s1 /\ body_post s (rows after s).*1 x x1 s1.

Hypothesis rows_page : forall after s, (rows after s).*1 = (page (src s) (keep s) after limit).*1.
Hypothesis src_tab : forall s, dom (src s) ⊆ dom (tab s).
Hypothesis rel_preorder : PreOrder rel.
Hypothesis body_runs : body_ok.
Hypothesis good_unwanted : forall G s id, sound G s -> (forall a, src s !! id = Some a -> keep s a = false) -> good s id.
Hypothesis good_stable : forall G s s' id, sound G s -> rel s s' -> tab s' !! id = tab s !! id -> good s id -> good s' id.

(** A row, then the others. *)
Lemma body_cons G1 s s1 s' id l x x1 x' :
  sound G1 s1 -> id ∉ l -> rel s s1 -> dom (tab s1) = dom (tab s) -> (forall y, y <> id -> tab s1 !! y = tab s !! y) ->
  (skips x <= skips x1)%Z -> (skips x1 = skips x -> good s1 id) -> body_post s1 l x1 x' s' -> body_post s (id :: l) x x' s'.
Proof.
  intros Hs1 Hnew Hrel Hd Hoth Hsk Hg [Hrel' Hd' Hoth' Hsk' Hg']. split; [by etrans|congruence| |lia|].
  - intros y [Hy Hyl]%not_elem_of_cons. by rewrite Hoth', Hoth.
  - intros Heq. constructor; [|apply Hg'; lia]. eapply good_stable; [exact Hs1|exact Hrel'|by apply Hoth'|apply Hg; lia].
Qed.

Lemma rows_after after s id : id ∈ (rows after s).*1 -> (after < id)%N /\ id ∈ dom (tab s).
Proof.
  rewrite rows_page. intros ([id' a] & -> & Hp)%list_elem_of_fmap. split; [by apply page_after in Hp|].
  apply src_tab, elem_of_dom. exists a. by apply page_in in Hp as [? _].
Qed.
Lemma rows_last after s last_id b : last (rows after s) = Some (last_id, b) -> last_id ∈ (rows after s).*1.
Proof. intros Hl%last_Some_elem_of. apply list_elem_of_fmap. by exists (last_id, b). Qed.

(** One page, when none of its rows was skipped. *)
Lemma page_good G s after x x1 s1 id :
  sound G s -> body_post s (rows after s).*1 x x1 s1 -> skips x1 = skips x -> limit <> 0%Z -> (after < id)%N ->
  (forall last_id b, last (rows after s) = Some (last_id, b) -> (last_id < id)%N ->
     (Z.of_nat (length (rows after s)) <? limit)%Z = true) ->
  good s1 id.
Proof.
  intros Hs Hp Hsk Hlim Ha Hcov. pose proof (bp_good _ _ _ _ _ Hp Hsk) as Hall. rewrite Forall_forall in Hall.
  destruct (decide (id ∈ (rows after s).*1)) as [Hin|Hin]; [by apply Hall|].
  apply (good_stable G s); [done|apply Hp|by apply Hp|]. apply (good_unwanted G); [done|]. intros a Hsrc.
  destruct (keep s a) eqn:Ek; [|done]. exfalso. pose proof (rows_page after s) as Hrp.
  destruct (page_covers (src s) (keep s) after limit id a Hlim Hsrc Ek Ha) as [Hpg|(last_id & b & Hl & Hlt & Hfull)].
  - apply Hin. rewrite Hrp. apply list_elem_of_fmap. by exists (id, a).
  - assert (last (rows after s).*1 = Some last_id) as Hl' by (rewrite Hrp, fmap_last; by rewrite Hl).
    rewrite fmap_last in Hl'. destruct (last (rows after s)) as [[id' b']|] eqn:El; [|done]. injection Hl' as ->.
    specialize (Hcov _ _ eq_refl Hlt). apply (f_equal length) in Hrp. rewrite !length_fmap in Hrp. congruence.
Qed.

Record paged_post (s : Keys) (after : N) (x x' : X) (s' : Keys) : Prop := {
  pp_rel : rel s s';
  pp_before id : (id <= after)%N -> tab s' !! id = tab s !! id;
  pp_skips : (skips x <= skips x')%Z;
  pp_good id : limit <> 0%Z -> skips x' = skips x -> (after < id)%N -> good s' id
}.

(** The last page, and one before the last. *)
Lemma paged_last G s after x x1 s1 :
  sound G s -> body_post s (rows after s).*1 x x1 s1 ->
  (forall last_id b, last (rows after s) = Some (last_id, b) -> (Z.of_nat (length (rows after s)) <? limit)%Z = true) ->
  paged_post s after x x1 s1.
Proof.
  intros Hs Hp Hlast. split; [apply Hp| |apply Hp|].
  - intros id Hid. apply Hp. intros Hin%rows_after. lia.
  - intros id Hlim Hsk Ha. eapply page_good; eauto.
Qed.
Lemma paged_next G G1 s s1 s' after last_id b x x1 x' :
  sound G s -> sound G1 s1 -> last (rows after s) = Some (last_id, b) ->
  body_post s (rows after s).*1 x x1 s1 -> paged_post s1 last_id x1 x' s' -> paged_post s after x x' s'.
Proof.
  intros Hs Hs1 Hl Hp [Hrel Hold Hsk Hgood]. pose proof (bp_skips _ _ _ _ _ Hp) as Hsk1.
  destruct (rows_after after s last_id (rows_last _ _ _ _ Hl)) as [Hlt _]. split; [etrans; [apply Hp|done]| |lia|].
  - intros id Hid. rewrite Hold by lia. apply Hp. intros Hin%rows_after. lia.
  - intros id Hlim Heq Ha. destruct (decide (last_id < id)%N) as [Hgt|Hle]; [apply Hgood; [done|lia|done]|].
    apply (good_stable G1 s1); [done|done|apply Hold; lia|]. eapply page_good; [exact Hs|exact Hp|lia|done|done|].
    intros id' b' Hl' Hlt'. rewrite Hl in Hl'. injection Hl' as <- _. lia.
Qed.

(** The loop ends, with any more fuel in the same way. *)
Lemma paged_ends n : forall G s after x,
  sound G s -> behind (dom (tab s)) after <= n ->
  exists x' s' G', evolves G s G' s' /\ paged_post s after x x' s'
    /\ forall fuel, n < fuel -> paged rows body limit fuel after x s = (Ok (Some x'), s').
Proof.
  induction n as [|n IH]; intros G s after x Hs Hn; destruct (last (rows after s)) as [[last_id b]|] eqn:El.
  2, 4: exists x, s, G; split_and!; [by apply evolves_data| |intros [|fuel] Hf; [lia|]; cbn [paged]; unfold kbind; cbn [get]; by rewrite El];
    eapply (paged_last G); [done| |congruence]; apply last_None in El as ->; split; [reflexivity|done|done|done|by constructor].
  1, 2: destruct (rows_after after s last_id (rows_last _ _ _ _ El)) as [Hgt Hin]; pose proof (behind_lt _ _ _ Hin Hgt) as Hlt.
  { lia. }
  destruct (body_runs G s after x Hs) as (x1 & s1 & G1 & Hrun & He1 & Hp). pose proof (ev_sound _ _ _ _ He1) as Hs1.
  destruct (Z.of_nat (length (rows after s)) <? limit)%Z eqn:Ec.
  - exists x1, s1, G1. split_and!; [done|by eapply paged_last|]. intros [|fuel] Hf; [lia|]. cbn [paged]. unfold kbind. cbn [get].
    by rewrite El, Hrun, Ec.
  - destruct (IH G1 s1 last_id x1 Hs1) as (x' & s' & G' & He' & Hp' & Hend); [rewrite (bp_dom _ _ _ _ _ Hp); lia|].
    exists x', s', G'. split_and!; [by eapply evolves_trans|by eapply paged_next|]. intros [|fuel] Hf; [lia|]. cbn [paged]. unfold kbind.
    cbn [get]. rewrite El, Hrun, Ec. apply Hend. lia.
Qed.
End paging.

Lemma Tr_paged {X B R} (tab : Keys -> gmap N B) (rows : N -> Keys -> list (N * R)) (body : list (N * R) -> X -> K X) limit skips rel good fuel :
  body_ok tab rows body skips rel good ->
  forall G s after x, sound G s -> Tr G s (paged rows body limit fuel after x) (fun _ _ _ => True).
Proof.
  intros Hbody. induction fuel as [|fuel IH]; intros G s after x Hs; cbn [paged]; [by apply Tr_ret|].
  eapply Tr_bind; [by apply Tr_get|]. intros l G1 s1 _ (-> & -> & ->). destruct (last _) as [[last_id ?]|]; [|by apply Tr_ret].
  eapply (Tr_bind _ _ _ _ (fun _ _ _ => True)).
  { intros rr s' Hr. destruct (Hbody G s after x Hs) as (x1 & s1 & G1 & Hrun & He & _). rewrite Hrun in Hr. injection Hr as <- <-.
    by exists G1. }
  intros x1 G1 s1 He _. destruct (_ <? _)%Z; [by apply Tr_ret; [apply He|]|]. apply IH, He.
Qed.

(** *** Workspace keys under another wrapping key *)

Definition columns_ok (G : gmap N (list N)) (e : N * WorkspaceKeyRow) : Prop :=
  forall x, row_columns e.2 = Some x -> form G e.1 x.
Definition tidy (s : Keys) (id : N) : Prop := forall r, workspace_keys s !! id = Some r -> foreign custody r = false.
Definition any (_ _ : Keys) : Prop := True.
#[local] Instance any_preorder : PreOrder any.
Proof. done. Qed.
Lemma tidy_stable (G : gmap N (list N)) s s' id :
  sound G s -> any s s' -> workspace_keys s' !! id = workspace_keys s !! id -> tidy s id -> tidy s' id.
Proof. intros _ _ Hw Ht r. rewrite Hw. apply Ht. Qed.

Lemma Tr_rewrap_row G s id r :
  sound G s -> columns_ok G (id, r) ->
  Tr G s (rewrap_row local custody id r)
    (fun _ _ s' => dom (workspace_keys s') = dom (workspace_keys s) /\ tidy s' id
                   /\ forall y, y <> id -> workspace_keys s' !! y = workspace_keys s !! y).
Proof.
  intros Hs Hf. unfold columns_ok, row_columns in Hf. simpl in Hf. unfold rewrap_row.
  destruct (wk_wrapping r) as [kid|], (wk_wrapped r) as [blob|]; try by apply Tr_fail.
  destruct (Hf _ eq_refl) as (key & Hk & Hc). eapply Tr_bind.
  { apply Tr_mem; [done|]. apply (mem_bind G _ _ (fun k => k = key)).
    - eapply mem_post; [apply mem_owner_unwrap|]. intros k Hk'. simpl in Hk'. congruence.
    - intros k ->. apply mem_journalled_wrap. by eapply (so_len _ _ Hs). }
  intros w G1 s1 He1 ((Hw & Hcur) & -> & _ & Hws & _). eapply Tr_post; [apply Tr_put_ws; [apply He1| |]|].
  - apply map_Forall_alter; [apply He1|]. intros r0 _ (? & _ & Hret & _). split_and!; [done|by eexists|done|].
    intros x [= <-]. exists key. split; [done|]. by destruct w.
  - intros id' subject r0 _ _ _. by apply is_live_alter.
  - intros u G2 s2 _ (_ & Hw2 & _). unfold tidy. rewrite Hw2, dom_alter_L, Hws. split_and!; [done| |].
    + intros r0. rewrite lookup_alter_eq. intros (r1 & _ & ->)%fmap_Some. unfold foreign. simpl. by rewrite Hcur, andb_false_r.
    + intros y Hy. by rewrite lookup_alter_ne.
Qed.
Lemma Tr_rewrap_rows l : forall p G s,
  sound G s -> NoDup l.*1 -> Forall (columns_ok G) l ->
  Tr G s (rewrap_rows local custody l p) (fun p' _ s' => body_post workspace_keys skipped any tidy s l.*1 p p' s').
Proof.
  induction l as [|[id r] l IH]; intros p G s Hs Hnd Hl; cbn [rewrap_rows].
  { apply Tr_ret; [done|]. split; [done|done|done|done|constructor]. }
  apply NoDup_cons in Hnd as [Hnew Hnd]. apply Forall_cons in Hl as [Hr Hl]. eapply Tr_bind; [by apply Tr_attempt, Tr_rewrap_row|].
  intros o G1 s1 He Ho. eapply Tr_post; [apply IH; [apply He|done|]|].
  - eapply Forall_impl; [exact Hl|]. intros e Hc x Hx. eapply form_mono; [apply He|auto].
  - intros p' G2 s2 _. destruct o as [u|e].
    + destruct Ho as (Hd & Ht & Hoth).
      apply (body_cons _ _ _ _ any_preorder tidy_stable G1 s s1); [apply He|done|done|done|done|simpl; lia|done].
    + destruct Ho as (_ & Hw).
      apply (body_cons _ _ _ _ any_preorder tidy_stable G1 s s1); [apply He|done|done|by rewrite Hw|by rewrite Hw|simpl; lia|simpl; lia].
Qed.
Lemma rewrap_rows_ok l : forall p s, exists p' s', rewrap_rows local custody l p s = (Ok p', s').
Proof.
  induction l as [|[id r] l IH]; intros p s; cbn [rewrap_rows]; [by exists p, s|]. unfold kbind, attempt.
  destruct (atomically _ s) as [o s1]. apply IH.
Qed.
Lemma rewrap_body limit :
  body_ok workspace_keys (fun after s => page (workspace_keys s) (foreign custody) after limit) (rewrap_rows local custody) skipped any tidy.
Proof.
  intros G s after p Hs. destruct (rewrap_rows_ok (page (workspace_keys s) (foreign custody) after limit) p s) as (p1 & s1 & Hrun).
  assert (Forall (columns_ok G) (page (workspace_keys s) (foreign custody) after limit)) as Hcol.
  { apply Forall_forall. intros [id r] He%page_in x Hx. simpl in *.
    pose proof (tb_ws _ _ _ (so_tab _ _ Hs) id r (proj1 He)) as (_ & _ & _ & Hform). by apply Hform. }
  destruct (Tr_rewrap_rows _ p G s Hs (page_nodup _ _ _ _) Hcol _ _ Hrun) as (G1 & He1 & Hp). exists p1, s1, G1. split_and!; auto.
Qed.

(** *** Data keys *)

Lemma data_content_length G subject w key : data_content G subject w key -> length key = KEY_LEN.
Proof.
  assert (forall k aad blob, kek_open k aad blob = Ok key -> length key = KEY_LEN) as Hopen.
  { intros k aad blob. unfold kek_open. destruct (_ <=? _); [done|]. destruct (decrypt _ _ _ _) as [b|]; [|done].
    destruct (length b =? KEY_LEN)%nat eqn:El; [|done]. intros [= <-]. by apply Nat.eqb_eq. }
  unfold data_content. destruct (parse_workspace_kek_id _); intros (? & _ & Hk); eauto.
Qed.

Lemma same_columns (x w : WrappedKey) r :
  ck_kek r = Some (w_kek w) -> ck_wrapped r = Some (w_blob w) -> ck_kek r = Some (w_kek x) -> ck_wrapped r = Some (w_blob x) -> x = w.
Proof. destruct x, w. simpl. congruence. Qed.

(** A data key that is where it should be. *)
Definition placed (s : Keys) (subject : N) : Prop :=
  exists r, content_keys s !! subject = Some r /\ misplaced s r = false.
Lemma misplaced_sub G s s' subject r :
  sound G s -> content_keys s !! subject = Some r -> workspace_keys s ⊆ workspace_keys s' -> misplaced s' r = misplaced s r.
Proof.
  intros Hs Hr Hsub. unfold misplaced. destruct (decide (ck_shredded r = None)) as [Hn|Hn]; [|by rewrite bool_decide_false].
  destruct (tb_live _ _ _ (so_tab _ _ Hs) _ _ Hr Hn) as (x & key & _ & _ & _ & _ & Hl).
  destruct (ck_wk r) as [id|]; [|done]. destruct (Hl id eq_refl) as (k & Hk & _). by rewrite Hk, (lookup_weaken _ _ _ _ Hk Hsub).
Qed.
Lemma placed_sub G s s' subject :
  sound G s -> workspace_keys s ⊆ workspace_keys s' -> content_keys s' !! subject = content_keys s !! subject ->
  placed s subject -> placed s' subject.
Proof. intros Hs Hsub Hc (r & Hr & Hm). exists r. rewrite Hc. split; [done|]. by rewrite (misplaced_sub G s s' subject). Qed.

Definition move_post (s : Keys) (subject : N) (ok : bool) (s' : Keys) : Prop :=
  (forall y, y <> subject -> content_keys s' !! y = content_keys s !! y) /\ grown (workspace_keys s) (workspace_keys s')
  /\ is_Some (content_keys s' !! subject) /\ (ok = true -> placed s' subject).

Lemma Tr_move_key G s subject r w :
  sound G s -> content_keys s !! subject = Some r -> ck_shredded r = None ->
  ck_kek r = Some (w_kek w) -> ck_wrapped r = Some (w_blob w) ->
  Tr G s (move_key local custody subject r w) (fun _ _ s' => move_post s subject true s').
Proof.
  intros Hs Hr Hn Hk Hb. eapply Tr_bind; [apply Tr_mem, mem_unwrap; done|]. intros key G1 s1 He1 (Hd & -> & Hc1 & Hw1 & _).
  eapply Tr_bind; [apply Tr_active, He1|]. intros active G2 s2 He2 (Hc2 & Hw2 & Hl).
  eapply Tr_bind; [apply Tr_mem, mem_wrap_for_workspace; [apply He2|by eapply data_content_length]|].
  intros w' G3 s3 He3 ((Hk' & Hd') & -> & Hc3 & Hw3 & _). intros rr s' [= <- <-]. exists G2.
  assert (data_content G2 subject w' key) as Hdw by (unfold data_content; by rewrite Hk', parse_kek_id).
  assert (content_keys s3 = content_keys s) as Hc by congruence. split.
  - apply (evolves_row G2 s3 subject (moved w' active r) (alter (moved w' active) subject (content_keys s3))).
    + apply He3.
    + by rewrite lookup_alter_eq, Hc, Hr.
    + intros y Hy. by rewrite lookup_alter_ne.
    + intros _. split.
      * exists w', key. split_and!; [done|done|done|by rewrite Hk', parse_kek_id|]. rewrite Hw3. intros id [= <-]. by apply active_live.
      * intros r0 Hr0. rewrite Hc, Hr in Hr0. injection Hr0 as <-. split; [done|].
        intros key' (r1 & x & Hr1 & _ & Hkx & Hbx & Hdx). rewrite Hc, Hr in Hr1. injection Hr1 as <-.
        rewrite (same_columns x w r Hk Hb Hkx Hbx) in Hdx. exists w'. split_and!; [done|done|].
        assert (data_content G2 subject w key) as Hdo by (eapply data_content_mono; [apply He2|done]).
        by rewrite (data_content_fun _ _ _ _ _ Hdo Hdx).
    + done.
  - intros _ _. destruct Hl as (k & Hkr & _ & Hret). split_and!; simpl.
    + intros y Hy. by rewrite lookup_alter_ne, Hc.
    + rewrite Hw3. by rewrite Hw1 in Hw2.
    + by rewrite lookup_alter_eq, Hc, Hr.
    + intros _. exists (moved w' active r). simpl. rewrite lookup_alter_eq, Hc, Hr. split; [done|].
      unfold misplaced. simpl. rewrite Hw3, Hkr, Hret. by rewrite andb_false_r.
Qed.

(** A row of a page that is still as it was read. *)
Definition to_move (G : gmap N (list N)) (s : Keys) (e : N * (ContentKeyRow * Joined)) : Prop :=
  content_keys s !! e.1 = Some e.2.1 /\ ck_shredded e.2.1 = None
  /\ forall kid x, ck_kek e.2.1 = Some kid -> joined_workspace_key kid e.2.2 = Ok (Some x) -> form G x.1 x.2.

Lemma Tr_move_row G s subject r j :
  sound G s -> to_move G s (subject, (r, j)) ->
  Tr G s (move_row local custody subject r j) (fun out _ s' => move_post s subject out.1 s').
Proof.
  intros Hs (Hr & Hn & Hj). simpl in *. unfold move_row.
  destruct (ck_kek r) as [kid|] eqn:Ek; [|by apply Tr_fail]. destruct (ck_wrapped r) as [blob|] eqn:Eb; [|by apply Tr_fail].
  eapply Tr_bind; [apply Tr_attempt; [done|]; apply Tr_mem, mem_open_joined; [done|intros x; by apply Hj]|].
  intros o G1 s1 He1 Ho. assert (content_keys s1 = content_keys s /\ workspace_keys s1 = workspace_keys s) as [Hc1 Hw1].
  { by destruct o; [destruct Ho as (_ & _ & ? & ? & _)|]. }
  assert (forall s2, content_keys s2 = content_keys s1 -> workspace_keys s2 = workspace_keys s1 -> move_post s subject false s2) as Hkept.
  { intros s2 Hc2 Hw2. unfold move_post. rewrite Hc2, Hw2, Hc1, Hw1, Hr. split_and!; [done|apply grown_refl|done|done]. }
  destruct o as [u|e]; [|apply Tr_ret; [apply He1|by apply Hkept]]. eapply Tr_bind.
  { apply Tr_attempt; [apply He1|]. apply Tr_move_key; [apply He1|by rewrite Hc1|done|done|done]. }
  intros o G2 s2 He2 Ho2. apply Tr_ret; [apply He2|]. destruct o as [u'|]; [|exact (Hkept s2 (proj1 Ho2) (proj2 Ho2))].
  unfold move_post in *. by rewrite Hc1, Hw1 in Ho2.
Qed.

Definition in_place (s : Keys) (subject : N) : Prop := is_Some (content_keys s !! subject) -> placed s subject.
Definition ws_grown (s s' : Keys) : Prop := grown (workspace_keys s) (workspace_keys s').
#[local] Instance ws_grown_preorder : PreOrder ws_grown.
Proof. split; [intros s; apply grown_refl|intros s1 s2 s3; apply grown_trans]. Qed.
Lemma in_place_stable G s s' subject :
  sound G s -> ws_grown s s' -> content_keys s' !! subject = content_keys s !! subject -> in_place s subject -> in_place s' subject.
Proof. intros Hs Hg Hc Hp. unfold in_place. rewrite Hc. intros Hin. by apply (placed_sub G s); [|apply Hg| |apply Hp]. Qed.

Lemma unwanted_in_place (G : gmap N (list N)) s id :
  sound G s -> (forall r, content_keys s !! id = Some r -> misplaced s r = false) -> in_place s id.
Proof. intros _ Hn [r Hr]. exists r. auto. Qed.

Definition moves_skipped (x : gset N * RewrapPass) : Z := skipped x.2.
Lemma Tr_move_rows l : forall refused p G s,
  sound G s -> NoDup l.*1 -> Forall (to_move G s) l ->
  Tr G s (move_rows local custody l refused p)
    (fun out _ s' => body_post content_keys moves_skipped ws_grown in_place s l.*1 (refused, p) out s').
Proof.
  induction l as [|[subject [r j]] l IH]; intros refused p G s Hs Hnd Hl; cbn [move_rows].
  { apply Tr_ret; [done|]. split; [done|done|done|done|constructor]. }
  apply NoDup_cons in Hnd as [Hnew Hnd]. apply Forall_cons in Hl as [Hr Hl]. destruct (match _ with Some _ => _ | None => _ end).
  { eapply Tr_post; [by apply IH|]. intros out G1 s1 He.
    apply (body_cons _ _ _ _ ws_grown_preorder in_place_stable G s s); [done|done|done|done|done|unfold moves_skipped; simpl; lia|].
    unfold moves_skipped. simpl. lia. }
  eapply Tr_bind; [by apply Tr_move_row|]. intros [ok open_refused] G1 s1 He (Hoth & Hw & Hin & Hok). eapply Tr_post; [apply IH; [apply He|done|]|].
  - apply Forall_forall. intros [y [ry jy]] Hy. rewrite Forall_forall in Hl. destruct (Hl _ Hy) as (Hry & Hny & Hjy).
    simpl in *. split_and!; simpl; [rewrite Hoth; [done|]|done|].
    + intros ->. apply Hnew. apply list_elem_of_fmap. by exists (subject, (ry, jy)).
    + intros kid x Hk Hx. eapply form_mono; [apply He|eauto].
  - intros out G2 s2 He2. apply (body_cons _ _ _ _ ws_grown_preorder in_place_stable G1 s s1); [apply He|done|done| |done| |].
    + apply set_eq. intros y. rewrite !elem_of_dom. destruct (decide (y = subject)) as [->|]; [|by rewrite Hoth].
      pose proof (proj1 Hr) as Hr1. simpl in Hr1. by rewrite Hr1.
    + unfold moves_skipped. destruct ok; simpl; lia.
    + unfold moves_skipped. destruct ok; simpl; [by intros _ _; apply Hok|lia].
Qed.
Lemma page_to_move G s after limit :
  sound G s ->
  Forall (to_move G s) (page_rows limit after s).
Proof.
  intros Hs. apply Forall_fmap, Forall_forall. intros [subject r] He%page_in. simpl in He. destruct He as [Hr Hm].
  split_and!; simpl; [done| |by intros; eapply joined_sound].
  unfold misplaced in Hm. apply andb_true_iff in Hm as [Hm _]. by apply bool_decide_eq_true in Hm.
Qed.
Lemma page_rows_ids limit after s : (page_rows limit after s).*1 = (page (content_keys s) (misplaced s) after limit).*1.
Proof. unfold page_rows. by rewrite <- list_fmap_compose. Qed.
Lemma move_rows_ok l : Forall (fun e => is_Some (ck_kek e.2.1) /\ is_Some (ck_wrapped e.2.1)) l ->
  forall refused p s, exists out s', move_rows local custody l refused p s = (Ok out, s').
Proof.
  induction 1 as [|[subject [r j]] l [[kid Hk] [blob Hb]] _ IH]; intros refused p s; cbn [move_rows]; [by eexists _, s|].
  destruct (match _ with Some _ => _ | None => _ end); [apply IH|]. simpl in Hk, Hb. unfold move_row. rewrite Hk, Hb.
  unfold kbind at 1 2, attempt at 1. destruct (atomically _ s) as [[u|e] s1]; [|apply IH].
  unfold kbind at 1, attempt. destruct (atomically _ s1) as [o s2]. cbn [kret]. apply IH.
Qed.
Lemma moves_body limit :
  body_ok content_keys (page_rows limit) (fun l x => move_rows local custody l x.1 x.2) moves_skipped ws_grown in_place.
Proof.
  intros G s after [refused p] Hs. pose proof (page_to_move G s after limit Hs) as Hmv.
  assert (Forall (fun e => is_Some (ck_kek e.2.1) /\ is_Some (ck_wrapped e.2.1)) (page_rows limit after s)) as Hcol.
  { eapply Forall_impl; [exact Hmv|]. intros [subject [r j]] (Hr & Hn & _). simpl in *.
    destruct (tb_live _ _ _ (so_tab _ _ Hs) _ _ Hr Hn) as (x & key & -> & -> & _). by split; eexists. }
  destruct (move_rows_ok _ Hcol refused p s) as (out & s1 & Hrun).
  assert (NoDup (page_rows limit after s).*1) as Hnd by (rewrite page_rows_ids; apply page_nodup).
  destruct (Tr_move_rows _ refused p G s Hs Hnd Hmv _ _ Hrun) as (G1 & He1 & Hp). exists out, s1, G1. split_and!; auto.
Qed.

(** *** Retired workspace keys *)

Definition to_destroy (s : Keys) (id : N) : Prop :=
  is_Some (workspace_keys s !! id) /\ (forall r, workspace_keys s !! id = Some r -> wk_retired r <> None)
  /\ forall subject r, content_keys s !! subject = Some r -> ck_shredded r = None -> ck_wk r <> Some id.

Lemma doomed_to_destroy s id r : doomed s !! id = Some r -> workspace_keys s !! id = Some r /\ to_destroy s id.
Proof.
  unfold doomed. rewrite map_lookup_filter_Some. intros (Hr & Hret & _ & Href). simpl in *. split; [done|].
  split_and!; [by exists r|intros r'; congruence|]. intros subject row Hrow Hn Hwk. unfold referenced_live in Href.
  apply not_true_iff_false in Href. apply Href, existsb_exists. exists (subject, row). split.
  - by apply list_elem_of_In, elem_of_map_to_list.
  - simpl. by rewrite !bool_decide_true.
Qed.

Lemma unreferenced s id :
  (forall subject r, content_keys s !! subject = Some r -> ck_shredded r = None -> ck_wk r <> Some id) -> referenced_live s id = false.
Proof.
  intros Hfree. apply not_true_iff_false. unfold referenced_live. rewrite existsb_exists. intros ([subject r] & Hin & Hb).
  apply list_elem_of_In, elem_of_map_to_list in Hin. simpl in Hb.
  apply andb_true_iff in Hb as [Hb1%bool_decide_eq_true Hb2%bool_decide_eq_true]. by eapply Hfree.
Qed.

Lemma mem_destroy_row G id r : mem G (destroy_row local custody id r) (fun _ => True).
Proof.
  unfold destroy_row. destruct (wk_wrapping r), (wk_wrapped r); try by apply mem_ret. intros s rr s' Ho Hr.
  destruct (destroy_workspace_key _ _ _ _ s) as [[u|e] s1] eqn:Ed; injection Hr as <- <-;
    (eapply (mem_bind G _ _ (fun _ => True) (fun _ => True)) in Ed; [|apply mem_owner_destroy|intros ? _; apply mem_forget|done]);
    destruct Ed as (? & ? & ? & ? & _); by split_and!.
Qed.

Definition retired_of (s : Keys) (id : N) : option (option Z) := wk_retired <$> workspace_keys s !! id.
Lemma retired_of_alter s s' now id id' :
  workspace_keys s' = alter (mark_destroyed now) id (workspace_keys s) -> retired_of s' id' = retired_of s id'.
Proof.
  unfold retired_of. intros ->. rewrite lookup_alter. destruct (decide (id = id')) as [->|]; [|done].
  destruct (workspace_keys s !! id') as [r|]; [|done]. simpl. unfold mark_destroyed. by destruct (decide _).
Qed.

Lemma to_destroy_alter s s' now id id' :
  content_keys s' = content_keys s -> workspace_keys s' = alter (mark_destroyed now) id (workspace_keys s) ->
  to_destroy s id' -> to_destroy s' id'.
Proof.
  intros Hc Hw (Hin & Hret & Href). unfold to_destroy. rewrite Hc, Hw, lookup_alter.
  destruct (decide (id = id')) as [->|]; [|done]. split_and!; [by apply fmap_is_Some| |done].
  intros r (r1 & Hr1 & ->)%fmap_Some. unfold mark_destroyed. destruct (decide _); exact (Hret r1 Hr1).
Qed.

Lemma Tr_mark G s id :
  sound G s -> to_destroy s id ->
  Tr G s (now <- clock_reading ;;
          fresh <- get (fun s => match workspace_keys s !! id with Some r => bool_decide (wk_destroyed r = None) | None => false end) ;;
          put (upd_workspace (alter (mark_destroyed now) id)) ;;
          kret fresh)
    (fun _ _ s' => content_keys s' = content_keys s
                   /\ exists now, workspace_keys s' = alter (mark_destroyed now) id (workspace_keys s)).
Proof.
  intros Hs (_ & Hret & Href). eapply Tr_bind; [apply Tr_mem, mem_clock; done|]. intros now G2 s2 He2 (_ & -> & Hc2 & Hw2 & _).
  eapply Tr_bind; [apply Tr_get, He2|]. intros fresh G3 s3 _ (_ & -> & ->).
  eapply Tr_bind.
  { apply Tr_put_ws; [apply He2| |].
    - apply map_Forall_alter; [apply He2|]. intros r0 Hr0 (? & Hc & Hd & Hf). rewrite Hw2 in Hr0.
      unfold mark_destroyed. destruct (decide _); [|by split_and!].
      split_and!; [done|done|intros _; exact (Hret r0 Hr0)|done].
    - intros id' subject r0 Hr0 Hn Hwk. rewrite Hc2 in Hr0. apply is_live_alter. intros k _ _ ->.
      by destruct (Href subject r0). }
  intros u G3 s3 He3 (Hc3 & Hw3 & ->). apply Tr_ret; [apply He3|]. rewrite Hc3, Hw3, Hc2, Hw2. split; [done|]. by exists now.
Qed.

(** The loop, with its step as one. *)
Lemma destroy_rows_cons id r l p :
  destroy_rows local custody ((id, r) :: l) p =
  kbind (destroy_row local custody id r) (fun d => if d : bool
    then kbind (now <- clock_reading ;;
                fresh <- get (fun s => match workspace_keys s !! id with Some r => bool_decide (wk_destroyed r = None) | None => false end) ;;
                put (upd_workspace (alter (mark_destroyed now) id)) ;;
                kret fresh) (fun fresh => destroy_rows local custody l (if fresh : bool then did_change p else p))
    else destroy_rows local custody l (did_not_destroy p)).
Proof. reflexivity. Qed.

(** A workspace key that is in use, or destroyed. *)
Definition settled (s : Keys) (id : N) : Prop :=
  forall r, workspace_keys s !! id = Some r -> wk_retired r <> None -> referenced_live s id = false -> wk_destroyed r <> None.
Definition marked (s s' : Keys) : Prop :=
  content_keys s' = content_keys s /\ (forall id, retired_of s' id = retired_of s id)
  /\ forall id r, workspace_keys s' !! id = Some r -> wk_destroyed r = None -> workspace_keys s !! id = Some r.
#[local] Instance marked_preorder : PreOrder marked.
Proof.
  split; [by intros s|]. intros s1 s2 s3 (Hc1 & Hr1 & Hd1) (Hc2 & Hr2 & Hd2). split_and!; [congruence|intros id; by rewrite Hr2|auto].
Qed.
Lemma settled_stable (G : gmap N (list N)) s s' id :
  sound G s -> marked s s' -> workspace_keys s' !! id = workspace_keys s !! id -> settled s id -> settled s' id.
Proof. intros _ [Hc _] Hw Hs r. unfold referenced_live. rewrite Hc, Hw. apply Hs. Qed.

Lemma unwanted_settled (G : gmap N (list N)) s id : sound G s -> (forall r, doomed s !! id = Some r -> true = false) -> settled s id.
Proof. intros _ Hn r Hr Hret Href Hd. specialize (Hn r). unfold doomed in Hn. rewrite map_lookup_filter_Some in Hn. by discriminate Hn. Qed.

Lemma Tr_destroy_rows l : forall p G s,
  sound G s -> NoDup l.*1 -> Forall (fun e => to_destroy s e.1) l ->
  Tr G s (destroy_rows local custody l p) (fun p' _ s' => body_post workspace_keys skipped marked settled s l.*1 p p' s').
Proof.
  induction l as [|[id r] l IH]; intros p G s Hs Hnd Hl.
  { apply Tr_ret; [done|]. split; [done|done|done|done|constructor]. }
  rewrite destroy_rows_cons. apply NoDup_cons in Hnd as [Hnew Hnd]. apply Forall_cons in Hl as [Hid Hl]. simpl in Hid.
  eapply Tr_bind; [apply Tr_mem, mem_destroy_row; done|]. intros [] G1 s1 He1 (_ & -> & Hc1 & Hw1 & _).
  2: { eapply Tr_post; [apply IH; [apply He1|done|]|].
       - eapply Forall_impl; [exact Hl|]. intros e. unfold to_destroy. by rewrite Hc1, Hw1.
       - intros p' G2 s2 _. apply (body_cons _ _ _ _ marked_preorder settled_stable G s s1); [apply He1|done| |by rewrite Hw1|by rewrite Hw1| |].
         + unfold marked, retired_of. by rewrite Hw1.
         + simpl. lia.
         + simpl. lia. }
  eapply Tr_bind; [apply Tr_mark; [apply He1|]|]; [unfold to_destroy; by rewrite Hc1, Hw1|].
  intros fresh G2 s2 He2 (Hc2 & now & Hw2). rewrite Hc1 in Hc2. rewrite Hw1 in Hw2. eapply Tr_post; [apply IH; [apply He2|done|]|].
  - eapply Forall_impl; [exact Hl|]. intros e. by apply (to_destroy_alter s s2 now id).
  - intros p' G3 s3 _. apply (body_cons _ _ _ _ marked_preorder settled_stable G2 s s2); [apply He2|done| | | | |].
    + split_and!; [done|intros id'; by eapply retired_of_alter|]. intros id' r0. rewrite Hw2, lookup_alter.
      destruct (decide (id = id')); [|done]. intros (r1 & _ & ->)%fmap_Some. unfold mark_destroyed. by destruct (decide _).
    + by rewrite Hw2, dom_alter_L.
    + intros y Hy. rewrite Hw2. by rewrite lookup_alter_ne.
    + by destruct fresh.
    + intros _ r0. rewrite Hw2, lookup_alter_eq. intros (r1 & _ & ->)%fmap_Some _ _. unfold mark_destroyed. by destruct (decide _).
Qed.
Lemma destroy_rows_ok l : forall p s, exists p' s', destroy_rows local custody l p s = (Ok p', s').
Proof.
  induction l as [|[id r] l IH]; intros p s; [by exists p, s|]. rewrite destroy_rows_cons.
  assert (exists d s1, destroy_row local custody id r s = (Ok d, s1)) as (d & s1 & Hd).
  { unfold destroy_row. destruct (wk_wrapping r), (wk_wrapped r); try by exists true, s.
    destruct (destroy_workspace_key _ _ _ _ s) as [[]]; eauto. }
  unfold kbind at 1. rewrite Hd. destruct d; [|apply IH]. unfold kbind at 1.
  destruct ((now <- clock_reading ;; _) s1) as [[fresh|e] s2] eqn:E; [apply IH|]. by destruct s1.
Qed.

Lemma destroy_body limit :
  body_ok workspace_keys (fun after s => page (doomed s) (fun _ => true) after limit) (destroy_rows local custody) skipped marked settled.
Proof.
  intros G s after p Hs. destruct (destroy_rows_ok (page (doomed s) (fun _ => true) after limit) p s) as (p1 & s1 & Hrun).
  assert (Forall (fun e => to_destroy s e.1) (page (doomed s) (fun _ => true) after limit)) as Hd.
  { apply Forall_forall. intros [id r] [He _]%page_in. by eapply doomed_to_destroy. }
  destruct (Tr_destroy_rows _ p G s Hs (page_nodup _ _ _ _) Hd _ _ Hrun) as (G1 & He1 & Hp). exists p1, s1, G1. split_and!; auto.
Qed.

Lemma Tr_rewrap G s fuel limit : sound G s -> Tr G s (rewrap local custody fuel limit) (fun _ _ _ => True).
Proof.
  intros Hs. eapply Tr_bind; [by eapply Tr_paged, Hs; apply rewrap_body|].
  intros [p|] G1 s1 He1 _; [|by apply Tr_ret; [apply He1|]].
  eapply (Tr_bind _ _ _ _ (fun _ _ _ => True)).
  { eapply Tr_bind; [eapply Tr_paged, He1; apply moves_body|]. intros out G2 s2 He2 _. by apply Tr_ret; [apply He2|]. }
  intros [p'|] G2 s2 He2 _; [|by apply Tr_ret; [apply He2|]]. eapply Tr_paged, He2. apply destroy_body.
Qed.

(** ** Reading *)

Lemma read_gone s subject : gone s subject -> forall G, sound G s -> (read_key local custody subject s).1 = Ok None.
Proof.
  intros (r & Hr & Hn) G Hs. destruct (tb_shred _ _ _ (so_tab _ _ Hs) _ _ Hr Hn) as [Hk Hb].
  unfold read_key, kbind, get. rewrite Hr. simpl. by rewrite Hk.
Qed.

Lemma Tr_read G s subject :
  sound G s -> Tr G s (read_key local custody subject) (fun o _ _ => forall key, holds G s subject key -> o = Some key).
Proof.
  intros Hs. eapply Tr_bind; [by apply Tr_get|]. intros row G1 s1 _ (-> & -> & ->).
  destruct (content_keys s !! subject) as [r|] eqn:Er; simpl.
  2: { apply Tr_ret; [done|]. intros key (r & x & Hr & _). congruence. }
  eapply Tr_bind.
  { apply Tr_mem; [done|]. apply (mem_post G _ (fun _ => True)); [|by intros u _; exact (I : (fun _ => True) u)].
    destruct (ck_kek r) as [kid|] eqn:Ek; [|by apply mem_ret].
    destruct (joined_workspace_key kid (joined_of s r)) as [[[id w]|]|] eqn:Ej; try by apply mem_ret.
    apply mem_open_workspace_keys. constructor; [|constructor]. apply form_form_of.
    by apply (joined_sound G s subject r kid (id, w)). }
  intros u G1 s1 He1 (_ & -> & Hc & _). unfold unwrap_joined.
  destruct (ck_kek r) as [kid|] eqn:Ek, (ck_wrapped r) as [blob|] eqn:Eb;
    try (apply Tr_ret; [apply He1|]; intros key (r0 & x & Hr0 & _ & Hk0 & Hb0 & _); congruence).
  eapply Tr_bind.
  { apply Tr_mem; [apply He1|]. apply (mem_post G _ (fun _ => True)); [|by intros v _; exact (I : (fun _ => True) v)].
    eapply mem_bind; [by apply (mem_sealed G _ (fun _ => True))|]. intros [[id w]|] _; [|by apply mem_ret].
    eapply mem_bind; [apply mem_is_open|]. intros [] _; [by apply mem_ret|apply mem_fail]. }
  intros v G2 s2 He2 (_ & -> & _). eapply Tr_bind; [apply Tr_mem, mem_unwrap; apply He2|].
  intros key G3 s3 He3 (Hd & -> & _). apply Tr_ret; [apply He3|]. intros key' (r0 & x & Hr0 & _ & Hk0 & Hb0 & Hd0).
  rewrite Er in Hr0. injection Hr0 as <-. f_equal.
  rewrite (same_columns x {| w_kek := kid; w_blob := blob |} r Ek Eb Hk0 Hb0) in Hd0. by eapply data_content_fun.
Qed.

(** The custody opens the live workspace keys, while the clock's second lasts. *)
Definition answers (s : Keys) : Prop :=
  (forall n id r x k, workspace_keys s !! id = Some r -> wk_destroyed r = None -> row_columns r = Some x ->
     content custody id x = Some k -> unwrap_key custody n id x = Ok k)
  /\ forall n, draws s <= n <= draws s + 3 -> now_at_ n = now_at_ (draws s).

Lemma owner_unwrap_answers s id w k :
  (forall n, content custody id w = Some k -> unwrap_key custody n id w = Ok k) -> ws_content id w = Some k ->
  exists s', owner_unwrap local custody id w s = (Ok k, s') /\ draws s' = S (draws s) /\ open_keys s' = open_keys s.
Proof.
  intros Ha. unfold ws_content, owner_unwrap, kbind, draw. destruct (owner local custody (w_kek w)) as [[]|]; [| |done];
    cbn [sealed kret]; intros Hc.
  - rewrite (Ha _ Hc). by eexists.
  - simpl in Hc. simpl. destruct (local_open local id w) as [k'|]; [|done]. injection Hc as ->. by eexists.
Qed.

(** After a workspace key is opened, it is open. *)
Lemma open_answers s id w k :
  (forall n, content custody id w = Some k -> unwrap_key custody n id w = Ok k) -> ws_content id w = Some k ->
  (forall n, draws s <= n <= draws s + 3 -> now_at_ n = now_at_ (draws s)) ->
  exists s1 e, open_workspace_keys local custody [(id, w)] s = (Ok tt, s1) /\ open_keys s1 !! id = Some e
    /\ ow_wrapped e = w /\ fresh_entry (now_at_ (draws s1)) e = true.
Proof.
  intros Ha Hc Hnow. unfold open_workspace_keys. cbn [collect_wanted]. unfold kbind at 1 2.
  unfold is_open at 1, clock_reading at 1, kbind at 1 2, draw at 1, kret at 1, get at 1. cbn beta iota. cbn [open_keys].
  destruct (match open_keys s !! id with Some _ => _ | None => _ end) eqn:Eo.
  - destruct (open_keys s !! id) as [e|] eqn:Ee; [|done]. apply andb_true_iff in Eo as [Hw Hf]. apply bool_decide_eq_true in Hw.
    cbn [kret]. eexists _, e. split; [rewrite map_to_list_empty; reflexivity|]. cbn [draws open_keys].
    split_and!; [done|done|]. by rewrite (Hnow (S (draws s))) by lia.
  - cbn [kret]. rewrite insert_empty, map_to_list_singleton. cbn [open_wanted]. unfold kbind at 1.
    destruct (owner_unwrap_answers {| content_keys := content_keys s; workspace_keys := workspace_keys s; open_keys := open_keys s;
      pending := pending s; draws := S (draws s) |} id w k Ha Hc) as (s' & -> & Hd & Ho). cbn [draws open_keys] in Hd, Ho.
    eexists _, {| ow_key := k; ow_wrapped := w; ow_opened_at := now_at_ (draws s') |}. split; [reflexivity|].
    cbn. rewrite lookup_insert_eq. split_and!; [done|done|]. unfold fresh_entry, WORKSPACE_KEY_TTL. cbn [ow_opened_at].
    rewrite Hd. cbn [draws]. rewrite (Hnow (S (S (S (draws s))))), (Hnow (S (S (draws s)))) by lia. by rewrite Z.sub_diag.
Qed.

Lemma read_answers G s subject key :
  sound G s -> answers s -> holds G s subject key -> (read_key local custody subject s).1 = Ok (Some key).
Proof.
  intros Hs [Ha Hnow] (r & x & Hr & Hn & Hk & Hb & Hd).
  destruct (tb_live _ _ _ (so_tab _ _ Hs) _ _ Hr Hn) as (x' & key' & Hk' & Hb' & _ & Hwk & Hlive).
  rewrite (same_columns x' x r Hk Hb Hk' Hb') in Hwk. unfold read_key. unfold kbind at 1. cbn [get]. rewrite Hr. simpl. rewrite Hk, Hb.
  unfold unwrap_joined, require_joined, joined_workspace_key, unwrap. cbn [w_kek w_blob].
  unfold data_content in Hd. destruct (parse_workspace_kek_id (w_kek x)) as [id|] eqn:Ep.
  - destruct Hd as (bytes & HG & Hopen). destruct (Hlive id Hwk) as (k & Hkr & Hkd).
    destruct (tb_ws _ _ _ (so_tab _ _ Hs) _ _ Hkr) as (_ & Hcol & _ & Hform). destruct (Hcol Hkd) as [y Hy].
    destruct (Hform y Hy) as (bytes' & HG' & Hc). rewrite HG in HG'. injection HG' as <-.
    unfold joined_of. rewrite Hwk. simpl. rewrite Hkr. pose proof Hy as Hy'. unfold row_columns in Hy'.
    destruct (wk_wrapping k) as [kid|], (wk_wrapped k) as [blob|]; try done. injection Hy' as Hy'. rewrite Hy'.
    destruct (open_answers s id y bytes) as (s1 & e & Hop & He & Hew & Hfr); [intros n; by eapply Ha|done|done|].
    assert (opened G s1) as Ho1.
    { eapply (mem_open_workspace_keys G [(id, y)]); [|apply Hs|exact Hop]. constructor; [|constructor].
      apply form_form_of. by exists bytes. }
    revert Hopen. generalize (wrap_aad subject). intros aad Hopen. unfold kbind at 1. rewrite Hop.
    unfold require_open, is_open, clock_reading, kbind, draw, kret, get, sealed. cbn.
    rewrite He, Hew, bool_decide_true, Hfr by done. cbn. rewrite He. pose proof (Ho1 id e He) as Hbytes. rewrite HG in Hbytes.
    injection Hbytes as Hbytes. unfold entry_kek. rewrite <- Hbytes. unfold ws_kek in Hopen. by rewrite Hopen.
  - destruct Hd as (kk & Hkk & Hopen). unfold kbind, sealed, kret. rewrite Hkk. simpl. by rewrite Hopen.
Qed.

(** ** Keys are not lost, and not found again *)

Lemma Tr_run {A} G s (m : K A) Q : Tr G s m Q -> exists G', evolves G s G' (m s).2.
Proof. intros Hm. destruct (m s) as [r s'] eqn:Em. destruct (Hm r s' Em) as (G' & He & _). by exists G'. Qed.

Lemma key_op_evolves G s op : sound G s -> exists G', evolves G s G' (key_op local custody op s).
Proof.
  intros Hs. destruct op as [has_keyring plan payload|ws|fuel limit|subject|]; cbn [key_op].
  - eapply Tr_run, Tr_atomically, Tr_prepare; done.
  - by eapply Tr_run, Tr_rotate.
  - by eapply Tr_run, Tr_rewrap.
  - by eapply Tr_run, Tr_read.
  - exists G. apply evolves_data; [done| |done]. by destruct Hs.
Qed.
Lemma key_ops_evolves ops : forall G s, sound G s -> exists G', evolves G s G' (key_ops local custody ops s).
Proof.
  induction ops as [|op ops IH]; intros G s Hs; [exists G; by apply evolves_data|].
  destruct (key_op_evolves G s op Hs) as (G1 & He1). destruct (IH G1 _ (ev_sound _ _ _ _ He1)) as (G2 & He2).
  exists G2. by eapply evolves_trans.
Qed.

(** A store from before there were workspace keys: data keys under the instance's. *)
Definition legacy_row (subject : N) (r : ContentKeyRow) : Prop :=
  ck_shredded r = None /\ ck_wk r = None
  /\ exists w k key, ck_kek r = Some (w_kek w) /\ ck_wrapped r = Some (w_blob w) /\ parse_workspace_kek_id (w_kek w) = None
       /\ local_kek local (w_kek w) = Ok k /\ kek_open k (wrap_aad subject) (w_blob w) = Ok key.
Definition start (legacy : gmap N ContentKeyRow) : Keys :=
  {| content_keys := legacy; workspace_keys := ∅; open_keys := ∅; pending := ∅; draws := 0 |}.

Lemma start_sound legacy : map_Forall legacy_row legacy -> sound ∅ (start legacy).
Proof.
  intros Hl. split.
  - split; [apply map_Forall_empty| |].
    + intros subject r Hr _. destruct (Hl subject r Hr) as (_ & Hwk & w & k & key & Hk & Hb & Hp & Hkk & Ho).
      exists w, key. split_and!; [done|done| |congruence|congruence]. unfold data_content. rewrite Hp. by exists k.
    + intros subject r Hr Hn. by destruct (Hl subject r Hr) as [? _].
  - intros id e. simpl. by rewrite lookup_empty.
  - apply map_Forall_empty.
  - intros id [k Hk]. by rewrite lookup_empty in Hk.
Qed.

Lemma holds_not_gone G s subject key : holds G s subject key -> ~ gone s subject.
Proof. intros (r & x & Hr & Hn & _) (r' & Hr' & Hn'). congruence. Qed.

(** Whether a data key was destroyed. *)
Definition was_shredded (s : Keys) (subject : N) : bool :=
  match content_keys s !! subject with Some r => bool_decide (ck_shredded r <> None) | None => false end.
Lemma was_shredded_gone s subject : was_shredded s subject = true <-> gone s subject.
Proof.
  unfold was_shredded, gone. split.
  - destruct (content_keys s !! subject) as [r|]; [|done]. intros Hb%bool_decide_eq_true. by exists r.
  - intros (r & -> & Hn). by apply bool_decide_eq_true.
Qed.



Lemma placed_active G s subject r :
  sound G s -> content_keys s !! subject = Some r -> ck_shredded r = None -> placed s subject ->
  exists id k, ck_wk r = Some id /\ workspace_keys s !! id = Some k /\ wk_retired k = None.
Proof.
  intros Hs Hr Hn (r' & Hr' & Hm). simplify_eq. unfold misplaced in Hm. rewrite bool_decide_true in Hm by done. simpl in Hm.
  destruct (tb_live _ _ _ (so_tab _ _ Hs) _ _ Hr Hn) as (x & key & _ & _ & _ & _ & Hl). destruct (ck_wk r) as [id|]; [|done].
  destruct (Hl id eq_refl) as (k & Hk & _). rewrite Hk in Hm. exists id, k. split_and!; [done|done|].
  apply bool_decide_eq_false in Hm. by apply eq_None_not_Some.
Qed.

Lemma doomed_sub s : dom (doomed s) ⊆ dom (workspace_keys s).
Proof. intros id. rewrite !elem_of_dom. intros [r Hr]. exists r. by apply map_lookup_filter_Some in Hr as [? _]. Qed.

(** The three loops. *)
Lemma rewrap_ends G s limit :
  sound G s ->
  exists p1 s1 p2 s2 p3 s3 enough,
    (exists G1, sound G1 s1) /\ (exists G2, sound G2 s2) /\ (exists G3, sound G3 s3)
    /\ paged_post workspace_keys limit skipped any tidy s 0 no_pass p1 s1
    /\ paged_post content_keys limit moves_skipped ws_grown in_place s1 0 (∅, p1) p2 s2
    /\ paged_post workspace_keys limit skipped marked settled s2 0 p2.2 p3 s3
    /\ forall fuel, enough <= fuel -> rewrap local custody fuel limit s = (Ok (Some p3), s3).
Proof.
  intros Hs.
  destruct (paged_ends workspace_keys workspace_keys (fun _ => foreign custody) _ _ limit _ _ _
              (fun _ _ => eq_refl) (fun _ => reflexivity _) any_preorder (rewrap_body limit)
              (fun _ _ _ _ Hn => Hn) tidy_stable _ G s 0 no_pass Hs (reflexivity _)) as (p1 & s1 & G1 & He1 & Hp1 & Hr1).
  destruct (paged_ends content_keys content_keys misplaced _ _ limit _ _ _
              (page_rows_ids limit) (fun _ => reflexivity _) ws_grown_preorder (moves_body limit)
              unwanted_in_place in_place_stable _ G1 s1 0 (∅, p1) (ev_sound _ _ _ _ He1) (reflexivity _)) as (p2 & s2 & G2 & He2 & Hp2 & Hr2).
  destruct (paged_ends workspace_keys doomed (fun _ _ => true) _ _ limit _ _ _
              (fun _ _ => eq_refl) doomed_sub marked_preorder (destroy_body limit) unwanted_settled
              settled_stable _ G2 s2 0 p2.2 (ev_sound _ _ _ _ He2) (reflexivity _)) as (p3 & s3 & G3 & He3 & Hp3 & Hr3).
  exists p1, s1, p2, s2, p3, s3,
    (S (behind (dom (workspace_keys s)) 0 + behind (dom (content_keys s1)) 0 + behind (dom (workspace_keys s2)) 0)).
  split_and!; [exists G1; apply He1|exists G2; apply He2|exists G3; apply He3|done|done|done|].
  intros fuel Hf. unfold rewrap, rewrap_workspace_keys, move_data_keys, destroy_retired, kbind. rewrite Hr1 by lia.
  rewrite Hr2 by lia. simpl. apply Hr3. lia.
Qed.

End laws.

(** ** A sample *)

Module KeySample.
(** A cipher that shows its key. *)
#[local] Instance env : SealEnv := {|
  encrypt := fun key _ aad m => Some (1%N :: key ++ aad ++ m);
  decrypt := fun key _ aad c => strip_prefix (1%N :: key ++ aad) c;
  base64_encode := fun b => b; base64_decode := Some;
  json_parse := fun _ => None;
  uuid_parse := fun t => match t with [id] => Some id | _ => None end;
  uuid_bytes := fun id => [id]
|}.
#[local] Instance env_laws : SealLaws.
Proof.
  split; [|done]. intros key nonce aad msg c [= <-]. cbn [decrypt env].
  by rewrite (proj2 (strip_prefix_Some (1%N :: key ++ aad) _ msg)) by (simpl; by rewrite <- app_assoc).
Qed.
#[local] Instance draws_env : KeyEnv := {|
  fresh_key := fun n => replicate 32 (N.of_nat n); fresh_nonce := fun n => replicate 24 (N.of_nat n);
  fresh_uuid := N.of_nat; now_at_ := fun _ => 1000%Z; uuid_text := fun id => [id]
|}.
#[local] Instance draws_laws : KeyLaws.
Proof. split; [done|done|apply _|done|]. by intros ? ? ? ? ? [= <-]. Qed.

Definition instance_key : LocalCustody := local_new (replicate 32 7%N) [].
(** The key of subject 9, from before there were workspace keys. *)
Definition legacy_blob : list N :=
  match kek_seal (primary instance_key) 0 (wrap_aad 9) (replicate 32 3%N) with Ok blob => blob | Err _ => [] end.
Definition legacy_9 : ContentKeyRow :=
  {| ck_ws := 1; ck_kek := Some (kek_id (primary instance_key)); ck_wrapped := Some legacy_blob; ck_wk := None;
     ck_created := 0; ck_shredded := None |}.
Definition legacy : gmap N ContentKeyRow := {[ 9%N := legacy_9 ]}.
Lemma legacy_legacy : map_Forall (legacy_row instance_key) legacy.
Proof.
  unfold legacy. rewrite map_Forall_singleton. split; [reflexivity|]. split; [reflexivity|].
  exists {| w_kek := kek_id (primary instance_key); w_blob := legacy_blob |}, (primary instance_key), (replicate 32 3%N).
  split; [reflexivity|]. split; [reflexivity|]. split; [vm_compute; reflexivity|]. split; vm_compute; reflexivity.
Qed.

Definition posted : Value := Object [(lit "message", Object [(lit "id", Str [5%N]); (lit "body", Str (lit "hello"))])].
Definition before : list KeyOp := [KPrepare true (PlanSeal 5 1 false) posted; KRotate 1; KRead 9].
Definition after_ : list KeyOp :=
  [KRestart; KRotate 1; KRewrap 9 2; KPrepare true (PlanSeal 6 1 false) posted; KPrepare true (PlanShred 9) posted; KRestart].
Definition store : Keys := key_ops instance_key instance_key before (start legacy).
Definition sealing (plan : Plan) : result KeyError (Sealing * Value) * Keys :=
  atomically (prepare_in_tx instance_key instance_key true plan posted) store.

Lemma run_eq {A B} (p : A * B) a : p.1 = a -> p = (a, p.2).
Proof. destruct p. by intros <-. Qed.



End KeySample.
